(* ===== verification/_CoqProject ===== *)
-Q . S2P
Prelude.v
Cycles.v
Rcycle.v
Avl.v
Heap.v
Sbalance.v
SbalanceGo.v
HashTable.v
Bconf.v
BconfPrint.v
BconfReach.v
GoBconf.v
Config.v
Vtree.v
BconfVtree.v
Settings.v
FdPool.v
FdPoolConn.v
FdPoolGet.v
FdPoolExamples.v
BufString.v
Strings.v
JsonVtree.v
VtreeLiteral.v
Encoding.v
Latin.v
Lru.v
LruThreads.v
CachedRegex.v
QueryString.v
Stringmap.v
Acl.v
Controller.v
ControllerProofs.v
ControllerThreads.v
Levenshtein.v
SdQueue.v
Fdgets.v
Mempool.v
Bitfield.v
Dates.v
GoPool.v
GoPoolRefs.v
GoPoolConn.v
GoPoolSafe.v
GoPoolExamples.v
SdEtcd.v
GoPoolSd.v
EtcdClient.v
EtcdExamples.v
FdPoolSd.v
