(* ===== verification/Prelude.v ===== *)
(** Verification of sebase: a C and Go library of utilities, configuration trees
    and the HTTP controller that its daemons share.

    * The program and its parts

    src/util holds the data structures and text functions everything else uses;
    src/vtree the configuration trees (bconf) and the interface through which
    programs read configuration (vtree); src/core what daemons are built from:
    pools of connections to services, the HTTP controller with its access lists,
    and their counterparts in Go.  A daemon reads its configuration into a bconf
    tree, hands it as a vtree to the libraries, opens connections through a pool
    that picks a service with the balancer, and is controlled over HTTP.

    * The files

    Each file models the sources it names with the functions of the same name.

    - Prelude: machine integers with their wrap-around, byte strings, the class
      [CmpOrder] of comparison callbacks, list lemmas, hints and tactics.
    - Cycles, Rcycle: util/lib/rcycle.c, the generator of random permutations.
      Cycles is the arithmetic of periods.
    - Avl, Heap: util/lib/subr_avl.c with avl.h and the macros of util/lib/heap.h.
      Avl also defines the interface [OrderedSet] that its clients use.
    - Sbalance, SbalanceGo: util/lib/sbalance.c, the balancer over a [Cycler] and
      [Drand], and its Go counterpart util/pkg/sbalance over [Rng].
    - HashTable: util/lib/hash.c, chained and perfect hashing.
    - BufString, Strings, Encoding, Latin: util/lib/buf_string.c,
      string_functions.c, base64.c, the escaping of url.c and utf8.c.
    - Lru, LruThreads: util/lib/lru.c, the cache over [OrderedSet]; calls, and the
      accesses of threads as a step relation.
    - CachedRegex: util/lib/cached_regex.c, over the class [Pcre]; its threads
      are a step relation.
    - Stringmap: util/lib/stringpool.c and stringmap.c, over [OrderedSet].
    - Bconf, BconfPrint, BconfReach: vtree/lib/bconf.c; the tree and its
      operations, its text, and the trees that operations can build.
    - GoBconf: vtree/pkg/bconf/go.go and bconf.go, the tree of the Go programs.
    - Config: vtree/lib/config.c, configuration files and their sections.
    - Vtree, BconfVtree: vtree/lib/vtree.c with the class [VtreeBackend], and
      vtree/lib/bconf_vtree.c, its instance.
    - JsonVtree: vtree/lib/json_vtree.c, from the events of the JSON parser to a
      tree, and from a tree to JSON text.
    - VtreeLiteral: vtree/lib/vtree_literal.c and vtree_value.c, trees given as
      lists, a [VtreeBackend] on top of any other.
    - Settings: vtree/lib/settings.c, over any [VtreeBackend].
    - FdPool, FdPoolConn, FdPoolGet, FdPoolExamples: core/lib/fd_pool.c, nodes
      and services, connections, what getting a connection tries, examples.
    - QueryString: core/lib/parse_query_string.c and split_url of url.c.
    - Acl: the access lists of core/lib/controller.c, and core/pkg/acl/acl.go with
      its use in core/pkg/sapp/sapp.go.
    - Controller, ControllerProofs, ControllerThreads: core/lib/controller.c; a
      request from the events of the parser (class [HttpParser]) to its response,
      and the listen thread, the workers and the shutdown as a step relation.
    - SdQueue: core/lib/sd_queue.c, the queue between service discovery and pools.
    - Levenshtein: core/lib/levenshtein.c, over the character macro of ICU.
    - Fdgets, Mempool, Bitfield, Dates: util/lib/fdgets.c, mempool.c, bitfield.h
      and date_functions.c.
    - GoPool, GoPoolRefs, GoPoolConn, GoPoolSafe, GoPoolExamples: the Go pool of
      core/pkg/fd_pool/gopool.go and config.go over the Go balancer; its operations,
      reference counts, a connection, all users interleaved, examples.
    - SdEtcd, GoPoolSd: service discovery of the Go programs: the responses of
      core/internal/pkg/etcdlight, the watcher of core/pkg/sd/etcd, names of
      services, the registration of core/pkg/sapp/sd.go over the class [Etcd],
      and the reader of core/pkg/fd_pool/sd.go.
    - EtcdClient, EtcdExamples, FdPoolSd: the same in C: core/lib/etcdclient.c
      from responses to queues, and core/lib/fd_pool_sd.c from queues to hosts.

    * State, effects and errors

    A structure is a record, a tagged union an inductive type.  Code that changes
    a structure takes it and returns it; pointers into a structure that others
    share are identities (numbers) in a map, or positions.  [None] means that the
    code has undefined behaviour, aborts or exits, as each file's header says, so
    a theorem that an operation returns [Some] includes that it does none of
    these; an error code of the source is an ordinary result.  Machine integers
    are [Z] with explicit wrap-around ([u32], [i32], ...).  What the operating
    system or a library answers is an argument (outcomes of connects, random
    numbers, the results of write), or a class whose laws are what its
    documentation says; each class has an instance that satisfies them.

    * What the theorems show

    - Data structures: the tree, heap, hash table and string map implement ordered
      sets, priority queues, finite maps and multimaps (refinement); balance,
      order and counters are invariants; the iterators and the perfect hash find
      exactly what they should.
    - The generator returns every number of its range once per cycle, for ranges
      below 2^30 - 1 but those of 25 bits, and the balancers, in C and in Go, every
      service once per round, in bounded time.
    - The cache holds each entry once and evicts the oldest entries that nobody
      uses; its size is the sum of theirs but for stores under way and additions
      that a race loses.
    - Text: encoders and decoders are inverse, parsers accept exactly their
      language, and writers stay in their buffers.
    - Configuration: a bconf tree is a map from paths to values under adding,
      merging, deleting and filtering; every tree that can be built is well
      formed and operations on it defined, but for strings copied over shorter
      binary data; its JSON text denotes it; shadow
      and prefix trees and the cache answer as the trees below them.  The Go tree
      behaves as the C tree.  Reading a configuration file adds its assignments,
      and merging prefers the most specific section; settings written with quotes
      and escapes are read back; JSON is read into the tree it denotes, and a
      tree that is printed and read again has the same values, both within the
      limits of the reader that their theorems state.  Literal trees
      answer as the trees they are.
    - Pools: reference counts are exact, no connection dangles and no descriptor
      is lost or given out twice; getting a connection tries every port.
    - Controller: no handler runs on a request that the access list denies; the C
      and Go lists agree on decoded paths; patterns match exactly the urls they
      describe, for requests without brackets; every complete request is answered,
      by handlers without data of their own; every connection is in one place until
      the last stage of the shutdown, which closes descriptors twice; no wake-up is
      lost and the shutdown terminates.
    - Go pools: with any users and updates interleaved, but without resetting a
      connection that was put back, nothing panics, the counts are the holders and
      what failed updates leak, and every connection is in one place; getting one
      ends within a number of dials.
    - Memory: the blocks of a pool are apart and in their mappings, but for sizes
      that its header does not fit with; lines come back as they are in the text if
      reads end at lines; bit fields are sets; dates move by days.
    - Service discovery: what etcd holds for a service is what the pools get.  In C
      a response whose indexes do not grow within it goes to every listener in one
      batch, and the tree of hosts follows the values of the queue; in Go the hosts read are those of the tree.  Both
      use the most specific sections of a configuration.
    The comment of a theorem names its conditions.  Theorems about concrete inputs
    at the end of files show where the code does not do what it means to, which is
    what these conditions leave out.

    * Bounds and fuel

    Loops that are not structural take fuel, computed from the input: the length
    of the string or array, the height of a tree, the calls a balancer has left;
    the theorems prove that this is enough, since running out is [None] and the
    results are shown to be [Some].  Sending a response writes at least one byte
    per turn, so its fuel is the length of the data.  The retries of
    [fd_pool_conn_writev] have as many turns as their caller allows.  Printing a
    tree takes its height, and a literal tree as many levels as arguments.
    The periods of the shift registers are computed by the kernel for all widths
    from 2 to 30 bits; that of 25 bits is not maximal.

    * Not modelled

    - Allocation: growth of arrays, freeing and failing malloc.  The exceptions are
      the memory pools and where freeing is the point: reference counts of the
      pools, callbacks of the hash table, values owned by a bconf tree.
    - Wrappers of libraries: libcurl (util/lib/http.c), OpenSSL (tls.c, aes.c),
      PCRE beyond its class, Yajl beyond its events, the vendored libraries.
    - The system: sockets, files, processes and signals (sock_util.c,
      create_socket.c, daemon.c, platform_app.c, the programs under bin), epoll
      and kqueue, statistics in shared memory, logging to plogd and plogd itself.
    - The requests of service discovery: transfers and the C registration
      (sd_registry.c, sd_etcd.c, sd_reload.c), which drive libcurl from threads;
      their answers are arguments.  The Go applications, which start processes and
      bind the C libraries.
    - Floating point: the random delays and weights of the balancer are the
      abstract operations of [Drand] and [Rng], and the percentage of
      similarity_by_distance is left out. *)
From stdpp Require Import prelude list numbers sorting.
From stdpp Require Export strings.
From Stdlib Require Import ZArith Lia Znumtheory.

Local Open Scope Z_scope.

(** * C integer types *)

(** Unsigned and two's complement signed conversion to [w] bits. *)
Definition uwrap (w z : Z) : Z := z mod 2 ^ w.
Definition swrap (w z : Z) : Z := (z + 2 ^ (w - 1)) mod 2 ^ w - 2 ^ (w - 1).

Declare Scope cint_scope.
Delimit Scope cint_scope with cint.
Notation "'u8' x" := (uwrap 8 x) (at level 9, x at level 9) : cint_scope.
Notation "'u32' x" := (uwrap 32 x) (at level 9, x at level 9) : cint_scope.
Notation "'u64' x" := (uwrap 64 x) (at level 9, x at level 9) : cint_scope.
Notation "'i32' x" := (swrap 32 x) (at level 9, x at level 9) : cint_scope.
Notation "'schar' x" := (swrap 8 x) (at level 9, x at level 9) : cint_scope.
Infix ".^" := Z.lxor (at level 45, left associativity) : cint_scope.
Infix ".&" := Z.land (at level 43, left associativity) : cint_scope.
Infix ".|" := Z.lor (at level 47, left associativity) : cint_scope.
Infix ">>" := Z.shiftr (at level 41, left associativity) : cint_scope.
Infix "<<" := Z.shiftl (at level 41, left associativity) : cint_scope.
Open Scope cint_scope.

Lemma uwrap_small w z : 0 <= z < 2 ^ w -> uwrap w z = z.
Proof. intros; apply Z.mod_small; lia. Qed.

Lemma uwrap_range w z : 0 <= w -> 0 <= uwrap w z < 2 ^ w.
Proof. intros; apply Z.mod_pos_bound; lia. Qed.

Lemma swrap_small w z :
  1 <= w -> - 2 ^ (w - 1) <= z < 2 ^ (w - 1) -> swrap w z = z.
Proof.
  intros Hw Hz. unfold swrap.
  assert (2 ^ w = 2 * 2 ^ (w - 1)) as E
    by (rewrite <- Z.pow_succ_r by lia; f_equal; lia).
  rewrite Z.mod_small; lia.
Qed.

Create HintDb cint discriminated.
#[export] Hint Resolve uwrap_range : cint.

(** Goals with division by constants. *)
Ltac zdiv := Z.to_euclidean_division_equations; lia.

(** * Bits *)

Lemma Zbits_above z n i : 0 <= z < 2 ^ n -> 0 <= n <= i -> Z.testbit z i = false.
Proof.
  intros Hz Hi. rewrite <- (Z.mod_small z (2 ^ n)) by done.
  apply Z.mod_pow2_bits_high. lia.
Qed.

Lemma lt_pow2_of_bits z n :
  0 <= z -> 0 <= n -> (forall i, n <= i -> Z.testbit z i = false) -> z < 2 ^ n.
Proof.
  intros Hz Hn Hbits. destruct (decide (z = 0)) as [->|]; [lia|].
  apply Z.log2_lt_pow2; [lia|]. apply Z.lt_nge. intros Hle.
  pose proof (Hbits _ Hle) as H. rewrite Z.bit_log2 in H by lia. done.
Qed.

Lemma lxor_lt_pow2 a b n :
  0 <= n -> 0 <= a < 2 ^ n -> 0 <= b < 2 ^ n -> Z.lxor a b < 2 ^ n.
Proof.
  intros Hn Ha Hb. apply lt_pow2_of_bits; [apply Z.lxor_nonneg; lia|done|].
  intros i Hi. by rewrite Z.lxor_spec, !(Zbits_above _ n).
Qed.

Lemma land_lt_pow2 a b n : 0 <= n -> 0 <= b < 2 ^ n -> 0 <= Z.land a b < 2 ^ n.
Proof.
  intros Hn Hb. split; [apply Z.land_nonneg; lia|].
  apply lt_pow2_of_bits; [apply Z.land_nonneg; lia|done|].
  intros i Hi. rewrite Z.land_spec, (Zbits_above b n) by lia. apply andb_false_r.
Qed.

(** * Comparison functions

    The tree, heap and node containers take a C comparison function that
    returns a negative, zero or positive [int].  [CmpOrder] is what they rely
    on: the sign is that of a total preorder. *)

Class CmpOrder {A} (cmp : A -> A -> Z) : Prop := {
  cmp_opp x y : Z.sgn (cmp x y) = - Z.sgn (cmp y x);
  cmp_trans x y z : cmp x y <= 0 -> cmp y z <= 0 -> cmp x z <= 0
}.

Section CmpOrder.
Context {A} (cmp : A -> A -> Z) `{!CmpOrder cmp}.

Lemma cmp_swap_lt x y : 0 < cmp x y <-> cmp y x < 0.
Proof. pose proof (cmp_opp x y). pose proof (cmp_opp y x). lia. Qed.

Lemma cmp_swap_le x y : 0 <= cmp x y <-> cmp y x <= 0.
Proof. pose proof (cmp_swap_lt y x). lia. Qed.

Lemma cmp_swap_eq x y : cmp x y = 0 <-> cmp y x = 0.
Proof. pose proof (cmp_swap_lt y x). pose proof (cmp_swap_lt x y). lia. Qed.

Lemma cmp_refl x : cmp x x = 0.
Proof. pose proof (cmp_opp x x). lia. Qed.

Lemma cmp_lt_le_trans x y z : cmp x y < 0 -> cmp y z <= 0 -> cmp x z < 0.
Proof.
  intros Hxy Hyz. apply cmp_swap_lt. apply Z.lt_nge. intros Hge.
  apply (Zlt_not_le _ _ Hxy), cmp_swap_le. by apply (cmp_trans _ z).
Qed.

Lemma cmp_le_lt_trans x y z : cmp x y <= 0 -> cmp y z < 0 -> cmp x z < 0.
Proof.
  intros Hxy Hyz. apply cmp_swap_lt. apply Z.lt_nge. intros Hge.
  apply (Zlt_not_le _ _ Hyz), cmp_swap_le. by apply (cmp_trans _ x).
Qed.

Lemma cmp_eq_trans x y z : cmp x y = 0 -> cmp y z = 0 -> cmp x z = 0.
Proof.
  intros Hxy Hyz. pose proof (cmp_trans x y z). pose proof (cmp_trans z y x).
  pose proof (proj1 (cmp_swap_eq _ _) Hxy). pose proof (proj1 (cmp_swap_eq _ _) Hyz).
  pose proof (cmp_swap_le x z). lia.
Qed.
End CmpOrder.

#[export] Instance Zsub_order : CmpOrder Z.sub.
Proof. split; intros; lia. Qed.

(** * Lists *)

Lemma StronglySorted_mid {A} (R : relation A) `{!Transitive R} l x r :
  StronglySorted R (l ++ x :: r) <->
  StronglySorted R l /\ StronglySorted R r /\
  (forall y, y ∈ l -> R y x) /\ (forall y, y ∈ r -> R x y).
Proof.
  rewrite StronglySorted_app. split.
  - intros (Hlr & Hl & [Hr Hx]%StronglySorted_inv). rewrite list.Forall_forall in Hx.
    repeat split; auto. intros y Hy. apply Hlr; [done|left].
  - intros (Hl & Hr & Hlx & Hxr). split; [|split; [done|]].
    + intros y z Hy [->|Hz]%elem_of_cons; [auto|]. transitivity x; auto.
    + constructor; [done|]. by apply list.Forall_forall.
Qed.

Lemma filter_all {A} (P : A -> Prop) `{!forall x, Decision (P x)} (l : list A) :
  (forall x, x ∈ l -> P x) -> filter P l = l.
Proof.
  induction l as [|x l IH]; intros Hl; [done|].
  rewrite filter_cons_True by (apply Hl; left). f_equal. apply IH. intros y Hy. apply Hl. by right.
Qed.

Lemma filter_none {A} (P : A -> Prop) `{!forall x, Decision (P x)} (l : list A) :
  (forall x, x ∈ l -> ~ P x) -> filter P l = [].
Proof.
  induction l as [|x l IH]; intros Hl; [done|].
  rewrite filter_cons_False by (apply Hl; left). apply IH. intros y Hy. apply Hl. by right.
Qed.

(** * Byte strings *)

(** A C string is the list of its bytes, without the terminator. *)

Definition bytes (s : String.string) : list Z :=
  map (fun a => Z.of_N (Ascii.N_of_ascii a)) (String.list_ascii_of_string s).
Arguments bytes s%_string.

Definition byte (c : Z) : Prop := 0 <= c < 256.
Definition char (c : Z) : Prop := 0 < c < 256.

(** The string in a buffer: the bytes up to the first zero. *)
Fixpoint cstr (s : list Z) : list Z :=
  match s with [] => [] | c :: s => if c =? 0 then [] else c :: cstr s end.

Definition isdigit (c : Z) : bool := (48 <=? c) && (c <=? 57).

Definition isspace (c : Z) : bool := (c =? 32) || ((9 <=? c) && (c <=? 13)).

(** The value of a run of digits after [acc]. *)
Fixpoint digits (acc : Z) (s : list Z) : Z :=
  match s with
  | c :: s => if isdigit c then digits (acc * 10 + (c - 48)) s else acc
  | [] => acc
  end.

Fixpoint skip_space (s : list Z) : list Z :=
  match s with
  | c :: r => if isspace c then skip_space r else s
  | [] => []
  end.

(** atoi: strtol in base 10, which saturates, converted to int. *)
Definition atoi (s : list Z) : Z :=
  let n := match skip_space s with
           | 45 :: r => - digits 0 r
           | 43 :: r => digits 0 r
           | r => digits 0 r
           end in
  swrap 32 (Z.max (- 2 ^ 63) (Z.min (2 ^ 63 - 1) n)).

(** Lexicographic comparison of byte lists. *)
Fixpoint lexcmp (a b : list Z) : Z :=
  match a, b with
  | [], [] => 0
  | [], _ :: _ => -1
  | _ :: _, [] => 1
  | x :: a, y :: b => if x =? y then lexcmp a b else x - y
  end.

Lemma lexcmp_eq a b : lexcmp a b = 0 <-> a = b.
Proof.
  revert b. induction a as [|x a IH]; intros [|y b]; simpl; try done.
  destruct (Z.eqb_spec x y) as [->|Hne].
  - rewrite IH. split; congruence.
  - split; [lia|congruence].
Qed.

#[export] Instance lexcmp_order : CmpOrder lexcmp.
Proof.
  split.
  - intros a. induction a as [|x a IH]; intros [|y b]; simpl; try done.
    rewrite (Z.eqb_sym y x). destruct (Z.eqb_spec x y); [apply IH|lia].
  - intros a. induction a as [|x a IH]; intros [|y b] [|z c]; simpl; try lia.
    destruct (Z.eqb_spec x y), (Z.eqb_spec y z), (Z.eqb_spec x z); subst; try lia; try done.
    apply IH.
Qed.

Lemma StronglySorted_lookup {A} (R : relation A) l i j x y :
  StronglySorted R l -> l !! i = Some x -> l !! j = Some y -> (i < j)%nat -> R x y.
Proof.
  intros Hs. revert i j. induction Hs as [|z l Hs IH Hz]; intros i j Hi Hj Hij; [done|].
  destruct j as [|j]; [lia|]. destruct i as [|i]; simpl in *.
  - simplify_eq. rewrite list.Forall_forall in Hz. apply Hz. by eapply list_elem_of_lookup_2.
  - apply (IH i j); auto. lia.
Qed.

Lemma concat_delete {A B} (f : A -> list B) l i x :
  l !! i = Some x -> concat (map f l) ≡ₚ f x ++ concat (map f (delete i l)).
Proof.
  revert i. induction l as [|z l IH]; intros [|i] Hi; [done..| |]; [by injection Hi as <-|].
  simpl. by rewrite (IH i Hi), Permutation_app_swap_app.
Qed.
