(* ===== verification/Cycles.v ===== *)
(** Cycles: the period of an iterated function, and the arithmetic that lets
    the kernel compute the period of a 30-bit linear feedback shift register
    without walking it.  Nothing here is specific to the program; [Rcycle]
    applies it to src/util/lib/rcycle.c. *)
From stdpp Require Import prelude list numbers.
From Stdlib Require Import ZArith Lia Znumtheory.
From S2P Require Import Prelude.

Local Open Scope Z_scope.

(** * Periods of an iterated function *)

Section Period.
Context {A : Type} (f : A -> A).

Lemma iter_add (n m : nat) x : Nat.iter (n + m) f x = Nat.iter n f (Nat.iter m f x).
Proof. induction n; simpl; congruence. Qed.

Lemma iter_comm (n : nat) x : Nat.iter n f (f x) = f (Nat.iter n f x).
Proof. induction n; simpl; congruence. Qed.

Definition period (e : A) (n : nat) : Prop := Nat.iter n f e = e.

Lemma period_sub e n m : period e n -> period e m -> (n <= m)%nat -> period e (m - n).
Proof.
  unfold period. intros Hn Hm Hle.
  assert (Nat.iter ((m - n) + n) f e = e) as H
    by (by replace (m - n + n)%nat with m by lia).
  by rewrite iter_add, Hn in H.
Qed.

Lemma period_mul e n k : period e n -> period e (k * n).
Proof.
  unfold period. intros Hn. induction k as [|k IH]; [done|].
  simpl. by rewrite iter_add, IH.
Qed.

Lemma period_gcd e n m : period e n -> period e m -> period e (Nat.gcd n m).
Proof.
  assert (forall b k a, (a + k <= b)%nat -> period e a -> period e k ->
    period e (Nat.gcd a k)) as H.
  { induction b as [b IH] using lt_wf_ind. intros k a Hb Ha Hk.
    destruct (decide (a = 0)%nat) as [->|]; [done|].
    destruct (decide (k = 0)%nat) as [->|]; [by rewrite Nat.gcd_0_r|].
    destruct (decide (a <= k)%nat).
    - replace k with ((k - a) + a)%nat by lia. rewrite Nat.gcd_add_diag_r.
      apply (IH (b - 1)%nat); [lia|lia|done|by apply period_sub].
    - rewrite Nat.gcd_comm. replace a with ((a - k) + k)%nat by lia.
      rewrite Nat.gcd_add_diag_r, Nat.gcd_comm.
      apply (IH (b - 1)%nat); [lia|lia|apply period_sub; [done|done|lia]|done]. }
  intros. by eapply H.
Qed.

(** [n] is the least period of [e] when it is a period and no quotient of it
    by one of its prime divisors is; [ps] lists those primes. *)
Lemma period_distinct e (n : nat) (ps : list nat) :
  (0 < n)%nat -> period e n ->
  (forall q, Nat.divide q n -> (1 < q)%nat -> exists p, p ∈ ps /\ Nat.divide p q) ->
  (forall p, p ∈ ps -> (0 < p)%nat /\ ~ period e (n / p)) ->
  forall i j, (i < j < n)%nat -> Nat.iter i f e <> Nat.iter j f e.
Proof.
  intros Hpos Hn Hps Hnot i j Hij Heq.
  set (k := (n - j + i)%nat).
  assert (period e k) as Hk.
  { unfold period, k. rewrite iter_add, Heq, <- iter_add.
    replace (n - j + j)%nat with n by lia. exact Hn. }
  pose proof (period_gcd e k n Hk Hn) as Hg.
  set (g := Nat.gcd k n) in *.
  assert (Nat.divide g n) as [q Hq] by apply Nat.gcd_divide_r.
  assert (Nat.divide g k) as Hgk by apply Nat.gcd_divide_l.
  apply Nat.divide_pos_le in Hgk; [|lia].
  destruct (Hps q) as (p & Hin & [r Hr]);
    [exists g; lia| destruct q as [|[|q]]; lia|].
  destruct (Hnot p Hin) as [Hp Hno]. apply Hno.
  replace (n / p)%nat with (r * g)%nat; [by apply period_mul|].
  assert (n = r * g * p)%nat as E by nia.
  rewrite E at 1. by rewrite Nat.div_mul by lia.
Qed.
End Period.

(** * A single cycle through a finite range *)

Section FullCycle.
Context (f : Z -> Z).

Fixpoint walk (m : nat) (x : Z) : list Z :=
  match m with
  | O => []
  | S m => x :: walk m (f x)
  end.

Lemma walk_length m x : length (walk m x) = m.
Proof. revert x; induction m; intros; simpl; congruence. Qed.

Lemma walk_lookup m x i : (i < m)%nat -> walk m x !! i = Some (Nat.iter i f x).
Proof.
  revert x i. induction m as [|m IH]; intros x [|i] Hi; try lia; [done|].
  simpl. rewrite IH by lia. by rewrite iter_comm.
Qed.

Context (N : nat) (e : Z).
Hypothesis Hclosed : forall x, 1 <= x <= Z.of_nat N -> 1 <= f x <= Z.of_nat N.
Hypothesis He : 1 <= e <= Z.of_nat N.
Hypothesis Hper : period f e N.
Hypothesis Hdist : forall i j, (i < j < N)%nat -> Nat.iter i f e <> Nat.iter j f e.

Lemma iter_closed n x : 1 <= x <= Z.of_nat N -> 1 <= Nat.iter n f x <= Z.of_nat N.
Proof. intros Hx; induction n; simpl; auto. Qed.

Lemma walk_perm_of_nodup x :
  1 <= x <= Z.of_nat N -> NoDup (walk N x) -> walk N x ≡ₚ seqZ 1 (Z.of_nat N).
Proof.
  intros Hx Hnd.
  apply submseteq_length_Permutation; [|rewrite walk_length, length_seqZ; lia].
  apply NoDup_submseteq; [done|]. intros y [i Hi]%list_elem_of_lookup.
  pose proof (lookup_lt_Some _ _ _ Hi) as Hlt. rewrite walk_length in Hlt.
  rewrite walk_lookup in Hi by done. simplify_eq.
  apply elem_of_seqZ. pose proof (iter_closed i x Hx). lia.
Qed.

Lemma nodup_walk_of_distinct x :
  (forall i j, (i < j < N)%nat -> Nat.iter i f x <> Nat.iter j f x) -> NoDup (walk N x).
Proof.
  intros H. apply NoDup_alt. intros i j y Hi Hj.
  pose proof (lookup_lt_Some _ _ _ Hi) as Hi'. pose proof (lookup_lt_Some _ _ _ Hj) as Hj'.
  rewrite walk_length in Hi', Hj'. rewrite walk_lookup in Hi, Hj by done. simplify_eq.
  destruct (decide (i < j)%nat); [by destruct (H i j); [lia|]|].
  destruct (decide (j < i)%nat); [by destruct (H j i); [lia|]|]. lia.
Qed.

(** Every point of [1, N] lies on the cycle of [e]. *)
Lemma cycle_reaches x :
  1 <= x <= Z.of_nat N -> exists j, (j < N)%nat /\ x = Nat.iter j f e.
Proof.
  intros Hx.
  assert (x ∈ walk N e) as [j Hj]%list_elem_of_lookup.
  { rewrite walk_perm_of_nodup by auto using nodup_walk_of_distinct.
    apply elem_of_seqZ. lia. }
  pose proof (lookup_lt_Some _ _ _ Hj) as Hlt. rewrite walk_length in Hlt.
  rewrite walk_lookup in Hj by done. exists j. by simplify_eq.
Qed.

(** Walking [N] steps from any point of [1, N] visits each point exactly once. *)
Lemma walk_full x :
  1 <= x <= Z.of_nat N -> walk N x ≡ₚ seqZ 1 (Z.of_nat N).
Proof.
  intros Hx. apply walk_perm_of_nodup; [done|]. apply nodup_walk_of_distinct.
  intros i j Hij Heq. destruct (cycle_reaches x Hx) as (k & Hk & ->).
  rewrite <- !iter_add in Heq.
  apply (f_equal (Nat.iter (N - k + (N - i)) f)) in Heq.
  rewrite <- !iter_add in Heq.
  replace (N - k + (N - i) + (i + k))%nat with (2 * N)%nat in Heq by lia.
  replace (N - k + (N - i) + (j + k))%nat with ((j - i) + 2 * N)%nat in Heq by lia.
  rewrite (iter_add _ (j - i)), !(period_mul f e N 2) in Heq by done.
  apply (Hdist 0 (j - i)); [lia|done].
Qed.
End FullCycle.

(** * Certified prime factors *)

Definition prime_b (p : Z) : bool :=
  (1 <? p) && forallb (fun d => negb (p mod d =? 0)) (seqZ 2 (Z.sqrt p - 1)).

Lemma prime_b_prime p : prime_b p = true -> Z.prime p.
Proof.
  intros [Hp%Z.ltb_lt Hall]%andb_true_iff. rewrite forallb_forall in Hall.
  assert (forall d, 1 < d -> d * d <= p -> ~ (d | p)) as Hsmall.
  { intros d Hd Hsq [k Hk].
    assert (d <= Z.sqrt p) by (apply Z.sqrt_le_square; lia).
    specialize (Hall d). rewrite negb_true_iff, Z.eqb_neq in Hall. apply Hall.
    - apply list_elem_of_In, elem_of_seqZ. lia.
    - rewrite Hk. apply Z_mod_mult. }
  split; [done|]. intros n Hn [m Hm].
  destruct (decide (n * n <= p)); [by destruct (Hsmall n); [lia|lia|exists m]|].
  assert (m * m <= p) by nia.
  destruct (Hsmall m); [nia|done|exists n; lia].
Qed.

Lemma prime_divisor_exists q : 1 < q -> exists r, Z.prime r /\ (r | q).
Proof.
  intros Hq. assert (0 <= q) as Hq0 by lia. revert Hq.
  pattern q. apply Z_lt_induction; [|done]. clear q Hq0. intros q IH Hq.
  destruct (prime_dec q) as [Hp|Hnp]; [by exists q; rewrite prime_alt|].
  destruct (not_prime_divide q Hq Hnp) as (n & Hn & Hd).
  destruct (IH n) as (r & Hr & Hrn); [lia|lia|].
  exists r. split; [done|]. by transitivity n.
Qed.

Definition prime_factors_b (n : Z) (ps : list Z) : bool :=
  forallb prime_b ps && ((fold_right Z.mul 1 ps) ^ 3 mod n =? 0).

Lemma prime_divides_product r ps :
  Z.prime r -> (r | fold_right Z.mul 1 ps) -> exists p, p ∈ ps /\ (r | p).
Proof.
  intros Hr. induction ps as [|p ps IH]; simpl; intros Hd.
  - apply Z.divide_1_r in Hd. destruct Hr. lia.
  - destruct (proj1 (Z.divide_prime_mul _ _ r Hr) Hd) as [Hd'|Hd'].
    + exists p. split; [left|done].
    + destruct (IH Hd') as (p' & Hin & ?). exists p'. split; [by right|done].
Qed.

Lemma prime_factors_spec n ps q :
  0 < n -> prime_factors_b n ps = true -> (q | n) -> 1 < q ->
  exists p, p ∈ ps /\ Z.prime p /\ (p | q).
Proof.
  intros Hn [Hps Hprod%Z.eqb_eq]%andb_true_iff Hqn Hq.
  rewrite forallb_forall in Hps.
  destruct (prime_divisor_exists q Hq) as (r & Hr & Hrq).
  apply Z.mod_divide in Hprod; [|lia].
  assert (r | fold_right Z.mul 1 ps) as Hrp.
  { assert (r | fold_right Z.mul 1 ps ^ 3) as H
      by (transitivity q; [done|by transitivity n]).
    replace (fold_right Z.mul 1 ps ^ 3) with
      (fold_right Z.mul 1 ps * (fold_right Z.mul 1 ps * fold_right Z.mul 1 ps)) in H
      by (change 3 with (Z.succ (Z.succ 1)); rewrite !Z.pow_succ_r, Z.pow_1_r; lia).
    destruct (proj1 (Z.divide_prime_mul _ _ r Hr) H) as [|H']; [done|].
    by destruct (proj1 (Z.divide_prime_mul _ _ r Hr) H'). }
  destruct (prime_divides_product r ps Hr Hrp) as (p & Hin & Hd).
  assert (Z.prime p) by (apply prime_b_prime, Hps, list_elem_of_In, Hin).
  assert (r = p) as -> by (by apply Z.divide_prime_prime). by exists p.
Qed.

(** * Linear maps over GF(2), as the list of images of the basis 1, 2, 4, ... *)

Fixpoint lin_app (m : list Z) (v : Z) : Z :=
  match m with
  | [] => 0
  | c :: m => Z.lxor (if Z.odd v then c else 0) (lin_app m (Z.div2 v))
  end.

Definition lin_mul (a b : list Z) : list Z := map (lin_app a) b.

Fixpoint squares (n : nat) (m : list Z) : list (list Z) :=
  match n with
  | O => []
  | S n => m :: squares n (lin_mul m m)
  end.

(** [lin_iter (squares n m) k v] applies [m] to [v] [k] times, reading the
    binary digits of [k] against the repeated squares of [m]. *)
Fixpoint lin_iter (sq : list (list Z)) (k : positive) (v : Z) : Z :=
  match sq with
  | [] => v
  | m :: sq =>
    match k with
    | xH => lin_app m v
    | xO k => lin_iter sq k v
    | xI k => lin_iter sq k (lin_app m v)
    end
  end.

Lemma lin_app_0 m : lin_app m 0 = 0.
Proof. induction m as [|c m IH]; simpl; [done|]. by rewrite IH. Qed.

Lemma lin_app_lxor m a b : lin_app m (Z.lxor a b) = Z.lxor (lin_app m a) (lin_app m b).
Proof.
  revert a b. induction m as [|c m IH]; intros a b; simpl; [done|].
  rewrite !Z.div2_spec, Z.shiftr_lxor, <- !Z.div2_spec, IH.
  assert (Z.odd (Z.lxor a b) = xorb (Z.odd a) (Z.odd b)) as ->
    by (rewrite <- !Z.bit0_odd; apply Z.lxor_spec).
  apply Z.bits_inj'; intros i Hi. rewrite !Z.lxor_spec.
  destruct (Z.odd a), (Z.odd b); simpl; rewrite ?Z.bits_0;
    destruct (Z.testbit c i), (Z.testbit (lin_app m (Z.div2 a)) i),
      (Z.testbit (lin_app m (Z.div2 b)) i); reflexivity.
Qed.

Lemma lin_app_mul a b v : lin_app (lin_mul a b) v = lin_app a (lin_app b v).
Proof.
  revert v. induction b as [|c b IH]; intros v; simpl; [by rewrite lin_app_0|].
  rewrite lin_app_lxor, <- IH. f_equal. destruct (Z.odd v); [done|by rewrite lin_app_0].
Qed.

Lemma iter_lin_square m j v :
  Nat.iter j (lin_app (lin_mul m m)) v = Nat.iter (2 * j) (lin_app m) v.
Proof.
  induction j as [|j IH]; [done|].
  replace (2 * S j)%nat with (S (S (2 * j))) by lia. simpl in *.
  by rewrite IH, lin_app_mul.
Qed.

Lemma lin_iter_spec n m k v :
  (Pos.to_nat k < 2 ^ n)%nat ->
  lin_iter (squares n m) k v = Nat.iter (Pos.to_nat k) (lin_app m) v.
Proof.
  revert m k v. induction n as [|n IH]; intros m k v Hk; simpl in Hk; [lia|].
  destruct k as [k|k|]; simpl lin_iter; [| |done].
  - rewrite IH, iter_lin_square by lia.
    rewrite Pos2Nat.inj_xI. simpl. by rewrite iter_comm.
  - rewrite IH, iter_lin_square by lia. by rewrite Pos2Nat.inj_xO.
Qed.

Lemma lin_iter_Z n m k v :
  0 < k < 2 ^ Z.of_nat n ->
  lin_iter (squares n m) (Z.to_pos k) v = Nat.iter (Z.to_nat k) (lin_app m) v.
Proof.
  intros Hk. rewrite lin_iter_spec, <- Z2Nat.inj_pos, Z2Pos.id
    by (try lia; apply Nat2Z.inj_lt; rewrite positive_nat_Z, Nat2Z.inj_pow, Z2Pos.id; lia).
  done.
Qed.

Lemma prime_factors_nat n ps (q : nat) :
  0 < n -> prime_factors_b n ps = true -> Nat.divide q (Z.to_nat n) -> (1 < q)%nat ->
  exists p, p ∈ map Z.to_nat ps /\ Nat.divide p q.
Proof.
  intros Hn Hps Hq Hq1. apply Nat2Z.divide in Hq. rewrite Z2Nat.id in Hq by lia.
  destruct (prime_factors_spec n ps (Z.of_nat q)) as (p & Hin & [Hp _] & Hdiv);
    [done|done|done|lia|].
  exists (Z.to_nat p). split; [by apply list_elem_of_fmap_2|].
  apply Nat2Z.divide. by rewrite Z2Nat.id by lia.
Qed.
