(* ===== verification/Rcycle.v ===== *)
(** Rcycle: the random cycle generator of src/util/lib/rcycle.c.

    A 2..32 bit linear feedback shift register is walked, values outside the
    requested range are dropped, and after [rc_range] values the register is
    reseeded from a second, 32-bit register.  The theorems show that every
    block of [rc_range] calls returns each of 0 .. rc_range - 1 exactly once,
    for ranges below 2^30 - 1; that one entry of the tap table breaks that promise, and
    that larger ranges cannot be initialised. *)
From stdpp Require Import prelude list numbers option.
From Stdlib Require Import ZArith Lia.
From S2P Require Import Prelude Cycles.

Local Open Scope Z_scope.

(** * The code *)

Record rcycle_lfsr := mk_rcycle_lfsr {
  lfsr_state : Z;
  lfsr_bits : Z;
  lfsr_tap : Z
}.

Record rcycle := mk_rcycle {
  rc_lfsr : rcycle_lfsr;
  rc_lfsr_reseed : rcycle_lfsr;
  rc_range : Z;
  rc_count : Z;
  rc_flip : Z
}.

Definition lfsr_taps : list Z :=
  [0; 0; 0x3; 0x5; 0x9; 0x12; 0x21; 0x41; 0x8e; 0x108; 0x204; 0x402; 0x829;
   0x100d; 0x2015; 0x4001; 0x8016; 0x10004; 0x20040; 0x40013; 0x80004;
   0x100002; 0x200001; 0x400010; 0x80000d; 0x1000080; 0x2000023; 0x4000013;
   0x8000004; 0x10000002; 0x20000029; 0x40000004; 0x80000062].

(** [1 << n] at type [int] is defined for n up to 30 only. *)
Definition int_one_shl (n : Z) : option Z :=
  if (0 <=? n) && (n <=? 30) then Some (1 << n) else None.

(** [None] is the failed assertion, or the undefined shift. *)
Definition lfsr_init (bits seed : Z) : option rcycle_lfsr :=
  if (2 <=? bits) && (bits <=? 32) then
    mask ← (if bits =? 32 then Some 0xffffffff
            else one ← int_one_shl bits; Some (u32 (one - 1)));
    Some {| lfsr_state := seed .& mask;
            lfsr_bits := bits;
            lfsr_tap := lfsr_taps !!! Z.to_nat bits |}
  else None.

Definition lfsr_step (tap s : Z) : Z := (s >> 1) .^ (u32 (- (s .& 1)) .& tap).

Definition lfsr_generate_u32 (l : rcycle_lfsr) : Z * rcycle_lfsr :=
  (lfsr_state l,
   {| lfsr_state := lfsr_step (lfsr_tap l) (lfsr_state l);
      lfsr_bits := lfsr_bits l;
      lfsr_tap := lfsr_tap l |}).

(** The loop runs for i = 1, 2, 4, 8, 16. *)
Definition round_2 (x : Z) : Z :=
  u32 (foldl (fun x i => x .| (x >> i)) x [1; 2; 4; 8; 16] + 1).

Fixpoint ffs_pos (p : positive) : Z :=
  match p with
  | xO p => Z.succ (ffs_pos p)
  | _ => 1
  end.

Definition ffs (x : Z) : Z := match x with Zpos p => ffs_pos p | _ => 0 end.

Definition rcycle_bits (range : Z) : Z := u32 (ffs (round_2 (u32 (range + 1))) - 1).

Definition rcycle_reseed (rc : rcycle) (seed : Z) : option rcycle :=
  let range := rc_range rc in
  let bits := rcycle_bits range in
  one ← int_one_shl bits;
  let mask := u32 (one - 1) in
  let flip := (if bits <? 16 then seed >> (bits + 1) else seed >> (32 - bits)) .& mask in
  let flip := if flip <? range then flip .^ mask else flip in
  if range =? 0 then None else
  let seed := u32 (seed mod range + 1) in
  let seed := if range <? seed .^ flip then seed .^ flip else seed in
  l ← lfsr_init bits seed;
  Some {| rc_lfsr := l; rc_lfsr_reseed := rc_lfsr_reseed rc;
          rc_range := range; rc_count := rc_count rc; rc_flip := flip |}.

Definition rcycle_init (rc : rcycle) (range seed : Z) : option rcycle :=
  l ← lfsr_init 32 seed;
  rcycle_reseed {| rc_lfsr := rc_lfsr rc; rc_lfsr_reseed := l;
                   rc_range := range; rc_count := 0; rc_flip := rc_flip rc |} seed.

(** The value the do-while loop computes from a register state. *)
Definition rcycle_value (flip s : Z) : Z :=
  let ret := s .^ flip in if ret =? 0 then flip else ret.

Fixpoint rcycle_draw (fuel : nat) (range flip : Z) (l : rcycle_lfsr) : option (Z * rcycle_lfsr) :=
  match fuel with
  | O => None
  | S fuel =>
    let '(s, l') := lfsr_generate_u32 l in
    let ret := rcycle_value flip s in
    if range <? ret then rcycle_draw fuel range flip l' else Some (ret, l')
  end.

(** The register has fewer than 2 ^ lfsr_bits states, so that many turns of the
    loop are enough. *)
Definition rcycle_generate (rc : rcycle) : option (Z * rcycle) :=
  '(ret, l) ← rcycle_draw (Z.to_nat (2 ^ lfsr_bits (rc_lfsr rc))) (rc_range rc) (rc_flip rc) (rc_lfsr rc);
  if rc_range rc =? 0 then None else
  let count := u32 (rc_count rc + 1) in
  let rc1 := {| rc_lfsr := l; rc_lfsr_reseed := rc_lfsr_reseed rc;
                rc_range := rc_range rc; rc_count := count; rc_flip := rc_flip rc |} in
  if count mod rc_range rc =? 0 then
    let '(seed, lr) := lfsr_generate_u32 (rc_lfsr_reseed rc1) in
    rc2 ← rcycle_reseed {| rc_lfsr := l; rc_lfsr_reseed := lr;
                           rc_range := rc_range rc; rc_count := count;
                           rc_flip := rc_flip rc |} seed;
    Some (u32 (ret - 1), rc2)
  else Some (u32 (ret - 1), rc1).

(** [n] consecutive calls of [rcycle_generate]. *)
Fixpoint rcycle_take (n : nat) (rc : rcycle) : option (list Z * rcycle) :=
  match n with
  | O => Some ([], rc)
  | S n =>
    '(x, rc) ← rcycle_generate rc;
    '(xs, rc) ← rcycle_take n rc;
    Some (x :: xs, rc)
  end.

(** * The register *)

Lemma lfsr_step_alt tap s :
  0 <= tap < 2 ^ 32 ->
  lfsr_step tap s = Z.lxor (if Z.odd s then tap else 0) (Z.div2 s).
Proof.
  intros Ht. unfold lfsr_step. rewrite Z.lxor_comm, <- Z.div2_spec.
  assert (s .& 1 = if Z.odd s then 1 else 0) as ->
    by (rewrite <- Zmod_odd; apply (Z.land_ones s 1); lia).
  destruct (Z.odd s); [|done]. f_equal.
  change (uwrap 32 (Z.opp 1)) with (Z.ones 32). rewrite Z.land_comm, Z.land_ones by lia.
  by apply Z.mod_small.
Qed.

(** The register as a linear map: the images of 1, 2, 4, ... *)
Fixpoint pow2s (n : nat) (p : Z) : list Z :=
  match n with O => [] | S n => p :: pow2s n (2 * p) end.

Definition lfsr_cols (tap : Z) (n : nat) : list Z := tap :: pow2s (n - 1) 1.

Lemma lin_app_pow2s n k v :
  0 <= v < 2 ^ Z.of_nat n -> 0 <= k -> lin_app (pow2s n (2 ^ k)) v = v << k.
Proof.
  revert k v. induction n as [|n IH]; intros k v Hv Hk.
  - assert (v = 0) as -> by (simpl in Hv; lia). by rewrite Z.shiftl_0_l.
  - simpl. rewrite <- Z.pow_succ_r by lia.
    rewrite Nat2Z.inj_succ, Z.pow_succ_r in Hv by lia.
    pose proof (Z.div2_odd v) as Ev.
    rewrite IH by (try lia; destruct (Z.odd v); simpl in Ev; lia).
    apply Z.bits_inj'; intros i Hi. rewrite Z.lxor_spec, !Z.shiftl_spec by lia.
    assert (Z.testbit (if Z.odd v then 2 ^ k else 0) i = (Z.odd v && (k =? i))) as ->.
    { destruct (Z.odd v); [|by rewrite Z.bits_0]. by rewrite Z.pow2_bits_eqb by lia. }
    destruct (Z.eqb_spec k i) as [->|Hne].
    + rewrite andb_true_r, Z.sub_diag, <- Z.bit0_odd, (Z.testbit_neg_r (Z.div2 v)) by lia.
      by rewrite xorb_false_r.
    + rewrite andb_false_r, xorb_false_l. destruct (decide (i < k)).
      * by rewrite !Z.testbit_neg_r by lia.
      * rewrite Z.div2_spec, Z.shiftr_spec by lia. f_equal. lia.
Qed.

Lemma lin_app_cols tap n s :
  0 <= tap < 2 ^ 32 -> (1 <= n)%nat -> 0 <= s < 2 ^ Z.of_nat n ->
  lin_app (lfsr_cols tap n) s = lfsr_step tap s.
Proof.
  intros Ht Hn Hs. rewrite lfsr_step_alt by done. simpl. f_equal.
  assert (2 ^ Z.of_nat n = 2 * 2 ^ Z.of_nat (n - 1)) as E
    by (rewrite <- Z.pow_succ_r by lia; f_equal; lia).
  rewrite (lin_app_pow2s (n - 1) 0); [apply Z.shiftl_0_r| |lia].
  pose proof (Z.div2_odd s). destruct (Z.odd s); simpl in *; lia.
Qed.

(** The prime divisors of 2 ^ n - 1. *)
Definition mersenne_primes : list (list Z) :=
  [[]; []; [3]; [7]; [3; 5]; [31]; [3; 7]; [127]; [3; 5; 17]; [7; 73];
   [3; 11; 31]; [23; 89]; [3; 5; 7; 13]; [8191]; [3; 43; 127]; [7; 31; 151];
   [3; 5; 17; 257]; [131071]; [3; 7; 19; 73]; [524287]; [3; 5; 11; 31; 41];
   [7; 127; 337]; [3; 23; 89; 683]; [47; 178481]; [3; 5; 7; 13; 17; 241];
   [31; 601; 1801]; [3; 2731; 8191]; [7; 73; 262657]; [3; 5; 29; 43; 113; 127];
   [233; 1103; 2089]; [3; 7; 11; 31; 151; 331]].

(** The register of [n] bits runs through all 2 ^ n - 1 nonzero states. *)
Definition lfsr_maximal (n : nat) : bool :=
  let N := 2 ^ Z.of_nat n - 1 in
  let tap := lfsr_taps !!! n in
  let sq := squares n (lfsr_cols tap n) in
  let ps := mersenne_primes !!! n in
  prime_factors_b N ps && (0 <=? tap) && (tap <=? N) && Z.testbit tap (Z.of_nat n - 1)
  && (lin_iter sq (Z.to_pos N) 1 =? 1)
  && forallb (fun p => (0 <? p) && (p <=? N) && negb (lin_iter sq (Z.to_pos (N / p)) 1 =? 1)) ps.

Definition good_bits (n : nat) : bool := (2 <=? n)%nat && (n <=? 30)%nat && negb (n =? 25)%nat.

Lemma lfsr_maximal_table : forallb lfsr_maximal (filter good_bits (seq 0 31)) = true.
Proof. vm_compute. reflexivity. Qed.

Lemma lfsr_step_closed tap n s :
  1 <= n <= 32 -> 0 <= tap < 2 ^ n -> Z.testbit tap (n - 1) = true ->
  1 <= s < 2 ^ n -> 1 <= lfsr_step tap s < 2 ^ n.
Proof.
  intros Hn Ht Hb Hs.
  assert (2 ^ n <= 2 ^ 32) by (apply Z.pow_le_mono_r; lia).
  assert (2 ^ n = 2 * 2 ^ (n - 1)) as E
    by (rewrite <- Z.pow_succ_r by lia; f_equal; lia).
  pose proof (Z.div2_odd s) as Es. rewrite lfsr_step_alt by lia.
  destruct (Z.odd s); simpl in Es; [|rewrite Z.lxor_0_l; lia].
  assert (Z.testbit (Z.lxor tap (Z.div2 s)) (n - 1) = true) as Hbit.
  { rewrite Z.lxor_spec, Hb. rewrite (Zbits_above (Z.div2 s) (n - 1)) by lia. done. }
  assert (0 <= Z.lxor tap (Z.div2 s)) as Hnn by (apply Z.lxor_nonneg; lia).
  split.
  - destruct (decide (Z.lxor tap (Z.div2 s) = 0)) as [E0|]; [|lia].
    by rewrite E0, Z.bits_0 in Hbit.
  - apply lxor_lt_pow2; lia.
Qed.

Lemma iter_ext_closed {A} (f g : A -> A) (P : A -> Prop) n x :
  (forall y, P y -> P (f y) /\ g y = f y) -> P x ->
  Nat.iter n g x = Nat.iter n f x /\ P (Nat.iter n f x).
Proof.
  intros H Hx. induction n as [|n [IH1 IH2]]; [done|]. simpl.
  rewrite IH1. destruct (H _ IH2). done.
Qed.

Lemma good_bits_maximal n : good_bits n = true -> lfsr_maximal n = true.
Proof.
  intros Hg. pose proof lfsr_maximal_table as H. rewrite forallb_forall in H.
  apply H, list_elem_of_In, list_elem_of_filter. split; [by apply Is_true_true|].
  apply elem_of_seq. unfold good_bits in Hg.
  apply andb_true_iff in Hg as [[_ Hg%Nat.leb_le]%andb_true_iff _]. lia.
Qed.

Lemma good_bits_range n : good_bits n = true -> (2 <= n <= 30)%nat.
Proof.
  unfold good_bits. intros [[?%Nat.leb_le ?%Nat.leb_le]%andb_true_iff _]%andb_true_iff. lia.
Qed.

(** What the kernel computed about the [n]-bit entry of the table. *)
Lemma lfsr_maximal_spec n (N := Z.to_nat (2 ^ Z.of_nat n - 1)) (tap := lfsr_taps !!! n) :
  good_bits n = true ->
  0 <= tap < 2 ^ Z.of_nat n /\ Z.testbit tap (Z.of_nat n - 1) = true /\
  period (lin_app (lfsr_cols tap n)) 1 N /\
  (forall q, Nat.divide q N -> (1 < q)%nat ->
     exists p, p ∈ map Z.to_nat (mersenne_primes !!! n) /\ Nat.divide p q) /\
  (forall p, p ∈ map Z.to_nat (mersenne_primes !!! n) ->
     (0 < p)%nat /\ ~ period (lin_app (lfsr_cols tap n)) 1 (N / p)).
Proof.
  intros Hg. pose proof (good_bits_range n Hg) as Hn.
  pose proof (good_bits_maximal n Hg) as H. unfold lfsr_maximal in H. fold tap in H.
  assert (4 <= 2 ^ Z.of_nat n) as H4
    by (change 4 with (2 ^ 2); apply Z.pow_le_mono_r; lia).
  rewrite !andb_true_iff, Z.leb_le, Z.leb_le, Z.eqb_eq, forallb_forall in H.
  destruct H as [[[[[Hps Ht0] Ht1] Hbit] Hper] Hno].
  split; [lia|]. split; [done|]. split; [|split].
  - unfold period, N. rewrite <- (lin_iter_Z n) by lia. done.
  - intros q. apply prime_factors_nat; [lia|done].
  - intros p' (p & -> & Hin)%list_elem_of_fmap.
    apply list_elem_of_In, Hno in Hin. rewrite !andb_true_iff, Z.ltb_lt, Z.leb_le in Hin.
    destruct Hin as [[Hp Hle] Hne%negb_true_iff%Z.eqb_neq].
    split; [lia|]. intros Hbad. apply Hne.
    rewrite lin_iter_Z by (split; [apply Z.div_str_pos; lia|apply Z.div_lt_upper_bound; nia]).
    rewrite Z2Nat.inj_div by lia. exact Hbad.
Qed.

(** From any nonzero state, 2 ^ n - 1 steps visit every nonzero state once. *)
Lemma lfsr_walk_full n s (tap := lfsr_taps !!! n) (N := Z.to_nat (2 ^ Z.of_nat n - 1)) :
  good_bits n = true -> 1 <= s < 2 ^ Z.of_nat n ->
  walk (lfsr_step tap) N s ≡ₚ seqZ 1 (Z.of_nat N).
Proof.
  intros Hg Hs. pose proof (good_bits_range n Hg) as Hn.
  destruct (lfsr_maximal_spec n Hg) as (Ht & Hbit & Hper & Hps & Hno).
  fold tap in Ht, Hbit, Hper, Hno. fold N in Hper, Hps, Hno.
  assert (Z.of_nat N = 2 ^ Z.of_nat n - 1) as EN by (unfold N; lia).
  assert (2 ^ Z.of_nat n <= 2 ^ 32) by (apply Z.pow_le_mono_r; lia).
  assert (forall k, Nat.iter k (lin_app (lfsr_cols tap n)) 1 = Nat.iter k (lfsr_step tap) 1)
    as Hlin.
  { intros k. apply (iter_ext_closed _ _ (fun y => 1 <= y < 2 ^ Z.of_nat n)); [|lia].
    intros y Hy. split; [apply lfsr_step_closed; lia || done|].
    apply lin_app_cols; lia. }
  apply (walk_full _ N 1); [| lia | | |lia].
  - intros x Hx. destruct (lfsr_step_closed tap (Z.of_nat n) x); [lia|done|done|lia|lia].
  - unfold period. rewrite <- Hlin. exact Hper.
  - intros i j Hij. rewrite <- !Hlin.
    eapply (period_distinct _ 1 N (map Z.to_nat (mersenne_primes !!! n))); [lia|done..].
Qed.

(** * The number of register bits for a range *)

Lemma smear_bits (i : Z) x y :
  0 <= i ->
  (forall j, 0 <= j -> Z.testbit y j = true <-> exists k, 0 <= k < i /\ Z.testbit x (j + k) = true) ->
  forall j, 0 <= j ->
    Z.testbit (y .| (y >> i)) j = true <->
    exists k, 0 <= k < 2 * i /\ Z.testbit x (j + k) = true.
Proof.
  intros Hi H j Hj. rewrite Z.lor_spec, orb_true_iff, Z.shiftr_spec, !H by lia. split.
  - intros [(k & Hk & Hb)|(k & Hk & Hb)]; [by exists k; split; [lia|]|].
    exists (i + k). split; [lia|]. by rewrite Z.add_assoc.
  - intros (k & Hk & Hb). destruct (decide (k < i)); [by left; exists k; split; [lia|]|].
    right. exists (k - i). split; [lia|]. rewrite <- Hb. f_equal. lia.
Qed.

Lemma smear_ones x : 1 <= x < 2 ^ 32 ->
  foldl (fun x i => x .| (x >> i)) x [1; 2; 4; 8; 16] + 1 = 2 ^ (Z.log2 x + 1).
Proof.
  intros Hx. set (y := foldl (fun x i => x .| (x >> i)) x [1; 2; 4; 8; 16]). simpl foldl in y.
  assert (forall j, 0 <= j -> Z.testbit y j = true <->
    exists k, 0 <= k < 32 /\ Z.testbit x (j + k) = true) as Hy.
  { apply (smear_bits 16); [lia|]. apply (smear_bits 8); [lia|].
    apply (smear_bits 4); [lia|]. apply (smear_bits 2); [lia|].
    apply (smear_bits 1); [lia|]. intros j Hj. split.
    - intros Hb. exists 0. split; [lia|]. by rewrite Z.add_0_r.
    - intros (k & Hk & Hb). by replace (j + k) with j in Hb by lia. }
  assert (Z.log2 x < 32) by (apply Z.log2_lt_pow2; lia).
  pose proof (Z.log2_nonneg x).
  assert (y = Z.ones (Z.log2 x + 1)) as ->.
  { apply Z.bits_inj'. intros j Hj. destruct (decide (j <= Z.log2 x)).
    - rewrite Z.ones_spec_low by lia. apply Hy; [done|].
      exists (Z.log2 x - j). split; [lia|].
      replace (j + (Z.log2 x - j)) with (Z.log2 x) by lia. apply Z.bit_log2. lia.
    - rewrite Z.ones_spec_high by lia. apply not_true_iff_false. intros Hb.
      apply Hy in Hb as (k & Hk & Hb); [|done].
      by rewrite Z.bits_above_log2 in Hb by lia. }
  rewrite Z.ones_equiv. lia.
Qed.

Lemma round_2_spec x : 1 <= x < 2 ^ 31 -> round_2 x = 2 ^ (Z.log2 x + 1).
Proof.
  intros Hx. unfold round_2. rewrite smear_ones by lia.
  assert (Z.log2 x < 31) by (apply Z.log2_lt_pow2; lia). pose proof (Z.log2_nonneg x).
  apply uwrap_small. split; [lia|]. apply Z.pow_lt_mono_r; lia.
Qed.

Lemma ffs_pow2 n : 0 <= n -> ffs (2 ^ n) = n + 1.
Proof.
  intros Hn. pattern n. apply natlike_ind; [done| |done]. clear n Hn. intros n Hn IH.
  rewrite Z.pow_succ_r by lia. pose proof (Z.pow_pos_nonneg 2 n).
  destruct (2 ^ n) as [|p|p] eqn:E; [lia| |lia].
  change (ffs (2 * Z.pos p)) with (Z.succ (ffs (Z.pos p))). rewrite IH. lia.
Qed.

Lemma rcycle_bits_spec range :
  1 <= range -> range + 1 < 2 ^ 31 -> rcycle_bits range = Z.log2 (range + 1) + 1.
Proof.
  intros Hr Hb. unfold rcycle_bits. rewrite (uwrap_small 32 (range + 1)) by lia.
  rewrite round_2_spec by lia. pose proof (Z.log2_nonneg (range + 1)).
  assert (Z.log2 (range + 1) < 31) by (apply Z.log2_lt_pow2; lia).
  rewrite ffs_pow2 by lia. rewrite Z.add_simpl_r. apply uwrap_small. lia.
Qed.

(** * Well-formed generators *)

Record rc_wf (n : nat) (rc : rcycle) : Prop := {
  wf_good : good_bits n = true;
  wf_bits : rcycle_bits (rc_range rc) = Z.of_nat n;
  wf_range : 1 <= rc_range rc < 2 ^ Z.of_nat n - 1;
  wf_lbits : lfsr_bits (rc_lfsr rc) = Z.of_nat n;
  wf_tap : lfsr_tap (rc_lfsr rc) = lfsr_taps !!! n;
  wf_state : 1 <= lfsr_state (rc_lfsr rc) < 2 ^ Z.of_nat n;
  wf_flip : 0 <= rc_flip rc < 2 ^ Z.of_nat n;
  wf_rstate : 0 <= lfsr_state (rc_lfsr_reseed rc) < 2 ^ 32;
  wf_rtap : lfsr_tap (rc_lfsr_reseed rc) = 0x80000062
}.

Lemma good_bits_pow n : good_bits n = true -> 4 <= 2 ^ Z.of_nat n <= 2 ^ 30.
Proof.
  intros Hg%good_bits_range. split.
  - change 4 with (2 ^ 2). apply Z.pow_le_mono_r; lia.
  - apply Z.pow_le_mono_r; lia.
Qed.

Lemma land_ones_small n z : 0 <= n -> 0 <= z < 2 ^ n -> z .& (2 ^ n - 1) = z.
Proof.
  intros Hn Hz. replace (2 ^ n - 1) with (Z.ones n) by (rewrite Z.ones_equiv; lia).
  rewrite Z.land_ones by lia. by apply Z.mod_small.
Qed.

Lemma lfsr_init_good n seed :
  good_bits n = true -> 0 <= seed < 2 ^ Z.of_nat n ->
  lfsr_init (Z.of_nat n) seed = Some (mk_rcycle_lfsr seed (Z.of_nat n) (lfsr_taps !!! n)).
Proof.
  intros Hg Hs. pose proof (good_bits_range n Hg). pose proof (good_bits_pow n Hg).
  unfold lfsr_init, int_one_shl.
  rewrite !(proj2 (Z.leb_le _ _)), (proj2 (Z.eqb_neq _ _)) by lia. simpl.
  rewrite Z.shiftl_1_l, uwrap_small, land_ones_small, Nat2Z.id by lia. done.
Qed.

(** Reseeding keeps the generator well formed: in particular the register is
    never loaded with zero, the one state it could not leave. *)
Lemma rcycle_reseed_wf n rc seed :
  good_bits n = true -> rcycle_bits (rc_range rc) = Z.of_nat n ->
  1 <= rc_range rc < 2 ^ Z.of_nat n - 1 -> 0 <= seed < 2 ^ 32 ->
  0 <= lfsr_state (rc_lfsr_reseed rc) < 2 ^ 32 ->
  lfsr_tap (rc_lfsr_reseed rc) = 0x80000062 ->
  exists rc', rcycle_reseed rc seed = Some rc' /\ rc_wf n rc' /\
    rc_range rc' = rc_range rc /\ rc_count rc' = rc_count rc.
Proof.
  intros Hg Hb Hr Hs Hrs Hrt.
  pose proof (good_bits_range n Hg). pose proof (good_bits_pow n Hg) as Hp.
  unfold rcycle_reseed. rewrite Hb. unfold int_one_shl.
  rewrite !(proj2 (Z.leb_le _ _)) by lia. simpl.
  rewrite Z.shiftl_1_l, (uwrap_small 32 (2 ^ Z.of_nat n - 1)) by lia.
  rewrite (proj2 (Z.eqb_neq (rc_range rc) 0)) by lia.
  set (flip0 := _ .& (2 ^ Z.of_nat n - 1)).
  assert (0 <= flip0 < 2 ^ Z.of_nat n) as Hf0 by (apply land_lt_pow2; lia).
  set (flip := if flip0 <? _ then _ else flip0).
  assert (0 <= flip < 2 ^ Z.of_nat n) as Hf.
  { unfold flip. destruct (flip0 <? rc_range rc); [|exact Hf0].
    split; [apply Z.lxor_nonneg; lia|apply lxor_lt_pow2; lia]. }
  pose proof (Z.mod_pos_bound seed (rc_range rc)).
  rewrite (uwrap_small 32 (seed mod rc_range rc + 1)) by lia.
  set (sd := if _ <? _ then _ else seed mod rc_range rc + 1).
  assert (1 <= sd < 2 ^ Z.of_nat n) as Hsd.
  { unfold sd. destruct (Z.ltb_spec (rc_range rc) ((seed mod rc_range rc + 1) .^ flip)); [|lia].
    split; [lia|apply lxor_lt_pow2; lia]. }
  rewrite lfsr_init_good by (done || lia). simpl. eexists. split; [done|].
  split; [|done]. split; simpl; done.
Qed.

Lemma rcycle_init_wf rc range seed (n := Z.to_nat (Z.log2 (range + 1) + 1)) :
  1 <= range -> range + 1 < 2 ^ 30 -> ~ (2 ^ 24 <= range + 1 < 2 ^ 25) -> 0 <= seed < 2 ^ 32 ->
  exists rc', rcycle_init rc range seed = Some rc' /\ rc_wf n rc' /\
    rc_range rc' = range /\ rc_count rc' = 0.
Proof.
  intros Hr Hb H25 Hs. unfold rcycle_init, lfsr_init. simpl.
  pose proof (Z.log2_spec (range + 1)) as [Hl1 Hl2]; [lia|].
  assert (1 <= Z.log2 (range + 1)) by (apply Z.log2_le_pow2; lia).
  assert (Z.log2 (range + 1) < 30) by (apply Z.log2_lt_pow2; lia).
  assert (Z.of_nat n = Z.log2 (range + 1) + 1) as En by (unfold n; lia).
  apply (rcycle_reseed_wf n); cbn [rc_range rc_lfsr_reseed lfsr_state lfsr_tap]; [| | |done| |done].
  - unfold good_bits. rewrite !andb_true_iff, negb_true_iff, !Nat.leb_le, Nat.eqb_neq.
    split; [lia|]. intros E. apply H25.
    assert (Z.log2 (range + 1) = 24) as E' by lia. rewrite E' in Hl1, Hl2. lia.
  - rewrite En. apply rcycle_bits_spec; lia.
  - rewrite En, <- Z.add_1_r in *. lia.
  - apply (land_lt_pow2 seed 0xffffffff 32); lia.
Qed.

(** * One cycle *)

(** The values in range that the next [m] register states produce. *)
Definition outs (tap range flip : Z) (m : nat) (s : Z) : list Z :=
  filter (fun v => v <= range) (map (rcycle_value flip) (walk (lfsr_step tap) m s)).

Lemma rcycle_value_lxor flip s :
  rcycle_value flip s = if decide (s = flip) then flip else s .^ flip.
Proof.
  unfold rcycle_value. destruct (Z.eqb_spec (s .^ flip) 0) as [E%Z.lxor_eq|E].
  - by rewrite decide_True.
  - rewrite decide_False; [done|]. intros ->. by rewrite Z.lxor_nilpotent in E.
Qed.

Lemma rcycle_value_inj flip s t :
  s <> 0 -> t <> 0 -> rcycle_value flip s = rcycle_value flip t -> s = t.
Proof.
  rewrite !rcycle_value_lxor. intros Hs Ht.
  assert (forall x, x <> 0 -> flip <> x .^ flip) as Hne.
  { intros x Hx E. apply Hx.
    apply (f_equal (fun y => y .^ flip)) in E.
    by rewrite Z.lxor_assoc, Z.lxor_nilpotent, Z.lxor_0_r in E. }
  repeat case_decide; subst; intros E; try done; try (by edestruct Hne).
  - by destruct (Hne s).
  - apply (f_equal (fun y => y .^ flip)) in E.
    by rewrite !Z.lxor_assoc, !Z.lxor_nilpotent, !Z.lxor_0_r in E.
Qed.

Lemma rcycle_value_range n flip s :
  0 <= n -> 0 <= flip < 2 ^ n -> 1 <= s < 2 ^ n -> 1 <= rcycle_value flip s < 2 ^ n.
Proof.
  intros Hn Hf Hs. rewrite rcycle_value_lxor. case_decide; [lia|].
  assert (0 <= s .^ flip) by (apply Z.lxor_nonneg; lia).
  pose proof (lxor_lt_pow2 s flip n). split; [|lia].
  destruct (decide (s .^ flip = 0)) as [E%Z.lxor_eq|]; [done|lia].
Qed.

(** A full turn of the register produces each value of the range once. *)
Lemma outs_full n range flip s (N := Z.to_nat (2 ^ Z.of_nat n - 1)) :
  good_bits n = true -> 1 <= range < 2 ^ Z.of_nat n - 1 ->
  0 <= flip < 2 ^ Z.of_nat n -> 1 <= s < 2 ^ Z.of_nat n ->
  outs (lfsr_taps !!! n) range flip N s ≡ₚ seqZ 1 range.
Proof.
  intros Hg Hr Hf Hs. pose proof (good_bits_pow n Hg).
  assert (Z.of_nat N = 2 ^ Z.of_nat n - 1) as EN by (unfold N; lia).
  assert (map (rcycle_value flip) (seqZ 1 (Z.of_nat N)) ≡ₚ seqZ 1 (Z.of_nat N)) as Hmap.
  { apply submseteq_length_Permutation; [|by rewrite length_map].
    apply NoDup_submseteq.
    - apply NoDup_fmap_2_strong; [|apply NoDup_seqZ].
      intros x y Hx%elem_of_seqZ Hy%elem_of_seqZ. apply rcycle_value_inj; lia.
    - intros y (x & -> & Hx%elem_of_seqZ)%list_elem_of_fmap. apply elem_of_seqZ.
      pose proof (rcycle_value_range (Z.of_nat n) flip x). lia. }
  unfold outs, N. rewrite (lfsr_walk_full n s) by done. fold N. rewrite Hmap.
  apply NoDup_Permutation; [apply list.NoDup_filter, NoDup_seqZ|apply NoDup_seqZ|].
  intros x. rewrite list_elem_of_filter, !elem_of_seqZ. lia.
Qed.

(** The loop of [rcycle_generate] stops at the first value in range. *)
Lemma rcycle_draw_spec tap bits range flip v rest m fuel s :
  (m <= fuel)%nat -> outs tap range flip m s = v :: rest ->
  exists m' s', rcycle_draw fuel range flip (mk_rcycle_lfsr s bits tap)
      = Some (v, mk_rcycle_lfsr s' bits tap) /\
    (m' < m)%nat /\ outs tap range flip m' s' = rest.
Proof.
  revert fuel s. induction m as [|m IH]; intros fuel s Hfuel Ho; [done|].
  destruct fuel as [|fuel]; [lia|]. unfold outs in Ho. simpl in *.
  destruct (Z.ltb_spec range (rcycle_value flip s)).
  - rewrite filter_cons_False in Ho by lia.
    destruct (IH fuel (lfsr_step tap s)) as (m' & s' & -> & Hm' & Hr); [lia|done|].
    exists m', s'. split; [done|]. split; [lia|done].
  - rewrite filter_cons_True in Ho by lia. injection Ho as <- Ho.
    exists m, (lfsr_step tap s). split; [done|]. split; [lia|done].
Qed.

Lemma rcycle_draw_state (P : Z -> Prop) tap bits range flip v fuel s s' :
  (forall x, P x -> P (lfsr_step tap x)) -> P s ->
  rcycle_draw fuel range flip (mk_rcycle_lfsr s bits tap) = Some (v, mk_rcycle_lfsr s' bits tap) ->
  P s'.
Proof.
  intros HP. revert s. induction fuel as [|fuel IH]; intros s Hs; simpl; [done|].
  destruct (_ <? _); [by apply IH, HP|]. intros [= _ <-]. by apply HP.
Qed.

Lemma good_step_closed n s :
  good_bits n = true -> 1 <= s < 2 ^ Z.of_nat n ->
  1 <= lfsr_step (lfsr_taps !!! n) s < 2 ^ Z.of_nat n.
Proof.
  intros Hg Hs. pose proof (good_bits_range n Hg).
  destruct (lfsr_maximal_spec n Hg) as (Ht & Hbit & _).
  apply lfsr_step_closed; [lia|done..].
Qed.

Lemma lfsr32_step_range s : 0 <= s < 2 ^ 32 -> 0 <= lfsr_step 0x80000062 s < 2 ^ 32.
Proof.
  intros Hs. rewrite lfsr_step_alt by lia. pose proof (Z.div2_odd s).
  assert (0 <= Z.div2 s < 2 ^ 32) by (destruct (Z.odd s); simpl in *; lia).
  destruct (Z.odd s); [|rewrite Z.lxor_0_l; lia].
  split; [apply Z.lxor_nonneg; lia|apply lxor_lt_pow2; lia].
Qed.

(** One call: the value, and the next state of the generator. *)
Lemma rcycle_generate_step n rc m v rest :
  rc_wf n rc -> (m <= Z.to_nat (2 ^ Z.of_nat n))%nat ->
  outs (lfsr_taps !!! n) (rc_range rc) (rc_flip rc) m (lfsr_state (rc_lfsr rc)) = v :: rest ->
  0 <= rc_count rc -> rc_count rc + 1 < 2 ^ 32 ->
  exists rc' m', rcycle_generate rc = Some (u32 (v - 1), rc') /\ rc_wf n rc' /\
    rc_range rc' = rc_range rc /\ rc_count rc' = rc_count rc + 1 /\
    ((rc_count rc + 1) mod rc_range rc <> 0 -> (m' < m)%nat /\
     outs (lfsr_taps !!! n) (rc_range rc') (rc_flip rc') m' (lfsr_state (rc_lfsr rc')) = rest).
Proof.
  destruct rc as [[s bits tap] lr range count flip].
  intros Hwf Hm El Hc0 Hc32.
  pose proof Hwf as [Hg Hb Hr Hlb Htap Hs Hf Hrs Hrt]. simpl in *. subst bits tap.
  destruct (rcycle_draw_spec _ (Z.of_nat n) _ _ _ _ _ (Z.to_nat (2 ^ Z.of_nat n)) _ Hm El)
    as (m' & s' & Hdraw & Hm' & El').
  assert (1 <= s' < 2 ^ Z.of_nat n) as Hs'.
  { eapply (rcycle_draw_state (fun x => 1 <= x < 2 ^ Z.of_nat n)); [|done|done].
    intros x. by apply good_step_closed. }
  unfold rcycle_generate. simpl. rewrite Hdraw. simpl.
  rewrite (proj2 (Z.eqb_neq range 0)), (uwrap_small 32 (count + 1)) by lia.
  destruct (Z.eqb_spec ((count + 1) mod range) 0) as [E|E].
  - edestruct (rcycle_reseed_wf n) as (rc' & -> & Hwf' & Hr' & Hc');
      [done|exact Hb|exact Hr|exact Hrs| |done|]; simpl.
    { rewrite Hrt. by apply lfsr32_step_range. }
    exists rc', m'. by rewrite Hr', Hc'.
  - exists (mk_rcycle (mk_rcycle_lfsr s' (Z.of_nat n) (lfsr_taps !!! n)) lr range (count + 1) flip), m'.
    simpl. split; [done|]. split; [split; done|done].
Qed.

(** The calls of one cycle: no reseed before the last, one at the last. *)
Lemma rcycle_take_outs n l rc m :
  outs (lfsr_taps !!! n) (rc_range rc) (rc_flip rc) m (lfsr_state (rc_lfsr rc)) = l ->
  rc_wf n rc -> (m <= Z.to_nat (2 ^ Z.of_nat n))%nat ->
  0 <= rc_count rc -> rc_count rc + Z.of_nat (length l) < 2 ^ 32 ->
  rc_count rc mod rc_range rc + Z.of_nat (length l) = rc_range rc ->
  exists rc', rcycle_take (length l) rc = Some (map (fun v => u32 (v - 1)) l, rc') /\
    rc_wf n rc' /\ rc_range rc' = rc_range rc /\
    rc_count rc' = rc_count rc + Z.of_nat (length l).
Proof.
  revert rc m. induction l as [|v l IH]; intros rc m El Hwf Hm Hc0 Hc32 Hmod.
  { exists rc. simpl in *. by rewrite Z.add_0_r. }
  destruct (wf_range _ _ Hwf) as [Hr _].
  pose proof (Z.mod_pos_bound (rc_count rc) (rc_range rc)). simpl in Hc32, Hmod.
  destruct (rcycle_generate_step n rc m v l) as (rc1 & m' & Hgen & Hwf1 & Hr1 & Hc1 & Hnext);
    [done..|lia|].
  simpl. rewrite Hgen. simpl. destruct l as [|w l].
  { exists rc1. simpl. split; [done|]. split; [done|]. split; [done|lia]. }
  assert ((rc_count rc + 1) mod rc_range rc = rc_count rc mod rc_range rc + 1) as Emod.
  { rewrite <- Zplus_mod_idemp_l. apply Z.mod_small. simpl in Hmod. lia. }
  destruct Hnext as [Hm' El']; [lia|]. simpl in Hmod, Hc32.
  destruct (IH rc1 m') as (rc' & Htake & Hwf' & Hr' & Hc');
    [done|done|lia|lia|simpl; lia|rewrite Hr1, Hc1, Emod; simpl; lia|].
  rewrite Htake. simpl. exists rc'. split; [done|]. split; [done|].
  split; [by rewrite Hr'|]. simpl in *. lia.
Qed.

Lemma rcycle_cycle n rc :
  rc_wf n rc -> 0 <= rc_count rc -> rc_count rc + rc_range rc < 2 ^ 32 ->
  rc_count rc mod rc_range rc = 0 ->
  exists cyc rc', rcycle_take (Z.to_nat (rc_range rc)) rc = Some (cyc, rc') /\
    cyc ≡ₚ seqZ 0 (rc_range rc) /\
    rc_wf n rc' /\ rc_range rc' = rc_range rc /\ rc_count rc' = rc_count rc + rc_range rc.
Proof.
  intros Hwf Hc0 Hc32 Hmod. pose proof Hwf as [Hg _ Hr _ _ Hs Hf _ _].
  pose proof (good_bits_pow n Hg).
  pose proof (outs_full n (rc_range rc) (rc_flip rc) _ Hg Hr Hf Hs) as Hfull.
  pose proof (Permutation_length Hfull) as Hlen. rewrite length_seqZ in Hlen.
  destruct (rcycle_take_outs n _ rc (Z.to_nat (2 ^ Z.of_nat n - 1)) eq_refl Hwf ltac:(lia) Hc0)
    as (rc' & Htake & Hwf' & Hr' & Hc'); [lia|lia|].
  rewrite Hlen in Htake. eexists _, rc'. split; [exact Htake|].
  split; [|split; [done|split; [done|lia]]].
  rewrite Hfull. apply reflexive_eq. apply list_eq_same_length with (n := Z.to_nat (rc_range rc));
    [by rewrite ?length_map, length_seqZ|by rewrite ?length_map, length_seqZ|].
  intros i x y Hi Hx Hy. apply lookup_seqZ in Hy as [-> Hi'].
  apply list_lookup_fmap_Some in Hx as (z & -> & [-> _]%lookup_seqZ).
  rewrite uwrap_small by lia. lia.
Qed.

Lemma rcycle_take_app a b rc xs rc1 ys rc2 :
  rcycle_take a rc = Some (xs, rc1) -> rcycle_take b rc1 = Some (ys, rc2) ->
  rcycle_take (a + b) rc = Some (xs ++ ys, rc2).
Proof.
  revert rc xs. induction a as [|a IH]; intros rc xs; simpl; [by intros [= <- <-]|].
  destruct (rcycle_generate rc) as [[x rc']|]; simpl; [|done].
  destruct (rcycle_take a rc') as [[xs' rc'']|] eqn:E; simpl; [|done].
  intros [= <- <-] Hb. by rewrite (IH _ _ E Hb).
Qed.

(** C1: For every range up to 2^30 - 2 whose register is not the 25-bit one (the ranges
    from 2^24 - 1 to 2^25 - 2), and every 32-bit seed, initialisation succeeds, every call
    terminates, and each block of [range] consecutive calls returns every integer of
    0 .. range - 1 exactly once, until the 32-bit call counter would wrap. *)
Theorem rcycle_generate_permutation rc range seed (k : nat) :
  1 <= range -> range + 1 < 2 ^ 30 -> ~ (2 ^ 24 <= range + 1 < 2 ^ 25) ->
  0 <= seed < 2 ^ 32 -> (Z.of_nat k + 1) * range < 2 ^ 32 ->
  exists rc0 pre rck cyc rc',
    rcycle_init rc range seed = Some rc0 /\
    rcycle_take (k * Z.to_nat range) rc0 = Some (pre, rck) /\
    rcycle_take (Z.to_nat range) rck = Some (cyc, rc') /\
    cyc ≡ₚ seqZ 0 range.
Proof.
  intros Hr Hb H25 Hs Hk.
  destruct (rcycle_init_wf rc range seed Hr Hb H25 Hs) as (rc0 & Hinit & Hwf & Hr0 & Hc0).
  set (n := Z.to_nat (Z.log2 (range + 1) + 1)) in *.
  assert (exists pre rck, rcycle_take (k * Z.to_nat range) rc0 = Some (pre, rck) /\
    rc_wf n rck /\ rc_range rck = range /\ rc_count rck = Z.of_nat k * range)
    as (pre & rck & Hpre & Hwfk & Hrk & Hck).
  { clear Hinit. revert Hk. induction k as [|k IH]; intros Hk; [by exists [], rc0|].
    destruct IH as (pre & rck & Hpre & Hwfk & Hrk & Hck); [nia|].
    destruct (rcycle_cycle n rck Hwfk) as (cyc & rc' & Htake & _ & Hwf' & Hr' & Hc');
      [nia|nia|rewrite Hck, Hrk; apply Z_mod_mult|].
    rewrite Hrk in Htake. exists (pre ++ cyc), rc'. split.
    - replace (S k * Z.to_nat range)%nat with (k * Z.to_nat range + Z.to_nat range)%nat by lia.
      by eapply rcycle_take_app.
    - split; [done|]. split; [congruence|lia]. }
  destruct (rcycle_cycle n rck Hwfk) as (cyc & rc' & Htake & Hperm & _);
    [nia|nia|rewrite Hck, Hrk; apply Z_mod_mult|].
  rewrite Hrk in Htake, Hperm. by exists rc0, pre, rck, cyc, rc'.
Qed.

Definition rcycle_zero : rcycle :=
  mk_rcycle (mk_rcycle_lfsr 0 0 0) (mk_rcycle_lfsr 0 0 0) 0 0 0.

Lemma rcycle_generate_permutation_witness :
  exists rc0 pre rck cyc rc',
    rcycle_init rcycle_zero 5 0x47114711 = Some rc0 /\
    rcycle_take 10 rc0 = Some (pre, rck) /\
    rcycle_take 5 rck = Some (cyc, rc') /\ cyc ≡ₚ seqZ 0 5.
Proof. apply (rcycle_generate_permutation rcycle_zero 5 0x47114711 2); lia. Defined.

Example rcycle_take_5 :
  (rc ← rcycle_init rcycle_zero 5 0x47114711; fst <$> rcycle_take 5 rc) = Some [3; 2; 0; 4; 1].
Proof. vm_compute. reflexivity. Qed.

(** * The 25-bit register *)

Lemma iter_period_mod {A} (f : A -> A) e (n k : nat) :
  (0 < n)%nat -> period f e n -> Nat.iter k f e = Nat.iter (k mod n) f e.
Proof.
  intros Hn Hp. transitivity (Nat.iter (k mod n + k / n * n) f e).
  - f_equal. pose proof (Nat.div_mod_eq k n). lia.
  - rewrite iter_add. f_equal. by apply period_mul.
Qed.

Lemma rcycle_draw_orbit (P : Z -> Prop) fuel range flip l v l' :
  (forall x, P x -> P (lfsr_step (lfsr_tap l) x)) -> P (lfsr_state l) ->
  rcycle_draw fuel range flip l = Some (v, l') ->
  (exists y, P y /\ v = rcycle_value flip y) /\ P (lfsr_state l') /\ lfsr_tap l' = lfsr_tap l.
Proof.
  revert l. induction fuel as [|fuel IH]; intros l HP Hs; simpl; [done|].
  destruct (_ <? _).
  - intros H. by apply IH in H; simpl; auto.
  - intros [= <- <-]. simpl. split; [by exists (lfsr_state l)|]. auto.
Qed.

(** Before the first reseed, values come from the orbit of the register. *)
Lemma rcycle_take_orbit (P : Z -> Prop) m rc xs rc' :
  (forall x, P x -> P (lfsr_step (lfsr_tap (rc_lfsr rc)) x)) ->
  P (lfsr_state (rc_lfsr rc)) ->
  0 <= rc_count rc -> rc_count rc + Z.of_nat m <= rc_range rc < 2 ^ 31 ->
  rcycle_take m rc = Some (xs, rc') ->
  Forall (fun v => exists x, P x /\ v = u32 (rcycle_value (rc_flip rc) x - 1)) xs.
Proof.
  revert rc xs. induction m as [|m IH]; intros rc xs HP Hs Hc0 Hc; [by intros [= <- _]|].
  simpl. unfold rcycle_generate.
  destruct (rcycle_draw _ _ _ _) as [[v l]|] eqn:Hd; [|done]. simpl.
  destruct (rcycle_draw_orbit P _ _ _ _ _ _ HP Hs Hd) as ((y & Hy & ->) & Hl & Htap).
  rewrite (proj2 (Z.eqb_neq (rc_range rc) 0)), (uwrap_small 32 (rc_count rc + 1)) by lia.
  destruct m as [|m].
  { destruct (_ =? _); [destruct (rcycle_reseed _ _); [|done]|];
      simpl; intros [= <- _]; repeat constructor; by exists y. }
  rewrite (Z.mod_small (rc_count rc + 1)), (proj2 (Z.eqb_neq (rc_count rc + 1) 0)) by lia.
  set (rc1 := {| rc_lfsr := l |}). cbn [mbind option_bind].
  destruct (rcycle_take (S m) rc1) as [[xs1 rc2]|] eqn:Ht; [|done]. intros [= <- <-].
  constructor; [by exists y|]. apply (IH rc1 xs1); simpl; rewrite ?Htap; auto; lia.
Qed.

Lemma missing_value (l : list Z) (n : Z) :
  Z.of_nat (length l) < n -> exists v, 0 <= v < n /\ v ∉ l.
Proof.
  intros Hlen. destruct (decide (Forall (fun v => v ∈ l) (seqZ 0 n))) as [Hall|Hex].
  - rewrite list.Forall_forall in Hall.
    pose proof (submseteq_length _ _ (NoDup_submseteq _ _ (NoDup_seqZ 0 n) Hall)) as Hsub.
    rewrite length_seqZ in Hsub. lia.
  - apply not_Forall_Exists in Hex; [|apply _].
    apply list.Exists_exists in Hex as (v & Hv%elem_of_seqZ & Hnot). exists v. split; [lia|done].
Qed.

(** The orbit of a point of period [n] has at most [n] points. *)
Lemma elem_of_walk_orbit (f : Z -> Z) e n k :
  (0 < n)%nat -> period f e n -> Nat.iter k f e ∈ walk f n e.
Proof.
  intros Hn Hp. rewrite (iter_period_mod f e n k) by done.
  apply (list_elem_of_lookup_2 _ (k mod n)), walk_lookup, Nat.mod_upper_bound. lia.
Qed.

Lemma lfsr_25_period : period (lfsr_step 0x1000080) 33554430 (Z.to_nat 2774315).
Proof.
  unfold period.
  destruct (iter_ext_closed (lfsr_step 0x1000080) (lin_app (lfsr_cols 0x1000080 25))
    (fun y => 1 <= y < 2 ^ 25) (Z.to_nat 2774315) 33554430) as [<- _]; [|lia|].
  - intros y Hy. split; [by apply lfsr_step_closed|by apply lin_app_cols; lia].
  - rewrite <- (lin_iter_Z 25) by lia. vm_compute. reflexivity.
Qed.

(** A range from 2^30 - 1 on cannot be initialised, against the limit of rcycle.h: it
    needs the shift [1 << 31] at type int, or a number of bits that is asserted away. *)
Theorem rcycle_large_range rc range seed : 2 ^ 30 - 1 <= range < 2 ^ 32 -> rcycle_init rc range seed = None.
Proof.
  intros Hr. unfold rcycle_init. destruct (lfsr_init 32 seed) as [l|]; [|done]. cbn [mbind option_bind].
  unfold rcycle_reseed. cbn [rc_range]. destruct (decide (range = 2 ^ 32 - 1)) as [->|Hne].
  { change (rcycle_bits (2 ^ 32 - 1)) with 0. by cbn. }
  assert (rcycle_bits range = 31 \/ rcycle_bits range = 2 ^ 32 - 1) as [-> | ->]; [|done|done].
  destruct (decide (range + 1 < 2 ^ 31)).
  - left. rewrite rcycle_bits_spec by lia. by rewrite (Z.log2_unique (range + 1) 30) by lia.
  - right. unfold rcycle_bits, round_2. rewrite (uwrap_small 32 (range + 1)), smear_ones by lia.
    by rewrite (Z.log2_unique (range + 1) 31) by lia.
Qed.

(** The 25-bit entry of the tap table is not a maximal-period polynomial.
    With range 2^24 - 1 and seed 0 the register falls into a cycle of 2774315
    states, so some index of the range is not returned by the [range] calls of
    the cycle, against the promise of rcycle.h to return every integer. *)
Theorem rcycle_25bit_misses_value rc :
  exists rc0, rcycle_init rc 16777215 0 = Some rc0 /\
    exists v, 0 <= v < 16777215 /\
      forall m xs rc', Z.of_nat m <= 16777215 -> rcycle_take m rc0 = Some (xs, rc') -> v ∉ xs.
Proof.
  set (e := 33554430). set (f := lfsr_step 0x1000080).
  exists (mk_rcycle (mk_rcycle_lfsr e 25 0x1000080)
                    (mk_rcycle_lfsr 0 32 0x80000062) 16777215 0 33554431).
  split; [vm_compute; reflexivity|].
  destruct (missing_value (map (fun x => u32 (rcycle_value 33554431 x - 1))
    (walk f (Z.to_nat 2774315) e)) 16777215) as (v & Hv & Hnot).
  { rewrite length_map, walk_length. lia. }
  exists v. split; [done|]. intros m xs rc' Hm Htake Hin. apply Hnot.
  apply (rcycle_take_orbit (fun x => exists k, x = Nat.iter k f e)) in Htake;
    cbn [rc_lfsr rc_count rc_range rc_flip lfsr_tap lfsr_state]; [| |by exists O|lia|lia].
  - rewrite list.Forall_forall in Htake. apply Htake in Hin as (x & (k & ->) & ->).
    apply list_elem_of_fmap. eexists. split; [done|].
    apply elem_of_walk_orbit; [lia|apply lfsr_25_period].
  - intros x (k & ->). by exists (S k).
Qed.

(** * What the generator promises its clients *)

Section Take.
Context {C : Type} (next : C -> option (Z * C)).

(** [n] consecutive calls of a generator. *)
Fixpoint gen_take (n : nat) (c : C) : option (list Z * C) :=
  match n with
  | O => Some ([], c)
  | S n => '(x, c) ← next c; '(xs, c) ← gen_take n c; Some (x :: xs, c)
  end.
End Take.

(** Started on a range, a generator visits the whole range before it repeats. *)
Class Cycler (C : Type) := {
  cy_init : C -> Z -> Z -> option C;
  cy_next : C -> option (Z * C);
  cy_max : Z;
  cy_cycle c range seed :
    1 <= range < cy_max -> 0 <= seed < 2 ^ 32 ->
    exists c0 xs c', cy_init c range seed = Some c0 /\
      gen_take cy_next (Z.to_nat range) c0 = Some (xs, c') /\ xs ≡ₚ seqZ 0 range
}.

Lemma rcycle_take_gen n rc : rcycle_take n rc = gen_take rcycle_generate n rc.
Proof.
  revert rc. induction n as [|n IH]; intros rc; simpl; [done|].
  destruct (rcycle_generate rc) as [[x rc1]|]; simpl; [|done]. by rewrite IH.
Qed.

#[export, program] Instance rcycle_cycler : Cycler rcycle := {
  cy_init := rcycle_init;
  cy_next := rcycle_generate;
  cy_max := 2 ^ 24 - 1
}.
Next Obligation.
  intros rc range seed Hr Hs.
  destruct (rcycle_init_wf rc range seed) as (rc0 & Hinit & Hwf & Hr0 & Hc0); [lia..|].
  destruct (rcycle_cycle _ rc0 Hwf) as (xs & rc' & Htake & Hp & _);
    [lia|lia|by rewrite Hc0, Hr0, Z.mod_0_l by lia|].
  rewrite Hr0 in Htake, Hp. exists rc0, xs, rc'. by rewrite <- rcycle_take_gen.
Qed.
