(* ===== verification/Avl.v ===== *)
(** Avl: the intrusive AVL tree of src/util/lib/subr_avl.c and avl.h.

    A tree is the value of a [struct avl_node *]: [Leaf] is NULL and
    [Node l x h r] a node with link[0] = l, link[1] = r, height = h, embedded in
    the structure x.  The comparison callback is a parameter, and pointer
    equality of nodes is equality of the structures.  [None] is a NULL
    dereference, a failed assertion or an iterator stack overflow. *)
From stdpp Require Import prelude list numbers sorting.
From Stdlib Require Import ZArith Lia.
From S2P Require Import Prelude.

Local Open Scope Z_scope.

Inductive tree (A : Type) : Type :=
| Leaf : tree A
| Node : tree A -> A -> Z -> tree A -> tree A.
Arguments Leaf {A}.
Arguments Node {A} l x h r.

(** * The code *)

Section Code.
Context {A : Type}.
Implicit Types (t l r n p : tree A) (x y : A) (d : bool).

Definition avl_height t : Z := match t with Leaf => 0 | Node _ _ h _ => h end.

Definition link t d : tree A :=
  match t with Leaf => Leaf | Node l _ _ r => if d then r else l end.

Definition set_link t d c : tree A :=
  match t with
  | Leaf => Leaf
  | Node l x h r => if d then Node l x h c else Node c x h r
  end.

Definition avl_reheight t : tree A :=
  match t with
  | Leaf => Leaf
  | Node l x _ r => Node l x (Z.max (avl_height l) (avl_height r) + 1) r
  end.

Definition avl_balance t : Z :=
  match t with Leaf => 0 | Node l _ _ r => avl_height l - avl_height r end.

Definition nonnull t : option (tree A) :=
  match t with Leaf => None | Node _ _ _ _ => Some t end.

Definition avl_rotate p d : option (tree A) :=
  n ← nonnull p;
  pivot ← nonnull (link n (negb d));
  let n := avl_reheight (set_link n (negb d) (link pivot d)) in
  Some (avl_reheight (set_link pivot d n)).

Definition avl_rebalance p : option (tree A) :=
  n ← nonnull p;
  let n := avl_reheight n in
  let bal := avl_balance n in
  if (-1 <=? bal) && (bal <=? 1) then Some n else
  let d := bal <? -1 in
  n ← (if 0 <? (if d then 1 else -1) * avl_balance (link n d)
       then c ← avl_rotate (link n d) d; Some (set_link n d c)
       else Some n);
  avl_rotate n (negb d).

(** The loop that follows link[1] from a node [x] with right subtree [r]. *)
Fixpoint rightmost x r : A :=
  match r with
  | Leaf => x
  | Node _ x' _ r' => rightmost x' r'
  end.

Section Cmp.
Context (cmp : A -> A -> Z) `{!EqDecision A}.

Fixpoint avl_insert x p : option (tree A) :=
  match p with
  | Leaf => Some (Node Leaf x 1 Leaf)
  | Node l y h r =>
    if 0 <? cmp x y
    then r' ← avl_insert x r; avl_rebalance (Node l y h r')
    else l' ← avl_insert x l; avl_rebalance (Node l' y h r)
  end.

(** The tail of [avl_delete]: rebalance unless the subtree became empty. *)
Definition rebalance_nonnull p : option (tree A) :=
  match p with Leaf => Some Leaf | Node _ _ _ _ => avl_rebalance p end.

Fixpoint avl_delete x p : option (tree A) :=
  match p with
  | Leaf => Some Leaf
  | Node l y h r =>
    p ← (if bool_decide (x = y) then
           match l, r with
           | Leaf, _ => Some r
           | _, Leaf => Some l
           | Node _ lx _ lr, _ =>
             let rm := rightmost lx lr in
             l' ← avl_delete rm l;
             Some (avl_reheight (Node l' rm 0 r))
           end
         else if 0 <? cmp x y
         then r' ← avl_delete x r; Some (Node l y h r')
         else l' ← avl_delete x l; Some (Node l' y h r));
    rebalance_nonnull p
  end.

Fixpoint avl_lookup x t : option A :=
  match t with
  | Leaf => None
  | Node l y _ r =>
    let c := cmp x y in
    if c =? 0 then Some y else if 0 <? c then avl_lookup x r else avl_lookup x l
  end.

Fixpoint avl_search_internal x t : option A :=
  match t with
  | Leaf => None
  | Node l y _ r =>
    let diff := cmp x y in
    if diff =? 0 then Some y
    else if diff <? 0 then
      match avl_search_internal x l with
      | Some lft => if cmp lft y <? 0 then Some lft else Some y
      | None => Some y
      end
    else avl_search_internal x r
  end.

Definition avl_search x t : option A := avl_search_internal x t.

(** [true] when every assertion holds; NULL is not a legal argument. *)
Fixpoint avl_check t : bool :=
  match t with
  | Leaf => false
  | Node l y h r =>
    (Z.abs (avl_balance t) <? 2) &&
    (match l, r with Leaf, Leaf => h =? 1 | _, _ => true end) &&
    (h =? Z.max (avl_height l) (avl_height r) + 1) &&
    (match l with Leaf => true | Node _ x _ _ => (0 <=? cmp y x) && avl_check l end) &&
    (match r with Leaf => true | Node _ x _ _ => (cmp y x <=? 0) && avl_check r end)
  end.

(** The iterator.  [it_is] is the used part of the array [is], its top
    ([isp]) first; the empty list is [isp] below the array. *)
Record avl_it := mk_avl_it {
  it_is : list (tree A * nat);
  it_s : option A;
  it_e : option A;
  it_ince : bool
}.

Definition AVL_MAXDEPTH : nat := 64.

Definition avl_it_init2 (root : tree A) (s e : option A) (ince : bool) : avl_it :=
  {| it_is := match root with Leaf => [] | Node _ _ _ _ => [(root, 0%nat)] end;
     it_s := s; it_e := e; it_ince := ince |}.

Definition avl_it_init (root : tree A) (s e : option A) : avl_it :=
  avl_it_init2 root s e false.

Definition past_end (it : avl_it) x : bool :=
  match it_e it with
  | Some e => if it_ince it then 0 <? cmp x e else 0 <=? cmp x e
  | None => false
  end.

Definition from_start (it : avl_it) x : bool :=
  match it_s it with Some s => 0 <=? cmp x s | None => true end.

Definition set_is (it : avl_it) (stk : list (tree A * nat)) : avl_it :=
  {| it_is := stk; it_s := it_s it; it_e := it_e it; it_ince := it_ince it |}.

(** One turn of the loop with the frame [(Node l x h r, d)] on top of [stk]:
    the new stack, and the node when the turn returns one. *)
Definition avl_it_turn (it : avl_it) l x h r (d : nat) (stk : list (tree A * nat)) :
    option (avl_it * option A) :=
  let n := Node l x h r in
  match d with
  | 0%nat =>
    let d := if past_end it x then 3%nat else 2%nat in
    if from_start it x then
      let d := if (d =? 2)%nat then 1%nat else d in
      match l with
      | Leaf => Some (set_is it ((n, d) :: stk), None)
      | Node _ _ _ _ =>
        if (length ((n, d) :: stk) <? AVL_MAXDEPTH)%nat
        then Some (set_is it ((l, 0%nat) :: (n, d) :: stk), None)
        else None
      end
    else Some (set_is it ((n, d) :: stk), None)
  | 1%nat => Some (set_is it ((n, 2%nat) :: stk), Some x)
  | 2%nat =>
    match r with
    | Leaf => Some (set_is it ((n, 3%nat) :: stk), None)
    | Node _ _ _ _ => Some (set_is it ((r, 0%nat) :: stk), None)
    end
  | 3%nat => Some (set_is it stk, None)
  | _ => None
  end.

(** At most [fuel] turns; [None] also when they are not enough. *)
Fixpoint avl_it_loop (fuel : nat) (it : avl_it) : option (avl_it * option A) :=
  match it_is it with
  | [] => Some (it, None)
  | (Leaf, _) :: _ => None
  | (Node l x h r, d) :: stk =>
    match fuel with
    | O => None
    | S fuel =>
      '(it, ret) ← avl_it_turn it l x h r d stk;
      match ret with
      | Some n => Some (it, Some n)
      | None => avl_it_loop fuel it
      end
    end
  end.

Fixpoint size t : nat :=
  match t with Leaf => O | Node l _ _ r => S (size l + size r) end.

(** Turns a stack frame can still cause. *)
Definition frame_turns (f : tree A * nat) : nat :=
  match f with
  | (Leaf, _) => 0
  | (t, 0%nat) => 4 * size t
  | (Node _ _ _ r, d) => if (d =? 3)%nat then 1 else 4 - d + 4 * size r
  end%nat.

Definition it_turns (it : avl_it) : nat := list_sum (map frame_turns (it_is it)).

Definition avl_it_next (it : avl_it) : option (avl_it * option A) :=
  avl_it_loop (it_turns it) it.

(** The usual client loop, [while ((n = avl_it_next(&it)))]. *)
Fixpoint avl_it_collect (fuel : nat) (it : avl_it) : option (list A) :=
  match fuel with
  | O => None
  | S fuel =>
    '(it, n) ← avl_it_next it;
    match n with
    | None => Some []
    | Some x => xs ← avl_it_collect fuel it; Some (x :: xs)
    end
  end.
End Cmp.

(** The augmented insert: [fix] recomputes the augmented part of the
    structure at the root of a tree from its subtrees. *)
Section Augmented.
Context (cmp : A -> A -> Z) (fixup : tree A -> A).

Definition apply_fix t : tree A :=
  match t with Leaf => Leaf | Node l _ h r => Node l (fixup t) h r end.

Definition aavl_rotate p d : option (tree A) :=
  n ← nonnull p;
  pivot ← nonnull (link n (negb d));
  let n := apply_fix (avl_reheight (set_link n (negb d) (link pivot d))) in
  Some (apply_fix (avl_reheight (set_link pivot d n))).

Definition aavl_rebalance p : option (tree A) :=
  n ← nonnull p;
  let n := apply_fix (avl_reheight n) in
  let bal := avl_balance n in
  if (-1 <=? bal) && (bal <=? 1) then Some n else
  let d := bal <? -1 in
  n ← (if 0 <? (if d then 1 else -1) * avl_balance (link n d)
       then c ← aavl_rotate (link n d) d; Some (set_link n d c)
       else Some n);
  aavl_rotate n (negb d).

Fixpoint aavl_insert x p : option (tree A) :=
  match p with
  | Leaf => Some (apply_fix (Node Leaf x 1 Leaf))
  | Node l y h r =>
    if 0 <? cmp x y
    then r' ← aavl_insert x r; aavl_rebalance (Node l y h r')
    else l' ← aavl_insert x l; aavl_rebalance (Node l' y h r)
  end.
End Augmented.
End Code.

(** * Invariants *)

Section Invariants.
Context {A : Type}.
Implicit Types (t l r : tree A) (x y : A).

(** Contents in order. *)
Fixpoint elems t : list A :=
  match t with Leaf => [] | Node l x _ r => elems l ++ x :: elems r end.

(** Stored heights are right and siblings differ by at most one. *)
Fixpoint avl_ok t : Prop :=
  match t with
  | Leaf => True
  | Node l _ h r =>
    avl_ok l /\ avl_ok r /\
    h = Z.max (avl_height l) (avl_height r) + 1 /\
    -1 <= avl_height l - avl_height r <= 1
  end.

Lemma avl_ok_height t : avl_ok t -> 0 <= avl_height t.
Proof. induction t; simpl; intuition lia. Qed.

Lemma avl_ok_nonleaf t : avl_ok t -> 1 <= avl_height t -> exists l x h r, t = Node l x h r.
Proof. destruct t; simpl; [lia|eauto 10]. Qed.

(** Closes a branch of the rebalancing proof once all the nodes involved are known. *)
Local Ltac avl_finish :=
  eexists; split; [reflexivity|]; simpl;
  repeat (rewrite <- app_assoc; simpl); repeat split; lia || done.

Lemma avl_rebalance_spec l x h r :
  avl_ok l -> avl_ok r -> -2 <= avl_height l - avl_height r <= 2 ->
  exists t, avl_rebalance (Node l x h r) = Some t /\ avl_ok t /\
    elems t = elems l ++ x :: elems r /\
    Z.max (avl_height l) (avl_height r) <= avl_height t
      <= Z.max (avl_height l) (avl_height r) + 1 /\
    (-1 <= avl_height l - avl_height r <= 1 ->
       avl_height t = Z.max (avl_height l) (avl_height r) + 1).
Proof.
  intros Hl Hr Hd. pose proof (avl_ok_height l Hl). pose proof (avl_ok_height r Hr).
  unfold avl_rebalance. cbn [nonnull mbind option_bind avl_reheight avl_balance avl_height link].
  destruct (Z.leb_spec (-1) (avl_height l - avl_height r)); cbn [andb];
    [destruct (Z.leb_spec (avl_height l - avl_height r) 1)|].
  - avl_finish.
  - rewrite (proj2 (Z.ltb_ge _ (-1))) by lia.
    destruct (avl_ok_nonleaf l Hl) as (ll & lx & lh & lr & ->); [lia|].
    simpl in Hl, Hd, H0, H1, H2 |- *. destruct Hl as (? & Hlr & -> & ?).
    pose proof (avl_ok_height ll). pose proof (avl_ok_height lr).
    destruct (Z.ltb_spec 0 (-1 * (avl_height ll - avl_height lr))).
    + destruct (avl_ok_nonleaf lr Hlr) as (lrl & lrx & lrh & lrr & ->); [lia|].
      simpl in *. destruct Hlr as (? & ? & -> & ?).
      avl_finish.
    + avl_finish.
  - rewrite (proj2 (Z.ltb_lt _ (-1))) by lia.
    destruct (avl_ok_nonleaf r Hr) as (rl & rx & rh & rr & ->); [lia|].
    simpl in Hr, Hd, H0, H1 |- *. destruct Hr as (Hrl & ? & -> & ?).
    pose proof (avl_ok_height rl). pose proof (avl_ok_height rr).
    destruct (Z.ltb_spec 0 (1 * (avl_height rl - avl_height rr))).
    + destruct (avl_ok_nonleaf rl Hrl) as (rll & rlx & rlh & rlr & ->); [lia|].
      simpl in *. destruct Hrl as (? & ? & -> & ?).
      avl_finish.
    + avl_finish.
Qed.


Context (cmp : A -> A -> Z) `{!CmpOrder cmp} `{!EqDecision A}.

Definition cmp_le : relation A := fun x y => cmp x y <= 0.
Definition cmp_lt : relation A := fun x y => cmp x y < 0.

#[local] Instance cmp_le_trans : Transitive cmp_le.
Proof. intros x y z. apply cmp_trans. Qed.

#[local] Instance cmp_lt_trans : Transitive cmp_lt.
Proof. intros x y z Hxy Hyz. apply (cmp_lt_le_trans cmp _ y); [done|]. red in Hyz. lia. Qed.

(** Search order, with equal keys allowed, and with distinct keys. *)
Definition bst t : Prop := StronglySorted cmp_le (elems t).
Definition bst_strict t : Prop := StronglySorted cmp_lt (elems t).

Lemma bst_strict_bst t : bst_strict t -> bst t.
Proof.
  unfold bst_strict, bst. induction 1; constructor; [done|].
  eapply Forall_impl; [done|]. unfold cmp_lt, cmp_le. intros. simpl in *. lia.
Qed.

(** Reference insertion into a sorted list: before the first element that is
    not below the new one. *)
Fixpoint list_insert x (ys : list A) : list A :=
  match ys with
  | [] => [x]
  | y :: ys => if 0 <? cmp x y then y :: list_insert x ys else x :: y :: ys
  end.

Lemma list_insert_below x (l1 l2 : list A) :
  (forall y, y ∈ l1 -> 0 < cmp x y) -> list_insert x (l1 ++ l2) = l1 ++ list_insert x l2.
Proof.
  induction l1 as [|y l1 IH]; intros H; [done|]. simpl.
  rewrite (proj2 (Z.ltb_lt _ _)) by (apply H; left).
  f_equal. apply IH. intros z Hz. apply H. by right.
Qed.

Lemma list_insert_above x y (l1 l2 : list A) :
  cmp x y <= 0 -> list_insert x (l1 ++ y :: l2) = list_insert x l1 ++ y :: l2.
Proof.
  intros Hxy. induction l1 as [|z l1 IH]; simpl.
  - by rewrite (proj2 (Z.ltb_ge _ _)).
  - destruct (0 <? cmp x z); [|done]. simpl. by rewrite IH.
Qed.

Lemma list_insert_perm x ys : list_insert x ys ≡ₚ x :: ys.
Proof.
  induction ys as [|y ys IH]; simpl; [done|].
  destruct (0 <? cmp x y); [|done]. rewrite IH. apply perm_swap.
Qed.

Lemma list_insert_sorted x ys :
  StronglySorted cmp_le ys -> StronglySorted cmp_le (list_insert x ys).
Proof.
  induction 1 as [|y ys Hs IH Hy]; simpl; [by repeat constructor|].
  destruct (Z.ltb_spec 0 (cmp x y)) as [Hxy|Hxy].
  - constructor; [done|]. rewrite list_insert_perm. constructor; [|done].
    apply cmp_swap_lt in Hxy; [|done]. red. lia.
  - constructor; [by constructor|]. constructor; [done|].
    eapply Forall_impl; [exact Hy|]. intros z Hz. by apply (cmp_trans _ y).
Qed.

Lemma avl_insert_spec x t :
  avl_ok t ->
  exists t', avl_insert cmp x t = Some t' /\ avl_ok t' /\
    avl_height t <= avl_height t' <= avl_height t + 1 /\
    (bst t -> elems t' = list_insert x (elems t)).
Proof.
  unfold bst. induction t as [|l IHl y h r IHr]; intros Hok; cbn [avl_insert elems].
  { eexists. split; [done|]. simpl. repeat split; lia || done. }
  destruct Hok as (Hl & Hr & -> & Hb). cbn [avl_height].
  destruct (Z.ltb_spec 0 (cmp x y)) as [Hxy|Hxy];
    [destruct (IHr Hr) as (c & -> & Hc & Hh & He)
    |destruct (IHl Hl) as (c & -> & Hc & Hh & He)]; cbn [mbind option_bind];
    edestruct avl_rebalance_spec as (t & Et & Ht & Hel & Hh1 & Hh2);
    [exact Hl|exact Hc|lia| |exact Hc|exact Hr|lia|];
    exists t; (split; [exact Et|split; [done|split; [lia|]]]);
    intros (Sl & Sr & Hly & Hyr)%(StronglySorted_mid cmp_le); rewrite Hel, He by done.
  - rewrite list_insert_below; simpl; [by rewrite (proj2 (Z.ltb_lt _ _))|].
    intros z Hz. apply cmp_swap_lt; [done|].
    apply (cmp_le_lt_trans cmp _ y); [by apply Hly|by apply cmp_swap_lt].
  - by rewrite list_insert_above.
Qed.

Lemma rightmost_elems x r : exists i, x :: elems r = i ++ [rightmost x r].
Proof.
  revert x. induction r as [|l _ y h r IH]; intros x; simpl; [by exists []|].
  destruct (IH y) as (i & Hi). exists (x :: elems l ++ i). simpl. by rewrite Hi, <- app_assoc.
Qed.

Lemma rightmost_node l x h r : exists i, elems (Node l x h r) = i ++ [rightmost x r].
Proof.
  simpl. destruct (rightmost_elems x r) as (i & ->). exists (elems l ++ i).
  by rewrite <- app_assoc.
Qed.

Lemma rebalance_nonnull_ok t : avl_ok t -> rebalance_nonnull t = Some t.
Proof.
  destruct t as [|l x h r]; [done|]. intros (Hl & Hr & -> & Hb).
  unfold rebalance_nonnull, avl_rebalance. cbn [nonnull mbind option_bind avl_reheight avl_balance].
  by rewrite !(proj2 (Z.leb_le _ _)) by lia.
Qed.

(** What [avl_delete] leaves: the contents without [x]. *)
Definition without x (ys : list A) : list A := filter (fun y => y <> x) ys.

Lemma without_mid x y (l1 l2 : list A) :
  x <> y -> without x (l1 ++ y :: l2) = without x l1 ++ y :: without x l2.
Proof. intros H. unfold without. by rewrite filter_app, filter_cons_True by done. Qed.

Lemma without_notin x (ys : list A) : x ∉ ys -> without x ys = ys.
Proof. intros H. apply filter_all. intros y Hy ->. done. Qed.

Lemma cmp_lt_irrefl x : ~ cmp x x < 0.
Proof. rewrite (cmp_refl cmp). lia. Qed.

Lemma without_self x (l1 l2 : list A) :
  (forall y, y ∈ l1 -> cmp_lt y x) -> (forall y, y ∈ l2 -> cmp_lt x y) ->
  without x (l1 ++ x :: l2) = l1 ++ l2.
Proof.
  intros H1 H2. unfold without. rewrite filter_app, filter_cons_False by auto.
  f_equal; apply filter_all; intros y Hy ->; eapply cmp_lt_irrefl; [by apply H1|by apply H2].
Qed.

Lemma avl_delete_step x l y h r :
  x <> y -> cmp x y <= 0 -> bst_strict (Node l y h r) ->
  without x (elems (Node l y h r)) = without x (elems l) ++ y :: elems r.
Proof.
  intros Hne Hxy (_ & _ & _ & Hyr)%(StronglySorted_mid cmp_lt). simpl.
  rewrite without_mid, (without_notin x (elems r)); [done| |done].
  intros Hx%Hyr%cmp_swap_lt; [lia|done].
Qed.

Lemma avl_delete_step_right x l y h r :
  x <> y -> 0 < cmp x y -> bst_strict (Node l y h r) ->
  without x (elems (Node l y h r)) = elems l ++ y :: without x (elems r).
Proof.
  intros Hne Hxy (_ & _ & Hly & _)%(StronglySorted_mid cmp_lt). simpl.
  rewrite without_mid, (without_notin x (elems l)); [done| |done].
  intros Hx%Hly. red in Hx. lia.
Qed.

Lemma bst_strict_node l y h r : bst_strict (Node l y h r) -> bst_strict l /\ bst_strict r.
Proof. by intros (? & ? & _)%(StronglySorted_mid cmp_lt). Qed.

Lemma rightmost_deleted l x h r :
  bst_strict (Node l x h r) ->
  elems (Node l x h r) = without (rightmost x r) (elems (Node l x h r)) ++ [rightmost x r].
Proof.
  unfold bst_strict. destruct (rightmost_node l x h r) as (i & ->). intros Hs.
  apply (StronglySorted_mid cmp_lt) in Hs as (_ & _ & Hi & _).
  rewrite (without_self _ i []); [|done|by intros ? ?%not_elem_of_nil].
  by rewrite app_nil_r.
Qed.

Lemma root_deleted l y r h :
  bst_strict (Node l y h r) -> elems l ++ elems r = without y (elems (Node l y h r)).
Proof.
  intros (_ & _ & Hl & Hr)%(StronglySorted_mid cmp_lt). simpl. by rewrite without_self.
Qed.

Lemma avl_delete_spec x t :
  avl_ok t ->
  exists t', avl_delete cmp x t = Some t' /\ avl_ok t' /\
    avl_height t - 1 <= avl_height t' <= avl_height t /\
    (bst_strict t -> elems t' = without x (elems t)).
Proof.
  revert x. induction t as [|l IHl y h r IHr]; intros x Hok.
  { exists Leaf. simpl. repeat split; lia || done. }
  destruct Hok as (Hl & Hr & -> & Hb). cbn [avl_delete avl_height].
  pose proof (avl_ok_height l Hl). pose proof (avl_ok_height r Hr).
  destruct (bool_decide_reflect (x = y)) as [->|Hne].
  - destruct l as [|ll lx lh lr]; [|destruct r as [|rl rx rh rr]].
    + exists r. cbn [mbind option_bind]. simpl in Hb |- *. rewrite rebalance_nonnull_ok by done.
      repeat split; lia || done || apply (root_deleted Leaf).
    + exists (Node ll lx lh lr). cbn [mbind option_bind]. rewrite rebalance_nonnull_ok by done.
      split; [done|split; [done|split; [simpl in *; lia|]]].
      intros Hs. rewrite <- (app_nil_r (elems (Node ll _ _ _))). by apply (root_deleted _ _ Leaf).
    + destruct (IHl (rightmost lx lr) Hl) as (l' & -> & Hl' & Hh & He).
      cbn [mbind option_bind rebalance_nonnull avl_reheight].
      edestruct avl_rebalance_spec as (t & Et & Ht & Hel & Hh1 & Hh2); [exact Hl'|exact Hr|lia|].
      exists t. split; [exact Et|split; [done|split; [lia|]]]. intros Hs.
      destruct (bst_strict_node _ _ _ _ Hs) as [Hsl _].
      rewrite Hel, He, <- (root_deleted _ _ _ _ Hs) by done.
      trans ((without (rightmost lx lr) (elems (Node ll lx lh lr)) ++ [rightmost lx lr])
             ++ elems (Node rl rx rh rr)); [by rewrite <- app_assoc|].
      by rewrite <- rightmost_deleted.
  - destruct (Z.ltb_spec 0 (cmp x y)) as [Hxy|Hxy];
      [destruct (IHr x Hr) as (c & -> & Hc & Hh & He)
      |destruct (IHl x Hl) as (c & -> & Hc & Hh & He)]; cbn [mbind option_bind rebalance_nonnull];
      edestruct avl_rebalance_spec as (t & Et & Ht & Hel & Hh1 & Hh2);
      [exact Hl|exact Hc|lia| |exact Hc|exact Hr|lia|];
      exists t; (split; [exact Et|split; [done|split; [lia|]]]); intros Hs;
      destruct (bst_strict_node _ _ _ _ Hs); rewrite Hel, He by done.
    + by rewrite avl_delete_step_right.
    + by rewrite avl_delete_step.
Qed.

Lemma bst_node l y h r :
  bst (Node l y h r) ->
  bst l /\ bst r /\ (forall z, z ∈ elems l -> cmp z y <= 0) /\ (forall z, z ∈ elems r -> cmp y z <= 0).
Proof. by intros (? & ? & ? & ?)%(StronglySorted_mid cmp_le). Qed.

Lemma elem_of_node z l y h r : z ∈ elems (Node l y h r) <-> z ∈ elems l \/ z = y \/ z ∈ elems r.
Proof. simpl. by rewrite elem_of_app, elem_of_cons. Qed.

Lemma avl_lookup_spec x t :
  bst t ->
  match avl_lookup cmp x t with
  | Some y => y ∈ elems t /\ cmp x y = 0
  | None => forall y, y ∈ elems t -> cmp x y <> 0
  end.
Proof.
  induction t as [|l IHl y h r IHr]; intros Hs; [by intros ? ?%not_elem_of_nil|].
  apply bst_node in Hs as (Hl & Hr & Hly & Hyr).
  cbn [avl_lookup].
  destruct (Z.eqb_spec (cmp x y) 0) as [|Hne]; [rewrite elem_of_node; auto|].
  destruct (Z.ltb_spec 0 (cmp x y)) as [Hlt|Hge].
  - specialize (IHr Hr). destruct (avl_lookup cmp x r); [rewrite elem_of_node; intuition|].
    intros z [Hz|[->|Hz]]%elem_of_node; [|done|by apply IHr]. pose proof (Hly _ Hz) as Hzy.
    pose proof (cmp_le_lt_trans cmp z y x Hzy) as H.
    rewrite <- !(cmp_swap_lt cmp) in H. lia.
  - specialize (IHl Hl). destruct (avl_lookup cmp x l); [rewrite elem_of_node; intuition|].
    intros z [Hz|[->|Hz]]%elem_of_node; [by apply IHl|done|]. pose proof (Hyr _ Hz) as Hyz.
    pose proof (cmp_lt_le_trans cmp x y z). lia.
Qed.

Lemma avl_search_spec x t :
  bst t ->
  match avl_search cmp x t with
  | Some y => y ∈ elems t /\ cmp x y <= 0 /\
              (forall z, z ∈ elems t -> cmp x z <= 0 -> cmp y z <= 0)
  | None => forall z, z ∈ elems t -> 0 < cmp x z
  end.
Proof.
  unfold avl_search.
  induction t as [|l IHl y h r IHr]; intros Hs; [by intros ? ?%not_elem_of_nil|].
  apply bst_node in Hs as (Hl & Hr & Hly & Hyr). specialize (IHl Hl). specialize (IHr Hr).
  cbn [avl_search_internal].
  destruct (Z.eqb_spec (cmp x y) 0) as [Hxy|Hne].
  - split; [apply elem_of_node; auto|]. split; [lia|]. intros z _ Hxz. apply (cmp_trans _ x); [|done].
    apply cmp_swap_eq in Hxy; [lia|done].
  - pose proof (cmp_refl cmp y).
    destruct (Z.ltb_spec (cmp x y) 0) as [Hlt|Hge].
    + destruct (avl_search_internal cmp x l) as [w|].
      * destruct IHl as (Hw & Hxw & Hleast). destruct (Z.ltb_spec (cmp w y) 0) as [Hwy|Hwy].
        -- split; [apply elem_of_node; auto|]. split; [done|]. intros z [Hz|[->|Hz]]%elem_of_node Hxz; [auto|lia|].
           apply (cmp_trans _ y); [lia|auto].
        -- split; [apply elem_of_node; auto|]. split; [lia|]. intros z [Hz|[->|Hz]]%elem_of_node Hxz; [|lia|auto].
           apply (cmp_trans _ w); [by apply cmp_swap_le|auto].
      * split; [apply elem_of_node; auto|]. split; [lia|]. intros z [Hz|[->|Hz]]%elem_of_node Hxz; [|lia|auto].
        specialize (IHl z Hz). lia.
    + assert (forall z, z ∈ elems l -> 0 < cmp x z) as Hl'.
      { intros z Hz. apply cmp_swap_lt; [done|].
        apply (cmp_le_lt_trans cmp _ y); [auto|]. apply cmp_swap_lt; [done|lia]. }
      destruct (avl_search_internal cmp x r) as [w|].
      * destruct IHr as (Hw & Hxw & Hleast). split; [apply elem_of_node; auto|]. split; [done|].
        intros z [Hz|[->|Hz]]%elem_of_node Hxz; [apply Hl' in Hz; lia|lia|auto].
      * intros z [Hz|[->|Hz]]%elem_of_node; [auto|lia|auto].
Qed.

Lemma avl_check_spec t : avl_ok t -> bst t -> t <> Leaf -> avl_check cmp t = true.
Proof.
  induction t as [|l IHl y h r IHr]; intros Hok Hs Hne; [done|].
  destruct Hok as (Hl & Hr & -> & Hb). apply bst_node in Hs as (Sl & Sr & Hly & Hyr).
  cbn [avl_check avl_balance]. rewrite !andb_true_iff, Z.ltb_lt, Z.eqb_refl.
  split; [split; [split; [split; [lia|]|done]|]|].
  - destruct l, r; done.
  - destruct l as [|ll lx lh lr]; [done|]. rewrite IHl, andb_true_r, Z.leb_le by done.
    apply cmp_swap_le; [done|]. apply Hly, elem_of_node. auto.
  - destruct r as [|rl rx rh rr]; [done|]. rewrite IHr, andb_true_r, Z.leb_le by done.
    apply Hyr, elem_of_node. auto.
Qed.

(** An AVL tree of height h holds at least 2 ^ (h / 2) - 1 nodes. *)
Lemma avl_height_size t : avl_ok t -> 2 ^ avl_height t <= (Z.of_nat (size t) + 1) ^ 2.
Proof.
  induction t as [|l IHl y h r IHr]; [done|]. intros (Hl & Hr & -> & Hb).
  specialize (IHl Hl). specialize (IHr Hr). cbn [avl_height size].
  pose proof (avl_ok_height l Hl). pose proof (avl_ok_height r Hr).
  rewrite Z.pow_add_r, Z.pow_1_r by lia. rewrite Nat2Z.inj_succ, Nat2Z.inj_add.
  assert (2 ^ avl_height l <= 2 * 2 ^ avl_height r /\ 2 ^ avl_height r <= 2 * 2 ^ avl_height l) as [].
  { split; rewrite <- Z.pow_succ_r by lia; apply Z.pow_le_mono_r; lia. }
  assert (2 ^ Z.max (avl_height l) (avl_height r) = 2 ^ avl_height l \/
          2 ^ Z.max (avl_height l) (avl_height r) = 2 ^ avl_height r) as Hm
    by (destruct (Z.max_spec (avl_height l) (avl_height r)) as [[_ ->]|[_ ->]]; auto).
  rewrite Z.pow_2_r in *.
  generalize dependent (2 ^ avl_height l). generalize dependent (2 ^ avl_height r).
  generalize dependent (2 ^ Z.max (avl_height l) (avl_height r)). intros m a Ha b Hb' H1 H2 Hm.
  set (u := Z.of_nat (size l) + 1) in *. set (v := Z.of_nat (size r) + 1) in *.
  assert (0 < u /\ 0 < v) as [Hu Hv] by lia.
  replace (Z.succ (Z.of_nat (size l) + Z.of_nat (size r)) + 1) with (u + v) by lia.
  assert (u * u <= 2 * v * v \/ v * v <= 2 * u * u) by nia.
  nia.
Qed.
End Invariants.

(** * The iterator *)

Section Iterator.
Context {A : Type} (cmp : A -> A -> Z) `{!CmpOrder cmp}.
Implicit Types (it : avl_it (A := A)) (x y : A).

(** The range an iterator was started with. *)
Definition in_range it x : Prop := from_start cmp it x = true /\ past_end cmp it x = false.

#[local] Instance in_range_dec it x : Decision (in_range it x).
Proof. unfold in_range. apply _. Defined.

(** What a stack frame, and a whole stack, has still to return. *)
Definition frame_rest it (f : tree A * nat) : list A :=
  match f with
  | (Leaf, _) => []
  | (t, 0%nat) => filter (in_range it) (elems t)
  | (Node _ x _ r, 1%nat) => x :: filter (in_range it) (elems r)
  | (Node _ _ _ r, 2%nat) => filter (in_range it) (elems r)
  | _ => []
  end.

Definition it_rest it : list A := concat (map (frame_rest it) (it_is it)).

(** Frames are nonempty well-formed subtrees, and what is below a frame fits in
    the array together with the longest path from it. *)
Fixpoint stack_ok (stk : list (tree A * nat)) : Prop :=
  match stk with
  | [] => True
  | (t, d) :: stk =>
    t <> Leaf /\ avl_ok t /\ bst cmp t /\ (d <= 3)%nat /\
    avl_height t + Z.of_nat (length stk) <= Z.of_nat AVL_MAXDEPTH /\ stack_ok stk
  end.

(** [it2] iterates over the range of [it1]. *)
Definition same_range it1 it2 : Prop :=
  it_s it1 = it_s it2 /\ it_e it1 = it_e it2 /\ it_ince it1 = it_ince it2.

Lemma same_range_rest it stk f : frame_rest (set_is it stk) f = frame_rest it f.
Proof. done. Qed.

Lemma below_start it x y : cmp y x <= 0 -> from_start cmp it x = false -> ~ in_range it y.
Proof.
  unfold in_range, from_start. destruct (it_s it) as [s|]; [|done].
  rewrite Z.leb_gt, Z.leb_le. intros Hyx Hxs [Hys _].
  pose proof (cmp_le_lt_trans cmp y x s Hyx Hxs). lia.
Qed.

Lemma above_end it x y : cmp x y <= 0 -> past_end cmp it x = true -> ~ in_range it y.
Proof.
  unfold in_range, past_end. destruct (it_e it) as [e|]; [|done].
  intros Hxy Hxe [_ Hye].
  pose proof (cmp_trans x y e Hxy). pose proof (cmp_le_lt_trans cmp x y e Hxy).
  destruct (it_ince it).
  - apply Z.ltb_lt in Hxe. apply Z.ltb_ge in Hye. lia.
  - apply Z.leb_le in Hxe. apply Z.leb_gt in Hye. lia.
Qed.

Lemma frame_rest_expand it l x h r :
  bst cmp (Node l x h r) ->
  filter (in_range it) (elems (Node l x h r)) =
    (if from_start cmp it x then filter (in_range it) (elems l) else []) ++
    (if past_end cmp it x then [] else
     (if from_start cmp it x then [x] else []) ++ filter (in_range it) (elems r)).
Proof.
  intros (Hl & Hr & Hlx & Hxr)%(bst_node cmp). simpl. rewrite filter_app. f_equal.
  - destruct (from_start cmp it x) eqn:Hf; [done|].
    apply filter_none. intros y Hy. by apply (below_start it x), Hf; auto.
  - destruct (past_end cmp it x) eqn:Hp.
    + apply filter_none. intros y [->|Hy]%elem_of_cons; apply (above_end it x); auto.
      rewrite (cmp_refl cmp). lia.
    + destruct (from_start cmp it x) eqn:Hf.
      * by rewrite filter_cons_True.
      * rewrite filter_cons_False; [done|]. intros [? _]. congruence.
Qed.

Lemma it_rest_cons it f stk : it_rest (set_is it (f :: stk)) = frame_rest it f ++ it_rest (set_is it stk).
Proof. done. Qed.

Ltac turn := eexists _, _; split; [reflexivity|]; split; [|split];
  [simpl in *; intuition (lia || done)|unfold it_turns; simpl; lia|].

(** Every turn keeps the stack well formed, uses up a turn, and neither loses nor
    repeats a node. *)
Lemma avl_it_turn_spec it l x h r d stk :
  it_is it = (Node l x h r, d) :: stk -> stack_ok (it_is it) ->
  exists stk' ret, avl_it_turn cmp it l x h r d stk = Some (set_is it stk', ret) /\
    stack_ok stk' /\ (it_turns (set_is it stk') < it_turns it)%nat /\
    it_rest it = option_list ret ++ it_rest (set_is it stk').
Proof.
  intros His Hok. rewrite His in Hok.
  assert (it_rest it = it_rest (set_is it ((Node l x h r, d) :: stk))) as ->
    by (unfold it_rest; by rewrite His).
  assert (it_turns it = it_turns (set_is it ((Node l x h r, d) :: stk))) as ->
    by (unfold it_turns; by rewrite His).
  destruct Hok as (Hne & Havl & Hbst & Hd & Hlen & Hstk).
  pose proof Havl as (Hl & Hr & Hh & Hbal). pose proof Hbst as (Sl & Sr & _ & _)%(bst_node cmp).
  pose proof (avl_ok_height l Hl). pose proof (avl_ok_height r Hr).
  assert (size_l : l = Leaf \/ l <> Leaf /\ 1 <= avl_height l).
  { destruct l as [|? ? lh ?]; [by left|right]. split; [done|].
    destruct Hl as (Hll & Hlr & -> & _). cbn [avl_height].
    pose proof (avl_ok_height _ Hll). lia. }
  destruct d as [|[|[|[|d]]]]; [| | | |lia]; cbn [avl_it_turn].
  - rewrite it_rest_cons. cbn [frame_rest]. rewrite frame_rest_expand by done.
    destruct (past_end cmp it x) eqn:Hp, (from_start cmp it x) eqn:Hf; cbn [Nat.eqb].
    + destruct size_l as [->|[Hln Hlh]]; [turn; done|].
      destruct l as [|ll lx lh lr]; [done|].
      rewrite (proj2 (Nat.ltb_lt _ _)) by (cbn [length avl_height] in *; lia).
      turn. by rewrite !it_rest_cons, app_nil_r.
    + turn. done.
    + destruct size_l as [->|[Hln Hlh]]; [turn; done|].
      destruct l as [|ll lx lh lr]; [done|].
      rewrite (proj2 (Nat.ltb_lt _ _)) by (cbn [length avl_height] in *; lia).
      turn. rewrite !it_rest_cons. simpl. by rewrite <- !app_assoc.
    + turn. done.
  - turn. done.
  - destruct r; turn; done.
  - turn. done.
Qed.

Lemma avl_it_loop_spec fuel it :
  stack_ok (it_is it) -> (it_turns it <= fuel)%nat ->
  exists stk' ret, avl_it_loop cmp fuel it = Some (set_is it stk', ret) /\
    stack_ok stk' /\ it_rest it = option_list ret ++ it_rest (set_is it stk') /\
    (ret = None -> stk' = []).
Proof.
  revert it. induction fuel as [|fuel IH]; intros it Hok Hf.
  - destruct it as [[|[[|l x h r] d] stk] s e i]; [by exists [], None| |]; exfalso;
      destruct Hok as (Hne & _ & _ & Hd & _); [done|].
    unfold it_turns in Hf. simpl in Hf. destruct d as [|[|[|[|d]]]]; simpl in Hf; lia.
  - destruct (it_is it) as [|[[|l x h r] d] stk] eqn:His.
    + exists [], None. simpl. rewrite His. split; [by destruct it; simpl in *; subst|].
      split; [done|]. split; [unfold it_rest; by rewrite His|done].
    + by destruct Hok.
    + cbn [avl_it_loop]. rewrite His.
      destruct (avl_it_turn_spec it l x h r d stk His) as (stk1 & ret & -> & Hok1 & Ht & Hrest);
        [by rewrite His|]. simpl. destruct ret as [y|]; [by exists stk1, (Some y)|].
      destruct (IH (set_is it stk1)) as (stk2 & ret & -> & Hok2 & Hrest2 & Hnil); [done|lia|].
      exists stk2, ret. split; [done|]. split; [done|]. split; [|done].
      rewrite Hrest. exact Hrest2.
Qed.

Lemma avl_it_collect_spec fuel it :
  stack_ok (it_is it) -> (length (it_rest it) < fuel)%nat ->
  avl_it_collect cmp fuel it = Some (it_rest it).
Proof.
  revert it. induction fuel as [|fuel IH]; intros it Hok Hf; [lia|]. cbn [avl_it_collect].
  unfold avl_it_next.
  destruct (avl_it_loop_spec (it_turns it) it) as (stk & ret & -> & Hok' & Hrest & Hnil); [done..|].
  simpl. rewrite Hrest in Hf |- *. destruct ret as [y|]; simpl in *.
  - by rewrite IH by (done || lia).
  - by rewrite Hnil.
Qed.

(** The depth of the array is enough for any tree that fits in memory. *)
Lemma avl_maxdepth_enough (t : tree A) :
  avl_ok t -> Z.of_nat (size t) < 2 ^ 32 -> avl_height t <= Z.of_nat AVL_MAXDEPTH.
Proof.
  intros Hok Hs. pose proof (avl_height_size t Hok). pose proof (avl_ok_height t Hok).
  apply Z.le_ngt. intros Hgt.
  assert (2 ^ 65 <= 2 ^ avl_height t) by (apply Z.pow_le_mono_r; unfold AVL_MAXDEPTH in Hgt; lia).
  nia.
Qed.

Lemma length_elems (t : tree A) : length (elems t) = size t.
Proof. induction t; simpl; [done|]. rewrite length_app. simpl. lia. Qed.

Lemma avl_it_range_spec (t : tree A) s e ince (it := avl_it_init2 t s e ince) :
  avl_ok t -> bst cmp t -> Z.of_nat (size t) < 2 ^ 32 ->
  avl_it_collect cmp (S (size t)) it = Some (filter (in_range it) (elems t)).
Proof.
  intros Hok Hs Hsz. pose proof (avl_maxdepth_enough t Hok Hsz).
  assert (it_rest it = filter (in_range it) (elems t)) as Hrest.
  { destruct t; [done|]. unfold it_rest. simpl. apply app_nil_r. }
  rewrite avl_it_collect_spec; [by rewrite Hrest| |].
  - destruct t; [done|]. cbn [it avl_it_init2 it_is stack_ok length]. intuition (lia || done).
  - rewrite Hrest. pose proof (length_filter (in_range it) (elems t)).
    rewrite length_elems in *. lia.
Qed.
End Iterator.

(** * The augmented tree *)

Section AugmentedProofs.
Context {A K : Type} (key : A -> K) (cmpk : K -> K -> Z) (fixup : tree A -> A).
Let cmp (x y : A) : Z := cmpk (key x) (key y).

(** A fixup function recomputes data that is not part of the key, from the
    key and the subtrees only. *)
Hypothesis fixup_key : forall l x h r, key (fixup (Node l x h r)) = key x.
Hypothesis fixup_local : forall l x h r x' h',
  key x = key x' -> fixup (Node l x h r) = fixup (Node l x' h' r).

(** Every node's augmented data is what [fixup] computes from its subtrees. *)
Fixpoint augmented (t : tree A) : Prop :=
  match t with
  | Leaf => True
  | Node l x h r => augmented l /\ augmented r /\ x = fixup t
  end.

Fixpoint map_tree (t : tree A) : tree K :=
  match t with
  | Leaf => Leaf
  | Node l x h r => Node (map_tree l) (key x) h (map_tree r)
  end.

Lemma map_tree_height t : avl_height (map_tree t) = avl_height t.
Proof. by destruct t. Qed.

Lemma map_tree_link t d : map_tree (link t d) = link (map_tree t) d.
Proof. by destruct t, d. Qed.

Lemma map_tree_set_link t d c : map_tree (set_link t d c) = set_link (map_tree t) d (map_tree c).
Proof. by destruct t, d. Qed.

Lemma map_tree_fix_reheight t :
  map_tree (apply_fix fixup (avl_reheight t)) = avl_reheight (map_tree t).
Proof. destruct t; [done|]. simpl. by rewrite fixup_key, !map_tree_height. Qed.

Lemma map_tree_balance t : avl_balance (map_tree t) = avl_balance t.
Proof. destruct t; [done|]. simpl. by rewrite !map_tree_height. Qed.

Lemma map_tree_nonnull t : map_tree <$> nonnull t = nonnull (map_tree t).
Proof. by destruct t. Qed.

Lemma aavl_rotate_map p d :
  map_tree <$> aavl_rotate fixup p d = avl_rotate (map_tree p) d.
Proof.
  unfold aavl_rotate, avl_rotate. rewrite <- map_tree_nonnull.
  destruct (nonnull p) as [n|]; [|done]. cbn [fmap option_fmap option_map mbind option_bind].
  rewrite <- map_tree_link, <- map_tree_nonnull.
  destruct (nonnull (link n (negb d))) as [pivot|]; [|done].
  cbn [fmap option_fmap option_map mbind option_bind]. f_equal.
  by rewrite map_tree_fix_reheight, map_tree_set_link, map_tree_fix_reheight,
    map_tree_set_link, map_tree_link.
Qed.

Lemma aavl_rebalance_map p : map_tree <$> aavl_rebalance fixup p = avl_rebalance (map_tree p).
Proof.
  unfold aavl_rebalance, avl_rebalance. rewrite <- map_tree_nonnull.
  destruct (nonnull p) as [n|]; [|done]. cbn [fmap option_fmap option_map mbind option_bind].
  rewrite <- map_tree_fix_reheight, map_tree_balance.
  set (m := apply_fix fixup (avl_reheight n)).
  destruct (_ && _); [done|]. rewrite <- map_tree_link, map_tree_balance, <- aavl_rotate_map.
  destruct (0 <? _); [|cbn [mbind option_bind]; apply aavl_rotate_map].
  destruct (aavl_rotate fixup (link m _) _); [|done].
  cbn [fmap option_fmap option_map mbind option_bind].
  by rewrite aavl_rotate_map, map_tree_set_link.
Qed.

Lemma aavl_insert_map x t :
  map_tree <$> aavl_insert cmp fixup x t = avl_insert cmpk (key x) (map_tree t).
Proof.
  induction t as [|l IHl y h r IHr]; simpl; [by rewrite fixup_key|].
  unfold cmp at 1. destruct (0 <? cmpk (key x) (key y)).
  - rewrite <- IHr. destruct (aavl_insert cmp fixup x r); [|done]. simpl.
    apply aavl_rebalance_map.
  - rewrite <- IHl. destruct (aavl_insert cmp fixup x l); [|done]. simpl.
    apply aavl_rebalance_map.
Qed.

Lemma apply_fix_augmented l x h r :
  augmented l -> augmented r -> augmented (apply_fix fixup (Node l x h r)).
Proof.
  intros Hl Hr. simpl. split; [done|]. split; [done|].
  apply fixup_local. by rewrite fixup_key.
Qed.

Lemma augmented_link t d : augmented t -> augmented (link t d).
Proof. by destruct t, d; simpl; intuition. Qed.

Lemma fix_reheight_augmented t :
  augmented (link t false) -> augmented (link t true) ->
  augmented (apply_fix fixup (avl_reheight t)).
Proof. destruct t; [done|]. apply apply_fix_augmented. Qed.

(** A rotation repairs the augmentation of the two nodes it moves. *)
Lemma aavl_rotate_augmented p d t :
  augmented (link p false) -> augmented (link p true) ->
  aavl_rotate fixup p d = Some t -> augmented t.
Proof.
  destruct p as [|l x h r]; [done|]. intros Hl Hr. simpl in Hl, Hr. unfold aavl_rotate.
  destruct d; simpl nonnull; cbn [mbind option_bind link negb]; [destruct l|destruct r];
    try done; intros [= <-]; simpl in Hl, Hr; apply apply_fix_augmented; try tauto;
    apply apply_fix_augmented; tauto.
Qed.

Lemma augmented_link_set t d d' c :
  augmented c -> augmented (link t d') -> augmented (link (set_link t d c) d').
Proof. by destruct t, d, d'. Qed.

Lemma aavl_rebalance_augmented p t :
  augmented (link p false) -> augmented (link p true) ->
  aavl_rebalance fixup p = Some t -> augmented t.
Proof.
  destruct p as [|l x h r]; [done|]. intros Hl Hr. unfold aavl_rebalance.
  cbn [nonnull mbind option_bind].
  pose proof (fix_reheight_augmented (Node l x h r) Hl Hr) as Hm.
  set (m := apply_fix fixup (avl_reheight (Node l x h r))) in *.
  destruct (_ && _); [by intros [= <-]|].
  destruct (0 <? _); cbn [mbind option_bind].
  - destruct (aavl_rotate fixup (link m _) _) as [c|] eqn:Hc; [|done].
    apply aavl_rotate_augmented in Hc; [|by apply augmented_link, augmented_link..].
    cbn [mbind option_bind]. apply aavl_rotate_augmented; apply augmented_link_set;
      auto using augmented_link.
  - apply aavl_rotate_augmented; auto using augmented_link.
Qed.

Lemma aavl_insert_augmented x t t' :
  augmented t -> aavl_insert cmp fixup x t = Some t' -> augmented t'.
Proof.
  revert t'. induction t as [|l IHl y h r IHr]; intros t'.
  { intros _ [= <-]. by apply apply_fix_augmented. }
  intros (Hl & Hr & _). cbn [aavl_insert]. destruct (0 <? cmp x y).
  - destruct (aavl_insert cmp fixup x r); [|done]. by apply aavl_rebalance_augmented; simpl; auto.
  - destruct (aavl_insert cmp fixup x l); [|done]. by apply aavl_rebalance_augmented; simpl; auto.
Qed.
End AugmentedProofs.

(** * The tree as an ordered set, for its clients *)

(** What the pools and caches built on the tree rely on: a container of
    structures with distinct keys. *)
Class OrderedSet {A : Type} (cmp : A -> A -> Z) (T : Type) := {
  os_ok : T -> Prop;
  os_elems : T -> list A;
  os_empty : T;
  os_insert : A -> T -> option T;
  os_delete : A -> T -> option T;
  os_lookup : A -> T -> option A;
  os_walk : T -> option (list A);
  os_empty_ok : os_ok os_empty /\ os_elems os_empty = [];
  os_insert_ok x t :
    os_ok t -> (forall y, y ∈ os_elems t -> cmp x y <> 0) ->
    exists t', os_insert x t = Some t' /\ os_ok t' /\ os_elems t' ≡ₚ (x :: os_elems t);
  os_delete_ok x t :
    os_ok t ->
    exists t', os_delete x t = Some t' /\ os_ok t' /\ (x ∉ os_elems t') /\
      (forall y, y <> x -> ((y ∈ os_elems t') <-> (y ∈ os_elems t))) /\
      (x ∈ os_elems t -> os_elems t ≡ₚ (x :: os_elems t'));
  os_lookup_ok x t :
    os_ok t ->
    match os_lookup x t with
    | Some y => y ∈ os_elems t /\ cmp x y = 0
    | None => forall y, y ∈ os_elems t -> cmp x y <> 0
    end;
  os_distinct t x y :
    os_ok t -> x ∈ os_elems t -> y ∈ os_elems t -> cmp x y = 0 -> x = y;
  os_nodup t : os_ok t -> NoDup (os_elems t);
  os_walk_ok t :
    os_ok t -> Z.of_nat (length (os_elems t)) < 2 ^ 32 -> os_walk t = Some (os_elems t)
}.

Section AvlSet.
Context {A : Type} (cmp : A -> A -> Z) `{!CmpOrder cmp} `{!EqDecision A}.

Definition avl_set_ok (t : tree A) : Prop := avl_ok t /\ bst_strict cmp t.

Lemma strict_distinct l x y :
  StronglySorted (cmp_lt cmp) l -> x ∈ l -> y ∈ l -> cmp x y = 0 -> x = y.
Proof.
  intros Hs. induction Hs as [|z l Hs IH Hz]; [by intros ?%not_elem_of_nil|].
  rewrite list.Forall_forall in Hz. unfold cmp_lt in Hz.
  intros [->|Hx]%elem_of_cons [->|Hy]%elem_of_cons E; auto.
  - specialize (Hz y Hy). lia.
  - specialize (Hz x Hx). apply cmp_swap_eq in E; [lia|done].
Qed.

Lemma list_insert_strict x ys :
  StronglySorted (cmp_lt cmp) ys -> (forall y, y ∈ ys -> cmp x y <> 0) ->
  StronglySorted (cmp_lt cmp) (list_insert cmp x ys).
Proof.
  induction 1 as [|y ys Hs IH Hy]; intros Hx; simpl; [by repeat constructor|].
  destruct (Z.ltb_spec 0 (cmp x y)) as [Hxy|Hxy].
  - constructor; [apply IH; intros z Hz; apply Hx; by right|].
    rewrite list_insert_perm. constructor; [|done]. by apply (cmp_swap_lt cmp) in Hxy.
  - assert (cmp x y < 0) by (pose proof (Hx y ltac:(left)); lia).
    constructor; [by constructor|]. constructor; [done|].
    eapply Forall_impl; [exact Hy|]. intros z Hz. eapply (cmp_lt_le_trans cmp); [done|].
    unfold cmp_lt in Hz. lia.
Qed.

Lemma avl_set_insert x t :
  avl_set_ok t -> (forall y, y ∈ elems t -> cmp x y <> 0) ->
  exists t', avl_insert cmp x t = Some t' /\ avl_set_ok t' /\ elems t' = list_insert cmp x (elems t).
Proof.
  intros [Hok Hs] Hx. destruct (avl_insert_spec cmp x t Hok) as (t' & -> & Hok' & _ & He).
  specialize (He (bst_strict_bst cmp t Hs)). exists t'. split; [done|]. split; [|done].
  split; [done|]. unfold bst_strict. rewrite He. by apply list_insert_strict.
Qed.

Lemma avl_set_delete x t :
  avl_set_ok t ->
  exists t', avl_delete cmp x t = Some t' /\ avl_set_ok t' /\ elems t' = without x (elems t).
Proof.
  intros [Hok Hs]. destruct (avl_delete_spec cmp x t Hok) as (t' & -> & Hok' & _ & He).
  specialize (He Hs). exists t'. split; [done|]. split; [|done]. split; [done|].
  unfold bst_strict. rewrite He. unfold without.
  clear -Hs. unfold bst_strict in Hs. induction Hs as [|y ys Hs IH Hy]; [constructor|].
  destruct (decide (y <> x)); [|by rewrite filter_cons_False].
  rewrite filter_cons_True by done. constructor; [done|].
  rewrite list.Forall_forall in Hy |- *. intros z [_ Hz]%list_elem_of_filter. by apply Hy.
Qed.

Lemma NoDup_without x (ys : list A) : NoDup ys -> x ∈ ys -> ys ≡ₚ x :: without x ys.
Proof.
  intros Hnd Hin. apply NoDup_Permutation; [done| |].
  - constructor; [|by apply list.NoDup_filter]. unfold without.
    rewrite list_elem_of_filter. tauto.
  - intros y. unfold without. rewrite elem_of_cons, list_elem_of_filter.
    destruct (decide (y = x)) as [->|]; tauto.
Qed.

Lemma strict_NoDup (ys : list A) : StronglySorted (cmp_lt cmp) ys -> NoDup ys.
Proof.
  induction 1 as [|y ys Hs IH Hy]; constructor; [|done].
  rewrite list.Forall_forall in Hy. intros Hin%Hy. by apply (cmp_lt_irrefl cmp) in Hin.
Qed.

Lemma in_range_full (t : tree A) x : in_range cmp (avl_it_init t None None) x.
Proof. done. Qed.

#[export, program] Instance avl_ordered_set : OrderedSet cmp (tree A) := {
  os_ok := avl_set_ok;
  os_elems := elems;
  os_empty := Leaf;
  os_insert := avl_insert cmp;
  os_delete := avl_delete cmp;
  os_lookup := avl_lookup cmp;
  os_walk t := avl_it_collect cmp (S (size t)) (avl_it_init t None None)
}.
Next Obligation. repeat split; constructor. Qed.
Next Obligation.
  intros x t Hok Hx. destruct (avl_set_insert x t Hok Hx) as (t' & ? & ? & E).
  exists t'. rewrite E. auto using list_insert_perm.
Qed.
Next Obligation.
  intros x t Hok. destruct (avl_set_delete x t Hok) as (t' & ? & ? & E).
  exists t'. rewrite E. split; [done|]. split; [done|]. unfold without.
  setoid_rewrite list_elem_of_filter. split; [tauto|]. split; [tauto|].
  apply NoDup_without, strict_NoDup. apply Hok.
Qed.
Next Obligation. intros x t [_ Hs]. by apply avl_lookup_spec, bst_strict_bst. Qed.
Next Obligation. intros t x y [_ Hs]. by apply strict_distinct. Qed.
Next Obligation. intros t [_ Hs]. by apply strict_NoDup. Qed.
Next Obligation.
  intros t [Hok Hs] Hlen. rewrite length_elems in Hlen. unfold avl_it_init.
  rewrite avl_it_range_spec by (done || by apply bst_strict_bst).
  f_equal. by apply filter_all.
Qed.
End AvlSet.

(** * Theorems *)

Section Theorems.
Context {A : Type} (cmp : A -> A -> Z) `{!CmpOrder cmp} `{!EqDecision A}.

(** C2: on a balanced search tree, equal keys allowed, [avl_insert] never
    follows a NULL link, gives a balanced search tree again, and its in-order
    contents are the old ones with [x] placed before the first node that is not
    smaller than it. *)
Theorem avl_insert_correct x (t : tree A) :
  avl_ok t -> bst cmp t ->
  exists t', avl_insert cmp x t = Some t' /\ avl_ok t' /\ bst cmp t' /\
    elems t' = list_insert cmp x (elems t).
Proof.
  intros Hok Hs. destruct (avl_insert_spec cmp x t Hok) as (t' & ? & ? & _ & He).
  exists t'. unfold bst. rewrite He by done. repeat split; try done.
  by apply list_insert_sorted.
Qed.

(** C4: on a balanced search tree with distinct keys, [avl_delete] never
    follows a NULL link, gives such a tree again, and its in-order contents are
    the old ones without the node [x]. *)
Theorem avl_delete_correct x (t : tree A) :
  avl_ok t -> bst_strict cmp t ->
  exists t', avl_delete cmp x t = Some t' /\ avl_ok t' /\ bst_strict cmp t' /\
    elems t' = filter (fun y => y <> x) (elems t).
Proof.
  intros Hok Hs. destruct (avl_set_delete cmp x t (conj Hok Hs)) as (t' & ? & [? ?] & ?).
  exists t'. auto.
Qed.

(** [avl_search] returns a least node not below [x], and NULL exactly when
    every node is below [x]. *)
Theorem avl_search_least x (t : tree A) :
  bst cmp t ->
  match avl_search cmp x t with
  | Some y => y ∈ elems t /\ cmp x y <= 0 /\
              (forall z, z ∈ elems t -> cmp x z <= 0 -> cmp y z <= 0)
  | None => forall z, z ∈ elems t -> 0 < cmp x z
  end.
Proof. apply avl_search_spec; done. Qed.

(** The interval from [s] to [e], which [ince] makes closed at the end. *)
Definition in_bounds (s e : option A) (ince : bool) (x : A) : bool :=
  match s with Some s => 0 <=? cmp x s | None => true end &&
  match e with Some e => if ince then cmp x e <=? 0 else cmp x e <? 0 | None => true end.

(** An iterator over the range from [s] to [e], either of which may be
    absent, returns exactly the nodes of the range, in order and each once, then
    NULL; its array of 64 frames is never overrun on a tree of less than 2^32
    nodes. *)
Theorem avl_it_range (t : tree A) s e ince :
  avl_ok t -> bst cmp t -> Z.of_nat (size t) < 2 ^ 32 ->
  avl_it_collect cmp (S (size t)) (avl_it_init2 t s e ince) =
  Some (filter (fun x => in_bounds s e ince x = true) (elems t)).
Proof.
  intros Hok Hs Hsz. rewrite avl_it_range_spec by done. f_equal. apply list_filter_iff.
  intros x. unfold in_range, from_start, past_end, in_bounds. simpl.
  destruct s, e, ince;
    rewrite ?andb_true_iff, ?Z.leb_le, ?Z.ltb_lt, ?Z.ltb_ge, ?Z.leb_gt; tauto.
Qed.

(** Trees the operations build, inserting only keys that are not present, as all
    the clients in the repository do. *)
Inductive avl_reach : tree A -> Prop :=
| reach_empty : avl_reach Leaf
| reach_insert x t t' :
    avl_reach t -> avl_lookup cmp x t = None -> avl_insert cmp x t = Some t' -> avl_reach t'
| reach_delete x t t' :
    avl_reach t -> avl_delete cmp x t = Some t' -> avl_reach t'.

Lemma avl_reach_ok t : avl_reach t -> avl_set_ok cmp t.
Proof.
  induction 1 as [|x t t' _ IH Hl Hi|x t t' _ IH Hd].
  - split; [done|constructor].
  - pose proof (avl_lookup_spec cmp x t (bst_strict_bst cmp t (proj2 IH))) as Hx.
    rewrite Hl in Hx. destruct (avl_set_insert cmp x t IH Hx) as (? & ? & ? & _). naive_solver.
  - destruct (avl_set_delete cmp x t IH) as (? & ? & ? & _). naive_solver.
Qed.

(** No assertion of [avl_check] fails on a tree that insertions of absent
    keys and deletions have built. *)
Theorem avl_check_reachable t : avl_reach t -> t <> Leaf -> avl_check cmp t = true.
Proof.
  intros [Hok Hs]%avl_reach_ok Hne. apply avl_check_spec; auto using bst_strict_bst.
Qed.

(** [avl_lookup] finds a node with the key of [x] if there is one. *)
Theorem avl_lookup_correct x (t : tree A) :
  bst cmp t ->
  match avl_lookup cmp x t with
  | Some y => y ∈ elems t /\ cmp x y = 0
  | None => forall y, y ∈ elems t -> cmp x y <> 0
  end.
Proof. apply avl_lookup_spec; done. Qed.
End Theorems.

(** With a fixup callback that recomputes per-node data from the key and
    the subtrees, [aavl_insert] leaves every node with up-to-date data, and apart
    from that data does what [avl_insert] does. *)
Theorem aavl_insert_correct {A K} (key : A -> K) (cmpk : K -> K -> Z) `{!CmpOrder cmpk}
    (fixup : tree A -> A) x (t : tree A) :
  (forall l x h r, key (fixup (Node l x h r)) = key x) ->
  (forall l x h r x' h', key x = key x' -> fixup (Node l x h r) = fixup (Node l x' h' r)) ->
  augmented fixup t -> avl_ok (map_tree key t) ->
  exists t', aavl_insert (fun x y => cmpk (key x) (key y)) fixup x t = Some t' /\
    augmented fixup t' /\
    avl_insert cmpk (key x) (map_tree key t) = Some (map_tree key t').
Proof.
  intros Hkey Hloc Haug Hok. pose proof (aavl_insert_map key cmpk fixup Hkey x t) as Hmap.
  pose proof (avl_insert_spec cmpk (key x) _ Hok) as (k & Hk & _). rewrite Hk in Hmap.
  destruct (aavl_insert _ fixup x t) as [t'|] eqn:Ht; [|done]. injection Hmap as <-.
  exists t'. split; [done|]. split; [|done]. by eapply aavl_insert_augmented.
Qed.

(** * Witnesses *)

Definition tree_of (xs : list Z) : tree Z :=
  foldl (fun t x => default Leaf (avl_insert Z.sub x t)) Leaf xs.

Lemma avl_insert_correct_witness :
  avl_insert Z.sub 4 (tree_of [1; 2; 3; 5; 6; 7]) <> None /\
  exists t', avl_insert Z.sub 4 (tree_of [1; 2; 3; 5; 6; 7]) = Some t' /\
    elems t' = [1; 2; 3; 4; 5; 6; 7].
Proof.
  destruct (avl_insert_correct Z.sub 4 (tree_of [1; 2; 3; 5; 6; 7])) as (t' & E & _ & _ & He).
  - vm_compute. intuition discriminate.
  - unfold bst. vm_compute. repeat constructor; discriminate.
  - rewrite E. split; [done|]. exists t'. split; [done|]. rewrite He. reflexivity.
Defined.

Lemma avl_delete_correct_witness :
  exists t', avl_delete Z.sub 4 (tree_of [1; 2; 3; 4; 5; 6; 7]) = Some t' /\
    elems t' = [1; 2; 3; 5; 6; 7].
Proof.
  destruct (avl_delete_correct Z.sub 4 (tree_of [1; 2; 3; 4; 5; 6; 7])) as (t' & E & _ & _ & He).
  - vm_compute. intuition discriminate.
  - unfold bst_strict. vm_compute. repeat constructor.
  - exists t'. split; [done|]. rewrite He. reflexivity.
Defined.

Lemma avl_search_least_witness :
  match avl_search Z.sub 4 (tree_of [1; 5; 9]) with
  | Some y => y ∈ elems (tree_of [1; 5; 9]) /\ 4 - y <= 0 /\
              (forall z, z ∈ elems (tree_of [1; 5; 9]) -> 4 - z <= 0 -> y - z <= 0)
  | None => forall z, z ∈ elems (tree_of [1; 5; 9]) -> 0 < 4 - z
  end.
Proof.
  apply (avl_search_least Z.sub 4 (tree_of [1; 5; 9])).
  unfold bst. vm_compute. repeat constructor; discriminate.
Defined.

Lemma avl_it_range_witness :
  avl_it_collect Z.sub 8 (avl_it_init2 (tree_of [1; 2; 3; 4; 5; 6; 7]) (Some 3) (Some 6) false)
  = Some [3; 4; 5].
Proof.
  etransitivity;
    [apply (avl_it_range Z.sub (tree_of [1; 2; 3; 4; 5; 6; 7]) (Some 3) (Some 6) false)|].
  - vm_compute. intuition discriminate.
  - unfold bst. vm_compute. repeat constructor; discriminate.
  - reflexivity.
  - reflexivity.
Defined.

Lemma avl_check_reachable_witness : avl_check Z.sub (tree_of [2]) = true.
Proof.
  apply (avl_check_reachable Z.sub (tree_of [2])); [|done].
  by apply (reach_insert Z.sub 2 Leaf); [apply reach_empty|..].
Defined.

Lemma avl_lookup_correct_witness :
  match avl_lookup Z.sub 5 (tree_of [1; 5; 9]) with
  | Some y => y ∈ elems (tree_of [1; 5; 9]) /\ 5 - y = 0
  | None => forall y, y ∈ elems (tree_of [1; 5; 9]) -> 5 - y <> 0
  end.
Proof.
  apply (avl_lookup_correct Z.sub 5 (tree_of [1; 5; 9])).
  unfold bst. vm_compute. repeat constructor; discriminate.
Defined.

(** A subtree size as augmented data. *)
Definition size_fix (t : tree (Z * Z)) : Z * Z :=
  let sz c := match c with Leaf => 0 | Node _ x _ _ => snd x end in
  match t with Leaf => (0, 0) | Node l x _ r => (fst x, sz l + sz r + 1) end.

Lemma aavl_insert_correct_witness :
  exists t', aavl_insert (fun x y => fst x - fst y) size_fix (7, 0) Leaf = Some t' /\
    augmented size_fix t' /\ avl_insert Z.sub 7 Leaf = Some (map_tree fst t').
Proof.
  apply (aavl_insert_correct fst Z.sub size_fix (7, 0) Leaf); try done.
  intros l x h r x' h' E. simpl. by rewrite E.
Defined.

(** Without the distinct-key condition [avl_delete] can fail to remove a
    node: rotations may move an equal key into the right subtree, where the
    descent, which goes left on equality, does not look.  Three nodes with one
    key are inserted, and deleting the first leaves it in the tree. *)
Theorem avl_delete_misses_duplicate :
  let cmp (x y : Z * Z) := fst x - fst y in
  exists t, (t ← avl_insert cmp (0, 1) Leaf; t ← avl_insert cmp (0, 2) t;
             avl_insert cmp (0, 3) t) = Some t /\
    avl_delete cmp (0, 1) t = Some t /\ (0, 1) ∈ elems t.
Proof. eexists. split; [reflexivity|]. split; [reflexivity|]. set_solver. Qed.
