(* ===== verification/Heap.v ===== *)
(** Heap: the intrusive priority queue that HEAP_GENERATE of
    src/util/lib/heap.h expands to.

    [Nil] is a NULL pointer and [Elm l x r] an element [x] with he_left = l and
    he_right = r.  The comparison macro argument is a parameter.  [None] is a
    NULL dereference, or pointer surgery on an element that is not where the
    code expects it. *)
From stdpp Require Import prelude list numbers sorting.
From Stdlib Require Import ZArith Lia.
From S2P Require Import Prelude.

Local Open Scope Z_scope.

Inductive heap (A : Type) : Type :=
| Nil : heap A
| Elm : heap A -> A -> heap A -> heap A.
Arguments Nil {A}.
Arguments Elm {A} l x r.

Record heap_head (A : Type) := mk_heap_head { hh_root : heap A; hh_num : Z }.
Arguments mk_heap_head {A} hh_root hh_num.
Arguments hh_root {A} h : rename.
Arguments hh_num {A} h : rename.

Section Code.
Context {A : Type} (cmp : A -> A -> Z).
Implicit Types (t l r : heap A) (e x : A).

Definition HEAP_INIT : heap_head A := mk_heap_head Nil 0.

Definition HEAP_FIRST (head : heap_head A) : option A :=
  match hh_root head with Nil => None | Elm _ x _ => Some x end.

(** The recursion on [n >> 1] that tests [n & 1] is recursion on the binary
    digits of [n].  The flag says whether [e] ended at the root of the subtree,
    which is where the caller's surgery reads its links. *)
Fixpoint HEAP_linkin (pp : heap A) (n : positive) (e : A) : option (heap A * bool) :=
  match n with
  | xH => Some (Elm Nil e Nil, true)
  | xI n =>
    match pp with
    | Nil => None
    | Elm l x r =>
      '(l, top) ← HEAP_linkin l n e;
      if 0 <? cmp x e then
        match l, top with
        | Elm el _ er, true => Some (Elm (Elm el x er) e r, true)
        | _, _ => None
        end
      else Some (Elm l x r, false)
    end
  | xO n =>
    match pp with
    | Nil => None
    | Elm l x r =>
      '(r, top) ← HEAP_linkin r n e;
      if 0 <? cmp x e then
        match r, top with
        | Elm el _ er, true => Some (Elm l e (Elm el x er), true)
        | _, _ => None
        end
      else Some (Elm l x r, false)
    end
  end.

Definition HEAP_INSERT (head : heap_head A) (el : A) : option (heap_head A) :=
  let num := hh_num head + 1 in
  match num with
  | Zpos n => '(root, _) ← HEAP_linkin (hh_root head) n el; Some (mk_heap_head root num)
  | _ => None
  end.

(** [HEAP_link] followed by reading [*pp] and setting it to NULL. *)
Fixpoint HEAP_link (t : heap A) (n : positive) : option (A * heap A) :=
  match n with
  | xH => match t with Nil => None | Elm _ x _ => Some (x, Nil) end
  | xI n =>
    match t with
    | Nil => None
    | Elm l x r => '(el, l) ← HEAP_link l n; Some (el, Elm l x r)
    end
  | xO n =>
    match t with
    | Nil => None
    | Elm l x r => '(el, r) ← HEAP_link r n; Some (el, Elm l x r)
    end
  end.

(** The loop of [HEAP_UPDATE_HEAD] at an element [x] that has taken the links of
    the root of [t]. *)
Fixpoint sift (x : A) (t : heap A) : heap A :=
  match t with
  | Nil => Nil
  | Elm l _ r =>
    match r with
    | Nil => Elm l x r
    | Elm _ rx _ =>
      let right_side := if cmp x rx <=? 0 then Elm l x r else Elm l rx (sift x r) in
      match l with
      | Nil => right_side
      | Elm _ lx _ =>
        if cmp lx rx <=? 0
        then if cmp x lx <=? 0 then Elm l x r else Elm (sift x l) lx r
        else right_side
      end
    end
  end.

Definition HEAP_UPDATE_HEAD (head : heap_head A) : heap_head A :=
  match hh_root head with
  | Nil => head
  | Elm _ x _ => mk_heap_head (sift x (hh_root head)) (hh_num head)
  end.

(** [HEAP_link] takes an [int].  When the last element is the root itself,
    [*pp = NULL] empties the heap; otherwise the last element takes the links
    of the old root. *)
Definition HEAP_REMOVE_HEAD (head : heap_head A) : option (heap_head A) :=
  match i32 (hh_num head) with
  | Zpos n =>
    '(el, t) ← HEAP_link (hh_root head) n;
    let root := match t with Nil => Nil | Elm l _ r => Elm l el r end in
    Some (HEAP_UPDATE_HEAD (mk_heap_head root (hh_num head - 1)))
  | _ => None
  end.
End Code.

(** * Shape *)

Section Shape.
Context {A : Type} (cmp : A -> A -> Z) `{!CmpOrder cmp}.
Implicit Types (t l r : heap A) (e x : A).

Fixpoint hsize t : Z := match t with Nil => 0 | Elm l _ r => hsize l + hsize r + 1 end.

Fixpoint helems t : list A :=
  match t with Nil => [] | Elm l x r => x :: helems l ++ helems r end.

(** The right subtree has as many elements as the left one, or one more. *)
Fixpoint braun t : Prop :=
  match t with
  | Nil => True
  | Elm l _ r => braun l /\ braun r /\ hsize l <= hsize r <= hsize l + 1
  end.

Definition above x t : Prop := match t with Nil => True | Elm _ y _ => cmp x y <= 0 end.

Fixpoint ordered t : Prop :=
  match t with Nil => True | Elm l x r => above x l /\ above x r /\ ordered l /\ ordered r end.

Lemma hsize_nonneg t : 0 <= hsize t.
Proof. induction t; simpl; lia. Qed.

Lemma hsize_helems t : Z.of_nat (length (helems t)) = hsize t.
Proof. induction t; simpl; [done|]. rewrite length_app. lia. Qed.

Lemma ordered_above x t : ordered t -> above x t -> forall y, y ∈ helems t -> cmp x y <= 0.
Proof.
  revert x. induction t as [|l IHl z r IHr]; intros x Ho Hx y; [by intros ?%not_elem_of_nil|].
  destruct Ho as (Hl & Hr & Hol & Hor). simpl in Hx |- *.
  rewrite elem_of_cons, elem_of_app. intros [->|[Hy|Hy]]; [done| |].
  - apply (cmp_trans _ z); [done|]. by apply IHl.
  - apply (cmp_trans _ z); [done|]. by apply IHr.
Qed.

Lemma above_trans x y t : cmp x y <= 0 -> above y t -> above x t.
Proof. destruct t; [done|]. simpl. apply cmp_trans. Qed.

(** Where [e] is after it was linked into [t] giving [t']: at the root with the
    old elements below it, or below the old root. *)
Definition linked t e t' (top : bool) : Prop :=
  match t' with
  | Nil => False
  | Elm l x r =>
    if top then x = e /\ helems l ++ helems r ≡ₚ helems t
    else cmp x e <= 0 /\ match t with Nil => False | Elm _ y _ => x = y end
  end.

Lemma linked_above x t e t' top :
  linked t e t' top -> above x t -> cmp x e <= 0 -> above x t'.
Proof.
  destruct t' as [|l y r]; [done|]. simpl. destruct top; [by intros [-> _]|].
  intros [_ E]. destruct t; [done|]. by subst.
Qed.

Lemma linked_top x t e t' top :
  linked t e t' top -> ordered t -> above x t -> 0 < cmp x e ->
  top = true /\ exists l r, t' = Elm l e r /\ above x l /\ above x r /\
    helems l ++ helems r ≡ₚ helems t.
Proof.
  destruct t' as [|l y r]; [done|]. simpl. intros Hlk Ho Hx Hxe. destruct top.
  - destruct Hlk as [-> Hp]. split; [done|]. exists l, r. split; [done|].
    assert (forall z, z ∈ helems l ++ helems r -> cmp x z <= 0) as Hz.
    { intros z. rewrite Hp. by apply ordered_above. }
    split; [|split; [|done]]; [destruct l|destruct r]; simpl; try done; apply Hz; set_solver.
  - destruct Hlk as [Hye E], t as [|? z ?]; [done|]. subst z. simpl in Hx.
    pose proof (cmp_trans x y e Hx Hye). lia.
Qed.

Lemma HEAP_linkin_spec n t e :
  braun t -> ordered t -> hsize t = Zpos n - 1 ->
  exists t' top, HEAP_linkin cmp t n e = Some (t', top) /\
    braun t' /\ ordered t' /\ hsize t' = Zpos n /\ helems t' ≡ₚ e :: helems t /\
    linked t e t' top.
Proof.
  revert t. induction n as [n IH|n IH|]; intros t Hb Ho Hn;
    destruct t as [|l x r]; simpl in Hb, Ho, Hn; try lia;
    try (pose proof (hsize_nonneg l); pose proof (hsize_nonneg r); lia).
  3: { eexists _, true. split; [done|]. simpl. repeat split; lia || done. }
  all: destruct Hb as (Hbl & Hbr & Hlr), Ho as (Hxl & Hxr & Hol & Hor); cbn [HEAP_linkin].
  - destruct (IH l) as (l' & top & -> & Hb' & Ho' & Hs' & Hp & Hlk); [done|done|lia|].
    cbn [mbind option_bind]. destruct (Z.ltb_spec 0 (cmp x e)) as [Hxe|Hxe].
    + destruct (linked_top x l e l' top) as (-> & el & er & -> & Hel & Her & Hlp); [done..|].
      eexists _, true. split; [done|]. simpl in *. rewrite Hlp.
      pose proof (proj1 (cmp_swap_lt cmp x e) Hxe).
      repeat split; try lia; try tauto; try done. apply (above_trans e x r); [lia|done].
    + pose proof (linked_above x l e l' top Hlk Hxl Hxe).
      eexists _, false. split; [done|]. simpl in *. rewrite Hp. simpl.
      repeat split; try lia; try tauto; try done. apply perm_swap.
  - destruct (IH r) as (r' & top & -> & Hb' & Ho' & Hs' & Hp & Hlk); [done|done|lia|].
    cbn [mbind option_bind]. destruct (Z.ltb_spec 0 (cmp x e)) as [Hxe|Hxe].
    + destruct (linked_top x r e r' top) as (-> & el & er & -> & Hel & Her & Hrp); [done..|].
      eexists _, true. split; [done|]. simpl in *. rewrite <- Permutation_middle, Hrp.
      pose proof (proj1 (cmp_swap_lt cmp x e) Hxe).
      repeat split; try lia; try tauto; try done. apply (above_trans e x l); [lia|done].
    + pose proof (linked_above x r e r' top Hlk Hxr Hxe).
      eexists _, false. split; [done|]. simpl in *. rewrite Hp, <- Permutation_middle.
      repeat split; try lia; try tauto; try done. apply perm_swap.
Qed.

(** Taking the last element off leaves a heap of the same order and shape. *)
Lemma HEAP_link_spec n t :
  braun t -> ordered t -> hsize t = Zpos n ->
  exists el t', HEAP_link t n = Some (el, t') /\
    braun t' /\ ordered t' /\ hsize t' = Zpos n - 1 /\ helems t ≡ₚ el :: helems t' /\
    (forall x, above x t -> above x t') /\
    match t, t' with Elm _ x _, Elm _ y _ => x = y | Elm _ x _, Nil => x = el | Nil, _ => False end.
Proof.
  revert t. induction n as [n IH|n IH|]; intros t Hb Ho Hn;
    destruct t as [|l x r]; simpl in Hb, Ho, Hn; try lia;
    destruct Hb as (Hbl & Hbr & Hlr), Ho as (Hxl & Hxr & Hol & Hor); cbn [HEAP_link].
  - destruct (IH l) as (el & l' & -> & Hb' & Ho' & Hs' & Hp & Hab & _); [done|done|lia|].
    eexists _, _. split; [done|]. simpl. rewrite Hp. simpl.
    repeat split; try lia; try done; auto. apply perm_swap.
  - destruct (IH r) as (el & r' & -> & Hb' & Ho' & Hs' & Hp & Hab & _); [done|done|lia|].
    eexists _, _. split; [done|]. simpl. rewrite Hp, <- Permutation_middle.
    repeat split; try lia; try done; auto. apply perm_swap.
  - pose proof (hsize_nonneg l). pose proof (hsize_nonneg r).
    destruct l as [|ll lx lr]; simpl in *;
      [|pose proof (hsize_nonneg ll); pose proof (hsize_nonneg lr); lia].
    destruct r as [|rl rx rr]; simpl in *;
      [|pose proof (hsize_nonneg rl); pose proof (hsize_nonneg rr); lia].
    eexists _, _. split; [done|]. repeat split; lia || done.
Qed.

(** [t'] is a heap of the shape of [t] with [x] in place of its root. *)
Definition sifted x t t' : Prop :=
  match t with
  | Nil => False
  | Elm l _ r =>
    braun t' /\ ordered t' /\ hsize t' = hsize t /\ helems t' ≡ₚ x :: helems l ++ helems r /\
    (forall z, cmp z x <= 0 -> above z l -> above z r -> above z t')
  end.

Lemma sifted_left x l y r ll lx lr l' :
  l = Elm ll lx lr -> braun (Elm l y r) -> ordered l -> ordered r ->
  cmp lx x <= 0 -> above lx r -> sifted x l l' -> sifted x (Elm l y r) (Elm l' lx r).
Proof.
  intros -> (Hbl & Hbr & Hlr) (Hll & Hlr' & Holl & Holr) Hor Hlx Hlxr (Hb' & Ho' & Hs' & Hp & Hab).
  simpl in *. split; [repeat split; lia || done|]. split; [repeat split; auto|].
  split; [lia|]. split; [|auto]. rewrite Hp. simpl. rewrite <- app_assoc. apply perm_swap.
Qed.

Lemma sifted_right x l y r rl rx rr r' :
  r = Elm rl rx rr -> braun (Elm l y r) -> ordered l -> ordered r ->
  cmp rx x <= 0 -> above rx l -> sifted x r r' -> sifted x (Elm l y r) (Elm l rx r').
Proof.
  intros -> (Hbl & Hbr & Hlr) Hol (Hrl & Hrr' & Horl & Horr) Hrx Hrxl (Hb' & Ho' & Hs' & Hp & Hab).
  simpl in *. split; [repeat split; lia || done|]. split; [repeat split; auto|].
  split; [lia|]. split; [|auto]. rewrite Hp, <- !Permutation_middle. apply perm_swap.
Qed.

Lemma sifted_stay x l y r :
  braun (Elm l y r) -> ordered l -> ordered r -> above x l -> above x r ->
  sifted x (Elm l y r) (Elm l x r).
Proof. simpl. intuition. Qed.

(** The element sinks until it is above both subtrees. *)
Lemma sift_spec x t :
  t <> Nil -> braun t -> match t with Nil => True | Elm l _ r => ordered l /\ ordered r end ->
  sifted x t (sift cmp x t).
Proof.
  induction t as [|l IHl y r IHr]; intros Hne Hb Ho; [done|]. destruct Ho as [Hol Hor].
  destruct r as [|rl rx rr].
  { assert (l = Nil) as ->; [|by apply (sifted_stay x Nil y Nil Hb)].
    destruct l as [|ll ? lr]; [done|]. destruct Hb as (_ & _ & ?). simpl in *.
    pose proof (hsize_nonneg ll). pose proof (hsize_nonneg lr). lia. }
  pose proof Hb as (Hbl & Hbr & _).
  assert (0 < cmp x rx -> above rx l ->
    sifted x (Elm l y (Elm rl rx rr)) (Elm l rx (sift cmp x (Elm rl rx rr)))) as Hright.
  { intros Hx Hl. eapply sifted_right; eauto.
    - apply cmp_swap_lt in Hx; [lia|done].
    - apply IHr; [done..|]. by destruct Hor as (_ & _ & ? & ?). }
  cbn [sift]. destruct l as [|ll lx lr].
  - destruct (Z.leb_spec (cmp x rx) 0); [by apply sifted_stay|by apply Hright].
  - destruct (Z.leb_spec (cmp lx rx) 0) as [Hlr|Hlr].
    + destruct (Z.leb_spec (cmp x lx) 0) as [Hx|Hx].
      * apply sifted_stay; try done. simpl. by apply (cmp_trans _ lx).
      * eapply sifted_left; eauto; [apply cmp_swap_lt in Hx; [lia|done]|].
        apply IHl; [done..|]. by destruct Hol as (_ & _ & ? & ?).
    + apply cmp_swap_lt in Hlr; [|done]. destruct (Z.leb_spec (cmp x rx) 0) as [Hx|Hx].
      * apply sifted_stay; try done. simpl. apply (cmp_trans _ rx); [done|lia].
      * apply Hright; simpl; lia.
Qed.
End Shape.

(** * Theorems *)

Section Theorems.
Context {A : Type} (cmp : A -> A -> Z) `{!CmpOrder cmp}.

(** A well-formed heap: the recorded count is right and small enough for the
    [int] argument of [HEAP_link], the tree is as balanced as insertion by
    index makes it, and no element is below its parent. *)
Record heap_ok (head : heap_head A) : Prop := {
  ok_braun : braun (hh_root head);
  ok_ordered : ordered cmp (hh_root head);
  ok_num : hh_num head = hsize (hh_root head)
}.

Definition heap_elems (head : heap_head A) : list A := helems (hh_root head).

Lemma heap_first_least head x :
  heap_ok head -> HEAP_FIRST head = Some x -> forall y, y ∈ heap_elems head -> cmp x y <= 0.
Proof.
  intros [Hb Ho _] Hf. unfold HEAP_FIRST, heap_elems in *.
  destruct (hh_root head) as [|l z r] eqn:E; [done|]. injection Hf as ->.
  apply ordered_above; [done|done|]. simpl. rewrite (cmp_refl cmp). lia.
Qed.

Lemma HEAP_INSERT_spec head e :
  heap_ok head ->
  exists head', HEAP_INSERT cmp head e = Some head' /\ heap_ok head' /\
    heap_elems head' ≡ₚ e :: heap_elems head.
Proof.
  destruct head as [t num]. intros [Hb Ho Hn]. simpl in *. subst num. unfold HEAP_INSERT. simpl.
  pose proof (hsize_nonneg t). destruct (hsize t + 1) as [|n|] eqn:En; [lia| |lia].
  destruct (HEAP_linkin_spec cmp n t e) as (t' & top & -> & Hb' & Ho' & Hs & Hp & _); [done|done|lia|].
  eexists. split; [done|]. split; [|done]. by split.
Qed.

Lemma HEAP_REMOVE_HEAD_spec head x :
  heap_ok head -> hh_num head < 2 ^ 31 -> HEAP_FIRST head = Some x ->
  exists head', HEAP_REMOVE_HEAD cmp head = Some head' /\ heap_ok head' /\
    heap_elems head ≡ₚ x :: heap_elems head'.
Proof.
  destruct head as [t num]. intros [Hb Ho Hn] Hlt Hf. unfold HEAP_FIRST, heap_elems in *.
  simpl in *. subst num. destruct t as [|l z r] eqn:Et; [done|]. injection Hf as ->. rewrite <- Et in *.
  unfold HEAP_REMOVE_HEAD. simpl. pose proof (hsize_nonneg l). pose proof (hsize_nonneg r).
  assert (0 < hsize t) by (subst t; simpl; lia).
  rewrite swrap_small by (simpl; lia). destruct (hsize t) as [|n|] eqn:En; [lia| |lia].
  destruct (HEAP_link_spec cmp n t) as (el & t' & -> & Hb' & Ho' & Hs & Hp & _ & Hroot);
    [done..|]. cbn [mbind option_bind]. rewrite Et in Hroot.
  eexists. split; [done|]. rewrite Hp. destruct t' as [|l' y r'].
  { subst. simpl in *. split; [|done]. split; simpl; lia || done. }
  subst y. destruct Ho' as (_ & _ & Hl' & Hr').
  destruct (sift_spec cmp el (Elm l' el r')) as (Hb2 & Ho2 & Hs2 & Hp2 & _); [done..|].
  unfold HEAP_UPDATE_HEAD. cbn [hh_root hh_num]. split.
  - split; cbn [hh_root hh_num]; [done|done|]. rewrite Hs2. simpl in *. lia.
  - cbn [hh_root]. rewrite Hp2. simpl. apply perm_swap.
Qed.

(** The abstract priority queue is the multiset of the elements. *)
Definition least (x : A) (ys : list A) : Prop := x ∈ ys /\ forall y, y ∈ ys -> cmp x y <= 0.

(** C5: a well-formed heap implements a priority queue.  HEAP_FIRST is a least
    element, or NULL on an empty heap; HEAP_INSERT adds its element and
    HEAP_REMOVE_HEAD removes the first one, and neither dereferences NULL, loses
    an element or breaks the order or the shape. *)
Theorem heap_refines_queue head :
  heap_ok head -> hh_num head < 2 ^ 31 ->
  match HEAP_FIRST head with
  | None => heap_elems head = []
  | Some x =>
    least x (heap_elems head) /\
    exists head', HEAP_REMOVE_HEAD cmp head = Some head' /\ heap_ok head' /\
      heap_elems head ≡ₚ x :: heap_elems head'
  end /\
  (forall e, exists head', HEAP_INSERT cmp head e = Some head' /\ heap_ok head' /\
    heap_elems head' ≡ₚ e :: heap_elems head).
Proof.
  intros Hok Hnum. split; [|by intros e; apply HEAP_INSERT_spec].
  destruct (HEAP_FIRST head) as [x|] eqn:Hf.
  - split; [split; [|by apply heap_first_least]|by apply HEAP_REMOVE_HEAD_spec].
    unfold HEAP_FIRST, heap_elems in *. destruct (hh_root head); [done|]. simplify_eq. left.
  - unfold HEAP_FIRST, heap_elems in *. by destruct (hh_root head).
Qed.

(** After the key of the first element alone has changed, to any value,
    HEAP_UPDATE_HEAD makes the heap well formed again with the same elements. *)
Theorem heap_update_head head l x y r :
  hh_root head = Elm l y r -> heap_ok (mk_heap_head (Elm l x r) (hh_num head)) ->
  heap_ok (HEAP_UPDATE_HEAD cmp head) /\
  heap_elems (HEAP_UPDATE_HEAD cmp head) ≡ₚ heap_elems head.
Proof.
  destruct head as [t num]. intros Hroot [Hb Ho Hn]. simpl in *. subst t num.
  destruct (sift_spec cmp y (Elm l y r)) as (Hb' & Ho' & Hs & Hp & _); [done|done|tauto|].
  unfold HEAP_UPDATE_HEAD. cbn [hh_root hh_num]. split; [|exact Hp].
  split; cbn [hh_root hh_num]; [done|done|]. by rewrite Hs.
Qed.

Fixpoint heap_fill (xs : list A) (head : heap_head A) : option (heap_head A) :=
  match xs with
  | [] => Some head
  | x :: xs => head ← HEAP_INSERT cmp head x; heap_fill xs head
  end.

(** Take the first element off until the heap is empty. *)
Fixpoint heap_drain (fuel : nat) (head : heap_head A) : option (list A) :=
  match HEAP_FIRST head with
  | None => Some []
  | Some x =>
    match fuel with
    | O => None
    | S fuel => head ← HEAP_REMOVE_HEAD cmp head; xs ← heap_drain fuel head; Some (x :: xs)
    end
  end.

Lemma heap_fill_spec xs head :
  heap_ok head ->
  exists head', heap_fill xs head = Some head' /\ heap_ok head' /\
    heap_elems head' ≡ₚ xs ++ heap_elems head.
Proof.
  revert head. induction xs as [|x xs IH]; intros head Hok; [by exists head|]. simpl.
  destruct (HEAP_INSERT_spec head x Hok) as (head1 & -> & Hok1 & Hp1).
  destruct (IH head1 Hok1) as (head2 & E & Hok2 & Hp2). exists head2.
  split; [done|]. split; [done|]. rewrite Hp2, Hp1. by rewrite <- Permutation_middle.
Qed.

Lemma heap_num_length head : heap_ok head -> hh_num head = Z.of_nat (length (heap_elems head)).
Proof. intros [_ _ ->]. by rewrite <- hsize_helems. Qed.

Lemma heap_drain_spec fuel head :
  heap_ok head -> hh_num head < 2 ^ 31 -> (length (heap_elems head) <= fuel)%nat ->
  exists xs, heap_drain fuel head = Some xs /\ xs ≡ₚ heap_elems head /\
    StronglySorted (fun x y => cmp x y <= 0) xs.
Proof.
  revert head. induction fuel as [|fuel IH]; intros head Hok Hnum Hlen.
  - exists []. destruct (heap_elems head) eqn:E; [|simpl in Hlen; lia].
    unfold heap_drain, HEAP_FIRST. unfold heap_elems in E. destruct (hh_root head); [|done].
    repeat constructor.
  - cbn [heap_drain]. destruct (HEAP_FIRST head) as [x|] eqn:Hf.
    + destruct (HEAP_REMOVE_HEAD_spec head x) as (head' & -> & Hok' & Hp); [done..|].
      pose proof (Permutation_length Hp) as Hl. simpl in Hl.
      pose proof (heap_num_length head Hok). pose proof (heap_num_length head' Hok').
      destruct (IH head') as (xs & Hd & Hpx & Hs); [done|lia|lia|].
      exists (x :: xs). simpl. rewrite Hd. split; [done|]. split; [by rewrite Hpx|].
      constructor; [done|]. rewrite Hpx. apply list.Forall_forall. intros y Hy.
      apply (heap_first_least head); [done|done|]. rewrite Hp. by right.
    + exists []. unfold HEAP_FIRST, heap_elems in *. destruct (hh_root head); [|done].
      repeat constructor.
Qed.

Lemma HEAP_INIT_ok : heap_ok HEAP_INIT.
Proof. done. Qed.

(** Filling an empty heap and taking its elements off again returns them
    all in ascending order. *)
Theorem heap_sorts xs :
  Z.of_nat (length xs) < 2 ^ 31 ->
  exists head ys, heap_fill xs HEAP_INIT = Some head /\
    heap_drain (length xs) head = Some ys /\ ys ≡ₚ xs /\
    StronglySorted (fun x y => cmp x y <= 0) ys.
Proof.
  intros Hlen. destruct (heap_fill_spec xs HEAP_INIT HEAP_INIT_ok) as (head & Hf & Hok & Hp).
  rewrite app_nil_r in Hp. pose proof (Permutation_length Hp).
  pose proof (heap_num_length head Hok).
  destruct (heap_drain_spec (length xs) head Hok) as (ys & Hd & Hpy & Hs); [lia|lia|].
  exists head, ys. repeat split; try done. by rewrite Hpy.
Qed.
End Theorems.

(** * Witnesses *)

Definition heap_of (xs : list Z) : heap_head Z := default HEAP_INIT (heap_fill Z.sub xs HEAP_INIT).

Lemma heap_refines_queue_witness :
  HEAP_FIRST (heap_of [3; 1; 2]) = Some 1 /\
  exists head', HEAP_REMOVE_HEAD Z.sub (heap_of [3; 1; 2]) = Some head' /\ heap_ok Z.sub head'.
Proof.
  destruct (heap_refines_queue Z.sub (heap_of [3; 1; 2])) as [(_ & head' & H1 & H2 & _) _].
  - split; vm_compute; intuition discriminate.
  - vm_compute. reflexivity.
  - split; [reflexivity|]. exists head'. done.
Defined.

Lemma heap_update_head_witness :
  let h := mk_heap_head (Elm (Elm Nil 3 Nil) 9 (Elm Nil 2 Nil)) 3 in
  heap_ok Z.sub (HEAP_UPDATE_HEAD Z.sub h) /\
  heap_elems (HEAP_UPDATE_HEAD Z.sub h) ≡ₚ heap_elems h.
Proof.
  intros h. apply (heap_update_head Z.sub h (Elm Nil 3 Nil) 1 9 (Elm Nil 2 Nil)); [done|].
  split; vm_compute; intuition discriminate.
Defined.

Lemma heap_sorts_witness :
  exists head ys, heap_fill Z.sub [5; 3; 8; 1; 3] HEAP_INIT = Some head /\
    heap_drain Z.sub 5 head = Some ys /\ ys ≡ₚ [5; 3; 8; 1; 3] /\
    StronglySorted (fun x y => x - y <= 0) ys.
Proof. apply (heap_sorts Z.sub [5; 3; 8; 1; 3]). simpl. lia. Defined.
