(* ===== verification/Sbalance.v ===== *)
(** Sbalance: the load balancer of src/util/lib/sbalance.c and sbalance.h.

    A balancer is shared by its connections, so operations on a connection
    take and return both.  [arc4random] is an argument of the calls that may
    use it.  Floating point arithmetic and [drand48_r] are abstract operations
    of the class [Drand].  [None] is an access outside the service array or a
    generator that does not initialise. *)
From stdpp Require Import prelude list numbers sorting.
From Stdlib Require Import ZArith QArith Lia.
From S2P Require Import Prelude Rcycle.

Local Open Scope Z_scope.

(** The double operations of [sbalance_hash_init] and the generator state of
    [srand48_r] and [drand48_r]. *)
Class Drand (F G : Type) := {
  fzero : F;
  frecip : Z -> F;
  fadd : F -> F -> F;
  fdiv : F -> F -> F;
  fgt : F -> F -> bool;
  srand48 : Z -> G;
  drand48 : G -> F * G
}.

Inductive sbalance_strat := ST_SEQ | ST_RANDOM | ST_HASH.
#[export] Instance sbalance_strat_eq_dec : EqDecision sbalance_strat.
Proof. solve_decision. Defined.

Inductive sbalance_conn_status := SBCS_START | SBCS_FAIL | SBCS_TEMPFAIL.

Section Code.
Context {D C F G : Type} `{!Cycler C, !Drand F G}.

Record sb_service := mk_sb_service { cost : Z; tempfailcost : Z; data : D }.

Record sbalance := mk_sbalance {
  sb_retries : Z;
  sb_failcost : Z;
  sb_softfailcost : Z;
  sb_service_ : list sb_service;
  sb_strat : sbalance_strat;
  sb_refs : Z
}.

Record sbalance_connection := mk_sc {
  sc_retries : Z;
  sc_first : Z;
  sc_rc : C;
  sc_offs : Z;
  sc_last : Z
}.

(** The array and its length are kept together. *)
Definition sb_nserv (sb : sbalance) : Z := Z.of_nat (length (sb_service_ sb)).

Definition set_service (sb : sbalance) (s : list sb_service) : sbalance :=
  mk_sbalance (sb_retries sb) (sb_failcost sb) (sb_softfailcost sb) s (sb_strat sb) (sb_refs sb).

Definition set_refs (sb : sbalance) (n : Z) : sbalance :=
  mk_sbalance (sb_retries sb) (sb_failcost sb) (sb_softfailcost sb) (sb_service_ sb) (sb_strat sb) n.

Definition sbalance_create (retries failcost softfailcost : Z) (strat : sbalance_strat) : sbalance :=
  mk_sbalance retries failcost softfailcost [] strat 1.

Definition sbalance_retain (sb : sbalance) : sbalance := set_refs sb (i32 (sb_refs sb + 1)).

(** The balancer that is left, or the data handed to [free_f] when the last
    reference went away. *)
Definition sbalance_release (sb : sbalance) : sbalance + list D :=
  if 1 <? sb_refs sb then inl (set_refs sb (sb_refs sb - 1))
  else inr (map data (sb_service_ sb)).

Definition sbalance_add_serv (sb : sbalance) (c : Z) (d : D) : sbalance :=
  let c := if c =? 0 then 1 else c in
  set_service sb (sb_service_ sb ++ [mk_sb_service (u32 c) 0 d]).

Definition sbalance_seq_reinit (sb : sbalance) (sc : sbalance_connection) : sbalance_connection :=
  mk_sc (sc_retries sc) (i32 (sb_nserv sb)) (sc_rc sc) 0 (sc_last sc).

Definition sbalance_seq_init (sb : sbalance) (sc : sbalance_connection) : sbalance_connection :=
  let sc := sbalance_seq_reinit sb sc in
  mk_sc (i32 (sb_retries sb)) (sc_first sc) (sc_rc sc) (sc_offs sc) (sc_last sc).

Definition sbalance_seq_next (sc : sbalance_connection) : option (Z * sbalance_connection) :=
  Some (sc_offs sc, mk_sc (sc_retries sc) (sc_first sc) (sc_rc sc) (i32 (sc_offs sc + 1)) (sc_last sc)).

(** The weighted draw: service [i] replaces the pick with probability w / tw. *)
Fixpoint hash_pick (ss : list sb_service) (i pick : Z) (tw : F) (rd : G) : Z :=
  match ss with
  | [] => pick
  | s :: ss =>
    let w := frecip (if tempfailcost s =? 0 then cost s else tempfailcost s) in
    let tw := fadd tw w in
    let '(r, rd) := drand48 rd in
    hash_pick ss (i + 1) (if fgt (fdiv w tw) r then i else pick) tw rd
  end.

Definition sbalance_hash_init (sb : sbalance) (sc : sbalance_connection) (hash : Z) :
    sbalance_connection :=
  let pick := hash_pick (sb_service_ sb) 0 0 fzero (srand48 hash) in
  mk_sc (i32 (sb_retries sb)) 1 (sc_rc sc) (i32 pick) (sc_last sc).

Definition sbalance_rand_init (sb : sbalance) (sc : sbalance_connection) (arc4random : Z) :
    sbalance_connection :=
  sbalance_hash_init sb sc arc4random.

Definition sbalance_rand_reinit (sb : sbalance) (sc : sbalance_connection) (arc4random : Z) :
    option sbalance_connection :=
  rc ← cy_init (sc_rc sc) (sb_nserv sb) arc4random;
  Some (mk_sc (sc_retries sc) (i32 (sb_nserv sb)) rc (-1) (sc_last sc)).

Definition sbalance_rcycle_next (sc : sbalance_connection) : option (Z * sbalance_connection) :=
  if negb (sc_offs sc =? -1) then Some (sc_offs sc, sc)
  else '(x, rc) ← cy_next (sc_rc sc);
       Some (i32 x, mk_sc (sc_retries sc) (sc_first sc) rc (sc_offs sc) (sc_last sc)).

(** The strategy table. *)
Definition strat_init (sb : sbalance) (sc : sbalance_connection) (hash arc4random : Z) :
    sbalance_connection :=
  match sb_strat sb with
  | ST_SEQ => sbalance_seq_init sb sc
  | ST_RANDOM => sbalance_rand_init sb sc arc4random
  | ST_HASH => sbalance_hash_init sb sc hash
  end.

Definition strat_reinit (sb : sbalance) (sc : sbalance_connection) (arc4random : Z) :
    option sbalance_connection :=
  match sb_strat sb with
  | ST_SEQ => Some (sbalance_seq_reinit sb sc)
  | _ => sbalance_rand_reinit sb sc arc4random
  end.

Definition strat_next (sb : sbalance) (sc : sbalance_connection) :
    option (Z * sbalance_connection) :=
  match sb_strat sb with
  | ST_SEQ => sbalance_seq_next sc
  | _ => sbalance_rcycle_next sc
  end.

Definition sbalance_conn_new (sb : sbalance) (sc : sbalance_connection) (hash arc4random : Z) :
    sbalance * sbalance_connection :=
  let sb := sbalance_retain sb in (sb, strat_init sb sc hash arc4random).

Definition set_tempfailcost (sb : sbalance) (i c : Z) : option sbalance :=
  s ← sb_service_ sb !! Z.to_nat i;
  Some (set_service sb (<[Z.to_nat i := mk_sb_service (cost s) c (data s)]> (sb_service_ sb))).

Definition sbalance_conn_next (sb : sbalance) (sc : sbalance_connection)
    (status : sbalance_conn_status) (arc4random : Z) :
    option (sbalance * sbalance_connection * option D) :=
  if sb_nserv sb =? 0 then Some (sb, sc, None) else
  sb ← (match status with
        | SBCS_START => Some sb
        | SBCS_FAIL => set_tempfailcost sb (sc_last sc) (sb_failcost sb)
        | SBCS_TEMPFAIL => set_tempfailcost sb (sc_last sc) (sb_softfailcost sb)
        end);
  let dec_retries := mk_sc (i32 (sc_retries sc - 1)) (sc_first sc) (sc_rc sc) (sc_offs sc) (sc_last sc) in
  if (sc_first sc =? 0) && (sc_retries sc =? 0) then Some (sb, dec_retries, None) else
  sc ← (if sc_first sc =? 0 then strat_reinit sb dec_retries arc4random else Some sc);
  let sc := mk_sc (sc_retries sc) (i32 (sc_first sc - 1)) (sc_rc sc) (sc_offs sc) (sc_last sc) in
  '(i, sc) ← strat_next sb sc;
  let sc := mk_sc (sc_retries sc) (sc_first sc) (sc_rc sc) (sc_offs sc) (u32 i) in
  s ← sb_service_ sb !! Z.to_nat (u32 i);
  Some (sb, sc, Some (data s)).

Definition sbalance_conn_done (sb : sbalance) (sc : sbalance_connection) : option sbalance :=
  if negb (sb_nserv sb =? 0) && (0 <=? sc_retries sc) then
    s ← sb_service_ sb !! Z.to_nat (sc_last sc);
    if tempfailcost s =? 0 then Some sb else set_tempfailcost sb (sc_last sc) 0
  else Some sb.

(** A client that keeps asking for the next service: the answers of a sequence
    of calls, each with its status and random number. *)
Fixpoint conn_calls (sb : sbalance) (sc : sbalance_connection)
    (calls : list (sbalance_conn_status * Z)) :
    option (sbalance * sbalance_connection * list (option D)) :=
  match calls with
  | [] => Some (sb, sc, [])
  | (st, rnd) :: calls =>
    '(sb, sc, d) ← sbalance_conn_next sb sc st rnd;
    '(sb, sc, ds) ← conn_calls sb sc calls;
    Some (sb, sc, d :: ds)
  end.
End Code.
Arguments sbalance : clear implicits.
Arguments sb_service : clear implicits.
Arguments sbalance_connection : clear implicits.

(** [str] is a list of signed characters without the terminator. *)
Definition sbalance_hash_string (str : list Z) : Z :=
  foldl (fun hash c => u32 (hash * 16777619) .^ u32 c) 2166136261 str.

(** * Proofs *)

Section Proofs.
Context {D C F G : Type} `{!Cycler C, !Drand F G}.
Implicit Types (sb : sbalance D) (sc : sbalance_connection C).

(** What connections see of the pool, apart from the temporary costs. *)
Definition datas sb : list D := map data (sb_service_ sb).

Record same_pool sb1 sb2 : Prop := {
  sp_datas : datas sb2 = datas sb1;
  sp_strat : sb_strat sb2 = sb_strat sb1;
  sp_retries : sb_retries sb2 = sb_retries sb1
}.

#[local] Instance same_pool_po : PreOrder same_pool.
Proof. split; [done|]. intros ? ? ? [] []. split; congruence. Qed.

Lemma same_pool_nserv sb1 sb2 : same_pool sb1 sb2 -> sb_nserv sb2 = sb_nserv sb1.
Proof.
  intros [Hd _ _]. unfold sb_nserv. apply (f_equal length) in Hd. unfold datas in Hd.
  rewrite !length_map in Hd. lia.
Qed.

Lemma lookup_datas sb i : datas sb !! i = data <$> sb_service_ sb !! i.
Proof. apply list_lookup_fmap. Qed.

Lemma set_tempfailcost_spec sb i c :
  0 <= i < sb_nserv sb -> exists sb', set_tempfailcost sb i c = Some sb' /\ same_pool sb sb'.
Proof.
  intros Hi. unfold set_tempfailcost, sb_nserv in *.
  destruct (lookup_lt_is_Some_2 (sb_service_ sb) (Z.to_nat i)) as (s & Hs); [lia|].
  rewrite Hs. simpl. eexists. split; [done|]. split; [|done..].
  unfold datas. simpl. change (map data (<[Z.to_nat i := ?x]> ?l)) with (data <$> <[Z.to_nat i := x]> l).
  rewrite list_fmap_insert. simpl. apply list_insert_id. by rewrite list_lookup_fmap, Hs.
Qed.

(** The part of a connection the strategies advance. *)
Definition core_next (st : sbalance_strat) (c : C * Z) : option (Z * (C * Z)) :=
  let '(rc, offs) := c in
  match st with
  | ST_SEQ => Some (offs, (rc, i32 (offs + 1)))
  | _ => if negb (offs =? -1) then Some (offs, c)
         else '(x, rc) ← cy_next rc; Some (i32 x, (rc, offs))
  end.

Definition core sc : C * Z := (sc_rc sc, sc_offs sc).

Lemma strat_next_core sb sc :
  strat_next sb sc =
  '(i, (rc, offs)) ← core_next (sb_strat sb) (core sc);
  Some (i, mk_sc (sc_retries sc) (sc_first sc) rc offs (sc_last sc)).
Proof.
  unfold strat_next, sbalance_seq_next, sbalance_rcycle_next, core_next, core.
  destruct sc as [re fi rc offs la]. simpl.
  destruct (sb_strat sb); [done|..]; destruct (negb _); try done; by destruct (cy_next rc) as [[]|].
Qed.

(** A call may report a failure only once a service has been returned. *)
Definition call_ok sb sc (st : sbalance_conn_status) : Prop :=
  match st with SBCS_START => True | _ => 0 <= sc_last sc < sb_nserv sb end.

Lemma report_spec sb sc st :
  call_ok sb sc st ->
  exists sb', match st with
      | SBCS_START => Some sb
      | SBCS_FAIL => set_tempfailcost sb (sc_last sc) (sb_failcost sb)
      | SBCS_TEMPFAIL => set_tempfailcost sb (sc_last sc) (sb_softfailcost sb)
      end = Some sb' /\ same_pool sb sb'.
Proof. destruct st; intros H; [by exists sb|by apply set_tempfailcost_spec..]. Qed.

(** A call within a round returns the service the strategy picks. *)
Lemma conn_next_round sb sc st rnd i c' :
  0 < sb_nserv sb < 2 ^ 31 -> call_ok sb sc st -> 0 < sc_first sc < 2 ^ 31 ->
  core_next (sb_strat sb) (core sc) = Some (i, c') -> 0 <= i < sb_nserv sb ->
  exists sb' sc' d, sbalance_conn_next sb sc st rnd = Some (sb', sc', Some d) /\
    datas sb !! Z.to_nat i = Some d /\ same_pool sb sb' /\
    core sc' = c' /\ sc_first sc' = sc_first sc - 1 /\ sc_retries sc' = sc_retries sc /\
    sc_last sc' = i.
Proof.
  intros Hn Hok Hf Hnext Hi. unfold sbalance_conn_next.
  rewrite (proj2 (Z.eqb_neq _ _)) by lia.
  destruct (report_spec sb sc st Hok) as (sb' & -> & Hsp). cbn [mbind option_bind].
  rewrite (proj2 (Z.eqb_neq (sc_first sc) 0)) by lia. cbn [andb mbind option_bind].
  rewrite strat_next_core. change (core (mk_sc _ _ _ _ _)) with (core sc).
  rewrite (sp_strat _ _ Hsp), Hnext. destruct c' as [rc offs]. cbn [mbind option_bind].
  pose proof (same_pool_nserv _ _ Hsp) as Hns. rewrite (uwrap_small 32 i) by lia.
  destruct (lookup_lt_is_Some_2 (sb_service_ sb') (Z.to_nat i)) as (s & Hs);
    [unfold sb_nserv in *; lia|].
  rewrite Hs. cbn [mbind option_bind]. eexists _, _, _. split; [done|].
  rewrite <- (sp_datas _ _ Hsp), lookup_datas, Hs. simpl.
  rewrite swrap_small by (simpl; lia). done.
Qed.

(** The calls of a round return what the strategy generates. *)
Lemma conn_calls_round calls sb sc idxs c' :
  0 < sb_nserv sb < 2 ^ 31 ->
  match calls with [] => True | (st, _) :: _ => call_ok sb sc st end ->
  sc_first sc = Z.of_nat (length calls) -> Z.of_nat (length calls) < 2 ^ 31 ->
  gen_take (core_next (sb_strat sb)) (length calls) (core sc) = Some (idxs, c') ->
  Forall (fun i => 0 <= i < sb_nserv sb) idxs ->
  exists sb' sc',
    conn_calls sb sc calls = Some (sb', sc', map (fun i => datas sb !! Z.to_nat i) idxs) /\
    same_pool sb sb' /\ core sc' = c' /\ sc_first sc' = 0 /\ sc_retries sc' = sc_retries sc /\
    (calls <> [] -> 0 <= sc_last sc' < sb_nserv sb).
Proof.
  revert sb sc idxs. induction calls as [|[st rnd] calls IH];
    intros sb sc idxs Hn Hok Hf Hlen Htake Hidx; cbn [gen_take length] in Htake.
  { injection Htake as <- <-. exists sb, sc. done. }
  destruct (core_next (sb_strat sb) (core sc)) as [[i c1]|] eqn:Hnext; [|done]. simpl in Htake.
  destruct (gen_take _ _ c1) as [[js c2]|] eqn:Htake1; [|done]. simpl in Htake.
  injection Htake as <- <-. apply Forall_cons in Hidx as [Hi Hidx]. simpl in Hf, Hlen.
  destruct (conn_next_round sb sc st rnd i c1)
    as (sb1 & sc1 & d & E & Hd & Hsp & Hc & Hf1 & Hr1 & Hl1); [done|done|lia|done|done|].
  pose proof (same_pool_nserv _ _ Hsp) as Hns.
  destruct (IH sb1 sc1 js) as (sb2 & sc2 & E2 & Hsp2 & Hc2 & Hf2 & Hr2 & Hl2).
  - by rewrite Hns.
  - destruct calls as [|[[] ?] ?]; unfold call_ok; by rewrite ?Hns, ?Hl1.
  - lia.
  - lia.
  - by rewrite (sp_strat _ _ Hsp), Hc.
  - by rewrite Hns.
  - exists sb2, sc2. simpl. rewrite E. simpl. rewrite E2. simpl.
    rewrite (sp_datas _ _ Hsp), Hd. split; [done|]. split; [by trans sb1|].
    split; [done|]. split; [done|]. split; [congruence|]. intros _.
    destruct calls as [|]; [|rewrite <- Hns; by apply Hl2].
    injection E2 as <- <- _. by rewrite Hl1.
Qed.

(** Between rounds a call restarts the strategy and goes on as within a round. *)
Lemma conn_next_reinit sb sc st rnd sc1 :
  0 < sb_nserv sb -> call_ok sb sc st -> sc_first sc = 0 -> sc_retries sc <> 0 ->
  strat_reinit sb (mk_sc (i32 (sc_retries sc - 1)) (sc_first sc) (sc_rc sc) (sc_offs sc) (sc_last sc))
    rnd = Some sc1 ->
  sc_first sc1 <> 0 ->
  sbalance_conn_next sb sc st rnd = sbalance_conn_next sb sc1 st rnd.
Proof.
  intros Hn Hok Hf Hr Hre Hf1.
  assert (sc_last sc1 = sc_last sc) as Hl.
  { unfold strat_reinit in Hre. destruct (sb_strat sb); [by injection Hre as <-|..];
      unfold sbalance_rand_reinit in Hre; simpl in Hre;
      destruct (cy_init _ _ _); simplify_eq/=; done. }
  unfold sbalance_conn_next. rewrite !(proj2 (Z.eqb_neq (sb_nserv sb) 0)) by lia. rewrite Hl.
  destruct (report_spec sb sc st Hok) as (sb' & -> & Hsp). cbn [mbind option_bind].
  rewrite Hf, (proj2 (Z.eqb_neq (sc_retries sc) 0)), (proj2 (Z.eqb_neq (sc_first sc1) 0)) by done.
  cbn [Z.eqb andb]. rewrite Hf in Hre.
  replace (strat_reinit sb' _ rnd) with (Some sc1); [done|].
  rewrite <- Hre. unfold strat_reinit, sbalance_seq_reinit, sbalance_rand_reinit.
  by rewrite (sp_strat _ _ Hsp), (same_pool_nserv _ _ Hsp).
Qed.

(** When the retries are used up the answer is NULL. *)
Lemma conn_next_end sb sc st rnd :
  call_ok sb sc st -> sc_first sc = 0 -> sc_retries sc = 0 ->
  exists sb' sc', sbalance_conn_next sb sc st rnd = Some (sb', sc', None).
Proof.
  intros Hok Hf Hr. unfold sbalance_conn_next. destruct (_ =? 0); [by eexists _, _|].
  destruct (report_spec sb sc st Hok) as (sb' & -> & _). cbn [mbind option_bind].
  rewrite Hf, Hr. by eexists _, _.
Qed.

(** What a strategy guarantees of the indices of one round. *)
Definition round_ok (st : sbalance_strat) (n : Z) (idxs : list Z) : Prop :=
  match st with ST_SEQ => idxs = seqZ 0 n | _ => idxs ≡ₚ seqZ 0 n end.

Lemma seq_take_indices n rc (offs : Z) :
  0 <= offs -> offs + Z.of_nat n < 2 ^ 31 ->
  gen_take (core_next ST_SEQ) n (rc, offs) =
    Some (seqZ offs (Z.of_nat n), (rc, offs + Z.of_nat n)).
Proof.
  revert offs. induction n as [|n IH]; intros offs H0 Hb.
  { simpl. by rewrite Z.add_0_r. }
  cbn [gen_take core_next mbind option_bind]. rewrite swrap_small by (simpl; lia).
  rewrite IH by lia. cbn [mbind option_bind].
  rewrite (seqZ_cons offs) by lia. do 3 f_equal; [|lia].
  rewrite Nat2Z.inj_succ, Z.pred_succ. by rewrite Z.add_1_r.
Qed.

Lemma cycler_take_indices st n rc xs rc' :
  st <> ST_SEQ -> Forall (fun x => 0 <= x < 2 ^ 31) xs ->
  gen_take cy_next n rc = Some (xs, rc') ->
  gen_take (core_next st) n (rc, -1) = Some (xs, (rc', -1)).
Proof.
  intros Hst. revert rc xs. induction n as [|n IH]; intros rc xs Hx; cbn [gen_take].
  { by intros [= <- <-]. }
  destruct (cy_next rc) as [[x rc1]|] eqn:E; [|done]. cbn [mbind option_bind].
  destruct (gen_take cy_next n rc1) as [[ys rc2]|] eqn:E2; [|done]. intros [= <- <-].
  apply Forall_cons in Hx as [Hx Hy].
  assert (core_next st (rc, -1) = Some (x, (rc1, -1))) as ->.
  { destruct st; [done|..]; simpl; rewrite E; simpl; by rewrite swrap_small by (simpl; lia). }
  cbn [mbind option_bind]. by rewrite (IH rc1 ys Hy E2).
Qed.

Lemma strat_reinit_round sb sc rnd :
  0 < sb_nserv sb < cy_max -> cy_max <= 2 ^ 31 -> 0 <= rnd < 2 ^ 32 ->
  exists sc1 idxs c', strat_reinit sb sc rnd = Some sc1 /\
    sc_first sc1 = sb_nserv sb /\ sc_retries sc1 = sc_retries sc /\ sc_last sc1 = sc_last sc /\
    gen_take (core_next (sb_strat sb)) (Z.to_nat (sb_nserv sb)) (core sc1) = Some (idxs, c') /\
    round_ok (sb_strat sb) (sb_nserv sb) idxs.
Proof.
  intros Hn Hmax Hrnd. unfold strat_reinit.
  destruct (decide (sb_strat sb = ST_SEQ)) as [->|Hst].
  - eexists _, _, _. split; [done|]. simpl. rewrite swrap_small by (simpl; lia).
    do 3 (split; [done|]). unfold core. simpl. split; [|done].
    rewrite seq_take_indices by lia. by rewrite Z2Nat.id by lia.
  - destruct (cy_cycle (sc_rc sc) (sb_nserv sb) rnd) as (c0 & xs & c' & Hinit & Htake & Hp); [lia|lia|].
    exists (mk_sc (sc_retries sc) (sb_nserv sb) c0 (-1) (sc_last sc)), xs, (c', -1).
    split.
    + unfold sbalance_rand_reinit. rewrite Hinit. simpl. rewrite swrap_small by (simpl; lia).
      by destruct (sb_strat sb).
    + do 3 (split; [done|]). split; [|by destruct (sb_strat sb)].
      apply cycler_take_indices; [done| |done]. rewrite Hp. apply list.Forall_forall.
      intros x Hx%elem_of_seqZ. lia.
Qed.

Lemma round_ok_perm st n idxs : round_ok st n idxs -> idxs ≡ₚ seqZ 0 n.
Proof. destruct st; simpl; intros H; by rewrite ?H. Qed.

Lemma round_ok_range st n idxs : round_ok st n idxs -> Forall (fun i => 0 <= i < n) idxs.
Proof.
  intros ->%round_ok_perm. apply list.Forall_forall. intros i Hi%elem_of_seqZ. lia.
Qed.

Lemma conn_calls_app sb sc cs1 cs2 sb1 sc1 ds1 :
  conn_calls sb sc cs1 = Some (sb1, sc1, ds1) ->
  conn_calls sb sc (cs1 ++ cs2) =
    ('(sb2, sc2, ds2) ← conn_calls sb1 sc1 cs2; Some (sb2, sc2, ds1 ++ ds2)).
Proof.
  revert sb sc ds1. induction cs1 as [|[st rnd] cs1 IH]; intros sb sc ds1; simpl.
  { intros [= <- <- <-]. by destruct (conn_calls sb sc cs2) as [[[]]|]. }
  destruct (sbalance_conn_next sb sc st rnd) as [[[sb' sc'] d]|]; [|done]. simpl.
  destruct (conn_calls sb' sc' cs1) as [[[sb'' sc''] ds]|] eqn:E; [|done].
  intros [= <- <- <-]. rewrite (IH _ _ _ E). by destruct (conn_calls sb'' sc'' cs2) as [[[]]|].
Qed.

Definition first_call_ok sb sc (calls : list (sbalance_conn_status * Z)) : Prop :=
  match calls with [] => True | (st, _) :: _ => call_ok sb sc st end.

Lemma call_ok_of_last sb sc calls : 0 <= sc_last sc < sb_nserv sb -> first_call_ok sb sc calls.
Proof. by destruct calls as [|[[] ?] ?]. Qed.

Lemma first_call_take (n : nat) sb sc calls :
  (0 < n)%nat -> first_call_ok sb sc calls -> first_call_ok sb sc (take n calls).
Proof. by destruct n, calls as [|[] ?]; [lia..| |]. Qed.

(** A whole round, started between rounds. *)
Lemma conn_calls_new_round calls sb sc :
  0 < sb_nserv sb < cy_max -> cy_max <= 2 ^ 31 ->
  first_call_ok sb sc calls -> Forall (fun c => 0 <= snd c < 2 ^ 32) calls ->
  sc_first sc = 0 -> 0 < sc_retries sc < 2 ^ 31 -> Z.of_nat (length calls) = sb_nserv sb ->
  exists sb' sc' idxs,
    conn_calls sb sc calls = Some (sb', sc', map (fun i => datas sb !! Z.to_nat i) idxs) /\
    round_ok (sb_strat sb) (sb_nserv sb) idxs /\ same_pool sb sb' /\
    sc_first sc' = 0 /\ sc_retries sc' = sc_retries sc - 1 /\ 0 <= sc_last sc' < sb_nserv sb.
Proof.
  intros Hn Hmax Hok Hrnd Hf Hr Hlen.
  destruct calls as [|[st rnd] calls]; [simpl in Hlen; lia|].
  apply Forall_cons in Hrnd as [Hrnd _].
  edestruct (strat_reinit_round sb) as (sc1 & idxs & c' & Hre & Hf1 & Hr1 & Hl1 & Htake & Hround);
    [done|done|exact Hrnd|].
  assert (conn_calls sb sc ((st, rnd) :: calls) = conn_calls sb sc1 ((st, rnd) :: calls)) as ->.
  { cbn [conn_calls]. rewrite (conn_next_reinit sb sc st rnd sc1); try done; lia. }
  destruct (conn_calls_round ((st, rnd) :: calls) sb sc1 idxs c')
    as (sb' & sc' & E & Hsp & _ & Hf' & Hr' & Hl'); [lia| |lia|lia| |by eapply round_ok_range|].
  - destruct st; unfold call_ok; simpl in Hl1; rewrite ?Hl1; done.
  - by rewrite <- Htake, <- Hlen, Nat2Z.id.
  - exists sb', sc', idxs. split; [exact E|]. split; [done|]. split; [done|]. split; [done|].
    split; [|by apply Hl']. rewrite Hr', Hr1. simpl. rewrite swrap_small by (simpl; lia). done.
Qed.

(** The remaining rounds, and the NULL that ends them. *)
Lemma conn_calls_rounds (r : nat) calls sb sc :
  0 < sb_nserv sb < cy_max -> cy_max <= 2 ^ 31 ->
  first_call_ok sb sc calls -> Forall (fun c => 0 <= snd c < 2 ^ 32) calls ->
  sc_first sc = 0 -> sc_retries sc = Z.of_nat r -> Z.of_nat r < 2 ^ 31 ->
  length calls = (r * Z.to_nat (sb_nserv sb) + 1)%nat ->
  exists sb' sc' bs,
    conn_calls sb sc calls =
      Some (sb', sc', map (fun i => datas sb !! Z.to_nat i) (concat bs) ++ [None]) /\
    length bs = r /\ Forall (round_ok (sb_strat sb) (sb_nserv sb)) bs.
Proof.
  revert calls sb sc. induction r as [|r IH]; intros calls sb sc Hn Hmax Hok Hrnd Hf Hr Hr31 Hlen.
  - destruct calls as [|[st rnd] [|]]; simpl in Hlen; try lia.
    destruct (conn_next_end sb sc st rnd Hok Hf Hr) as (sb' & sc' & E).
    exists sb', sc', []. simpl. by rewrite E.
  - set (n := Z.to_nat (sb_nserv sb)) in *. rewrite <- (take_drop n calls) in Hrnd |- *.
    apply Forall_app in Hrnd as [Hrnd1 Hrnd2].
    destruct (conn_calls_new_round (take n calls) sb sc)
      as (sb1 & sc1 & idxs & E & Hround & Hsp & Hf1 & Hr1 & Hl1);
      [done|done| |done|done|lia|rewrite length_take; lia|].
    { apply first_call_take; [lia|done]. }
    rewrite (conn_calls_app _ _ _ _ _ _ _ E).
    pose proof (same_pool_nserv _ _ Hsp) as Hns.
    destruct (IH (drop n calls) sb1 sc1) as (sb2 & sc2 & bs & E2 & Hbs & Hall);
      rewrite ?Hns; try done; try lia.
    { apply call_ok_of_last. by rewrite Hns. }
    { rewrite length_drop. fold n. lia. }
    rewrite E2. cbn [mbind option_bind]. exists sb2, sc2, (idxs :: bs).
    rewrite (sp_datas _ _ Hsp). simpl concat. rewrite map_app, <- app_assoc.
    split; [done|]. split; [simpl; lia|]. constructor; [done|].
    by rewrite Hns, (sp_strat _ _ Hsp) in Hall.
Qed.

Lemma hash_pick_range (ss : list (sb_service D)) i pick tw rd :
  0 <= pick < i \/ (i = 0 /\ pick = 0 /\ ss <> []) -> 
  0 <= hash_pick ss i pick tw rd < i + Z.of_nat (length ss).
Proof.
  revert i pick tw rd. induction ss as [|s ss IH]; intros i pick tw rd Hp; simpl.
  { destruct Hp as [|(_ & _ & ?)]; [lia|done]. }
  destruct (drand48 rd) as [r rd']. edestruct (IH (i + 1)) as [H1 H2]; [|split; [exact H1|lia]].
  left. destruct (fgt _ r); lia.
Qed.

(** What a new connection returns before its first retry. *)
Definition first_ok (st : sbalance_strat) (n : Z) (first : list Z) : Prop :=
  match st with
  | ST_SEQ => first = seqZ 0 n
  | _ => exists pick, first = [pick] /\ 0 <= pick < n
  end.

Lemma conn_new_first sb sc hash arc4random :
  0 < sb_nserv sb < 2 ^ 31 -> 0 <= sb_retries sb < 2 ^ 31 ->
  exists sb0 sc0 first c',
    sbalance_conn_new sb sc hash arc4random = (sb0, sc0) /\ same_pool sb sb0 /\
    sc_retries sc0 = sb_retries sb /\ sc_first sc0 = Z.of_nat (length first) /\
    gen_take (core_next (sb_strat sb)) (length first) (core sc0) = Some (first, c') /\
    first_ok (sb_strat sb) (sb_nserv sb) first.
Proof.
  intros Hn Hr.
  assert (forall h, 0 <= hash_pick (sb_service_ sb) 0 0 fzero (srand48 h) < sb_nserv sb) as Hpick.
  { intros h. apply hash_pick_range. right. repeat split. intros E. unfold sb_nserv in Hn.
    rewrite E in Hn. simpl in Hn. lia. }
  assert (forall st h c, st <> ST_SEQ ->
    gen_take (core_next st) 1 (c, i32 (hash_pick (sb_service_ sb) 0 0 fzero (srand48 h))) =
    Some ([hash_pick (sb_service_ sb) 0 0 fzero (srand48 h)],
          (c, hash_pick (sb_service_ sb) 0 0 fzero (srand48 h)))) as Hone.
  { intros st h c Hst. specialize (Hpick h). rewrite swrap_small by (simpl; lia).
    destruct st; [done|..]; cbn [gen_take core_next]; by rewrite (proj2 (Z.eqb_neq _ (-1))) by lia. }
  assert (forall st h, st <> ST_SEQ -> exists first c',
    1 = Z.of_nat (length first) /\
    gen_take (core_next st) (length first) (core (sbalance_hash_init (sbalance_retain sb) sc h)) =
      Some (first, c') /\ first_ok st (sb_nserv sb) first) as Hhash.
  { intros st h Hst. exists [hash_pick (sb_service_ sb) 0 0 fzero (srand48 h)].
    eexists. split; [done|]. split; [by apply Hone|]. destruct st; [done|by eexists..]. }
  unfold sbalance_conn_new, strat_init. cbn [sb_strat sbalance_retain set_refs].
  exists (sbalance_retain sb). destruct (sb_strat sb) eqn:Hst.
  - exists (sbalance_seq_init (sbalance_retain sb) sc), (seqZ 0 (sb_nserv sb)),
      (sc_rc sc, 0 + Z.of_nat (Z.to_nat (sb_nserv sb))).
    split; [done|]. split; [by split|]. split; [simpl; by rewrite swrap_small by (simpl; lia)|].
    rewrite length_seqZ. change (core _) with (sc_rc sc, 0).
    rewrite seq_take_indices by lia. rewrite !Z2Nat.id by lia. split; [|done].
    simpl. change (sb_nserv (sbalance_retain sb)) with (sb_nserv sb).
    by rewrite swrap_small by (simpl; lia).
  - destruct (Hhash ST_RANDOM arc4random) as (first & c' & Hf); [done|].
    eexists _, first, c'. split; [done|]. split; [by split|]. split; [|exact Hf].
    simpl. by rewrite swrap_small by (simpl; lia).
  - destruct (Hhash ST_HASH hash) as (first & c' & Hf); [done|].
    eexists _, first, c'. split; [done|]. split; [by split|]. split; [|exact Hf].
    simpl. by rewrite swrap_small by (simpl; lia).
Qed.

Lemma first_ok_range st n first : 0 < n -> first_ok st n first -> Forall (fun i => 0 <= i < n) first.
Proof.
  intros Hn. destruct st; simpl; intros H;
    [by apply (round_ok_range ST_SEQ)|destruct H as (? & -> & ?); by apply Forall_singleton..].
Qed.

Lemma first_ok_length st n first :
  0 < n -> first_ok st n first ->
  Z.of_nat (length first) = match st with ST_SEQ => n | _ => 1 end.
Proof.
  intros Hn. destruct st; simpl; [intros ->; rewrite length_seqZ; lia|by intros (? & -> & _)..].
Qed.

Lemma Forall_drop_cons {X} (P : X -> Prop) (n : nat) x l :
  (0 < n)%nat -> Forall P l -> Forall P (drop n (x :: l)).
Proof. intros Hn Hl. destruct n; [lia|]. simpl. by apply Forall_drop. Qed.

Lemma conn_tries_every_service sb sc hash arc4random rnd calls :
  0 < sb_nserv sb < cy_max -> cy_max <= 2 ^ 31 -> 0 <= sb_retries sb < 2 ^ 31 ->
  Forall (fun c => 0 <= snd c < 2 ^ 32) calls ->
  let n := sb_nserv sb in
  let '(sb0, sc0) := sbalance_conn_new sb sc hash arc4random in
  Z.of_nat (length calls) =
    (match sb_strat sb with ST_SEQ => n | _ => 1 end) + sb_retries sb * n ->
  exists sb' sc' first rounds,
    conn_calls sb0 sc0 ((SBCS_START, rnd) :: calls) =
      Some (sb', sc', map (fun i => datas sb !! Z.to_nat i) (first ++ concat rounds) ++ [None]) /\
    first_ok (sb_strat sb) n first /\
    Z.of_nat (length rounds) = sb_retries sb /\
    Forall (round_ok (sb_strat sb) n) rounds.
Proof.
  intros Hn Hmax Hre Hrnd n.
  destruct (conn_new_first sb sc hash arc4random)
    as (sb0 & sc0 & first & c' & -> & Hsp & Hr0 & Hf0 & Htake & Hfirst); [lia|lia|]. intros Hlen.
  pose proof (first_ok_length _ n _ (proj1 Hn) Hfirst) as Hfl. rewrite <- Hfl in Hlen.
  pose proof (same_pool_nserv _ _ Hsp) as Hns. pose proof (first_ok_range _ _ _ (proj1 Hn) Hfirst).
  assert (1 <= Z.of_nat (length first) <= n) by (rewrite Hfl; unfold n; destruct (sb_strat sb); lia).
  set (all := (SBCS_START, rnd) :: calls).
  assert (length (take (length first) all) = length first) as Htl
    by (rewrite length_take; simpl; nia).
  destruct (conn_calls_round (take (length first) all) sb0 sc0 first c')
    as (sb1 & sc1 & E1 & Hsp1 & _ & Hf1 & Hr1 & Hl1);
    rewrite ?Htl, ?Hns, ?(sp_strat _ _ Hsp); try done; try lia.
  { by apply (first_call_take _ sb0 sc0 all); [lia|]. }
  assert (sb_nserv sb1 = n) as Hns1 by (rewrite (same_pool_nserv _ _ Hsp1); exact Hns).
  destruct (conn_calls_rounds (Z.to_nat (sb_retries sb)) (drop (length first) all) sb1 sc1)
    as (sb2 & sc2 & rounds & E2 & Hlr & Hrounds); rewrite ?Hns1; try done; try lia.
  { apply call_ok_of_last. rewrite Hns1. unfold n. rewrite <- Hns. apply Hl1.
    intros Hnil. rewrite Hnil in Htl. simpl in Htl. lia. }
  { apply Forall_drop_cons; [lia|done]. }
  { rewrite length_drop. simpl. nia. }
  exists sb2, sc2, first, rounds. split.
  - rewrite <- (take_drop (length first) all). rewrite (conn_calls_app _ _ _ _ _ _ _ E1), E2. simpl.
    by rewrite map_app, (sp_datas _ _ Hsp1), (sp_datas _ _ Hsp), <- app_assoc.
  - split; [done|]. split; [lia|].
    by rewrite Hns1, (sp_strat _ _ Hsp1), (sp_strat _ _ Hsp) in Hrounds.
Qed.


(** Reporting the outcome of a connection only touches the service that was
    last returned: its temporary cost becomes the configured one on failure and
    goes back to zero, not to half as sbalance.h says, on success. *)
Theorem sbalance_report_cost sb sc s c :
  sb_service_ sb !! Z.to_nat (sc_last sc) = Some s -> 0 <= sc_retries sc ->
  exists sb1 sb2,
    set_tempfailcost sb (sc_last sc) c = Some sb1 /\
    sb_service_ sb1 = <[Z.to_nat (sc_last sc) := mk_sb_service (cost s) c (data s)]> (sb_service_ sb) /\
    sbalance_conn_done sb1 sc = Some sb2 /\
    sb_service_ sb2 = <[Z.to_nat (sc_last sc) := mk_sb_service (cost s) 0 (data s)]> (sb_service_ sb).
Proof.
  intros Hs Hr. pose proof (lookup_lt_Some _ _ _ Hs) as Hlt.
  unfold set_tempfailcost at 1. rewrite Hs. cbn [mbind option_bind].
  set (sb1 := set_service sb _). exists sb1.
  assert (sb_service_ sb1 !! Z.to_nat (sc_last sc) = Some (mk_sb_service (cost s) c (data s))) as Hs1
    by (simpl; by rewrite list_lookup_insert_eq).
  unfold sbalance_conn_done, set_tempfailcost. rewrite Hs1. cbn [mbind option_bind tempfailcost].
  rewrite (proj2 (Z.eqb_neq (sb_nserv sb1) 0)), (proj2 (Z.leb_le 0 _)); [| done |].
  2: { unfold sb_nserv. simpl. rewrite length_insert. lia. }
  cbn [negb andb]. destruct (Z.eqb_spec c 0) as [->|Hc].
  - exists sb1. done.
  - eexists. split; [done|]. split; [done|]. split; [done|]. simpl. by rewrite list_insert_insert_eq.
Qed.
End Proofs.

(** * Witnesses *)

(** The linear congruential generator of drand48, with exact arithmetic. *)
#[export] Instance Qdrand : Drand Q Z := {
  fzero := 0%Q;
  frecip c := (1 / inject_Z c)%Q;
  fadd := Qplus;
  fdiv := Qdiv;
  fgt x y := negb (Qle_bool x y);
  srand48 h := h * 2 ^ 16 + 0x330E;
  drand48 x := let x := (x * 0x5DEECE66D + 0xB) mod 2 ^ 48 in (Qmake x (2 ^ 48), x)
}.

Definition sb3 : sbalance Z :=
  foldl (fun sb d => sbalance_add_serv sb 1 d) (sbalance_create 2 1000 10 ST_HASH) [70; 71; 72].
Definition sc3 : sbalance_connection rcycle := mk_sc 0 0 rcycle_zero 0 0.


Lemma sbalance_report_cost_witness :
  exists sb1 sb2,
    set_tempfailcost sb3 (sc_last sc3) 10 = Some sb1 /\
    sb_service_ sb1 = <[0%nat := mk_sb_service 1 10 70]> (sb_service_ sb3) /\
    sbalance_conn_done sb1 sc3 = Some sb2 /\
    sb_service_ sb2 = <[0%nat := mk_sb_service 1 0 70]> (sb_service_ sb3).
Proof. apply (sbalance_report_cost sb3 sc3 (mk_sb_service 1 0 70) 10); [reflexivity|simpl; lia]. Defined.
