(* ===== verification/SbalanceGo.v ===== *)
(** SbalanceGo: the balancer of the Go daemons (src/util/pkg/sbalance/sbalance.go).

    Connections and the service they share are values that the calls take and
    return.  The generator of math/rand and the operations on floating point
    numbers are the class [Rng]; what the theorems use of it is the documented
    promise of Perm.  [None] is a panic. *)
From stdpp Require Import prelude list numbers.
From Stdlib Require Import ZArith Lia QArith.
From S2P Require Import Prelude.

Local Open Scope Z_scope.

(** A source of random numbers [G] over floats [F]. *)
Class Rng (F G : Type) := {
  f0 : F;
  recip : Z -> F;
  add : F -> F -> F;
  div : F -> F -> F;
  gt : F -> F -> bool;
  NewSource : Z -> G;
  Float64 : G -> F * G;
  Perm : nat -> G -> list nat * G;
  Perm_law n g : fst (Perm n g) ≡ₚ seq 0 n
}.

Inductive BalanceStrat := StratSeq | StratRandom | StratHash.
Inductive ConnStatus := Start | Fail_ | SoftFail.

(** hash/fnv.New64a over some bytes. *)
Definition fnv64a (bs : list Z) : Z := fold_left (fun h b => u64 (Z.lxor h b * 1099511628211)) bs 14695981039346656037.

Section Code.
Context {D F G : Type} `{!Rng F G}.

Record nodeData := mk_nodeData { nd_cost : Z; nd_effcost : Z; nd_node : D }.

Record Service := mk_service { Retries : Z; FailCost : Z; SoftFailCost : Z; Strat : BalanceStrat; nodes : list nodeData }.

Definition set_nodes (l : list nodeData) (sb : Service) : Service :=
  mk_service (Retries sb) (FailCost sb) (SoftFailCost sb) (Strat sb) l.

Definition AddNode (sb : Service) (node : D) (cost : Z) : Service := set_nodes (nodes sb ++ [mk_nodeData cost cost node]) sb.

Definition Len (sb : Service) : nat := length (nodes sb).
Definition Nodes (sb : Service) : list D := map nd_node (nodes sb).
Definition GetCosts (sb : Service) (idx : nat) : option (Z * Z) := (fun n => (nd_cost n, nd_effcost n)) <$> nodes sb !! idx.

(** The two kinds of connection. *)
Inductive Connection :=
  | seqConn (idx : Z) (retries : Z)
  | rcycleConn (rng : G) (rc : list nat) (retries : Z) (last first : Z).

Definition seqInit (sb : Service) : Connection := seqConn (-1) (Retries sb).

(** The choice of the first node: each replaces the one before it by chance. *)
Fixpoint first_loop (ns : list nodeData) (i : Z) (totw : F) (rng : G) (first : Z) : Z * G :=
  match ns with
  | [] => (first, rng)
  | n :: ns =>
    let w := recip (nd_effcost n) in
    let totw := add totw w in
    let '(r, rng) := Float64 rng in
    first_loop ns (i + 1) totw rng (if gt (div w totw) r then i else first)
  end.

Definition rcycleInit (sb : Service) (bs : list Z) : Connection :=
  let '(first, rng) := first_loop (nodes sb) 0 f0 (NewSource (swrap 64 (fnv64a bs))) 0 in
  rcycleConn rng [] (Retries sb) (-1) first.

(** [random] are eight bytes of crypto/rand. *)
Definition NewConn (sb : Service) (seed : option (list Z)) (random : list Z) : Connection :=
  match Strat sb, seed with
  | StratSeq, _ => seqInit sb
  | StratHash, Some seed => rcycleInit sb seed
  | _, _ => rcycleInit sb random
  end.

(** The loops turn at most once for every retry and once more. *)
Fixpoint seq_loop (fuel : nat) (sb : Service) (idx retries : Z) : option (option D * Connection) :=
  if Z.of_nat (length (nodes sb)) <=? idx then
    if retries <=? 0 then Some (None, seqConn idx retries)
    else match fuel with O => None | S fuel => seq_loop fuel sb 0 (retries - 1) end
  else if idx <? 0 then None
  else n ← nodes sb !! Z.to_nat idx; Some (Some (nd_node n), seqConn idx retries).

Fixpoint rc_loop (fuel : nat) (sb : Service) (rng : G) (rc : list nat) (retries : Z) : option (option D * Connection) :=
  match rc with
  | i :: rc => n ← nodes sb !! i; Some (Some (nd_node n), rcycleConn rng rc retries (Z.of_nat i) (-1))
  | [] =>
    if retries <=? 0 then Some (None, rcycleConn rng [] retries (-1) (-1))
    else
      match fuel with
      | O => None
      | S fuel => let '(rc, rng) := Perm (length (nodes sb)) rng in rc_loop fuel sb rng rc (retries - 1)
      end
  end.

(** The cost of the node tried last. *)
Definition set_effcost (last : Z) (c : nodeData -> Z) (sb : Service) : option Service :=
  if last =? -1 then Some sb
  else
    let i := Z.to_nat last in
    n ← nodes sb !! i; Some (set_nodes (<[i := mk_nodeData (nd_cost n) (c n) (nd_node n)]> (nodes sb)) sb).

Definition Next (sb : Service) (conn : Connection) (status : ConnStatus) : option (option D * Connection * Service) :=
  match conn with
  | seqConn idx retries =>
    '(r, conn) ← seq_loop (S (Z.to_nat retries)) sb (idx + 1) retries; Some (r, conn, sb)
  | rcycleConn rng rc retries last first =>
    sb ← (match status with
          | Start => Some sb
          | Fail_ => set_effcost last (fun _ => FailCost sb) sb
          | SoftFail => set_effcost last (fun _ => SoftFailCost sb) sb
          end);
    match (if negb (first =? -1) && (first <? Z.of_nat (length (nodes sb))) then Some first else None) with
    | Some first =>
      n ← nodes sb !! Z.to_nat first; Some (Some (nd_node n), rcycleConn rng rc retries first (-1), sb)
    | None => '(r, conn) ← rc_loop (S (Z.to_nat retries)) sb rng rc retries; Some (r, conn, sb)
    end
  end.

Definition Close (sb : Service) (conn : Connection) : option Service :=
  match conn with
  | seqConn _ _ => Some sb
  | rcycleConn _ _ _ last _ => set_effcost last nd_cost sb
  end.

(** The nodes that a sequence of calls returns. *)
Fixpoint calls (sb : Service) (conn : Connection) (l : list ConnStatus) : option (list (option D) * Service) :=
  match l with
  | [] => Some ([], sb)
  | st :: l => '(r, conn, sb) ← Next sb conn st; '(rs, sb) ← calls sb conn l; Some (r :: rs, sb)
  end.
End Code.

(** * What a connection returns *)

Section Proofs.
Context {D F G : Type} `{!Rng F G}.
Implicit Types (sb : @Service D) (conn : @Connection G).

Abbreviation len sb := (length (nodes sb)).

(** The shuffles to come. *)
Fixpoint rounds (k n : nat) (rng : G) : list (list nat) :=
  match k with
  | O => []
  | S k => fst (Perm n rng) :: rounds k n (snd (Perm n rng))
  end.

(** The positions that a connection has still to return. *)
Definition remaining (n : nat) conn : list nat :=
  match conn with
  | seqConn idx retries => drop (Z.to_nat (idx + 1)) (seq 0 n) ++ concat (replicate (Z.to_nat retries) (seq 0 n))
  | rcycleConn rng rc retries _ first =>
    (if negb (first =? -1) && (first <? Z.of_nat n) then [Z.to_nat first] else []) ++ rc ++ concat (rounds (Z.to_nat retries) n rng)
  end.

Definition conn_ok (n : nat) conn : Prop :=
  match conn with
  | seqConn idx _ => -1 <= idx
  | rcycleConn _ rc _ last first => Forall (fun i => (i < n)%nat) rc /\ -1 <= last < Z.of_nat n /\ -1 <= first
  end.

Lemma perm_lt n g : Forall (fun i => (i < n)%nat) (fst (Perm n g)).
Proof. rewrite Perm_law. apply Forall_seq. lia. Qed.

Lemma node_at sb i : (i < len sb)%nat -> exists nd, nodes sb !! i = Some nd /\ Nodes sb !! i = Some (nd_node nd).
Proof.
  intros Hi. destruct (lookup_lt_is_Some_2 _ _ Hi) as [nd E]. exists nd. split; [done|]. unfold Nodes. by rewrite list_lookup_fmap, E.
Qed.

(** A loop returns the next position and leaves the rest. *)
Definition takes sb (l : list nat) (r : option (option D * @Connection G)) : Prop :=
  match r with
  | Some (d, conn) => d = (head l ≫= fun i => Nodes sb !! i) /\ remaining (len sb) conn = tail l /\ conn_ok (len sb) conn
  | None => False
  end.

Lemma seq_loop_spec sb fuel : forall idx retries, 0 <= idx -> (Z.to_nat retries < fuel)%nat ->
  takes sb (drop (Z.to_nat idx) (seq 0 (len sb)) ++ concat (replicate (Z.to_nat retries) (seq 0 (len sb)))) (seq_loop fuel sb idx retries).
Proof.
  induction fuel as [|fuel IH]; intros idx retries Hi Hf; [lia|]. cbn [seq_loop].
  destruct (Z.leb_spec (Z.of_nat (len sb)) idx) as [Hge|Hlt].
  - rewrite drop_ge by (rewrite length_seq; lia). destruct (Z.leb_spec retries 0) as [Hr|Hr].
    + replace (Z.to_nat retries) with 0%nat by lia. simpl. split; [done|]. split; [|lia].
      rewrite drop_ge by (rewrite length_seq; lia). by replace (Z.to_nat retries) with 0%nat by lia.
    + specialize (IH 0 (retries - 1) ltac:(lia) ltac:(lia)). replace (Z.to_nat retries) with (S (Z.to_nat (retries - 1))) by lia. exact IH.
  - rewrite (proj2 (Z.ltb_ge idx 0)) by lia. destruct (node_at sb (Z.to_nat idx)) as (nd & E & En); [lia|]. rewrite E. cbn [mbind option_bind takes].
    rewrite (drop_S _ (Z.to_nat idx)) by (by rewrite lookup_seq_lt by lia). cbn [app head tail mbind option_bind].
    split; [done|]. split; [|simpl; lia]. cbn [remaining]. by replace (Z.to_nat (idx + 1)) with (S (Z.to_nat idx)) by lia.
Qed.

Lemma rc_loop_spec sb fuel : forall rng rc retries, Forall (fun i => (i < len sb)%nat) rc -> (Z.to_nat retries < fuel)%nat ->
  takes sb (rc ++ concat (rounds (Z.to_nat retries) (len sb) rng)) (rc_loop fuel sb rng rc retries).
Proof.
  induction fuel as [|fuel IH]; intros rng rc retries Hrc Hf; [lia|]. cbn [rc_loop]. destruct Hrc as [|i rc Hi Hrc].
  - destruct (Z.leb_spec retries 0) as [Hr|Hr].
    + replace (Z.to_nat retries) with 0%nat by lia. simpl. split; [done|]. split; [by replace (Z.to_nat retries) with 0%nat by lia|].
      split; [constructor|lia].
    + replace (Z.to_nat retries) with (S (Z.to_nat (retries - 1))) by lia. cbn [rounds concat app].
      pose proof (perm_lt (len sb) rng) as Hp. destruct (Perm (len sb) rng) as [p rng']. cbn [fst snd] in *. apply IH; [done|lia].
  - destruct (node_at sb i Hi) as (nd & E & En). rewrite E. cbn [mbind option_bind takes app head tail]. split; [done|].
    split; [done|]. split; [done|]. lia.
Qed.

Definition same_nodes sb sb' : Prop := Nodes sb' = Nodes sb /\ map nd_cost (nodes sb') = map nd_cost (nodes sb) /\ Retries sb' = Retries sb.

Lemma same_len sb sb' : same_nodes sb sb' -> len sb' = len sb.
Proof. intros (H & _). apply (f_equal length) in H. unfold Nodes in H. by rewrite !length_map in H. Qed.

Lemma set_effcost_spec last c sb : -1 <= last < Z.of_nat (len sb) -> exists sb', set_effcost last c sb = Some sb' /\ same_nodes sb sb'.
Proof.
  intros Hl. unfold set_effcost. destruct (Z.eqb_spec last (-1)); [by exists sb|].
  destruct (node_at sb (Z.to_nat last)) as (nd & E & _); [lia|]. rewrite E. cbn [mbind option_bind]. eexists. split; [done|].
  unfold same_nodes, Nodes. cbn [set_nodes nodes Retries]. rewrite !list_fmap_insert. cbn [nd_node nd_cost].
  rewrite !list_insert_id by (by rewrite list_lookup_fmap, E). done.
Qed.

Lemma Next_spec sb conn st : conn_ok (len sb) conn -> exists r conn' sb', Next sb conn st = Some (r, conn', sb') /\ same_nodes sb sb' /\
  r = (head (remaining (len sb) conn) ≫= fun i => Nodes sb !! i) /\ remaining (len sb) conn' = tail (remaining (len sb) conn) /\ conn_ok (len sb) conn'.
Proof.
  destruct conn as [idx retries|rng rc retries last first]; intros Hok; cbn [Next conn_ok] in *.
  - pose proof (seq_loop_spec sb (S (Z.to_nat retries)) (idx + 1) retries ltac:(lia) ltac:(lia)) as H.
    destruct (seq_loop _ _ _ _) as [[r conn']|]; [|done]. destruct H as (-> & H2 & H3). cbn [mbind option_bind].
    eexists _, _, sb. split; [done|]. split; [done|]. done.
  - destruct Hok as (Hrc & Hlast & Hfirst).
    assert (exists sb', (match st with Start => Some sb | Fail_ => set_effcost last (fun _ => FailCost sb) sb
      | SoftFail => set_effcost last (fun _ => SoftFailCost sb) sb end) = Some sb' /\ same_nodes sb sb') as (sb' & -> & Hsame).
    { destruct st; [by exists sb|by apply set_effcost_spec..]. }
    cbn [mbind option_bind]. pose proof (same_len _ _ Hsame) as Hl. rewrite <- Hl in *. destruct Hsame as (Hn & Hc & Hr). rewrite <- Hn in *.
    cbn [remaining]. destruct (negb (first =? -1) && (first <? Z.of_nat (len sb'))) eqn:Ef.
    + apply andb_prop in Ef as [Ef1 Ef2]. apply negb_true_iff, Z.eqb_neq in Ef1. apply Z.ltb_lt in Ef2.
      destruct (node_at sb' (Z.to_nat first)) as (nd & E & En); [lia|]. rewrite E. cbn [mbind option_bind].
      eexists _, _, sb'. split; [done|]. split; [done|]. cbn [app head tail mbind option_bind]. split; [done|]. split; [done|].
      split; [done|]. lia.
    + pose proof (rc_loop_spec sb' (S (Z.to_nat retries)) rng rc retries Hrc ltac:(lia)) as H.
      destruct (rc_loop _ _ _ _ _) as [[r conn']|]; [|done]. destruct H as (-> & H2 & H3). cbn [mbind option_bind app].
      eexists _, _, sb'. split; [done|]. split; [done|]. done.
Qed.

(** The answers of [m] calls: a node for every position, then nil. *)
Definition answers sb (l : list nat) (m : nat) : list (option D) := resize m None (map (fun i => Nodes sb !! i) l).

Lemma calls_spec l : forall sb conn, conn_ok (len sb) conn -> exists sb', calls sb conn l = Some (answers sb (remaining (len sb) conn) (length l), sb') /\
  same_nodes sb sb'.
Proof.
  induction l as [|st l IH]; intros sb conn Hok; [exists sb; unfold answers; split; [by destruct (remaining _ _)|done]|]. cbn [calls].
  destruct (Next_spec sb conn st Hok) as (r & conn' & sb1 & -> & Hs1 & Hr & Hrem & Hok'). cbn [mbind option_bind].
  pose proof (same_len _ _ Hs1) as Hl. rewrite <- Hl in Hok'. destruct (IH sb1 conn' Hok') as (sb2 & -> & Hs2). cbn [mbind option_bind].
  exists sb2. destruct Hs1 as (N1 & C1 & R1), Hs2 as (N2 & C2 & R2). split; [|repeat split; congruence].
  unfold answers. rewrite Hl, Hrem, N1, Hr. destruct (remaining (len sb) conn) as [|i rest]; [|done]. simpl. do 2 f_equal.
  by rewrite !resize_nil.
Qed.

Lemma first_loop_range (ns : list (@nodeData D)) : forall i totw (rng : G) first, -1 <= first -> 0 <= i ->
  -1 <= fst (first_loop (F := F) ns i totw rng first) /\ (0 <= first < i + Z.of_nat (length ns) -> 0 <= fst (first_loop (F := F) ns i totw rng first) < i + Z.of_nat (length ns)).
Proof.
  induction ns as [|nd ns IH]; intros i totw rng first Hf Hi; [simpl; lia|]. cbn [first_loop].
  destruct (Float64 rng) as [x rng']. cbn [length].
  destruct (IH (i + 1) (add totw (recip (nd_effcost nd))) rng' (if gt (div (recip (nd_effcost nd)) (add totw (recip (nd_effcost nd)))) x then i else first)) as [H1 H2];
    [case_match; lia|lia|]. split; [done|]. intros H. replace (i + Z.of_nat (S (length ns))) with (i + 1 + Z.of_nat (length ns)) by lia.
  apply H2. case_match; lia.
Qed.
End Proofs.

Section Theorems.
Context {D F G : Type} `{!Rng F G}.
Implicit Types (sb : @Service D).

Abbreviation len sb := (length (nodes sb)).

(** However its calls report success or failure, a connection returns the nodes
    in a fixed number of rounds and nil after that.  In sequence every round is all
    nodes in order, once and for every retry; otherwise one node is picked first, and
    every retry is a round with each node once. *)
Theorem go_conn_order sb seed random l :
  exists first rs sb', calls sb (NewConn sb seed random) l = Some (answers sb (first ++ concat rs) (length l), sb') /\ Nodes sb' = Nodes sb /\
    match Strat sb with
    | StratSeq => first = [] /\ rs = replicate (S (Z.to_nat (Retries sb))) (seq 0 (len sb))
    | _ => (if decide (len sb = 0%nat) then first = [] else exists i, first = [i] /\ (i < len sb)%nat) /\
           length rs = Z.to_nat (Retries sb) /\ Forall (fun r => r ≡ₚ seq 0 (len sb)) rs
    end.
Proof.
  assert (forall k n (rng : G), length (rounds k n rng) = k /\ Forall (fun r => r ≡ₚ seq 0 n) (rounds k n rng)) as Hr.
  { induction k as [|k IH]; intros n rng; [done|]. destruct (IH n (snd (Perm n rng))) as [Hl Hf]. simpl. split; [lia|]. constructor; [apply Perm_law|done]. }
  assert (forall bs, exists first rs sb', calls sb (rcycleInit sb bs) l = Some (answers sb (first ++ concat rs) (length l), sb') /\ Nodes sb' = Nodes sb /\
    (if decide (len sb = 0%nat) then first = [] else exists i, first = [i] /\ (i < len sb)%nat) /\
    length rs = Z.to_nat (Retries sb) /\ Forall (fun r => r ≡ₚ seq 0 (len sb)) rs) as Hrc.
  { intros bs. unfold rcycleInit.
    pose proof (first_loop_range (F := F) (nodes sb) 0 f0 (NewSource (swrap 64 (fnv64a bs))) 0 ltac:(lia) ltac:(lia)) as [Hf1 Hf2].
    destruct (first_loop _ _ _ _ _) as [first rng]. cbn [fst] in *.
    destruct (calls_spec l sb (rcycleConn rng [] (Retries sb) (-1) first)) as (sb' & -> & Hs & _); [split; [constructor|lia]|].
    cbn [remaining app]. eexists _, _, sb'. split; [done|]. split; [done|]. split; [|by apply Hr].
    destruct (decide (len sb = 0%nat)) as [E|E].
    - rewrite E, andb_comm. destruct (Z.ltb_spec first (Z.of_nat 0)); [|done]. by replace first with (-1) by lia.
    - specialize (Hf2 ltac:(lia)). rewrite (proj2 (Z.eqb_neq first (-1))), (proj2 (Z.ltb_lt _ _)) by lia. exists (Z.to_nat first). split; [done|]. lia. }
  unfold NewConn. destruct (Strat sb); [|apply Hrc|destruct seed; apply Hrc].
  destruct (calls_spec l sb (seqInit sb)) as (sb' & -> & Hs & _); [simpl; lia|]. exists [], (replicate (S (Z.to_nat (Retries sb))) (seq 0 (len sb))), sb'.
  split; [|done]. cbn [seqInit remaining app]. by rewrite drop_0.
Qed.

(** A failure that is reported sets the cost of the node that was returned last and of
    no other, and closing the connection restores its own cost. *)
Theorem go_costs sb (rng : G) rc retries i nd : nodes sb !! i = Some nd -> Forall (fun j => (j < len sb)%nat) rc ->
  (exists r conn sb', Next sb (rcycleConn rng rc retries (Z.of_nat i) (-1)) Fail_ = Some (r, conn, sb') /\
     forall j, GetCosts sb' j = if decide (j = i) then Some (nd_cost nd, FailCost sb) else GetCosts sb j) /\
  (exists sb', Close sb (rcycleConn rng rc retries (Z.of_nat i) (-1)) = Some sb' /\
     forall j, GetCosts sb' j = if decide (j = i) then Some (nd_cost nd, nd_cost nd) else GetCosts sb j).
Proof.
  intros Hi Hrc. assert (forall c, exists sb', set_effcost (Z.of_nat i) c sb = Some sb' /\ len sb' = len sb /\
    forall j, GetCosts sb' j = if decide (j = i) then Some (nd_cost nd, c nd) else GetCosts sb j) as Hset.
  { intros c. unfold set_effcost. rewrite (proj2 (Z.eqb_neq _ _)), Nat2Z.id, Hi by lia. cbn [mbind option_bind]. eexists. split; [done|].
    unfold GetCosts. cbn [set_nodes nodes]. split; [apply length_insert|]. intros j. destruct (decide (j = i)) as [->|Hne].
    - by rewrite list_lookup_insert_eq by (by eapply lookup_lt_Some).
    - by rewrite list_lookup_insert_ne. }
  split; [|destruct (Hset nd_cost) as (sb' & E & _ & H); by exists sb'].
  destruct (Hset (fun _ => FailCost sb)) as (sb' & E & Hl & H). cbn [Next]. rewrite E. cbn [mbind option_bind]. rewrite <- Hl in Hrc.
  pose proof (rc_loop_spec sb' (S (Z.to_nat retries)) rng rc retries Hrc ltac:(lia)) as Hloop. cbn [negb Z.eqb andb Pos.eqb].
  destruct (rc_loop _ _ _ _ _) as [[r conn']|]; [|done]. by eexists _, _, sb'.
Qed.
End Theorems.

(** * Examples *)

Lemma rotate_perm n k : drop (k mod S n) (seq 0 n) ++ take (k mod S n) (seq 0 n) ≡ₚ seq 0 n.
Proof. rewrite Permutation_app_comm. by rewrite take_drop. Qed.

(** A generator that rotates. *)
#[export] Instance Qrng : Rng Q nat := {
  f0 := 0%Q;
  recip c := (1 / inject_Z c)%Q;
  add := Qplus;
  div := Qdiv;
  gt x y := negb (Qle_bool x y);
  NewSource z := Z.to_nat (z mod 5);
  Float64 g := (Qmake (Z.of_nat g) 5, (S g mod 5)%nat);
  Perm n g := (drop (g mod S n) (seq 0 n) ++ take (g mod S n) (seq 0 n), (S g mod 5)%nat);
  Perm_law n g := rotate_perm n g
}.

Definition three : @Service Z := foldl (fun sb d => AddNode sb d 10) (mk_service 2 100 20 StratHash []) [70; 71; 72].

Lemma go_costs_witness : exists sb', Close three (rcycleConn 0%nat [] 2 1 (-1)) = Some sb' /\ GetCosts sb' 1 = Some (10, 10).
Proof.
  destruct (go_costs three 0%nat [] 2 1 (mk_nodeData 10 10 71)) as [_ (sb' & E & H)]; [reflexivity|constructor|].
  exists sb'. split; [exact E|]. by rewrite H.
Defined.
