(* ===== verification/HashTable.v ===== *)
(** HashTable: the chained hash table and the perfect hash of
    src/util/lib/hash.c and hash.h.

    A key is the list of its bytes, the value of the memory at [key] with its
    length resolved; data are opaque non-NULL pointers.  The free list of
    entries is kept as its length, and what the callbacks free is returned. *)
From stdpp Require Import prelude list numbers sorting gmap.
From Stdlib Require Import ZArith Lia.
From S2P Require Import Prelude.

Local Open Scope Z_scope.

(** * The hash function *)

(** One step of the hash: [unsigned long] arithmetic on a [char]. *)
Definition hash_step (hash c : Z) : Z := u64 (u64 (u64 (hash << 5) + hash) + schar c).

(** The loop that is compiled out, one byte at a time. *)
Definition hash_table_key_ref (key : list Z) : Z := foldl hash_step 5381 key.

(** [case n] of the switch, falling through to the cases below it. *)
Fixpoint hash_case (n : nat) (hash : Z) (arKey : list Z) : Z :=
  match n, arKey with
  | S n, c :: arKey => hash_case n (hash_step hash c) arKey
  | _, _ => hash
  end.

(** The switch has cases for 0 to 7 and no default. *)
Definition hash_switch (n : nat) (hash : Z) (arKey : list Z) : Z :=
  if (n <=? 7)%nat then hash_case n hash arKey else hash.

(** The body of the unrolled loop. *)
Definition hash_8 (hash c1 c2 c3 c4 c5 c6 c7 c8 : Z) : Z :=
  let hash := hash_step hash c1 in
  let hash := hash_step hash c2 in
  let hash := hash_step hash c3 in
  let hash := hash_step hash c4 in
  let hash := hash_step hash c5 in
  let hash := hash_step hash c6 in
  let hash := hash_step hash c7 in
  hash_step hash c8.

(** The loop takes eight bytes at a time while there are eight, and leaves the
    rest to the switch; [n] bounds its turns. *)
Fixpoint hash_unrolled (n : nat) (hash : Z) (arKey : list Z) : Z :=
  match n, arKey with
  | S n, c1 :: c2 :: c3 :: c4 :: c5 :: c6 :: c7 :: c8 :: arKey =>
    hash_unrolled n (hash_8 hash c1 c2 c3 c4 c5 c6 c7 c8) arKey
  | _, _ => hash_switch (length arKey) hash arKey
  end.

Definition hash_table_key (key : list Z) : Z := hash_unrolled (length key / 8) 5381 key.

(** * Size *)

(** The loop runs at most 29 times before [new_size] is the largest [int]. *)
Fixpoint get_size_loop (fuel : nat) (new_size size : Z) : option Z :=
  if new_size <? size then
    match fuel with
    | O => None
    | S fuel => get_size_loop fuel (i32 (i32 (new_size << 1) + 1)) size
    end
  else Some new_size.

Definition hash_table_get_size (size : Z) : option Z := get_size_loop 29 3 size.

(** * The chained table *)

(** The bytes of a key argument: [klen] bytes, or up to the terminator when
    [klen] is -1. *)
Fixpoint strlen (s : list Z) : nat :=
  match s with
  | [] => O
  | c :: s => if c =? 0 then O else S (strlen s)
  end.

Definition key_arg (key : list Z) (klen : Z) : list Z :=
  if klen =? -1 then take (strlen key) key else take (Z.to_nat klen) key.

Section Code.
Context {V : Type}.

Record hash_entry := mk_entry { he_key : list Z; he_data : V }.

Record hash_table := mk_table {
  buckets : list (list hash_entry);
  no_buckets : Z;
  free_func : bool;
  free_keys : bool;
  entry_pool : nat
}.

(** What an operation hands to the callbacks. *)
Inductive freed := FreeData (d : V) | FreeKey (k : list Z).

(** [size + 1] is computed at [int] for the allocation: for the largest size it
    overflows, which is undefined ([None]). *)
Definition hash_table_create (size : Z) (free_fn : bool) : option hash_table :=
  size ← hash_table_get_size size;
  guard (size + 1 < 2 ^ 31);;
  Some (mk_table (replicate (Z.to_nat (size + 1)) []) size free_fn false (S (Z.to_nat size))).

Definition hash_table_free_keys (tbl : hash_table) (flag : bool) : hash_table :=
  mk_table (buckets tbl) (no_buckets tbl) (free_func tbl) flag (entry_pool tbl).

Definition set_bucket (tbl : hash_table) (i : nat) (b : list hash_entry) (pool : nat) : hash_table :=
  mk_table (<[i := b]> (buckets tbl)) (no_buckets tbl) (free_func tbl) (free_keys tbl) pool.

(** The length of the pool after an entry was taken from it, or allocated. *)
Definition get_entry (tbl : hash_table) : nat := pred (entry_pool tbl).

Definition b_idx (tbl : hash_table) (key : list Z) : nat :=
  Z.to_nat (u32 (hash_table_key key .& u32 (no_buckets tbl))).

Definition same_key (key : list Z) (e : hash_entry) : bool := bool_decide (key = he_key e).

Fixpoint find_entry (key : list Z) (b : list hash_entry) : option hash_entry :=
  match b with
  | [] => None
  | e :: b => if same_key key e then Some e else find_entry key b
  end.

Definition hash_table_search (tbl : hash_table) (key : list Z) : option V :=
  b ← buckets tbl !! b_idx tbl key; he_data <$> find_entry key b.

Definition freed_data (tbl : hash_table) (e : hash_entry) : list freed :=
  if free_func tbl then [FreeData (he_data e)] else [].

Definition freed_key (tbl : hash_table) (e : hash_entry) : list freed :=
  if free_keys tbl then [FreeKey (he_key e)] else [].

(** Walk the chain and replace the first entry with the key. *)
Fixpoint update_first (key : list Z) (f : hash_entry -> list hash_entry) (b : list hash_entry) :
    option (list hash_entry * hash_entry) :=
  match b with
  | [] => None
  | e :: b =>
    if same_key key e then Some (f e ++ b, e)
    else '(b, e') ← update_first key f b; Some (e :: b, e')
  end.

(** The outer option is the access to the bucket array. *)
Definition hash_table_insert (tbl : hash_table) (key : list Z) (d : V) :
    option (hash_table * list freed) :=
  b ← buckets tbl !! b_idx tbl key;
  match update_first key (fun _ => [mk_entry key d]) b with
  | Some (b, e) =>
    Some (set_bucket tbl (b_idx tbl key) b (entry_pool tbl), freed_data tbl e ++ freed_key tbl e)
  | None => Some (set_bucket tbl (b_idx tbl key) (mk_entry key d :: b) (get_entry tbl), [])
  end.

Definition hash_table_replace (tbl : hash_table) (key : list Z) (d : V) :
    option (hash_table * list freed * bool) :=
  b ← buckets tbl !! b_idx tbl key;
  match update_first key (fun e => [mk_entry (he_key e) d]) b with
  | Some (b, e) => Some (set_bucket tbl (b_idx tbl key) b (entry_pool tbl), freed_data tbl e, true)
  | None => Some (tbl, [], false)
  end.

Definition hash_table_delete (tbl : hash_table) (key : list Z) :
    option (hash_table * list freed) :=
  b ← buckets tbl !! b_idx tbl key;
  match update_first key (fun _ => []) b with
  | Some (b, e) =>
    Some (set_bucket tbl (b_idx tbl key) b (S (entry_pool tbl)), freed_data tbl e ++ freed_key tbl e)
  | None => Some (tbl, [])
  end.

(** [update_func] gives the key and the data to store, or fails. *)
Definition hash_table_update (tbl : hash_table) (key : list Z)
    (update_func : list Z -> option (list Z * V)) : option (hash_table * option V) :=
  b ← buckets tbl !! b_idx tbl key;
  match find_entry key b with
  | Some e => Some (tbl, Some (he_data e))
  | None =>
    match update_func key with
    | None => Some (tbl, None)
    | Some (k, d) =>
      Some (set_bucket tbl (b_idx tbl key) (mk_entry (take (length key) k) d :: b) (get_entry tbl), Some d)
    end
  end.

(** Delete the entries of a snapshot of a chain that satisfy [P], the next
    pointer being read before each deletion. *)
Fixpoint delete_entries (P : list Z -> bool) (tbl : hash_table) (es : list hash_entry) :
    option (hash_table * list freed) :=
  match es with
  | [] => Some (tbl, [])
  | e :: es =>
    '(tbl, fr1) ← (if P (he_key e) then hash_table_delete tbl (he_key e) else Some (tbl, []));
    '(tbl, fr2) ← delete_entries P tbl es;
    Some (tbl, fr1 ++ fr2)
  end.

(** The loop over [n] buckets from [cnt]. *)
Fixpoint delete_buckets (P : list Z -> bool) (tbl : hash_table) (cnt n : nat) :
    option (hash_table * list freed) :=
  match n with
  | O => Some (tbl, [])
  | S n =>
    b ← buckets tbl !! cnt;
    '(tbl, fr1) ← delete_entries P tbl b;
    '(tbl, fr2) ← delete_buckets P tbl (S cnt) n;
    Some (tbl, fr1 ++ fr2)
  end.

Definition hash_table_empty (tbl : hash_table) : option (hash_table * list freed) :=
  delete_buckets (fun _ => true) tbl 0 (Z.to_nat (no_buckets tbl + 1)).

(** [strncmp(prefix, key, strlen(prefix)) == 0] on terminated strings. *)
Fixpoint strncmp_prefix (prefix key : list Z) : bool :=
  match prefix, key with
  | [], _ => true
  | p :: prefix, c :: key => (p =? c) && strncmp_prefix prefix key
  | _ :: _, [] => false
  end.

Definition hash_table_delete_by_key_prefix (tbl : hash_table) (prefix : list Z) :
    option (hash_table * list freed) :=
  delete_buckets (strncmp_prefix prefix) tbl 0 (Z.to_nat (no_buckets tbl + 1)).

(** The order in which the callback of [hash_table_do] sees the entries. *)
Definition hash_table_do (tbl : hash_table) : list hash_entry :=
  concat (take (Z.to_nat (no_buckets tbl + 1)) (buckets tbl)).

(** [hash_table_next]: the state is the bucket number and the rest of its chain. *)
Fixpoint next_bucket (n : nat) (tbl : hash_table) (cnt : nat) :
    option (hash_entry * (nat * list hash_entry)) :=
  match n with
  | O => None
  | S n =>
    match buckets tbl !! cnt with
    | Some (e :: es) => Some (e, (cnt, es))
    | _ => next_bucket n tbl (S cnt)
    end
  end.

Definition hash_table_next (tbl : hash_table) (state : option (nat * list hash_entry)) :
    option (hash_entry * (nat * list hash_entry)) :=
  let '(cnt, entry) :=
    match state with Some st => st | None => (0%nat, default [] (buckets tbl !! 0%nat)) end in
  match entry with
  | e :: es => Some (e, (cnt, es))
  | [] => next_bucket (Z.to_nat (no_buckets tbl) - cnt) tbl (S cnt)
  end.

(** What [hash_table_free] hands to the callbacks. *)
Definition hash_table_free (tbl : hash_table) : list freed :=
  concat (map (fun e => freed_data tbl e ++ freed_key tbl e) (hash_table_do tbl)).
End Code.
Arguments hash_entry : clear implicits.
Arguments hash_table : clear implicits.

(** * The hash function *)

Lemma hash_case_fold key hash : hash_case (length key) hash key = foldl hash_step hash key.
Proof. revert hash. induction key as [|c key IH]; intros hash; simpl; [done|]. apply IH. Qed.

Lemma hash_unrolled_fold n hash key :
  (length key / 8 = n)%nat -> hash_unrolled n hash key = foldl hash_step hash key.
Proof.
  revert hash key. induction n as [|n IH]; intros hash key Hn.
  - assert (length key < 8)%nat by (apply Nat.div_small_iff in Hn; lia).
    destruct key; cbn [hash_unrolled]; unfold hash_switch;
      rewrite (proj2 (Nat.leb_le _ 7)) by (simpl in *; lia); apply hash_case_fold.
  - assert (8 <= length key)%nat.
    { apply Nat.nlt_ge. intros Hlt. rewrite Nat.div_small in Hn; lia. }
    do 8 (destruct key as [|? key]; [simpl in *; lia|]). cbn [hash_unrolled]. rewrite IH; [done|].
    replace (length (_ :: _)) with (length key + 1 * 8)%nat in Hn by (simpl; lia).
    rewrite Nat.div_add in Hn by lia. lia.
Qed.

Lemma get_size_loop_spec (k fuel : nat) size :
  (2 <= k)%nat -> (k + fuel = 31)%nat -> size < 2 ^ 31 ->
  (forall j, (2 <= j < k)%nat -> 2 ^ Z.of_nat j - 1 < size) ->
  exists j, (2 <= j <= 31)%nat /\ get_size_loop fuel (2 ^ Z.of_nat k - 1) size = Some (2 ^ Z.of_nat j - 1) /\
    size <= 2 ^ Z.of_nat j - 1 /\ forall i, (2 <= i < j)%nat -> 2 ^ Z.of_nat i - 1 < size.
Proof.
  revert k. induction fuel as [|fuel IH]; intros k Hk Hf Hs Hlow; cbn [get_size_loop].
  - assert (k = 31)%nat as -> by lia. change (2 ^ Z.of_nat 31) with (2 ^ 31).
    rewrite (proj2 (Z.ltb_ge _ _)) by lia. exists 31%nat. repeat split; try done; lia.
  - destruct (Z.ltb_spec (2 ^ Z.of_nat k - 1) size) as [Hlt|Hge].
    + assert (2 ^ Z.of_nat k <= 2 ^ 30) by (apply Z.pow_le_mono_r; lia).
      assert (0 < 2 ^ Z.of_nat k) by lia.
      rewrite Z.shiftl_mul_pow2, Z.pow_1_r by lia.
      rewrite (swrap_small 32 ((2 ^ Z.of_nat k - 1) * 2)) by (simpl; lia).
      rewrite swrap_small by (simpl; lia).
      replace ((2 ^ Z.of_nat k - 1) * 2 + 1) with (2 ^ Z.of_nat (S k) - 1)
        by (rewrite Nat2Z.inj_succ, Z.pow_succ_r by lia; lia).
      apply IH; [lia|lia|lia|]. intros j Hj. destruct (decide (j = k)) as [->|]; [done|].
      apply Hlow. lia.
    + exists k. split; [lia|]. repeat split; done || lia.
Qed.

(** * Chains *)

Section Chains.
Context {V : Type}.
Implicit Types (b l r : list (hash_entry V)) (key : list Z) (e : hash_entry V).

Definition keys b : list (list Z) := map he_key b.

Lemma find_entry_notin key b : key ∉ keys b -> find_entry key b = None.
Proof.
  induction b as [|e b IH]; simpl; [done|]. rewrite not_elem_of_cons. intros [Hne Hb].
  unfold same_key. by rewrite bool_decide_eq_false_2, IH.
Qed.

Lemma find_entry_app key l r :
  find_entry key (l ++ r) = match find_entry key l with Some e => Some e | None => find_entry key r end.
Proof. induction l as [|e l IH]; simpl; [done|]. by destruct (same_key key e). Qed.

Lemma find_entry_split key b :
  match find_entry key b with
  | Some e => exists l r, b = l ++ e :: r /\ he_key e = key /\ key ∉ keys l
  | None => key ∉ keys b
  end.
Proof.
  induction b as [|e b IH]; simpl; [apply not_elem_of_nil|].
  unfold same_key. case_bool_decide as Hk.
  - exists [], b. repeat split; [done|]. apply not_elem_of_nil.
  - destruct (find_entry key b) as [e'|].
    + destruct IH as (l & r & -> & He & Hl). exists (e :: l), r. repeat split; [done|].
      simpl. rewrite not_elem_of_cons. done.
    + rewrite not_elem_of_cons. done.
Qed.

Lemma update_first_split key f l e r :
  he_key e = key -> key ∉ keys l ->
  update_first key f (l ++ e :: r) = Some (l ++ f e ++ r, e).
Proof.
  intros He Hl. induction l as [|e' l IH]; simpl; unfold same_key.
  - by rewrite bool_decide_eq_true_2.
  - apply not_elem_of_cons in Hl as [Hne Hl]. rewrite bool_decide_eq_false_2 by done.
    by rewrite IH.
Qed.

Lemma update_first_notin key f b : key ∉ keys b -> update_first key f b = None.
Proof.
  induction b as [|e b IH]; simpl; [done|]. rewrite not_elem_of_cons. intros [Hne Hb].
  unfold same_key. by rewrite bool_decide_eq_false_2, IH.
Qed.

Lemma find_entry_elem e b : NoDup (keys b) -> e ∈ b -> find_entry (he_key e) b = Some e.
Proof.
  intros Hnd [l [r ->]]%list_elem_of_split. unfold keys in Hnd.
  rewrite map_app in Hnd. apply NoDup_app in Hnd as (_ & Hl & _).
  rewrite find_entry_app, find_entry_notin; simpl.
  - unfold same_key. by rewrite bool_decide_eq_true_2.
  - intros Hin. apply (Hl _ Hin). left.
Qed.
End Chains.

(** * The table refines a finite map *)

Section Refinement.
Context {V : Type}.
Implicit Types (tbl : hash_table V) (key : list Z) (m : gmap (list Z) V) (b : list (hash_entry V)).

(** Every entry is in the bucket of its key, and no bucket holds a key twice. *)
Record table_ok tbl : Prop := {
  ok_size : 0 <= no_buckets tbl < 2 ^ 31 - 1;
  ok_len : length (buckets tbl) = Z.to_nat (no_buckets tbl + 1);
  ok_bucket i b : buckets tbl !! i = Some b -> NoDup (keys b) /\
                  forall e, e ∈ b -> b_idx tbl (he_key e) = i
}.

Definition represents tbl m : Prop := table_ok tbl /\ forall key, hash_table_search tbl key = m !! key.

Lemma b_idx_bound tbl key : table_ok tbl -> (b_idx tbl key < length (buckets tbl))%nat.
Proof.
  intros [Hs Hl _]. rewrite Hl. unfold b_idx.
  rewrite (uwrap_small 32 (no_buckets tbl)) by lia.
  assert (0 <= hash_table_key key .& no_buckets tbl <= no_buckets tbl) as Hb.
  { split; [apply Z.land_nonneg; lia|]. apply Z.ldiff_le; [lia|].
    apply Z.bits_inj'. intros n Hn. rewrite Z.ldiff_spec, Z.land_spec, Z.bits_0.
    by destruct (Z.testbit (hash_table_key key) n), (Z.testbit (no_buckets tbl) n). }
  rewrite uwrap_small by lia. lia.
Qed.

Lemma bucket_of tbl key : table_ok tbl -> exists b, buckets tbl !! b_idx tbl key = Some b.
Proof. intros H. apply lookup_lt_is_Some_2. by apply b_idx_bound. Qed.

Lemma search_set_bucket tbl key b key' pool :
  table_ok tbl ->
  hash_table_search (set_bucket tbl (b_idx tbl key) b pool) key' =
  if decide (b_idx tbl key' = b_idx tbl key) then he_data <$> find_entry key' b
  else hash_table_search tbl key'.
Proof.
  intros Hok. unfold hash_table_search, set_bucket. simpl.
  change (b_idx (mk_table _ _ _ _ _) key') with (b_idx tbl key').
  destruct (decide _) as [->|Hne].
  - by rewrite list_lookup_insert_eq by by apply b_idx_bound.
  - by rewrite list_lookup_insert_ne.
Qed.

(** Storing a chain whose keys belong to the bucket keeps the table well formed. *)
Lemma set_bucket_ok tbl key b pool :
  table_ok tbl -> NoDup (keys b) -> (forall e, e ∈ b -> b_idx tbl (he_key e) = b_idx tbl key) ->
  table_ok (set_bucket tbl (b_idx tbl key) b pool).
Proof.
  intros [Hs Hl Hb] Hnd Hin. split; [done| |].
  - simpl. by rewrite length_insert.
  - simpl. intros i b'. change (b_idx (set_bucket _ _ _ _) ?k) with (b_idx tbl k).
    destruct (decide (i = b_idx tbl key)) as [->|Hne].
    + intros Hi. pose proof (list_lookup_insert_eq (buckets tbl) (b_idx tbl key) b) as E.
      rewrite E in Hi by (apply lookup_lt_Some in Hi; by rewrite length_insert in Hi).
      by injection Hi as <-.
    + rewrite list_lookup_insert_ne by done. apply Hb.
Qed.

(** A change to the chain of [key] that only affects the answer for [key]. *)
Lemma represents_set_bucket tbl m key b b' pool (o : option V) :
  represents tbl m -> buckets tbl !! b_idx tbl key = Some b ->
  NoDup (keys b') -> (forall k, k ∈ keys b' -> k = key \/ k ∈ keys b) ->
  he_data <$> find_entry key b' = o ->
  (forall k, k <> key -> find_entry k b' = find_entry k b) ->
  represents (set_bucket tbl (b_idx tbl key) b' pool) (partial_alter (fun _ => o) key m).
Proof.
  intros [Hok Hm] Hb Hnd Hk Hf Hne. split.
  - apply set_bucket_ok; [done|done|]. intros e He.
    destruct (Hk (he_key e)) as [->|Hin]; [by apply list_elem_of_fmap_2|done|].
    apply list_elem_of_fmap in Hin as (e' & -> & He').
    by apply (proj2 (ok_bucket _ Hok _ _ Hb)).
  - intros k. rewrite search_set_bucket by done.
    destruct (decide (k = key)) as [->|Hkey].
    + rewrite decide_True by done. by rewrite lookup_partial_alter_eq.
    + rewrite lookup_partial_alter_ne, Hne, <- Hm by done.
      destruct (decide _) as [E|]; [|done]. unfold hash_table_search. by rewrite E, Hb.
Qed.

Lemma find_entry_swap k key l r (e e' : hash_entry V) :
  k <> key -> he_key e = key -> he_key e' = key ->
  find_entry k (l ++ e :: r) = find_entry k (l ++ e' :: r).
Proof.
  intros Hne He He'. rewrite !find_entry_app. destruct (find_entry k l); [done|].
  simpl. unfold same_key. by rewrite He, He', bool_decide_eq_false_2.
Qed.

Lemma keys_app l r : keys (V := V) (l ++ r) = keys l ++ keys r.
Proof. apply map_app. Qed.

(** What the callbacks are given when the entry of [key] goes away. *)
Definition freed_old tbl key (o : option V) : list freed :=
  match o with
  | Some d => (if free_func tbl then [FreeData d] else []) ++ (if free_keys tbl then [FreeKey key] else [])
  | None => []
  end.

(** The chain of a key, split at its entry. *)
Lemma chain_of tbl m key :
  represents tbl m ->
  exists b, buckets tbl !! b_idx tbl key = Some b /\ NoDup (keys b) /\
    match m !! key with
    | Some d => exists l r e, b = l ++ e :: r /\ he_key e = key /\ he_data e = d /\ key ∉ keys l
    | None => key ∉ keys b
    end.
Proof.
  intros [Hok Hm]. destruct (bucket_of tbl key Hok) as (b & Hb). exists b. split; [done|].
  split; [apply (ok_bucket _ Hok _ _ Hb)|]. rewrite <- Hm. unfold hash_table_search. rewrite Hb.
  simpl. pose proof (find_entry_split key b) as Hf. destruct (find_entry key b) as [e|]; [|done].
  destruct Hf as (l & r & -> & He & Hl). simpl. by exists l, r, e.
Qed.

Lemma represents_push tbl m key d b pool :
  represents tbl m -> buckets tbl !! b_idx tbl key = Some b -> NoDup (keys b) -> key ∉ keys b ->
  represents (set_bucket tbl (b_idx tbl key) (mk_entry key d :: b) pool) (<[key := d]> m).
Proof.
  intros Hr Hb Hnd Hk. eapply represents_set_bucket; [done|exact Hb|by constructor| | |].
  - simpl. intros k. rewrite elem_of_cons. tauto.
  - simpl. unfold same_key. by rewrite bool_decide_eq_true_2.
  - intros k Hne. simpl. unfold same_key. by rewrite bool_decide_eq_false_2.
Qed.

Lemma represents_swap tbl m key d l e r pool :
  represents tbl m -> buckets tbl !! b_idx tbl key = Some (l ++ e :: r) ->
  NoDup (keys (l ++ e :: r)) -> he_key e = key -> key ∉ keys l ->
  represents (set_bucket tbl (b_idx tbl key) (l ++ mk_entry key d :: r) pool) (<[key := d]> m).
Proof.
  intros Hr Hb Hnd He Hl.
  assert (keys (l ++ mk_entry key d :: r) = keys (l ++ e :: r)) as Hkeys
    by (rewrite !keys_app; simpl; by rewrite He).
  eapply represents_set_bucket; [done|exact Hb|by rewrite Hkeys|rewrite Hkeys; auto| |].
  - rewrite find_entry_app, find_entry_notin by done. simpl. unfold same_key.
    by rewrite bool_decide_eq_true_2.
  - intros k Hk. by eapply find_entry_swap.
Qed.

Lemma insert_represents tbl m key d :
  represents tbl m ->
  exists tbl', hash_table_insert tbl key d = Some (tbl', freed_old tbl key (m !! key)) /\
    represents tbl' (<[key := d]> m).
Proof.
  intros Hr. unfold hash_table_insert. destruct (chain_of tbl m key Hr) as (b & Hb & Hnd & Hf).
  rewrite Hb. cbn [mbind option_bind]. destruct (m !! key) as [old|].
  - destruct Hf as (l & r & e & -> & He & Hd & Hl). rewrite update_first_split by done.
    eexists. split; [unfold freed_data, freed_key; by rewrite He, Hd|]. cbn [app].
    by eapply represents_swap.
  - rewrite update_first_notin by done. eexists. split; [done|].
    by apply represents_push.
Qed.

Lemma replace_represents tbl m key d :
  represents tbl m ->
  exists tbl', hash_table_replace tbl key d =
      Some (tbl', match m !! key with Some old => if free_func tbl then [FreeData old] else [] | None => [] end,
            bool_decide (is_Some (m !! key))) /\
    represents tbl' (match m !! key with Some _ => <[key := d]> m | None => m end).
Proof.
  intros Hr. unfold hash_table_replace. destruct (chain_of tbl m key Hr) as (b & Hb & Hnd & Hf).
  rewrite Hb. cbn [mbind option_bind]. destruct (m !! key) as [old|].
  - destruct Hf as (l & r & e & -> & He & Hd & Hl). rewrite update_first_split by done.
    rewrite bool_decide_eq_true_2 by done.
    eexists. split; [unfold freed_data; by rewrite Hd|]. rewrite He. cbn [app].
    by eapply represents_swap.
  - rewrite update_first_notin by done. by exists tbl.
Qed.

Lemma delete_represents tbl m key :
  represents tbl m ->
  exists tbl', hash_table_delete tbl key = Some (tbl', freed_old tbl key (m !! key)) /\
    represents tbl' (delete key m) /\ no_buckets tbl' = no_buckets tbl /\
    free_func tbl' = free_func tbl /\ free_keys tbl' = free_keys tbl /\
    (forall i, i <> b_idx tbl key -> buckets tbl' !! i = buckets tbl !! i).
Proof.
  intros Hr. unfold hash_table_delete. destruct (chain_of tbl m key Hr) as (b & Hb & Hnd & Hf).
  rewrite Hb. cbn [mbind option_bind]. destruct (m !! key) as [old|] eqn:Hm.
  - destruct Hf as (l & r & e & -> & He & Hd & Hl). rewrite update_first_split by done.
    eexists. split; [unfold freed_data, freed_key; by rewrite He, Hd|]. cbn [app].
    rewrite keys_app in Hnd. simpl in Hnd. rewrite He in Hnd.
    apply NoDup_app in Hnd as (Hndl & Hlr & [Hkr Hndr]%NoDup_cons).
    split; [|do 3 (split; [done|]); intros i Hi; simpl; by rewrite list_lookup_insert_ne].
    eapply represents_set_bucket; [done|exact Hb| | | |]; rewrite ?keys_app.
    + apply NoDup_app. split; [done|]. split; [|done]. intros k Hk Hk'. apply (Hlr k Hk). by right.
    + intros k. simpl. rewrite !elem_of_app, elem_of_cons. tauto.
    + rewrite find_entry_app, !find_entry_notin; done.
    + intros k Hk. rewrite !find_entry_app. destruct (find_entry k l); [done|].
      simpl. unfold same_key. by rewrite bool_decide_eq_false_2 by congruence.
  - rewrite update_first_notin by done. exists tbl. split; [done|]. split; [|done].
    by rewrite delete_id.
Qed.

Lemma update_represents tbl m key f :
  represents tbl m -> (forall k d, f key = Some (k, d) -> take (length key) k = key) ->
  exists tbl', hash_table_update tbl key f =
      Some (tbl', match m !! key with Some d => Some d | None => snd <$> f key end) /\
    represents tbl' (match m !! key, f key with None, Some (_, d) => <[key := d]> m | _, _ => m end).
Proof.
  intros Hr Hkey. unfold hash_table_update.
  destruct (chain_of tbl m key Hr) as (b & Hb & Hnd & Hf).
  rewrite Hb. cbn [mbind option_bind]. destruct (m !! key) as [old|].
  - destruct Hf as (l & r & e & -> & He & Hd & Hl).
    rewrite find_entry_app, find_entry_notin by done. simpl. unfold same_key.
    rewrite bool_decide_eq_true_2 by done. simpl. rewrite Hd. by exists tbl.
  - rewrite find_entry_notin by done. destruct (f key) as [[k d]|]; [|by exists tbl].
    rewrite (Hkey k d) by done. eexists. split; [done|].
    by apply represents_push.
Qed.

(** A bucket holds the keys of the map that hash to it. *)
Lemma keys_of_bucket tbl m i b k :
  represents tbl m -> buckets tbl !! i = Some b ->
  k ∈ keys b <-> is_Some (m !! k) /\ b_idx tbl k = i.
Proof.
  intros [Hok Hm] Hb. destruct (ok_bucket _ Hok _ _ Hb) as [Hnd Hidx]. rewrite <- Hm. split.
  - intros (e & -> & He)%list_elem_of_fmap. specialize (Hidx e He). split; [|done].
    unfold hash_table_search. rewrite Hidx, Hb. simpl. by rewrite find_entry_elem.
  - intros [[d Hd] E]. unfold hash_table_search in Hd. rewrite E, Hb in Hd. simpl in Hd.
    pose proof (find_entry_split k b) as Hf. destruct (find_entry k b); [|done].
    destruct Hf as (l & r & -> & <- & _). rewrite keys_app. simpl. set_solver.
Qed.

Lemma b_idx_no_buckets tbl tbl' k : no_buckets tbl' = no_buckets tbl -> b_idx tbl' k = b_idx tbl k.
Proof. unfold b_idx. by intros ->. Qed.

(** The map without the keys of [ks] that satisfy [P]. *)
Definition drop_keys (P : list Z -> bool) (ks : list (list Z)) m : gmap (list Z) V :=
  filter (fun kv => ~ (P kv.1 = true /\ kv.1 ∈ ks)) m.

Lemma delete_entries_represents P es tbl m :
  represents tbl m ->
  exists tbl' fr, delete_entries P tbl es = Some (tbl', fr) /\
    represents tbl' (drop_keys P (keys es) m) /\ no_buckets tbl' = no_buckets tbl.
Proof.
  revert tbl m. induction es as [|e es IH]; intros tbl m Hr.
  { exists tbl, []. split; [done|]. split; [|done]. unfold drop_keys.
    rewrite map_filter_id; [done|]. intros k d _ [_ ?%not_elem_of_nil]. done. }
  cbn [delete_entries]. destruct (P (he_key e)) eqn:HP.
  - destruct (delete_represents tbl m (he_key e) Hr) as (tbl1 & -> & Hr1 & Hn1 & _).
    destruct (IH tbl1 _ Hr1) as (tbl2 & fr & E & Hr2 & Hn2). cbn [mbind option_bind]. rewrite E. cbn [mbind option_bind].
    eexists _, _. split; [done|]. split; [|congruence].
    replace (drop_keys P (keys (e :: es)) m) with (drop_keys P (keys es) (delete (he_key e) m)); [done|].
    apply map_eq. intros k. apply option_eq. intros d. unfold drop_keys.
    rewrite !map_lookup_filter_Some, lookup_delete_Some. simpl. rewrite elem_of_cons.
    split.
    + intros ((Hne & Hm) & H). split; [done|]. intros [HPk [->|Hin]]; [done|auto].
    + intros (Hm & H). split; [split; [intros <-; apply H; auto|done]|]. intros [? ?]. apply H; auto.
  - destruct (IH tbl _ Hr) as (tbl2 & fr & E & Hr2 & Hn2). cbn [mbind option_bind]. rewrite E. cbn [mbind option_bind].
    eexists _, _. split; [done|]. split; [|done].
    replace (drop_keys P (keys (e :: es)) m) with (drop_keys P (keys es) m); [done|].
    apply map_filter_ext. intros k d _. simpl. rewrite elem_of_cons. intuition congruence.
Qed.

(** The map without the keys satisfying [P] in buckets [cnt] up to [cnt + n]. *)
Definition drop_range (P : list Z -> bool) tbl (cnt n : nat) m : gmap (list Z) V :=
  filter (fun kv => ~ (P kv.1 = true /\ (cnt <= b_idx tbl kv.1 < cnt + n)%nat)) m.

Lemma delete_buckets_represents P n cnt tbl m :
  represents tbl m -> (cnt + n <= length (buckets tbl))%nat ->
  exists tbl' fr, delete_buckets P tbl cnt n = Some (tbl', fr) /\
    represents tbl' (drop_range P tbl cnt n m) /\ no_buckets tbl' = no_buckets tbl.
Proof.
  revert cnt tbl m. induction n as [|n IH]; intros cnt tbl m Hr Hlen.
  { exists tbl, []. split; [done|]. split; [|done]. unfold drop_range.
    rewrite map_filter_id; [done|]. intros k d _ [_ ?]. lia. }
  cbn [delete_buckets]. destruct (lookup_lt_is_Some_2 (buckets tbl) cnt) as (b & Hb); [lia|].
  rewrite Hb. cbn [mbind option_bind].
  destruct (delete_entries_represents P b tbl m Hr) as (tbl1 & fr1 & -> & Hr1 & Hn1).
  cbn [mbind option_bind]. destruct (IH (S cnt) tbl1 _ Hr1) as (tbl2 & fr2 & -> & Hr2 & Hn2).
  { rewrite (ok_len _ (proj1 Hr1)), Hn1, <- (ok_len _ (proj1 Hr)). lia. }
  eexists _, _. split; [done|]. split; [|congruence].
  replace (drop_range P tbl cnt (S n) m)
    with (drop_range P tbl1 (S cnt) n (drop_keys P (keys b) m)); [done|].
  apply map_eq. intros k. apply option_eq. intros d. unfold drop_range, drop_keys.
  rewrite !map_lookup_filter_Some. simpl. rewrite (b_idx_no_buckets tbl tbl1 k Hn1).
  pose proof (keys_of_bucket tbl m cnt b k Hr Hb) as Hkb.
  split.
  - intros ((Hm & H1) & H2). split; [done|]. intros [HP Hk]. rewrite Hm in Hkb.
    destruct (decide (b_idx tbl k = cnt)); [apply H1; split; [done|apply Hkb; eauto]|].
    apply H2. split; [done|lia].
  - intros (Hm & H). split; [split; [done|]|]; intros [HP Hk]; apply H; (split; [done|]).
    + apply Hkb in Hk as [_ Hk]. lia.
    + lia.
Qed.

Lemma drop_all_buckets P tbl m :
  represents tbl m -> drop_range P tbl 0 (Z.to_nat (no_buckets tbl + 1)) m = filter (fun kv => P kv.1 = false) m.
Proof.
  intros [Hok _]. apply map_filter_ext. intros k d _. simpl.
  pose proof (b_idx_bound tbl k Hok) as Hb. rewrite (ok_len _ Hok) in Hb.
  destruct (P k); intuition (lia || congruence).
Qed.

(** * Iteration *)

Lemma concat_keys_NoDup (f : list Z -> nat) (bs : list (list (hash_entry V))) (i0 : nat) :
  (forall i b, bs !! i = Some b -> NoDup (keys b) /\ forall e, e ∈ b -> f (he_key e) = (i0 + i)%nat) ->
  NoDup (keys (concat bs)).
Proof.
  revert i0. induction bs as [|b bs IH]; intros i0 H; [constructor|].
  simpl. rewrite keys_app. apply NoDup_app. destruct (H 0%nat b eq_refl) as [Hnd Hf].
  split; [done|]. split.
  - intros k (e & -> & He)%list_elem_of_fmap (e' & Ek & He')%list_elem_of_fmap.
    apply list_elem_of_In, in_concat in He' as (b' & Hb' & He').
    apply list_elem_of_In, list_elem_of_lookup in Hb' as [i Hi].
    destruct (H (S i) b' Hi) as [_ Hf']. specialize (Hf e He).
    specialize (Hf' e' (proj2 (list_elem_of_In _ _) He')). rewrite Ek in Hf. lia.
  - apply (IH (S i0)). intros i b' Hi. destruct (H (S i) b' Hi) as [Hnd' Hf']. split; [done|].
    intros e He. rewrite (Hf' e He). lia.
Qed.

Lemma hash_table_do_all tbl : table_ok tbl -> hash_table_do tbl = concat (buckets tbl).
Proof. intros Hok. unfold hash_table_do. rewrite take_ge; [done|]. by rewrite (ok_len _ Hok). Qed.

Definition entry_pair (e : hash_entry V) : list Z * V := (he_key e, he_data e).

Lemma elem_of_buckets tbl m e :
  represents tbl m -> e ∈ concat (buckets tbl) <-> m !! he_key e = Some (he_data e).
Proof.
  intros [Hok Hm]. rewrite <- Hm. split.
  - intros He. apply list_elem_of_In, in_concat in He as (b & Hb & He).
    apply list_elem_of_In in He, Hb. apply list_elem_of_lookup in Hb as [i Hi].
    destruct (ok_bucket _ Hok _ _ Hi) as [Hnd Hf].
    unfold hash_table_search. rewrite (Hf e He), Hi. simpl. by rewrite find_entry_elem.
  - unfold hash_table_search. destruct (bucket_of tbl (he_key e) Hok) as (b & Hb). rewrite Hb.
    simpl. pose proof (find_entry_split (he_key e) b) as Hf.
    destruct (find_entry (he_key e) b) as [e'|]; [|done]. simpl. intros [= Hd].
    destruct Hf as (l & r & -> & Hk & _).
    assert (e' = e) as -> by (destruct e, e'; simpl in *; congruence).
    apply list_elem_of_In, in_concat. exists (l ++ e :: r).
    split; apply list_elem_of_In; [by eapply list_elem_of_lookup_2|set_solver].
Qed.

Lemma hash_table_do_represents tbl m :
  represents tbl m -> map entry_pair (hash_table_do tbl) ≡ₚ map_to_list m.
Proof.
  intros Hr. pose proof Hr as [Hok _]. rewrite hash_table_do_all by done.
  assert (NoDup (map entry_pair (concat (buckets tbl)))) as Hnd.
  { apply (NoDup_fmap_1 fst). rewrite <- list_fmap_compose.
    apply (concat_keys_NoDup (b_idx tbl) (buckets tbl) 0). apply (ok_bucket _ Hok). }
  apply NoDup_Permutation; [done|apply NoDup_map_to_list|]. intros [k d].
  rewrite elem_of_map_to_list. split.
  - intros (e & [= -> ->] & He)%list_elem_of_fmap. by apply (elem_of_buckets tbl m e).
  - intros Hm. apply list_elem_of_fmap. exists (mk_entry k d). split; [done|].
    by apply (elem_of_buckets tbl m).
Qed.

(** [while ((data = hash_table_next(tbl, &state, &key, &klen)))] *)
Fixpoint next_all (fuel : nat) tbl (state : option (nat * list (hash_entry V))) :
    option (list (hash_entry V)) :=
  match fuel with
  | O => None
  | S fuel =>
    match hash_table_next tbl state with
    | None => Some []
    | Some (e, st) => es ← next_all fuel tbl (Some st); Some (e :: es)
    end
  end.

Definition next_rest tbl (st : nat * list (hash_entry V)) : list (hash_entry V) :=
  snd st ++ concat (drop (S (fst st)) (buckets tbl)).

Lemma next_bucket_spec n tbl cnt :
  (cnt + n = length (buckets tbl))%nat ->
  match next_bucket n tbl cnt with
  | None => concat (drop cnt (buckets tbl)) = []
  | Some (e, st) => concat (drop cnt (buckets tbl)) = e :: next_rest tbl st /\
                    (fst st < length (buckets tbl))%nat
  end.
Proof.
  revert cnt. induction n as [|n IH]; intros cnt Hn; simpl; [by rewrite drop_ge by lia|].
  destruct (buckets tbl !! cnt) as [b|] eqn:Hb; [|apply lookup_ge_None in Hb; lia].
  rewrite (drop_S _ _ _ Hb). destruct b as [|e es]; simpl; [apply IH; lia|].
  split; [done|lia].
Qed.

Lemma hash_table_next_spec tbl cnt es :
  table_ok tbl -> (cnt < length (buckets tbl))%nat ->
  match hash_table_next tbl (Some (cnt, es)) with
  | None => next_rest tbl (cnt, es) = []
  | Some (e, st) => next_rest tbl (cnt, es) = e :: next_rest tbl st /\
                    (fst st < length (buckets tbl))%nat
  end.
Proof.
  intros Hok Hc. unfold hash_table_next, next_rest at 1 2. simpl.
  destruct es as [|e es]; [|done]. apply next_bucket_spec.
  pose proof (ok_len _ Hok). pose proof (ok_size _ Hok). lia.
Qed.

Lemma next_all_spec fuel tbl cnt es :
  table_ok tbl -> (cnt < length (buckets tbl))%nat ->
  (length (next_rest tbl (cnt, es)) < fuel)%nat ->
  next_all fuel tbl (Some (cnt, es)) = Some (next_rest tbl (cnt, es)).
Proof.
  intros Hok. revert cnt es. induction fuel as [|fuel IH]; intros cnt es Hc Hf; [lia|].
  cbn [next_all]. pose proof (hash_table_next_spec tbl cnt es Hok Hc) as H.
  destruct (hash_table_next tbl (Some (cnt, es))) as [[e [cnt' es']]|]; [|by rewrite H].
  destruct H as [E Hc']. rewrite E in Hf |- *. simpl in Hf. by rewrite IH by (done || lia).
Qed.

Lemma next_all_do tbl :
  table_ok tbl -> next_all (S (length (hash_table_do tbl))) tbl None = Some (hash_table_do tbl).
Proof.
  intros Hok. rewrite hash_table_do_all by done.
  pose proof (ok_len _ Hok). pose proof (ok_size _ Hok).
  destruct (buckets tbl) as [|b bs] eqn:Eb; [simpl in *; lia|].
  assert (next_rest tbl (0%nat, b) = concat (b :: bs)) as E
    by (unfold next_rest; rewrite Eb; done).
  rewrite <- E.
  rewrite <- (next_all_spec (S (length (next_rest tbl (0%nat, b)))) tbl 0 b);
    [|done|rewrite Eb; simpl; lia|lia].
  cbn [next_all]. unfold hash_table_next at 1. by rewrite Eb.
Qed.

Lemma hash_table_create_represents size fn :
  size < 2 ^ 30 ->
  exists tbl, hash_table_create size fn = Some tbl /\ represents tbl ∅ /\ size <= no_buckets tbl.
Proof.
  intros Hs. unfold hash_table_create, hash_table_get_size.
  change 3 with (2 ^ Z.of_nat 2 - 1).
  destruct (get_size_loop_spec 2 29 size) as (j & Hj & -> & Hle & Hlow); [lia|lia|lia|lia|].
  assert (j <= 30)%nat.
  { apply Nat.nlt_ge. intros Hlt. specialize (Hlow 30%nat). change (2 ^ Z.of_nat 30) with (2 ^ 30) in Hlow. lia. }
  assert (4 <= 2 ^ Z.of_nat j <= 2 ^ 30).
  { split; [change 4 with (2 ^ 2)|]; apply Z.pow_le_mono_r; lia. }
  cbn [mbind option_bind]. rewrite option_guard_True by lia. eexists. split; [done|]. split; [|done]. split.
  - split; simpl; [lia|by rewrite length_replicate|].
    intros i b [-> _]%lookup_replicate. split; [constructor|by intros e ?%not_elem_of_nil].
  - intros key. rewrite lookup_empty. unfold hash_table_search. cbn [buckets].
    destruct (replicate _ _ !! _) as [b|] eqn:Hb; [|done].
    by apply lookup_replicate in Hb as [-> _].
Qed.

Lemma hash_table_create_overflow size fn :
  2 ^ 30 <= size < 2 ^ 31 -> hash_table_create (V := V) size fn = None.
Proof.
  intros Hs. unfold hash_table_create, hash_table_get_size.
  change 3 with (2 ^ Z.of_nat 2 - 1).
  destruct (get_size_loop_spec 2 29 size) as (j & Hj & -> & Hle & _); [lia|lia|lia|lia|].
  assert (j = 31)%nat as ->.
  { apply Nat.le_antisymm; [lia|]. apply Nat.nlt_ge. intros Hlt.
    assert (2 ^ Z.of_nat j <= 2 ^ 30) by (apply Z.pow_le_mono_r; lia). lia. }
  reflexivity.
Qed.
End Refinement.

(** * The perfect hash *)

Record perfect_hash_entry := mk_pentry { pe_key : option (list Z); pe_klen : Z }.

(** [num_buckets] is the length of the array. *)
Definition perfect_hash_table := list perfect_hash_entry.

(** The scan of one candidate size: [false] on the first collision. *)
Fixpoint no_collision (vals : list Z) (nbuckets : Z) (bitmap : list Z) : bool :=
  match vals with
  | [] => true
  | v :: vals =>
    let b := v mod nbuckets in
    if bool_decide (b ∈ bitmap) then false else no_collision vals nbuckets (b :: bitmap)
  end.

Fixpoint find_nbuckets (n : nat) (vals : list Z) (nbuckets : Z) : option Z :=
  match n with
  | O => None
  | S n => if no_collision vals nbuckets [] then Some nbuckets else find_nbuckets n vals (nbuckets + 1)
  end.

Definition perfect_hash_create (keys : list (list Z)) (max_buckets : Z) : option perfect_hash_table :=
  let vals := map hash_table_key keys in
  let nkeys := Z.of_nat (length keys) in
  nbuckets ← find_nbuckets (Z.to_nat (max_buckets - nkeys + 1)) vals nkeys;
  Some (foldl (fun bs key => <[Z.to_nat (hash_table_key key mod nbuckets) :=
                               mk_pentry (Some key) (Z.of_nat (length key))]> bs)
              (replicate (Z.to_nat nbuckets) (mk_pentry None 0)) keys).

(** The index of the entry whose data pointer is returned.  The outer [None] is
    a division by zero; [memcmp] of length 0 succeeds even on a NULL key. *)
Definition perfect_hash_search (tbl : perfect_hash_table) (key : list Z) : option (option nat) :=
  let n := Z.of_nat (length tbl) in
  b ← (if n =? 1 then Some 0 else if n =? 0 then None else Some (hash_table_key key mod n));
  e ← tbl !! Z.to_nat b;
  Some (if (Z.of_nat (length key) =? pe_klen e) && bool_decide (key = default [] (pe_key e))
        then Some (Z.to_nat b) else None).

Lemma no_collision_spec vals n bitmap :
  no_collision vals n bitmap = true <->
  NoDup (map (fun v => v mod n) vals) /\ (forall b, b ∈ map (fun v => v mod n) vals -> b ∉ bitmap).
Proof.
  revert bitmap. induction vals as [|v vals IH]; intros bitmap; simpl.
  { split; [|done]. intros _. split; [constructor|by intros ? ?%not_elem_of_nil]. }
  case_bool_decide as Hb.
  - split; [done|]. intros [_ H]. exfalso. apply (H (v mod n)); [left|done].
  - rewrite IH, NoDup_cons. split.
    + intros [Hnd H]. split; [split; [|done]|].
      * intros Hin. apply (H _ Hin). left.
      * intros b [->|Hin]%elem_of_cons; [done|]. intros Hbm. apply (H b Hin). by right.
    + intros [[Hv Hnd] H]. split; [done|].
      intros b Hin [->|Hbm]%elem_of_cons; [done|]. apply (H b); [by right|done].
Qed.

(** The least candidate without a collision, if there is one. *)
Lemma find_nbuckets_spec k vals n :
  match find_nbuckets k vals n with
  | Some n' => n <= n' < n + Z.of_nat k /\ NoDup (map (fun v => v mod n') vals) /\
               forall j, n <= j < n' -> ~ NoDup (map (fun v => v mod j) vals)
  | None => forall j, n <= j < n + Z.of_nat k -> ~ NoDup (map (fun v => v mod j) vals)
  end.
Proof.
  revert n. induction k as [|k IH]; intros n; cbn [find_nbuckets]; [lia|].
  pose proof (no_collision_spec vals n []) as Hnc. destruct (no_collision vals n []).
  - destruct Hnc as [[Hnd _] _]; [done|]. split; [lia|]. split; [done|lia].
  - assert (~ NoDup (map (fun v => v mod n) vals)) as Hn.
    { intros Hnd. apply diff_false_true, Hnc. split; [done|]. intros b _. apply not_elem_of_nil. }
    specialize (IH (n + 1)). destruct (find_nbuckets k vals (n + 1)) as [n'|].
    + destruct IH as (? & ? & Hlt). split; [lia|]. split; [done|].
      intros j Hj. destruct (decide (j = n)) as [->|]; [done|]. apply Hlt. lia.
    + intros j Hj. destruct (decide (j = n)) as [->|]; [done|]. apply IH. lia.
Qed.

(** Filling distinct slots leaves each slot with its own entry. *)
Lemma fill_slots (slot : list Z -> nat) (ent : list Z -> perfect_hash_entry) ks tbl :
  NoDup (map slot ks) -> Forall (fun k => (slot k < length tbl)%nat) ks ->
  let tbl' := foldl (fun bs k => <[slot k := ent k]> bs) tbl ks in
  length tbl' = length tbl /\
  (forall k, k ∈ ks -> tbl' !! slot k = Some (ent k)) /\
  (forall i, i ∉ map slot ks -> tbl' !! i = tbl !! i).
Proof.
  revert tbl. induction ks as [|k ks IH]; intros tbl Hnd Hb; simpl.
  { repeat split. by intros k ?%not_elem_of_nil. }
  simpl in Hnd. apply NoDup_cons in Hnd as [Hk Hnd]. apply Forall_cons in Hb as [Hlt Hb].
  destruct (IH (<[slot k := ent k]> tbl) Hnd) as (Hl & Hin & Hout).
  { eapply Forall_impl; [exact Hb|]. intros k'. by rewrite length_insert. }
  rewrite length_insert in Hl. split; [done|]. split.
  - intros k' [->|Hk']%elem_of_cons; [|by apply Hin].
    rewrite Hout by done. by apply list_lookup_insert_eq.
  - intros i [Hi1 Hi2]%not_elem_of_cons. rewrite Hout by done. by apply list_lookup_insert_ne.
Qed.

Lemma perfect_hash_index key n :
  0 < n -> (if n =? 1 then Some 0 else if n =? 0 then None else Some (hash_table_key key mod n)) =
           Some (hash_table_key key mod n).
Proof.
  intros Hn. destruct (Z.eqb_spec n 1) as [->|]; [by rewrite Z.mod_1_r|].
  by rewrite (proj2 (Z.eqb_neq n 0)) by lia.
Qed.

Definition pent (k : list Z) : perfect_hash_entry := mk_pentry (Some k) (Z.of_nat (length k)).

(** The slot of a key, and what is in every slot, of a created table. *)
Lemma perfect_hash_create_slots ks max tbl :
  perfect_hash_create ks max = Some tbl -> ks <> [] ->
  let slot k := Z.to_nat (hash_table_key k mod Z.of_nat (length tbl)) in
  (length ks <= length tbl)%nat /\ NoDup (map slot ks) /\
  (forall k, k ∈ ks -> tbl !! slot k = Some (pent k)) /\
  (forall i, (i < length tbl)%nat -> i ∉ map slot ks -> tbl !! i = Some (mk_pentry None 0)).
Proof.
  intros Hc Hne. unfold perfect_hash_create in Hc.
  pose proof (find_nbuckets_spec (Z.to_nat (max - Z.of_nat (length ks) + 1))
    (map hash_table_key ks) (Z.of_nat (length ks))) as Hf.
  destruct (find_nbuckets _ _ _) as [n|]; [|done]. cbn [mbind option_bind] in Hc.
  destruct Hf as (Hn & Hnd & _). rewrite map_map in Hnd.
  assert (0 < n) by (destruct ks; [done|simpl in *; lia]).
  set (slot k := Z.to_nat (hash_table_key k mod n)).
  assert (NoDup (map slot ks)) as Hnd'.
  { apply (NoDup_fmap_1 Z.of_nat). rewrite <- list_fmap_compose.
    replace ((Z.of_nat ∘ slot) <$> ks) with (map (fun x => hash_table_key x mod n) ks); [done|].
    apply map_ext. intros k. simpl. unfold slot. pose proof (Z.mod_pos_bound (hash_table_key k) n). lia. }
  destruct (fill_slots slot pent ks (replicate (Z.to_nat n) (mk_pentry None 0)) Hnd')
    as (Hl & Hin & Hout).
  { apply list.Forall_forall. intros k _. rewrite length_replicate. unfold slot.
    pose proof (Z.mod_pos_bound (hash_table_key k) n). lia. }
  assert (tbl = foldl (fun bs k => <[slot k := pent k]> bs)
    (replicate (Z.to_nat n) (mk_pentry None 0)) ks) as -> by (by injection Hc as <-).
  rewrite Hl, length_replicate, Z2Nat.id by lia. fold slot.
  split; [lia|]. split; [done|]. split; [done|].
  intros i Hi Hni. rewrite Hout by done. apply lookup_replicate. done.
Qed.

(** * Theorems *)

(** The unrolled hash function computes the hash of the plain loop, for
    keys of any length. *)
Theorem hash_table_key_unrolled key : hash_table_key key = hash_table_key_ref key.
Proof. by apply hash_unrolled_fold. Qed.

(** The size search stops for every [int], without overflow, at the least
    number of the form 2^j - 1, j at least 2, that is not below the request. *)
Theorem hash_table_get_size_least size :
  size < 2 ^ 31 ->
  exists j, (2 <= j <= 31)%nat /\ hash_table_get_size size = Some (2 ^ Z.of_nat j - 1) /\
    size <= 2 ^ Z.of_nat j - 1 /\ forall i, (2 <= i < j)%nat -> 2 ^ Z.of_nat i - 1 < size.
Proof.
  intros Hs. apply (get_size_loop_spec 2 29); lia.
Qed.

(** C6: a table created for a size below 2^30 is an empty map; for a larger
    [int] the size computation overflows.  Searching, inserting, replacing and
    deleting are the operations of a finite map from keys to data, and so is
    updating by a callback that fails or gives a key with the bytes of its
    argument.  No access leaves the bucket array.  The callbacks are handed
    exactly what was replaced or deleted: the old data and the old key by insert
    and delete, the old data alone by replace, which keeps the key. *)
Theorem hash_table_refines_map {V} :
  (forall size fn,
     (size < 2 ^ 30 ->
      exists tbl, hash_table_create (V := V) size fn = Some tbl /\ represents tbl ∅) /\
     (2 ^ 30 <= size < 2 ^ 31 -> hash_table_create (V := V) size fn = None)) /\
  forall (tbl : hash_table V) (m : gmap (list Z) V), represents tbl m -> forall key d,
  hash_table_search tbl key = m !! key /\
  (exists tbl', hash_table_insert tbl key d = Some (tbl', freed_old tbl key (m !! key)) /\
     represents tbl' (<[key := d]> m)) /\
  (exists tbl', hash_table_replace tbl key d =
       Some (tbl', match m !! key with
                   | Some old => if free_func tbl then [FreeData old] else []
                   | None => []
                   end, bool_decide (is_Some (m !! key))) /\
     represents tbl' (match m !! key with Some _ => <[key := d]> m | None => m end)) /\
  (exists tbl', hash_table_delete tbl key = Some (tbl', freed_old tbl key (m !! key)) /\
     represents tbl' (delete key m)) /\
  (forall update_func,
     (forall k d, update_func key = Some (k, d) -> take (length key) k = key) ->
     exists tbl', hash_table_update tbl key update_func =
         Some (tbl', match m !! key with Some d => Some d | None => snd <$> update_func key end) /\
       represents tbl' (match m !! key, update_func key with
                        | None, Some (_, d) => <[key := d]> m
                        | _, _ => m
                        end)).
Proof.
  split.
  { intros size fn. split; [|apply hash_table_create_overflow]. intros Hs.
    destruct (hash_table_create_represents (V := V) size fn Hs) as (tbl & ? & ? & _). by exists tbl. }
  intros tbl m Hr key d. split; [apply Hr|]. split; [by apply insert_represents|].
  split; [by apply replace_represents|].
  split; [destruct (delete_represents tbl m key Hr) as (tbl' & ? & ? & _); eauto|].
  intros f Hf. by apply update_represents.
Qed.

(** [hash_table_empty] empties the map and
    [hash_table_delete_by_key_prefix] removes exactly the keys that start with
    the prefix, although both delete entries from the chains they walk. *)
Theorem hash_table_bulk_delete {V} (tbl : hash_table V) m prefix :
  represents tbl m ->
  (exists tbl' fr, hash_table_empty tbl = Some (tbl', fr) /\ represents tbl' ∅) /\
  (exists tbl' fr, hash_table_delete_by_key_prefix tbl prefix = Some (tbl', fr) /\
     represents tbl' (filter (fun kv => strncmp_prefix prefix kv.1 = false) m)).
Proof.
  intros Hr. pose proof (proj1 Hr) as Hok. pose proof (ok_len _ Hok).
  unfold hash_table_empty, hash_table_delete_by_key_prefix. split.
  - destruct (delete_buckets_represents (fun _ => true) (Z.to_nat (no_buckets tbl + 1)) 0 tbl m Hr)
      as (tbl' & fr & E & Hr' & _); [lia|]. rewrite drop_all_buckets in Hr' by done.
    exists tbl', fr. split; [done|].
    by rewrite map_empty_filter_2 in Hr' by done.
  - destruct (delete_buckets_represents (strncmp_prefix prefix) (Z.to_nat (no_buckets tbl + 1)) 0 tbl m Hr)
      as (tbl' & fr & E & Hr' & _); [lia|]. rewrite drop_all_buckets in Hr' by done. eauto.
Qed.

(** Calling [hash_table_next] until it returns NULL, and [hash_table_do],
    both visit every key and data of the map exactly once. *)
Theorem hash_table_iterates {V} (tbl : hash_table V) m :
  represents tbl m ->
  next_all (S (length (hash_table_do tbl))) tbl None = Some (hash_table_do tbl) /\
  map entry_pair (hash_table_do tbl) ≡ₚ map_to_list m.
Proof.
  intros Hr. split; [apply next_all_do, Hr|by apply hash_table_do_represents].
Qed.

(** When [perfect_hash_create] succeeds every key is found at a slot of its
    own, and a nonempty key that is not in the set is not found. *)
Theorem perfect_hash_search_correct ks max tbl :
  perfect_hash_create ks max = Some tbl -> ks <> [] ->
  (forall k, k ∈ ks -> exists b, perfect_hash_search tbl k = Some (Some b) /\ tbl !! b = Some (pent k)) /\
  (forall k, k ∉ ks -> k <> [] -> perfect_hash_search tbl k = Some None).
Proof.
  intros Hc Hne. destruct (perfect_hash_create_slots ks max tbl Hc Hne) as (Hlen & Hnd & Hin & Hout).
  assert (0 < length tbl)%nat by (destruct ks; [done|simpl in Hlen; lia]).
  unfold perfect_hash_search. setoid_rewrite perfect_hash_index; [|lia..]. split.
  - intros k Hk. cbn [mbind option_bind]. rewrite (Hin k Hk). simpl.
    rewrite Z.eqb_refl, bool_decide_eq_true_2 by done. eexists. split; [done|]. by apply Hin.
  - intros k Hk Hk0. cbn [mbind option_bind].
    set (slot k := Z.to_nat (hash_table_key k mod Z.of_nat (length tbl))) in *.
    change (Z.to_nat (hash_table_key k mod Z.of_nat (length tbl))) with (slot k).
    destruct (decide (slot k ∈ map slot ks)) as [(k' & E & Hk')%list_elem_of_fmap|Hni].
    + rewrite E, (Hin k' Hk' : tbl !! slot k' = _). simpl. rewrite bool_decide_eq_false_2 by congruence.
      by rewrite andb_false_r.
    + rewrite Hout; [simpl|unfold slot; pose proof (Z.mod_pos_bound (hash_table_key k) (Z.of_nat (length tbl))); lia|done].
      by rewrite bool_decide_eq_false_2, andb_false_r.
Qed.

(** The perfect hash breaks at its edges.  A table created from no keys has
    no buckets, and searching it divides by zero; and the empty key, absent from
    the set, is reported present when its slot is unused. *)
Theorem perfect_hash_edge_cases :
  (forall key, (tbl ← perfect_hash_create [] 10; perfect_hash_search tbl key) = None) /\
  exists ks b, ([] ∉ ks) /\ (tbl ← perfect_hash_create ks 10; perfect_hash_search tbl []) = Some (Some b).
Proof.
  split; [done|]. exists [[97]; [99]], 2%nat. split; [|vm_compute; reflexivity].
  rewrite !not_elem_of_cons. repeat split; [done|done|apply not_elem_of_nil].
Qed.

(** * Witnesses *)

Lemma hash_table_get_size_least_witness :
  exists j, (2 <= j <= 31)%nat /\ hash_table_get_size 100 = Some (2 ^ Z.of_nat j - 1) /\
    100 <= 2 ^ Z.of_nat j - 1 /\ forall i, (2 <= i < j)%nat -> 2 ^ Z.of_nat i - 1 < 100.
Proof. apply (hash_table_get_size_least 100). lia. Defined.

Lemma hash_table_refines_map_witness :
  exists tbl, hash_table_create (V := Z) 5 true = Some tbl /\
    exists tbl', hash_table_insert tbl [1; 2] 3 = Some (tbl', []) /\
      hash_table_search tbl' [1; 2] = Some 3.
Proof.
  destruct (hash_table_refines_map (V := Z)) as [Hc Hops].
  destruct (proj1 (Hc 5 true)) as (tbl & E & Hr); [lia|]. exists tbl. split; [done|].
  destruct (Hops tbl ∅ Hr [1; 2] 3) as (_ & (tbl' & Ei & Hr') & _).
  exists tbl'. split; [done|]. destruct (Hops tbl' _ Hr' [1; 2] 3) as (-> & _). reflexivity.
Defined.

Definition empty_table : hash_table Z := mk_table (replicate 4 []) 3 false false 4.

Lemma empty_table_represents : represents empty_table ∅.
Proof.
  destruct (hash_table_create_represents (V := Z) 1 false) as (tbl & E & Hr & _); [lia|].
  replace empty_table with tbl; [done|]. vm_compute in E. by injection E as <-.
Qed.

Lemma hash_table_bulk_delete_witness :
  (exists tbl' fr, hash_table_empty empty_table = Some (tbl', fr) /\ represents tbl' ∅) /\
  (exists tbl' fr, hash_table_delete_by_key_prefix empty_table [1] = Some (tbl', fr) /\
     represents tbl' (filter (fun kv => strncmp_prefix [1] kv.1 = false) ∅)).
Proof. apply (hash_table_bulk_delete empty_table ∅ [1]), empty_table_represents. Defined.

Lemma hash_table_iterates_witness :
  next_all 1 empty_table None = Some [] /\ map entry_pair (hash_table_do empty_table) ≡ₚ [].
Proof.
  destruct (hash_table_iterates empty_table ∅ empty_table_represents) as [H1 H2].
  rewrite map_to_list_empty in H2. exact (conj H1 H2).
Defined.

Lemma perfect_hash_search_correct_witness :
  exists tbl, perfect_hash_create [[97]; [99]] 10 = Some tbl /\
    (forall k, k ∈ [[97]; [99]] ->
       exists b, perfect_hash_search tbl k = Some (Some b) /\ tbl !! b = Some (pent k)).
Proof.
  eexists. split; [vm_compute; reflexivity|].
  apply (perfect_hash_search_correct [[97]; [99]] 10); [vm_compute; reflexivity|done].
Defined.
