(* ===== verification/Bconf.v ===== *)
(** Bconf: the configuration tree of src/vtree/lib/bconf.c and bconf.h.

    A node holds its key, its type, its value and its sub nodes in the order of
    the array; [n_star] says whether the star pointer is set, and then it points
    to the sub node with key "*".  The growth of the array is not modelled, nor
    are memory pools: the pool argument is NULL.  Pointers to nodes inside a tree
    become the index at each level, and an operation on such a pointer rewrites
    the path to it.  A binary value ([NODE_BIN]) belongs to the caller. *)
From stdpp Require Import prelude list numbers sorting.
From Stdlib Require Import ZArith Lia.
From S2P Require Import Prelude.

Local Open Scope Z_scope.
#[local] Set Warnings "-register-all".

Inductive node_type := NODE_NONE | NODE_VAL | NODE_LIST | NODE_BIN.

#[export] Instance node_type_eq_dec : EqDecision node_type.
Proof. solve_decision. Defined.

Inductive bconf_node := mk_node {
  n_key : list Z;
  n_type : node_type;
  n_value : option (list Z);
  n_star : bool;
  n_subs : list bconf_node
}.

(** How a value is given to [bconf_add_dataX]. *)
Inductive dup_mode := BCONF_REF | BCONF_DUP | BCONF_OWN.

#[export] Instance dup_mode_eq_dec : EqDecision dup_mode.
Proof. solve_decision. Defined.

(** * Comparing and searching keys *)

(** [node->key[i]] read as an unsigned character of a terminated string. *)
Definition hd0 (s : list Z) : Z := match s with [] => 0 | c :: _ => c end.

Fixpoint keycomp_loop (key substring : list Z) : Z :=
  match substring with
  | [] => hd0 key
  | s :: substring =>
    let res := hd0 key - s in
    if res =? 0 then keycomp_loop (tail key) substring else res
  end.

Definition keycomp (key substring : list Z) : Z :=
  if isdigit (hd0 key) && isdigit (hd0 substring) &&
     negb (Z.of_nat (length key) - Z.of_nat (length substring) =? 0)
  then Z.of_nat (length key) - Z.of_nat (length substring)
  else keycomp_loop key substring.

(** The binary search loop shared by [node_search] and [node_insert]: [inl i] is
    a node with the key, [inr no] the slot where it would go.  Every turn at
    least halves [ns], so [count] turns are enough; [None] is an access outside
    the array. *)
Fixpoint search_loop (fuel : nat) (subs : list bconf_node) (key : list Z) (no ns : Z) :
    option (Z + Z) :=
  if 0 <? ns then
    match fuel with
    | O => None
    | S fuel =>
      let even := if Z.even ns then 1 else 0 in
      let ns := ns / 2 in
      let i := no + ns in
      n ← subs !! Z.to_nat i;
      let res := keycomp (n_key n) key in
      if res =? 0 then Some (inl i)
      else if 0 <? res then search_loop fuel subs key no ns
      else search_loop fuel subs key (no + ns + 1) (ns - even)
    end
  else Some (inr no).

Definition search (subs : list bconf_node) (key : list Z) : option (Z + Z) :=
  search_loop (length subs) subs key 0 (Z.of_nat (length subs)).

Definition node_search (node : bconf_node) (key : list Z) : option (option nat) :=
  if decide (n_type node = NODE_LIST) then
    r ← search (n_subs node) key;
    Some (match r with inl i => Some (Z.to_nat i) | inr _ => None end)
  else Some None.

Definition star_key : list Z := [42].

(** [None] also stands for the exit on a duplicate key. *)
Definition node_insert (node n : bconf_node) : option (nat * bconf_node) :=
  r ← search (n_subs node) (n_key n);
  match r with
  | inl _ => None
  | inr no =>
    let i := Z.to_nat no in
    Some (i, mk_node (n_key node) NODE_LIST (n_value node)
               (bool_decide (n_key n = star_key) || n_star node)
               (take i (n_subs node) ++ n :: drop i (n_subs node)))
  end.

(** * Adding *)

Definition new_node (key : list Z) : bconf_node := mk_node key NODE_NONE None false [].

(** The result of a lookup that may add nodes: [Conflict] is the NULL return. *)
Inductive added (A : Type) := Conflict | Added (a : A).
Arguments Conflict {A}.
Arguments Added {A} a.

Definition is_list (n : bconf_node) : bool :=
  match n_type n with NODE_NONE | NODE_LIST => true | _ => false end.

(** The index of the sub node and the tree that contains it. *)
Definition bconf_get_node (node : bconf_node) (key : list Z) : option (added (nat * bconf_node)) :=
  if is_list node then
    r ← node_search node key;
    match r with
    | Some i => Some (Added (i, node))
    | None => a ← node_insert node (new_node key); Some (Added a)
    end
  else Some Conflict.

Definition set_sub (node : bconf_node) (i : nat) (c : bconf_node) : bconf_node :=
  mk_node (n_key node) (n_type node) (n_value node) (n_star node) (<[i := c]> (n_subs node)).

(** [bconf_lookup_addv] followed by an operation [f] on the node it returns. *)
Fixpoint bconf_lookup_addv {R} (node : bconf_node) (argv : list (list Z))
    (f : bconf_node -> option (R * bconf_node)) : option (added (R * bconf_node)) :=
  match argv with
  | [] => '(r, n) ← f node; Some (Added (r, n))
  | key :: argv =>
    a ← bconf_get_node node key;
    match a with
    | Conflict => Some Conflict
    | Added (i, node) =>
      c ← n_subs node !! i;
      a ← bconf_lookup_addv c argv f;
      match a with
      | Conflict => Some Conflict
      | Added (r, c) => Some (Added (r, set_sub node i c))
      end
    end
  end.

(** The parts of a key between dots; there is always at least one. *)
Fixpoint split_dots (s : list Z) : list (list Z) :=
  match s with
  | [] => [[]]
  | c :: s =>
    if c =? 46 then [] :: split_dots s
    else match split_dots s with
         | [] => [[c]]
         | p :: ps => (c :: p) :: ps
         end
  end.

Definition root_node : bconf_node := new_node [].

(** [*root] is allocated on first use. *)
Definition root_or_new (root : option bconf_node) : bconf_node := default root_node root.

Definition set_data (node : bconf_node) (t : node_type) (v : option (list Z)) : bconf_node :=
  mk_node (n_key node) t v (n_star node) (n_subs node).

(** [bconf_add_dataX]: [None] when the code frees or compares memory it must not. *)
Definition bconf_add_dataX (node : bconf_node) (value : option (list Z)) (dup : dup_mode) :
    option (Z * bconf_node) :=
  let given := match value, dup with None, BCONF_REF => false | _, _ => true end in
  if given && bool_decide (n_type node = NODE_LIST) then Some (-1, node) else
  match n_type node with
  | NODE_NONE =>
    match dup, value with
    | BCONF_REF, Some _ => Some (0, set_data node NODE_BIN value)
    | BCONF_REF, None => Some (0, set_data node NODE_LIST (n_value node))
    | _, Some _ => Some (0, set_data node NODE_VAL value)
    | _, None => Some (-1, node)
    end
  | t =>
    if negb given then Some (1, node) else
    ret ← (if negb (bool_decide (dup = BCONF_REF)) && bool_decide (t = NODE_VAL)
           then old ← n_value node; v ← value; Some (if decide (old = v) then 1 else 0)
           else Some 0);
    match dup, value with
    | BCONF_REF, _ => Some (ret, set_data node NODE_BIN value)
    | BCONF_OWN, _ => Some (ret, set_data node NODE_VAL value)
    | BCONF_DUP, None => Some (-1, node)
    | BCONF_DUP, Some v =>
      let old := default [] (n_value node) in
      if (length v <=? length old)%nat then Some (ret, set_data node t (Some v))
      else if bool_decide (t = NODE_BIN) then None
      else Some (ret, set_data node t (Some v))
    end
  end.

(** -1 on a conflict, and the tree, which a conflict leaves as it was. *)
Definition bconf_add_datav_canfail (root : option bconf_node) (argv : list (list Z))
    (value : list Z) (dup : dup_mode) : option (Z * bconf_node) :=
  a ← bconf_lookup_addv (root_or_new root) argv (fun n => bconf_add_dataX n (Some value) dup);
  Some (match a with Conflict => (-1, root_or_new root) | Added r => r end).

Definition bconf_add_data_canfail (root : option bconf_node) (key value : list Z) :
    option (Z * bconf_node) :=
  bconf_add_datav_canfail root (split_dots key) value BCONF_DUP.

(** The variants that exit on a conflict. *)
Definition or_exit (r : option (Z * bconf_node)) : option (Z * bconf_node) :=
  '(ret, root) ← r; if ret =? -1 then None else Some (ret, root).

Definition bconf_add_datav (root : option bconf_node) (argv : list (list Z)) (value : list Z)
    (dup : dup_mode) : option (Z * bconf_node) :=
  or_exit (bconf_add_datav_canfail root argv value dup).

Definition bconf_add_data (root : option bconf_node) (key value : list Z) : option bconf_node :=
  snd <$> bconf_add_datav root (split_dots key) value BCONF_DUP.

Definition bconf_add_bindatav (root : option bconf_node) (argv : list (list Z)) (value : list Z) :
    option (Z * bconf_node) :=
  bconf_add_datav root argv value BCONF_REF.

Definition bconf_add_bindata (root : option bconf_node) (key value : list Z) : option bconf_node :=
  snd <$> bconf_add_bindatav root (split_dots key) value.

(** 0 when a value can be added under the key, -1 otherwise. *)
Fixpoint validate_loop (node : bconf_node) (parts : list (list Z)) : option Z :=
  match parts with
  | [] => Some (match n_type node with NODE_NONE | NODE_VAL => 0 | _ => -1 end)
  | key :: parts =>
    if is_list node then
      r ← node_search node key;
      match r with
      | None => Some 0
      | Some i => c ← n_subs node !! i; validate_loop c parts
      end
    else Some (-1)
  end.

Definition bconf_validate_key_conflict (root : option bconf_node) (key : list Z) : option Z :=
  match root with None => Some 0 | Some n => validate_loop n (split_dots key) end.

(** * Looking up *)

(** The sub node the star pointer refers to. *)
Definition star (node : bconf_node) : option bconf_node :=
  if n_star node then list_find (fun n => n_key n = star_key) (n_subs node) ≫= fun p => Some (snd p)
  else None.

(** The outer option is an access outside an array, the inner one NULL. *)
Fixpoint get_loop (node : bconf_node) (parts : list (list Z)) : option (option bconf_node) :=
  match parts with
  | [] => Some (Some node)
  | key :: parts =>
    r ← node_search node key;
    match r with
    | Some i => c ← n_subs node !! i; get_loop c parts
    | None =>
      match star node with
      | None => Some None
      | Some s => get_loop s parts
      end
    end
  end.

Definition bconf_get (root : option bconf_node) (key : list Z) : option (option bconf_node) :=
  match root with None => Some None | Some n => get_loop n (split_dots key) end.

Definition bconf_lget (root : option bconf_node) (key : list Z) (len : nat) :
    option (option bconf_node) :=
  match root, len with
  | Some n, S _ => get_loop n (split_dots (take len key))
  | _, _ => Some None
  end.

(** [bconf_vget], [bconf_vnget] and [bconf_vasget] differ in how the key
    arguments end. *)
Fixpoint bconf_vget (root : option bconf_node) (keys : list (list Z)) : option (option bconf_node) :=
  match keys with
  | [] => Some root
  | key :: keys => n ← bconf_get root key; bconf_vget n keys
  end.

Definition bconf_byindex (node : option bconf_node) (i : nat) : option bconf_node :=
  n ← node; n_subs n !! i.

Definition bconf_count (node : option bconf_node) : nat :=
  match node with Some n => length (n_subs n) | None => O end.

Definition bconf_value (node : option bconf_node) : option (list Z) := node ≫= n_value.

Definition bconf_get_string (root : option bconf_node) (key : list Z) : option (option (list Z)) :=
  n ← bconf_get root key; Some (bconf_value n).

Definition bconf_get_string_default (root : option bconf_node) (key def : list Z) : option (list Z) :=
  v ← bconf_get_string root key; Some (default def v).

Fixpoint in_list_loop (value : list Z) (subs : list bconf_node) (i : Z) : Z :=
  match subs with
  | [] => -1
  | n :: subs => if bool_decide (n_value n = Some value) then i else in_list_loop value subs (i + 1)
  end.

(** [path] is NULL when the list is [root] itself. *)
Definition bconf_in_list (value : option (list Z)) (path : option (list Z)) (root : option bconf_node) :
    option Z :=
  match value with
  | None => Some (-1)
  | Some v =>
    node ← (match path with Some p => bconf_get root p | None => Some root end);
    Some (in_list_loop v (match node with Some n => n_subs n | None => [] end) 0)
  end.

(** * Merging and deleting *)

(** The loop over the sub nodes of [src], which merges lists into sub nodes of
    [dst] and adds values.  [None] is an exit on a conflict. *)
Section MergeLoop.
Context (merge : bconf_node -> bconf_node -> option (bool * bconf_node)).

Fixpoint merge_subs (dst : bconf_node) (ret : bool) (subs : list bconf_node) :
    option (bool * bconf_node) :=
  match subs with
  | [] => Some (ret, dst)
  | sn :: subs =>
    match n_type sn with
    | NODE_LIST =>
      a ← bconf_get_node dst (n_key sn);
      match a with
      | Conflict => merge_subs dst ret subs
      | Added (i, dst) =>
        dn ← n_subs dst !! i;
        '(r, dn) ← merge dn sn;
        merge_subs (set_sub dst i dn) (ret || r) subs
      end
    | NODE_VAL =>
      v ← n_value sn;
      '(r, dst) ← bconf_add_datav (Some dst) [n_key sn] v BCONF_DUP;
      merge_subs dst (ret || (r =? 0)) subs
    | NODE_BIN =>
      v ← n_value sn;
      '(r, dst) ← bconf_add_bindatav (Some dst) [n_key sn] v;
      merge_subs dst (ret || (r =? 0)) subs
    | NODE_NONE => merge_subs dst ret subs
    end
  end.
End MergeLoop.

Fixpoint merge_node (dst src : bconf_node) {struct src} : option (bool * bconf_node) :=
  match src with
  | mk_node _ _ _ _ subs => merge_subs (fun dn sn => merge_node dn sn) dst false subs
  end.

Definition bconf_merge (dst src : option bconf_node) : option (bool * bconf_node) :=
  match src with
  | Some src => merge_node (root_or_new dst) src
  | None => Some (false, root_or_new dst)
  end.

Definition bconf_merge_prefix (dst : option bconf_node) (prefix : list Z) (src : option bconf_node) :
    option (bool * option bconf_node) :=
  match src with
  | None => Some (false, dst)
  | Some src =>
    let d := root_or_new dst in
    a ← bconf_get_node d prefix;
    match a with
    | Conflict => Some (false, Some d)
    | Added (i, d) =>
      dn ← n_subs d !! i;
      '(r, dn) ← merge_node dn src;
      Some (r, Some (set_sub d i dn))
    end
  end.

(** Drop the sub node at [i]; the star pointer is cleared if it was that one. *)
Definition delete_sub (node : bconf_node) (i : nat) : bconf_node :=
  mk_node (n_key node) (n_type node) (n_value node)
    (n_star node && negb (bool_decide ((n_key <$> n_subs node !! i) = Some star_key)))
    (delete i (n_subs node)).

Definition delete_key (key : list Z) (node : bconf_node) : option (bool * bconf_node) :=
  match list_find (fun n => n_key n = key) (n_subs node) with
  | Some (i, _) => Some (true, delete_sub node i)
  | None => Some (false, node)
  end.

Definition bconf_deletev (root : option bconf_node) (argv : list (list Z)) (last : list Z) :
    option (bool * bconf_node) :=
  a ← bconf_lookup_addv (root_or_new root) argv (delete_key last);
  Some (match a with Conflict => (false, root_or_new root) | Added r => r end).

(** The loop of [bconf_filter_to_keys] from index [i]. *)
Fixpoint filter_loop (fuel : nat) (node : bconf_node) (filter : option bconf_node) (i : nat) (ret : Z) :
    option (Z * bconf_node) :=
  match n_subs node !! i, fuel with
  | None, _ => Some (ret, node)
  | Some _, O => None
  | Some sub, S fuel =>
    g ← bconf_get filter (n_key sub);
    match g with
    | Some _ => filter_loop fuel node filter (S i) ret
    | None => filter_loop fuel (delete_sub node i) filter i (ret + 1)
    end
  end.

Definition bconf_filter_to_keys (root : option bconf_node) (filter : option bconf_node) :
    option (Z * option bconf_node) :=
  match root with
  | Some n =>
    if decide (n_type n = NODE_LIST)
    then '(r, n) ← filter_loop (length (n_subs n)) n filter 0 0; Some (r, Some n)
    else Some (0, root)
  | None => Some (0, None)
  end.

(** * The key order *)

(** A key in the order of [keycomp]: keys that start with a digit sort together,
    by length first. *)
Definition enc (k : list Z) : list Z :=
  if isdigit (hd0 k) then 48 :: Z.of_nat (length k) :: k else k.

Definition valid_key (k : list Z) : Prop := Forall char k.

Lemma keycomp_loop_lex a b : valid_key a -> valid_key b -> Z.sgn (keycomp_loop a b) = Z.sgn (lexcmp a b).
Proof.
  unfold valid_key, char. intros Ha Hb. revert a Ha.
  induction Hb as [|y b Hy Hb IH]; intros a Ha; simpl.
  - destruct Ha as [|x a Hx Ha]; simpl; lia.
  - destruct Ha as [|x a Hx Ha]; simpl.
    + rewrite (proj2 (Z.eqb_neq _ 0)) by lia. lia.
    + destruct (Z.eqb_spec (x - y) 0), (Z.eqb_spec x y); try lia. auto.
Qed.

Lemma isdigit_spec c : isdigit c = true <-> 48 <= c <= 57.
Proof. unfold isdigit. rewrite andb_true_iff, !Z.leb_le. lia. Qed.

Lemma keycomp_enc a b : valid_key a -> valid_key b -> Z.sgn (keycomp a b) = Z.sgn (lexcmp (enc a) (enc b)).
Proof.
  intros Ha Hb. unfold keycomp, enc.
  pose proof (isdigit_spec (hd0 a)) as Da. pose proof (isdigit_spec (hd0 b)) as Db.
  destruct (isdigit (hd0 a)), (isdigit (hd0 b)); cbn [andb].
  - cbn [lexcmp]. rewrite Z.eqb_refl.
    destruct (Z.eqb_spec (Z.of_nat (length a) - Z.of_nat (length b)) 0) as [E|E]; cbn [negb].
    + rewrite (proj2 (Z.eqb_eq (Z.of_nat (length a)) _)) by lia. by apply keycomp_loop_lex.
    + by rewrite (proj2 (Z.eqb_neq (Z.of_nat (length a)) _)) by lia.
  - destruct Da as [Da _]. specialize (Da eq_refl). destruct a as [|x a]; simpl in Da; [lia|].
    assert (~ 48 <= hd0 b <= 57) by (intros H; by apply Db in H).
    rewrite keycomp_loop_lex by done. destruct b as [|y b]; cbn [lexcmp hd0] in *; [done|].
    rewrite (proj2 (Z.eqb_neq x y)), (proj2 (Z.eqb_neq 48 y)) by lia. lia.
  - destruct Db as [Db _]. specialize (Db eq_refl). destruct b as [|y b]; simpl in Db; [lia|].
    assert (~ 48 <= hd0 a <= 57) by (intros H; by apply Da in H).
    rewrite keycomp_loop_lex by done. destruct a as [|x a]; cbn [lexcmp hd0] in *; [done|].
    rewrite (proj2 (Z.eqb_neq x y)), (proj2 (Z.eqb_neq x 48)) by lia. lia.
  - by apply keycomp_loop_lex.
Qed.

Lemma enc_inj a b : enc a = enc b -> a = b.
Proof.
  unfold enc. pose proof (isdigit_spec (hd0 a)) as Da. pose proof (isdigit_spec (hd0 b)) as Db.
  destruct (isdigit (hd0 a)) eqn:Ea, (isdigit (hd0 b)) eqn:Eb; try congruence; intros E.
  - rewrite <- E in Eb. done.
  - rewrite E in Ea. done.
Qed.

Definition key_lt (a b : list Z) : Prop := lexcmp (enc a) (enc b) < 0.

Lemma keycomp_eq a b : valid_key a -> valid_key b -> keycomp a b = 0 <-> a = b.
Proof.
  intros Ha Hb. pose proof (keycomp_enc a b Ha Hb) as H. split.
  - intros E. apply enc_inj, lexcmp_eq. rewrite E in H. simpl in H. lia.
  - intros <-. rewrite (proj2 (lexcmp_eq (enc a) (enc a)) eq_refl) in H. lia.
Qed.

Lemma keycomp_lt a b : valid_key a -> valid_key b -> keycomp a b < 0 <-> key_lt a b.
Proof. intros Ha Hb. pose proof (keycomp_enc a b Ha Hb). unfold key_lt. lia. Qed.

Lemma keycomp_gt a b : valid_key a -> valid_key b -> 0 < keycomp a b <-> key_lt b a.
Proof.
  intros Ha Hb. pose proof (keycomp_enc a b Ha Hb). unfold key_lt.
  pose proof (cmp_swap_lt lexcmp (enc a) (enc b)). lia.
Qed.

#[export] Instance key_lt_trans : Transitive key_lt.
Proof.
  unfold key_lt. intros a b c H1 H2. apply (cmp_lt_le_trans lexcmp _ (enc b)); lia.
Qed.

Lemma key_lt_irrefl a : ~ key_lt a a.
Proof. unfold key_lt. rewrite (cmp_refl lexcmp). lia. Qed.

(** * Searching *)

Definition keys (subs : list bconf_node) : list (list Z) := n_key <$> subs.

(** An array of sub nodes as [node_insert] keeps it. *)
Definition subs_sorted (subs : list bconf_node) : Prop :=
  StronglySorted key_lt (keys subs) /\ Forall valid_key (keys subs).

Lemma lookup_keys subs i : keys subs !! i = n_key <$> subs !! i.
Proof. apply list_lookup_fmap. Qed.

Lemma subs_lookup_lt subs i j x y :
  subs_sorted subs -> subs !! i = Some x -> subs !! j = Some y -> (i < j)%nat ->
  key_lt (n_key x) (n_key y).
Proof.
  intros [Hs _] Hi Hj. apply (StronglySorted_lookup _ _ _ _ _ _ Hs); by rewrite lookup_keys, ?Hi, ?Hj.
Qed.

Lemma subs_valid subs i x : subs_sorted subs -> subs !! i = Some x -> valid_key (n_key x).
Proof.
  intros [_ Hv] Hi. rewrite list.Forall_forall in Hv. apply Hv.
  eapply list_elem_of_lookup_2. by rewrite lookup_keys, Hi.
Qed.

(** The two outcomes of the binary search. *)
Definition search_ok (subs : list bconf_node) (key : list Z) (r : Z + Z) : Prop :=
  match r with
  | inl i => exists n, subs !! Z.to_nat i = Some n /\ n_key n = key
  | inr no =>
    0 <= no <= Z.of_nat (length subs) /\
    (forall j n, subs !! j = Some n -> Z.of_nat j < no -> key_lt (n_key n) key) /\
    (forall j n, subs !! j = Some n -> no <= Z.of_nat j -> key_lt key (n_key n))
  end.

Lemma search_loop_spec fuel subs key no ns :
  subs_sorted subs -> valid_key key ->
  0 <= no -> no + ns <= Z.of_nat (length subs) -> 0 <= ns <= Z.of_nat fuel ->
  (forall j n, subs !! j = Some n -> Z.of_nat j < no -> key_lt (n_key n) key) ->
  (forall j n, subs !! j = Some n -> no + ns <= Z.of_nat j -> key_lt key (n_key n)) ->
  exists r, search_loop fuel subs key no ns = Some r /\ search_ok subs key r.
Proof.
  intros Hs Hk. revert no ns. induction fuel as [|fuel IH]; intros no ns H0 Hlen Hns Hlow Hhigh;
    cbn [search_loop]; destruct (Z.ltb_spec 0 ns); try lia;
    try (eexists; split; [done|]; simpl; replace ns with 0 in * by lia;
         rewrite Z.add_0_r in *; repeat split; auto; lia).
  pose proof (Z.div_mod ns 2 ltac:(lia)) as Hdm. pose proof (Z.mod_pos_bound ns 2 ltac:(lia)).
  assert ((if Z.even ns then 1 else 0) = 1 - ns mod 2) as ->.
  { rewrite Zmod_even. by destruct (Z.even ns). }
  destruct (lookup_lt_is_Some_2 subs (Z.to_nat (no + ns / 2))) as (n & Hn); [lia|].
  rewrite Hn. cbn [mbind option_bind]. pose proof (subs_valid _ _ _ Hs Hn) as Hv.
  destruct (Z.eqb_spec (keycomp (n_key n) key) 0) as [E|E].
  - eexists. split; [done|]. exists n. split; [done|]. by apply keycomp_eq.
  - destruct (Z.ltb_spec 0 (keycomp (n_key n) key)) as [Hgt|Hlt].
    + apply IH; try lia; [done|]. intros j m Hm Hj. apply (keycomp_gt _ _ Hv Hk) in Hgt.
      destruct (decide (j = Z.to_nat (no + ns / 2))) as [->|]; [by simplify_eq|].
      etrans; [exact Hgt|]. eapply (subs_lookup_lt subs); eauto. lia.
    + assert (key_lt (n_key n) key) as Hk' by (apply keycomp_lt; [done|done|lia]).
      apply IH; try lia.
      * intros j m Hm Hj. destruct (decide (j = Z.to_nat (no + ns / 2))) as [->|]; [by simplify_eq|].
        etrans; [|exact Hk']. eapply (subs_lookup_lt subs); eauto. lia.
      * intros j m Hm Hj. apply (Hhigh j m Hm). lia.
Qed.

Lemma search_spec subs key :
  subs_sorted subs -> valid_key key ->
  exists r, search subs key = Some r /\ search_ok subs key r.
Proof.
  intros Hs Hk. apply search_loop_spec; try done; try lia.
  intros j n Hj Hge. apply lookup_lt_Some in Hj. lia.
Qed.

Lemma search_ok_absent subs key no : search_ok subs key (inr no) -> key ∉ keys subs.
Proof.
  intros (Hno & Hlow & Hhigh) [j Hj]%list_elem_of_lookup.
  rewrite lookup_keys in Hj. destruct (subs !! j) as [n|] eqn:Hn; [|done]. injection Hj as E.
  destruct (decide (Z.of_nat j < no)).
  - apply (key_lt_irrefl key). rewrite <- E at 1. by apply (Hlow j).
  - apply (key_lt_irrefl key). rewrite <- E at 2. apply (Hhigh j); [done|lia].
Qed.

(** * Well-formed trees *)

Inductive node_ok (n : bconf_node) : Prop := mk_node_ok {
  ok_sorted : subs_sorted (n_subs n);
  ok_star : n_star n = true <-> star_key ∈ keys (n_subs n);
  ok_list : n_subs n <> [] -> n_type n = NODE_LIST;
  ok_value : is_Some (n_value n) <-> n_type n = NODE_VAL \/ n_type n = NODE_BIN;
  ok_subs : Forall node_ok (n_subs n)
}.

Lemma node_ok_leaf key t v :
  (is_Some v <-> t = NODE_VAL \/ t = NODE_BIN) -> node_ok (mk_node key t v false []).
Proof.
  intros Hv. split; simpl; try done.
  - split; constructor.
  - split; [done|]. by intros ?%not_elem_of_nil.
Qed.

Lemma new_node_ok key : node_ok (new_node key).
Proof. apply node_ok_leaf. split; [by intros []|by intros [|]]. Qed.

(** The sub node with a given key. *)
Definition child (n : bconf_node) (k : list Z) : option bconf_node :=
  snd <$> list_find (fun m => n_key m = k) (n_subs n).

Lemma keys_NoDup subs : subs_sorted subs -> NoDup (keys subs).
Proof.
  intros [Hs _]. induction Hs as [|k l Hs IH Hk]; constructor; [|done].
  rewrite list.Forall_forall in Hk. intros Hin%Hk. by apply key_lt_irrefl in Hin.
Qed.

Lemma child_lookup n k i c :
  subs_sorted (n_subs n) -> n_subs n !! i = Some c -> n_key c = k -> child n k = Some c.
Proof.
  intros Hs Hi Hk. unfold child.
  assert (list_find (fun m => n_key m = k) (n_subs n) = Some (i, c)) as ->; [|done].
  apply list_find_Some. split; [done|]. split; [done|]. intros j m Hj Hlt Hm.
  pose proof (subs_lookup_lt _ _ _ _ _ Hs Hj Hi Hlt) as H.
  rewrite Hm, Hk in H. by apply key_lt_irrefl in H.
Qed.

Lemma child_Some n k c : child n k = Some c -> exists i, n_subs n !! i = Some c /\ n_key c = k.
Proof.
  unfold child. destruct (list_find _ _) as [[i m]|] eqn:E; [|done]. intros [= ->].
  apply list_find_Some in E as (Hi & Hk & _). eauto.
Qed.

Lemma child_None n k : child n k = None <-> k ∉ keys (n_subs n).
Proof.
  unfold child. destruct (list_find _ _) as [[i m]|] eqn:E; simpl.
  - apply list_find_Some in E as (Hi & Hk & _). split; [done|]. intros H. exfalso. apply H.
    eapply list_elem_of_lookup_2. by rewrite lookup_keys, Hi, <- Hk.
  - apply list_find_None in E. split; [|done]. intros _ (m & -> & Hm)%list_elem_of_fmap.
    rewrite list.Forall_forall in E. by apply (E m).
Qed.

Lemma child_ok n k c : node_ok n -> child n k = Some c -> node_ok c.
Proof.
  intros [_ _ _ _ Hsub] (i & Hi & _)%child_Some. rewrite list.Forall_forall in Hsub.
  apply Hsub. by eapply list_elem_of_lookup_2.
Qed.

Lemma node_search_spec n k :
  node_ok n -> valid_key k ->
  exists r, node_search n k = Some r /\
    match r with
    | Some i => exists c, n_subs n !! i = Some c /\ n_key c = k /\ child n k = Some c
    | None => child n k = None
    end.
Proof.
  intros Hok Hk. unfold node_search. destruct (decide (n_type n = NODE_LIST)) as [Ht|Ht].
  - destruct (search_spec (n_subs n) k (ok_sorted _ Hok) Hk) as ([i|no] & -> & Hr); simpl.
    + destruct Hr as (c & Hc & E). eexists. split; [done|]. exists c. split; [done|].
      split; [done|]. by apply (child_lookup n k (Z.to_nat i)); [apply Hok|..].
    + eexists. split; [done|]. by apply child_None, (search_ok_absent _ _ no).
  - eexists. split; [done|]. simpl. unfold child.
    destruct (n_subs n) as [|m l] eqn:E; [done|]. exfalso. apply Ht, (ok_list _ Hok). by rewrite E.
Qed.

(** ** Replacing and inserting sub nodes *)

Lemma keys_insert subs i c c' :
  subs !! i = Some c -> n_key c' = n_key c -> keys (<[i := c']> subs) = keys subs.
Proof.
  intros Hi E. unfold keys. rewrite list_fmap_insert. apply list_insert_id.
  by rewrite list_lookup_fmap, Hi, E.
Qed.

Lemma subs_sorted_keys subs subs' : keys subs' = keys subs -> subs_sorted subs -> subs_sorted subs'.
Proof. unfold subs_sorted. by intros ->. Qed.

Lemma set_sub_ok n i c c' :
  node_ok n -> n_subs n !! i = Some c -> n_key c' = n_key c -> node_ok c' -> node_ok (set_sub n i c').
Proof.
  intros [Hs Hstar Hl Hv Hsub] Hi E Hc'. pose proof (keys_insert _ _ _ _ Hi E) as Hkeys.
  split; simpl.
  - by apply (subs_sorted_keys (n_subs n)).
  - by rewrite Hkeys.
  - intros _. apply Hl. intros Hnil. by rewrite Hnil in Hi.
  - done.
  - by apply Forall_insert.
Qed.

Lemma child_set_sub n i c c' k :
  subs_sorted (n_subs n) -> n_subs n !! i = Some c -> n_key c' = n_key c ->
  child (set_sub n i c') k = if decide (k = n_key c) then Some c' else child n k.
Proof.
  intros Hs Hi E. assert (subs_sorted (n_subs (set_sub n i c'))) as Hs'.
  { simpl. by apply (subs_sorted_keys (n_subs n)), Hs; eapply keys_insert. }
  destruct (decide (k = n_key c)) as [->|Hne].
  - apply (child_lookup _ _ i); [done| |done]. simpl. apply list_lookup_insert_eq.
    by eapply lookup_lt_Some.
  - destruct (child n k) as [d|] eqn:Hd.
    + apply child_Some in Hd as (j & Hj & Hk). apply (child_lookup _ _ j); [done| |done].
      simpl. rewrite list_lookup_insert_ne; [done|]. intros ->. congruence.
    + apply child_None. simpl. rewrite (keys_insert _ _ _ _ Hi E). by apply child_None.
Qed.

Lemma insert_sorted subs i n :
  subs_sorted subs -> valid_key (n_key n) ->
  (forall m, m ∈ take i subs -> key_lt (n_key m) (n_key n)) ->
  (forall m, m ∈ drop i subs -> key_lt (n_key n) (n_key m)) ->
  subs_sorted (take i subs ++ n :: drop i subs).
Proof.
  intros [Hs Hv] Hn Hlow Hhigh. unfold subs_sorted, keys in *. rewrite fmap_app. simpl.
  rewrite <- (take_drop i subs), fmap_app in Hs, Hv. apply Forall_app in Hv as [Hv1 Hv2]. split.
  - apply (StronglySorted_mid key_lt). apply StronglySorted_app in Hs as (_ & Hs1 & Hs2).
    repeat split; [done|done|..].
    + intros k (m & -> & Hm)%list_elem_of_fmap. by apply Hlow.
    + intros k (m & -> & Hm)%list_elem_of_fmap. by apply Hhigh.
  - apply Forall_app. split; [done|]. by constructor.
Qed.

Lemma node_insert_spec n m :
  node_ok n -> is_list n = true -> node_ok m -> valid_key (n_key m) -> child n (n_key m) = None ->
  exists i n', node_insert n m = Some (i, n') /\ node_ok n' /\ n_key n' = n_key n /\
    n_type n' = NODE_LIST /\ n_value n' = n_value n /\ n_subs n' !! i = Some m /\
    forall k, child n' k = if decide (k = n_key m) then Some m else child n k.
Proof.
  intros Hok Hl Hm Hk Hnone. unfold node_insert.
  destruct (search_spec (n_subs n) (n_key m) (ok_sorted _ Hok) Hk) as ([i|no] & -> & Hr); simpl.
  { destruct Hr as (c & Hc & E). apply child_None in Hnone. exfalso. apply Hnone.
    eapply list_elem_of_lookup_2. by rewrite lookup_keys, Hc, <- E. }
  destruct Hr as (Hno & Hlow & Hhigh). set (i := Z.to_nat no).
  set (subs' := take i (n_subs n) ++ m :: drop i (n_subs n)).
  assert (subs_sorted subs') as Hsorted.
  { apply insert_sorted; [apply Hok|done| |].
    - intros x [j Hj]%list_elem_of_lookup. apply lookup_take_Some in Hj as [Hj Hlt].
      apply (Hlow j); [done|lia].
    - intros x [j Hj]%list_elem_of_lookup. rewrite lookup_drop in Hj.
      apply (Hhigh _ _ Hj). lia. }
  assert (i <= length (n_subs n))%nat as Hi by lia.
  assert (subs' !! i = Some m) as Hmi.
  { unfold subs'. rewrite lookup_app_r by (rewrite length_take; lia).
    by rewrite length_take, Nat.min_l, Nat.sub_diag by lia. }
  assert (forall x, x ∈ subs' <-> x = m \/ x ∈ n_subs n) as Helem.
  { intros x. unfold subs'. rewrite elem_of_app, elem_of_cons.
    rewrite <- (take_drop i (n_subs n)) at 3. rewrite elem_of_app. tauto. }
  eexists i, _. split; [done|]. simpl. fold subs'. split; [|split; [done|split; [done|split; [done|split; [done|]]]]].
  - split; simpl; fold subs'.
    + done.
    + rewrite orb_true_iff, bool_decide_eq_true, (ok_star _ Hok). unfold keys.
      rewrite !list_elem_of_fmap. setoid_rewrite Helem. split.
      * intros [E|(x & E & Hx)]; [exists m|exists x]; auto.
      * intros (x & E & [->|Hx]); [by left|right; by exists x].
    + done.
    + pose proof (ok_value _ Hok) as Hv. unfold is_list in Hl.
      destruct (n_type n); try done; rewrite Hv; by split; intros [].
    + apply list.Forall_forall. intros x [->|Hx]%Helem; [done|].
      pose proof (ok_subs _ Hok) as Hsub. rewrite list.Forall_forall in Hsub. auto.
  - intros k. destruct (decide (k = n_key m)) as [->|Hne].
    + by apply (child_lookup _ _ i).
    + destruct (child n k) as [d|] eqn:Hd.
      * apply child_Some in Hd as (j & Hj & E).
        assert (d ∈ subs') as [j' Hj']%list_elem_of_lookup
          by (apply Helem; right; by eapply list_elem_of_lookup_2).
        by apply (child_lookup _ _ j').
      * apply child_None. apply child_None in Hd. unfold keys in *. simpl. fold subs'.
        rewrite list_elem_of_fmap. setoid_rewrite Helem. intros (x & -> & [->|Hx]); [done|].
        apply Hd. by apply list_elem_of_fmap_2.
Qed.

(** The sub node [bconf_get_node] finds or makes, and what storing to it does. *)
Lemma bconf_get_node_spec n k :
  node_ok n -> is_list n = true -> valid_key k ->
  exists i n1 c, bconf_get_node n k = Some (Added (i, n1)) /\
    n_subs n1 !! i = Some c /\ c = default (new_node k) (child n k) /\ n_key c = k /\ node_ok c /\
    n_type n1 = NODE_LIST /\ n_key n1 = n_key n /\
    forall c', n_key c' = k -> node_ok c' ->
      node_ok (set_sub n1 i c') /\
      forall k', child (set_sub n1 i c') k' = if decide (k' = k) then Some c' else child n k'.
Proof.
  intros Hok Hl Hk. unfold bconf_get_node. rewrite Hl.
  destruct (node_search_spec n k Hok Hk) as (r & -> & Hr). cbn [mbind option_bind].
  destruct r as [i|].
  - destruct Hr as (c & Hi & Hkc & Hc). exists i, n, c. split; [done|]. split; [done|].
    split; [by rewrite Hc|]. split; [done|]. split; [by eapply child_ok|].
    split; [apply (ok_list _ Hok); intros E; by rewrite E in Hi|]. split; [done|].
    intros c' Hk' Hc'. split; [by eapply set_sub_ok; eauto; congruence|].
    intros k'. rewrite (child_set_sub n i c c') by (apply Hok || congruence). by rewrite Hkc.
  - destruct (node_insert_spec n (new_node k)) as (i & n1 & -> & Hok1 & Hk1 & Ht1 & _ & Hi & Hch);
      [done|done|apply new_node_ok|done|done|].
    cbn [mbind option_bind]. exists i, n1, (new_node k). split; [done|]. split; [done|].
    split; [by rewrite Hr|]. split; [done|]. split; [apply new_node_ok|]. split; [done|].
    split; [done|]. intros c' Hk' Hc'. split; [by eapply set_sub_ok|].
    intros k'. rewrite (child_set_sub n1 i (new_node k) c') by (apply Hok1 || done). simpl.
    rewrite Hch. simpl. by destruct (decide (k' = k)).
Qed.

(** * A tree as a map from paths to values *)

(** The value a node holds itself, and whether it is the caller's. *)
Definition data (n : bconf_node) : option (node_type * list Z) :=
  match n_type n with
  | NODE_VAL | NODE_BIN => v ← n_value n; Some (n_type n, v)
  | _ => None
  end.

Fixpoint find_path (n : bconf_node) (path : list (list Z)) : option bconf_node :=
  match path with
  | [] => Some n
  | k :: path => c ← child n k; find_path c path
  end.

Definition value_at (n : bconf_node) (path : list (list Z)) : option (node_type * list Z) :=
  find_path n path ≫= data.

(** A proper prefix of the path is a value. *)
Fixpoint blocked (n : bconf_node) (path : list (list Z)) : bool :=
  match path with
  | [] => false
  | k :: path =>
    if is_list n then match child n k with Some c => blocked c path | None => false end else true
  end.

(** What is left of [q] below [path]. *)
Fixpoint below (path q : list (list Z)) : option (list (list Z)) :=
  match path, q with
  | [], _ => Some q
  | _ :: _, [] => None
  | k :: path, k' :: q => if decide (k' = k) then below path q else None
  end.

Lemma below_Some path q r : below path q = Some r <-> q = path ++ r.
Proof.
  revert q. induction path as [|k path IH]; intros [|k' q]; simpl; try (split; congruence).
  - destruct (decide (k' = k)) as [->|]; [rewrite IH|]; split; congruence.
Qed.

(** The node at the end of the path, which is new if it did not exist. *)
Definition target (n : bconf_node) (path : list (list Z)) : bconf_node :=
  match last path with
  | None => n
  | Some k => default (new_node k) (find_path n path)
  end.

Lemma value_at_cons n k path :
  value_at n (k :: path) = match child n k with Some c => value_at c path | None => None end.
Proof. unfold value_at. simpl. by destruct (child n k). Qed.

Lemma find_path_new k path : path <> [] -> find_path (new_node k) path = None.
Proof. by destruct path. Qed.

Lemma value_at_new k path : value_at (new_node k) path = None.
Proof. by destruct path. Qed.

Lemma value_at_leaf n path : n_subs n = [] -> path <> [] -> value_at n path = None.
Proof.
  intros Hs Hp. destruct path as [|k path]; [done|]. unfold value_at. simpl. unfold child.
  by rewrite Hs.
Qed.

Lemma data_list n : is_list n = true -> data n = None.
Proof. unfold is_list, data. by destruct (n_type n). Qed.

Lemma blocked_new k path : blocked (new_node k) path = false.
Proof. by destruct path. Qed.

Lemma target_cons n k path : target n (k :: path) = target (default (new_node k) (child n k)) path.
Proof.
  unfold target. destruct path as [|k' path]; [simpl; by destruct (child n k)|].
  rewrite last_cons_cons. destruct (last (k' :: path)) eqn:E; [|by apply last_None in E].
  simpl. by destruct (child n k).
Qed.

(** ** Adding along a path *)

Lemma bconf_lookup_addv_spec {R} (f : bconf_node -> option (R * bconf_node)) path n r t' :
  node_ok n -> Forall valid_key path -> blocked n path = false ->
  f (target n path) = Some (r, t') -> n_key t' = n_key (target n path) ->
  (node_ok (target n path) -> node_ok t') ->
  exists n', bconf_lookup_addv n path f = Some (Added (r, n')) /\ node_ok n' /\ n_key n' = n_key n /\
    forall q, value_at n' q = match below path q with Some q' => value_at t' q' | None => value_at n q end.
Proof.
  revert n. induction path as [|k path IH]; intros n Hok Hv Hb Hf Hkey Hokt.
  { unfold target in *. simpl in *. rewrite Hf. exists t'. simpl. split; [done|]. split; [auto|]. split; [done|]. by intros []. }
  apply Forall_cons in Hv as [Hvk Hv]. cbn [blocked] in Hb.
  destruct (is_list n) eqn:Hl; [|done].
  rewrite target_cons in Hf, Hkey, Hokt.
  destruct (bconf_get_node_spec n k Hok Hl Hvk)
    as (i & n1 & c & Hget & Hi & Hc & Hkc & Hokc & Ht1 & Hk1 & Hset).
  cbn [bconf_lookup_addv]. rewrite Hget. cbn [mbind option_bind]. rewrite Hi. cbn [mbind option_bind].
  rewrite <- Hc in Hf, Hkey, Hokt.
  destruct (IH c) as (c' & Hadd & Hokc' & Hkc' & Hval); [done|done| |done|done|done|].
  { rewrite Hc. destruct (child n k); [done|apply blocked_new]. }
  rewrite Hadd. cbn [mbind option_bind]. destruct (Hset c') as [Hok' Hch]; [congruence|done|].
  eexists. split; [done|]. split; [done|]. split; [done|].
  intros [|k' q]; cbn [below].
  - unfold value_at. simpl. rewrite (data_list n Hl). unfold data. simpl. by rewrite Ht1.
  - rewrite !value_at_cons, Hch. destruct (decide (k' = k)) as [->|]; [|done].
    rewrite Hval. destruct (below path q); [done|]. subst c. destruct (child n k); [done|].
    simpl. apply value_at_new.
Qed.

Lemma bconf_lookup_addv_blocked {R} (f : bconf_node -> option (R * bconf_node)) path n :
  node_ok n -> Forall valid_key path -> blocked n path = true ->
  bconf_lookup_addv n path f = Some Conflict.
Proof.
  revert n. induction path as [|k path IH]; intros n Hok Hv Hb; [done|].
  apply Forall_cons in Hv as [Hvk Hv]. cbn [blocked] in Hb. cbn [bconf_lookup_addv].
  destruct (is_list n) eqn:Hl; [|unfold bconf_get_node; by rewrite Hl].
  destruct (bconf_get_node_spec n k Hok Hl Hvk)
    as (i & n1 & c & Hget & Hi & Hc & Hkc & Hokc & _).
  rewrite Hget. cbn [mbind option_bind]. rewrite Hi. cbn [mbind option_bind].
  destruct (child n k) as [d|] eqn:Hd; [|done]. simpl in Hc. subst d.
  by rewrite (IH c).
Qed.

(** Nothing is below a value. *)
Lemma blocked_target n path : node_ok n -> blocked n path = true -> data (target n path) = None.
Proof.
  revert n. induction path as [|k path IH]; intros n Hok Hb; [done|]. rewrite target_cons. cbn [blocked] in Hb.
  destruct (child n k) as [c|] eqn:Hc; simpl.
  - destruct (is_list n) eqn:Hl; [apply IH; [by eapply child_ok|done]|]. exfalso.
    apply child_Some in Hc as (i & Hi & _). unfold is_list in Hl.
    rewrite (ok_list _ Hok) in Hl; [done|]. intros E. by rewrite E in Hi.
  - unfold target. destruct (last path); [by destruct path|done].
Qed.

Lemma bconf_lookup_addv_undefined {R} (f : bconf_node -> option (R * bconf_node)) path n :
  node_ok n -> Forall valid_key path -> blocked n path = false -> f (target n path) = None ->
  bconf_lookup_addv n path f = None.
Proof.
  revert n. induction path as [|k path IH]; intros n Hok Hv Hb Hf; [unfold target in Hf; simpl in *; by rewrite Hf|].
  apply Forall_cons in Hv as [Hvk Hv]. cbn [blocked] in Hb. destruct (is_list n) eqn:Hl; [|done].
  rewrite target_cons in Hf. cbn [bconf_lookup_addv].
  destruct (bconf_get_node_spec n k Hok Hl Hvk) as (i & n1 & c & -> & Hi & Hc & _ & Hokc & _).
  cbn [mbind option_bind]. rewrite Hi. cbn [mbind option_bind]. rewrite <- Hc in Hf. rewrite IH; [done..| |done].
  rewrite Hc. destruct (child n k); [done|apply blocked_new].
Qed.

(** ** Adding a value *)

Definition dup_type (dup : dup_mode) : node_type :=
  match dup with BCONF_REF => NODE_BIN | _ => NODE_VAL end.

Definition can_add (n : bconf_node) (path : list (list Z)) (dup : dup_mode) : Prop :=
  blocked n path = false /\ n_type (target n path) <> NODE_LIST /\
  (dup = BCONF_DUP -> n_type (target n path) <> NODE_BIN).

Lemma set_data_ok n t v :
  node_ok n -> n_type n <> NODE_LIST -> t = NODE_VAL \/ t = NODE_BIN -> node_ok (set_data n t (Some v)).
Proof.
  intros [Hs Hstar Hl Hv Hsub] Ht Htv. split; simpl; try done.
  intros Hne. by apply Hl in Hne.
Qed.

Lemma leaf_subs n : node_ok n -> n_type n <> NODE_LIST -> n_subs n = [].
Proof.
  intros Hok Ht. destruct (n_subs n) eqn:E; [done|]. exfalso. apply Ht, (ok_list _ Hok). by rewrite E.
Qed.

(** The return value: 1 when the value was there already, 0 when it changed. *)
Definition add_ret (r : Z) (old : option (node_type * list Z)) (v : list Z) (dup : dup_mode) : Prop :=
  let same := old = Some (NODE_VAL, v) /\ dup <> BCONF_REF in
  (r = 1 /\ same) \/ (r = 0 /\ ~ same).

Lemma bconf_add_dataX_spec n v dup :
  node_ok n -> n_type n <> NODE_LIST -> (dup = BCONF_DUP -> n_type n <> NODE_BIN) ->
  exists r, bconf_add_dataX n (Some v) dup = Some (r, set_data n (dup_type dup) (Some v)) /\
    add_ret r (data n) v dup.
Proof.
  intros Hok Ht Hd. unfold bconf_add_dataX, data, add_ret. pose proof (ok_value _ Hok) as Hv.
  destruct (n_type n) eqn:E; try done.
  - exists 0. split; [by destruct dup|]. right. split; [done|]. by intros [].
  - destruct (n_value n) as [old|] eqn:Eo; [|exfalso; destruct (proj2 Hv); auto; done].
    destruct (decide (old = v)) as [->|Hne].
    + exists (match dup with BCONF_REF => 0 | _ => 1 end). destruct dup; simpl.
      * split; [done|]. right. split; [done|]. by intros [].
      * split; [|by left]. rewrite decide_True by done. by destruct (length v <=? length v)%nat.
      * split; [|by left]. by rewrite decide_True.
    + exists 0. split; [|right; split; [done|intros [[= ?] _]; done]].
      destruct dup; simpl; rewrite ?decide_False by done; try done.
      by destruct (length v <=? length old)%nat.
  - exists 0. split; [|right; split; [done|]].
    + destruct dup; [done|by destruct Hd|done].
    + simpl. destruct (n_value n); by intros [].
Qed.

Lemma target_key n path : n_key (target n path) = default (n_key n) (last path).
Proof.
  revert n. induction path as [|k path IH]; intros n; [done|].
  rewrite target_cons, IH. destruct path as [|k' path].
  - simpl. destruct (child n k) as [c|] eqn:Hc; [|done]. apply child_Some in Hc as (? & _ & Hk). done.
  - rewrite last_cons_cons. destruct (last (k' :: path)) eqn:E; [done|]. by apply last_None in E.
Qed.

Lemma target_ok n path : node_ok n -> node_ok (target n path).
Proof.
  revert n. induction path as [|k path IH]; intros n Hok; [done|].
  rewrite target_cons. apply IH. destruct (child n k) as [c|] eqn:Hc; [by eapply child_ok|].
  apply new_node_ok.
Qed.

Lemma value_at_target n path : value_at n path = data (target n path).
Proof.
  revert n. induction path as [|k path IH]; intros n; [done|].
  rewrite value_at_cons, target_cons. destruct (child n k) as [c|]; [apply IH|].
  simpl. by rewrite <- IH, value_at_new.
Qed.

Lemma value_at_below n path q :
  value_at n (path ++ q) = value_at (target n path) q.
Proof.
  revert n. induction path as [|k path IH]; intros n; [done|]. simpl.
  rewrite value_at_cons, target_cons. destruct (child n k) as [c|]; [apply IH|].
  simpl. rewrite <- IH. by rewrite value_at_new.
Qed.

(** Storing a value at the target changes that path alone. *)
Lemma bconf_set_target root path v dup r t :
  let n := root_or_new root in
  node_ok n -> Forall valid_key path -> blocked n path = false -> n_type (target n path) <> NODE_LIST ->
  t = NODE_VAL \/ t = NODE_BIN ->
  bconf_add_dataX (target n path) (Some v) dup = Some (r, set_data (target n path) t (Some v)) ->
  exists n', bconf_add_datav_canfail root path v dup = Some (r, n') /\ node_ok n' /\
    forall q, value_at n' q = if decide (q = path) then Some (t, v) else value_at n q.
Proof.
  intros n Hok Hv Hb Ht Htv HX.
  destruct (bconf_lookup_addv_spec (fun m => bconf_add_dataX m (Some v) dup) path n r
    (set_data (target n path) t (Some v))) as (n' & Hadd & Hok' & _ & Hval);
    [done|done|done|done|done| |].
  { intros Hokt. by apply set_data_ok. }
  unfold bconf_add_datav_canfail. fold n. rewrite Hadd. exists n'. split; [done|].
  split; [done|]. intros q. rewrite Hval. destruct (below path q) as [q'|] eqn:Hq.
  - apply below_Some in Hq. destruct q' as [|k q'].
    + rewrite app_nil_r in Hq. rewrite decide_True by done. by destruct Htv as [-> | ->].
    + rewrite decide_False by (intros E; apply (f_equal length) in E; rewrite Hq, length_app in E;
        simpl in E; lia).
      rewrite Hq, value_at_below, !value_at_leaf; [done| |done| |done];
        simpl; apply leaf_subs; auto using target_ok.
  - rewrite decide_False; [done|]. intros ->.
    pose proof (proj2 (below_Some path path [])) as H. rewrite app_nil_r in H.
    rewrite H in Hq by done. done.
Qed.

Lemma bconf_add_datav_canfail_spec root path v dup :
  let n := root_or_new root in
  node_ok n -> Forall valid_key path -> can_add n path dup ->
  exists r n', bconf_add_datav_canfail root path v dup = Some (r, n') /\ node_ok n' /\
    add_ret r (value_at n path) v dup /\
    forall q, value_at n' q = if decide (q = path) then Some (dup_type dup, v) else value_at n q.
Proof.
  intros n Hok Hv (Hb & Ht & Hd).
  destruct (bconf_add_dataX_spec (target n path) v dup) as (r & HX & Hr);
    [by apply target_ok|done|done|].
  destruct (bconf_set_target root path v dup r (dup_type dup)) as (n' & E & Hok' & Hval);
    [done..|destruct dup; simpl; auto|done|].
  exists r, n'. split; [done|]. split; [done|]. split; [by rewrite value_at_target|done].
Qed.

(** Copying a string over binary data overwrites the data if it is long enough, and else
    frees memory that is not the tree's. *)
Lemma bconf_add_over_binary root path v old :
  let n := root_or_new root in
  node_ok n -> Forall valid_key path -> blocked n path = false -> value_at n path = Some (NODE_BIN, old) ->
  if decide (length v <= length old)%nat
  then exists n', bconf_add_datav_canfail root path v BCONF_DUP = Some (0, n') /\ node_ok n' /\
         forall q, value_at n' q = if decide (q = path) then Some (NODE_BIN, v) else value_at n q
  else bconf_add_datav_canfail root path v BCONF_DUP = None.
Proof.
  intros n Hok Hv Hb Hval. rewrite value_at_target in Hval. unfold data in Hval.
  destruct (n_type (target n path)) eqn:Ht; simplify_option_eq.
  - apply bconf_set_target; [done|done|done|fold n; congruence|by right|].
    unfold bconf_add_dataX. fold n. rewrite Ht. simpl.
    destruct (n_value (target n path)); simplify_eq/=. by rewrite (proj2 (Nat.leb_le _ _)).
  - unfold bconf_add_datav_canfail. fold n. rewrite bconf_lookup_addv_undefined; [done..|].
    unfold bconf_add_dataX. rewrite Ht. simpl.
    destruct (n_value (target n path)); simplify_eq/=. by rewrite (proj2 (Nat.leb_gt _ _)) by lia.
Qed.

(** A conflict is reported and changes no value. *)
Lemma bconf_add_datav_conflict root path v dup :
  let n := root_or_new root in
  node_ok n -> Forall valid_key path ->
  blocked n path = true \/ n_type (target n path) = NODE_LIST ->
  exists n', bconf_add_datav_canfail root path v dup = Some (-1, n') /\ node_ok n' /\
    forall q, value_at n' q = value_at n q.
Proof.
  intros n Hok Hv Hconf. unfold bconf_add_datav_canfail. fold n.
  destruct (blocked n path) eqn:Hb.
  { rewrite bconf_lookup_addv_blocked by done. by exists n. }
  destruct Hconf as [?|Ht]; [done|].
  assert (bconf_add_dataX (target n path) (Some v) dup = Some (-1, target n path)) as HX
    by (unfold bconf_add_dataX; by rewrite Ht).
  destruct (bconf_lookup_addv_spec (fun m => bconf_add_dataX m (Some v) dup) path n _ _ Hok Hv Hb HX) as (n' & -> & Hok' & _ & Hval); [done..|].
  exists n'. split; [done|]. split; [done|]. intros q. rewrite Hval.
  destruct (below path q) as [q'|] eqn:Hq; [|done].
  apply below_Some in Hq as ->. by rewrite value_at_below.
Qed.

(** * Looking up *)

(** The node of a path, where "*" stands for any key that is not present. *)
Fixpoint find_star (n : bconf_node) (path : list (list Z)) : option bconf_node :=
  match path with
  | [] => Some n
  | k :: path =>
    match child n k with
    | Some c => find_star c path
    | None => s ← child n star_key; find_star s path
    end
  end.

Lemma star_child n : node_ok n -> star n = child n star_key.
Proof.
  intros Hok. unfold star. destruct (n_star n) eqn:E.
  - unfold child. by destruct (list_find _ _) as [[]|].
  - symmetry. apply child_None. intros H%(ok_star _ Hok). congruence.
Qed.

Lemma get_loop_spec n path :
  node_ok n -> Forall valid_key path -> get_loop n path = Some (find_star n path).
Proof.
  revert n. induction path as [|k path IH]; intros n Hok Hv; [done|].
  apply Forall_cons in Hv as [Hvk Hv]. cbn [get_loop find_star].
  destruct (node_search_spec n k Hok Hvk) as (r & -> & Hr). cbn [mbind option_bind].
  destruct r as [i|].
  - destruct Hr as (c & Hi & _ & Hc). rewrite Hi, Hc. apply IH; [by eapply child_ok|done].
  - rewrite Hr, star_child by done. destruct (child n star_key) as [s|] eqn:Hs; [|done].
    apply IH; [by eapply child_ok|done].
Qed.

Lemma find_star_exact n path m : find_path n path = Some m -> find_star n path = Some m.
Proof.
  revert n. induction path as [|k path IH]; intros n; simpl; [done|].
  destruct (child n k) as [c|]; [apply IH|done].
Qed.

Lemma valid_split key : valid_key key -> Forall valid_key (split_dots key).
Proof.
  unfold valid_key. induction 1 as [|c key Hc Hk IH]; simpl; [repeat constructor|].
  destruct (c =? 46); [by constructor; [constructor|]|].
  destruct (split_dots key) as [|p ps]; [by apply Forall_singleton, Forall_singleton|].
  apply Forall_cons in IH as [Hp Hps]. constructor; [by constructor|done].
Qed.

(** Joining the parts gives the key back. *)
Fixpoint join_dots (parts : list (list Z)) : list Z :=
  match parts with
  | [] => []
  | [p] => p
  | p :: ps => p ++ 46 :: join_dots ps
  end.

Lemma split_dots_ne key : split_dots key <> [].
Proof. destruct key as [|c key]; simpl; [done|]. by destruct (c =? 46), (split_dots key). Qed.

Lemma join_split key : join_dots (split_dots key) = key.
Proof.
  induction key as [|c key IH]; simpl; [done|]. pose proof (split_dots_ne key).
  destruct (Z.eqb_spec c 46) as [->|].
  - destruct (split_dots key); [done|]. by rewrite <- IH.
  - destruct (split_dots key) as [|p [|p' ps]]; [done|..]; simpl in *; by rewrite <- IH.
Qed.

Lemma find_path_value n path t v :
  value_at n path = Some (t, v) -> exists m, find_path n path = Some m /\ n_value m = Some v /\ n_type m = t.
Proof.
  unfold value_at. destruct (find_path n path) as [m|]; [|done]. simpl. unfold data.
  intros H. exists m. split; [done|].
  destruct (n_type m); try done; destruct (n_value m); simplify_eq/=; done.
Qed.

(** ** Validating a key *)

Lemma validate_loop_spec n path :
  node_ok n -> Forall valid_key path ->
  exists r, validate_loop n path = Some r /\ (r = 0 \/ r = -1) /\
    (r = 0 <-> blocked n path = false /\
               n_type (target n path) <> NODE_LIST /\ n_type (target n path) <> NODE_BIN).
Proof.
  revert n. induction path as [|k path IH]; intros n Hok Hv.
  { unfold target. simpl. destruct (n_type n); eexists; (split; [done|]); (split; [lia|]);
      intuition (done || lia). }
  apply Forall_cons in Hv as [Hvk Hv]. cbn [validate_loop blocked]. rewrite target_cons.
  destruct (is_list n); [|exists (-1); split; [done|]; split; [lia|]; intuition (done || lia)].
  destruct (node_search_spec n k Hok Hvk) as (r & -> & Hr). cbn [mbind option_bind].
  destruct r as [i|].
  - destruct Hr as (c & Hi & _ & Hc). rewrite Hi, Hc. cbn [mbind option_bind default].
    apply IH; [by eapply child_ok|done].
  - rewrite Hr. exists 0. split; [done|]. split; [lia|]. simpl.
    assert (n_type (target (new_node k) path) = NODE_NONE) as ->; [|done].
    clear. revert k. induction path as [|k' path IH]; intros k; [done|]. rewrite target_cons. apply IH.
Qed.

(** * Merging *)

Lemma bconf_node_ind_subs (P : bconf_node -> Prop) :
  (forall n, Forall P (n_subs n) -> P n) -> forall n, P n.
Proof.
  intros H. fix IH 1. intros [k t v s subs]. apply H. simpl.
  induction subs as [|c subs IHs]; constructor; [apply IH|exact IHs].
Qed.

(** How the merge adds a value of a given type. *)
Definition merge_dup (t : node_type) : dup_mode :=
  match t with NODE_BIN => BCONF_REF | _ => BCONF_DUP end.

(** Every value of [src] can be added to [dst]. *)
Definition compatible (dst src : bconf_node) : Prop :=
  forall path t v, value_at src path = Some (t, v) -> can_add dst path (merge_dup t).

Definition union_value (a b : option (node_type * list Z)) : option (node_type * list Z) :=
  match a with Some x => Some x | None => b end.

(** [n] is [dst] with the values of [src] added. *)
Record merged (dst src n : bconf_node) : Prop := {
  mg_ok : node_ok n;
  mg_key : n_key n = n_key dst;
  mg_value q : value_at n q = union_value (value_at src q) (value_at dst q)
}.

Lemma can_add_cons n k path dup :
  is_list n = true ->
  can_add n (k :: path) dup <-> can_add (default (new_node k) (child n k)) path dup.
Proof.
  intros Hl. unfold can_add. cbn [blocked]. rewrite Hl, target_cons.
  destruct (child n k); simpl; [done|]. by rewrite blocked_new.
Qed.

(** Adding one value directly below a list node. *)
Lemma add_datav_one n k v dup :
  node_ok n -> valid_key k -> can_add n [k] dup ->
  exists r n' c, bconf_add_datav (Some n) [k] v dup = Some (r, n') /\ node_ok n' /\
    n_key n' = n_key n /\ is_list n' = true /\
    n_subs c = [] /\ data c = Some (dup_type dup, v) /\
    forall k', child n' k' = if decide (k' = k) then Some c else child n k'.
Proof.
  intros Hok Hk Hadd. pose proof Hadd as [Hb _]. cbn [blocked] in Hb.
  destruct (is_list n) eqn:Hl; [|done]. apply (can_add_cons n k [] dup Hl) in Hadd as (_ & Ht & Hd).
  destruct (bconf_get_node_spec n k Hok Hl Hk)
    as (i & n1 & c & Hget & Hi & Hc & Hkc & Hokc & Ht1 & Hk1 & Hset).
  unfold target in Ht, Hd. simpl in Ht, Hd. rewrite <- Hc in Ht, Hd.
  destruct (bconf_add_dataX_spec c v dup Hokc Ht Hd) as (r & HX & Hr).
  destruct (Hset (set_data c (dup_type dup) (Some v))) as [Hok' Hch]; [done| |].
  { apply set_data_ok; [done|done|]. destruct dup; simpl; auto. }
  exists r, (set_sub n1 i (set_data c (dup_type dup) (Some v))), (set_data c (dup_type dup) (Some v)).
  split.
  - unfold bconf_add_datav, bconf_add_datav_canfail. cbn [bconf_lookup_addv].
    change (root_or_new (Some n)) with n. rewrite Hget. cbn [mbind option_bind]. rewrite Hi.
    cbn [mbind option_bind]. rewrite HX. cbn [mbind option_bind or_exit].
    destruct Hr as [[-> _]|[-> _]]; done.
  - split; [done|]. split; [done|]. split; [unfold is_list; simpl; by rewrite Ht1|].
    split; [simpl; by apply leaf_subs|]. split; [by destruct dup|done].
Qed.

(** The state of the loop after the sub nodes [subs] of [src]. *)
Record merged_subs (dst : bconf_node) (subs : list bconf_node) (n : bconf_node) : Prop := {
  ms_ok : node_ok n;
  ms_key : n_key n = n_key dst;
  ms_list : is_list n = true;
  ms_other k : k ∉ keys subs -> child n k = child dst k;
  ms_value s q : s ∈ subs ->
    value_at n (n_key s :: q) = union_value (value_at s q) (value_at dst (n_key s :: q))
}.

Definition merge_ok (merge : bconf_node -> bconf_node -> option (bool * bconf_node)) (src : bconf_node) : Prop :=
  forall dst, node_ok dst -> node_ok src -> is_list src = true -> compatible dst src ->
  exists r n, merge dst src = Some (r, n) /\ merged dst src n.

Lemma value_at_none s q : node_ok s -> n_type s = NODE_NONE -> value_at s q = None.
Proof.
  intros Hok Ht. destruct q as [|k q].
  - unfold value_at, data. simpl. by rewrite Ht.
  - apply value_at_leaf; [|done]. apply leaf_subs; [done|by rewrite Ht].
Qed.

Lemma merged_leaf dst s n c dup v :
  node_ok dst -> is_list dst = true -> node_ok s -> can_add dst [n_key s] dup ->
  data s = Some (dup_type dup, v) ->
  node_ok n -> n_key n = n_key dst -> is_list n = true ->
  n_subs c = [] -> data c = Some (dup_type dup, v) ->
  (forall k, child n k = if decide (k = n_key s) then Some c else child dst k) ->
  merged_subs dst [s] n.
Proof.
  intros Hokd Hl Hoks Hadd Hds Hok Hk Hln Hc Hd Hch. split; try done.
  - intros k Hk'. rewrite Hch, decide_False; [done|]. intros ->. apply Hk'. left.
  - intros s' q ->%list_elem_of_singleton. rewrite value_at_cons, Hch, decide_True by done.
    destruct q as [|k q].
    + unfold value_at. simpl. by rewrite Hd, Hds.
    + assert (n_subs s = []) as Hss
        by (apply leaf_subs; [done|]; intros E; unfold data in Hds; by rewrite E in Hds).
      rewrite (value_at_leaf c), (value_at_leaf s) by done.
      rewrite value_at_cons. destruct (child dst (n_key s)) as [d|] eqn:Ed; [|done].
      rewrite value_at_leaf; [done| |done]. apply leaf_subs; [apply (child_ok dst (n_key s)); done|].
      apply (can_add_cons dst _ [] dup Hl) in Hadd as (_ & Ht & _). rewrite Ed in Ht. exact Ht.
Qed.

(** One turn of the loop on a list node. *)
Lemma merge_turn merge dst s ret subs :
  node_ok dst -> is_list dst = true -> node_ok s -> valid_key (n_key s) -> merge_ok merge s ->
  compatible (default (new_node (n_key s)) (child dst (n_key s))) s ->
  exists ret' n1, merge_subs merge dst ret (s :: subs) = merge_subs merge n1 ret' subs /\
    merged_subs dst [s] n1.
Proof.
  intros Hok Hl Hs Hk IH Hcomp. cbn [merge_subs].
  assert (forall t v, data s = Some (t, v) -> can_add dst [n_key s] (merge_dup t)) as Hadd.
  { intros t v Hd. apply can_add_cons; [done|]. by apply (Hcomp [] t v). }
  pose proof (ok_value _ Hs) as Hval. unfold data in Hadd. destruct (n_type s) eqn:Ht.
  - exists ret, dst. split; [done|]. split; try done.
    intros s' q ->%list_elem_of_singleton. by rewrite (value_at_none s) by done.
  - destruct (n_value s) as [v|] eqn:Ev; [|exfalso; destruct (proj2 Hval); auto; done].
    specialize (Hadd NODE_VAL v eq_refl). cbn [mbind option_bind].
    destruct (add_datav_one dst (n_key s) v BCONF_DUP) as (r & n1 & c & -> & ? & ? & ? & ? & ? & ?);
      [done..|]. eexists _, n1. split; [done|].
    apply (merged_leaf dst s n1 c BCONF_DUP v); try done. unfold data. by rewrite Ht, Ev.
  - destruct (bconf_get_node_spec dst (n_key s) Hok Hl Hk)
      as (i & n1 & c & -> & Hi & Hc & Hkc & Hokc & Ht1 & Hk1 & Hset).
    cbn [mbind option_bind]. rewrite Hi. cbn [mbind option_bind]. rewrite <- Hc in Hcomp.
    destruct (IH c Hokc Hs) as (r & c' & -> & Hmg); [unfold is_list; by rewrite Ht|done|].
    destruct (Hset c') as [Hok' Hch]; [by rewrite (mg_key _ _ _ Hmg)|apply Hmg|].
    eexists _, _. split; [done|]. split; try done; [unfold is_list; simpl; by rewrite Ht1|..].
    + intros k Hk'. rewrite Hch, decide_False; [done|]. intros ->. apply Hk'. left.
    + intros s' q ->%list_elem_of_singleton. rewrite !value_at_cons, Hch, decide_True by done.
      rewrite (mg_value _ _ _ Hmg). subst c. destruct (child dst (n_key s)); [done|].
      simpl. by rewrite value_at_new.
  - destruct (n_value s) as [v|] eqn:Ev; [|exfalso; destruct (proj2 Hval); auto; done].
    specialize (Hadd NODE_BIN v eq_refl). cbn [mbind option_bind]. unfold bconf_add_bindatav.
    destruct (add_datav_one dst (n_key s) v BCONF_REF) as (r & n1 & c & -> & ? & ? & ? & ? & ? & ?);
      [done..|]. eexists _, n1. split; [done|].
    apply (merged_leaf dst s n1 c BCONF_REF v); try done. unfold data. by rewrite Ht, Ev.
Qed.

Lemma merge_subs_list merge subs dst ret :
  node_ok dst -> is_list dst = true -> NoDup (keys subs) ->
  (forall s, s ∈ subs -> node_ok s /\ valid_key (n_key s) /\ merge_ok merge s /\
    compatible (default (new_node (n_key s)) (child dst (n_key s))) s) ->
  exists r n, merge_subs merge dst ret subs = Some (r, n) /\ merged_subs dst subs n.
Proof.
  revert dst ret. induction subs as [|s subs IH]; intros dst ret Hok Hl Hnd Hall.
  { exists ret, dst. split; [done|]. split; try done. by intros s q ?%not_elem_of_nil. }
  apply NoDup_cons in Hnd as [Hs Hnd].
  destruct (Hall s) as (Hoks & Hvk & Hm & Hcomp); [left|].
  destruct (merge_turn merge dst s ret subs) as (ret' & n1 & -> & H1); [done..|].
  assert (forall s', s' ∈ subs -> n_key s' ∉ keys [s]) as Hne.
  { intros s' Hs' Hin%list_elem_of_singleton. apply Hs. rewrite <- Hin. by apply list_elem_of_fmap_2. }
  destruct (IH n1 ret') as (r & n & -> & H2); [apply H1|apply H1|done| |].
  { intros s' Hs'. destruct (Hall s') as (? & ? & ? & Hc); [by right|]. split; [done|]. split; [done|]. split; [done|].
    by rewrite (ms_other _ _ _ H1) by auto. }
  exists r, n. split; [done|]. split.
  - apply H2.
  - by rewrite (ms_key _ _ _ H2), (ms_key _ _ _ H1).
  - apply H2.
  - intros k [Hk1 Hk2]%not_elem_of_cons.
    rewrite (ms_other _ _ _ H2), (ms_other _ _ _ H1); [done|by apply not_elem_of_cons; auto using not_elem_of_nil|done].
  - intros s' q [->|Hs']%elem_of_cons.
    + rewrite value_at_cons, (ms_other _ _ _ H2), <- value_at_cons by done.
      apply (ms_value _ _ _ H1). by apply list_elem_of_singleton.
    + rewrite (ms_value _ _ _ H2) by done. f_equal.
      by rewrite !value_at_cons, (ms_other _ _ _ H1) by auto.
Qed.

(** On a value nothing is merged, as nothing may be added below it. *)
Lemma merge_subs_value merge subs dst ret :
  is_list dst = false -> (forall s, s ∈ subs -> data s = None /\ node_ok s) ->
  merge_subs merge dst ret subs = Some (ret, dst).
Proof.
  intros Hl. induction subs as [|s subs IH]; intros Hall; [done|]. cbn [merge_subs].
  destruct (Hall s) as [Hd Hok]; [left|]. pose proof (ok_value _ Hok) as Hval. unfold data in Hd.
  assert (forall s', s' ∈ subs -> data s' = None /\ node_ok s') as Hall'
    by (intros s' Hs'; apply Hall; by right).
  destruct (n_type s); [by apply IH| |unfold bconf_get_node; rewrite Hl; by apply IH|];
    destruct (n_value s); [done|exfalso; destruct (proj2 Hval); auto; done|done|
      exfalso; destruct (proj2 Hval); auto; done].
Qed.

Lemma child_of_sub n s : node_ok n -> s ∈ n_subs n -> child n (n_key s) = Some s.
Proof. intros Hok [i Hi]%list_elem_of_lookup. by apply (child_lookup n _ i); [apply Hok|..]. Qed.

Lemma sub_valid n s : node_ok n -> s ∈ n_subs n -> node_ok s /\ valid_key (n_key s).
Proof.
  intros Hok Hs. split.
  - pose proof (ok_subs _ Hok) as H. rewrite list.Forall_forall in H. auto.
  - apply list_elem_of_lookup in Hs as [i Hi]. by eapply subs_valid; [apply Hok|].
Qed.

Lemma merge_node_eq dst src : merge_node dst src = merge_subs merge_node dst false (n_subs src).
Proof. by destruct src. Qed.

Lemma merge_node_ok src : merge_ok merge_node src.
Proof.
  induction src as [src IH] using bconf_node_ind_subs. rewrite list.Forall_forall in IH.
  intros dst Hokd Hok Hl Hcomp. rewrite merge_node_eq.
  assert (forall s q, s ∈ n_subs src -> value_at src (n_key s :: q) = value_at s q) as Hsv
    by (intros s q Hs; by rewrite value_at_cons, child_of_sub).
  destruct (is_list dst) eqn:Hld.
  - destruct (merge_subs_list merge_node (n_subs src) dst false) as (r & n & -> & Hms);
      [done|done|apply keys_NoDup, Hok| |].
    { intros s Hs. destruct (sub_valid src s Hok Hs). split; [done|]. split; [done|].
      split; [by apply IH|]. intros path t v Hv. apply can_add_cons; [done|].
      apply (Hcomp _ t v). by rewrite Hsv. }
    exists r, n. split; [done|]. split; [apply Hms|apply Hms|]. intros [|k q].
    + unfold value_at. simpl. by rewrite !data_list by (done || apply Hms).
    + destruct (decide (k ∈ keys (n_subs src))) as [Hk|Hk].
      * apply list_elem_of_fmap in Hk as (s & -> & Hs). rewrite Hsv by done. by apply (ms_value _ _ _ Hms).
      * rewrite !value_at_cons, (ms_other _ _ _ Hms k Hk). apply child_None in Hk. by rewrite Hk.
  - assert (forall q, value_at src q = None) as Hnone.
    { intros q. destruct (value_at src q) as [[t v]|] eqn:Hv; [|done]. exfalso.
      destruct q as [|k q]; [unfold value_at in Hv; simpl in Hv; by rewrite data_list in Hv|].
      apply Hcomp in Hv as [Hb _]. cbn [blocked] in Hb. by rewrite Hld in Hb. }
    rewrite merge_subs_value; [|done|].
    + exists false, dst. split; [done|]. split; [done|done|]. intros q. by rewrite Hnone.
    + intros s Hs. split; [|by apply (sub_valid src)]. pose proof (Hsv s [] Hs) as E.
      rewrite Hnone in E. by symmetry in E.
Qed.

(** * Deleting *)

Lemma subs_sorted_app_inv l c r :
  subs_sorted (l ++ c :: r) -> subs_sorted (l ++ r) /\ n_key c ∉ keys (l ++ r).
Proof.
  unfold subs_sorted, keys. rewrite !fmap_app, fmap_cons. intros [Hs Hv].
  apply Forall_app in Hv as [Hv1 Hv2]. apply Forall_cons in Hv2 as [_ Hv2].
  pose proof Hs as (Hlt & Hsl & _)%StronglySorted_app.
  apply (StronglySorted_mid key_lt) in Hs as (_ & Hsr & Hl & Hr).
  split; [split; [|by apply Forall_app]|].
  - apply StronglySorted_app. split; [|done]. intros x y Hx Hy. apply Hlt; [done|by right].
  - rewrite elem_of_app. intros [H|H]; [apply Hl in H|apply Hr in H]; by apply key_lt_irrefl in H.
Qed.

Lemma delete_sub_ok n i c :
  node_ok n -> n_subs n !! i = Some c ->
  node_ok (delete_sub n i) /\ n_subs (delete_sub n i) = delete i (n_subs n) /\
  forall k, child (delete_sub n i) k = if decide (k = n_key c) then None else child n k.
Proof.
  intros Hok Hi. pose proof (take_drop_middle _ _ _ Hi) as Hmid.
  set (l := take i (n_subs n)) in *. set (r := drop (S i) (n_subs n)) in *.
  assert (n_subs (delete_sub n i) = l ++ r) as Hdel by apply delete_take_drop.
  destruct (subs_sorted_app_inv l c r) as [Hs Hnot]; [rewrite Hmid; apply Hok|].
  assert (forall x, x ∈ n_subs n <-> x = c \/ x ∈ l ++ r) as Helem.
  { intros x. rewrite <- Hmid, !elem_of_app, elem_of_cons. tauto. }
  assert (node_ok (delete_sub n i)) as Hokd.
  { split; rewrite ?Hdel; [done| | |apply Hok|].
    - simpl. rewrite andb_true_iff, negb_true_iff, bool_decide_eq_false, Hi, (ok_star _ Hok).
      unfold keys. rewrite !list_elem_of_fmap. setoid_rewrite Helem. split.
      + intros [(x & E & [->|Hx]) Hne]; [simpl in Hne; congruence|by exists x].
      + intros (x & E & Hx). split; [exists x; auto|]. intros [= E']. apply Hnot.
        rewrite E', E. by apply list_elem_of_fmap_2.
    - intros _. apply (ok_list _ Hok). intros E. by rewrite E in Hi.
    - apply list.Forall_forall. intros x Hx. apply (sub_valid n); [done|]. apply Helem. by right. }
  split; [done|]. split; [done|]. intros k.
  destruct (decide (k = n_key c)) as [->|Hne]; [apply child_None; by rewrite Hdel|].
  destruct (child n k) as [d|] eqn:Hd.
  - apply child_Some in Hd as (j & Hj & <-). apply child_of_sub; [done|]. rewrite Hdel.
    apply list_elem_of_lookup_2 in Hj. by apply Helem in Hj as [->|?].
  - apply child_None. apply child_None in Hd. rewrite Hdel. unfold keys in *.
    rewrite list_elem_of_fmap in *. intros (x & E & Hx). apply Hd. exists x. rewrite Helem. auto.
Qed.

Lemma delete_key_spec k n :
  node_ok n ->
  exists n', delete_key k n = Some (match child n k with Some _ => true | None => false end, n') /\ node_ok n' /\
    n_key n' = n_key n /\ n_type n' = n_type n /\ n_value n' = n_value n /\
    forall k', child n' k' = if decide (k' = k) then None else child n k'.
Proof.
  intros Hok. unfold delete_key, child at 1. destruct (list_find _ _) as [[i c]|] eqn:E; simpl.
  - apply list_find_Some in E as (Hi & <- & _).
    destruct (delete_sub_ok n i c Hok Hi) as (Hok' & _ & Hch). eexists. split; [done|]. done.
  - exists n. split; [done|]. repeat (split; [done|]). intros k'.
    destruct (decide (k' = k)) as [->|]; [|done]. unfold child. by rewrite E.
Qed.

(** The entries [bconf_filter_to_keys] keeps. *)
Definition kept (filter : option bconf_node) (n : bconf_node) : bool :=
  match bconf_get filter (n_key n) with Some (Some _) => true | _ => false end.

Lemma filter_loop_spec fuel n flt i ret :
  node_ok n -> (length (n_subs n) - i <= fuel)%nat ->
  (forall f, flt = Some f -> node_ok f) ->
  exists n', filter_loop fuel n flt i ret =
      Some (ret + Z.of_nat (length (drop i (n_subs n)) - length (filter (fun c => kept flt c = true) (drop i (n_subs n)))), n') /\
    node_ok n' /\ n_subs n' = take i (n_subs n) ++ filter (fun c => kept flt c = true) (drop i (n_subs n)).
Proof.
  intros Hok Hf Hflt. revert n i ret Hok Hf.
  induction fuel as [|fuel IH]; intros n i ret Hok Hf.
  - assert (n_subs n !! i = None) as Hi by (apply lookup_ge_None; lia).
    simpl. rewrite Hi, drop_ge, take_ge by lia. exists n. simpl. rewrite Z.add_0_r, app_nil_r. done.
  - cbn [filter_loop]. destruct (n_subs n !! i) as [c|] eqn:Hi.
    2: { apply lookup_ge_None in Hi. rewrite drop_ge, take_ge by lia. exists n.
         simpl. rewrite Z.add_0_r, app_nil_r. done. }
    pose proof (lookup_lt_Some _ _ _ Hi) as Hlt.
    assert (exists g, bconf_get flt (n_key c) = Some g) as [g Hg].
    { destruct flt as [f|]; [|by eexists]. eexists. apply get_loop_spec; [by apply Hflt|].
      apply valid_split. by eapply subs_valid; [apply Hok|]. }
    rewrite Hg, (drop_S _ _ _ Hi). cbn [mbind option_bind]. destruct g as [m|].
    + rewrite filter_cons_True by (unfold kept; by rewrite Hg).
      destruct (IH n (S i) ret) as (n' & -> & Hok' & Hsub); [done|lia|].
      exists n'. simpl. split; [do 2 f_equal; lia|]. split; [done|].
      rewrite Hsub, (take_S_r _ _ _ Hi), <- app_assoc. done.
    + rewrite filter_cons_False by (unfold kept; by rewrite Hg).
      destruct (delete_sub_ok n i c Hok Hi) as (Hokd & Hdel & _).
      destruct (IH (delete_sub n i) i (ret + 1)) as (n' & -> & Hok' & Hsub);
        [done|rewrite Hdel, length_delete by eauto; lia|].
      rewrite Hdel, delete_take_drop in *.
      rewrite take_app_length', drop_app_length' in * by (rewrite length_take; lia).
      exists n'. split; [|done]. simpl. do 2 f_equal.
      pose proof (length_filter (fun c => kept flt c = true) (drop (S i) (n_subs n))). lia.
Qed.

Lemma root_or_new_ok root : (forall n, root = Some n -> node_ok n) -> node_ok (root_or_new root).
Proof. destruct root; simpl; [auto|]. intros _. apply new_node_ok. Qed.

(** * Theorems *)

Section Theorems.
Context (root : option bconf_node).
Let n := root_or_new root.
Hypothesis Hok : node_ok n.

(** C7: a tree is a map from paths to values: adding a value under any path of
    nonzero bytes, whose prefixes are not values and which is not a list itself,
    sets that path alone, keeps the tree well formed (sub nodes sorted, no
    duplicates, star pointer right) and returns 1 exactly when the same value was
    there.  The exception is duplicating a string over binary data. *)
Theorem bconf_add_refines_map path v dup :
  Forall valid_key path -> can_add n path dup ->
  exists r n', bconf_add_datav_canfail root path v dup = Some (r, n') /\ node_ok n' /\
    add_ret r (value_at n path) v dup /\
    forall q, value_at n' q = if decide (q = path) then Some (dup_type dup, v) else value_at n q.
Proof. by apply bconf_add_datav_canfail_spec. Qed.

(** C12: [bconf_validate_key_conflict] answers 0 for a key exactly when no value is
    in the way of its path and neither a list nor binary data is at its end.  Then
    [bconf_add_data_canfail] stores the value under the key and changes nothing
    else, and answers 1 if the value was there and 0 if not.  For any other key the
    answer is -1.  Adding is then refused with -1 and changes no value, except over
    binary data, where it is not refused: a string that is not longer overwrites
    the data, and a longer one frees memory that is the caller's. *)
Theorem bconf_conflict_detected key v :
  valid_key key ->
  let path := split_dots key in
  exists r, bconf_validate_key_conflict root key = Some r /\
    (r = 0 <-> blocked n path = false /\ n_type (target n path) <> NODE_LIST /\
               n_type (target n path) <> NODE_BIN) /\
    ((r = 0 /\
      exists n', bconf_add_data_canfail root key v =
          Some (if decide (value_at n path = Some (NODE_VAL, v)) then 1 else 0, n') /\ node_ok n' /\
        forall q, value_at n' q = if decide (q = path) then Some (NODE_VAL, v) else value_at n q) \/
     (r = -1 /\
      exists n', bconf_add_data_canfail root key v = Some (-1, n') /\ node_ok n' /\
        forall q, value_at n' q = value_at n q) \/
     (r = -1 /\ exists old, value_at n path = Some (NODE_BIN, old) /\
      if decide (length v <= length old)%nat
      then exists n', bconf_add_data_canfail root key v = Some (0, n') /\ node_ok n' /\
             forall q, value_at n' q = if decide (q = path) then Some (NODE_BIN, v) else value_at n q
      else bconf_add_data_canfail root key v = None)).
Proof.
  intros Hk path. pose proof (valid_split key Hk) as Hv.
  destruct (validate_loop_spec n path Hok Hv) as (r & E & Hr & Hiff). exists r.
  split.
  { unfold bconf_validate_key_conflict, n, root_or_new in *. destruct root; [done|].
    simpl in E. pose proof (split_dots_ne key). unfold path in E. by destruct (split_dots key). }
  split; [rewrite Hiff; tauto|]. unfold bconf_add_data_canfail. fold path.
  destruct (decide (r = 0)) as [Hr0|Hr0].
  { left. split; [done|]. apply Hiff in Hr0 as (Hb & Ht & Hbin).
    destruct (bconf_add_datav_canfail_spec root path v BCONF_DUP Hok Hv) as (r' & n' & -> & Hok' & Hret & Hval);
      [by split|]. exists n'. split; [|done]. fold n in Hret.
    destruct (decide _) as [Es|Es], Hret as [[-> Hs]|[-> Hs]]; try done; [by destruct Hs|by destruct Hs]. }
  assert (r = -1) as -> by (destruct Hr; done). right.
  destruct (blocked n path) eqn:Hb; [left; split; [done|]; by apply bconf_add_datav_conflict; auto|].
  destruct (n_type (target n path)) eqn:Ht; try (exfalso; apply Hr0, Hiff; done).
  { left. split; [done|]. apply bconf_add_datav_conflict; auto. }
  right. split; [done|]. pose proof (ok_value _ (target_ok n path Hok)) as Hval.
  destruct (n_value (target n path)) as [old|] eqn:Eo; [|exfalso; destruct (proj2 Hval); auto; done].
  assert (value_at n path = Some (NODE_BIN, old)) as Hold by (rewrite value_at_target; unfold data; by rewrite Ht, Eo).
  exists old. split; [done|]. by apply bconf_add_over_binary.
Qed.
End Theorems.

(** [bconf_get] returns the node reached by following each part of the key,
    or the "*" node where a part is not present; it never reads outside an
    array, and an exact path wins over the star. *)
Theorem bconf_get_star n key :
  node_ok n -> valid_key key ->
  bconf_get (Some n) key = Some (find_star n (split_dots key)) /\
  (forall m, find_path n (split_dots key) = Some m -> bconf_get (Some n) key = Some (Some m)).
Proof.
  intros Hok Hk. unfold bconf_get. rewrite get_loop_spec by auto using valid_split.
  split; [done|]. intros m Hm. f_equal. by apply find_star_exact.
Qed.

(** A value added under a key with [bconf_add_data] is what
    [bconf_get_string] returns for the key, and no other key's value changes. *)
Theorem bconf_add_get root key v root' :
  node_ok (root_or_new root) -> valid_key key -> bconf_add_data root key v = Some root' ->
  n_type (target (root_or_new root) (split_dots key)) <> NODE_BIN ->
  node_ok root' /\ bconf_get_string (Some root') key = Some (Some v) /\
  forall key', key' <> key ->
    value_at root' (split_dots key') = value_at (root_or_new root) (split_dots key').
Proof.
  intros Hok Hk Hadd Hbin. pose proof (valid_split key Hk) as Hv.
  unfold bconf_add_data, bconf_add_datav in Hadd. set (n := root_or_new root) in *.
  destruct (decide (blocked n (split_dots key) = true \/ n_type (target n (split_dots key)) = NODE_LIST))
    as [Hc|Hc].
  { destruct (bconf_add_datav_conflict root (split_dots key) v BCONF_DUP) as (n' & E & _); [done..|].
    rewrite E in Hadd. done. }
  destruct (bconf_add_datav_canfail_spec root (split_dots key) v BCONF_DUP)
    as (r & n' & E & Hok' & Hr & Hval); [done|done| |].
  { split; [destruct (blocked _ _); tauto|]. split; [tauto|done]. }
  rewrite E in Hadd. assert (root' = n') as ->.
  { destruct Hr as [[-> _]|[-> _]]; simpl in Hadd; congruence. }
  split; [done|]. split.
  - pose proof (Hval (split_dots key)) as Hkv. rewrite decide_True in Hkv by done.
    apply find_path_value in Hkv as (m & Hm & Hmv & _).
    unfold bconf_get_string, bconf_get. rewrite get_loop_spec by done.
    rewrite (find_star_exact _ _ _ Hm). simpl. by rewrite Hmv.
  - intros key' Hne. rewrite Hval, decide_False; [done|]. intros E'. apply Hne.
    by rewrite <- (join_split key'), E', join_split.
Qed.

(** C10: merging a tree whose values can all be added gives, at every path, the
    value of the source if it has one and of the destination otherwise, in a well
    formed tree; into NULL it is a copy of the values. *)
Theorem bconf_merge_union dst src :
  node_ok (root_or_new dst) -> node_ok src -> is_list src = true ->
  compatible (root_or_new dst) src ->
  exists r n, bconf_merge dst (Some src) = Some (r, n) /\ node_ok n /\
    forall q, value_at n q = union_value (value_at src q) (value_at (root_or_new dst) q).
Proof.
  intros Hd Hs Hl Hc. destruct (merge_node_ok src (root_or_new dst) Hd Hs Hl Hc) as (r & n & E & [? ? ?]).
  exists r, n. split; [exact E|]. done.
Qed.

(** Deleting a key removes exactly the values at and below it and says
    whether the key was there; filtering to the keys of another tree keeps
    exactly the sub nodes that tree can look up, and counts the others. *)
Theorem bconf_delete_and_filter root path last flt :
  node_ok (root_or_new root) -> Forall valid_key path ->
  (forall f, flt = Some f -> node_ok f) ->
  (blocked (root_or_new root) path = false ->
   exists n', bconf_deletev root path last =
       Some (match child (target (root_or_new root) path) last with Some _ => true | None => false end, n') /\
     node_ok n' /\
     forall q, value_at n' q = match below (path ++ [last]) q with
                               | Some _ => None
                               | None => value_at (root_or_new root) q
                               end) /\
  (forall n, root = Some n -> n_type n = NODE_LIST ->
   exists n', bconf_filter_to_keys root flt =
       Some (Z.of_nat (length (n_subs n) - length (n_subs n')), Some n') /\ node_ok n' /\
     n_subs n' = filter (fun c => kept flt c = true) (n_subs n)).
Proof.
  intros Hok Hv Hflt. split.
  - intros Hb. destruct (delete_key_spec last (target (root_or_new root) path))
      as (t' & Ht & Hokt & Hk & Hty & Hva & Hch); [by apply target_ok|].
    unfold bconf_deletev.
    destruct (bconf_lookup_addv_spec (delete_key last) path (root_or_new root) _ t' Hok Hv Hb Ht)
      as (n' & -> & Hok' & _ & Hval); [done..|].
    exists n'. split; [done|]. split; [done|]. intros q. rewrite Hval.
    destruct (below path q) as [[|k q']|] eqn:Hq.
    + apply below_Some in Hq. rewrite app_nil_r in Hq. subst q.
      destruct (below (path ++ [last]) path) as [?|] eqn:Hq2.
      { apply below_Some, (f_equal length) in Hq2. rewrite !length_app in Hq2. simpl in Hq2. lia. }
      rewrite (value_at_target _ path). unfold value_at, data. simpl. by rewrite Hty, Hva.
    + apply below_Some in Hq. subst q. rewrite value_at_cons, Hch.
      destruct (decide (k = last)) as [->|Hne].
      * by rewrite (proj2 (below_Some _ _ q')) by (by rewrite <- app_assoc).
      * destruct (below (path ++ [last]) (path ++ k :: q')) as [?|] eqn:Hq2.
        { apply below_Some in Hq2. rewrite <- app_assoc in Hq2. apply app_inv_head in Hq2. simpl in Hq2. congruence. }
        by rewrite value_at_below, value_at_cons.
    + destruct (below (path ++ [last]) q) as [?|] eqn:Hq2; [|done].
      apply below_Some in Hq2. rewrite <- app_assoc in Hq2.
      by rewrite (proj2 (below_Some _ _ _) Hq2) in Hq.
  - intros n -> Hlist. simpl in Hok. unfold bconf_filter_to_keys. rewrite decide_True by done.
    destruct (filter_loop_spec (length (n_subs n)) n flt 0 0) as (n' & -> & Hok' & Hsub);
      [done|lia|done|]. rewrite drop_0 in *. simpl in Hsub. exists n'. simpl. by rewrite Hsub.
Qed.

(** * Findings *)

(** Duplicating a string over binary data, which belongs to the caller,
    frees that memory when the string is longer, and otherwise overwrites it and
    leaves the node marked as binary. *)
Theorem bconf_dup_over_binary :
  let root := bconf_add_bindata None (bytes "k") (bytes "bin") in
  is_Some root /\
  bconf_add_data_canfail root (bytes "k") (bytes "longer") = None /\
  exists n, bconf_add_data_canfail root (bytes "k") (bytes "ab") = Some (0, n) /\
    value_at n [bytes "k"] = Some (NODE_BIN, bytes "ab").
Proof. vm_compute. split; [by eexists|]. split; [done|]. by eexists. Qed.

(** Deleting a key whose parent does not exist adds the parent. *)
Theorem bconf_deletev_adds_parents :
  exists n, bconf_deletev None [bytes "a"; bytes "b"] (bytes "c") = Some (false, n) /\
    find_path n [bytes "a"; bytes "b"] = Some (new_node (bytes "b")).
Proof. eexists. split; [vm_compute; reflexivity|]. reflexivity. Qed.

(** * Witnesses *)

Definition sample : bconf_node :=
  default root_node (root ← bconf_add_data None (bytes "a.10") (bytes "x");
                     root ← bconf_add_data (Some root) (bytes "a.9") (bytes "y");
                     bconf_add_data (Some root) (bytes "*.z") (bytes "w")).

(** Keys are concrete in the examples. *)
Local Ltac check_keys := vm_compute; repeat constructor.

Lemma sample_ok : node_ok sample.
Proof.
  unfold sample.
  destruct (bconf_add_datav_canfail_spec None (split_dots (bytes "a.10")) (bytes "x") BCONF_DUP)
    as (r1 & n1 & E1 & Ok1 & _); [apply new_node_ok|check_keys|by vm_compute|].
  vm_compute in E1. injection E1 as <- <-.
  destruct (bconf_add_datav_canfail_spec
    (Some (default root_node (bconf_add_data None (bytes "a.10") (bytes "x"))))
    (split_dots (bytes "a.9")) (bytes "y") BCONF_DUP)
    as (r2 & n2 & E2 & Ok2 & _); [exact Ok1|check_keys|by vm_compute|].
  vm_compute in E2. injection E2 as <- <-.
  destruct (bconf_add_datav_canfail_spec
    (Some (default root_node (root ← bconf_add_data None (bytes "a.10") (bytes "x");
                              bconf_add_data (Some root) (bytes "a.9") (bytes "y"))))
    (split_dots (bytes "*.z")) (bytes "w") BCONF_DUP)
    as (r3 & n3 & E3 & Ok3 & _); [exact Ok2|check_keys|by vm_compute|].
  vm_compute in E3. injection E3 as <- <-. exact Ok3.
Qed.

Lemma bconf_add_refines_map_witness :
  exists r n', bconf_add_datav_canfail (Some sample) [bytes "a"; bytes "9"] (bytes "q") BCONF_DUP = Some (r, n') /\
    node_ok n' /\ value_at n' [bytes "a"; bytes "10"] = Some (NODE_VAL, bytes "x").
Proof.
  destruct (bconf_add_refines_map (Some sample) sample_ok [bytes "a"; bytes "9"] (bytes "q") BCONF_DUP)
    as (r & n' & E & Ok' & _ & Hv); [check_keys|by vm_compute|].
  exists r, n'. split; [done|]. split; [done|]. by rewrite Hv.
Defined.

Lemma bconf_conflict_detected_witness :
  exists r, bconf_validate_key_conflict (Some sample) (bytes "a.9.b") = Some r /\ r <> 0.
Proof.
  destruct (bconf_conflict_detected (Some sample) sample_ok (bytes "a.9.b") []) as (r & E & Hr & _);
    [check_keys|]. exists r. split; [done|]. intros [H _]%Hr. by vm_compute in H.
Defined.

Lemma bconf_get_star_witness :
  bconf_get (Some sample) (bytes "q.z") = Some (find_star sample (split_dots (bytes "q.z"))).
Proof.
  destruct (bconf_get_star sample (bytes "q.z") sample_ok) as [H _]; [check_keys|exact H].
Defined.

Lemma bconf_add_get_witness :
  exists root', bconf_add_data (Some sample) (bytes "q.z") (bytes "new") = Some root' /\
    bconf_get_string (Some root') (bytes "q.z") = Some (Some (bytes "new")).
Proof.
  eexists. split; [vm_compute; reflexivity|].
  eapply (bconf_add_get (Some sample) (bytes "q.z") (bytes "new"));
    [exact sample_ok|check_keys|vm_compute; reflexivity|by vm_compute].
Defined.

Lemma bconf_delete_and_filter_witness :
  exists n', bconf_deletev (Some sample) [bytes "a"] (bytes "9") = Some (true, n') /\ node_ok n'.
Proof.
  destruct (bconf_delete_and_filter (Some sample) [bytes "a"] (bytes "9") None sample_ok)
    as [H _]; [check_keys|done|].
  destruct H as (n' & E & Ok' & _); [by vm_compute|]. exists n'. split; [exact E|done].
Defined.

Definition overlay : bconf_node := default root_node (bconf_add_data None (bytes "b") (bytes "v")).

Lemma overlay_ok : node_ok overlay.
Proof.
  destruct (bconf_add_datav_canfail_spec None [bytes "b"] (bytes "v") BCONF_DUP)
    as (r & n & E & Hok & _); [apply new_node_ok|check_keys|by vm_compute|].
  vm_compute in E. injection E as <- <-. exact Hok.
Qed.

Lemma overlay_values path t v : value_at overlay path = Some (t, v) -> path = [bytes "b"] /\ t = NODE_VAL.
Proof.
  destruct path as [|k path]; [done|]. rewrite value_at_cons.
  destruct (child overlay k) as [c|] eqn:Hc; [|done].
  apply child_Some in Hc as ([|[|i]] & Hi & <-); vm_compute in Hi; try done. injection Hi as <-.
  destruct path as [|k' path]; [|by rewrite value_at_leaf]. vm_compute. by intros [= <- <-].
Qed.

Lemma bconf_merge_union_witness :
  exists r n, bconf_merge (Some sample) (Some overlay) = Some (r, n) /\ node_ok n /\
    value_at n [bytes "a"; bytes "9"] = Some (NODE_VAL, bytes "y") /\
    value_at n [bytes "b"] = Some (NODE_VAL, bytes "v").
Proof.
  destruct (bconf_merge_union (Some sample) overlay sample_ok overlay_ok)
    as (r & n & E & Hok & Hv); [done| |].
  - intros path t v [-> ->]%overlay_values. by vm_compute.
  - exists r, n. split; [done|]. split; [done|]. rewrite !Hv. by vm_compute.
Defined.
