(* ===== verification/BconfPrint.v ===== *)
(** BconfPrint: a configuration tree as JSON text and the walk over its values,
    the end of src/vtree/lib/bconf.c.

    The printer calls a function for every piece of text; it is modelled by the
    text that [bconf_json_bscat] appends, the indentation included. *)
From stdpp Require Import prelude list numbers.
From Stdlib Require Import ZArith Lia.
From S2P Require Import Prelude Bconf.

Local Open Scope Z_scope.
#[local] Set Warnings "-register-all".

(** * bconf_json *)

(** [bconf_json_bscat]: [depth] spaces and the text. *)
Definition pf (depth : nat) (s : list Z) : list Z := replicate depth 32 ++ s.

Definition json_hex (d : Z) : Z := if d <? 10 then 48 + d else 87 + d.

(** What is written for one byte of a value: the runs between the escapes are
    written as they are. *)
Definition bconf_escape (c : Z) : list Z :=
  if ((0 <? c) && (c <? 32)) || (c =? 34) || (c =? 92) then
    if (c =? 34) || (c =? 92) then [92; c]
    else if c =? 10 then bytes "\n"
    else bytes "\u00" ++ [json_hex (c / 16); json_hex (c mod 16)]
  else [c].

Definition bconf_json_value (value : list Z) : list Z :=
  [34] ++ concat (map bconf_escape value) ++ [34].

Definition value_of (n : bconf_node) : list Z := default [] (n_value n).

(** The sub nodes of a node at [depth]. *)
Definition json_subs (rec : bconf_node -> list Z) (depth : nat) : list bconf_node -> list Z :=
  fix go subs :=
    match subs with
    | [] => []
    | ns :: subs =>
      let sep := (if bool_decide (subs = []) then [] else [44]) ++ [10] in
      pf (S depth) ([34] ++ n_key ns ++ [34; 58; 32]) ++
      match n_type ns with
      | NODE_LIST => [123; 10] ++ rec ns ++ sep
      | NODE_VAL => bconf_json_value (value_of ns) ++ sep
      | NODE_BIN | NODE_NONE => []
      end ++ go subs
    end.

Fixpoint bconf_json_node (depth : nat) (n : bconf_node) : list Z :=
  match n_type n with
  | NODE_VAL => bconf_json_value (value_of n)
  | _ =>
    match depth with O => [123; 10] | S _ => [] end ++
    json_subs (bconf_json_node (S depth)) depth (n_subs n) ++ pf depth [125]
  end.

Definition bconf_json (n : option bconf_node) (depth : nat) : list Z :=
  match n with None => [123; 125] | Some n => bconf_json_node depth n end.

(** * bconf_foreach *)

Section Foreach.
(** The state of the callback, and the callback: its return value stops the walk
    when it is not zero. *)
Context {X : Type} (cbfun : list Z -> bconf_node -> X -> X * Z).

Definition PATH_SIZE : Z := 128.

(** [path] is the part of [state->path] before [pathidx]. *)
Definition foreach_subs (rec : bconf_node -> list Z -> X -> X * Z) (path : list Z) : list bconf_node -> X -> X * Z :=
  fix go subs x :=
    match subs with
    | [] => (x, 0)
    | ns :: subs =>
      match n_type ns with
      | NODE_LIST | NODE_VAL =>
        let new := n_key ns ++ match n_type ns with NODE_LIST => [46] | _ => [] end in
        let newidx := Z.of_nat (length new) in
        if (0 <? newidx) && (newidx <? PATH_SIZE - Z.of_nat (length path)) then
          let '(x, retval) :=
            match n_type ns with NODE_LIST => rec ns (path ++ new) x | _ => cbfun (path ++ new) ns x end in
          if negb (retval =? 0) then (x, retval) else go subs x
        else go subs x
      | _ => go subs x
      end
    end.

(** [budget] is [max_depth - depth + 1], or zero below the maximal depth. *)
Fixpoint bconf_foreach_internal (n : bconf_node) (budget : nat) (path : list Z) (x : X) {struct budget} : X * Z :=
  match budget with
  | O => (x, 0)
  | S budget => foreach_subs (fun ns path x => bconf_foreach_internal ns budget path x) path (n_subs n) x
  end.

Definition bconf_foreach (n : option bconf_node) (max_depth : nat) (x : X) : X * Z :=
  match n with None => (x, 0) | Some n => bconf_foreach_internal n (S max_depth) [] x end.
End Foreach.

(** * JSON texts *)

Inductive json :=
| JNull
| JBool (b : bool)
| JNum (s : list Z)
| JStr (s : list Z)
| JObj (members : list (list Z * json))
| JArr (elements : list json).

Definition is_hex (c v : Z) : Prop := (48 <= c <= 57 /\ v = c - 48) \/ (97 <= c <= 102 /\ v = c - 87).

(** The characters of a string, and what they stand for. *)
Inductive jchars : list Z -> list Z -> Prop :=
  | jchars_nil : jchars [] []
  | jchars_plain c t s : 32 <= c -> c <> 34 -> c <> 92 -> jchars t s -> jchars (c :: t) (c :: s)
  | jchars_self c t s : c = 34 \/ c = 92 -> jchars t s -> jchars (92 :: c :: t) (c :: s)
  | jchars_newline t s : jchars t s -> jchars (92 :: 110 :: t) (10 :: s)
  | jchars_tab t s : jchars t s -> jchars (92 :: 116 :: t) (9 :: s)
  | jchars_hex a b x y t s : is_hex a x -> is_hex b y -> jchars t s ->
      jchars (92 :: 117 :: 48 :: 48 :: a :: b :: t) (16 * x + y :: s).

Definition jspace (s : list Z) : Prop := Forall (fun c => c = 32 \/ c = 10) s.

(** The texts that the printers of the library write: without booleans and numbers. *)
Inductive jtext : list Z -> json -> Prop :=
  | jtext_null : jtext (bytes "null") JNull
  | jtext_string t s : jchars t s -> jtext ([34] ++ t ++ [34]) (JStr s)
  | jtext_object t ms : jmembers t ms -> jtext ([123] ++ t ++ [125]) (JObj ms)
  | jtext_array t l : jelements t l -> jtext ([91] ++ t ++ [93]) (JArr l)
with jmembers : list Z -> list (list Z * json) -> Prop :=
  | jmembers_nil sp : jspace sp -> jmembers sp []
  | jmembers_last t m sp : jmember t m -> jspace sp -> jmembers (t ++ sp) [m]
  | jmembers_cons t m rest ms : jmember t m -> ms <> [] -> jmembers rest ms -> jmembers (t ++ [44] ++ rest) (m :: ms)
with jmember : list Z -> list Z * json -> Prop :=
  | jmember_intro sp k s v j : jspace sp -> jchars k s -> jtext v j ->
      jmember (sp ++ [34] ++ k ++ [34] ++ [58; 32] ++ v) (s, j)
with jelements : list Z -> list json -> Prop :=
  | jelements_nil : jelements [] []
  | jelements_last t j : jtext t j -> jelements t [j]
  | jelements_cons t j rest l : jtext t j -> l <> [] -> jelements rest l -> jelements (t ++ [44] ++ rest) (j :: l).

(** What the tree is as JSON. *)
Fixpoint to_json (n : bconf_node) : json :=
  match n_type n with
  | NODE_VAL => JStr (value_of n)
  | _ => JObj (map (fun m => (n_key m, to_json m)) (n_subs n))
  end.

(** Keys are printed as they are, and a binary or missing value not at all. *)
Definition plain_key (k : list Z) : Prop := Forall (fun c => 32 <= c /\ c <> 34 /\ c <> 92) k.

Inductive printable (n : bconf_node) : Prop := mk_printable {
  pr_value : Forall char (value_of n);
  pr_subs : Forall (fun m => plain_key (n_key m) /\ (n_type m = NODE_LIST \/ n_type m = NODE_VAL) /\ printable m) (n_subs n)
}.

Lemma json_hex_is d : 0 <= d < 16 -> is_hex (json_hex d) d.
Proof. intros Hd. unfold json_hex, is_hex. destruct (Z.ltb_spec d 10); lia. Qed.

Lemma escape_chars c t s : char c -> jchars t s -> jchars (bconf_escape c ++ t) (c :: s).
Proof.
  unfold char. intros Hc Ht. unfold bconf_escape.
  destruct (Z.eqb_spec c 34) as [->|]; [by apply jchars_self; auto|].
  destruct (Z.eqb_spec c 92) as [->|]; [by apply jchars_self; auto|].
  destruct (Z.ltb_spec c 32), (Z.ltb_spec 0 c); simpl; try lia; [|by apply jchars_plain; auto].
  destruct (Z.eqb_spec c 10) as [->|]; [by apply jchars_newline|]. simpl.
  rewrite (Z.div_mod c 16) at 3 by lia. apply jchars_hex; [..|done]; apply json_hex_is; [|apply Z.mod_pos_bound; lia].
  split; [apply Z.div_pos; lia|apply Z.div_lt_upper_bound; lia].
Qed.

Lemma escape_all v : Forall char v -> jchars (concat (map bconf_escape v)) v.
Proof. induction 1; simpl; [constructor|]. by apply escape_chars. Qed.

Lemma plain_chars k : plain_key k -> jchars k k.
Proof. induction 1 as [|c k (? & ? & ?) Hk IH]; by constructor. Qed.

Lemma value_text v : Forall char v -> jtext (bconf_json_value v) (JStr v).
Proof. intros Hv. by apply jtext_string, escape_all. Qed.

Lemma spaces_jspace n : jspace (replicate n 32).
Proof. apply list.Forall_forall. intros c [-> _]%elem_of_replicate. by left. Qed.

Lemma jspace_app a b : jspace a -> jspace b -> jspace (a ++ b).
Proof. intros. by apply Forall_app. Qed.

(** The value of a sub node as it is written. *)
Definition sub_text (rec : bconf_node -> list Z) (m : bconf_node) : list Z :=
  match n_type m with NODE_LIST => [123; 10] ++ rec m | _ => bconf_json_value (value_of m) end.

Lemma members_text rec d subs : forall sp, jspace sp ->
  Forall (fun m => plain_key (n_key m) /\ (n_type m = NODE_LIST \/ n_type m = NODE_VAL) /\
                   jtext (sub_text rec m) (to_json m)) subs ->
  jmembers (sp ++ json_subs rec d subs ++ replicate d 32) (map (fun m => (n_key m, to_json m)) subs).
Proof.
  induction subs as [|m subs IH]; intros sp Hsp Hall; simpl.
  { constructor. apply jspace_app; [done|apply spaces_jspace]. }
  apply list.Forall_cons in Hall as [(Hk & Ht & Hj) Hall].
  assert (forall tl, jmember (sp ++ pf (S d) ([34] ++ n_key m ++ [34; 58; 32]) ++ sub_text rec m) (n_key m, to_json m) ->
    sp ++ (pf (S d) ([34] ++ n_key m ++ [34; 58; 32]) ++
      match n_type m with NODE_LIST => [123; 10] ++ rec m ++ (if bool_decide (subs = []) then [] else [44]) ++ [10]
      | NODE_VAL => bconf_json_value (value_of m) ++ (if bool_decide (subs = []) then [] else [44]) ++ [10] | _ => [] end ++ tl) ++ replicate d 32 =
    (sp ++ pf (S d) ([34] ++ n_key m ++ [34; 58; 32]) ++ sub_text rec m) ++
      (if bool_decide (subs = []) then [] else [44]) ++ [10] ++ tl ++ replicate d 32) as Heq.
  { intros tl _. unfold sub_text. destruct Ht as [-> | ->]; by rewrite <- !app_assoc. }
  assert (jmember (sp ++ pf (S d) ([34] ++ n_key m ++ [34; 58; 32]) ++ sub_text rec m) (n_key m, to_json m)) as Hm.
  { unfold pf. pose proof (jmember_intro (sp ++ replicate (S d) 32) (n_key m) (n_key m) (sub_text rec m) (to_json m)) as H.
    rewrite <- !app_assoc in *. apply H; [apply jspace_app; [done|apply spaces_jspace]|by apply plain_chars|done]. }
  setoid_rewrite Heq; [|done]. destruct subs as [|m' subs].
  - simpl. constructor; [done|]. constructor; [by right|]. apply spaces_jspace.
  - rewrite bool_decide_false by done. apply jmembers_cons; [done|done|]. apply IH; [|done]. apply Forall_singleton. by right.
Qed.

Lemma json_node_text n : printable n -> forall d,
  jtext (match n_type n, d with NODE_VAL, _ | _, O => [] | _, S _ => [123; 10] end ++ bconf_json_node d n) (to_json n).
Proof.
  induction n as [n IH] using bconf_node_ind_subs. intros [Hv Hsubs] d. rewrite list.Forall_forall in IH, Hsubs.
  assert (forall t, t = [123; 10] ++ json_subs (bconf_json_node (S d)) d (n_subs n) ++ pf d [125] ->
    jtext t (JObj (map (fun m => (n_key m, to_json m)) (n_subs n)))) as Hobj.
  { intros t ->. pose proof (members_text (bconf_json_node (S d)) d (n_subs n) [10]) as H.
    apply (jtext_object) in H; [|apply Forall_singleton; by right|].
    - unfold pf. rewrite <- !app_assoc in H. simpl in *. exact H.
    - apply list.Forall_forall. intros m Hm. destruct (Hsubs m Hm) as (Hk & Ht & Hp). split; [done|]. split; [done|].
      pose proof (IH m Hm Hp (S d)) as H'. unfold sub_text. destruct Ht as [Ht|Ht]; rewrite Ht in *; [done|].
      destruct m as [k t v st subs]; cbn [n_type] in *; subst t. exact H'. }
  destruct n as [k t v st subs]; cbn [n_type n_subs bconf_json_node to_json] in *.
  destruct t; [|by apply value_text|..]; destruct d; apply Hobj; by rewrite <- ?app_assoc.
Qed.

(** The JSON a configuration tree is printed as denotes the tree: objects
    with the keys and sub nodes in order, and the values as strings, whatever
    bytes they hold. *)
Theorem bconf_json_denotes n : printable n -> jtext (bconf_json (Some n) 0) (to_json n).
Proof. intros Hn. pose proof (json_node_text n Hn 0) as H. by destruct (n_type n). Qed.

Lemma bconf_json_denotes_witness :
  jtext (bconf_json (Some (mk_node [] NODE_LIST None false
    [mk_node (bytes "a") NODE_LIST None false [mk_node (bytes "b") NODE_VAL (Some [34; 9; 120]) false []]])) 0)
    (JObj [(bytes "a", JObj [(bytes "b", JStr [34; 9; 120])])]).
Proof.
  apply (bconf_json_denotes (mk_node [] NODE_LIST None false
    [mk_node (bytes "a") NODE_LIST None false [mk_node (bytes "b") NODE_VAL (Some [34; 9; 120]) false []]])).
  vm_compute. repeat (constructor; auto; try lia).
Defined.

(** A binary value leaves its key without a value. *)
Theorem bconf_json_binary :
  bconf_json (Some (mk_node [] NODE_LIST None false [mk_node (bytes "b") NODE_BIN (Some [1]) false []])) 0 =
  [123; 10; 32; 34; 98; 34; 58; 32; 125].
Proof. by vm_compute. Qed.

(** * What the walk visits *)

(** The values below a node with their paths, down to a depth. *)
Fixpoint leaves (n : bconf_node) (budget : nat) (path : list Z) {struct budget} : list (list Z * bconf_node) :=
  match budget with
  | O => []
  | S budget =>
    concat (map (fun m => match n_type m with
                          | NODE_VAL => if decide (n_key m = []) then [] else [(path ++ n_key m, m)]
                          | NODE_LIST => leaves m budget (path ++ n_key m ++ [46])
                          | _ => []
                          end) (n_subs n))
  end.

Definition fits_path (l : list Z * bconf_node) : Prop := Z.of_nat (length (fst l)) < PATH_SIZE.

#[export] Instance fits_path_dec l : Decision (fits_path l).
Proof. unfold fits_path. apply _. Defined.

Section Visits.
Context {X : Type} (cbfun : list Z -> bconf_node -> X -> X * Z).

(** The callback on each in turn, until it returns something else than zero. *)
Fixpoint visit (l : list (list Z * bconf_node)) (x : X) : X * Z :=
  match l with
  | [] => (x, 0)
  | (p, m) :: l => let '(x, r) := cbfun p m x in if negb (r =? 0) then (x, r) else visit l x
  end.

Lemma visit_app l1 l2 x :
  visit (l1 ++ l2) x = let '(x, r) := visit l1 x in if negb (r =? 0) then (x, r) else visit l2 x.
Proof.
  revert x. induction l1 as [|[p m] l1 IH]; intros x; simpl; [by destruct (visit l2 x)|].
  destruct (cbfun p m x) as [x' r] eqn:E. destruct (negb (r =? 0)) eqn:Er; [by rewrite Er|]. apply IH.
Qed.

Lemma leaves_long budget : forall n path, ~ Z.of_nat (length path) < PATH_SIZE ->
  filter fits_path (leaves n budget path) = [].
Proof.
  induction budget as [|budget IH]; intros n path Hp; [done|]. cbn [leaves].
  induction (n_subs n) as [|m subs IHs]; [done|]. cbn [map concat]. rewrite filter_app, IHs, app_nil_r.
  destruct (n_type m); try done.
  - destruct (decide (n_key m = [])); [done|]. apply filter_none.
    intros ? ->%list_elem_of_singleton. unfold fits_path; simpl. rewrite length_app. lia.
  - apply IH. rewrite !length_app. lia.
Qed.

Lemma foreach_internal_visits budget : forall n path x, Z.of_nat (length path) < PATH_SIZE ->
  bconf_foreach_internal cbfun n budget path x = visit (filter fits_path (leaves n budget path)) x.
Proof.
  induction budget as [|budget IH]; intros n path x Hp; [done|]. cbn [bconf_foreach_internal leaves].
  revert x. induction (n_subs n) as [|m subs IHs]; intros x; [done|].
  cbn [map concat]. rewrite filter_app, visit_app. simpl foreach_subs. destruct (n_type m); try apply IHs.
  - rewrite app_nil_r. destruct (decide (n_key m = [])) as [->|Hk]; [by apply IHs|].
    assert (0 < Z.of_nat (length (n_key m))) by (destruct (n_key m); [done|simpl; lia]).
    rewrite (proj2 (Z.ltb_lt 0 _)) by done.
    destruct (Z.ltb_spec (Z.of_nat (length (n_key m))) (PATH_SIZE - Z.of_nat (length path))) as [Hl|Hl]; cbn [andb].
    + rewrite filter_cons_True by (unfold fits_path; simpl; rewrite length_app; lia). cbn [visit]. change (filter fits_path []) with (@nil (list Z * bconf_node)).
      destruct (cbfun _ m x) as [x' r]. destruct (negb (r =? 0)) eqn:Er; [by rewrite Er|]. apply IHs.
    + rewrite filter_cons_False by (unfold fits_path; simpl; rewrite length_app; lia). apply IHs.
  - rewrite (proj2 (Z.ltb_lt 0 _)) by (rewrite length_app; simpl; lia).
    destruct (Z.ltb_spec (Z.of_nat (length (n_key m ++ [46]))) (PATH_SIZE - Z.of_nat (length path))) as [H|H]; cbn [andb].
    + rewrite <- IH by (rewrite length_app; lia). destruct (bconf_foreach_internal _ _ _ _ _) as [x' r].
      destruct (negb (r =? 0)); [done|]. apply IHs.
    + rewrite leaves_long by (rewrite length_app; lia). apply IHs.
Qed.

(** The walk over a tree calls the callback once for every value within the
    depth whose dotted path fits the 128 byte buffer, in the order of the tree,
    and stops at the first call that does not return zero. *)
Theorem bconf_foreach_visits n max_depth x :
  bconf_foreach cbfun (Some n) max_depth x = visit (filter fits_path (leaves n (S max_depth) [])) x.
Proof. apply foreach_internal_visits. done. Qed.
End Visits.
