(* ===== verification/BconfReach.v ===== *)
(** BconfReach: the trees a program can build with the operations of
    src/vtree/lib/bconf.c, and that all of them have the shape lookups rely on.

    [built] closes the NULL root under the operations that change a tree, with
    whatever arguments; a conflict that a variant exits on gives no tree. *)
From stdpp Require Import prelude list numbers sorting.
From Stdlib Require Import ZArith Lia.
From S2P Require Import Prelude Bconf.

Local Open Scope Z_scope.

Inductive built : option bconf_node -> Prop :=
  | built_null : built None
  | built_add root argv value dup r n : built root -> Forall valid_key argv ->
      bconf_add_datav_canfail root argv value dup = Some (r, n) -> built (Some n)
  | built_merge dst src r n : built dst -> built src -> bconf_merge dst src = Some (r, n) -> built (Some n)
  | built_merge_prefix dst prefix src r n : built dst -> built src -> valid_key prefix ->
      bconf_merge_prefix dst prefix src = Some (r, n) -> built n
  | built_deletev root argv last r n : built root -> Forall valid_key argv ->
      bconf_deletev root argv last = Some (r, n) -> built (Some n)
  | built_filter root filter r n : built root -> built filter ->
      bconf_filter_to_keys root filter = Some (r, n) -> built n.

(** * Operations keep the shape *)

(** An operation on a node that keeps it well formed and keeps its key. *)
Definition preserves {R} (f : bconf_node -> option (R * bconf_node)) : Prop :=
  forall m r m', node_ok m -> f m = Some (r, m') -> node_ok m' /\ n_key m' = n_key m.

Lemma lookup_addv_preserves {R} (f : bconf_node -> option (R * bconf_node)) path n r n' :
  preserves f -> node_ok n -> Forall valid_key path ->
  bconf_lookup_addv n path f = Some (Added (r, n')) -> node_ok n' /\ n_key n' = n_key n.
Proof.
  intros Hf. revert n n'. induction path as [|k path IH]; intros n n' Hok Hv; cbn [bconf_lookup_addv].
  { destruct (f n) as [[r1 n1]|] eqn:E; simpl; [|done]. intros [= <- <-]. by eapply Hf. }
  apply Forall_cons in Hv as [Hk Hv]. destruct (is_list n) eqn:Hl; [|unfold bconf_get_node; by rewrite Hl].
  destruct (bconf_get_node_spec n k Hok Hl Hk) as (i & n1 & c & -> & Hi & _ & Hkc & Hokc & _ & Hk1 & Hset).
  cbn [mbind option_bind]. rewrite Hi. cbn [mbind option_bind].
  destruct (bconf_lookup_addv c path f) as [[|[r1 c1]]|] eqn:E; cbn [mbind option_bind]; [done| |done].
  intros [= <- <-]. destruct (IH c c1 Hokc Hv E) as [Hok1 Hkey1]. split; [|done].
  apply Hset; [congruence|done].
Qed.

Lemma add_dataX_preserves v dup : preserves (fun n => bconf_add_dataX n (Some v) dup).
Proof.
  intros m r m' Hok. unfold bconf_add_dataX. destruct (bool_decide_reflect (n_type m = NODE_LIST)) as [Ht|Ht]; simpl.
  { by intros [= <- <-]. }
  assert (forall t, t = NODE_VAL \/ t = NODE_BIN -> node_ok (set_data m t (Some v)) /\ n_key (set_data m t (Some v)) = n_key m) as Hset.
  { intros t Hv. split; [by apply set_data_ok|done]. }
  destruct (n_type m) eqn:Et; [|destruct (n_value m)|done|]; destruct dup; simpl;
    repeat (case_match; simpl); intros [= <- <-]; apply Hset; auto.
Qed.

Lemma delete_key_preserves k : preserves (delete_key k).
Proof.
  intros m r m' Hok. destruct (delete_key_spec k m Hok) as (n' & -> & Hok' & Hk & _). by intros [= <- <-].
Qed.

Lemma add_datav_preserves n path v dup r n' : node_ok n -> Forall valid_key path ->
  bconf_add_datav_canfail (Some n) path v dup = Some (r, n') -> node_ok n' /\ n_key n' = n_key n.
Proof.
  intros Hok Hv. unfold bconf_add_datav_canfail. change (root_or_new (Some n)) with n.
  destruct (bconf_lookup_addv _ _ _) as [[|[r1 n1]]|] eqn:E; simpl; [by intros [= <- <-]| |done].
  intros [= <- <-]. by apply (lookup_addv_preserves _ _ _ _ _ (add_dataX_preserves v dup) Hok Hv E).
Qed.

Lemma add_exit_preserves n k v dup r n' : node_ok n -> valid_key k ->
  bconf_add_datav (Some n) [k] v dup = Some (r, n') -> node_ok n' /\ n_key n' = n_key n.
Proof.
  intros Hok Hk. unfold bconf_add_datav, or_exit.
  destruct (bconf_add_datav_canfail _ _ _ _) as [[r1 n1]|] eqn:E; simpl; [|done].
  case_match; [done|]. intros [= <- <-]. eapply add_datav_preserves; [done| |exact E]. by constructor.
Qed.

Lemma merge_node_preserves src : node_ok src -> preserves (fun dst => merge_node dst src).
Proof.
  induction src as [src IH] using bconf_node_ind_subs. intros Hok. rewrite list.Forall_forall in IH.
  assert (forall subs, (forall s, s ∈ subs -> s ∈ n_subs src) -> forall ret dst r n, node_ok dst ->
    merge_subs merge_node dst ret subs = Some (r, n) -> node_ok n /\ n_key n = n_key dst) as Hsubs.
  2: { intros dst r n Hd. rewrite merge_node_eq. by apply Hsubs. }
  induction subs as [|sn subs IHs]; intros Hin ret dst r n Hd; cbn [merge_subs]; [by intros [= <- <-]|].
  assert (forall s, s ∈ subs -> s ∈ n_subs src) as Hin' by (intros s Hs; apply Hin; by right).
  destruct (sub_valid src sn Hok) as [Hoks Hk]; [apply Hin; left|].
  destruct (n_type sn).
  - by apply IHs.
  - destruct (n_value sn); cbn [mbind option_bind]; [|done].
    destruct (bconf_add_datav _ _ _ _) as [[r1 n1]|] eqn:E; cbn [mbind option_bind]; [|done].
    destruct (add_exit_preserves _ _ _ _ _ _ Hd Hk E) as [H1 <-]. by apply IHs.
  - destruct (is_list dst) eqn:Hl; [|unfold bconf_get_node; rewrite Hl; simpl; by apply IHs].
    destruct (bconf_get_node_spec dst (n_key sn) Hd Hl Hk) as (i & n1 & c & -> & Hi & _ & Hkc & Hokc & _ & Hk1 & Hset).
    cbn [mbind option_bind]. rewrite Hi. cbn [mbind option_bind].
    destruct (merge_node c sn) as [[r1 c1]|] eqn:E; cbn [mbind option_bind]; [|done].
    destruct (IH sn (Hin sn (list_elem_of_here _ _)) Hoks c r1 c1 Hokc E) as [Hc1 Hkc1].
    intros H. apply IHs in H; [by rewrite <- Hk1|done|]. apply Hset; [congruence|done].
  - unfold bconf_add_bindatav. destruct (n_value sn); cbn [mbind option_bind]; [|done].
    destruct (bconf_add_datav _ _ _ _) as [[r1 n1]|] eqn:E; cbn [mbind option_bind]; [|done].
    destruct (add_exit_preserves _ _ _ _ _ _ Hd Hk E) as [H1 <-]. by apply IHs.
Qed.

Lemma merge_prefix_preserves dst prefix src r n : node_ok (root_or_new dst) -> node_ok src -> valid_key prefix ->
  bconf_merge_prefix dst prefix (Some src) = Some (r, n) -> exists m, n = Some m /\ node_ok m.
Proof.
  intros Hd Hs Hk. unfold bconf_merge_prefix. set (d := root_or_new dst) in *.
  destruct (is_list d) eqn:Hl; [|unfold bconf_get_node; rewrite Hl; simpl; intros [= <- <-]; eauto].
  destruct (bconf_get_node_spec d prefix Hd Hl Hk) as (i & n1 & c & -> & Hi & _ & Hkc & Hokc & _ & _ & Hset).
  cbn [mbind option_bind]. rewrite Hi. cbn [mbind option_bind].
  destruct (merge_node c src) as [[r1 c1]|] eqn:E; cbn [mbind option_bind]; [|done].
  destruct (merge_node_preserves src Hs c r1 c1 Hokc E) as [Hc1 Hkc1].
  intros [= <- <-]. eexists. split; [done|]. apply Hset; [congruence|done].
Qed.

Definition root_ok (root : option bconf_node) : Prop := node_ok (root_or_new root).

Lemma root_ok_Some root : root_ok root -> forall n, root = Some n -> node_ok n.
Proof. by intros H n ->. Qed.

Lemma filter_preserves root flt r n : root_ok root -> root_ok flt -> bconf_filter_to_keys root flt = Some (r, n) -> root_ok n.
Proof.
  intros Hr Hf. unfold bconf_filter_to_keys. destruct root as [m|]; [|by intros [= <- <-]].
  case_decide; [|by intros [= <- <-]].
  destruct (filter_loop_spec (length (n_subs m)) m flt 0 0) as (n' & -> & Hok' & _); [done|lia|by apply root_ok_Some|].
  by intros [= <- <-].
Qed.

Lemma built_ok root : built root -> root_ok root.
Proof.
  induction 1 as [|root argv value dup r n _ IH Hv E|dst src r n _ IHd _ IHs E|dst prefix src r n _ IHd _ IHs Hk E
    |root argv last r n _ IH Hv E|root filter r n _ IH _ IHf E].
  - apply new_node_ok.
  - by eapply (add_datav_preserves (root_or_new root)).
  - destruct src as [s|]; simpl in E; [|by simplify_eq]. by apply (merge_node_preserves s IHs _ _ _ IHd E).
  - destruct src as [s|]; [|by simpl in E; simplify_eq].
    destruct (merge_prefix_preserves dst prefix s r n IHd IHs Hk E) as (m & -> & ?). done.
  - unfold bconf_deletev in E. destruct (bconf_lookup_addv _ _ _) as [[|[r1 n1]]|] eqn:E1; simplify_eq/=; [done|].
    by apply (lookup_addv_preserves _ _ _ _ _ (delete_key_preserves last) IH Hv E1).
  - exact (filter_preserves _ _ _ _ IH IHf E).
Qed.

Lemma merge_defined dst src : node_ok dst -> node_ok src -> compatible dst src -> is_Some (merge_node dst src).
Proof.
  intros Hd Hs Hc. destruct (is_list src) eqn:Hl.
  - destruct (merge_node_ok src dst Hd Hs Hl Hc) as (r & n & -> & _). by eexists.
  - rewrite merge_node_eq, (leaf_subs src Hs); [by eexists|]. intros Ht. unfold is_list in Hl. by rewrite Ht in Hl.
Qed.

Lemma merge_prefix_defined dst k src : node_ok dst -> node_ok src -> valid_key k ->
  (is_list dst = true -> compatible (default (new_node k) (child dst k)) src) ->
  is_Some (bconf_merge_prefix (Some dst) k (Some src)).
Proof.
  intros Hd Hs Hk Hc. cbn [bconf_merge_prefix root_or_new]. simpl.
  destruct (is_list dst) eqn:Hl; [|unfold bconf_get_node; rewrite Hl; by eexists].
  destruct (bconf_get_node_spec dst k Hd Hl Hk) as (i & n1 & c & -> & Hi & Ec & _ & Hokc & _).
  cbn [mbind option_bind]. rewrite Hi. cbn [mbind option_bind]. subst c.
  destruct (merge_defined _ src Hokc Hs (Hc eq_refl)) as [[r d] ->]. by eexists.
Qed.

Lemma add_defined root path v dup : node_ok (root_or_new root) -> Forall valid_key path ->
  is_Some (bconf_add_datav_canfail root path v dup) <->
  ~ (dup = BCONF_DUP /\ exists old, value_at (root_or_new root) path = Some (NODE_BIN, old) /\ (length old < length v)%nat).
Proof.
  intros Hb Hv. set (n := root_or_new root) in *.
  assert (Hconf : blocked n path = true \/ n_type (target n path) = NODE_LIST -> is_Some (bconf_add_datav_canfail root path v dup)).
  { intros H. destruct (bconf_add_datav_conflict root path v dup Hb Hv H) as (n' & -> & _). by eexists. }
  split.
  - intros Hs (-> & old & Hold & Hlt). destruct (blocked n path) eqn:Hbl.
    + rewrite value_at_target in Hold. rewrite (blocked_target n path) in Hold by done. done.
    + pose proof (bconf_add_over_binary root path v old Hb Hv Hbl Hold) as H. rewrite decide_False in H by lia. rewrite H in Hs. by destruct Hs.
  - intros Hno. destruct (blocked n path) eqn:Hbl; [auto|].
    destruct (decide (n_type (target n path) = NODE_LIST)) as [Hl|Hl]; [auto|].
    destruct (decide (dup = BCONF_DUP /\ n_type (target n path) = NODE_BIN)) as [[-> Ht]|Hc].
    + pose proof (ok_value _ (target_ok n path Hb)) as Hval.
      destruct (n_value (target n path)) as [old|] eqn:Eo; [|exfalso; destruct (proj2 Hval); auto; done].
      assert (value_at n path = Some (NODE_BIN, old)) as Hold by (rewrite value_at_target; unfold data; by rewrite Ht, Eo).
      pose proof (bconf_add_over_binary root path v old Hb Hv Hbl Hold) as H.
      destruct (decide _) as [?|Hgt]; [destruct H as (n' & -> & _); by eexists|].
      exfalso. apply Hno. split; [done|]. exists old. split; [done|lia].
    + destruct (bconf_add_datav_canfail_spec root path v dup Hb Hv) as (r & n' & -> & _); [|by eexists].
      split; [done|]. split; [done|]. intros -> Ht. by apply Hc.
Qed.


(** * Checking that a concrete tree is well formed *)

Fixpoint sortedb (l : list (list Z)) : bool :=
  match l with [] => true | k :: l => forallb (fun k' => keycomp k k' <? 0) l && sortedb l end.

Definition validb (k : list Z) : bool := forallb (fun c => (0 <? c) && (c <? 256)) k.

Fixpoint node_okb (n : bconf_node) : bool :=
  let ks := map n_key (n_subs n) in
  sortedb ks && forallb validb ks &&
  eqb (n_star n) (bool_decide (star_key ∈ ks)) &&
  (bool_decide (n_subs n = []) || bool_decide (n_type n = NODE_LIST)) &&
  eqb (bool_decide (is_Some (n_value n))) (bool_decide (n_type n = NODE_VAL \/ n_type n = NODE_BIN)) &&
  forallb node_okb (n_subs n).

Lemma validb_ok k : validb k = true -> valid_key k.
Proof.
  unfold validb, valid_key, char. intros H. apply list.Forall_forall. intros c Hc.
  rewrite forallb_forall in H. apply list_elem_of_In, H, andb_prop in Hc as [?%Z.ltb_lt ?%Z.ltb_lt]. lia.
Qed.

Lemma sortedb_ok l : sortedb l = true -> Forall valid_key l -> StronglySorted key_lt l.
Proof.
  induction l as [|k l IH]; [constructor|]. simpl. intros [H1 H2]%andb_prop [Hk Hl]%list.Forall_cons.
  constructor; [auto|]. apply list.Forall_forall. intros k' Hin. rewrite forallb_forall in H1.
  rewrite list.Forall_forall in Hl. apply keycomp_lt; [done|auto|]. apply Z.ltb_lt, H1. by apply list_elem_of_In.
Qed.

Lemma node_okb_ok n : node_okb n = true -> node_ok n.
Proof.
  induction n as [n IH] using bconf_node_ind_subs. rewrite list.Forall_forall in IH.
  destruct n as [k t v st subs]. cbn [node_okb n_subs n_star n_type n_value] in *.
  intros [[[[[Hs Hv]%andb_prop Hst]%andb_prop Hl]%andb_prop Hval]%andb_prop Hsub]%andb_prop.
  rewrite forallb_forall in Hv, Hsub.
  assert (Forall valid_key (keys subs)) as Hkeys.
  { apply list.Forall_forall. intros k' Hk. apply validb_ok, Hv. by apply list_elem_of_In. }
  apply eqb_prop in Hst, Hval. split; cbn [n_subs n_star n_type n_value].
  - split; [by apply sortedb_ok|done].
  - rewrite Hst. apply bool_decide_eq_true.
  - intros Hne. apply orb_prop in Hl as [H|H]; by apply bool_decide_eq_true in H.
  - rewrite <- (bool_decide_eq_true (is_Some v)), Hval. apply bool_decide_eq_true.
  - apply list.Forall_forall. intros m Hm. apply IH; [done|]. apply Hsub. by apply list_elem_of_In.
Qed.

(** ** Whether a tree can be merged into another *)

(** The paths of the values with their types. *)
Fixpoint value_paths (n : bconf_node) : list (list (list Z) * node_type) :=
  (match data n with Some (t, _) => [([], t)] | None => [] end) ++
  concat (map (fun c => map (fun '(p, t) => (n_key c :: p, t)) (value_paths c)) (n_subs n)).

Lemma value_paths_complete n : forall path t v, value_at n path = Some (t, v) -> (path, t) ∈ value_paths n.
Proof.
  induction n as [n IH] using bconf_node_ind_subs. rewrite list.Forall_forall in IH. intros [|k path] t v Hv.
  - unfold value_at in Hv. simpl in Hv. destruct n; simpl in *. rewrite Hv. left.
  - rewrite value_at_cons in Hv. destruct (child n k) as [c|] eqn:Hc; [|done]. apply child_Some in Hc as (i & Hi & <-).
    apply list_elem_of_lookup_2 in Hi as Hin. specialize (IH c Hin path t v Hv). destruct n as [nk nt nv ns subs].
    cbn [value_paths n_subs] in *. apply elem_of_app. right. apply list_elem_of_In, in_concat. eexists. split.
    + apply in_map_iff. exists c. split; [reflexivity|by apply list_elem_of_In].
    + apply in_map_iff. exists (path, t). split; [done|by apply list_elem_of_In].
Qed.

#[export] Instance can_add_dec n path dup : Decision (can_add n path dup).
Proof. unfold can_add. apply _. Defined.

Definition compatibleb (dst src : bconf_node) : bool :=
  forallb (fun '(p, t) => bool_decide (can_add dst p (merge_dup t))) (value_paths src).

Lemma compatibleb_ok dst src : compatibleb dst src = true -> compatible dst src.
Proof.
  unfold compatibleb. rewrite forallb_forall. intros H path t v Hv%value_paths_complete.
  apply list_elem_of_In, H in Hv. by apply bool_decide_eq_true in Hv.
Qed.

(** A tree with a list, a value and a star. *)
Lemma sample_built : built (Some sample).
Proof.
  set (add := fun root key v => default root_node (bconf_add_data root (bytes key) (bytes v))).
  set (t1 := add None "a.10"%string "x"%string). set (t2 := add (Some t1) "a.9"%string "y"%string).
  assert (built (Some t1)) as H1 by (apply (built_add None (split_dots (bytes "a.10")) (bytes "x") BCONF_DUP 0 t1); [apply built_null|vm_compute; repeat constructor|vm_compute; reflexivity]).
  assert (built (Some t2)) as H2 by (apply (built_add (Some t1) (split_dots (bytes "a.9")) (bytes "y") BCONF_DUP 0 t2); [exact H1|vm_compute; repeat constructor|vm_compute; reflexivity]).
  apply (built_add (Some t2) (split_dots (bytes "*.z")) (bytes "w") BCONF_DUP 0 sample); [exact H2|vm_compute; repeat constructor|vm_compute; reflexivity].
Qed.

