(* ===== verification/GoBconf.v ===== *)
(** GoBconf: the configuration tree in Go (src/vtree/pkg/bconf/go.go and
    bconf.go), and that it behaves as the C tree of Bconf.

    A [*Leaf] or [*Node] that is not nil is a [gnode]; the results of [Get] are of
    [ref], which has the two nil pointers the interface can hold.  Code that
    changes nodes through pointers returns the tree it was called on.  [None] is a
    panic. *)
From stdpp Require Import prelude list numbers sorting.
From Stdlib Require Import ZArith Lia.
From S2P Require Import Prelude Bconf.

Local Open Scope Z_scope.
#[local] Set Warnings "-register-all".

(** * Trees *)

Inductive gnode :=
  | Leaf (KeyName Value : list Z)
  | Node (KeyName : list Z) (subnodes : list gnode) (starIdx : Z).

Inductive ref := Ref (n : gnode) | NilLeaf | NilNode.

Definition Key (n : gnode) : list Z := match n with Leaf k _ => k | Node k _ _ => k end.

(** The methods that read a result of [Get]. *)
Definition Valid (r : ref) : bool := match r with Ref _ => true | _ => false end.

Definition is_leaf (r : ref) : bool := match r with Ref (Leaf _ _) | NilLeaf => true | _ => false end.

Definition to_string (r : ref) (def : list Z) : list Z := match r with Ref (Leaf _ v) => v | _ => def end.

Definition Slice (r : ref) : list gnode := match r with Ref (Node _ subs _) => subs | _ => [] end.

Definition Length (r : ref) : nat := length (Slice r).

(** * Searching *)

Definition KeyCompare (a b : list Z) : Z :=
  let la := Z.of_nat (length a) in
  let lb := Z.of_nat (length b) in
  if ((la =? 0) || (lb =? 0) || (isdigit (hd0 a) && isdigit (hd0 b))) && (la <? lb) then -1
  else if ((la =? 0) || (lb =? 0) || (isdigit (hd0 a) && isdigit (hd0 b))) && (lb <? la) then 1
  else Z.sgn (lexcmp a b).

(** The loop of [Search]: [fuel] bounds its turns. *)
Fixpoint Search_loop (fuel : nat) (subs : list gnode) (step : list Z) (start end_ : nat) : option (bool * nat) :=
  if (start <? end_)%nat then
    match fuel with
    | O => None
    | S fuel =>
      let i := (start + (end_ - start) / 2)%nat in
      n ← subs !! i;
      let cmp := KeyCompare step (Key n) in
      if cmp =? 0 then Some (true, i)
      else if cmp <? 0 then Search_loop fuel subs step start i
      else Search_loop fuel subs step (S i) end_
    end
  else Some (false, start).

Definition Search (subs : list gnode) (step : list Z) : option (bool * nat) :=
  Search_loop (length subs) subs step 0 (length subs).

(** [strings.Split] of the first key when it has a dot. *)
Definition split_first (k : list (list Z)) : list (list Z) :=
  match k with
  | [] => []
  | k0 :: k => if bool_decide (46 ∈ k0) then split_dots k0 ++ k else k0 :: k
  end.

(** Every call takes one part, and [fuel] is the number of parts. *)
Fixpoint Get_loop (fuel : nat) (n : gnode) (k : list (list Z)) : option ref :=
  match n, k with
  | _, [] => Some (Ref n)
  | Leaf _ _, _ => Some NilLeaf
  | Node _ subs starIdx, _ =>
    match split_first k, fuel with
    | k0 :: ks, S fuel =>
      '(found, idx) ← Search subs k0;
      if (found : bool) then c ← subs !! idx; Get_loop fuel c ks
      else if 0 <? starIdx then c ← subs !! Z.to_nat (starIdx - 1); Get_loop fuel c ks
      else Some NilNode
    | _, _ => None
    end
  end.

Definition parts (k : list (list Z)) : list (list Z) := concat (map split_dots k).

Definition Get (n : gnode) (k : list (list Z)) : option ref := Get_loop (length (parts k)) n k.

(** * Adding *)

Definition insert (n : gnode) (idx : nat) (key : list Z) (v : gnode) : option gnode :=
  match n with
  | Leaf _ _ => None
  | Node name subs starIdx =>
    let starIdx := if Z.of_nat idx <? starIdx then starIdx + 1
                   else if bool_decide (key = star_key) then Z.of_nat idx + 1 else starIdx in
    Some (Node name (take idx subs ++ v :: drop idx subs) starIdx)
  end.

Definition set_subnode (n : gnode) (idx : nat) (v : gnode) : gnode :=
  match n with Leaf k v => Leaf k v | Node name subs starIdx => Node name (<[idx := v]> subs) starIdx end.

(** [addvf] and the call of the function it returns: whether there is no error, and the tree. *)
Fixpoint addvf (n : gnode) (kv : list (list Z)) (v : list Z) : option (bool * gnode) :=
  match n, kv with
  | Leaf _ _, _ => None
  | _, [] => Some (false, n)
  | Node _ subs _, [k] =>
    '(found, idx) ← Search subs k;
    if (found : bool) then
      c ← subs !! idx;
      match c with
      | Leaf name _ => Some (true, set_subnode n idx (Leaf name v))
      | Node _ _ _ => Some (false, n)
      end
    else n' ← insert n idx k (Leaf k v); Some (true, n')
  | Node _ subs _, k :: ks =>
    '(found, idx) ← Search subs k;
    if (found : bool) then
      c ← subs !! idx;
      match c with
      | Leaf _ _ => Some (false, n)
      | Node _ _ _ => '(ok, c) ← addvf c ks v; Some (ok, set_subnode n idx c)
      end
    else
      '(ok, c) ← addvf (Node k [] 0) ks v;
      n' ← insert n idx k c; Some (ok, n')
  end.

Definition Addv (n : gnode) (kv : list (list Z)) (v : list Z) : option (bool * gnode) := addvf n kv v.

Definition Add (n : gnode) (k : list (list Z)) (v : list Z) : option (bool * gnode) := addvf n (parts k) v.

(** * Deleting *)

Definition delete_last (last : list Z) (n : gnode) : option gnode :=
  match n with
  | Leaf _ _ => Some n
  | Node name subs starIdx =>
    '(found, idx) ← Search subs last;
    Some (if (found : bool) then Node name (delete idx subs) starIdx else n)
  end.

(** The node that [Get] finds is changed in place. *)
Fixpoint Delete_loop (fuel : nat) (last : list Z) (n : gnode) (k : list (list Z)) : option gnode :=
  match n, k with
  | _, [] => delete_last last n
  | Leaf _ _, _ => Some n
  | Node _ subs starIdx, _ =>
    match split_first k, fuel with
    | k0 :: ks, S fuel =>
      '(found, idx) ← Search subs k0;
      if (found : bool) then
        c ← subs !! idx; c ← Delete_loop fuel last c ks; Some (set_subnode n idx c)
      else if 0 <? starIdx then
        let idx := Z.to_nat (starIdx - 1) in
        c ← subs !! idx; c ← Delete_loop fuel last c ks; Some (set_subnode n idx c)
      else Some n
    | _, _ => None
    end
  end.

Definition Delete (n : gnode) (path : list (list Z)) : option gnode :=
  match last path with
  | None => Some n
  | Some l => let k := removelast path in Delete_loop (length (parts k)) l n k
  end.

(** * The C tree of a Go tree *)

Fixpoint to_c (n : gnode) : bconf_node :=
  match n with
  | Leaf k v => mk_node k NODE_VAL (Some v) false []
  | Node k subs starIdx => mk_node k NODE_LIST None (0 <? starIdx) (map to_c subs)
  end.

(** [starIdx] is the position of the star, from one, or zero. *)
Definition star_idx (subs : list gnode) (starIdx : Z) : Prop :=
  (starIdx = 0 /\ star_key ∉ map Key subs) \/
  (0 < starIdx /\ exists c, subs !! Z.to_nat (starIdx - 1) = Some c /\ Key c = star_key).

Inductive g_ok : gnode -> Prop :=
  | g_ok_leaf k v : g_ok (Leaf k v)
  | g_ok_node k subs starIdx : subs_sorted (map to_c subs) -> star_idx subs starIdx -> Forall g_ok subs ->
      g_ok (Node k subs starIdx).

Lemma key_to_c n : n_key (to_c n) = Key n.
Proof. by destruct n. Qed.

Lemma keys_to_c subs : keys (map to_c subs) = map Key subs.
Proof. unfold keys. induction subs as [|n subs IH]; [done|]. simpl. by rewrite key_to_c, <- IH. Qed.

Lemma lookup_to_c subs i : map to_c subs !! i = to_c <$> subs !! i.
Proof. apply (list_lookup_fmap to_c). Qed.

Lemma gnode_ind_subs (P : gnode -> Prop) :
  (forall k v, P (Leaf k v)) -> (forall k subs i, Forall P subs -> P (Node k subs i)) -> forall n, P n.
Proof.
  intros Hl Hn. fix IH 1. intros [k v|k subs i]; [apply Hl|]. apply Hn. induction subs; constructor; [apply IH|done].
Qed.

Lemma g_ok_to_c n : g_ok n -> node_ok (to_c n).
Proof.
  induction n as [k v|k subs i IH] using gnode_ind_subs; inversion 1 as [|? ? ? Hs Hi Hf]; subst.
  { apply node_ok_leaf. split; eauto. }
  split; simpl; [done| |done| |].
  - rewrite keys_to_c, Z.ltb_lt. destruct Hi as [[-> Hn]|(Hp & c & Hc & E)]; [split; [lia|done]|]. split; [|done].
    intros _. rewrite <- E. apply list_elem_of_fmap_2. by eapply list_elem_of_lookup_2.
  - split; [by intros []|by intros [|]].
  - apply list.Forall_forall. intros x (c & -> & Hc)%list_elem_of_fmap. rewrite list.Forall_forall in IH, Hf. auto.
Qed.

(** * The order and the search *)

Lemma KeyCompare_enc a b : valid_key a -> valid_key b -> KeyCompare a b = Z.sgn (lexcmp (enc a) (enc b)).
Proof.
  intros Ha Hb. rewrite <- keycomp_enc by done. unfold KeyCompare, keycomp.
  destruct a as [|x a], b as [|y b]; cbn [length hd0 isdigit].
  - done.
  - apply Forall_cons in Hb as [Hy _]. unfold char in Hy. simpl. rewrite (proj2 (Z.eqb_neq _ 0)) by lia. lia.
  - apply Forall_cons in Ha as [Hx _]. unfold char in Hx. simpl. rewrite andb_false_r. simpl. lia.
  - rewrite (proj2 (Z.eqb_neq (Z.of_nat (S (length a))) 0)), (proj2 (Z.eqb_neq (Z.of_nat (S (length b))) 0)) by lia. cbn [orb].
    rewrite <- keycomp_loop_lex by done.
    destruct (isdigit x && isdigit y); cbn [andb negb]; [|done].
    destruct (Z.ltb_spec (Z.of_nat (S (length a))) (Z.of_nat (S (length b)))),
      (Z.ltb_spec (Z.of_nat (S (length b))) (Z.of_nat (S (length a)))),
      (Z.eqb_spec (Z.of_nat (S (length a)) - Z.of_nat (S (length b))) 0); simpl; try lia.
Qed.

Lemma KeyCompare_lt a b : valid_key a -> valid_key b -> KeyCompare a b < 0 <-> key_lt a b.
Proof. intros Ha Hb. rewrite KeyCompare_enc by done. unfold key_lt. lia. Qed.

Lemma KeyCompare_gt a b : valid_key a -> valid_key b -> 0 < KeyCompare a b <-> key_lt b a.
Proof. intros Ha Hb. rewrite KeyCompare_enc by done. unfold key_lt. pose proof (cmp_swap_lt lexcmp (enc a) (enc b)). lia. Qed.

Lemma KeyCompare_eq a b : valid_key a -> valid_key b -> KeyCompare a b = 0 <-> a = b.
Proof. intros Ha Hb. rewrite KeyCompare_enc, <- keycomp_enc, <- keycomp_eq by done. lia. Qed.

Definition found_at (found : bool) (i : nat) : Z + Z := if found then inl (Z.of_nat i) else inr (Z.of_nat i).

Lemma Search_loop_spec fuel subs key start end_ :
  subs_sorted (map to_c subs) -> valid_key key -> (start <= end_ <= length subs)%nat -> (end_ - start <= fuel)%nat ->
  (forall j n, subs !! j = Some n -> (j < start)%nat -> key_lt (Key n) key) ->
  (forall j n, subs !! j = Some n -> (end_ <= j)%nat -> key_lt key (Key n)) ->
  exists found i, Search_loop fuel subs key start end_ = Some (found, i) /\ search_ok (map to_c subs) key (found_at found i).
Proof.
  intros Hs Hk. revert start end_. induction fuel as [|fuel IH]; intros start end_ Hle Hf Hlow Hhigh;
    cbn [Search_loop]; destruct (Nat.ltb_spec start end_); try lia.
  1,3: exists false, start; split; [done|]; simpl; rewrite length_map; split; [lia|];
      (split; intros j n; rewrite lookup_to_c; destruct (subs !! j) as [m|] eqn:E; simpl; [|done| |done];
       intros [= <-] Hj; rewrite key_to_c; [apply (Hlow j)|apply (Hhigh j)]; (done || lia)).
  pose proof (Nat.div_mod (end_ - start) 2 ltac:(lia)) as Hdm. pose proof (Nat.mod_upper_bound (end_ - start) 2 ltac:(lia)).
  set (i := (start + (end_ - start) / 2)%nat) in *.
  destruct (lookup_lt_is_Some_2 subs i) as (n & Hn); [lia|]. rewrite Hn. cbn [mbind option_bind].
  assert (map to_c subs !! i = Some (to_c n)) as Hc by (by rewrite lookup_to_c, Hn).
  assert (valid_key (Key n)) as Hv by (rewrite <- key_to_c; by eapply subs_valid).
  assert (forall j m, subs !! j = Some m -> (j < i)%nat -> key_lt (Key m) (Key n)) as Hbefore.
  { intros j m Hm Hj. rewrite <- !key_to_c. eapply (subs_lookup_lt _ j i); eauto. by rewrite lookup_to_c, Hm. }
  assert (forall j m, subs !! j = Some m -> (i < j)%nat -> key_lt (Key n) (Key m)) as Hafter.
  { intros j m Hm Hj. rewrite <- !key_to_c. eapply (subs_lookup_lt _ i j); eauto. by rewrite lookup_to_c, Hm. }
  destruct (Z.eqb_spec (KeyCompare key (Key n)) 0) as [E|E].
  - exists true, i. split; [done|]. simpl. rewrite Nat2Z.id. exists (to_c n). split; [done|]. rewrite key_to_c.
    symmetry. by apply KeyCompare_eq.
  - destruct (Z.ltb_spec (KeyCompare key (Key n)) 0) as [Hlt|Hge].
    + apply KeyCompare_lt in Hlt; [|done..]. apply IH; [lia|lia|done|]. intros j m Hm Hj.
      destruct (decide (j = i)) as [->|]; [by simplify_eq|]. etrans; [exact Hlt|]. apply (Hafter j); [done|lia].
    + assert (key_lt (Key n) key) as Hgt by (apply KeyCompare_gt; [done..|lia]). apply IH; [lia|lia| |done].
      intros j m Hm Hj. destruct (decide (j = i)) as [->|]; [by simplify_eq|]. etrans; [|exact Hgt]. apply (Hbefore j); [done|lia].
Qed.

Lemma Search_spec subs key : subs_sorted (map to_c subs) -> valid_key key ->
  exists found i, Search subs key = Some (found, i) /\ search_ok (map to_c subs) key (found_at found i).
Proof.
  intros Hs Hk. apply Search_loop_spec; [done|done|lia|lia|lia|]. intros j n Hj%lookup_lt_Some. lia.
Qed.

(** * Looking up *)

Lemma split_nodot p : 46 ∉ p -> split_dots p = [p].
Proof.
  induction p as [|c p IH]; [done|]. intros Hn. rewrite not_elem_of_cons in Hn. destruct Hn as [Hc Hp]. simpl.
  rewrite (proj2 (Z.eqb_neq c 46)) by congruence. by rewrite (IH Hp).
Qed.

Lemma split_parts_nodot s p : p ∈ split_dots s -> 46 ∉ p.
Proof.
  revert p. induction s as [|c s IH]; intros p; simpl.
  - intros ->%list_elem_of_singleton. apply not_elem_of_nil.
  - destruct (Z.eqb_spec c 46) as [->|Hc].
    + intros [->|Hp]%elem_of_cons; [apply not_elem_of_nil|by apply IH].
    + destruct (split_dots s) as [|q qs]; [intros ->%list_elem_of_singleton; rewrite list_elem_of_singleton; congruence|].
      intros [->|Hp]%elem_of_cons; [|apply IH; by right]. rewrite not_elem_of_cons. split; [congruence|]. apply IH. left.
Qed.

Lemma parts_nodot ps : (forall p, p ∈ ps -> 46 ∉ p) -> parts ps = ps.
Proof.
  induction ps as [|p ps IH]; [done|]. intros Hn. unfold parts. simpl. rewrite split_nodot by (apply Hn; left). simpl.
  f_equal. apply IH. intros q Hq. apply Hn. by right.
Qed.

Lemma parts_app a b : parts (a ++ b) = parts a ++ parts b.
Proof. unfold parts. by rewrite map_app, concat_app. Qed.

(** What is split off is the first part. *)
Lemma split_first_parts k0 k : exists p ps, split_first (k0 :: k) = p :: ps /\ parts (k0 :: k) = p :: parts ps.
Proof.
  cbn [split_first]. case_bool_decide as Hd.
  - change (parts (k0 :: k)) with (split_dots k0 ++ parts k).
    destruct (split_dots k0) as [|p ps] eqn:E; [by apply split_dots_ne in E|]. exists p, (ps ++ k). split; [done|].
    rewrite parts_app, (parts_nodot ps); [done|]. intros q Hq. apply (split_parts_nodot k0). rewrite E. by right.
  - exists k0, k. split; [done|]. unfold parts. simpl. by rewrite split_nodot.
Qed.

Lemma valid_parts k : Forall valid_key k -> Forall valid_key (parts k).
Proof.
  unfold parts. induction 1 as [|k0 k H0 _ IH]; [constructor|]. simpl. apply Forall_app. split; [by apply valid_split|done].
Qed.

(** A result of [Get] as the pointer of the C library. *)
Definition ref_c (r : ref) : option bconf_node := match r with Ref n => Some (to_c n) | _ => None end.

Lemma child_to_c k subs i j c : subs_sorted (map to_c subs) -> subs !! j = Some c ->
  child (to_c (Node k subs i)) (Key c) = Some (to_c c).
Proof.
  intros Hs Hc. apply (child_lookup _ _ j); [done| |by rewrite key_to_c]. simpl. by rewrite lookup_to_c, Hc.
Qed.

Lemma Get_loop_spec fuel : forall n k, g_ok n -> Forall valid_key (parts k) -> length (parts k) = fuel ->
  exists r, Get_loop fuel n k = Some r /\ ref_c r = find_star (to_c n) (parts k).
Proof.
  induction fuel as [|fuel IH]; intros n k Hok Hv Hl; (destruct k as [|k0 k]; [exists (Ref n); by destruct n|]);
    destruct (split_first_parts k0 k) as (p & ps & E1 & E2); rewrite E2 in *; [done|]. injection Hl as Hl.
  apply Forall_cons in Hv as [Hp Hv]. destruct Hok as [kn v|kn subs i Hs Hi Hf]; [by exists NilLeaf|].
  cbn [Get_loop]. rewrite E1. cbn [find_star].
  destruct (Search_spec subs p Hs Hp) as (found & j & -> & Hr). cbn [mbind option_bind].
  assert (forall j c, subs !! j = Some c -> exists r, Get_loop fuel c ps = Some r /\ ref_c r = find_star (to_c c) (parts ps)) as Hsub.
  { intros j' c Hc. apply IH; [|done|done]. rewrite list.Forall_forall in Hf. apply Hf. by eapply list_elem_of_lookup_2. }
  destruct found.
  - destruct Hr as (x & Hx & Ek). rewrite Nat2Z.id, lookup_to_c in Hx. destruct (subs !! j) as [c|] eqn:Hc; [|done].
    injection Hx as <-. rewrite key_to_c in Ek. subst p. rewrite (child_to_c kn subs i j c Hs Hc). simpl. by eapply Hsub.
  - pose proof (search_ok_absent _ _ _ Hr) as Hn. rewrite (proj2 (child_None (to_c (Node kn subs i)) p) Hn).
    destruct Hi as [[-> Hns]|(Hp0 & c & Hc & Ek)].
    + rewrite (proj2 (child_None (to_c (Node kn subs 0)) star_key)) by (simpl; by rewrite keys_to_c). by exists NilNode.
    + pose proof (child_to_c kn subs i _ c Hs Hc) as Hch. rewrite Ek in Hch. rewrite (proj2 (Z.ltb_lt _ _) Hp0), Hc, Hch. simpl. by eapply Hsub.
Qed.

Lemma found_app n p q : find_star n (p ++ q) = m ← find_star n p; find_star m q.
Proof.
  revert n. induction p as [|k p IH]; intros n; [done|]. simpl. destruct (child n k); [apply IH|].
  destruct (child n star_key); [apply IH|done].
Qed.

Lemma found_ok path : forall n m, node_ok n -> find_star n path = Some m -> node_ok m.
Proof.
  induction path as [|k path IH]; intros n m Hok; simpl; [by intros [= <-]|].
  destruct (child n k) as [c|] eqn:Hc; [apply IH; by eapply child_ok|].
  destruct (child n star_key) as [s|] eqn:Hs; [apply IH; by eapply child_ok|done].
Qed.

Lemma vget_spec k : forall n, node_ok n -> Forall valid_key k -> bconf_vget (Some n) k = Some (find_star n (parts k)).
Proof.
  assert (forall k, bconf_vget None k = Some None) as Hnone.
  { intros k'. induction k' as [|k0 k' IH']; [done|exact IH']. }
  induction k as [|k0 k IH]; intros n Hok Hv; [done|]. apply Forall_cons in Hv as [H0 Hv]. simpl.
  rewrite get_loop_spec by (auto using valid_split). simpl. unfold parts. simpl. rewrite found_app.
  destruct (find_star n (split_dots k0)) as [m|] eqn:E; [|apply Hnone]. apply IH; [by eapply found_ok|done].
Qed.

(** [Get] on a Go tree returns what [bconf_vget] returns on the C tree with the
    same content, for keys that may have dots: the node of all the parts, with the
    star fallback. *)
Theorem go_get_agrees n k : g_ok n -> Forall valid_key k ->
  exists r, Get n k = Some r /\ bconf_vget (Some (to_c n)) k = Some (ref_c r).
Proof.
  intros Hok Hv. destruct (Get_loop_spec _ n k Hok (valid_parts k Hv) eq_refl) as (r & E & Hr).
  exists r. split; [done|]. by rewrite Hr, vget_spec by (auto using g_ok_to_c).
Qed.

(** * Adding *)

(** The search of the C library finds the same place. *)
Lemma search_agrees subs key found i : subs_sorted (map to_c subs) -> valid_key key ->
  Search subs key = Some (found, i) -> exists r, search (map to_c subs) key = Some r /\
  match r with inl j => found = true /\ Z.to_nat j = i | inr no => found = false /\ Z.to_nat no = i end /\
  search_ok (map to_c subs) key r.
Proof.
  intros Hs Hk E. destruct (Search_spec subs key Hs Hk) as (f' & i' & E' & Hg). rewrite E in E'. injection E' as <- <-.
  destruct (search_spec (map to_c subs) key Hs Hk) as (r & Er & Hc). exists r. split; [done|]. split; [|done].
  assert (forall x j, map to_c subs !! j = Some x -> n_key x = key -> forall no, ~ search_ok (map to_c subs) key (inr no)) as Habs.
  { intros x j Hx Ex no Hno. apply (search_ok_absent _ _ _ Hno). rewrite <- Ex. apply list_elem_of_fmap_2. by eapply list_elem_of_lookup_2. }
  destruct r as [j|no], found; simpl in *.
  - destruct Hc as (x & Hx & Ex), Hg as (y & Hy & Ey). rewrite Nat2Z.id in Hy. split; [done|].
    destruct (Nat.lt_trichotomy (Z.to_nat j) i) as [Hlt|[?|Hlt]]; [|done|]; exfalso; apply (key_lt_irrefl key).
    + pose proof (subs_lookup_lt _ _ _ x y Hs Hx Hy Hlt) as H. by rewrite Ex, Ey in H.
    + pose proof (subs_lookup_lt _ _ _ y x Hs Hy Hx Hlt) as H. by rewrite Ex, Ey in H.
  - destruct Hc as (x & Hx & Ex). by destruct (Habs x _ Hx Ex (Z.of_nat i)).
  - destruct Hg as (y & Hy & Ey). by destruct (Habs y _ Hy Ey no).
  - split; [done|]. destruct Hc as (H1 & L1 & U1), Hg as (H2 & L2 & U2). rewrite length_map in *.
    destruct (Z.lt_trichotomy no (Z.of_nat i)) as [Hlt|[?|Hlt]]; [|lia|]; exfalso.
    + destruct (lookup_lt_is_Some_2 (map to_c subs) (Z.to_nat no)) as (x & Hx); [rewrite length_map; lia|].
      apply (key_lt_irrefl key). etrans; [apply (U1 _ x Hx); lia|apply (L2 _ x Hx); lia].
    + destruct (lookup_lt_is_Some_2 (map to_c subs) i) as (x & Hx); [rewrite length_map; lia|].
      apply (key_lt_irrefl key). etrans; [apply (U2 _ x Hx); lia|apply (L1 _ x Hx); lia].
Qed.

(** The C node of a Go node: a new node has no type yet. *)
Definition same_node (n : gnode) (cn : bconf_node) : Prop :=
  cn = to_c n \/ exists k, n = Node k [] 0 /\ cn = new_node k.

Lemma star_idx_insert subs starIdx idx key v : star_idx subs starIdx -> (idx <= length subs)%nat -> Key v = key ->
  (key ∉ map Key subs) ->
  star_idx (take idx subs ++ v :: drop idx subs)
    (if Z.of_nat idx <? starIdx then starIdx + 1 else if bool_decide (key = star_key) then Z.of_nat idx + 1 else starIdx).
Proof.
  intros Hi Hle <- Hn. unfold star_idx.
  assert ((take idx subs ++ v :: drop idx subs) !! idx = Some v) as Hat.
  { rewrite lookup_app_r by (rewrite length_take; lia). rewrite length_take, Nat.min_l, Nat.sub_diag by lia. done. }
  destruct (Z.ltb_spec (Z.of_nat idx) starIdx) as [Hlt|Hge].
  - destruct Hi as [[-> _]|(Hp & c & Hc & E)]; [lia|]. right. split; [lia|]. exists c. split; [|done].
    rewrite lookup_app_r by (rewrite length_take; lia). rewrite length_take, Nat.min_l by lia.
    replace (Z.to_nat (starIdx + 1 - 1) - idx)%nat with (S (Z.to_nat (starIdx - 1) - idx)) by lia. simpl.
    rewrite lookup_drop. rewrite <- Hc. f_equal. lia.
  - case_bool_decide as Hk.
    + right. split; [lia|]. exists v. split; [|done]. by replace (Z.to_nat (Z.of_nat idx + 1 - 1)) with idx by lia.
    + destruct Hi as [[-> Hns]|(Hp & c & Hc & E)].
      * left. split; [done|]. rewrite map_app. simpl. rewrite elem_of_app, elem_of_cons.
        rewrite <- (take_drop idx subs), map_app, elem_of_app in Hns. intros [?|[?|?]]; [tauto|congruence|tauto].
      * right. split; [done|]. exists c. split; [|done]. rewrite lookup_app_l by (rewrite length_take; apply lookup_lt_Some in Hc; lia).
        by rewrite lookup_take_lt by lia.
Qed.

(** Inserting into a node where the search says. *)
Lemma insert_agrees k subs starIdx key i c cn : g_ok (Node k subs starIdx) -> same_node (Node k subs starIdx) cn -> valid_key key ->
  Search subs key = Some (false, i) -> g_ok c -> Key c = key ->
  exists n', insert (Node k subs starIdx) i key c = Some n' /\ g_ok n' /\ Key n' = k /\
    bconf_get_node cn key = Some (Added (i, mk_node k NODE_LIST None (bool_decide (key = star_key) || (0 <? starIdx))
      (take i (map to_c subs) ++ new_node key :: drop i (map to_c subs)))) /\
    to_c n' = mk_node k NODE_LIST None (bool_decide (key = star_key) || (0 <? starIdx))
      (take i (map to_c subs) ++ to_c c :: drop i (map to_c subs)).
Proof.
  intros Hok Hcn Hk E Hc Ec. inversion Hok as [|? ? ? Hs Hi Hf]; subst.
  destruct (search_agrees subs (Key c) false i Hs Hk E) as ([j|no] & Er & [Hb Ei] & Hr); [done|]. clear Hb.
  pose proof (search_ok_absent _ _ _ Hr) as Hn. rewrite keys_to_c in Hn. destruct Hr as (Hno & Hlow & Hhigh). rewrite length_map in Hno.
  eexists. split; [done|]. split; [|split; [done|]].
  - constructor.
    + rewrite map_app, <- firstn_map. simpl. rewrite <- skipn_map. apply insert_sorted; [done|by rewrite key_to_c|..]; rewrite key_to_c.
      * intros m [l Hl]%list_elem_of_lookup. apply lookup_take_Some in Hl as [Hl Hlt]. apply (Hlow l); [done|lia].
      * intros m [l Hl]%list_elem_of_lookup. rewrite lookup_drop in Hl. apply (Hhigh _ _ Hl). lia.
    + apply star_idx_insert; [done|lia|done|done].
    + apply Forall_app. split; [by apply Forall_take|]. constructor; [done|by apply Forall_drop].
  - split.
    + unfold bconf_get_node. destruct Hcn as [->|(k' & [= -> -> ->] & ->)].
      * unfold node_search, node_insert. cbn [to_c is_list n_type n_subs n_key n_star n_value new_node]. rewrite decide_True by done.
        rewrite Er. cbn [mbind option_bind]. by rewrite Ei.
      * simpl in *. injection Er as <-. simpl in Ei. subst i. reflexivity.
    + simpl. rewrite map_app, <- firstn_map. simpl. rewrite <- skipn_map. f_equal.
      destruct (Z.ltb_spec (Z.of_nat i) starIdx).
      { rewrite (proj2 (Z.ltb_lt 0 starIdx)), orb_true_r by lia. apply Z.ltb_lt. lia. }
      case_bool_decide; simpl; [apply Z.ltb_lt; lia|done].
Qed.

Lemma Search_found subs key i : subs_sorted (map to_c subs) -> valid_key key -> Search subs key = Some (true, i) ->
  exists c, subs !! i = Some c /\ Key c = key.
Proof.
  intros Hs Hk E. destruct (Search_spec subs key Hs Hk) as (f & i' & E' & Hr). rewrite E in E'. injection E' as <- <-.
  destruct Hr as (x & Hx & Ex). rewrite Nat2Z.id, lookup_to_c in Hx. destruct (subs !! i) as [c|]; [|done].
  injection Hx as <-. exists c. by rewrite key_to_c in Ex.
Qed.

(** The sub node is there in both trees. *)
Lemma found_agrees k subs starIdx key i cn : g_ok (Node k subs starIdx) -> same_node (Node k subs starIdx) cn -> valid_key key ->
  Search subs key = Some (true, i) ->
  cn = to_c (Node k subs starIdx) /\ bconf_get_node cn key = Some (Added (i, cn)).
Proof.
  intros Hok Hcn Hk E. inversion Hok as [|? ? ? Hs Hi Hf]; subst.
  destruct Hcn as [->|(k' & [= -> -> ->] & ->)]; [|done]. split; [done|].
  destruct (search_agrees subs key true i Hs Hk E) as ([j|no] & Er & [Hb Ei] & Hr); [|done].
  unfold bconf_get_node, node_search. cbn [to_c is_list n_type n_subs]. rewrite decide_True by done. rewrite Er.
  cbn [mbind option_bind]. by rewrite Ei.
Qed.

Lemma set_subnode_ok k subs starIdx i c c' : g_ok (Node k subs starIdx) -> subs !! i = Some c -> g_ok c' -> Key c' = Key c ->
  g_ok (set_subnode (Node k subs starIdx) i c') /\
  to_c (set_subnode (Node k subs starIdx) i c') = set_sub (to_c (Node k subs starIdx)) i (to_c c').
Proof.
  intros Hok Hc Hok' E. inversion Hok as [|? ? ? Hs Hi Hf]; subst.
  assert (map to_c (<[i := c']> subs) = <[i := to_c c']> (map to_c subs)) as Em by apply (list_fmap_insert to_c).
  split; [|unfold set_sub; simpl; by rewrite Em]. constructor.
  - rewrite Em. eapply subs_sorted_keys; [|exact Hs]. eapply keys_insert; [by rewrite lookup_to_c, Hc|]. by rewrite !key_to_c.
  - destruct Hi as [[-> Hn]|(Hp & x & Hx & Ex)]; [left|right].
    + split; [done|]. assert (map Key (<[i := c']> subs) = <[i := Key c']> (map Key subs)) as -> by apply (list_fmap_insert Key).
      rewrite list_insert_id; [done|]. by rewrite (list_lookup_fmap Key), Hc, E.
    + split; [done|]. destruct (decide (i = Z.to_nat (starIdx - 1))) as [->|Hne].
      * exists c'. rewrite list_lookup_insert_eq by (by eapply lookup_lt_Some). simplify_eq. split; [done|congruence].
      * exists x. by rewrite list_lookup_insert_ne.
  - by apply Forall_insert.
Qed.

Lemma set_sub_insert k t v st subs i x y : (i <= length subs)%nat ->
  set_sub (mk_node k t v st (take i subs ++ x :: drop i subs)) i y = mk_node k t v st (take i subs ++ y :: drop i subs).
Proof.
  intros Hi. unfold set_sub. simpl. f_equal. rewrite insert_app_r_alt by (rewrite length_take; lia).
  by rewrite length_take, Nat.min_l, Nat.sub_diag by lia.
Qed.

Abbreviation c_add v := (fun n => bconf_add_dataX n (Some v) BCONF_DUP).

(** What adding to a Go node does, and what it does to the C node. *)
Definition added_as (n : gnode) (kv : list (list Z)) (v : list Z) (cn : bconf_node) : Prop :=
  exists ok n' a, addvf n kv v = Some (ok, n') /\ g_ok n' /\ Key n' = Key n /\ bconf_lookup_addv cn kv (c_add v) = Some a /\
  match a with
  | Conflict => ok = false /\ n' = n
  | Added (r, cn') => cn' = to_c n' /\ if ok then r = 0 \/ r = 1 else r = -1 /\ n' = n
  end.

Lemma add_new k kv v : kv <> [] -> exists n', addvf (Node k [] 0) kv v = Some (true, n').
Proof.
  revert k. induction kv as [|k0 kv IH]; [done|]. intros k _. destruct kv as [|k1 kv]; simpl; [by eexists|].
  destruct (IH k0) as (n' & E); [done|]. simpl in E. rewrite E. by eexists.
Qed.

(** Adding a leaf at a leaf or at nothing. *)
Lemma add_leaf_agrees k subs starIdx key v cn : g_ok (Node k subs starIdx) -> same_node (Node k subs starIdx) cn -> valid_key key ->
  added_as (Node k subs starIdx) [key] v cn.
Proof.
  intros Hok Hcn Hk. pose proof Hok as Hok'. inversion Hok' as [|? ? ? Hs Hi Hf]; subst.
  destruct (Search_spec subs key Hs Hk) as (found & i & E & Hr). unfold added_as. cbn [addvf bconf_lookup_addv]. rewrite E.
  cbn [mbind option_bind]. destruct found.
  - destruct (Search_found subs key i Hs Hk E) as (c & Hc & Ec).
    destruct (found_agrees k subs starIdx key i cn Hok Hcn Hk E) as [-> ->]. rewrite Hc. cbn [mbind option_bind].
    assert (n_subs (to_c (Node k subs starIdx)) !! i = Some (to_c c)) as -> by (simpl; by rewrite lookup_to_c, Hc).
    cbn [mbind option_bind]. destruct c as [kc vc|kc sc ic].
    + destruct (set_subnode_ok k subs starIdx i _ (Leaf kc v) Hok Hc) as [H1 H2]; [constructor|done|].
      assert (exists r, bconf_add_dataX (to_c (Leaf kc vc)) (Some v) BCONF_DUP = Some (r, to_c (Leaf kc v)) /\ (r = 0 \/ r = 1)) as (r & -> & Hrr).
      { unfold bconf_add_dataX. simpl. case_decide; (destruct (length v <=? length vc)%nat; (eexists; split; [done|auto])). }
      cbn [mbind option_bind]. eexists _, _, _. split; [done|]. split; [done|]. split; [done|].
      split; [done|]. by rewrite H2.
    + eexists _, _, _. split; [done|]. split; [done|]. split; [done|]. split; [done|]. simpl. split; [|done].
      unfold set_sub. simpl. f_equal. apply list_insert_id. by rewrite lookup_to_c, Hc.
  - destruct (insert_agrees k subs starIdx key i (Leaf key v) cn Hok Hcn Hk E) as (n' & -> & H1 & H2 & -> & H3); [constructor|done|].
    cbn [mbind option_bind]. exists true, n'. assert (i <= length (map to_c subs))%nat as Hle.
    { destruct Hr as (? & _). lia. }
    cbn [n_subs]. rewrite lookup_app_r by (rewrite length_take; lia). rewrite length_take, Nat.min_l, Nat.sub_diag by lia. cbn [lookup list_lookup mbind option_bind].
    eexists. split; [done|]. split; [done|]. split; [done|]. split; [done|]. split; [|by left].
    rewrite set_sub_insert by done. by rewrite H3.
Qed.

Lemma add_agrees kv : forall k subs starIdx v cn, kv <> [] -> g_ok (Node k subs starIdx) -> same_node (Node k subs starIdx) cn ->
  Forall valid_key kv -> added_as (Node k subs starIdx) kv v cn.
Proof.
  induction kv as [|key kv IH]; [done|]. intros k subs starIdx v cn _ Hok Hcn Hv. apply Forall_cons in Hv as [Hk Hv].
  destruct kv as [|key' kv]; [by apply add_leaf_agrees|]. assert (key' :: kv <> []) as Hne by done.
  remember (key' :: kv) as kv' eqn:Ekv. pose proof Hok as Hok'. inversion Hok' as [|? ? ? Hs Hi Hf]; subst k0 subs0 starIdx0.
  destruct (Search_spec subs key Hs Hk) as (found & i & E & Hr). unfold added_as.
  assert (addvf (Node k subs starIdx) (key :: kv') v = '(found, idx) ← Search subs key;
    if (found : bool) then c ← subs !! idx;
      match c with Leaf _ _ => Some (false, Node k subs starIdx)
      | Node _ _ _ => '(ok, c) ← addvf c kv' v; Some (ok, set_subnode (Node k subs starIdx) idx c) end
    else '(ok, c) ← addvf (Node key [] 0) kv' v; n' ← insert (Node k subs starIdx) idx key c; Some (ok, n')) as -> by (by subst kv').
  cbn [bconf_lookup_addv]. rewrite E. cbn [mbind option_bind]. destruct found.
  - destruct (Search_found subs key i Hs Hk E) as (c & Hc & Ec).
    destruct (found_agrees k subs starIdx key i cn Hok Hcn Hk E) as [-> ->]. rewrite Hc. cbn [mbind option_bind].
    assert (n_subs (to_c (Node k subs starIdx)) !! i = Some (to_c c)) as -> by (simpl; by rewrite lookup_to_c, Hc).
    cbn [mbind option_bind]. assert (g_ok c) as Hokc by (rewrite list.Forall_forall in Hf; apply Hf; by eapply list_elem_of_lookup_2).
    destruct c as [kc vc|kc sc ic].
    + exists false, (Node k subs starIdx), Conflict. split; [done|]. split; [done|]. split; [done|]. split; [|done].
      subst kv'. done.
    + destruct (IH kc sc ic v (to_c (Node kc sc ic)) Hne Hokc (or_introl eq_refl) Hv) as (ok & c' & a & -> & Hc' & Ek & -> & Ha).
      cbn [mbind option_bind]. destruct (set_subnode_ok k subs starIdx i _ c' Hok Hc Hc' Ek) as [H1 H2].
      assert (ok = false -> set_subnode (Node k subs starIdx) i c' = Node k subs starIdx) as Hsame.
      { intros ->. simpl. f_equal. apply list_insert_id. rewrite Hc. f_equal. destruct a as [|[r cn']]; [by destruct Ha|by destruct Ha as (_ & _ & ?)]. }
      exists ok, (set_subnode (Node k subs starIdx) i c'). destruct a as [|[r cn']].
      * destruct Ha as [-> ->]. rewrite Hsame by done. by exists Conflict.
      * destruct Ha as [-> Ha]. eexists. split; [done|]. split; [done|]. split; [done|]. split; [done|]. split; [exact (eq_sym H2)|].
        destruct ok; [done|]. destruct Ha as [-> _]. split; [done|]. by apply Hsame.
  - assert (g_ok (Node key [] 0)) as Hnew.
    { constructor; [split; constructor|left; split; [done|apply not_elem_of_nil]|constructor]. }
    destruct (IH key [] 0 v (new_node key) Hne Hnew (or_intror (ex_intro _ key (conj eq_refl eq_refl))) Hv) as (ok & c' & a & Ea & Hc' & Ek & Eb & Ha).
    destruct (add_new key kv' v Hne) as (c'' & E''). rewrite E'' in Ea. injection Ea as <- <-. rewrite E''. cbn [mbind option_bind].
    destruct (insert_agrees k subs starIdx key i c'' cn Hok Hcn Hk E Hc' Ek) as (n' & -> & H1 & H2 & -> & H3).
    cbn [mbind option_bind]. assert (i <= length (map to_c subs))%nat as Hle by (destruct Hr as (? & _); lia).
    cbn [n_subs]. rewrite lookup_app_r by (rewrite length_take; lia). rewrite length_take, Nat.min_l, Nat.sub_diag by lia.
    cbn [lookup list_lookup mbind option_bind]. rewrite Eb. destruct a as [|[r cn']]; [by destruct Ha|]. destruct Ha as [-> Hrr].
    exists true, n'. eexists. split; [done|]. split; [done|]. split; [done|]. split; [done|]. split; [|done].
    rewrite set_sub_insert by done. by rewrite H3.
Qed.

(** * Theorems *)

(** The Go library orders keys as the C library: numbers by length, then by
    characters. *)
Theorem go_key_order a b : valid_key a -> valid_key b -> KeyCompare a b = Z.sgn (keycomp a b).
Proof. intros Ha Hb. by rewrite KeyCompare_enc, keycomp_enc. Qed.

(** C36: Adding to a Go tree is adding to the C tree with the same content: both
    accept the value or both report a conflict, in which case nothing changes, and
    the trees have the same content afterwards. *)
Theorem go_add_refines n kv v : g_ok n -> is_leaf (Ref n) = false -> Forall valid_key kv ->
  exists ok n' r, Add n kv v = Some (ok, n') /\ g_ok n' /\ (ok = false -> n' = n) /\
    (kv <> [] -> bconf_add_datav_canfail (Some (to_c n)) (parts kv) v BCONF_DUP = Some (r, to_c n') /\ (ok = true <-> r <> -1)).
Proof.
  intros Hok Hl Hv. destruct n as [|k subs starIdx]; [done|]. unfold Add. destruct kv as [|k0 kv].
  { exists false, (Node k subs starIdx), 0. simpl. split; [done|]. split; [done|]. done. }
  assert (parts (k0 :: kv) <> []) as Hne by (destruct (split_first_parts k0 kv) as (p & ps & _ & ->); done).
  destruct (add_agrees (parts (k0 :: kv)) k subs starIdx v _ Hne Hok (or_introl eq_refl) (valid_parts _ Hv))
    as (ok & n' & a & -> & Hok' & _ & E & Ha).
  unfold bconf_add_datav_canfail. change (root_or_new (Some (to_c (Node k subs starIdx)))) with (to_c (Node k subs starIdx)). rewrite E. cbn [mbind option_bind].
  destruct a as [|[r cn']].
  - destruct Ha as [-> ->]. exists false, (Node k subs starIdx), (-1). split; [done|]. split; [done|]. split; [done|]. by split.
  - destruct Ha as [-> Ha]. exists ok, n', r. split; [done|]. split; [done|].
    destruct ok; [|by destruct Ha as [-> ->]]. split; [done|]. intros _. split; [done|]. split; [lia|done].
Qed.

(** * Findings *)

Definition starred : gnode :=
  default (Node [] [] 0) ('(_, n) ← Add (Node [] [] 0) [bytes "*.z"] (bytes "star"); snd <$> Add n [bytes "a.z"] (bytes "a")).

(** [Delete] leaves [starIdx] as it was: after deleting the star, a missing key is
    answered by the node that moved to its place, and if that was the last one
    the lookup panics. *)
Theorem go_delete_keeps_star :
  match Delete starred [bytes "*"] with
  | Some n => Get n [bytes "missing.z"] = Get n [bytes "a.z"] /\
              (n' ← Delete n [bytes "a"]; Get n' [bytes "missing.z"]) = None
  | None => False
  end.
Proof. vm_compute. done. Qed.

(** [Leaf] says true for the nil leaf that [Get] returns for a key below a leaf, so
    a program that asks for it takes a missing key for an empty string. *)
Theorem go_missing_is_leaf :
  match Get starred [bytes "a.z.q"] with
  | Some r => Valid r = false /\ is_leaf r = true /\ to_string r [] = []
  | None => False
  end.
Proof. vm_compute. done. Qed.

(** * Examples *)


Lemma empty_ok : g_ok (Node [] [] 0).
Proof. constructor; [split; constructor|left; split; [done|apply not_elem_of_nil]|constructor]. Qed.

Lemma starred_ok : g_ok starred.
Proof.
  assert (forall n kv v n', g_ok n -> is_leaf (Ref n) = false -> Forall valid_key (parts kv) -> parts kv <> [] ->
    Add n kv v = Some (true, n') -> g_ok n') as Hadd.
  { intros n kv v n' Hok Hl Hv Hne E. destruct n as [|k subs i]; [done|].
    destruct (add_agrees _ k subs i v _ Hne Hok (or_introl eq_refl) Hv) as (ok & m & a & E' & Hm & _).
    unfold Add in E. rewrite E in E'. by simplify_eq. }
  set (n1 := default (Node [] [] 0) (snd <$> Add (Node [] [] 0) [bytes "*.z"] (bytes "star"))).
  assert (g_ok n1) as H1 by (apply (Hadd (Node [] [] 0) [bytes "*.z"] (bytes "star")); [apply empty_ok|done|vm_compute; by repeat constructor|done|by vm_compute]).
  apply (Hadd n1 [bytes "a.z"] (bytes "a")); [done|done|vm_compute; by repeat constructor|done|by vm_compute].
Qed.

Lemma go_key_order_witness : KeyCompare (bytes "9") (bytes "10") = Z.sgn (keycomp (bytes "9") (bytes "10")).
Proof. apply (go_key_order (bytes "9") (bytes "10")); vm_compute; by repeat constructor. Defined.

Lemma go_get_agrees_witness :
  exists r, Get starred [bytes "q.z"] = Some r /\ bconf_vget (Some (to_c starred)) [bytes "q.z"] = Some (ref_c r).
Proof. apply (go_get_agrees starred [bytes "q.z"]); [exact starred_ok|vm_compute; by repeat constructor]. Defined.

Lemma go_add_refines_witness : exists ok n' r, Add starred [bytes "a.y"] (bytes "v") = Some (ok, n') /\
  bconf_add_datav_canfail (Some (to_c starred)) (parts [bytes "a.y"]) (bytes "v") BCONF_DUP = Some (r, to_c n').
Proof.
  destruct (go_add_refines starred [bytes "a.y"] (bytes "v") starred_ok) as (ok & n' & r & E & _ & _ & H);
    [done|vm_compute; by repeat constructor|]. exists ok, n', r. split; [exact E|]. by apply H.
Defined.
