(* ===== verification/Config.v ===== *)
(** Config: reading configuration files into bconf trees (src/vtree/lib/config.c).

    The files of the system are a function from names to contents, the
    environment a function from names to values, and [fds] the number of files
    that can still be opened: an included file is read while the one that includes
    it is open, so this is what ends a file that includes itself.  A pointer to a
    node of the tree that is merged is the path to the node.  [None] is the exit
    on a conflict. *)
From stdpp Require Import prelude list numbers.
From Stdlib Require Import ZArith Lia.
From S2P Require Import Prelude Bconf BconfReach.

Local Open Scope Z_scope.

(** * Lines *)

(** The part of a string before the first [c], and the part after it if there is one. *)
Fixpoint cut (c : Z) (s : list Z) : list Z * option (list Z) :=
  match s with
  | [] => ([], None)
  | x :: s => if x =? c then ([], Some s) else let '(a, b) := cut c s in (x :: a, b)
  end.

Fixpoint lstrip (P : Z -> bool) (s : list Z) : list Z :=
  match s with
  | c :: r => if P c then lstrip P r else s
  | [] => []
  end.

Definition rstrip (P : Z -> bool) (s : list Z) : list Z := rev (lstrip P (rev s)).

(** What the calls of [fgets] read: at most 1023 bytes, up to a newline.  [room]
    more bytes fit after [cur], which is reversed. *)
Fixpoint fgets_loop (room : nat) (cur s : list Z) : list (list Z) :=
  match s with
  | [] => match cur with [] => [] | _ => [rev cur] end
  | c :: s =>
    match room with
    | S (S room) => if c =? 10 then rev (c :: cur) :: fgets_loop 1023 [] s else fgets_loop (S room) (c :: cur) s
    | _ => rev (c :: cur) :: fgets_loop 1023 [] s
    end
  end.

Definition bufs (s : list Z) : list (list Z) := fgets_loop 1023 [] s.

Definition is_prefix (p s : list Z) : bool := bool_decide (take (length p) s = p).

Definition env_open : list Z := bytes "$ENV{".

(** $ENV{name}, when the environment may be used: the name. *)
Definition env_name (allow_env : bool) (s : list Z) : option (list Z) :=
  if allow_env && is_prefix env_open s && bool_decide (last s = Some 125)
  then Some (drop 5 (removelast s)) else None.

Inductive directive := Skip | Include (name : list Z) | Assign (key value : list Z).

Section Env.
Context (getenv : list Z -> option (list Z)).

(** One turn of the loop, up to what it does with the line. *)
Definition parse_line (allow_env : bool) (buf : list Z) : directive :=
  let buf := fst (cut 10 (cstr buf)) in
  let rest := drop 7 buf in
  let n := lstrip (fun c => (c =? 32) || (c =? 9)) rest in
  if is_prefix (bytes "include") buf && negb (bool_decide (n = rest)) then
    match env_name allow_env n with
    | Some name => match getenv name with Some n => Include n | None => Skip end
    | None => Include n
    end
  else
    match cut 61 buf with
    | (_, None) => Skip
    | (key, Some value) =>
      let key := lstrip isspace key in
      if bool_decide (head key = Some 35) then Skip
      else
        let key := rstrip isspace key in
        let value := rstrip isspace (lstrip isspace value) in
        match env_name allow_env value with
        | Some name => match getenv name with Some v => Assign key v | None => Skip end
        | None => Assign key value
        end
    end.

(** * Files *)

(** dirname(3). *)
Definition dirname (s : list Z) : list Z :=
  let slash := fun c => c =? 47 in
  let no_slash := fun c => negb (c =? 47) in
  match rstrip slash s with
  | [] => match s with [] => bytes "." | _ => bytes "/" end
  | s => match rstrip no_slash s with
         | [] => bytes "."
         | dir => match rstrip slash dir with [] => bytes "/" | dir => dir end
         end
  end.

Definition include_name (filename n : list Z) : list Z :=
  if bool_decide (head n = Some 47) then n else dirname filename ++ bytes "/" ++ n.

(** The loop over the lines; [include] reads another file into the tree. *)
Fixpoint read_lines (include : list Z -> option bconf_node -> option (option bconf_node)) (allow_env : bool)
    (lines : list (list Z)) (root : option bconf_node) : option (option bconf_node) :=
  match lines with
  | [] => Some root
  | buf :: lines =>
    root ← (match parse_line allow_env buf with
            | Skip => Some root
            | Include n => include n root
            | Assign key value => Some <$> bconf_add_data root key value
            end);
    read_lines include allow_env lines root
  end.

Context (files : list Z -> option (list Z)).

Fixpoint config_init_file (fds : nat) (filename : list Z) (root : option bconf_node) (allow_env : bool) :
    option (Z * option bconf_node) :=
  match fds, files filename with
  | S fds, Some content =>
    root ← read_lines (fun n root => snd <$> config_init_file fds (include_name filename n) root allow_env)
             allow_env (bufs content) root;
    Some (0, root)
  | _, _ => Some (-1, root)
  end.

Definition config_init (fds : nat) (filename : list Z) : option (option bconf_node) :=
  '(r, root) ← config_init_file fds filename None true;
  Some (if r =? 0 then root else None).
End Env.

(** * Merging by host and application *)

(** The path to the node that [bconf_get] finds. *)
Fixpoint find_loc (n : bconf_node) (path : list (list Z)) : option (list (list Z)) :=
  match path with
  | [] => Some []
  | k :: path =>
    match child n k with
    | Some c => cons k <$> find_loc c path
    | None => s ← child n star_key; cons star_key <$> find_loc s path
    end
  end.

(** The pointer [bconf_vget] returns for two keys. *)
Definition vget2 (bconf : option bconf_node) (a b : list Z) : option (list (list Z)) :=
  n ← bconf; find_loc n (split_dots a ++ split_dots b).

(** Merge the node unless it is NULL or one of those merged before. *)
Definition merge_new (bconf root : option bconf_node) (loc : option (list (list Z))) (before : list (option (list (list Z)))) :
    option (option bconf_node) :=
  match loc with
  | None => Some root
  | Some p =>
    if bool_decide (loc ∈ before) then Some root
    else src ← (n ← bconf; find_path n p); Some ∘ snd <$> bconf_merge root (Some src)
  end.

Definition config_merge_bconf (root bconf : option bconf_node) (host appl : option (list Z)) : option (option bconf_node) :=
  let starstar := vget2 bconf star_key star_key in
  let starappl := appl ≫= fun appl => vget2 bconf star_key appl in
  let hoststar := host ≫= fun host => vget2 bconf host star_key in
  let hostappl := appl ≫= fun appl => host ≫= fun host => vget2 bconf host appl in
  root ← merge_new bconf root starstar [];
  root ← merge_new bconf root starappl [starstar];
  root ← merge_new bconf root hoststar [starstar; starappl];
  merge_new bconf root hostappl [starstar; starappl; hoststar].

Definition load_bconf_file getenv files (fds : nat) (appl : option (list Z)) (root : option bconf_node) (filename : list Z) :
    option (Z * option bconf_node) :=
  id ← bconf_get root (bytes "blocket_id");
  let host := id ≫= n_value in
  '(r, tmproot) ← config_init_file getenv files fds filename None false;
  if r =? 0 then root ← config_merge_bconf root tmproot host appl; Some (0, root) else Some (-1, root).

(** * Reading what was written *)

(** A line of a file: an assignment with white space around its parts, a comment, or
    something without an equals sign. *)
Inductive line := LAssign (s1 key s2 s3 value s4 : list Z) | LComment (s1 text : list Z) | LOther (text : list Z).

Definition line_text (l : line) : list Z :=
  match l with
  | LAssign s1 key s2 s3 value s4 => s1 ++ key ++ s2 ++ 61 :: s3 ++ value ++ s4
  | LComment s1 text => s1 ++ 35 :: text
  | LOther text => text
  end.

Definition blank (s : list Z) : Prop := Forall (fun c => isspace c = true) s.

(** Nothing to strip at the ends. *)
Definition trimmed (s : list Z) : Prop :=
  (forall c, head s = Some c -> isspace c = false) /\ (forall c, last s = Some c -> isspace c = false).

Definition plain_line (allow_env : bool) (l : line) : Prop :=
  Forall (fun c => c <> 0 /\ c <> 10) (line_text l) /\ (length (line_text l) < 1023)%nat /\
  is_prefix (bytes "include") (line_text l) = false /\
  match l with
  | LAssign s1 key s2 s3 value s4 =>
    blank s1 /\ blank s2 /\ blank s3 /\ blank s4 /\ key <> [] /\ trimmed key /\ head key <> Some 35 /\ (61 ∉ key) /\
    trimmed value /\ env_name allow_env value = None
  | LComment s1 text => blank s1
  | LOther text => 61 ∉ text
  end.

(** What a line adds. *)
Definition line_value (l : line) : option (list Z * list Z) :=
  match l with LAssign _ key _ _ value _ => Some (key, value) | _ => None end.

Fixpoint add_all (root : option bconf_node) (l : list (list Z * list Z)) : option (option bconf_node) :=
  match l with
  | [] => Some root
  | (key, value) :: l => root ← bconf_add_data root key value; add_all (Some root) l
  end.

Lemma cut_none c s : c ∉ s -> cut c s = (s, None).
Proof.
  induction s as [|x s IH]; [done|]. rewrite not_elem_of_cons. intros [Hx Hs]. simpl.
  rewrite (proj2 (Z.eqb_neq x c)) by congruence. by rewrite (IH Hs).
Qed.

Lemma cut_app c s r : c ∉ s -> cut c (s ++ c :: r) = (s, Some r).
Proof.
  induction s as [|x s IH]; simpl; [by rewrite Z.eqb_refl|]. rewrite not_elem_of_cons. intros [Hx Hs].
  rewrite (proj2 (Z.eqb_neq x c)) by congruence. by rewrite (IH Hs).
Qed.

Lemma cstr_id s : 0 ∉ s -> cstr s = s.
Proof.
  induction s as [|x s IH]; [done|]. rewrite not_elem_of_cons. intros [Hx Hs]. simpl.
  rewrite (proj2 (Z.eqb_neq x 0)) by congruence. by rewrite (IH Hs).
Qed.

Lemma fgets_line l : forall room cur s, 10 ∉ l -> (length l < room)%nat ->
  fgets_loop room cur (l ++ 10 :: s) = (rev cur ++ l ++ [10]) :: fgets_loop 1023 [] s.
Proof.
  induction l as [|c l IH]; intros room cur s Hn Hl; simpl in Hl.
  - destruct room as [|[|room]]; [lia|done|done].
  - rewrite not_elem_of_cons in Hn. destruct Hn as [Hc Hn]. destruct room as [|[|room]]; [lia|lia|].
    cbn [app fgets_loop]. rewrite (proj2 (Z.eqb_neq c 10)) by congruence. rewrite IH by (done || lia). simpl.
    by rewrite <- app_assoc.
Qed.

Lemma bufs_lines ls : Forall (fun l => (10 ∉ l) /\ (length l < 1023)%nat) ls ->
  bufs (concat (map (fun l => l ++ [10]) ls)) = map (fun l => l ++ [10]) ls.
Proof.
  unfold bufs. induction 1 as [|l ls [H1 H2] _ IH]; [done|]. cbn [map concat]. rewrite <- app_assoc. cbn [app].
  rewrite fgets_line by done. by rewrite IH.
Qed.

Lemma lstrip_app P s r : Forall (fun c => P c = true) s -> (forall c, head r = Some c -> P c = false) -> lstrip P (s ++ r) = r.
Proof.
  induction 1 as [|c s Hc _ IH]; intros Hr; simpl; [|rewrite Hc; auto]. destruct r as [|c r]; [done|]. simpl. by rewrite Hr.
Qed.

Lemma rstrip_app P s r : Forall (fun c => P c = true) r -> (forall c, last s = Some c -> P c = false) -> rstrip P (s ++ r) = s.
Proof.
  intros Hr Hs. unfold rstrip. rewrite rev_app_distr, lstrip_app; [apply rev_involutive| |].
  - rewrite rev_alt. by apply Forall_reverse.
  - intros c. rewrite rev_alt. change (rev_append s []) with (reverse s). rewrite head_reverse. apply Hs.
Qed.

Lemma head_app_ne {A} (a b : list A) : a <> [] -> head (a ++ b) = head a.
Proof. by destruct a. Qed.

Lemma blank_no_eq s : blank s -> 61 ∉ s.
Proof. intros Hs Hin. unfold blank in Hs. rewrite list.Forall_forall in Hs. by apply Hs in Hin. Qed.

Lemma parse_plain getenv allow_env l : plain_line allow_env l ->
  parse_line getenv allow_env (line_text l ++ [10]) = match line_value l with Some (k, v) => Assign k v | None => Skip end.
Proof.
  intros (Hc & _ & Hi & Hl). unfold parse_line.
  assert ((0 ∉ line_text l) /\ (10 ∉ line_text l)) as [H0 H10].
  { rewrite list.Forall_forall in Hc. split; intros Hin; destruct (Hc _ Hin); congruence. }
  rewrite cstr_id by (rewrite elem_of_app, list_elem_of_singleton; intros [Hin|?]; [by apply H0 in Hin|done]).
  rewrite cut_app by done. cbn [fst]. rewrite Hi. cbn [andb].
  destruct l as [s1 key s2 s3 value s4|s1 text|text]; cbn [line_text line_value] in *.
  - destruct Hl as (B1 & B2 & B3 & B4 & Hne & [Hk1 Hk2] & Hhash & Heq & [Hv1 Hv2] & Henv).
    replace (s1 ++ key ++ s2 ++ 61 :: s3 ++ value ++ s4) with ((s1 ++ key ++ s2) ++ 61 :: s3 ++ value ++ s4) by (by rewrite <- !app_assoc).
    rewrite cut_app by (rewrite !elem_of_app; intros [Hx|[Hx|Hx]]; [exact (blank_no_eq s1 B1 Hx)|exact (Heq Hx)|exact (blank_no_eq s2 B2 Hx)]).
    rewrite lstrip_app by (done || by rewrite head_app_ne). rewrite bool_decide_eq_false_2 by (by rewrite head_app_ne).
    rewrite (rstrip_app isspace key s2) by done.
    assert (rstrip isspace (lstrip isspace (s3 ++ value ++ s4)) = value) as ->; [|by rewrite Henv].
    destruct value as [|c value].
    + simpl. rewrite <- (app_nil_r (s3 ++ s4)), lstrip_app; [done|by apply Forall_app|done].
    + rewrite lstrip_app by done. by apply rstrip_app.
  - destruct (cut 61 (s1 ++ 35 :: text)) as [key [value|]] eqn:E; [|done].
    assert (head (lstrip isspace key) = Some 35) as H35; [|by rewrite bool_decide_eq_true_2].
    revert key E. clear -Hl. induction Hl as [|c s1 Hc _ IH]; intros key; simpl.
    + destruct (cut 61 text) as [a b]. by intros [= <- _].
    + assert ((c =? 61) = false) as -> by (destruct (Z.eqb_spec c 61) as [->|]; done).
      destruct (cut 61 (s1 ++ 35 :: text)) as [a b] eqn:E. intros [= <- Eb]. subst b. simpl. rewrite Hc. by apply IH.
  - by rewrite cut_none.
Qed.

(** Reading a file adds the value of every assignment in order, whatever white
    space is around keys and values; comments and other lines add nothing.  The
    lines have to fit into the buffer. *)
Theorem config_reads_lines getenv files fds filename root allow_env ls :
  files filename = Some (concat (map (fun l => line_text l ++ [10]) ls)) -> Forall (plain_line allow_env) ls ->
  config_init_file getenv files (S fds) filename root allow_env =
    root ← add_all root (omap line_value ls); Some (0, root).
Proof.
  intros Hf Hl. cbn [config_init_file]. rewrite Hf. rewrite <- (map_map line_text (fun l => l ++ [10])), bufs_lines.
  2: { apply Forall_fmap. eapply list.Forall_impl; [exact Hl|]. intros l (Hc & Hn & _). split; [|done].
       rewrite list.Forall_forall in Hc. intros Hin. destruct (Hc _ Hin). congruence. }
  f_equal. clear Hf. revert root. induction Hl as [|l ls Hp _ IH]; intros root; [done|].
  cbn [map read_lines]. rewrite (parse_plain _ _ _ Hp). cbn [omap list_omap]. unfold omap in IH.
  destruct (line_value l) as [[k v]|]; cbn [mbind option_bind add_all].
  - destruct (bconf_add_data root k v); cbn; [apply IH|done].
  - apply IH.
Qed.

(** * What is merged *)

Lemma find_loc_node path : forall n, (p ← find_loc n path; find_path n p) = find_star n path.
Proof.
  induction path as [|k path IH]; intros n; [done|]. simpl. destruct (child n k) as [c|] eqn:Hc.
  - rewrite <- IH. destruct (find_loc c path); simpl; [by rewrite Hc|done].
  - destruct (child n star_key) as [s|] eqn:Hs; simpl; [|done]. rewrite <- IH. destruct (find_loc s path); simpl; [by rewrite Hs|done].
Qed.

(** The nodes for a host and an application from the most general to the most
    specific, each only once. *)
Fixpoint new_locs (before locs : list (option (list (list Z)))) : list (list (list Z)) :=
  match locs with
  | [] => []
  | None :: locs => new_locs (before ++ [None]) locs
  | Some p :: locs => (if bool_decide (Some p ∈ before) then [] else [p]) ++ new_locs (before ++ [Some p]) locs
  end.

Definition sources (bconf : option bconf_node) (host appl : option (list Z)) : list bconf_node :=
  let at2 a b := a ≫= fun a => b ≫= fun b => vget2 bconf a b in
  omap (fun p => n ← bconf; find_path n p)
    (new_locs [] [at2 (Some star_key) (Some star_key); at2 (Some star_key) appl; at2 host (Some star_key); at2 host appl]).

(** Each of the sources can be merged into what the ones before it made of the tree. *)
Fixpoint all_compatible (dst : bconf_node) (srcs : list bconf_node) : Prop :=
  match srcs with
  | [] => True
  | s :: srcs => is_list s = true /\ compatible dst s /\ forall r d, merge_node dst s = Some (r, d) -> all_compatible d srcs
  end.

Fixpoint merge_all (root : option bconf_node) (srcs : list bconf_node) : option (option bconf_node) :=
  match srcs with
  | [] => Some root
  | s :: srcs => '(_, d) ← bconf_merge root (Some s); merge_all (Some d) srcs
  end.

Lemma merge_all_app root a b : merge_all root (a ++ b) = root ← merge_all root a; merge_all root b.
Proof.
  revert root. induction a as [|s a IH]; intros root; [done|]. cbn [app merge_all].
  destruct (bconf_merge root (Some s)) as [[r d]|]; cbn [mbind option_bind]; [apply IH|done].
Qed.

Definition loc_nodes (bconf : option bconf_node) : list (list (list Z)) -> list bconf_node :=
  omap (fun p => n ← bconf; find_path n p).

Lemma merge_new_all n root loc before : (forall p, loc = Some p -> is_Some (find_path n p)) ->
  merge_new (Some n) root loc before = merge_all root (loc_nodes (Some n) (new_locs before [loc])).
Proof.
  intros Hp. unfold merge_new, loc_nodes. destruct loc as [p|]; [|done]. cbn [new_locs]. case_bool_decide; [done|].
  destruct (Hp p eq_refl) as [m Hm]. cbn. rewrite Hm. cbn. by destruct (merge_node (root_or_new root) m) as [[r d]|].
Qed.

Lemma new_locs_cons before l locs : new_locs before (l :: locs) = new_locs before [l] ++ new_locs (before ++ [l]) locs.
Proof. destruct l; simpl; [|done]. by rewrite app_nil_r. Qed.

Lemma loc_nodes_app bconf a b : loc_nodes bconf (a ++ b) = loc_nodes bconf a ++ loc_nodes bconf b.
Proof. apply omap_app. Qed.

Lemma vget2_node n a b p : vget2 (Some n) a b = Some p -> node_ok n -> is_Some (find_path n p).
Proof.
  unfold vget2. cbn. intros E Hok. assert (forall path n p, find_loc n path = Some p -> is_Some (find_path n p)) as H; [|by eapply H].
  clear. induction path as [|k path IH]; intros n p; simpl; [by intros [= <-]|].
  destruct (child n k) as [c|] eqn:Hc; simpl; [|destruct (child n star_key) as [c|] eqn:Hs; simpl; [|done]];
    (destruct (find_loc c path) as [q|] eqn:E; simpl; [|done]; intros [= <-]; simpl).
  - rewrite Hc. simpl. by eapply IH.
  - rewrite Hs. simpl. by eapply IH.
Qed.

Lemma merge_locs_cons n root l locs before : (forall p, l = Some p -> is_Some (find_path n p)) ->
  merge_all root (loc_nodes (Some n) (new_locs before (l :: locs))) =
    root ← merge_new (Some n) root l before; merge_all root (loc_nodes (Some n) (new_locs (before ++ [l]) locs)).
Proof. intros Hp. rewrite new_locs_cons, loc_nodes_app, merge_all_app. by rewrite merge_new_all. Qed.

Lemma config_merge_sources n root host appl : node_ok n ->
  config_merge_bconf root (Some n) host appl = merge_all root (sources (Some n) host appl).
Proof.
  intros Hok. unfold config_merge_bconf, sources. fold (loc_nodes (Some n)).
  assert (forall (a b : option (list Z)) p, (a ≫= fun a => b ≫= fun b => vget2 (Some n) a b) = Some p -> is_Some (find_path n p)) as Hn.
  { intros [a|] [b|] p; try done. intros E. by eapply vget2_node. }
  assert ((appl ≫= fun b => host ≫= fun a => vget2 (Some n) a b) = (host ≫= fun a => appl ≫= fun b => vget2 (Some n) a b)) as ->
    by (by destruct host, appl).
  rewrite merge_locs_cons by apply Hn. apply option_bind_ext_fun. intros r1.
  rewrite merge_locs_cons by apply Hn. apply option_bind_ext_fun. intros r2.
  rewrite merge_locs_cons by apply Hn. apply option_bind_ext_fun. intros r3.
  rewrite merge_locs_cons by apply Hn. by destruct (merge_new _ _ _ _).
Qed.

(** The value of the last of the trees that has one. *)
Definition overlaid (root : bconf_node) (srcs : list bconf_node) (q : list (list Z)) : option (node_type * list Z) :=
  fold_left (fun acc s => union_value (value_at s q) acc) srcs (value_at root q).

(** C37: Merging a configuration for a host and an application gives every path the
    value of the most specific of its parts: of host and application, of the
    host, of the application, of all, and else what the tree had. *)
Theorem config_merge_precedence root n host appl :
  node_ok (root_or_new root) -> node_ok n -> all_compatible (root_or_new root) (sources (Some n) host appl) ->
  exists root', config_merge_bconf root (Some n) host appl = Some root' /\ node_ok (root_or_new root') /\
    forall q, value_at (root_or_new root') q = overlaid (root_or_new root) (sources (Some n) host appl) q.
Proof.
  intros Hr Hn. rewrite config_merge_sources by done. unfold overlaid.
  assert (Forall node_ok (sources (Some n) host appl)) as Hs.
  { apply list.Forall_forall. intros s (p & _ & Hp)%list_elem_of_omap. cbn in Hp.
    revert Hp. clear -Hn. revert n Hn. induction p as [|k p IH]; intros n Hn; simpl; [by intros [= <-]|].
    destruct (child n k) as [c|] eqn:Hc; simpl; [|done]. apply IH. by eapply child_ok. }
  revert root Hr. induction Hs as [|s srcs Hs _ IH]; intros root Hr Hc; [by exists root|].
  destruct Hc as (Hl & Hcs & Hrest). destruct (merge_node_ok s (root_or_new root) Hr Hs Hl Hcs) as (r & d & E & [Hd _ Hv]).
  cbn [merge_all]. change (bconf_merge root (Some s)) with (merge_node (root_or_new root) s). rewrite E. cbn [mbind option_bind].
  destruct (IH (Some d)) as (root' & E' & Hok' & Hv'); [done|by apply (Hrest r)|].
  exists root'. split; [done|]. split; [done|]. intros q. rewrite Hv'. cbn [fold_left]. simpl. by rewrite Hv.
Qed.

(** * Findings *)

(** A line that does not fit the buffer is read in pieces: a long value is cut, and
    its end is taken for a line of its own, here for another assignment. *)
Theorem config_long_line_split :
  let content := bytes "a=" ++ replicate 1021 120 ++ bytes "b=2" ++ [10] in
  exists root, config_init_file (fun _ => None) (fun _ => Some content) 1 (bytes "f") None true = Some (0, Some root) /\
    value_at root [bytes "a"] = Some (NODE_VAL, replicate 1021 120) /\
    value_at root [bytes "b"] = Some (NODE_VAL, bytes "2").
Proof. eexists. split; [vm_compute; reflexivity|]. split; vm_compute; reflexivity. Qed.

(** A file that includes itself is read until no more files can be opened. *)
Theorem config_self_include :
  config_init_file (fun _ => None) (fun _ => Some (bytes "include f" ++ [10] ++ bytes "a=1" ++ [10])) 9 (bytes "f") None true =
  Some (0, bconf_add_data None (bytes "a") (bytes "1")).
Proof. vm_compute. reflexivity. Qed.

(** * Examples *)

Definition sample_lines : list line :=
  [LComment [32] (bytes " a = comment"); LAssign [] (bytes "db.host") [32] [9] (bytes "my host") [32];
   LOther []; LAssign [] (bytes "db.port") [] [] [] []].

Lemma config_reads_lines_witness :
  config_init_file (fun _ => None) (fun _ => Some (concat (map (fun l => line_text l ++ [10]) sample_lines))) 1 (bytes "f") None true =
    root ← add_all None (omap line_value sample_lines); Some (0, root).
Proof.
  apply (config_reads_lines (fun _ => None) (fun _ => Some (concat (map (fun l => line_text l ++ [10]) sample_lines))) 0 (bytes "f") None true sample_lines);
    [reflexivity|].
  repeat constructor; try (apply (bool_decide_unpack _); vm_compute; exact I); try done; try (vm_compute; lia).
  all: vm_compute; by intros ? [= <-].
Defined.

Definition site : bconf_node :=
  default root_node (root ← add_all None [(bytes "*.*.a", bytes "all"); (bytes "*.app.b", bytes "app"); (bytes "h1.app.a", bytes "both")]; root).

Lemma config_merge_precedence_witness :
  exists root', config_merge_bconf None (Some site) (Some (bytes "h1")) (Some (bytes "app")) = Some root' /\
    value_at (root_or_new root') [bytes "a"] = Some (NODE_VAL, bytes "both") /\
    value_at (root_or_new root') [bytes "b"] = Some (NODE_VAL, bytes "app").
Proof.
  destruct (config_merge_precedence None site (Some (bytes "h1")) (Some (bytes "app"))) as (root' & E & _ & Hv).
  - apply new_node_ok.
  - apply node_okb_ok. vm_compute. reflexivity.
  - vm_compute sources. repeat (split; [reflexivity|]; split; [apply compatibleb_ok; vm_compute; reflexivity|]; intros ? ? E; vm_compute in E; injection E as <- <-).
    exact I.
  - exists root'. split; [exact E|]. rewrite !Hv. vm_compute. done.
Defined.
