(* ===== verification/Vtree.v ===== *)
(** Vtree: the tree interface of src/vtree/lib/vtree.c and vtree.h.

    A chain is a dispatch table with its data and the next chain.  The tables of
    vtree.c itself, shadow and prefix, are constructors; those of other files are
    values of a type [X] whose operations are a [VtreeBackend], which
    BconfVtree.v implements for bconf.  The operations are computations in the
    monad [M]: they read and set the cacheability that the callers pass by
    reference, and fail ([None]) where the code would dereference a NULL pointer
    or VTREE_LOOP.  Argument vectors are NULL terminated, as the callers build
    them.  Releasing results is not modelled. *)
From stdpp Require Import prelude list numbers sorting pretty.
From Stdlib Require Import ZArith Lia.
From S2P Require Import Prelude.

Local Open Scope Z_scope.
#[local] Set Warnings "-register-all".

(** * Data *)

Inductive vtree_cacheable := VTCACHE_CANT | VTCACHE_UNKNOWN | VTCACHE_CAN | VTCACHE_USED.

#[export] Instance vtree_cacheable_eq_dec : EqDecision vtree_cacheable.
Proof. solve_decision. Defined.

(** The position in the enumeration, which orders by increasing cacheability. *)
Definition cc_num (c : vtree_cacheable) : Z :=
  match c with
  | VTCACHE_CANT => 0 | VTCACHE_UNKNOWN => 1 | VTCACHE_CAN => 2 | VTCACHE_USED => 3
  end.

(** An argument is a key or VTREE_LOOP. *)
Inductive arg := Key (k : list Z) | VTREE_LOOP.

Inductive vtree_keyvals_type := vktUnknown | vktDict | vktList.

#[export] Instance vtree_keyvals_type_eq_dec : EqDecision vtree_keyvals_type.
Proof. solve_decision. Defined.

Inductive vtree_value (T : Type) := vkvNone | vkvValue (v : list Z) | vkvNode (n : T).
Arguments vkvNone {T}.
Arguments vkvValue {T} v.
Arguments vkvNode {T} n.

Record vtree_keyvals_elem (T : Type) := mk_elem { kv_key : option (list Z); kv_val : vtree_value T }.
Arguments mk_elem {T}.
Arguments kv_key {T}.
Arguments kv_val {T}.

Record vtree_keyvals (T : Type) := mk_keyvals {
  kv_type : vtree_keyvals_type;
  kv_list : list (vtree_keyvals_elem T)
}.
Arguments mk_keyvals {T}.
Arguments kv_type {T}.
Arguments kv_list {T}.

(** [Null] has no dispatch table.  In [Shadow] the top is the tree of the
    [struct shadow_vtree], absent if that pointer is NULL. *)
Inductive vtree_chain (X : Type) :=
| Null
| Ext (x : X)
| Shadow (top next : option (vtree_chain X))
| Prefix (prefix : list Z) (next : option (vtree_chain X)).
Arguments Null {X}.
Arguments Ext {X} x.
Arguments Shadow {X} top next.
Arguments Prefix {X} prefix next.

(** * Computations that set the cacheability *)

Definition M (A : Type) : Type := vtree_cacheable -> option (A * vtree_cacheable).

#[export] Instance M_ret : MRet M := fun A a cc => Some (a, cc).
#[export] Instance M_bind : MBind M := fun A B k m cc =>
  match m cc with Some (a, cc) => k a cc | None => None end.

Definition crash {A} : M A := fun _ => None.
Definition set_cc (cc : vtree_cacheable) : M () := fun _ => Some ((), cc).
Definition lift {A} (o : option A) : M A := fun cc => (fun a => (a, cc)) <$> o.

(** Unfold the monad in the goal. *)
Ltac run_M := unfold set_cc, lift, mbind, M_bind, mret, M_ret; cbv beta iota.

(** What a dispatch table promises: one operation per member.  The values that
    [fetch_values] stores may be NULL. *)
Class VtreeBackend (X : Type) := {
  ext_getlen : X -> list arg -> M Z;
  ext_get : X -> list arg -> M (option (list Z));
  ext_haskey : X -> list arg -> M bool;
  ext_fetch_keys : X -> list arg -> M (list (list Z));
  ext_fetch_values : X -> list arg -> M (list (option (list Z)));
  ext_fetch_byval : X -> list Z -> list arg -> M (list (list Z));
  ext_getnode : X -> list arg -> M (option (vtree_chain X));
  ext_fetch_nodes : X -> list arg -> M (list (vtree_chain X));
  ext_fetch_keys_and_values : X -> list arg -> M (vtree_keyvals (vtree_chain X))
}.

Section Chains.
Context {X : Type} `{!VtreeBackend X}.
Implicit Types (v : vtree_chain X) (vchain top next : option (vtree_chain X)) (argv : list arg).

Definition has_fun (v : option (vtree_chain X)) : bool :=
  match v with None | Some Null => false | _ => true end.

(** The dispatch of a member [f] through a pointer. *)
Definition bpv {A} (f : vtree_chain X -> M A) (v : option (vtree_chain X)) : M A :=
  match v with None => crash | Some v => f v end.

(** * The shadow tree *)

Definition shadow_vtree_getlen (getlen : vtree_chain X -> list arg -> M Z) top next argv : M Z :=
  let below :=
    res ← bpv (fun v => getlen v argv) next;
    if res =? 0 then _ ← set_cc VTCACHE_UNKNOWN; mret res else mret res in
  if has_fun top then
    match argv with
    | [] =>
      _ ← set_cc VTCACHE_CANT;
      a ← bpv (fun v => getlen v argv) top;
      b ← bpv (fun v => getlen v argv) next;
      mret (a + b)
    | _ =>
      res ← bpv (fun v => getlen v argv) top;
      if res =? 0 then below else _ ← set_cc VTCACHE_CANT; mret res
    end
  else below.

Definition shadow_vtree_get (get : vtree_chain X -> list arg -> M (option (list Z)))
    top next argv : M (option (list Z)) :=
  let below :=
    if has_fun next then
      res ← bpv (fun v => get v argv) next;
      match res with None => _ ← set_cc VTCACHE_UNKNOWN; mret None | Some _ => mret res end
    else _ ← set_cc VTCACHE_UNKNOWN; mret None in
  if has_fun top then
    match argv with
    | [] => mret None
    | _ =>
      res ← bpv (fun v => get v argv) top;
      match res with None => below | Some _ => _ ← set_cc VTCACHE_CANT; mret res end
    end
  else below.

Definition shadow_vtree_haskey (haskey : vtree_chain X -> list arg -> M bool)
    top next argv : M bool :=
  let below :=
    res ← bpv (fun v => haskey v argv) next;
    if (res : bool) then mret res else _ ← set_cc VTCACHE_UNKNOWN; mret res in
  if has_fun top then
    match argv with
    | [] => mret false
    | _ =>
      res ← bpv (fun v => haskey v argv) top;
      if (res : bool) then _ ← set_cc VTCACHE_CANT; mret true else below
    end
  else below.

(** The first nonempty list wins. *)
Definition shadow_first {A} (fetch : vtree_chain X -> list arg -> M (list A)) top next argv :
    M (list A) :=
  let below :=
    l ← bpv (fun v => fetch v argv) next;
    match l with [] => _ ← set_cc VTCACHE_UNKNOWN; mret l | _ => mret l end in
  if has_fun top then
    l ← bpv (fun v => fetch v argv) top;
    match l with [] => below | _ => _ ← set_cc VTCACHE_CANT; mret l end
  else below.

(** qsort with [strcmpp]. *)
Definition str_le (a b : list Z) : Prop := lexcmp a b <= 0.
#[export] Instance str_le_dec a b : Decision (str_le a b) := Z_le_dec _ _.

(** The merging loop of [shadow_vtree_fetch_keys], with at most [fuel] turns. *)
Fixpoint merge_keys (fuel : nat) (l1 l2 : list (list Z)) : list (list Z) :=
  match fuel, l1, l2 with
  | S fuel, k1 :: r1, k2 :: r2 =>
    let c := lexcmp k1 k2 in
    if c <? 0 then k1 :: merge_keys fuel r1 l2
    else if c =? 0 then k1 :: merge_keys fuel r1 r2
    else k2 :: merge_keys fuel l1 r2
  | _, _, _ => []
  end.

Definition shadow_vtree_fetch_keys (fetch_keys : vtree_chain X -> list arg -> M (list (list Z)))
    top next argv : M (list (list Z)) :=
  if has_fun top then
    match argv with
    | [] =>
      _ ← set_cc VTCACHE_CANT;
      l1 ← bpv (fun v => fetch_keys v argv) top;
      l2 ← bpv (fun v => fetch_keys v argv) next;
      mret (merge_keys (length l1 + length l2) (merge_sort str_le l1) (merge_sort str_le l2))
    | _ => shadow_first fetch_keys top next argv
    end
  else shadow_first fetch_keys top next argv.

Definition shadow_vtree_fetch_values (fetch_values : vtree_chain X -> list arg -> M (list (option (list Z))))
    top next argv : M (list (option (list Z))) :=
  shadow_first fetch_values top next argv.

Definition shadow_vtree_fetch_keys_by_value
    (fetch_byval : vtree_chain X -> list Z -> list arg -> M (list (list Z)))
    top next (value : list Z) argv : M (list (list Z)) :=
  shadow_first (fun v => fetch_byval v value) top next argv.

Definition shadow_vtree_getnode (getnode : vtree_chain X -> list arg -> M (option (vtree_chain X)))
    top next argv : M (option (vtree_chain X)) :=
  let below :=
    res ← bpv (fun v => getnode v argv) next;
    match res with None => _ ← set_cc VTCACHE_UNKNOWN; mret res | Some _ => mret res end in
  if has_fun top then
    match argv with
    | [] => mret (Some (Shadow top next))
    | _ =>
      res ← bpv (fun v => getnode v argv) top;
      match res with None => below | Some _ => _ ← set_cc VTCACHE_CANT; mret res end
    end
  else below.

Definition shadow_vtree_fetch_nodes (fetch_nodes : vtree_chain X -> list arg -> M (list (vtree_chain X)))
    top next argv : M (list (vtree_chain X)) :=
  shadow_first fetch_nodes top next argv.

(** [shadow_vtree_kv_cmp]: the order of two keys, which must not be NULL. *)
Definition kv_le (a b : vtree_keyvals_elem (vtree_chain X)) : Prop := str_le (default [] (kv_key a)) (default [] (kv_key b)).
#[export] Instance kv_le_dec a b : Decision (kv_le a b) := str_le_dec _ _.

(** qsort with [shadow_vtree_kv_cmp], which is not called on a single element. *)
Definition kv_qsort (l : list (vtree_keyvals_elem (vtree_chain X))) : option (list (vtree_keyvals_elem (vtree_chain X))) :=
  if (length l <=? 1)%nat then Some l
  else if forallb (fun e => bool_decide (is_Some (kv_key e))) l then Some (merge_sort kv_le l)
  else None.

(** The order of the heads of the two lists in the merging loop. *)
Definition kv_order (t1 t2 : vtree_keyvals_type) (e1 e2 : vtree_keyvals_elem (vtree_chain X)) : option Z :=
  if decide (t1 = vktList) then Some (-1)
  else if decide (t2 = vktList) then Some 1
  else k1 ← kv_key e1; k2 ← kv_key e2; Some (lexcmp k1 k2).

(** An element copied at index [len]: in a dict the key is duplicated, or is the
    index if there is none. *)
Definition kv_copy (t : vtree_keyvals_type) (len : Z) (e : vtree_keyvals_elem (vtree_chain X)) : vtree_keyvals_elem (vtree_chain X) :=
  if decide (t = vktList) then e
  else mk_elem (Some (default (bytes (pretty len)) (kv_key e))) (kv_val e).

Fixpoint kv_merge (fuel : nat) (t1 t2 t : vtree_keyvals_type) (l1 l2 : list (vtree_keyvals_elem (vtree_chain X))) (len : Z) :
    option (list (vtree_keyvals_elem (vtree_chain X))) :=
  match fuel with
  | O => match l1, l2 with [], [] => Some [] | _, _ => None end
  | S fuel =>
    match l1, l2 with
    | [], [] => Some []
    | [], e2 :: r2 => l ← kv_merge fuel t1 t2 t l1 r2 (len + 1); Some (kv_copy t len e2 :: l)
    | e1 :: r1, [] => l ← kv_merge fuel t1 t2 t r1 l2 (len + 1); Some (kv_copy t len e1 :: l)
    | e1 :: r1, e2 :: r2 =>
      c ← kv_order t1 t2 e1 e2;
      if c <? 0 then l ← kv_merge fuel t1 t2 t r1 l2 (len + 1); Some (kv_copy t len e1 :: l)
      else if c =? 0 then l ← kv_merge fuel t1 t2 t r1 r2 (len + 1); Some (kv_copy t len e1 :: l)
      else l ← kv_merge fuel t1 t2 t l1 r2 (len + 1); Some (kv_copy t len e2 :: l)
    end
  end.

Definition kv_merged (a b : vtree_keyvals (vtree_chain X)) : option (vtree_keyvals (vtree_chain X)) :=
  l1 ← kv_qsort (kv_list a);
  l2 ← kv_qsort (kv_list b);
  let t := if decide (kv_type a = kv_type b) then kv_type a else vktUnknown in
  l ← kv_merge (length l1 + length l2) (kv_type a) (kv_type b) t l1 l2 0;
  Some (mk_keyvals t l).

Definition no_keyvals : vtree_keyvals (vtree_chain X) := mk_keyvals vktUnknown [].

Definition shadow_vtree_fetch_keys_and_values (fetch : vtree_chain X -> list arg -> M (vtree_keyvals (vtree_chain X)))
    top next argv : M (vtree_keyvals (vtree_chain X)) :=
  let below :=
    l ← bpv (fun v => fetch v argv) next;
    match kv_list l with [] => _ ← set_cc VTCACHE_UNKNOWN; mret l | _ => mret l end in
  let first :=
    l ← bpv (fun v => fetch v argv) top;
    match kv_list l with [] => below | _ => _ ← set_cc VTCACHE_CANT; mret l end in
  match argv with
  | [] => mret no_keyvals
  | _ =>
    if has_fun top then
      match argv with
      | [VTREE_LOOP] =>
        _ ← set_cc VTCACHE_CANT;
        l1 ← bpv (fun v => fetch v argv) top;
        l2 ← bpv (fun v => fetch v argv) next;
        lift (kv_merged l1 l2)
      | _ => first
      end
    else below
  end.

(** * The prefix tree *)

(** How a key compares with the prefix: it is the prefix, it continues after a
    dot, or it is something else. *)
Inductive prefix_match := Exact | Dotted (rest : list Z) | Other.

Fixpoint match_prefix (prefix key : list Z) : prefix_match :=
  match prefix, key with
  | [], [] => Exact
  | [], c :: rest => if c =? 46 then Dotted rest else Other
  | p :: prefix, c :: key => if p =? c then match_prefix prefix key else Other
  | _ :: _, [] => Other
  end.

(** The arguments for the next tree, [Some None] if the key does not match, and
    [None] where strncmp is called on VTREE_LOOP. *)
Definition prefix_args (prefix : list Z) argv : option (option (list arg)) :=
  match argv with
  | [] => Some None
  | VTREE_LOOP :: _ => None
  | Key k :: rest =>
    Some (match match_prefix prefix k with
          | Exact => Some rest
          | Dotted r => Some (Key r :: rest)
          | Other => None
          end)
  end.

Definition prefix_call {A} (prefix : list Z) argv (no : A) (f : list arg -> M A) : M A :=
  a ← lift (prefix_args prefix argv);
  match (a : option (list arg)) with Some argv => f argv | None => mret no end.

(** With VTREE_LOOP the prefix is the only key. *)
Definition prefix_call_loop {A} (prefix : list Z) argv (no : A) (f : list arg -> M A) : M A :=
  match argv with
  | VTREE_LOOP :: rest => f rest
  | _ => prefix_call prefix argv no f
  end.

Definition prefix_vtree_getlen (getlen : vtree_chain X -> list arg -> M Z) prefix next argv : M Z :=
  if has_fun next then prefix_call prefix argv 0 (fun argv => bpv (fun v => getlen v argv) next)
  else mret 0.

Definition prefix_vtree_get (get : vtree_chain X -> list arg -> M (option (list Z)))
    prefix next argv : M (option (list Z)) :=
  if has_fun next then prefix_call prefix argv None (fun argv => bpv (fun v => get v argv) next)
  else mret None.

Definition prefix_vtree_haskey (haskey : vtree_chain X -> list arg -> M bool)
    prefix next argv : M bool :=
  if has_fun next then prefix_call prefix argv false (fun argv => bpv (fun v => haskey v argv) next)
  else mret false.

Definition prefix_vtree_fetch_keys (fetch_keys : vtree_chain X -> list arg -> M (list (list Z)))
    prefix next argv : M (list (list Z)) :=
  match argv with
  | [] => mret [prefix]
  | _ => prefix_call prefix argv [] (fun argv => bpv (fun v => fetch_keys v argv) next)
  end.

Definition prefix_vtree_fetch_values (fetch_values : vtree_chain X -> list arg -> M (list (option (list Z))))
    prefix next argv : M (list (option (list Z))) :=
  prefix_call_loop prefix argv [] (fun argv => bpv (fun v => fetch_values v argv) next).

Definition prefix_vtree_fetch_keys_by_value
    (fetch_byval : vtree_chain X -> list Z -> list arg -> M (list (list Z)))
    prefix next (value : list Z) argv : M (list (list Z)) :=
  prefix_call_loop prefix argv [] (fun argv => bpv (fun v => fetch_byval v value argv) next).

Definition prefix_vtree_getnode (getnode : vtree_chain X -> list arg -> M (option (vtree_chain X)))
    prefix next argv : M (option (vtree_chain X)) :=
  match argv with
  | [] => mret (Some (Prefix prefix next))
  | _ => prefix_call prefix argv None (fun argv => bpv (fun v => getnode v argv) next)
  end.

Definition prefix_vtree_fetch_nodes (fetch_nodes : vtree_chain X -> list arg -> M (list (vtree_chain X)))
    prefix next argv : M (list (vtree_chain X)) :=
  match argv with
  | [] => bpv (fun v => mret [v]) next
  | _ => prefix_call prefix argv [] (fun argv => bpv (fun v => fetch_nodes v argv) next)
  end.

Definition prefix_vtree_fetch_keys_and_values (fetch : vtree_chain X -> list arg -> M (vtree_keyvals (vtree_chain X)))
    prefix next argv : M (vtree_keyvals (vtree_chain X)) :=
  match argv with
  | [VTREE_LOOP] =>
    bpv (fun v => mret (mk_keyvals vktDict [mk_elem (Some prefix) (vkvNode v)])) next
  | _ => prefix_call_loop prefix argv no_keyvals (fun argv => bpv (fun v => fetch v argv) next)
  end.

(** * Dispatch *)

Fixpoint bpv_getlen v argv {struct v} : M Z :=
  match v with
  | Null => crash
  | Ext x => ext_getlen x argv
  | Shadow top next => shadow_vtree_getlen bpv_getlen top next argv
  | Prefix prefix next => prefix_vtree_getlen bpv_getlen prefix next argv
  end.

Fixpoint bpv_get v argv {struct v} : M (option (list Z)) :=
  match v with
  | Null => crash
  | Ext x => ext_get x argv
  | Shadow top next => shadow_vtree_get bpv_get top next argv
  | Prefix prefix next => prefix_vtree_get bpv_get prefix next argv
  end.

Fixpoint bpv_haskey v argv {struct v} : M bool :=
  match v with
  | Null => crash
  | Ext x => ext_haskey x argv
  | Shadow top next => shadow_vtree_haskey bpv_haskey top next argv
  | Prefix prefix next => prefix_vtree_haskey bpv_haskey prefix next argv
  end.

Fixpoint bpv_fetch_keys v argv {struct v} : M (list (list Z)) :=
  match v with
  | Null => crash
  | Ext x => ext_fetch_keys x argv
  | Shadow top next => shadow_vtree_fetch_keys bpv_fetch_keys top next argv
  | Prefix prefix next => prefix_vtree_fetch_keys bpv_fetch_keys prefix next argv
  end.

Fixpoint bpv_fetch_values v argv {struct v} : M (list (option (list Z))) :=
  match v with
  | Null => crash
  | Ext x => ext_fetch_values x argv
  | Shadow top next => shadow_vtree_fetch_values bpv_fetch_values top next argv
  | Prefix prefix next => prefix_vtree_fetch_values bpv_fetch_values prefix next argv
  end.

Fixpoint bpv_fetch_byval v (value : list Z) argv {struct v} : M (list (list Z)) :=
  match v with
  | Null => crash
  | Ext x => ext_fetch_byval x value argv
  | Shadow top next => shadow_vtree_fetch_keys_by_value bpv_fetch_byval top next value argv
  | Prefix prefix next => prefix_vtree_fetch_keys_by_value bpv_fetch_byval prefix next value argv
  end.

Fixpoint bpv_getnode v argv {struct v} : M (option (vtree_chain X)) :=
  match v with
  | Null => crash
  | Ext x => ext_getnode x argv
  | Shadow top next => shadow_vtree_getnode bpv_getnode top next argv
  | Prefix prefix next => prefix_vtree_getnode bpv_getnode prefix next argv
  end.

Fixpoint bpv_fetch_nodes v argv {struct v} : M (list (vtree_chain X)) :=
  match v with
  | Null => crash
  | Ext x => ext_fetch_nodes x argv
  | Shadow top next => shadow_vtree_fetch_nodes bpv_fetch_nodes top next argv
  | Prefix prefix next => prefix_vtree_fetch_nodes bpv_fetch_nodes prefix next argv
  end.

Fixpoint bpv_fetch_keys_and_values v argv {struct v} : M (vtree_keyvals (vtree_chain X)) :=
  match v with
  | Null => crash
  | Ext x => ext_fetch_keys_and_values x argv
  | Shadow top next =>
    shadow_vtree_fetch_keys_and_values bpv_fetch_keys_and_values top next argv
  | Prefix prefix next =>
    prefix_vtree_fetch_keys_and_values bpv_fetch_keys_and_values prefix next argv
  end.

(** [shadow_vtree_init] and [prefix_vtree_init]. *)
Definition shadow_vtree_init (top bottom : option (vtree_chain X)) : vtree_chain X :=
  Shadow top bottom.

Definition prefix_vtree_init (prefix : list Z) (tree : option (vtree_chain X)) : vtree_chain X :=
  Prefix prefix tree.

(** * Variable arguments *)

(** The arguments as pointers, ending with the NULL of the caller. *)
Definition va_args argv : list (option arg) := (Some <$> argv) ++ [None].

(** VTREE_ARGS_COPY from the state with room for [max] arguments; reading past
    the arguments of the call fails. *)
Fixpoint args_loop (va : list (option arg)) (max : Z) (argv : list (option arg)) :
    option (list (option arg)) :=
  match va with
  | [] => None
  | p :: va =>
    let argv := argv ++ [p] in
    let argc := Z.of_nat (length argv) in
    if bool_decide (is_Some p) && (argc <? max) then args_loop va max argv
    else if argc <? max then Some argv
    else args_loop va (max * 2) argv
  end.

(** The last of the copied pointers is the NULL, which is not counted. *)
Definition args_copy (va : list (option arg)) : option (list arg) :=
  argv ← args_loop va 8 [];
  mapM id (take (length argv - 1) argv).

(** * Cached access *)

(** [if (cc && c < *cc) *cc = c] *)
Definition lower_cc (cc : option vtree_cacheable) (c : vtree_cacheable) : option vtree_cacheable :=
  (fun old => if cc_num c <? cc_num old then c else old) <$> cc.

(** The shape of the cached accessors: [null] without a tree, [hit] if the cache
    holds a value, else a call with a cacheability of its own, whose result is
    stored if it may be.  A NULL [cc] or [cache] is [None]; the result is with
    the new contents of both. *)
Definition cached_call {R C} (v : option (vtree_chain X)) (null : R) (hit : option R)
    (f : vtree_chain X -> M R) (store : R -> C)
    (cc : option vtree_cacheable) (cache : option C) :
    option (R * option vtree_cacheable * option C) :=
  match v with
  | None | Some Null => Some (null, cc, cache)
  | Some v =>
    match hit with
    | Some r => Some (r, cc, cache)
    | None =>
      '(r, c) ← f v VTCACHE_CAN;
      Some (r, lower_cc cc c, if decide (c = VTCACHE_CAN) then (fun _ => store r) <$> cache else cache)
    end
  end.

(** The forms with variable arguments copy them before the call. *)
Definition with_args {R} (va : list (option arg)) (f : list arg -> M R) : M R :=
  argv ← lift (args_copy va); f argv.

Definition int_hit (cache : option Z) : option Z :=
  c ← cache; if 0 <=? c then Some c else None.

Definition vtree_getlen_cachev vchain cc (cache : option Z) argv :=
  cached_call vchain 0 (int_hit cache) (fun v => bpv_getlen v argv) id cc cache.
Definition vtree_getlen_cache vchain cc (cache : option Z) va :=
  cached_call vchain 0 (int_hit cache) (fun v => with_args va (bpv_getlen v)) id cc cache.

Definition vtree_get_cachev vchain cc (cache : option (option (list Z))) argv :=
  cached_call vchain None (Some <$> mjoin cache) (fun v => bpv_get v argv) id cc cache.
Definition vtree_get_cache vchain cc (cache : option (option (list Z))) va :=
  cached_call vchain None (Some <$> mjoin cache) (fun v => with_args va (bpv_get v)) id cc cache.

(** The result of a get as a number; a cached 0 is not used. *)
Definition getint (get : M (option (list Z))) : M Z :=
  res ← get; mret (match res with Some s => atoi s | None => 0 end).
Definition nonzero_hit (cache : option Z) : option Z :=
  c ← cache; if c =? 0 then None else Some c.

Definition vtree_getint_cachev vchain cc (cache : option Z) argv :=
  cached_call vchain 0 (nonzero_hit cache) (fun v => getint (bpv_get v argv)) id cc cache.
Definition vtree_getint_cache vchain cc (cache : option Z) va :=
  cached_call vchain 0 (nonzero_hit cache) (fun v => getint (with_args va (bpv_get v))) id cc cache.

(** The cache of [vtree_haskey_cache] is an int, negative when unset. *)
Definition vtree_haskey_cachev vchain cc (cache : option Z) argv :=
  cached_call vchain 0 (int_hit cache) (fun v => r ← bpv_haskey v argv; mret (Z.b2z r)) id cc cache.
Definition vtree_haskey_cache vchain cc (cache : option Z) va :=
  cached_call vchain 0 (int_hit cache)
    (fun v => r ← with_args va (bpv_haskey v); mret (Z.b2z r)) id cc cache.

(** The fetching accessors have no cache. *)
Definition fetch_call {R} (v : option (vtree_chain X)) (null : R) (f : vtree_chain X -> M R) cc :
    option (R * option vtree_cacheable) :=
  '(r, cc, _) ← cached_call v null None f id cc None; Some (r, cc).

Definition vtree_fetch_keys_cachev vchain cc argv := fetch_call vchain [] (fun v => bpv_fetch_keys v argv) cc.
Definition vtree_fetch_keys_cache vchain cc va :=
  fetch_call vchain [] (fun v => with_args va (bpv_fetch_keys v)) cc.

Definition vtree_fetch_values_cachev vchain cc argv :=
  fetch_call vchain [] (fun v => bpv_fetch_values v argv) cc.
Definition vtree_fetch_values_cache vchain cc va :=
  fetch_call vchain [] (fun v => with_args va (bpv_fetch_values v)) cc.

Definition vtree_fetch_keys_by_value_cachev vchain cc value argv :=
  fetch_call vchain [] (fun v => bpv_fetch_byval v value argv) cc.
Definition vtree_fetch_keys_by_value_cache vchain cc value va :=
  fetch_call vchain [] (fun v => with_args va (bpv_fetch_byval v value)) cc.

Definition vtree_fetch_nodes_cachev vchain cc argv :=
  fetch_call vchain [] (fun v => bpv_fetch_nodes v argv) cc.
Definition vtree_fetch_nodes_cache vchain cc va :=
  fetch_call vchain [] (fun v => with_args va (bpv_fetch_nodes v)) cc.

(** Clearing keeps the type field that the caller passed. *)
Definition vtree_fetch_keys_and_values_cachev vchain (loop : vtree_keyvals (vtree_chain X)) cc argv :=
  fetch_call vchain (mk_keyvals (kv_type loop) []) (fun v => bpv_fetch_keys_and_values v argv) cc.
Definition vtree_fetch_keys_and_values_cache vchain (loop : vtree_keyvals (vtree_chain X)) cc va :=
  fetch_call vchain (mk_keyvals (kv_type loop) []) (fun v => with_args va (bpv_fetch_keys_and_values v)) cc.

(** * Cached nodes *)

(** The [dst] of [vtree_getnode]: the chain it holds, and whether that was given
    to its free function.  [frees] says which chains have one. *)
Context (frees : vtree_chain X -> bool).

Record node_dst := mk_dst { dst_chain : vtree_chain X; dst_freed : bool }.

(** vtree_free: freeing twice fails. *)
Definition vtree_free (dst : node_dst) : option node_dst :=
  if frees (dst_chain dst) then
    if dst_freed dst then None else Some (mk_dst (dst_chain dst) true)
  else Some dst.

(** A cached node is a pointer: NULL if unset, -1 for no node ([Some None]). *)
Definition vtree_getnode_cachev vchain cc (dst : node_dst)
    (cache : option (option (option (vtree_chain X)))) argv :=
  match vchain, mjoin cache with
  | None, _ | Some Null, _ => Some (None, cc, cache, dst)
  | _, Some n => Some (n, cc, cache, dst)
  | Some _, None =>
    dst ← vtree_free dst;
    '(res, cc, cache) ← cached_call vchain None None (fun v => bpv_getnode v argv) Some cc cache;
    Some (res, cc, cache, match res with Some n => mk_dst n false | None => dst end)
  end.

Definition vtree_getnode_cache vchain cc (dst : node_dst)
    (cache : option (option (option (vtree_chain X)))) va :=
  match vchain, mjoin cache with
  | None, _ | Some Null, _ => Some (None, cc, cache, dst)
  | _, Some n => Some (n, cc, cache, dst)
  | Some _, None =>
    _ ← vtree_free dst;
    '(res, cc, cache) ←
      cached_call vchain None None (fun v => with_args va (bpv_getnode v)) Some cc cache;
    Some (res, cc, cache, match res with Some n => mk_dst n false | None => mk_dst Null false end)
  end.
End Chains.

(** The macros of vtree.h that take no cache. *)
Section Macros.
Context {X : Type} `{!VtreeBackend X}.

Definition vtree_get (v : vtree_chain X) (argv : list arg) : option (option (list Z)) :=
  '(r, _, _) ← vtree_get_cache (Some v) None None (va_args argv); Some r.
Definition vtree_getint (v : vtree_chain X) (argv : list arg) : option Z :=
  '(r, _, _) ← vtree_getint_cache (Some v) None None (va_args argv); Some r.
Definition vtree_haskey (v : vtree_chain X) (argv : list arg) : option bool :=
  '(r, _, _) ← vtree_haskey_cache (Some v) None None (va_args argv); Some (negb (r =? 0)).
Definition vtree_fetch_keys (v : vtree_chain X) (argv : list arg) : option (list (list Z)) :=
  '(r, _) ← vtree_fetch_keys_cache (Some v) None (va_args argv); Some r.
Definition vtree_fetch_values (v : vtree_chain X) (argv : list arg) : option (list (option (list Z))) :=
  '(r, _) ← vtree_fetch_values_cache (Some v) None (va_args argv); Some r.
Definition vtree_fetch_nodes (v : vtree_chain X) (argv : list arg) : option (list (vtree_chain X)) :=
  '(r, _) ← vtree_fetch_nodes_cache (Some v) None (va_args argv); Some r.

(** Into a chain that holds nothing. *)
Definition vtree_getnode (v : vtree_chain X) (argv : list arg) : option (option (vtree_chain X)) :=
  '(r, _, _, _) ← vtree_getnode_cache (fun _ => false) (Some v) None (mk_dst Null false) None (va_args argv); Some r.
End Macros.

(** * Variable arguments, proofs *)

(** The number of pointers fills the array, first of 8 and then doubled. *)
Definition fills (max n : Z) : Prop := exists j, 0 <= j /\ n = max * 2 ^ j.

Lemma fills_double max n : max < n -> fills max n <-> fills (max * 2) n.
Proof.
  intros Hn. split; intros (j & Hj & ->).
  - destruct (decide (j = 0)) as [->|]; [lia|]. exists (j - 1). split; [lia|].
    rewrite <- Z.mul_assoc, <- Z.pow_succ_r by lia. do 2 f_equal. lia.
  - exists (j + 1). split; [lia|]. rewrite Z.pow_add_r by lia. lia.
Qed.

Lemma args_loop_spec (keys : list arg) max (argv : list (option arg)) n :
  Z.of_nat (length argv) < max -> n = Z.of_nat (length argv + length keys + 1) ->
  (~ fills max n -> args_loop (va_args keys) max argv = Some (argv ++ va_args keys)) /\
  (fills max n -> args_loop (va_args keys) max argv = None).
Proof.
  revert max argv n. induction keys as [|k keys IH]; intros max argv n Hmax Hn;
    [change (va_args []) with [None : option arg]|
     change (va_args (k :: keys)) with (Some k :: va_args keys)];
    cbn [args_loop length] in *; rewrite length_app; cbn [length].
  - replace (Z.of_nat (length argv + 1)) with n by lia.
    rewrite bool_decide_eq_false_2 by apply is_Some_None. cbn [andb].
    destruct (Z.ltb_spec n max).
    + split; [done|]. intros (j & Hj & E). pose proof (Z.pow_pos_nonneg 2 j). nia.
    + split; [|done]. intros []. exists 0. lia.
  - rewrite bool_decide_eq_true_2 by done. cbn [andb]. 
    change (argv ++ Some k :: va_args keys) with (argv ++ [Some k] ++ va_args keys).
    rewrite (assoc_L (++) argv).
    assert (length (argv ++ [Some k]) = length argv + 1)%nat as Hl by by rewrite length_app.
    destruct (Z.ltb_spec (Z.of_nat (length argv + 1)) max); [apply IH; lia|].
    rewrite (fills_double max) by lia. apply IH; lia.
Qed.

Lemma args_copy_spec (keys : list arg) n :
  n = Z.of_nat (length keys + 1) ->
  (~ fills 8 n -> args_copy (va_args keys) = Some keys) /\
  (fills 8 n -> args_copy (va_args keys) = None).
Proof.
  intros Hn. unfold args_copy. destruct (args_loop_spec keys 8 [] n) as [Hok Hno]; [done|done|].
  split; intros Hf; [rewrite Hok by done|by rewrite Hno].
  cbn [mbind option_bind app]. unfold va_args. rewrite length_app, length_fmap. cbn [length].
  rewrite take_app_length' by (rewrite length_fmap; lia).
  apply mapM_Some_2, Forall2_fmap_l, Forall_Forall2_diag. by apply Forall_true.
Qed.

(** * Cached access, proofs *)

Section Cached.
Context {X : Type} `{!VtreeBackend X} {R C : Type}.
Implicit Types (cc : option vtree_cacheable) (cache : option C).

(** [n] calls with the same arguments and one cache: the results, and what the
    references hold in the end. *)
Fixpoint repeat_call
    (call : option vtree_cacheable -> option C -> option (R * option vtree_cacheable * option C))
    (n : nat) cc cache : option (list R * option vtree_cacheable * option C) :=
  match n with
  | O => Some ([], cc, cache)
  | S n =>
    '(r, cc, cache) ← call cc cache;
    '(rs, cc, cache) ← repeat_call call n cc cache;
    Some (r :: rs, cc, cache)
  end.

(** What [n] uncached calls that answer [r] with cacheability [c] do. *)
Definition stored (c : vtree_cacheable) (s : C) cache : option C :=
  if decide (c = VTCACHE_CAN) then (fun _ => s) <$> cache else cache.

Lemma lower_cc_idem cc c : lower_cc (lower_cc cc c) c = lower_cc cc c.
Proof.
  destruct cc as [o|]; [|done]. cbn. f_equal.
  destruct (cc_num c <? cc_num o) eqn:E; [by rewrite Z.ltb_irrefl|by rewrite E].
Qed.

Lemma stored_idem c s cache : stored c s (stored c s cache) = stored c s cache.
Proof. unfold stored. case_decide; [|done]. by destruct cache. Qed.

Context (v : vtree_chain X) (null : R) (f : vtree_chain X -> M R) (store : R -> C).
Context (hitf : option C -> option R) (r : R) (c : vtree_cacheable).
Context (Hv : v <> Null) (Hf : f v VTCACHE_CAN = Some (r, c)).

Lemma cached_call_miss cc cache :
  hitf cache = None ->
  cached_call (Some v) null (hitf cache) f store cc cache =
  Some (r, lower_cc cc c, stored c (store r) cache).
Proof. intros ->. unfold cached_call. rewrite Hf. by destruct v. Qed.

Lemma cached_call_hit cc cache :
  hitf cache = Some r ->
  cached_call (Some v) null (hitf cache) f store cc cache = Some (r, cc, cache).
Proof. intros ->. by destruct v. Qed.

(** A cache that is unset, and that holds the answer or is ignored once it is
    set, is never seen. *)
Lemma repeat_cached n cc cache :
  hitf cache = None ->
  hitf (stored c (store r) cache) = None \/ hitf (stored c (store r) cache) = Some r ->
  repeat_call (fun cc cache => cached_call (Some v) null (hitf cache) f store cc cache) (S n) cc cache =
  Some (replicate (S n) r, lower_cc cc c, stored c (store r) cache).
Proof using Hv Hf.
  intros Hmiss Hset. cbn [repeat_call]. rewrite cached_call_miss by done. cbn [mbind option_bind].
  assert (repeat_call (fun cc cache => cached_call (Some v) null (hitf cache) f store cc cache) n
    (lower_cc cc c) (stored c (store r) cache) =
    Some (replicate n r, lower_cc cc c, stored c (store r) cache)) as ->; [|done].
  clear Hmiss. induction n as [|n IH]; [done|]. cbn [repeat_call].
  destruct Hset; [rewrite cached_call_miss by done|rewrite cached_call_hit by done];
    cbn [mbind option_bind]; rewrite ?lower_cc_idem, ?stored_idem, IH; done.
Qed.
End Cached.

(** * Stacks of shadow trees *)

Section Stacks.
Context {X : Type} `{!VtreeBackend X}.
Implicit Types (v : vtree_chain X) (tops : list (vtree_chain X)).

(** What the lookups of a shadow tree do when both trees have a table: the top
    answers if it can. *)
Definition shadow_rule {A} (hit : A -> bool) (top below : M A) : M A :=
  res ← top;
  if hit res then _ ← set_cc VTCACHE_CANT; mret res
  else res ← below; if hit res then mret res else _ ← set_cc VTCACHE_UNKNOWN; mret res.

Fixpoint shadow_stack tops v : vtree_chain X :=
  match tops with
  | [] => v
  | t :: tops => shadow_vtree_init (Some t) (Some (shadow_stack tops v))
  end.

(** The answer of the first tree that has one. *)
Fixpoint first_hit {A} (hit : A -> bool) (l : list A) (bottom : A) : A :=
  match l with
  | [] => bottom
  | a :: l => if hit a then a else first_hit hit l bottom
  end.

(** The tree answers [a], whatever the cacheability was. *)
Definition says {A} (m : M A) (a : A) : Prop := forall cc, exists cc', m cc = Some (a, cc').

Lemma shadow_stack_ne tops v : v <> Null -> shadow_stack tops v <> Null.
Proof. by destruct tops. Qed.

(** A stack answers what its first tree with an answer does.  The cacheability is
    VTCACHE_CANT if that is a shadow, what the bottom left if it is the bottom, and
    VTCACHE_UNKNOWN if there is none. *)
Definition stacked {A} (hit : A -> bool) (op : vtree_chain X -> M A) tops v : Prop :=
  forall ans, Forall (fun t => says (op t) (ans t)) (v :: tops) ->
  let r := first_hit hit (ans <$> tops) (ans v) in
  forall cc, exists cc', op (shadow_stack tops v) cc = Some (r, cc') /\
    (Exists (fun t => hit (ans t) = true) tops -> cc' = VTCACHE_CANT) /\
    (~ Exists (fun t => hit (ans t) = true) tops -> hit (ans v) = true ->
       exists cc0, op v cc0 = Some (ans v, cc')) /\
    (tops <> [] -> hit r = false -> cc' = VTCACHE_UNKNOWN).

Lemma shadow_stack_says {A} (hit : A -> bool) (op : vtree_chain X -> M A) tops v :
  (forall t b, t <> Null -> b <> Null ->
    forall cc, op (Shadow (Some t) (Some b)) cc = shadow_rule hit (op t) (op b) cc) ->
  v <> Null -> Forall (fun t => t <> Null) tops -> stacked hit op tops v.
Proof.
  intros Hrule Hv Hn ans [Hb Ht]%list.Forall_cons r. subst r.
  induction tops as [|t tops IH]; intros cc; simpl.
  { destruct (Hb cc) as [cc' E]. exists cc'. split; [done|]. split; [by inversion 1|]. split; [by exists cc|done]. }
  apply list.Forall_cons in Ht as [Hsay Ht], Hn as [Htn Hn]. specialize (IH Hn Ht).
  rewrite Hrule by auto using shadow_stack_ne. unfold shadow_rule. run_M.
  destruct (Hsay cc) as [cc1 E1]. rewrite E1. setoid_rewrite List.Exists_cons. destruct (hit (ans t)) eqn:Hit; simpl.
  { exists VTCACHE_CANT. split; [done|]. split; [done|]. split; [|congruence]. intros []. by left. }
  destruct (IH cc1) as (cc2 & E2 & Hcant & Hbot & Hunk). rewrite E2.
  destruct (hit (first_hit _ _ _)) eqn:Hit2; simpl.
  - exists cc2. split; [done|]. split; [|split; [|done]].
    + intros [He|He]; [congruence|auto].
    + intros Hno. apply Hbot. auto.
  - exists VTCACHE_UNKNOWN. split; [done|].
    assert (~ Exists (fun t => hit (ans t) = true) tops /\ hit (ans v) = false) as [Hno Hvf].
    { clear -Hit2. induction tops as [|x l IH]; simpl in Hit2; [split; [by inversion 1|done]|].
      destruct (hit (ans x)) eqn:?; [congruence|]. destruct (IH Hit2) as [IH1 IH2]. split; [|done].
      intros [?|?]%List.Exists_cons; [congruence|auto]. }
    split; [|split; [|done]]; [intros [?|?]; [congruence|tauto]|congruence].
Qed.

Definition is_some {A} (r : option A) : bool := match r with Some _ => true | None => false end.
Definition nonempty {A} (l : list A) : bool := match l with [] => false | _ => true end.
Definition nonzero (n : Z) : bool := if n =? 0 then false else true.

(** Each lookup of the shadow tree follows the rule. *)
Section Rules.
Context (argv : list arg) (Hargs : argv <> []).

Lemma has_fun_Some v : v <> Null -> has_fun (Some v) = true.
Proof. by destruct v. Qed.

Local Ltac rule Ht Hb :=
  intros Ht Hb cc; destruct argv; [done|];
  cbn [bpv_get bpv_haskey bpv_getlen bpv_getnode bpv_fetch_keys bpv_fetch_values bpv_fetch_byval
       bpv_fetch_nodes];
  unfold shadow_vtree_get, shadow_vtree_haskey, shadow_vtree_getlen, shadow_vtree_getnode,
    shadow_vtree_fetch_keys, shadow_vtree_fetch_values, shadow_vtree_fetch_keys_by_value,
    shadow_vtree_fetch_nodes, shadow_rule, shadow_first, is_some, nonempty, nonzero, id, bpv;
  rewrite ?has_fun_Some by done; run_M;
  repeat (case_match; simplify_eq/=; try done).

Lemma shadow_get_rule t b : t <> Null -> b <> Null -> forall cc,
  bpv_get (Shadow (Some t) (Some b)) argv cc =
  shadow_rule is_some (bpv_get t argv) (bpv_get b argv) cc.
Proof. rule Ht Hb. Qed.

Lemma shadow_haskey_rule t b : t <> Null -> b <> Null -> forall cc,
  bpv_haskey (Shadow (Some t) (Some b)) argv cc =
  shadow_rule id (bpv_haskey t argv) (bpv_haskey b argv) cc.
Proof. rule Ht Hb. Qed.

Lemma shadow_getlen_rule t b : t <> Null -> b <> Null -> forall cc,
  bpv_getlen (Shadow (Some t) (Some b)) argv cc =
  shadow_rule nonzero (bpv_getlen t argv) (bpv_getlen b argv) cc.
Proof. rule Ht Hb. Qed.

Lemma shadow_getnode_rule t b : t <> Null -> b <> Null -> forall cc,
  bpv_getnode (Shadow (Some t) (Some b)) argv cc =
  shadow_rule is_some (bpv_getnode t argv) (bpv_getnode b argv) cc.
Proof. rule Ht Hb. Qed.

Lemma shadow_fetch_keys_rule t b : t <> Null -> b <> Null -> forall cc,
  bpv_fetch_keys (Shadow (Some t) (Some b)) argv cc =
  shadow_rule nonempty (bpv_fetch_keys t argv) (bpv_fetch_keys b argv) cc.
Proof. rule Ht Hb. Qed.

Lemma shadow_fetch_values_rule t b : t <> Null -> b <> Null -> forall cc,
  bpv_fetch_values (Shadow (Some t) (Some b)) argv cc =
  shadow_rule nonempty (bpv_fetch_values t argv) (bpv_fetch_values b argv) cc.
Proof. rule Ht Hb. Qed.

Lemma shadow_fetch_byval_rule value t b : t <> Null -> b <> Null -> forall cc,
  bpv_fetch_byval (Shadow (Some t) (Some b)) value argv cc =
  shadow_rule nonempty (bpv_fetch_byval t value argv) (bpv_fetch_byval b value argv) cc.
Proof. rule Ht Hb. Qed.

Lemma shadow_fetch_nodes_rule t b : t <> Null -> b <> Null -> forall cc,
  bpv_fetch_nodes (Shadow (Some t) (Some b)) argv cc =
  shadow_rule nonempty (bpv_fetch_nodes t argv) (bpv_fetch_nodes b argv) cc.
Proof. rule Ht Hb. Qed.
End Rules.
End Stacks.

(** * Merging *)

Definition str_lt (a b : list Z) : Prop := lexcmp a b < 0.

Lemma str_lt_le_trans a b c : str_lt a b -> str_le b c -> str_lt a c.
Proof. apply cmp_lt_le_trans, _. Qed.

Lemma str_le_lt_trans a b c : str_le a b -> str_lt b c -> str_lt a c.
Proof. apply cmp_le_lt_trans, _. Qed.

Lemma str_lt_not_le a b : str_lt a b -> ~ str_le b a.
Proof. unfold str_lt, str_le. pose proof (cmp_opp (cmp := lexcmp) a b). lia. Qed.

Lemma str_lt_le a b : str_lt a b -> str_le a b.
Proof. unfold str_lt, str_le. lia. Qed.

Lemma str_le_refl a : str_le a a.
Proof. unfold str_le. by rewrite (cmp_refl lexcmp). Qed.

Lemma str_lt_irrefl a : ~ str_lt a a.
Proof. unfold str_lt. by rewrite (cmp_refl lexcmp). Qed.

#[export] Instance str_lt_trans : Transitive str_lt.
Proof. intros a b c Hab Hbc. eapply str_lt_le_trans; [done|]. by apply str_lt_le. Qed.

#[export] Instance str_le_trans : Transitive str_le.
Proof. intros a b c. apply cmp_trans. Qed.

#[export] Instance str_le_total : Total str_le.
Proof. intros a b. unfold str_le. pose proof (cmp_opp (cmp := lexcmp) a b). lia. Qed.

Lemma str_lt_ge a b : ~ lexcmp a b < 0 -> lexcmp a b <> 0 -> str_lt b a.
Proof. unfold str_lt. pose proof (cmp_opp (cmp := lexcmp) a b). lia. Qed.

Create HintDb vtree discriminated.
#[export] Hint Resolve str_le_refl str_lt_le str_lt_ge : vtree.

(** Sorting distinct strings gives them in strict order. *)
Lemma sorted_strict {A} (key : A -> list Z) (l : list A) :
  StronglySorted (fun a b => str_le (key a) (key b)) l -> NoDup (key <$> l) ->
  StronglySorted (fun a b => str_lt (key a) (key b)) l.
Proof.
  induction 1 as [|a l Hl IH Ha]; [constructor|].
  rewrite fmap_cons, NoDup_cons. intros [Hna Hnd]. constructor; [auto|].
  rewrite list.Forall_forall in Ha |- *. intros b Hb. specialize (Ha b Hb).
  unfold str_lt, str_le in *. assert (lexcmp (key a) (key b) <> 0); [|lia].
  intros E%lexcmp_eq. apply Hna. rewrite E. by apply list_elem_of_fmap_2.
Qed.

Lemma sorted_head {A} (R : relation A) x l y : StronglySorted R (x :: l) -> y ∈ l -> R x y.
Proof. intros [_ Hx]%StronglySorted_inv. rewrite list.Forall_forall in Hx. auto. Qed.

Lemma sorted_tail {A} (R : relation A) x l : StronglySorted R (x :: l) -> StronglySorted R l.
Proof. by intros [? _]%StronglySorted_inv. Qed.

(** ** Keys *)

(** Both lists reach at least [k]. *)
Definition reaches (l : list (list Z)) (k : list Z) : Prop := exists a, a ∈ l /\ str_le k a.

Lemma reaches_cons x l k : reaches l k -> reaches (x :: l) k.
Proof. intros (a & Ha & Hk). exists a. split; [by right|done]. Qed.

Lemma reaches_elem l k : k ∈ l -> reaches l k.
Proof. intros Hk. exists k. auto with vtree. Qed.

Lemma reaches_tail x l k : str_lt x k -> reaches (x :: l) k -> reaches l k.
Proof.
  intros Hx (a & [->|Ha]%elem_of_cons & Hk); [by apply str_lt_not_le in Hx|]. by exists a.
Qed.

Lemma reaches_head x l k : str_le k x -> reaches (x :: l) k.
Proof. intros Hk. exists x. split; [left|done]. Qed.

#[export] Hint Resolve reaches_cons reaches_elem reaches_head : vtree.

Lemma merge_keys_spec fuel l1 l2 k :
  StronglySorted str_lt l1 -> StronglySorted str_lt l2 -> (length l1 + length l2 <= fuel)%nat ->
  k ∈ merge_keys fuel l1 l2 <-> (k ∈ l1 \/ k ∈ l2) /\ reaches l1 k /\ reaches l2 k.
Proof.
  assert (forall k, reaches [] k <-> False) as Hnil.
  { intros k'. split; [|done]. intros (a & Ha & _). by apply elem_of_nil in Ha. }
  revert l1 l2. induction fuel as [|fuel IH]; intros [|k1 r1] [|k2 r2] H1 H2 Hlen;
    cbn [merge_keys]; rewrite ?Hnil, ?elem_of_nil; simpl in Hlen; try tauto; try lia.
  pose proof (sorted_tail _ _ _ H1) as T1. pose proof (sorted_tail _ _ _ H2) as T2.
  assert (k ∈ r1 -> str_lt k1 k) as L1 by (by apply sorted_head).
  assert (k ∈ r2 -> str_lt k2 k) as L2 by (by apply sorted_head).
  destruct (Z.ltb_spec (lexcmp k1 k2) 0) as [Hlt|Hge]; [|destruct (Z.eqb_spec (lexcmp k1 k2) 0) as [E|Hne]].
  - change (str_lt k1 k2) in Hlt.
    assert (k ∈ k2 :: r2 -> str_lt k1 k) as L by (intros [->|?]%elem_of_cons; [done|]; transitivity k2; auto).
    rewrite elem_of_cons, IH by (simpl; auto; lia). split.
    + intros [->|(Hk & Hr1 & Hr2)]; [split; [left; left|]|split; [|by split; auto with vtree]].
      * split; auto with vtree.
      * destruct Hk; [left; by right|by right].
    + intros ([[->|Hk]%elem_of_cons|Hk] & Hr1 & Hr2); [by left|right..];
        split; auto; split; auto with vtree; eapply reaches_tail; eauto.
  - apply lexcmp_eq in E as <-. rewrite elem_of_cons, IH by (simpl; auto; lia). split.
    + intros [->|(Hk & Hr1 & Hr2)]; [split; [left; left|split; auto with vtree]|split; [|by split; auto with vtree]].
      destruct Hk; [left|right]; by right.
    + intros ([[->|Hk]%elem_of_cons|[->|Hk]%elem_of_cons] & Hr1 & Hr2); [by left|right|by left|right];
        split; auto; split; auto with vtree; eapply reaches_tail; eauto.
  - assert (str_lt k2 k1) as Hlt by (apply str_lt_ge; lia).
    assert (k ∈ k1 :: r1 -> str_lt k2 k) as L by (intros [->|?]%elem_of_cons; [done|]; transitivity k1; auto).
    rewrite elem_of_cons, IH by (simpl; auto; lia). split.
    + intros [->|(Hk & Hr1 & Hr2)]; [split; [right; left|]|split; [|by split; auto with vtree]].
      * split; auto with vtree.
      * destruct Hk; [by left|right; by right].
    + intros ([Hk|[->|Hk]%elem_of_cons] & Hr1 & Hr2); [right|by left|right];
        split; auto; split; auto with vtree; eapply reaches_tail; eauto.
Qed.

(** ** Keys with values *)

Section Keyvals.
Context {X : Type}.
Implicit Types (e : vtree_keyvals_elem (vtree_chain X)) (l : list (vtree_keyvals_elem (vtree_chain X))).

Definition ekey e : list Z := default [] (kv_key e).
Definition kv_lt e1 e2 : Prop := str_lt (ekey e1) (ekey e2).
Definition keyed l : Prop := Forall (fun e => is_Some (kv_key e)) l.

#[export] Instance kv_lt_trans : Transitive kv_lt.
Proof. intros a b c. apply str_lt_trans. Qed.

#[export] Instance kv_le_trans : Transitive (kv_le (X := X)).
Proof. intros a b c. apply str_le_trans. Qed.

#[export] Instance kv_le_total : Total (kv_le (X := X)).
Proof. intros a b. apply str_le_total. Qed.

(** [l] holds the elements of [l1], and those of [l2] with other keys, in order. *)
Definition kv_union l1 l2 l : Prop :=
  StronglySorted kv_lt l /\ forall e, e ∈ l <-> e ∈ l1 \/ (e ∈ l2 /\ ekey e ∉ ekey <$> l1).

Lemma kv_lt_key e1 e2 : kv_lt e1 e2 -> ekey e1 <> ekey e2.
Proof. unfold kv_lt. intros Hlt E. rewrite E in Hlt. by apply str_lt_irrefl in Hlt. Qed.

(** The head of the result is one of the heads, and below everything else. *)
Lemma kv_union_left e1 r1 l2 l :
  StronglySorted kv_lt (e1 :: r1) -> (forall e, e ∈ l2 -> kv_lt e1 e) -> kv_union r1 l2 l ->
  kv_union (e1 :: r1) l2 (e1 :: l).
Proof.
  intros H1 Hlt [Hs Hin]. split.
  - constructor; [done|]. apply list.Forall_forall. intros e [He|[He _]]%Hin; [|auto].
    by eapply sorted_head.
  - intros e. rewrite fmap_cons, !elem_of_cons, Hin. split; [|tauto].
    intros [->|[He|[He Hne]]]; [tauto..|]. right. split; [done|].
    intros [Heq|He']; [|done]. by apply (kv_lt_key e1 e); auto.
Qed.

Lemma kv_union_right l1 e2 r2 l :
  StronglySorted kv_lt (e2 :: r2) -> (forall e, e ∈ l1 -> kv_lt e2 e) -> kv_union l1 r2 l ->
  kv_union l1 (e2 :: r2) (e2 :: l).
Proof.
  intros H2 Hlt [Hs Hin]. split.
  - constructor; [done|]. apply list.Forall_forall. intros e [He|[He _]]%Hin; [auto|].
    by eapply sorted_head.
  - intros e. rewrite !elem_of_cons, Hin. split; [|tauto].
    intros [->|[He|[He Hne]]]; [|tauto..]. right. split; [by left|].
    intros (e' & E & He')%list_elem_of_fmap. apply (kv_lt_key e2 e'); auto.
Qed.

Lemma kv_union_both e1 r1 e2 r2 l :
  StronglySorted kv_lt (e1 :: r1) -> StronglySorted kv_lt (e2 :: r2) -> ekey e1 = ekey e2 ->
  kv_union r1 r2 l -> kv_union (e1 :: r1) (e2 :: r2) (e1 :: l).
Proof.
  intros H1 H2 E Hu.
  assert (forall e, e ∈ r2 -> kv_lt e1 e) as Hlt.
  { intros e He. unfold kv_lt. rewrite E. by eapply (sorted_head kv_lt). }
  destruct (kv_union_left _ _ _ _ H1 Hlt Hu) as [Hs Hin]. split; [done|].
  intros e. rewrite Hin, (elem_of_cons r2). split; [tauto|].
  intros [He|[[->|He] Hne]]; [tauto| |tauto]. destruct Hne. rewrite fmap_cons, E. left.
Qed.

Lemma kv_copy_keyed t n e : is_Some (kv_key e) -> kv_copy t n e = e.
Proof. intros [k Hk]. unfold kv_copy. case_decide; [done|]. rewrite Hk. destruct e. by simpl in *; subst. Qed.

Lemma kv_order_keyed t1 t2 e1 e2 :
  t1 <> vktList -> t2 <> vktList -> is_Some (kv_key e1) -> is_Some (kv_key e2) ->
  kv_order t1 t2 e1 e2 = Some (lexcmp (ekey e1) (ekey e2)).
Proof.
  intros ? ? [k1 E1] [k2 E2]. unfold kv_order, ekey. rewrite !decide_False by done. by rewrite E1, E2.
Qed.

Lemma kv_merge_spec fuel t1 t2 t l1 l2 n :
  t1 <> vktList -> t2 <> vktList -> keyed l1 -> keyed l2 ->
  StronglySorted kv_lt l1 -> StronglySorted kv_lt l2 -> (length l1 + length l2 <= fuel)%nat ->
  exists l, kv_merge fuel t1 t2 t l1 l2 n = Some l /\ kv_union l1 l2 l.
Proof.
  intros Ht1 Ht2. revert l1 l2 n. induction fuel as [|fuel IH]; intros [|e1 r1] [|e2 r2] n K1 K2 H1 H2 Hlen;
    simpl in Hlen; try lia; cbn [kv_merge].
  1,2: exists []; split; [done|]; split; [constructor|]; intros e; rewrite elem_of_nil; tauto.
  all: repeat match goal with H : keyed (_ :: _) |- _ => apply list.Forall_cons in H as [? ?] end.
  all: pose proof (sorted_tail kv_lt) as ST.
  - edestruct (IH [] r2 (n + 1)) as (l & -> & Hu); eauto; [simpl; lia|]. eexists. split; [done|].
    rewrite kv_copy_keyed by done. apply kv_union_right; auto. intros e []%elem_of_nil.
  - edestruct (IH r1 [] (n + 1)) as (l & -> & Hu); eauto; [simpl; lia|]. eexists. split; [done|].
    rewrite kv_copy_keyed by done. apply kv_union_left; auto. intros e []%elem_of_nil.
  - rewrite kv_order_keyed by done. cbn [mbind option_bind].
    destruct (Z.ltb_spec (lexcmp (ekey e1) (ekey e2)) 0) as [Hlt|Hge];
      [|destruct (Z.eqb_spec (lexcmp (ekey e1) (ekey e2)) 0) as [E|Hne]].
    + edestruct (IH r1 (e2 :: r2) (n + 1)) as (l & -> & Hu); eauto; [by constructor|simpl; lia|].
      eexists. split; [done|]. rewrite kv_copy_keyed by done. apply kv_union_left; auto.
      intros e [->|He]%elem_of_cons; [done|]. transitivity e2; [done|]. by eapply sorted_head.
    + edestruct (IH r1 r2 (n + 1)) as (l & -> & Hu); eauto; [simpl; lia|].
      eexists. split; [done|]. rewrite kv_copy_keyed by done. apply lexcmp_eq in E.
      by apply kv_union_both.
    + edestruct (IH (e1 :: r1) r2 (n + 1)) as (l & -> & Hu); eauto; [by constructor|simpl; lia|].
      eexists. split; [done|]. rewrite kv_copy_keyed by done. apply kv_union_right; auto.
      assert (kv_lt e2 e1) by (apply str_lt_ge; lia).
      intros e [->|He]%elem_of_cons; [done|]. transitivity e1; [done|]. by eapply sorted_head.
Qed.

Lemma kv_qsort_spec l :
  keyed l -> NoDup (ekey <$> l) ->
  exists l', kv_qsort l = Some l' /\ l' ≡ₚ l /\ StronglySorted kv_lt l'.
Proof.
  intros Hk Hnd. unfold kv_qsort.
  assert (forall l', l' ≡ₚ l -> StronglySorted kv_le l' -> StronglySorted kv_lt l') as Hstrict.
  { intros l' Hp Hs. apply sorted_strict; [done|]. by rewrite Hp. }
  destruct (Nat.leb_spec (length l) 1).
  - exists l. split; [done|]. split; [done|].
    destruct l as [|e [|]]; simpl in *; [constructor|repeat constructor|lia].
  - assert (forallb (fun e => bool_decide (is_Some (kv_key e))) l = true) as ->.
    { apply Is_true_eq_true, forallb_True, (Forall_impl _ _ _ Hk). intros e. apply bool_decide_pack. }
    eexists. split; [done|].
    split; [apply merge_sort_Permutation|]. apply Hstrict; [apply merge_sort_Permutation|].
    apply StronglySorted_merge_sort; apply _.
Qed.

Lemma kv_union_perm l1 l1' l2 l2' l : l1' ≡ₚ l1 -> l2' ≡ₚ l2 -> kv_union l1' l2' l -> kv_union l1 l2 l.
Proof. intros P1 P2 [Hs Hin]. split; [done|]. intros e. by rewrite Hin, P1, P2. Qed.

Lemma keyed_perm l l' : l' ≡ₚ l -> keyed l -> keyed l'.
Proof. unfold keyed. by intros ->. Qed.

Lemma kv_merged_spec (a b : vtree_keyvals (vtree_chain X)) :
  kv_type a <> vktList -> kv_type b <> vktList -> keyed (kv_list a) -> keyed (kv_list b) ->
  NoDup (ekey <$> kv_list a) -> NoDup (ekey <$> kv_list b) ->
  exists r, kv_merged a b = Some r /\ kv_union (kv_list a) (kv_list b) (kv_list r).
Proof.
  intros Ha Hb Ka Kb Na Nb. unfold kv_merged.
  destruct (kv_qsort_spec (kv_list a)) as (l1 & -> & P1 & S1); [done..|].
  destruct (kv_qsort_spec (kv_list b)) as (l2 & -> & P2 & S2); [done..|]. cbn [mbind option_bind].
  edestruct (kv_merge_spec (length l1 + length l2) (kv_type a) (kv_type b)) as (l & -> & Hu);
    eauto using keyed_perm.
  eexists. split; [done|]. by apply (kv_union_perm _ l1 _ l2).
Qed.
End Keyvals.

(** * Prefixes *)

Lemma match_prefix_app p q k :
  match_prefix (p ++ 46 :: q) k =
  match match_prefix p k with Dotted r => match_prefix q r | _ => Other end.
Proof.
  revert k. induction p as [|c p IH]; intros [|d k]; cbn [match_prefix app]; try done.
  - rewrite (Z.eqb_sym d). by destruct (46 =? d).
  - destruct (c =? d); [apply IH|done].
Qed.

Lemma match_prefix_exact p k : match_prefix p k = Exact <-> k = p.
Proof.
  revert k. induction p as [|c p IH]; intros [|d k]; cbn [match_prefix]; try done.
  - split; [|done]. by destruct (d =? 46).
  - destruct (Z.eqb_spec c d) as [->|]; [rewrite IH; split; congruence|split; congruence].
Qed.

Lemma match_prefix_dotted p k r : match_prefix p k = Dotted r <-> k = p ++ 46 :: r.
Proof.
  revert k. induction p as [|c p IH]; intros [|d k]; cbn [match_prefix app]; try done.
  - destruct (Z.eqb_spec d 46) as [->|]; split; congruence.
  - destruct (Z.eqb_spec c d) as [->|]; [rewrite IH; split; congruence|split; congruence].
Qed.

Lemma prefix_call_eq {A} p k args (no : A) (f : list arg -> M A) cc :
  prefix_call p (Key k :: args) no f cc =
  match match_prefix p k with
  | Exact => f args cc
  | Dotted r => f (Key r :: args) cc
  | Other => Some (no, cc)
  end.
Proof. unfold prefix_call, prefix_args. run_M. cbn [fmap option_fmap option_map]. by destruct (match_prefix p k). Qed.

(** A call through two prefixes, if the inner one gets a key. *)
Lemma prefix_call_app {A} p q k args (no : A) (f g : list arg -> M A) cc :
  k <> p -> (forall r, g (Key r :: args) cc = prefix_call q (Key r :: args) no f cc) ->
  prefix_call p (Key k :: args) no g cc = prefix_call (p ++ 46 :: q) (Key k :: args) no f cc.
Proof.
  intros Hk Hg. rewrite !prefix_call_eq, match_prefix_app.
  destruct (match_prefix p k) eqn:E; [by apply match_prefix_exact in E| |done].
  by rewrite Hg, prefix_call_eq.
Qed.

(** * Theorems *)

Section Theorems.
Context {X : Type} `{!VtreeBackend X}.
Implicit Types (v : vtree_chain X) (tops : list (vtree_chain X)) (keys : list arg).

(** The accessors with variable arguments do what those with an argument
    vector do, unless the number of pointers including the NULL is 8, 16, 32 and
    so on: then copying them reads past the NULL, and a call that is not answered
    by the cache is undefined. *)
Theorem vtree_varargs vchain v cc keys n :
  n = Z.of_nat (length keys + 1) ->
  (~ fills 8 n ->
    (forall cache, vtree_getlen_cache vchain cc cache (va_args keys) = vtree_getlen_cachev vchain cc cache keys) /\
    (forall cache, vtree_get_cache vchain cc cache (va_args keys) = vtree_get_cachev vchain cc cache keys) /\
    (forall cache, vtree_getint_cache vchain cc cache (va_args keys) = vtree_getint_cachev vchain cc cache keys) /\
    (forall cache, vtree_haskey_cache vchain cc cache (va_args keys) = vtree_haskey_cachev vchain cc cache keys) /\
    vtree_fetch_keys_cache vchain cc (va_args keys) = vtree_fetch_keys_cachev vchain cc keys /\
    vtree_fetch_values_cache vchain cc (va_args keys) = vtree_fetch_values_cachev vchain cc keys) /\
  (fills 8 n -> v <> Null ->
    vtree_get_cache (Some v) cc None (va_args keys) = None /\
    vtree_getlen_cache (Some v) cc None (va_args keys) = None /\
    vtree_fetch_keys_cache (Some v) cc (va_args keys) = None).
Proof.
  intros Hn. destruct (args_copy_spec keys n Hn) as [Hok Hno]. split.
  - intros Hf. specialize (Hok Hf).
    unfold vtree_getlen_cache, vtree_get_cache, vtree_getint_cache, vtree_haskey_cache,
      vtree_fetch_keys_cache, vtree_fetch_values_cache, with_args. rewrite Hok. auto 10.
  - intros Hf Hv. specialize (Hno Hf).
    unfold vtree_getlen_cache, vtree_get_cache, vtree_fetch_keys_cache, fetch_call, with_args.
    rewrite Hno. by destruct v.
Qed.

(** The caches are transparent.  Calling an accessor any number of times with
    the same arguments and one cache, unset at first, returns what the tree
    answers each time; the answer is stored exactly if the tree says it can be,
    and the caller's cacheability is lowered to that of the tree. *)
Theorem vtree_cache_transparent v argv n cc r len h cg cl ch :
  v <> Null ->
  bpv_get v argv VTCACHE_CAN = Some (r, cg) ->
  bpv_getlen v argv VTCACHE_CAN = Some (len, cl) ->
  bpv_haskey v argv VTCACHE_CAN = Some (h, ch) ->
  repeat_call (fun cc cache => vtree_get_cachev (Some v) cc cache argv) (S n) cc (Some None) =
    Some (replicate (S n) r, lower_cc cc cg, stored cg r (Some None)) /\
  repeat_call (fun cc cache => vtree_getlen_cachev (Some v) cc cache argv) (S n) cc (Some (-1)) =
    Some (replicate (S n) len, lower_cc cc cl, stored cl len (Some (-1))) /\
  repeat_call (fun cc cache => vtree_haskey_cachev (Some v) cc cache argv) (S n) cc (Some (-1)) =
    Some (replicate (S n) (Z.b2z h), lower_cc cc ch, stored ch (Z.b2z h) (Some (-1))) /\
  repeat_call (fun cc cache => vtree_getint_cachev (Some v) cc cache argv) (S n) cc (Some 0) =
    Some (replicate (S n) (default 0 (atoi <$> r)), lower_cc cc cg,
          stored cg (default 0 (atoi <$> r)) (Some 0)).
Proof.
  intros Hv Hget Hlen Hhas. split; [|split; [|split]].
  - eapply (repeat_cached v _ _ id (fun cache => Some <$> mjoin cache)); [done|done|done|].
    unfold stored. case_decide; [|by left]. destruct r; [by right|by left].
  - eapply (repeat_cached v _ _ id int_hit); [done|done|done|].
    unfold stored, int_hit. case_decide; [|by left]. cbn. case_match; [by right|by left].
  - eapply (repeat_cached v _ _ id int_hit); [done| |done|].
    { run_M. by rewrite Hhas. }
    unfold stored. case_decide; [|by left]. destruct h; by right.
  - eapply (repeat_cached v _ _ id nonzero_hit); [done| |done|].
    { unfold getint. run_M. rewrite Hget. by destruct r. }
    unfold stored, nonzero_hit. case_decide; [|by left]. cbn. case_match; [by left|by right].
Qed.

(** C14: shadow trees stacked to any depth answer each lookup of at least one key
    with the first answer from the top, for every operation but fetching keys with their
    values.  If a shadow answered, the cacheability is VTCACHE_CANT, so that a cached
    accessor does not store the answer; if only the bottom did, it is what the bottom
    says of its answer; if no tree did, it is VTCACHE_UNKNOWN. *)
Theorem shadow_first_wins tops v argv value :
  argv <> [] -> v <> Null -> Forall (fun t => t <> Null) tops ->
  stacked is_some (fun t => bpv_get t argv) tops v /\
  stacked id (fun t => bpv_haskey t argv) tops v /\
  stacked nonzero (fun t => bpv_getlen t argv) tops v /\
  stacked is_some (fun t => bpv_getnode t argv) tops v /\
  stacked nonempty (fun t => bpv_fetch_keys t argv) tops v /\
  stacked nonempty (fun t => bpv_fetch_values t argv) tops v /\
  stacked nonempty (fun t => bpv_fetch_byval t value argv) tops v /\
  stacked nonempty (fun t => bpv_fetch_nodes t argv) tops v.
Proof.
  intros Ha Hv Ht. repeat split; apply shadow_stack_says; try done; intros t b Hn Hb cc.
  - by apply shadow_get_rule.
  - by apply shadow_haskey_rule.
  - by apply shadow_getlen_rule.
  - by apply shadow_getnode_rule.
  - by apply shadow_fetch_keys_rule.
  - by apply shadow_fetch_values_rule.
  - by apply shadow_fetch_byval_rule.
  - by apply shadow_fetch_nodes_rule.
Qed.

(** Fetching the keys and values of a shadow tree, neither side being a list
    and both with distinct keys, gives the union of the two: every element of the
    top, those of the bottom whose keys the top has not, in the order of their
    keys. *)
Theorem shadow_keyvals_union t b (l1 l2 : vtree_keyvals (vtree_chain X)) cc :
  t <> Null ->
  says (bpv_fetch_keys_and_values t [VTREE_LOOP]) l1 ->
  says (bpv_fetch_keys_and_values b [VTREE_LOOP]) l2 ->
  kv_type l1 <> vktList -> kv_type l2 <> vktList -> keyed (kv_list l1) -> keyed (kv_list l2) ->
  NoDup (ekey <$> kv_list l1) -> NoDup (ekey <$> kv_list l2) ->
  exists r cc', bpv_fetch_keys_and_values (shadow_vtree_init (Some t) (Some b)) [VTREE_LOOP] cc =
    Some (r, cc') /\ kv_union (kv_list l1) (kv_list l2) (kv_list r).
Proof.
  intros Ht H1 H2 T1 T2 K1 K2 N1 N2.
  destruct (kv_merged_spec l1 l2) as (r & E & Hu); [done..|].
  destruct (H1 VTCACHE_CANT) as [c1 E1], (H2 c1) as [c2 E2]. exists r, c2. split; [|done].
  cbn [bpv_fetch_keys_and_values shadow_vtree_init]. unfold shadow_vtree_fetch_keys_and_values, bpv.
  rewrite has_fun_Some by done. run_M. by rewrite E1, E2, E.
Qed.

(** Fetching only the keys of a shadow tree does not give the union: a key is
    returned exactly if it is on one side and both sides have keys up to it.  The
    keys after the last key of either side are lost, all of them if a side is
    empty. *)
Theorem shadow_keys_truncated t b (l1 l2 : list (list Z)) cc :
  t <> Null -> says (bpv_fetch_keys t []) l1 -> says (bpv_fetch_keys b []) l2 ->
  NoDup l1 -> NoDup l2 ->
  exists l cc', bpv_fetch_keys (shadow_vtree_init (Some t) (Some b)) [] cc = Some (l, cc') /\
    forall k, k ∈ l <-> (k ∈ l1 \/ k ∈ l2) /\ reaches l1 k /\ reaches l2 k.
Proof.
  intros Ht H1 H2 N1 N2.
  destruct (H1 VTCACHE_CANT) as [c1 E1], (H2 c1) as [c2 E2].
  assert (forall l, NoDup l -> StronglySorted str_lt (merge_sort str_le l)) as Hsort.
  { intros l Hl. apply (sorted_strict id); [apply StronglySorted_merge_sort; apply _|].
    rewrite list_fmap_id. by rewrite merge_sort_Permutation. }
  eexists _, c2. split.
  - cbn [bpv_fetch_keys shadow_vtree_init]. unfold shadow_vtree_fetch_keys, bpv.
    rewrite has_fun_Some by done. run_M. by rewrite E1, E2.
  - intros k. rewrite merge_keys_spec; [|by apply Hsort..|by rewrite !merge_sort_Permutation].
    unfold reaches. by setoid_rewrite merge_sort_Permutation.
Qed.

(** A prefix tree answers for the keys that are the prefix, passing on the
    other arguments, or that continue it after a dot, passing on the rest; any
    other key is absent.  Prefixes nest: a prefix inside a prefix is one prefix
    joined by a dot, for every first key but the outer prefix itself, which only
    the nested trees know. *)
Theorem prefix_compose p q k v args cc :
  v <> Null -> k <> p ->
  let nested := prefix_vtree_init p (Some (prefix_vtree_init q (Some v))) in
  let joined := prefix_vtree_init (p ++ 46 :: q) (Some v) in
  (forall r, k = p ++ 46 :: q ++ 46 :: r -> bpv_get joined (Key k :: args) cc = bpv_get v (Key r :: args) cc) /\
  (k = p ++ 46 :: q -> bpv_get joined (Key k :: args) cc = bpv_get v args cc) /\
  bpv_get nested (Key k :: args) cc = bpv_get joined (Key k :: args) cc /\
  bpv_getlen nested (Key k :: args) cc = bpv_getlen joined (Key k :: args) cc /\
  bpv_haskey nested (Key k :: args) cc = bpv_haskey joined (Key k :: args) cc /\
  bpv_fetch_keys nested (Key k :: args) cc = bpv_fetch_keys joined (Key k :: args) cc /\
  bpv_fetch_values nested (Key k :: args) cc = bpv_fetch_values joined (Key k :: args) cc /\
  bpv_getnode nested (Key k :: args) cc = bpv_getnode joined (Key k :: args) cc /\
  bpv_get nested (Key p :: args) cc = bpv_get (prefix_vtree_init q (Some v)) args cc /\
  bpv_get joined (Key p :: args) cc = Some (None, cc).
Proof.
  intros Hv Hk nested joined. unfold nested, joined, prefix_vtree_init.
  assert (has_fun (Some v) = true) as Hf by by apply has_fun_Some.
  assert (forall A (no : A) f g, (forall r, g (Key r :: args) cc = prefix_call q (Key r :: args) no f cc) ->
    prefix_call p (Key k :: args) no g cc = prefix_call (p ++ 46 :: q) (Key k :: args) no f cc) as Happ.
  { intros A no f g. by apply prefix_call_app. }
  cbn [bpv_get bpv_getlen bpv_haskey bpv_fetch_keys bpv_fetch_values bpv_getnode].
  unfold prefix_vtree_get, prefix_vtree_getlen, prefix_vtree_haskey, prefix_vtree_fetch_keys,
    prefix_vtree_fetch_values, prefix_vtree_getnode, prefix_call_loop. rewrite Hf. cbn [has_fun].
  split; [intros r Hr|split; [intros Hr|repeat apply conj; try apply Happ]].
  - rewrite prefix_call_eq, (proj2 (match_prefix_dotted _ k r)); [done|].
    by rewrite <- (assoc_L (++) p (46 :: q)).
  - by rewrite prefix_call_eq, (proj2 (match_prefix_exact _ k)).
  - intros r. cbn. unfold prefix_vtree_get. by rewrite Hf.
  - intros r. cbn. unfold prefix_vtree_getlen. by rewrite Hf.
  - intros r. cbn. unfold prefix_vtree_haskey. by rewrite Hf.
  - done.
  - done.
  - done.
  - rewrite prefix_call_eq, (proj2 (match_prefix_exact p p)) by done. cbn [bpv bpv_get].
    unfold prefix_vtree_get. by rewrite Hf.
  - by rewrite prefix_call_eq, match_prefix_app, (proj2 (match_prefix_exact p p)).
Qed.
End Theorems.
