(* ===== verification/BconfVtree.v ===== *)
(** BconfVtree: bconf trees behind the vtree interface
    (src/vtree/lib/bconf_vtree.c).

    A chain is a single node ([Node], the tables [bconf_api_node] and
    [bconf_api_node_own], which differ in their free function) or a pair of roots
    of which one has priority ([Roots], the table [bconf_api_vtree]).  The file
    ends with the theorems on shadow and prefix trees over bconf. *)
From stdpp Require Import prelude list numbers sorting.
From Stdlib Require Import ZArith Lia.
From S2P Require Import Prelude Bconf Vtree.

Local Open Scope Z_scope.
#[local] Set Warnings "-register-all".

Inductive bconf_chain :=
| Node (own : bool) (node : option bconf_node)
| Roots (bconf_lowprio bconf_highprio : option bconf_node) (highprio_cachelevel : vtree_cacheable).

(** [bconf_vasget] with the sentinel NULL, or VTREE_LOOP if [stop].  A key that
    is VTREE_LOOP may not be followed from a node. *)
Fixpoint bconf_vasget (res : option bconf_node) (stop : bool) (argv : list arg) :
    option (option bconf_node) :=
  match argv with
  | [] => Some res
  | Key k :: argv => n ← bconf_get res k; bconf_vasget n stop argv
  | VTREE_LOOP :: argv =>
    if stop then Some res
    else match res with None => bconf_vasget None stop argv | Some _ => None end
  end.

(** The arguments from [argoff] on. *)
Fixpoint after_loop (argv : list arg) : list arg :=
  match argv with
  | [] => []
  | VTREE_LOOP :: argv => argv
  | Key _ :: argv => after_loop argv
  end.

Definition subs_of (node : option bconf_node) : list bconf_node :=
  match node with Some n => n_subs n | None => [] end.

Definition bconf_key (node : bconf_node) : list Z := n_key node.

(** * Reading one root *)

Definition vtree_bconf_fetch_keys (node : option bconf_node) (argv : list arg) :
    option (list (list Z)) :=
  node ← bconf_vasget node false argv;
  Some (bconf_key <$> subs_of node).

Definition vtree_bconf_fetch_values (node : option bconf_node) (argv : list arg) :
    option (list (option (list Z))) :=
  node ← bconf_vasget node true argv;
  mapM (fun n => m ← bconf_vasget (Some n) false (after_loop argv);
                 Some (Some (default [] (bconf_value m)))) (subs_of node).

Definition vtree_bconf_fetch_keys_by_value (node : option bconf_node) (value : list Z)
    (argv : list arg) : option (list (list Z)) :=
  node ← bconf_vasget node true argv;
  ks ← mapM (fun n => m ← bconf_vasget (Some n) false (after_loop argv);
                      Some (if decide (bconf_value m = Some value) then [bconf_key n] else []))
         (subs_of node);
  Some (mjoin ks).

Definition vtree_bconf_fetch_nodes (node : option bconf_node) (argv : list arg) :
    option (list (vtree_chain bconf_chain)) :=
  node ← bconf_vasget node false argv;
  Some ((fun n => Ext (Node false (Some n))) <$> subs_of node).

Definition bconf_elem (rest : list arg) (n : bconf_node) :
    option (vtree_keyvals_elem (vtree_chain bconf_chain)) :=
  m ← bconf_vasget (Some n) false rest;
  Some (mk_elem (Some (bconf_key n))
    match m with
    | None => vkvNone
    | Some m' =>
      match bconf_value m with
      | Some val => vkvValue val
      | None => vkvNode (Ext (Node false (Some m')))
      end
    end).

Definition vtree_bconf_fetch_keys_and_values (node : option bconf_node) (argv : list arg) :
    option (vtree_keyvals (vtree_chain bconf_chain)) :=
  node ← bconf_vasget node true argv;
  l ← mapM (bconf_elem (after_loop argv)) (subs_of node);
  Some (mk_keyvals vktUnknown l).

(** * A single node *)

Definition _bconf_node_get (n : option bconf_node) (argv : list arg) : M (option (list Z)) :=
  match n with
  | None => mret None
  | Some _ => n ← lift (bconf_vasget n false argv); mret (bconf_value n)
  end.

Definition _bconf_node_getlen (n : option bconf_node) (argv : list arg) : M Z :=
  match n with
  | None => mret 0
  | Some _ => n ← lift (bconf_vasget n false argv); mret (Z.of_nat (bconf_count n))
  end.

Definition _bconf_node_haskey (n : option bconf_node) (argv : list arg) : M bool :=
  match n with
  | None => mret false
  | Some _ =>
    n ← lift (bconf_vasget n false argv); mret (match n with Some _ => true | None => false end)
  end.

Definition _bconf_node_getnode (n : option bconf_node) (argv : list arg) :
    M (option (vtree_chain bconf_chain)) :=
  n ← lift (bconf_vasget n false argv);
  _ ← set_cc VTCACHE_CANT;
  mret (match n with Some _ => Some (Ext (Node false n)) | None => None end).

(** * Two roots *)

Section Roots.
Context (bconf_lowprio bconf_highprio : option bconf_node) (highprio_cachelevel : vtree_cacheable).

Definition not_found {A} (a : A) : M A :=
  if cc_num highprio_cachelevel <? cc_num VTCACHE_CAN
  then _ ← set_cc VTCACHE_UNKNOWN; mret a else mret a.

(** The node of the root with priority, else of the other one. *)
Definition lookup_roots {A} (f : bconf_node -> A) (no : A) (argv : list arg) : M A :=
  let low :=
    node ← lift (bconf_vasget bconf_lowprio false argv);
    match node with Some n => mret (f n) | None => not_found no end in
  match bconf_highprio with
  | None => low
  | Some _ =>
    node ← lift (bconf_vasget bconf_highprio false argv);
    match node with
    | Some n => _ ← set_cc highprio_cachelevel; mret (f n)
    | None => low
    end
  end.

Definition _bconf_getlen (argv : list arg) : M Z :=
  lookup_roots (fun n => Z.of_nat (bconf_count (Some n))) 0 argv.

Definition _bconf_get (argv : list arg) : M (option (list Z)) :=
  lookup_roots (fun n => bconf_value (Some n)) None argv.

Definition _bconf_haskey (argv : list arg) : M bool := lookup_roots (fun _ => true) false argv.

Definition _bconf_getnode (argv : list arg) : M (option (vtree_chain bconf_chain)) :=
  lookup_roots (fun n => Some (Ext (Node false (Some n)))) None argv.

(** The list from the root with priority, else from the other one. *)
Definition fetch_roots {A B} (fetch : option bconf_node -> option A) (items : A -> list B) : M A :=
  let low :=
    l ← lift (fetch bconf_lowprio);
    match items l with [] => not_found l | _ => mret l end in
  match bconf_highprio with
  | None => low
  | Some _ =>
    l ← lift (fetch bconf_highprio);
    match items l with [] => low | _ => _ ← set_cc highprio_cachelevel; mret l end
  end.

Definition _bconf_fetch_keys (argv : list arg) : M (list (list Z)) :=
  fetch_roots (fun node => vtree_bconf_fetch_keys node argv) id.

Definition _bconf_fetch_values (argv : list arg) : M (list (option (list Z))) :=
  fetch_roots (fun node => vtree_bconf_fetch_values node argv) id.

Definition _bconf_fetch_keys_by_value (value : list Z) (argv : list arg) : M (list (list Z)) :=
  fetch_roots (fun node => vtree_bconf_fetch_keys_by_value node value argv) id.

Definition _bconf_fetch_nodes (argv : list arg) : M (list (vtree_chain bconf_chain)) :=
  fetch_roots (fun node => vtree_bconf_fetch_nodes node argv) id.

Definition _bconf_fetch_keys_and_values (argv : list arg) :
    M (vtree_keyvals (vtree_chain bconf_chain)) :=
  fetch_roots (fun node => vtree_bconf_fetch_keys_and_values node argv) kv_list.
End Roots.

(** * The dispatch tables *)

#[export] Instance bconf_api : VtreeBackend bconf_chain := {
  ext_getlen c argv :=
    match c with Node _ n => _bconf_node_getlen n argv | Roots l h k => _bconf_getlen l h k argv end;
  ext_get c argv :=
    match c with Node _ n => _bconf_node_get n argv | Roots l h k => _bconf_get l h k argv end;
  ext_haskey c argv :=
    match c with Node _ n => _bconf_node_haskey n argv | Roots l h k => _bconf_haskey l h k argv end;
  ext_fetch_keys c argv :=
    match c with
    | Node _ n => lift (vtree_bconf_fetch_keys n argv)
    | Roots l h k => _bconf_fetch_keys l h k argv
    end;
  ext_fetch_values c argv :=
    match c with
    | Node _ n => lift (vtree_bconf_fetch_values n argv)
    | Roots l h k => _bconf_fetch_values l h k argv
    end;
  ext_fetch_byval c value argv :=
    match c with
    | Node _ n => lift (vtree_bconf_fetch_keys_by_value n value argv)
    | Roots l h k => _bconf_fetch_keys_by_value l h k value argv
    end;
  ext_getnode c argv :=
    match c with Node _ n => _bconf_node_getnode n argv | Roots l h k => _bconf_getnode l h k argv end;
  ext_fetch_nodes c argv :=
    match c with
    | Node _ n => lift (vtree_bconf_fetch_nodes n argv)
    | Roots l h k => _bconf_fetch_nodes l h k argv
    end;
  ext_fetch_keys_and_values c argv :=
    match c with
    | Node _ n => lift (vtree_bconf_fetch_keys_and_values n argv)
    | Roots l h k => _bconf_fetch_keys_and_values l h k argv
    end
}.

(** Which tables have a free function. *)
Definition bconf_frees (c : bconf_chain) : bool :=
  match c with Node own _ => own | Roots _ _ _ => true end.

Definition bconf_vtree_init (bconf_lowprio bconf_highprio : option bconf_node)
    (highprio_cachelevel : vtree_cacheable) : vtree_chain bconf_chain :=
  match bconf_highprio with
  | Some _ => Ext (Roots bconf_lowprio bconf_highprio highprio_cachelevel)
  | None => Ext (Node false bconf_lowprio)
  end.

Definition bconf_vtree_app (host_root : option bconf_node) (app : list Z) :
    option (vtree_chain bconf_chain) :=
  low ← bconf_get host_root star_key;
  high ← bconf_get host_root app;
  Some (bconf_vtree_init low high VTCACHE_CAN).

Definition bconf_vtree (node : option bconf_node) : vtree_chain bconf_chain :=
  bconf_vtree_init node None VTCACHE_CAN.

Definition bconf_vtree_own (node : option bconf_node) : vtree_chain bconf_chain :=
  Ext (Node true node).

(** * Paths *)

(** The node that a list of keys, each possibly of several parts, leads to. *)
Definition at_path (root : option bconf_node) (ks : list (list Z)) : option bconf_node :=
  n ← root; find_star n (concat (split_dots <$> ks)).

Definition root_ok (root : option bconf_node) : Prop := forall n, root = Some n -> node_ok n.

Lemma find_star_app n p q : find_star n (p ++ q) = find_star n p ≫= fun m => find_star m q.
Proof.
  revert n. induction p as [|k p IH]; intros n; simpl; [done|].
  destruct (child n k); [apply IH|]. destruct (child n star_key); [apply IH|done].
Qed.

Lemma find_star_ok n p m : node_ok n -> find_star n p = Some m -> node_ok m.
Proof.
  revert n. induction p as [|k p IH]; intros n Hok; simpl; [by intros [= <-]|].
  destruct (child n k) as [c|] eqn:Hc; [apply IH; by eapply child_ok|].
  destruct (child n star_key) as [c|] eqn:Hs; [|done]. apply IH. by eapply child_ok.
Qed.

Lemma at_path_app root ks ks' : at_path root (ks ++ ks') = at_path (at_path root ks) ks'.
Proof.
  unfold at_path. destruct root as [n|]; [|done]. cbn [mbind option_bind].
  by rewrite fmap_app, concat_app, find_star_app.
Qed.

Lemma at_path_ok root ks : root_ok root -> root_ok (at_path root ks).
Proof.
  intros Hok m. unfold at_path. destruct root as [n|]; [|done]. apply find_star_ok. by apply Hok.
Qed.

Lemma bconf_get_at root k : root_ok root -> valid_key k -> bconf_get root k = Some (at_path root [k]).
Proof.
  intros Hok Hk. destruct root as [n|]; [|done]. unfold bconf_get, at_path. simpl.
  rewrite app_nil_r. apply get_loop_spec; [by apply Hok|by apply valid_split].
Qed.

Lemma vasget_at root stop ks :
  root_ok root -> Forall valid_key ks -> bconf_vasget root stop (Key <$> ks) = Some (at_path root ks).
Proof.
  revert root. induction ks as [|k ks IH]; intros root Hok Hks; [by destruct root|].
  apply list.Forall_cons in Hks as [Hk Hks]. cbn [bconf_vasget fmap list_fmap].
  rewrite bconf_get_at by done. cbn [mbind option_bind]. rewrite IH by auto using at_path_ok.
  by rewrite <- (at_path_app root [k]).
Qed.

Lemma vasget_loop root ks rest :
  root_ok root -> Forall valid_key ks ->
  bconf_vasget root true ((Key <$> ks) ++ VTREE_LOOP :: rest) = Some (at_path root ks).
Proof.
  revert root. induction ks as [|k ks IH]; intros root Hok Hks; [by destruct root|].
  apply list.Forall_cons in Hks as [Hk Hks]. cbn [bconf_vasget fmap list_fmap app].
  rewrite bconf_get_at by done. cbn [mbind option_bind]. rewrite IH by auto using at_path_ok.
  by rewrite <- (at_path_app root [k]).
Qed.

Lemma after_loop_keys ks rest : after_loop ((Key <$> ks) ++ VTREE_LOOP :: rest) = rest.
Proof. by induction ks. Qed.

Lemma split_dotless k : 46 ∉ k -> split_dots k = [k].
Proof.
  induction k as [|c k IH]; [done|]. rewrite not_elem_of_cons. intros [Hc Hk]. simpl.
  destruct (Z.eqb_spec c 46); [congruence|]. by rewrite IH.
Qed.

(** The sub node with a key is found by the key. *)
Lemma at_path_sub root s rest :
  root_ok root -> s ∈ subs_of root -> 46 ∉ n_key s ->
  at_path root (n_key s :: rest) = at_path (Some s) rest.
Proof.
  intros Hok Hs Hdot. destruct root as [n|]; [|by apply elem_of_nil in Hs].
  unfold at_path. rewrite fmap_cons, split_dotless by done. cbn [mbind option_bind concat app find_star].
  by rewrite (child_of_sub n s) by (auto; by apply Hok).
Qed.

Lemma subs_ok root s : root_ok root -> s ∈ subs_of root -> root_ok (Some s).
Proof.
  intros Hok Hs m [= <-]. destruct root as [n|]; [|by apply elem_of_nil in Hs].
  by apply (sub_valid n s (Hok n eq_refl) Hs).
Qed.

Lemma mapM_total {A B} (f : A -> option B) (g : A -> B) l :
  (forall a, a ∈ l -> f a = Some (g a)) -> mapM f l = Some (g <$> l).
Proof.
  intros Hf. apply mapM_Some_2, Forall2_fmap_r, Forall_Forall2_diag, list.Forall_forall. exact Hf.
Qed.

Section Fetch.
Context (root : option bconf_node) (ks rest : list (list Z)).
Context (Hok : root_ok root) (Hks : Forall valid_key ks) (Hrest : Forall valid_key rest).

Let subs := subs_of (at_path root ks).
Let argv := (Key <$> ks) ++ VTREE_LOOP :: (Key <$> rest).

Lemma subs_vasget s : s ∈ subs -> bconf_vasget (Some s) false (Key <$> rest) = Some (at_path (Some s) rest).
Proof using Hok Hrest. intros Hs. apply vasget_at; [|done]. eapply subs_ok; [|done]. by apply at_path_ok. Qed.

Lemma fetch_values_spec :
  vtree_bconf_fetch_values root argv =
  Some ((fun s => Some (default [] (bconf_value (at_path (Some s) rest)))) <$> subs).
Proof using Hok Hks Hrest.
  unfold vtree_bconf_fetch_values, argv. rewrite vasget_loop by done. cbn [mbind option_bind].
  rewrite after_loop_keys. apply mapM_total. intros s Hs. by rewrite subs_vasget.
Qed.

Lemma fetch_byval_spec value :
  exists l, vtree_bconf_fetch_keys_by_value root value argv = Some l /\
    forall k, k ∈ l <-> exists s, s ∈ subs /\ n_key s = k /\ bconf_value (at_path (Some s) rest) = Some value.
Proof using Hok Hks Hrest.
  unfold vtree_bconf_fetch_keys_by_value, argv. rewrite vasget_loop by done. cbn [mbind option_bind].
  rewrite after_loop_keys.
  rewrite (mapM_total _ (fun s => if decide (bconf_value (at_path (Some s) rest) = Some value)
                                  then [n_key s] else [])).
  2: { intros s Hs. by rewrite subs_vasget. }
  eexists. split; [done|]. intros k. rewrite list_elem_of_join. split.
  - intros (l & Hk & (s & -> & Hs)%list_elem_of_fmap). exists s. case_decide; [|by apply elem_of_nil in Hk].
    apply list_elem_of_singleton in Hk. by subst.
  - intros (s & Hs & <- & Hv). eexists. split.
    2: { apply list_elem_of_fmap. exists s. split; [done|exact Hs]. }
    rewrite decide_True by done. left.
Qed.

Lemma fetch_keys_spec : vtree_bconf_fetch_keys root (Key <$> ks) = Some (n_key <$> subs).
Proof using Hok Hks. unfold vtree_bconf_fetch_keys. by rewrite vasget_at. Qed.
End Fetch.

(** The answers for a path that leads to [node]. *)
Definition answers (v : vtree_chain bconf_chain) (ks : list (list Z)) (node : option bconf_node) : Prop :=
  says (bpv_get v (Key <$> ks)) (bconf_value node) /\
  says (bpv_getlen v (Key <$> ks)) (Z.of_nat (bconf_count node)) /\
  says (bpv_haskey v (Key <$> ks)) (is_some node) /\
  says (bpv_getnode v (Key <$> ks)) ((fun n => Ext (Node false (Some n))) <$> node).

Lemma node_answers own root ks :
  root_ok root -> Forall valid_key ks -> answers (Ext (Node own root)) ks (at_path root ks).
Proof.
  intros Hok Hks. unfold answers, says.
  cbn [bpv_get bpv_getlen bpv_haskey bpv_getnode ext_get ext_getlen ext_haskey ext_getnode bconf_api].
  unfold _bconf_node_get, _bconf_node_getlen, _bconf_node_haskey, _bconf_node_getnode. run_M.
  destruct root as [n|]; rewrite ?vasget_at by done; cbn; [|by eauto 10].
  destruct (find_star n _); eauto 10.
Qed.

Lemma roots_answers low h level ks :
  root_ok low -> root_ok (Some h) -> Forall valid_key ks ->
  answers (Ext (Roots low (Some h) level)) ks
    (match at_path (Some h) ks with Some n => Some n | None => at_path low ks end).
Proof.
  intros Hl Hh Hks. unfold answers, says.
  cbn [bpv_get bpv_getlen bpv_haskey bpv_getnode ext_get ext_getlen ext_haskey ext_getnode bconf_api].
  unfold _bconf_get, _bconf_getlen, _bconf_haskey, _bconf_getnode, lookup_roots, not_found. run_M.
  rewrite !vasget_at by done. cbn [fmap option_fmap option_map].
  destruct (at_path (Some h) ks); [by eauto 10|].
  destruct (at_path low ks); cbn; [by eauto 10|]. repeat split; intros; case_match; eauto.
Qed.

(** * Theorems *)

(** C16: on well-formed roots no lookup fails, and its answer is that of the node
    which the keys lead to in the root with priority, or else in the other root.
    The node depends on the parts between dots only, so that it does not matter
    how a path is split into arguments. *)
Theorem bconf_vtree_path low high level ks ks' :
  root_ok low -> root_ok high -> Forall valid_key ks -> Forall valid_key ks' ->
  concat (split_dots <$> ks) = concat (split_dots <$> ks') ->
  let v := bconf_vtree_init low high level in
  let node := match at_path high ks with Some n => Some n | None => at_path low ks end in
  answers v ks node /\ answers v ks' node.
Proof.
  intros Hl Hh Hks Hks' E v node. subst node v.
  assert (forall root, at_path root ks = at_path root ks') as Hsame by (intros; unfold at_path; by rewrite E).
  destruct high as [h|]; cbn [bconf_vtree_init].
  - split; [|rewrite !Hsame]; by apply roots_answers.
  - split; [|cbn [at_path mbind option_bind]; rewrite Hsame]; by apply node_answers.
Qed.

(** Looping over a node is consistent with looking up: there are as many
    keys as the length says, fetching values gives the value that getting the
    path through each key gives, or the empty string, in the same order, and
    fetching keys by value gives exactly the keys whose value it is. *)
Theorem bconf_loop_consistent own root ks rest value :
  root_ok root -> Forall valid_key ks -> Forall valid_key rest ->
  Forall (fun s => 46 ∉ n_key s) (subs_of (at_path root ks)) ->
  let v := Ext (Node own root) in
  let argv := (Key <$> ks) ++ VTREE_LOOP :: (Key <$> rest) in
  exists keys vals sel,
    says (bpv_fetch_keys v (Key <$> ks)) keys /\ says (bpv_fetch_values v argv) vals /\
    says (bpv_fetch_byval v value argv) sel /\
    says (bpv_getlen v (Key <$> ks)) (Z.of_nat (length keys)) /\ length vals = length keys /\
    (forall i k, keys !! i = Some k -> exists r,
      says (bpv_get v (Key <$> (ks ++ k :: rest))) r /\ vals !! i = Some (Some (default [] r)) /\
      (k ∈ sel <-> r = Some value)).
Proof.
  intros Hok Hks Hrest Hdots v argv. set (subs := subs_of (at_path root ks)) in *.
  destruct (fetch_byval_spec root ks rest Hok Hks Hrest value) as (sel & Esel & Hsel).
  exists (n_key <$> subs), ((fun s => Some (default [] (bconf_value (at_path (Some s) rest)))) <$> subs), sel.
  cbn [bpv_fetch_keys bpv_fetch_values bpv_fetch_byval bpv_getlen bpv_get ext_fetch_keys
       ext_fetch_values ext_fetch_byval ext_getlen ext_get bconf_api v].
  unfold argv, says, lift. rewrite fetch_keys_spec, fetch_values_spec, Esel by done.
  do 3 (split; [by eexists|]). split; [|split; [by rewrite !length_fmap|]].
  { rewrite length_fmap. destruct (node_answers own root ks Hok Hks) as (_ & Hlen & _).
    subst subs. by destruct (at_path root ks). }
  intros i k Hk. apply list_lookup_fmap_Some in Hk as (s & -> & Hi).
  assert (s ∈ subs) as Hs by by eapply list_elem_of_lookup_2.
  assert (46 ∉ n_key s) as Hdot by (rewrite list.Forall_forall in Hdots; auto).
  assert (valid_key (n_key s)) as Hvk.
  { subst subs. destruct (at_path root ks) as [m|] eqn:Em; [|by apply elem_of_nil in Hs].
    apply (sub_valid m s); [|done]. by apply (at_path_ok root ks Hok m). }
  assert (at_path root (ks ++ n_key s :: rest) = at_path (Some s) rest) as Epath.
  { rewrite at_path_app. apply at_path_sub; auto using at_path_ok. }
  exists (bconf_value (at_path (Some s) rest)). split; [|split].
  - destruct (node_answers own root (ks ++ n_key s :: rest) Hok) as [Hget _]; [|by rewrite Epath in Hget].
    apply Forall_app. split; [done|by constructor].
  - by rewrite list_lookup_fmap, Hi.
  - rewrite Hsel. split; [|by eauto]. intros (s' & Hs' & Ekey & Hv).
    assert (s' = s) as ->; [|done]. subst subs.
    destruct (at_path root ks) as [m|] eqn:Em; [|by apply elem_of_nil in Hs].
    pose proof (at_path_ok root ks Hok m Em) as Hm.
    pose proof (child_of_sub m s Hm Hs). pose proof (child_of_sub m s' Hm Hs'). congruence.
Qed.

(** * Defects *)

(** [shadow_vtree_getlen] marks the sum of the lengths as not cacheable before it
    asks the trees, of which a pair of roots sets the cacheability again; the sum,
    with a key that is on both sides counted twice, is then cached. *)
Theorem shadow_getlen_cached :
  exists (t b : vtree_chain bconf_chain) cc,
    vtree_getlen_cachev (Some (shadow_vtree_init (Some t) (Some b))) None (Some (-1)) [] =
      Some (2, cc, Some 2) /\
    says (bpv_fetch_keys t []) [bytes "b"] /\ says (bpv_fetch_keys b []) [bytes "b"].
Proof.
  exists (bconf_vtree_init (Some overlay) (Some overlay) VTCACHE_CAN),
    (bconf_vtree_init (Some overlay) (Some overlay) VTCACHE_CAN), None.
  split; [by vm_compute|]. split; intros cc; exists VTCACHE_CAN; by vm_compute.
Qed.

(** The keys of a tree with the keys a and * shadowed by one with the key b: the
    key b is lost, although it can be looked up and is in the merged values. *)
Theorem shadow_keys_lost :
  let v := shadow_vtree_init (Some (bconf_vtree (Some overlay))) (Some (bconf_vtree (Some sample))) in
  says (bpv_fetch_keys v []) [bytes "*"; bytes "a"] /\ says (bpv_haskey v [Key (bytes "b")]) true.
Proof. split; intros cc; eexists; by vm_compute. Qed.

(** The table of free functions. *)
Definition frees (v : vtree_chain bconf_chain) : bool :=
  match v with Null => false | Ext c => bconf_frees c | Shadow _ _ | Prefix _ _ => true end.

(** [vtree_getnode_cachev] leaves the freed contents in its [dst] when there is no
    node, so that asking again frees them twice; [vtree_getnode_cache] clears it. *)
Theorem getnode_double_free :
  let v := Some (bconf_vtree (Some sample)) in
  let dst := mk_dst (bconf_vtree_own (Some overlay)) false in
  let missing := [Key (bytes "a"); Key (bytes "11")] in
  ('(_, _, _, dst) ← vtree_getnode_cachev frees v None dst None missing;
   vtree_getnode_cachev frees v None dst None missing) = None /\
  ('(_, _, _, dst) ← vtree_getnode_cache frees v None dst None (va_args missing);
   vtree_getnode_cache frees v None dst None (va_args missing)) =
  Some (None, None, None, mk_dst Null false).
Proof. by vm_compute. Qed.

(** Merging sorts the elements before it looks at their type, and a list of two or
    more elements has no keys to compare. *)
Theorem shadow_lists_crash (e1 e2 : vtree_keyvals_elem (vtree_chain bconf_chain)) es b :
  kv_key e1 = None -> kv_merged (mk_keyvals vktList (e1 :: e2 :: es)) b = None.
Proof. intros E. unfold kv_merged, kv_qsort. cbn. by rewrite E. Qed.

(** * Witnesses *)

Lemma sample_root_ok : root_ok (Some sample).
Proof. intros n [= <-]. exact sample_ok. Qed.

Lemma overlay_root_ok : root_ok (Some overlay).
Proof. intros n [= <-]. exact overlay_ok. Qed.

Definition sample_tree : vtree_chain bconf_chain := bconf_vtree (Some sample).
Definition overlay_tree : vtree_chain bconf_chain := bconf_vtree (Some overlay).

Ltac compute_says := intros ?cc; eexists; vm_compute; reflexivity.
Ltac check_keys := vm_compute; repeat constructor.

Lemma vtree_varargs_witness :
  vtree_get_cache (Some sample_tree) None None (va_args (Key <$> [bytes "a"; bytes "9"])) =
    vtree_get_cachev (Some sample_tree) None None (Key <$> [bytes "a"; bytes "9"]) /\
  vtree_get_cache (Some sample_tree) None None (va_args (replicate 7 (Key (bytes "a")))) = None.
Proof.
  split.
  - destruct (vtree_varargs (Some sample_tree) sample_tree None (Key <$> [bytes "a"; bytes "9"]) 3)
      as [H _]; [done|]. apply H. intros (j & Hj & E). pose proof (Z.pow_pos_nonneg 2 j). lia.
  - destruct (vtree_varargs (Some sample_tree) sample_tree None (replicate 7 (Key (bytes "a"))) 8)
      as [_ H]; [done|]. apply H; [by exists 0|done].
Defined.

Lemma vtree_cache_transparent_witness :
  repeat_call (fun cc cache => vtree_get_cachev (Some sample_tree) cc cache [Key (bytes "a.9")]) 3
    (Some VTCACHE_USED) (Some None) =
  Some (replicate 3 (Some (bytes "y")), Some VTCACHE_CAN, Some (Some (bytes "y"))).
Proof.
  destruct (vtree_cache_transparent sample_tree [Key (bytes "a.9")] 2 (Some VTCACHE_USED)
    (Some (bytes "y")) 0 true VTCACHE_CAN VTCACHE_CAN VTCACHE_CAN) as (H & _);
    [done|by vm_compute..|exact H].
Defined.

Lemma shadow_first_wins_witness :
  exists cc', bpv_get (shadow_stack [overlay_tree; sample_tree] sample_tree) [Key (bytes "b")] VTCACHE_CAN =
    Some (Some (bytes "v"), cc') /\ cc' = VTCACHE_CANT.
Proof.
  destruct (shadow_first_wins [overlay_tree; sample_tree] sample_tree [Key (bytes "b")] [])
    as [H _]; [done|done|by repeat constructor|].
  destruct (H (fun t => match bpv_get t [Key (bytes "b")] VTCACHE_CAN with Some (r, _) => r | None => None end))
    with (cc := VTCACHE_CAN) as (cc' & E & Hc & _).
  { repeat constructor; compute_says. }
  exists cc'. split; [by rewrite E|]. apply Hc. left. by vm_compute.
Defined.

Lemma shadow_keyvals_union_witness :
  exists r cc', bpv_fetch_keys_and_values (shadow_vtree_init (Some overlay_tree) (Some sample_tree))
    [VTREE_LOOP] VTCACHE_CAN = Some (r, cc') /\ StronglySorted kv_lt (kv_list r).
Proof.
  edestruct (shadow_keyvals_union overlay_tree sample_tree) as (r & cc' & E & Hs & _);
    [done|compute_says|compute_says|done|done|repeat constructor; by eexists|repeat constructor; by eexists|..].
  1,2: apply (bool_decide_unpack _); by vm_compute.
  exists r, cc'. by split.
Defined.

Lemma shadow_keys_truncated_witness :
  exists l cc', bpv_fetch_keys (shadow_vtree_init (Some overlay_tree) (Some sample_tree)) [] VTCACHE_CAN =
    Some (l, cc') /\ bytes "b" ∉ l.
Proof.
  destruct (shadow_keys_truncated overlay_tree sample_tree [bytes "b"] [bytes "*"; bytes "a"] VTCACHE_CAN)
    as (l & cc' & E & Hl); [done|compute_says|compute_says|apply (bool_decide_unpack _); by vm_compute..|].
  exists l, cc'. split; [done|]. rewrite Hl. intros (_ & _ & a & Ha & Hle).
  apply list_elem_of_In in Ha as [<-|[<-|[]]]; by vm_compute in Hle.
Defined.

Lemma prefix_compose_witness :
  bpv_get (prefix_vtree_init (bytes "x") (Some (prefix_vtree_init (bytes "y") (Some sample_tree))))
    [Key (bytes "x.y.a.9")] VTCACHE_CAN =
  bpv_get (prefix_vtree_init (bytes "x.y") (Some sample_tree)) [Key (bytes "x.y.a.9")] VTCACHE_CAN.
Proof.
  destruct (prefix_compose (bytes "x") (bytes "y") (bytes "x.y.a.9") sample_tree [] VTCACHE_CAN)
    as (_ & _ & H & _); [done|by vm_compute|exact H].
Defined.

Lemma bconf_vtree_path_witness :
  answers (bconf_vtree_init (Some sample) (Some overlay) VTCACHE_CANT) [bytes "a"; bytes "9"]
    (at_path (Some sample) [bytes "a.9"]).
Proof.
  destruct (bconf_vtree_path (Some sample) (Some overlay) VTCACHE_CANT [bytes "a.9"] [bytes "a"; bytes "9"]
    sample_root_ok overlay_root_ok) as [_ H]; [check_keys|check_keys|done|].
  assert (at_path (Some overlay) [bytes "a.9"] = None) as E by by vm_compute.
  by rewrite E in H.
Defined.

Lemma bconf_loop_consistent_witness :
  exists keys vals sel,
    says (bpv_fetch_keys sample_tree (Key <$> [bytes "a"])) keys /\
    says (bpv_fetch_values sample_tree ((Key <$> [bytes "a"]) ++ VTREE_LOOP :: [])) vals /\
    says (bpv_fetch_byval sample_tree (bytes "x") ((Key <$> [bytes "a"]) ++ VTREE_LOOP :: [])) sel /\
    length vals = length keys.
Proof.
  destruct (bconf_loop_consistent false (Some sample) [bytes "a"] [] (bytes "x") sample_root_ok)
    as (ks & vs & sel & H1 & H2 & H3 & _ & H4 & _);
    [check_keys|constructor|apply (bool_decide_unpack _); by vm_compute|]. by exists ks, vs, sel.
Defined.
