(* ===== verification/Settings.v ===== *)
(** Settings: the settings of an application from its configuration
    (src/vtree/lib/settings.c).

    The calls of [set_value] are returned as a list; [key_lookup] is a function.
    [None] is what it is for the vtree operations. *)
From stdpp Require Import prelude list numbers.
From Stdlib Require Import ZArith Lia.
From S2P Require Import Prelude Bconf Vtree BconfVtree.

Local Open Scope Z_scope.

(** * The list of keys and values *)

(** A call of [set_value] for a setting: the key and the value, None for NULL. *)
Definition call : Type := list Z * option (list Z).

(** What is written to [keyval] so far, and where [valstart] points. *)
Definition set_value (buf : list Z) (valstart : option nat) : list call :=
  match cstr buf with
  | [] => []
  | key => [(key, (fun i => cstr (drop i buf)) <$> valstart)]
  end.

(** The loop over [value], whose terminator is a character of its own. *)
Fixpoint settings_loop (s : list Z) (in_quote : bool) (buf : list Z) (valstart : option nat) : list call :=
  match s with
  | [] => set_value buf valstart
  | c :: s' =>
    if c =? 34 then settings_loop s' (negb in_quote) buf valstart
    else if c =? 92 then
      match s' with
      | [] => []
      | c' :: s'' => settings_loop s'' in_quote (buf ++ [c']) valstart
      end
    else if negb in_quote && (c =? 44) then set_value buf valstart ++ settings_loop s' in_quote [] None
    else if negb in_quote && (c =? 58) then settings_loop s' in_quote (buf ++ [0]) (Some (S (length buf)))
    else settings_loop s' in_quote (buf ++ [c]) valstart
  end.

Definition settings_add_values (value : option (list Z)) : list call :=
  match value with Some v => settings_loop v false [] None | None => [] end.

(** * Nodes *)

Section Nodes.
Context {X : Type} `{!VtreeBackend X} (key_lookup : list Z -> option (list Z)).

Definition key (k : String.string) : arg := Key (bytes k).

(** The loop over the keys; the result is [c] at its end. *)
Fixpoint follow_keys (c : vtree_chain X) (keys : list (option (list Z))) : option (option (vtree_chain X)) :=
  match keys with
  | [] => Some (Some c)
  | k :: keys =>
    match k ≫= key_lookup with
    | None => Some None
    | Some val =>
      n ← vtree_getnode c [Key val];
      match n with
      | Some n => follow_keys n keys
      | None =>
        n ← vtree_getnode c [Key (bytes "*")];
        match n with
        | Some n => follow_keys n keys
        | None => Some None
        end
      end
    end
  end.

(** A turn of the loop over the nodes: whether the node decides, and the values it gives. *)
Definition settings_node (c : vtree_chain X) : option (bool * list call) :=
  keyloop ← vtree_fetch_values c [key "keys"; VTREE_LOOP];
  f_continue ← vtree_getint c [key "continue"];
  match keyloop with
  | [] =>
    def ← vtree_get c [key "default"];
    match def with
    | Some (_ :: _) => Some (f_continue =? 0, settings_add_values def)
    | _ => Some (false, [])
    end
  | _ =>
    n ← follow_keys c keyloop;
    match n with
    | Some n => v ← vtree_get n [key "value"]; Some (f_continue =? 0, settings_add_values v)
    | None => Some (false, [])
    end
  end.

Fixpoint settings_nodes (nodes : list (vtree_chain X)) : option (list call) :=
  match nodes with
  | [] => Some []
  | c :: nodes =>
    '(stop, calls) ← settings_node c;
    if (stop : bool) then Some calls else rest ← settings_nodes nodes; Some (calls ++ rest)
  end.

Definition settings_add_node (vchain : vtree_chain X) : option (list call) :=
  nodes ← vtree_fetch_nodes vchain [];
  settings_nodes nodes.

(** The settings that are set, each with its calls. *)
Definition get_settings (vchain : vtree_chain X) (setting : option (list Z)) : option (list (list Z * list call)) :=
  match setting with
  | Some ((_ :: _) as s) =>
    n ← vtree_getnode vchain [Key s];
    match n with
    | Some n => calls ← settings_add_node n; Some [(s, calls)]
    | None => Some []
    end
  | _ =>
    kloop ← vtree_fetch_keys vchain [];
    vloop ← vtree_fetch_nodes vchain [];
    mapM (fun '(k, n) => calls ← settings_add_node n; Some (k, calls)) (zip kloop vloop)
  end.
End Nodes.

(** * Reading what was written *)

(** A character of a key or value: as it is, after a backslash, or in quotes. *)
Inductive style := Plain | Escaped | Quoted.

Definition special (c : Z) : bool := (c =? 34) || (c =? 92) || (c =? 44) || (c =? 58).

Definition char_text (x : style * Z) : list Z :=
  let '(st, c) := x in
  match st with
  | Plain => [c]
  | Escaped => [92; c]
  | Quoted => 34 :: (if (c =? 34) || (c =? 92) then [92; c] else [c]) ++ [34]
  end.

Definition styled_ok (x : style * Z) : Prop := snd x <> 0 /\ (fst x = Plain -> special (snd x) = false).

Definition text (l : list (style * Z)) : list Z := concat (map char_text l).

(** A key with or without a value. *)
Definition entry : Type := list (style * Z) * option (list (style * Z)).

Definition entry_text (e : entry) : list Z :=
  text (fst e) ++ match snd e with Some v => 58 :: text v | None => [] end.

Definition entry_call (e : entry) : call := (map snd (fst e), map snd <$> snd e).

Definition entry_ok (e : entry) : Prop :=
  fst e <> [] /\ Forall styled_ok (fst e) /\ match snd e with Some v => Forall styled_ok v | None => True end.

Fixpoint entries_text (l : list entry) : list Z :=
  match l with
  | [] => []
  | [e] => entry_text e
  | e :: l => entry_text e ++ 44 :: entries_text l
  end.

Lemma char_step x s buf vs : styled_ok x ->
  settings_loop (char_text x ++ s) false buf vs = settings_loop s false (buf ++ [snd x]) vs.
Proof.
  destruct x as [st c]. intros [_ Hp]. destruct st; cbn [char_text snd fst] in *.
  - specialize (Hp eq_refl). unfold special in Hp. repeat apply orb_false_elim in Hp as [Hp ?].
    cbn [app settings_loop]. destruct (c =? 34), (c =? 92), (c =? 44), (c =? 58); done.
  - done.
  - cbn [app settings_loop]. cbn. destruct (Z.eqb_spec c 34) as [->|H1]; [done|]. destruct (Z.eqb_spec c 92) as [->|H2]; [done|].
    cbn. rewrite (proj2 (Z.eqb_neq c 34)), (proj2 (Z.eqb_neq c 92)) by done. done.
Qed.

Lemma text_step l : forall s buf vs, Forall styled_ok l ->
  settings_loop (text l ++ s) false buf vs = settings_loop s false (buf ++ map snd l) vs.
Proof.
  induction l as [|x l IH]; intros s buf vs Hl; [by rewrite app_nil_r|]. apply Forall_cons in Hl as [Hx Hl].
  unfold text. cbn [map concat]. rewrite <- app_assoc, char_step by done. fold (text l). rewrite IH by done.
  by rewrite <- app_assoc.
Qed.

Lemma cstr_app_zero a b : Forall (fun c => c <> 0) a -> cstr (a ++ 0 :: b) = a.
Proof. induction 1 as [|c a Hc _ IH]; [done|]. simpl. rewrite (proj2 (Z.eqb_neq c 0)) by done. by rewrite IH. Qed.

Lemma cstr_nonzero a : Forall (fun c => c <> 0) a -> cstr a = a.
Proof. induction 1 as [|c a Hc _ IH]; [done|]. simpl. rewrite (proj2 (Z.eqb_neq c 0)) by done. by rewrite IH. Qed.

Lemma styled_nonzero l : Forall styled_ok l -> Forall (fun c => c <> 0) (map snd l).
Proof. intros H. apply Forall_fmap. eapply list.Forall_impl; [exact H|]. by intros x [? _]. Qed.

(** Reading an entry leads to the call for it at the end or at a comma. *)
Lemma entry_step e s : entry_ok e -> exists buf vs, set_value buf vs = [entry_call e] /\
  settings_loop (entry_text e ++ s) false [] None = settings_loop s false buf vs.
Proof.
  destruct e as [k v]. intros (Hne & Hk & Hv). unfold entry_text, entry_call. cbn [fst snd] in *.
  pose proof (styled_nonzero k Hk) as Hnz. assert (map snd k <> []) as Hne' by (by destruct k).
  destruct v as [v|].
  - exists ([] ++ map snd k ++ [0] ++ map snd v), (Some (S (length (map snd k)))). split.
    + unfold set_value. cbn [app]. rewrite cstr_app_zero by done. destruct (map snd k) as [|c k'] eqn:E; [done|].
      cbn. do 3 f_equal. replace (drop (S (length k')) (k' ++ 0 :: map snd v)) with (map snd v).
      * by apply cstr_nonzero, styled_nonzero.
      * clear. induction k'; [done|]. simpl. done.
    + rewrite <- app_assoc, text_step by done. cbn [app settings_loop]. cbn [Z.eqb]. cbn. rewrite text_step by done. by rewrite <- app_assoc.
  - exists (map snd k), None. rewrite app_nil_r, text_step by done. split; [|done].
    unfold set_value. rewrite cstr_nonzero by done. by destruct (map snd k).
Qed.

(** Keys and values that are written with any mix of backslashes and quotes,
    separated by commas and colons, are read back as they are. *)
Theorem settings_roundtrip l : Forall entry_ok l ->
  settings_add_values (Some (entries_text l)) = map entry_call l.
Proof.
  intros Hl. unfold settings_add_values. induction Hl as [|e l He Hl IH]; [done|].
  destruct (entry_step e (match l with [] => [] | _ => 44 :: entries_text l end) He) as (buf & vs & E1 & E2).
  destruct l as [|e' l].
  - rewrite app_nil_r in E2. cbn [entries_text map]. rewrite E2. exact E1.
  - change (entries_text (e :: e' :: l)) with (entry_text e ++ 44 :: entries_text (e' :: l)). rewrite E2.
    change (settings_loop (44 :: entries_text (e' :: l)) false buf vs) with (set_value buf vs ++ settings_loop (entries_text (e' :: l)) false [] None).
    by rewrite E1, IH.
Qed.

(** A backslash at the end loses the last key. *)
Theorem settings_trailing_backslash :
  settings_add_values (Some (bytes "a:1,b:2\")) = [(bytes "a", Some (bytes "1"))].
Proof. vm_compute. reflexivity. Qed.

(** A second colon moves the value. *)
Theorem settings_second_colon :
  settings_add_values (Some (bytes "url:http:x")) = [(bytes "url", Some (bytes "x"))].
Proof. vm_compute. reflexivity. Qed.

Lemma settings_roundtrip_witness :
  settings_add_values (Some (entries_text
    [([(Plain, 97)], Some [(Quoted, 44); (Escaped, 58)]); ([(Quoted, 34); (Plain, 98)], None)])) =
  [([97], Some [44; 58]); ([34; 98], None)].
Proof.
  apply (settings_roundtrip [([(Plain, 97)], Some [(Quoted, 44); (Escaped, 58)]); ([(Quoted, 34); (Plain, 98)], None)]).
  repeat constructor; try done.
Defined.

(** The node that the value of the key selects decides, else the star, else the default. *)
Definition features : option bconf_node :=
  root ← bconf_add_data None (bytes "feat.1.keys.1") (bytes "cat");
  root ← bconf_add_data (Some root) (bytes "feat.1.cars.value") (bytes "a:1");
  root ← bconf_add_data (Some root) (bytes "feat.1.*.value") (bytes "b");
  bconf_add_data (Some root) (bytes "feat.2.default") (bytes "c").

Lemma get_settings_example :
  let settings cat := get_settings (fun _ => cat) (bconf_vtree features) None in
  settings (Some (bytes "cars")) = Some [(bytes "feat", [(bytes "a", Some (bytes "1"))])] /\
  settings (Some (bytes "boats")) = Some [(bytes "feat", [(bytes "b", None)])] /\
  settings None = Some [(bytes "feat", [(bytes "c", None)])].
Proof. vm_compute. done. Qed.
