(* ===== verification/FdPool.v ===== *)
(** FdPool: the nodes and services of a connection pool
    (src/core/lib/fd_pool.c and fd_pool.h).

    A pool owns nodes, which are shared by the balancers that refer to them and
    counted by [nd_refs].  Nodes and balancers are objects with an identity, so
    the pool keeps them under numbers that are never reused.  The services are
    records found by name through the ordered set of Avl.v.  Name resolution
    (getaddrinfo with getnameinfo) and realpath are arguments.  The pool has no
    service discovery ([sdr] is NULL), locks are those of a single thread, and
    the statistics and log calls are left out.  [None] is a dereference of NULL or
    of something that was freed. *)
From stdpp Require Import prelude list numbers sorting gmap.
From Stdlib Require Import ZArith Lia.
From S2P Require Import Prelude Rcycle Avl Sbalance Vtree.

Local Open Scope Z_scope.
#[local] Set Warnings "-register-all".

Definition FD_POOL_DEFAULT_TIMEOUT : Z := 5000.
Definition FD_POOL_DEFAULT_FAIL : Z := 100.
Definition FD_POOL_DEFAULT_TEMPFAIL : Z := 0.

Definition EFDP_EMPTY_CONFIG : Z := -1.
Definition EFDP_EAI_NONAME : Z := -3.
Definition EFDP_EAI_OTHER : Z := -4.
Definition EFDP_NO_SUCH_SERVICE : Z := -5.
Definition EFDP_SYSTEM : Z := -100.

(** * Data *)

(** A port with the descriptors of its idle connections; [last_ptr] is the one
    that was put back last. *)
Record fd_pool_port := mk_port {
  port_key : list Z;
  sockaddr : list Z;
  peer : list Z;
  entries : list Z;
  last_ptr : option Z
}.

Record fd_pool_node := mk_fd_node {
  nd_socktype : Z;
  nd_ports : list fd_pool_port;
  nd_cost : Z;
  nd_refs : Z
}.

Record fd_pool_service_node := mk_sn { sn_key : option (list Z); sn_node : nat }.

Record addrinfo_hints := mk_hints { ai_flags : Z; ai_family : Z; ai_socktype : Z }.

Definition SOCK_STREAM : Z := 1.
Definition SOCK_DGRAM : Z := 2.
Definition AI_ADDRCONFIG : Z := 32.
Definition AF_UNIX : Z := 1.
Definition default_hints : addrinfo_hints := mk_hints AI_ADDRCONFIG 0 SOCK_STREAM.

Record fd_pool_service := mk_srv {
  srv_sb : nat;
  srv_sb_gen : Z;
  srv_cycle_last : bool;
  srv_hints : addrinfo_hints;
  srv_timeoutms : Z
}.

(** [closed] records the descriptors that were closed. *)
Record fd_pool (T : Type) := mk_pool {
  all_nodes : list (nat * fd_pool_node);
  fresh : nat;
  sbs : gmap nat (sbalance fd_pool_service_node);
  services : T;
  srvs : gmap (list Z) fd_pool_service;
  closed : list Z
}.
Arguments mk_pool {T}.
Arguments all_nodes {T}.
Arguments fresh {T}.
Arguments sbs {T}.
Arguments services {T}.
Arguments srvs {T}.
Arguments closed {T}.

(** A result of getaddrinfo: the address, and its host and service as getnameinfo
    prints them if it can. *)
Record addrinfo := mk_addrinfo { ai_addr : list Z; ai_name : option (list Z * list Z) }.
Inductive gai_error := EAI_NONAME | EAI_SYSTEM | EAI_OTHER.

Section Code.
Context {T : Type} `{!OrderedSet lexcmp T} {X : Type} `{!VtreeBackend X}.
Context (getaddrinfo : list Z -> list Z -> addrinfo_hints -> gai_error + list addrinfo).
Context (realpath : list Z -> option (list Z)).
Implicit Types (pool : fd_pool T) (sb : sbalance fd_pool_service_node).

Definition set_nodes pool (ns : list (nat * fd_pool_node)) : fd_pool T :=
  mk_pool ns (fresh pool) (sbs pool) (services pool) (srvs pool) (closed pool).
Definition set_sbs pool (m : gmap nat (sbalance fd_pool_service_node)) : fd_pool T :=
  mk_pool (all_nodes pool) (fresh pool) m (services pool) (srvs pool) (closed pool).
Definition set_srvs pool (m : gmap (list Z) fd_pool_service) : fd_pool T :=
  mk_pool (all_nodes pool) (fresh pool) (sbs pool) (services pool) m (closed pool).

(** Reading the configuration through the variadic accessors. *)
Definition vtree_getint (vtree : option (vtree_chain X)) (k : list Z) : option Z :=
  '(r, _, _) ← vtree_getint_cache vtree None None (va_args [Key k]); Some r.
Definition vtree_get (vtree : option (vtree_chain X)) (k : list Z) : option (option (list Z)) :=
  '(r, _, _) ← vtree_get_cache vtree None None (va_args [Key k]); Some r.
Definition vtree_haskey (vtree : option (vtree_chain X)) (k : list Z) : option Z :=
  '(r, _, _) ← vtree_haskey_cache vtree None None (va_args [Key k]); Some r.
Definition vtree_fetch_keys_and_values (vtree : option (vtree_chain X)) (argv : list arg) :
    option (vtree_keyvals (vtree_chain X)) :=
  '(r, _) ← vtree_fetch_keys_and_values_cache vtree no_keyvals None (va_args argv); Some r.

(** [a ?: b] *)
Definition or_else (a b : Z) : Z := if a =? 0 then b else a.

(** * Nodes *)

Definition same_port (pa pb : fd_pool_port) : bool :=
  bool_decide (port_key pa = port_key pb) && bool_decide (sockaddr pa = sockaddr pb).

Definition node_matches (socktype : Z) (ports : list fd_pool_port) (n : fd_pool_node) : bool :=
  (socktype =? nd_socktype n) && forallb (fun pa => existsb (same_port pa) (nd_ports n)) ports.

Definition set_node_refs (n : fd_pool_node) (r : Z) : fd_pool_node :=
  mk_fd_node (nd_socktype n) (nd_ports n) (nd_cost n) r.

(** The first node that has all the ports, with a reference more; [Some None] is
    the NULL return, and [None] an overflow of the count. *)
Definition fd_pool_fetch_node pool (socktype : Z) (ports : list fd_pool_port) :
    option (option (nat * fd_pool_node * fd_pool T)) :=
  match list_find (fun x => node_matches socktype ports (snd x) = true) (all_nodes pool) with
  | None => Some None
  | Some (i, (id, n)) =>
    if nd_refs n <? 2 ^ 31 - 1 then
      let n := set_node_refs n (nd_refs n + 1) in
      Some (Some (id, n, set_nodes pool (<[i := (id, n)]> (all_nodes pool))))
    else None
  end.

Definition fd_pool_node_new pool (socktype cost : Z) (ports : list fd_pool_port) :
    nat * fd_pool_node * fd_pool T :=
  let ports := map (fun p => mk_port (port_key p) (sockaddr p) (peer p) [] (last_ptr p)) ports in
  let n := mk_fd_node socktype ports cost 1 in
  (fresh pool, n,
   mk_pool (all_nodes pool ++ [(fresh pool, n)]) (S (fresh pool)) (sbs pool) (services pool) (srvs pool)
     (closed pool)).

Definition fd_pool_add_node pool sb (key : option (list Z)) (vtree : option (vtree_chain X))
    (socktype : Z) (ports : list fd_pool_port) :
    option (fd_pool T * sbalance fd_pool_service_node) :=
  match ports with
  | [] => Some (pool, sb)
  | _ =>
    found ← fd_pool_fetch_node pool socktype ports;
    '(id, node, pool) ←
      (match found with
       | Some r => Some r
       | None =>
         c ← vtree_getint vtree (bytes "cost");
         Some (fd_pool_node_new pool socktype (or_else c 1) ports)
       end);
    Some (pool, sbalance_add_serv sb (nd_cost node) (mk_sn key id))
  end.

(** The peer up to a space, its address. *)
Fixpoint peer_addr (s : list Z) : list Z :=
  match s with
  | [] => []
  | c :: s => if c =? 32 then [] else c :: peer_addr s
  end.

Definition ports_cmp (a b : fd_pool_port) : Z :=
  let sza := length (peer_addr (peer a)) in
  let szb := length (peer_addr (peer b)) in
  if (sza <? szb)%nat then -1 else if (szb <? sza)%nat then 1
  else lexcmp (peer_addr (peer a)) (peer_addr (peer b)).

Definition ports_le (a b : fd_pool_port) : Prop := ports_cmp a b <= 0.
#[export] Instance ports_le_dec a b : Decision (ports_le a b) := Z_le_dec _ _.

(** The loop of [fd_pool_add]: [cur] is the run of ports from [start] on. *)
Fixpoint add_loop pool sb (key : option (list Z)) (vtree : option (vtree_chain X)) (socktype : Z)
    (cur rest : list fd_pool_port) : option (fd_pool T * sbalance fd_pool_service_node) :=
  match cur, rest with
  | s :: _, p :: rest =>
    if ports_cmp s p =? 0 then add_loop pool sb key vtree socktype (cur ++ [p]) rest
    else '(pool, sb) ← fd_pool_add_node pool sb key vtree socktype cur;
         add_loop pool sb key vtree socktype [p] rest
  | _, _ => fd_pool_add_node pool sb key vtree socktype cur
  end.

Definition fd_pool_add pool sb (key : option (list Z)) (vtree : option (vtree_chain X)) (socktype : Z)
    (ports : list fd_pool_port) : option (fd_pool T * sbalance fd_pool_service_node) :=
  match merge_sort ports_le ports with
  | [] => Some (pool, sb)
  | p :: ports => add_loop pool sb key vtree socktype [p] ports
  end.

(** [strlcpy] to an array of [n] bytes. *)
Definition strlcpy (n : nat) (s : list Z) : list Z := take (n - 1) s.

Definition fd_ports_add_addrinfo (ports : list fd_pool_port) (res : list addrinfo) (key : list Z) :
    list fd_pool_port :=
  ports ++ map (fun ai =>
    let p := match ai_name ai with Some (h, s) => take 255 (h ++ 32 :: s) | None => [] end in
    mk_port (strlcpy 32 key) (ai_addr ai) p [] None) res.

Definition fd_ports_add_unix (ports : list fd_pool_port) (path key : list Z) : list fd_pool_port :=
  let sun_path := strlcpy 108 path in
  let addr := AF_UNIX :: 0 :: sun_path ++ replicate (108 - length sun_path) 0 in
  ports ++ [mk_port (strlcpy 32 key) addr (strlcpy 256 (default path (realpath path))) [] None].

(** Drop a reference; the last one closes the idle descriptors. *)
Definition fd_pool_free_node pool (sn : fd_pool_service_node) : option (fd_pool T) :=
  '(i, (id, n)) ← list_find (fun x => fst x = sn_node sn) (all_nodes pool);
  let refs := nd_refs n - 1 in
  if 0 <? refs then Some (set_nodes pool (<[i := (id, set_node_refs n refs)]> (all_nodes pool)))
  else Some (mk_pool (delete i (all_nodes pool)) (fresh pool) (sbs pool) (services pool) (srvs pool)
               (closed pool ++ concat (map entries (nd_ports n)))).

Fixpoint free_nodes pool (sns : list fd_pool_service_node) : option (fd_pool T) :=
  match sns with
  | [] => Some pool
  | sn :: sns => pool ← fd_pool_free_node pool sn; free_nodes pool sns
  end.

(** [sbalance_release] with [fd_pool_free_node] on the balancer [id]. *)
Definition release_sb pool (id : nat) : option (fd_pool T) :=
  sb ← sbs pool !! id;
  match sbalance_release sb with
  | inl sb => Some (set_sbs pool (<[id := sb]> (sbs pool)))
  | inr sns => free_nodes (set_sbs pool (delete id (sbs pool))) sns
  end.

(** * Reading hosts from the configuration *)

(** The key ends in "port": the last four bytes are compared. *)
Definition ends_with_port (k : list Z) : bool :=
  (4 <=? length k)%nat && bool_decide (drop (length k - 4) k = bytes "port").

(** The ports of a host from its keys and values, and the last error. *)
Fixpoint host_ports (hints : addrinfo_hints) (host : option (list Z))
    (l : list (vtree_keyvals_elem (vtree_chain X))) (ports : list fd_pool_port) (err : Z) :
    option (list fd_pool_port * Z) :=
  match l with
  | [] => Some (ports, err)
  | e :: l =>
    match kv_val e with
    | vkvValue v =>
      k ← kv_key e;
      match host with
      | Some host =>
        if ends_with_port k then
          match getaddrinfo host v hints with
          | inl eai =>
            host_ports hints (Some host) l ports
              match eai with
              | EAI_NONAME => EFDP_EAI_NONAME | EAI_SYSTEM => EFDP_SYSTEM | EAI_OTHER => EFDP_EAI_OTHER
              end
          | inr res => host_ports hints (Some host) l (fd_ports_add_addrinfo ports res k) err
          end
        else if bool_decide (k = bytes "path")
        then host_ports hints (Some host) l (fd_ports_add_unix ports v (bytes "port")) err
        else host_ports hints (Some host) l ports err
      | None =>
        if bool_decide (k = bytes "path")
        then host_ports hints None l (fd_ports_add_unix ports v (bytes "port")) err
        else host_ports hints None l ports err
      end
    | _ => host_ports hints host l ports err
    end
  end.

(** One host of the loop. *)
Definition add_host pool (hints : addrinfo_hints) sb (err : Z) (e : vtree_keyvals_elem (vtree_chain X)) :
    option (Z * fd_pool T * sbalance fd_pool_service_node) :=
  match kv_val e with
  | vkvNode node =>
    disabled ← vtree_getint (Some node) (bytes "disabled");
    if disabled =? 0 then
      host ← vtree_get (Some node) (bytes "name");
      nloop ← vtree_fetch_keys_and_values (Some node) [VTREE_LOOP];
      '(ports, err) ← host_ports hints host (kv_list nloop) [] err;
      '(pool, sb) ← fd_pool_add pool sb (kv_key e) (Some node) (ai_socktype hints) ports;
      Some (err, pool, sb)
    else Some (err, pool, sb)
  | _ => Some (err, pool, sb)
  end.

(** The loop over the hosts from the configured start; [cnt] counts down. *)
Fixpoint populate_loop (cnt : nat) pool (hints : addrinfo_hints) sb (err start : Z)
    (l : list (vtree_keyvals_elem (vtree_chain X))) :
    option (Z * fd_pool T * sbalance fd_pool_service_node) :=
  match cnt with
  | O => Some (err, pool, sb)
  | S cnt' =>
    let i := Z.rem (i32 (Z.of_nat (length l - cnt) + start)) (Z.of_nat (length l)) in
    if i <? 0 then None else
    e ← l !! Z.to_nat i;
    '(err, pool, sb) ← add_host pool hints sb err e;
    populate_loop cnt' pool hints sb err start l
  end.

Definition fd_pool_populate_from_vtree pool (hints : addrinfo_hints) sb (vtree : option (vtree_chain X)) :
    option (Z * fd_pool T * sbalance fd_pool_service_node) :=
  start ← vtree_getint vtree (bytes "start");
  let start := if start =? 0 then start else i32 (start - 1) in
  loop ← vtree_fetch_keys_and_values vtree [Key (bytes "host"); VTREE_LOOP];
  populate_loop (length (kv_list loop)) pool hints sb EFDP_EMPTY_CONFIG start (kv_list loop).

Definition fd_pool_get_strat (vtree : option (vtree_chain X)) : option sbalance_strat :=
  strat ← vtree_get vtree (bytes "strat");
  match strat with
  | Some (c :: s) =>
    Some (if decide (c :: s = bytes "hash") then ST_HASH
          else if decide (c :: s = bytes "random") then ST_RANDOM else ST_SEQ)
  | _ =>
    h ← vtree_getint vtree (bytes "client_hash");
    if negb (h =? 0) then Some ST_HASH else
    r ← vtree_getint vtree (bytes "random_pick");
    Some (if negb (r =? 0) then ST_RANDOM else ST_SEQ)
  end.

(** * Services *)

Definition fd_pool_find_service pool (service : list Z) : option fd_pool_service :=
  name ← os_lookup service (services pool); srvs pool !! name.

Definition fd_pool_new : fd_pool T := mk_pool [] 0 ∅ os_empty ∅ [].

(** The service is then found by its name. *)
Definition fd_pool_get_service pool (service : list Z) (retries failcost tempfailcost : Z)
    (st : sbalance_strat) (timeoutms : Z) (hints : option addrinfo_hints) :
    option (fd_pool_service * fd_pool T) :=
  match fd_pool_find_service pool service with
  | Some srv => Some (srv, pool)
  | None =>
    let timeoutms := if negb (timeoutms =? 0) && (timeoutms <? 1000) then 0 else timeoutms in
    let srv := mk_srv (fresh pool) 1 false (default default_hints hints)
                 (or_else timeoutms FD_POOL_DEFAULT_TIMEOUT) in
    ss ← os_insert service (services pool);
    Some (srv, mk_pool (all_nodes pool) (S (fresh pool))
                 (<[fresh pool := sbalance_create retries failcost tempfailcost st]> (sbs pool))
                 ss (<[service := srv]> (srvs pool)) (closed pool))
  end.

(** Run [f] on the balancer of a service and store it again. *)
Definition with_sb {R} pool (srv : fd_pool_service)
    (f : sbalance fd_pool_service_node -> option (R * fd_pool T * sbalance fd_pool_service_node)) :
    option (R * fd_pool T) :=
  sb ← sbs pool !! srv_sb srv;
  '(r, pool, sb) ← f sb;
  Some (r, set_sbs pool (<[srv_sb srv := sb]> (sbs pool))).

Definition nserv pool (srv : fd_pool_service) : option Z := sb ← sbs pool !! srv_sb srv; Some (sb_nserv sb).

(** The arguments of [fd_pool_get_service] from the configuration. *)
Definition config_service pool (service : list Z) (vtree : option (vtree_chain X))
    (hints : option addrinfo_hints) : option (fd_pool_service * fd_pool T) :=
  st ← fd_pool_get_strat vtree;
  retries ← vtree_getint vtree (bytes "retries");
  let retries := if negb (bool_decide (st = ST_SEQ)) && (retries <=? 0) then 1 else retries in
  fail ← vtree_getint vtree (bytes "failcost");
  tempfail ← vtree_getint vtree (bytes "tempfailcost");
  ct ← vtree_getint vtree (bytes "connect_timeout");
  t ← (if ct =? 0 then vtree_getint vtree (bytes "timeout") else Some ct);
  fd_pool_get_service pool service retries (or_else fail FD_POOL_DEFAULT_FAIL)
    (or_else tempfail FD_POOL_DEFAULT_TEMPFAIL) st t hints.

(** No nodes, and no service discovery in the configuration. *)
Definition is_empty pool (srv : fd_pool_service) (vtree : option (vtree_chain X)) : option bool :=
  n ← nserv pool srv;
  if n =? 0 then sd ← vtree_haskey vtree (bytes "sd"); Some (sd =? 0) else Some false.

Definition fd_pool_create (service : list Z) (vtree : option (vtree_chain X))
    (hints : option addrinfo_hints) : option (option (fd_pool T)) :=
  if has_fun vtree then
    '(srv, pool) ← config_service fd_pool_new service vtree hints;
    '(_, pool) ← with_sb pool srv (fun sb => fd_pool_populate_from_vtree pool (srv_hints srv) sb vtree);
    empty ← is_empty pool srv vtree;
    if (empty : bool) then _ ← release_sb pool (srv_sb srv); Some None else Some (Some pool)
  else Some None.

(** [derived] is the name made from the hosts when the configuration has none. *)
Definition fd_pool_add_config pool (derived : list Z) (vtree : option (vtree_chain X))
    (hints : option addrinfo_hints) : option (Z * fd_pool T * option (list Z)) :=
  if has_fun vtree then
    name ← vtree_get vtree (bytes "service");
    let service := default derived name in
    '(srv, pool) ← config_service pool service vtree hints;
    n ← nserv pool srv;
    if negb (n =? 0) then Some (0, pool, Some service) else
    '(err, pool) ← with_sb pool srv (fun sb => fd_pool_populate_from_vtree pool (srv_hints srv) sb vtree);
    empty ← is_empty pool srv vtree;
    if (empty : bool) then Some (err, pool, None) else Some (0, pool, Some service)
  else Some (EFDP_EMPTY_CONFIG, pool, None).

Definition gai_err (eai : gai_error) : Z :=
  match eai with
  | EAI_NONAME => EFDP_EAI_NONAME | EAI_SYSTEM => EFDP_SYSTEM | EAI_OTHER => EFDP_EAI_OTHER
  end.

(** Add the ports of one host to a service. *)
Definition add_ports pool (srv : fd_pool_service) (socktype : Z) (ports : list fd_pool_port) :
    option (fd_pool T) :=
  snd <$> with_sb pool srv (fun sb =>
    '(pool, sb) ← fd_pool_add pool sb None None socktype ports; Some ((), pool, sb)).

Definition fd_pool_create_single (service host port : list Z) (retries timeoutms : Z)
    (hints : option addrinfo_hints) : option (option (fd_pool T)) :=
  let hints := default default_hints hints in
  match getaddrinfo host port hints with
  | inl _ => Some None
  | inr res =>
    '(srv, pool) ← fd_pool_get_service fd_pool_new service retries FD_POOL_DEFAULT_FAIL
                     FD_POOL_DEFAULT_TEMPFAIL ST_SEQ timeoutms (Some hints);
    pool ← add_ports pool srv (ai_socktype (srv_hints srv)) (fd_ports_add_addrinfo [] res (bytes "port"));
    n ← nserv pool srv;
    if n =? 0 then _ ← release_sb pool (srv_sb srv); Some None else Some (Some pool)
  end.

Definition fd_pool_add_single pool (service host port : list Z) (retries timeoutms : Z)
    (hints : option addrinfo_hints) : option (Z * fd_pool T) :=
  let hints := default default_hints hints in
  match getaddrinfo host port hints with
  | inl eai => Some (gai_err eai, pool)
  | inr res =>
    '(srv, pool) ← fd_pool_get_service pool service retries FD_POOL_DEFAULT_FAIL
                     FD_POOL_DEFAULT_TEMPFAIL ST_RANDOM timeoutms (Some hints);
    pool ← add_ports pool srv (ai_socktype (srv_hints srv)) (fd_ports_add_addrinfo [] res (bytes "port"));
    n ← nserv pool srv;
    Some (if n =? 0 then EFDP_EMPTY_CONFIG else 0, pool)
  end.

Definition fd_pool_create_unix (service path : list Z) (retries timeoutms socktype : Z) :
    option (fd_pool T) :=
  '(srv, pool) ← fd_pool_get_service fd_pool_new service retries FD_POOL_DEFAULT_FAIL
                   FD_POOL_DEFAULT_TEMPFAIL ST_SEQ timeoutms (Some (mk_hints AI_ADDRCONFIG 0 socktype));
  add_ports pool srv socktype (fd_ports_add_unix [] path (bytes "port")).

Definition fd_pool_add_unix pool (service path : list Z) (retries timeoutms socktype : Z) :
    option (Z * fd_pool T) :=
  '(srv, pool) ← fd_pool_get_service pool service retries FD_POOL_DEFAULT_FAIL
                   FD_POOL_DEFAULT_TEMPFAIL ST_RANDOM timeoutms (Some (mk_hints AI_ADDRCONFIG 0 socktype));
  pool ← add_ports pool srv socktype (fd_ports_add_unix [] path (bytes "port"));
  Some (0, pool).

(** The new balancer replaces the old one if it has nodes; the other one is
    released. *)
Definition fd_pool_update_hosts pool (service : list Z) (vtree : option (vtree_chain X)) :
    option (Z * fd_pool T) :=
  match vtree with
  | None => Some (EFDP_EMPTY_CONFIG, pool)
  | Some _ =>
    match fd_pool_find_service pool service with
    | None => Some (EFDP_NO_SUCH_SERVICE, pool)
    | Some srv =>
      src ← sbs pool !! srv_sb srv;
      let id := fresh pool in
      let pool := mk_pool (all_nodes pool) (S (fresh pool)) (sbs pool) (services pool) (srvs pool)
                    (closed pool) in
      let sb := sbalance_create (sb_retries src) (sb_failcost src) (sb_softfailcost src) (sb_strat src) in
      '(n, pool, sb) ← fd_pool_populate_from_vtree pool (srv_hints srv) sb vtree;
      let pool := set_sbs pool (<[id := sb]> (sbs pool)) in
      if sb_nserv sb =? 0 then pool ← release_sb pool id; Some (n, pool) else
      let srv' := mk_srv id (u64 (srv_sb_gen srv + 1)) (srv_cycle_last srv) (srv_hints srv) (srv_timeoutms srv) in
      name ← os_lookup service (services pool);
      pool ← release_sb (set_srvs pool (<[name := srv']> (srvs pool))) (srv_sb srv);
      Some (sb_nserv sb, pool)
    end
  end.

(** The services in the order of the list that [fd_pool_free] builds. *)
Fixpoint release_services pool (names : list (list Z)) : option (fd_pool T) :=
  match names with
  | [] => Some pool
  | name :: names =>
    srv ← srvs pool !! name;
    pool ← release_sb pool (srv_sb srv);
    release_services pool names
  end.

(** The assertion that all nodes are gone fails as [None]. *)
Definition fd_pool_free pool : option (list Z) :=
  names ← os_walk (services pool);
  pool ← release_services pool (reverse names);
  match all_nodes pool with [] => Some (closed pool) | _ => None end.

Definition fd_pool_set_cycle_last pool (service : list Z) (cl : bool) : fd_pool T :=
  match os_lookup service (services pool) with
  | Some name =>
    match srvs pool !! name with
    | Some srv =>
      set_srvs pool (<[name := mk_srv (srv_sb srv) (srv_sb_gen srv) cl (srv_hints srv) (srv_timeoutms srv)]>
                       (srvs pool))
    | None => pool
    end
  | None => pool
  end.
End Code.

(** * Reference counts *)

(** How often a number occurs. *)
Definition cnt (x : nat) (l : list nat) : nat := length (filter (fun y => y = x) l).

Lemma cnt_cons x y l : cnt x (y :: l) = ((if decide (y = x) then 1 else 0) + cnt x l)%nat.
Proof. unfold cnt. rewrite filter_cons. by case_decide. Qed.

Lemma cnt_app x l k : cnt x (l ++ k) = (cnt x l + cnt x k)%nat.
Proof. unfold cnt. by rewrite filter_app, length_app. Qed.

#[export] Instance cnt_perm x : Proper ((≡ₚ) ==> (=)) (cnt x).
Proof. intros l k Hlk. unfold cnt. by rewrite Hlk. Qed.

Lemma cnt_pos x l : (0 < cnt x l)%nat <-> x ∈ l.
Proof.
  unfold cnt. split.
  - destruct (filter _ l) as [|y k] eqn:E; simpl; [lia|]. intros _.
    assert (y ∈ filter (fun y => y = x) l) as [-> ?]%list_elem_of_filter by (rewrite E; left). done.
  - intros Hx. assert (x ∈ filter (fun y => y = x) l) as Hin by by apply list_elem_of_filter.
    destruct (filter _ l); [by apply elem_of_nil in Hin|simpl; lia].
Qed.

Lemma cnt_length x l : (cnt x l <= length l)%nat.
Proof. unfold cnt. apply length_filter. Qed.

(** The nodes of a pool are exactly those that are referred to, each counted as
    often as it is. *)
Record nodes_ok (refs : list nat) (nodes : list (nat * fd_pool_node)) (fr : nat) : Prop := {
  no_distinct : NoDup (fst <$> nodes);
  no_fresh id : id ∈ fst <$> nodes -> (id < fr)%nat;
  no_refs id n : (id, n) ∈ nodes -> nd_refs n = Z.of_nat (cnt id refs);
  no_live id : id ∈ refs -> id ∈ fst <$> nodes;
  no_used id : id ∈ fst <$> nodes -> id ∈ refs
}.

Lemma nodes_ok_perm refs refs' nodes fr : refs ≡ₚ refs' -> nodes_ok refs nodes fr -> nodes_ok refs' nodes fr.
Proof.
  intros Hp [? ? Hr Hl Hu]. split; [done|done| | |].
  - intros id n Hin. by rewrite (Hr id n), Hp.
  - intros id. rewrite <- Hp. auto.
  - intros id. rewrite <- Hp. auto.
Qed.

Lemma nodes_ok_fresh refs nodes fr fr' : (fr <= fr')%nat -> nodes_ok refs nodes fr -> nodes_ok refs nodes fr'.
Proof. intros Hle [? Hf ? ? ?]. split; auto. intros id Hid. specialize (Hf id Hid). lia. Qed.

Lemma nodes_ok_empty fr : nodes_ok [] [] fr.
Proof. split; [constructor|..]; intros *; try by intros ?%elem_of_nil. Qed.

Lemma nodes_ok_nil nodes fr : nodes_ok [] nodes fr -> nodes = [].
Proof.
  intros Hok. destruct nodes as [|[id n] nodes]; [done|].
  assert (id ∈ @nil nat) as []%elem_of_nil by (apply (no_used _ _ _ Hok); left).
Qed.

(** Changing the node at an index, and its references by as much. *)
Lemma nodes_ok_update refs refs' nodes fr i id n n' :
  nodes_ok refs nodes fr -> nodes !! i = Some (id, n) ->
  nd_refs n' = Z.of_nat (cnt id refs') -> (0 < cnt id refs')%nat ->
  (forall id', id' <> id -> cnt id' refs' = cnt id' refs) ->
  nodes_ok refs' (<[i := (id, n')]> nodes) fr.
Proof.
  intros [Hd Hf Hr Hl Hu] Hi Hn' Hpos Hother.
  assert (fst <$> <[i := (id, n')]> nodes = fst <$> nodes) as Hids.
  { rewrite list_fmap_insert. apply list_insert_id. by rewrite list_lookup_fmap, Hi. }
  assert (forall id', id' ∈ refs' <-> id' ∈ refs) as Hrefs.
  { intros id'. rewrite <- !cnt_pos. destruct (decide (id' = id)) as [->|Hne]; [|by rewrite Hother].
    split; [|done]. intros _. apply cnt_pos, Hu, list_elem_of_fmap. exists (id, n).
    split; [done|by eapply list_elem_of_lookup_2]. }
  split; rewrite ?Hids; auto.
  - intros id' m [j Hj]%list_elem_of_lookup. destruct (decide (j = i)) as [->|Hne].
    + rewrite list_lookup_insert_eq in Hj by (by eapply lookup_lt_Some). simplify_eq. done.
    + rewrite list_lookup_insert_ne in Hj by done.
      rewrite Hother; [eapply Hr, list_elem_of_lookup_2, Hj|]. intros ->. apply Hne.
      apply (NoDup_lookup (fst <$> nodes) j i id Hd); rewrite list_lookup_fmap; [by rewrite Hj|by rewrite Hi].
  - intros id'. rewrite Hrefs. auto.
  - intros id' Hid. rewrite Hrefs. auto.
Qed.

Lemma nodes_ok_nodes_perm refs nodes nodes' fr : nodes ≡ₚ nodes' -> nodes_ok refs nodes fr -> nodes_ok refs nodes' fr.
Proof. intros Hp [? ? ? ? ?]. split; by setoid_rewrite <- Hp. Qed.

Lemma nodes_ok_find refs nodes fr id :
  nodes_ok refs nodes fr -> id ∈ refs ->
  exists i n, list_find (fun x => fst x = id) nodes = Some (i, (id, n)) /\ nodes !! i = Some (id, n).
Proof.
  intros Hok ([id' n] & -> & Hin)%(no_live _ _ _ Hok)%list_elem_of_fmap.
  destruct (list_find_elem_of (fun x => fst x = id') nodes (id', n) Hin eq_refl) as [[i [id m]] E].
  exists i, m. pose proof E as (Hi & Hid & _)%list_find_Some. simpl in *. by subst.
Qed.

Lemma nodes_ok_delete refs nodes fr i id n :
  nodes_ok (id :: refs) nodes fr -> nodes !! i = Some (id, n) -> id ∉ refs ->
  nodes_ok refs (delete i nodes) fr.
Proof.
  intros Hok Hi Hnot. apply (nodes_ok_nodes_perm _ _ _ _ (delete_Permutation _ _ _ Hi)) in Hok.
  destruct Hok as [Hd Hf Hr Hl Hu]. rewrite fmap_cons in Hd, Hf, Hl, Hu.
  apply NoDup_cons in Hd as [Hni Hd]. split; auto.
  - intros id' Hid. apply Hf. by right.
  - intros id' m Hin. rewrite (Hr id' m) by by right. rewrite cnt_cons, decide_False; [done|].
    intros ->. apply Hni, list_elem_of_fmap. by exists (id', m).
  - intros id' Hid. specialize (Hl id'). apply elem_of_cons in Hl as [->|]; [done|done|by right].
  - intros id' Hid. specialize (Hu id'). apply elem_of_cons in Hu as [->|]; [done|done|by right].
Qed.

Lemma nodes_ok_insert refs nodes fr n :
  nodes_ok refs nodes fr -> nd_refs n = 1 -> nodes_ok (fr :: refs) (nodes ++ [(fr, n)]) (S fr).
Proof.
  intros [Hd Hf Hr Hl Hu] Hn.
  assert (fr ∉ fst <$> nodes) as Hfr by (intros H%Hf; lia).
  apply (nodes_ok_nodes_perm _ ((fr, n) :: nodes)); [by rewrite Permutation_app_comm|]. split; rewrite ?fmap_cons.
  - by constructor.
  - intros id [->|Hid]%elem_of_cons; [simpl; lia|]. specialize (Hf id Hid). lia.
  - intros id m. rewrite cnt_cons. intros [[= -> ->]|Hin]%elem_of_cons.
    + rewrite decide_True by done. destruct (decide (fr ∈ refs)) as [Hin|Hnin]; [by apply Hl in Hin|].
      rewrite <- cnt_pos in Hnin. lia.
    + rewrite (Hr id m), decide_False; [done| |done].
      intros ->. apply Hfr, list_elem_of_fmap. by exists (id, m).
  - intros id [->|Hid]%elem_of_cons; [left|right; auto].
  - intros id [->|Hid]%elem_of_cons; [left|right; auto].
Qed.

Section Refs.
Context {T : Type} `{!OrderedSet lexcmp T} {X : Type} `{!VtreeBackend X}.
Implicit Types (pool : fd_pool T) (sb : sbalance fd_pool_service_node).

(** The nodes that a balancer refers to. *)
Definition sb_nodes sb : list nat := (fun s => sn_node (data s)) <$> sb_service_ sb.

(** ** Releasing *)

(** Only nodes and closed descriptors change. *)
Record same_objects pool pool' : Prop := {
  so_fresh : fresh pool' = fresh pool;
  so_sbs : sbs pool' = sbs pool;
  so_services : services pool' = services pool;
  so_srvs : srvs pool' = srvs pool
}.

Lemma free_node_ok pool sn refs :
  nodes_ok (sn_node sn :: refs) (all_nodes pool) (fresh pool) ->
  exists pool', fd_pool_free_node pool sn = Some pool' /\
    nodes_ok refs (all_nodes pool') (fresh pool') /\ same_objects pool pool'.
Proof.
  intros Hok. destruct (nodes_ok_find _ _ _ (sn_node sn) Hok) as (i & n & E & Hi); [left|].
  unfold fd_pool_free_node. rewrite E. cbn [mbind option_bind].
  assert (nd_refs n = Z.of_nat (S (cnt (sn_node sn) refs))) as Hn.
  { rewrite (no_refs _ _ _ Hok (sn_node sn) n) by (by eapply list_elem_of_lookup_2).
    by rewrite cnt_cons, decide_True. }
  destruct (Z.ltb_spec 0 (nd_refs n - 1)); eexists; (split; [done|]); (split; [|done]).
  - eapply nodes_ok_update; [exact Hok|exact Hi|simpl; lia|lia|].
    intros id' Hne. rewrite cnt_cons, decide_False by done. done.
  - eapply nodes_ok_delete; [done|exact Hi|]. rewrite <- cnt_pos. lia.
Qed.

Lemma same_objects_trans p1 p2 p3 : same_objects p1 p2 -> same_objects p2 p3 -> same_objects p1 p3.
Proof. intros [? ? ? ?] [? ? ? ?]. split; congruence. Qed.

Lemma free_nodes_ok pool sns refs :
  nodes_ok ((sn_node <$> sns) ++ refs) (all_nodes pool) (fresh pool) ->
  exists pool', free_nodes pool sns = Some pool' /\
    nodes_ok refs (all_nodes pool') (fresh pool') /\ same_objects pool pool'.
Proof.
  revert pool. induction sns as [|sn sns IH]; intros pool Hok.
  - exists pool. done.
  - destruct (free_node_ok pool sn _ Hok) as (p1 & E1 & Hok1 & Hs1).
    destruct (IH p1 Hok1) as (p2 & E2 & Hok2 & Hs2). exists p2. cbn [free_nodes]. rewrite E1. cbn.
    split; [done|]. split; [done|]. by eapply same_objects_trans.
Qed.

(** The references of all the balancers. *)
Definition refs_of (m : gmap nat (sbalance fd_pool_service_node)) : list nat :=
  concat (sb_nodes ∘ snd <$> map_to_list m).

Lemma refs_of_insert m id sb :
  refs_of (<[id := sb]> m) ≡ₚ sb_nodes sb ++ refs_of (delete id m).
Proof.
  unfold refs_of. rewrite <- insert_delete_eq. rewrite map_to_list_insert by apply lookup_delete_eq. done.
Qed.

Lemma refs_of_lookup m id sb :
  m !! id = Some sb -> refs_of m ≡ₚ sb_nodes sb ++ refs_of (delete id m).
Proof. intros Hid. by rewrite <- refs_of_insert, insert_id. Qed.

(** The balancers of a pool with their owners, one entry per reference. *)
Record heap_ok (owners : list nat) pool : Prop := {
  hp_nodes : nodes_ok (refs_of (sbs pool)) (all_nodes pool) (fresh pool);
  hp_fresh id : is_Some (sbs pool !! id) -> (id < fresh pool)%nat;
  hp_refs id sb : sbs pool !! id = Some sb -> sb_refs sb = Z.of_nat (cnt id owners);
  hp_live id : id ∈ owners <-> is_Some (sbs pool !! id)
}.

Lemma heap_ok_perm o o' pool : o ≡ₚ o' -> heap_ok o pool -> heap_ok o' pool.
Proof.
  intros Hp [? ? Hr Hl]. split; auto.
  - intros id sb Hid. by rewrite <- Hp, (Hr id sb).
  - intros id. by rewrite <- Hp.
Qed.

Lemma release_sb_ok owners pool id :
  heap_ok (id :: owners) pool ->
  exists pool', release_sb pool id = Some pool' /\ heap_ok owners pool' /\
    services pool' = services pool /\ srvs pool' = srvs pool /\ fresh pool' = fresh pool.
Proof.
  intros [Hn Hf Hr Hl]. destruct (proj1 (Hl id) ltac:(left)) as [sb Hsb].
  unfold release_sb. rewrite Hsb. cbn [mbind option_bind]. unfold sbalance_release.
  pose proof (Hr id sb Hsb) as Hrefs. rewrite cnt_cons, decide_True in Hrefs by done.
  destruct (Z.ltb_spec 1 (sb_refs sb)).
  - eexists. split; [done|]. split; [|done]. split; cbn [set_sbs sbs all_nodes fresh].
    + eapply nodes_ok_perm; [|exact Hn]. rewrite refs_of_insert, (refs_of_lookup _ _ _ Hsb). done.
    + intros id'. destruct (decide (id' = id)) as [->|Hne]; [intros _; apply Hf; by rewrite Hsb|].
      rewrite lookup_insert_ne by done. apply Hf.
    + intros id' sb'. destruct (decide (id' = id)) as [->|Hne].
      * rewrite lookup_insert_eq. intros [= <-]. cbn [sb_refs set_refs]. lia.
      * rewrite lookup_insert_ne by done. intros Hid. rewrite (Hr id' sb' Hid), cnt_cons.
        by rewrite decide_False.
    + intros id'. destruct (decide (id' = id)) as [->|Hne].
      * rewrite lookup_insert_eq. split; [done|]. intros _. apply cnt_pos. lia.
      * rewrite lookup_insert_ne, <- Hl, elem_of_cons by done. tauto.
  - assert (cnt id owners = 0)%nat as Hz by lia.
    destruct (free_nodes_ok (set_sbs pool (delete id (sbs pool))) (map data (sb_service_ sb))
      (refs_of (delete id (sbs pool)))) as (p' & E & Hok & [Hfr Hs ? ?]).
    { eapply nodes_ok_perm; [|exact Hn]. rewrite (refs_of_lookup _ _ _ Hsb).
      unfold sb_nodes. by rewrite <- list_fmap_compose. }
    exists p'. split; [done|]. split; [|done]. cbn in Hfr, Hs. split; rewrite ?Hs.
    + done.
    + intros id' [sb' Hid]. rewrite Hfr. apply Hf. apply lookup_delete_Some in Hid as [_ Hid]. by exists sb'.
    + intros id' sb' [Hne Hid]%lookup_delete_Some. rewrite (Hr id' sb' Hid), cnt_cons. by rewrite decide_False.
    + intros id'. destruct (decide (id' = id)) as [->|Hne].
      * rewrite lookup_delete_eq. split; [|by intros []]. rewrite <- cnt_pos. lia.
      * rewrite lookup_delete_ne, <- Hl, elem_of_cons by done. tauto.
Qed.

(** ** Adding *)

(** A balancer gets services, and the pool their nodes. *)
Definition grows pool sb pool' sb' : Prop :=
  exists new, sb_nodes sb' = sb_nodes sb ++ new /\ sb_refs sb' = sb_refs sb /\
    (forall refs, nodes_ok refs (all_nodes pool) (fresh pool) ->
      nodes_ok (new ++ refs) (all_nodes pool') (fresh pool')) /\
    (fresh pool <= fresh pool')%nat /\
    sbs pool' = sbs pool /\ services pool' = services pool /\ srvs pool' = srvs pool.

Lemma grows_refl pool sb : grows pool sb pool sb.
Proof. exists []. rewrite app_nil_r. done. Qed.

Lemma grows_trans p1 s1 p2 s2 p3 s3 : grows p1 s1 p2 s2 -> grows p2 s2 p3 s3 -> grows p1 s1 p3 s3.
Proof.
  intros (n1 & E1 & R1 & H1 & F1 & B1 & V1 & S1) (n2 & E2 & R2 & H2 & F2 & B2 & V2 & S2). exists (n1 ++ n2).
  rewrite E2, E1, (assoc_L (++)). split; [done|]. split; [congruence|]. split.
  { intros refs Hok. eapply nodes_ok_perm; [|by apply H2, H1]. by rewrite (assoc_L (++)), (Permutation_app_comm n2). }
  split; [lia|]. repeat split; congruence.
Qed.

Lemma sb_nodes_add sb c sn : sb_nodes (sbalance_add_serv sb c sn) = sb_nodes sb ++ [sn_node sn].
Proof. unfold sb_nodes, sbalance_add_serv. simpl. by rewrite fmap_app. Qed.

Lemma add_node_grows pool sb key (vtree : option (vtree_chain X)) st ports pool' sb' :
  fd_pool_add_node pool sb key vtree st ports = Some (pool', sb') -> grows pool sb pool' sb'.
Proof.
  unfold fd_pool_add_node. destruct ports as [|p ports]; [intros [= <- <-]; apply grows_refl|].
  unfold fd_pool_fetch_node. destruct (list_find _ _) as [[i [id n]]|] eqn:E; cbn [mbind option_bind].
  - destruct (Z.ltb_spec (nd_refs n) (2 ^ 31 - 1)); [|done]. intros [= <- <-].
    apply list_find_Some in E as (Hi & _). exists [id]. rewrite sb_nodes_add.
    split; [done|]. split; [done|]. split; [|done]. intros refs Hok. cbn [set_nodes all_nodes fresh].
    pose proof (no_refs _ _ _ Hok id n ltac:(by eapply list_elem_of_lookup_2)) as Hn.
    eapply nodes_ok_update; [exact Hok|exact Hi| | |].
    + cbn [set_node_refs nd_refs app]. rewrite cnt_cons, decide_True by done. lia.
    + cbn [app]. rewrite cnt_cons, decide_True by done. lia.
    + intros id' Hne. cbn [app]. rewrite cnt_cons, decide_False by done. done.
  - destruct (vtree_getint vtree (bytes "cost")) as [c|]; [|done]. cbn [mbind option_bind fd_pool_node_new].
    intros [= <- <-]. exists [fresh pool]. rewrite sb_nodes_add. split; [done|]. split; [done|].
    split; [|cbn; repeat split; lia]. intros refs Hok. by apply nodes_ok_insert.
Qed.

Lemma add_loop_grows rest : forall pool sb key (vtree : option (vtree_chain X)) st cur pool' sb',
  add_loop pool sb key vtree st cur rest = Some (pool', sb') -> grows pool sb pool' sb'.
Proof.
  induction rest as [|p rest IH]; intros pool sb key vtree st [|s cur] pool' sb'; cbn [add_loop];
    try apply add_node_grows.
  destruct (ports_cmp s p =? 0); [apply IH|].
  destruct (fd_pool_add_node pool sb key vtree st (s :: cur)) as [[p1 s1]|] eqn:E; [|done].
  intros H. eapply grows_trans; [by eapply add_node_grows|by eapply IH].
Qed.

Lemma add_grows pool sb key (vtree : option (vtree_chain X)) st ports pool' sb' :
  fd_pool_add pool sb key vtree st ports = Some (pool', sb') -> grows pool sb pool' sb'.
Proof.
  unfold fd_pool_add. destruct (merge_sort ports_le ports); [intros [= <- <-]; apply grows_refl|apply add_loop_grows].
Qed.

Context (getaddrinfo : list Z -> list Z -> addrinfo_hints -> gai_error + list addrinfo).
Context (realpath : list Z -> option (list Z)).

Lemma add_host_grows pool hints sb err e err' pool' sb' :
  add_host getaddrinfo realpath pool hints sb err e = Some (err', pool', sb') -> grows pool sb pool' sb'.
Proof.
  unfold add_host. destruct (kv_val e) as [| |node]; [intros [= <- <- <-]; apply grows_refl..|].
  destruct (vtree_getint (Some node) _) as [d|]; [|done]. cbn [mbind option_bind].
  destruct (d =? 0); [|intros [= <- <- <-]; apply grows_refl].
  destruct (vtree_get (Some node) _) as [host|]; [|done]. cbn [mbind option_bind].
  destruct (vtree_fetch_keys_and_values _ _) as [l|]; [|done]. cbn [mbind option_bind].
  destruct (host_ports _ _ _ _ _ _ _) as [[ports err1]|]; [|done]. cbn [mbind option_bind].
  destruct (fd_pool_add _ _ _ _ _ _) as [[p1 s1]|] eqn:E; [|done]. intros [= <- <- <-].
  by eapply add_grows.
Qed.

Lemma populate_grows pool hints sb vtree err' pool' sb' :
  fd_pool_populate_from_vtree getaddrinfo realpath pool hints sb vtree = Some (err', pool', sb') ->
  grows pool sb pool' sb'.
Proof.
  unfold fd_pool_populate_from_vtree. destruct (vtree_getint vtree _) as [start|]; [|done]. cbn [mbind option_bind].
  destruct (vtree_fetch_keys_and_values _ _) as [l|]; [|done]. cbn [mbind option_bind].
  generalize (length (kv_list l)) at 1. intros k. generalize EFDP_EMPTY_CONFIG. revert pool sb.
  induction k as [|k IH]; intros pool sb err; cbn [populate_loop]; [intros [= <- <- <-]; apply grows_refl|].
  destruct (_ <? 0); [done|]. destruct (kv_list l !! _) as [e|]; [|done]. cbn [mbind option_bind].
  destruct (add_host _ _ _ _ _ _ _) as [[[err1 p1] s1]|] eqn:E; [|done]. cbn [mbind option_bind].
  intros H. eapply grows_trans; [by eapply add_host_grows|by eapply IH].
Qed.

(** ** Services *)

Definition owners_of (m : gmap (list Z) fd_pool_service) : list nat := srv_sb ∘ snd <$> map_to_list m.

Lemma owners_of_insert m name srv : owners_of (<[name := srv]> m) ≡ₚ (srv_sb srv :: owners_of (delete name m)).
Proof. unfold owners_of. rewrite <- insert_delete_eq, map_to_list_insert by apply lookup_delete_eq. done. Qed.

Lemma owners_of_lookup m name srv :
  m !! name = Some srv -> owners_of m ≡ₚ (srv_sb srv :: owners_of (delete name m)).
Proof. intros Hn. by rewrite <- owners_of_insert, insert_id. Qed.

(** The invariant of a pool: every balancer is referred to by services and by the
    connections [conns], and counts them; every node is referred to by balancers,
    and counts them; the tree holds the names of the services. *)
Record pool_inv (conns : list nat) pool : Prop := {
  pi_heap : heap_ok (owners_of (srvs pool) ++ conns) pool;
  pi_names : os_ok (services pool);
  pi_srvs name : name ∈ os_elems (services pool) <-> is_Some (srvs pool !! name)
}.

Lemma find_service_spec conns pool name :
  pool_inv conns pool -> fd_pool_find_service pool name = srvs pool !! name.
Proof.
  intros [_ Hok Hs]. unfold fd_pool_find_service. pose proof (os_lookup_ok name _ Hok) as Hl.
  destruct (os_lookup name (services pool)) as [name'|].
  - destruct Hl as [_ <-%lexcmp_eq]. done.
  - destruct (srvs pool !! name) as [srv|] eqn:E; [|done].
    destruct (Hl name) as []; [apply Hs; by eexists|by apply lexcmp_eq].
Qed.

Lemma lookup_name_spec conns pool name srv :
  pool_inv conns pool -> srvs pool !! name = Some srv -> os_lookup name (services pool) = Some name.
Proof.
  intros Hinv E. pose proof (find_service_spec conns pool name Hinv) as Hf.
  unfold fd_pool_find_service in Hf. rewrite E in Hf.
  pose proof (os_lookup_ok name _ (pi_names _ _ Hinv)) as Hl.
  destruct (os_lookup name (services pool)) as [name'|]; [|done]. by destruct Hl as [_ <-%lexcmp_eq].
Qed.

Lemma heap_ok_new_sb owners pool sb ns :
  heap_ok owners pool -> sb_refs sb = 1 ->
  nodes_ok (sb_nodes sb ++ refs_of (sbs pool)) ns (S (fresh pool)) ->
  forall ss m cl, heap_ok (fresh pool :: owners)
    (mk_pool ns (S (fresh pool)) (<[fresh pool := sb]> (sbs pool)) ss m cl).
Proof.
  clear getaddrinfo realpath.
  intros [Hn Hf Hr Hl] Hrefs Hns ss m cl.
  assert (sbs pool !! fresh pool = None) as Hnew.
  { destruct (sbs pool !! fresh pool) eqn:E; [|done]. assert (fresh pool < fresh pool)%nat by (apply Hf; by eexists). lia. }
  split; cbn [sbs all_nodes fresh].
  - eapply nodes_ok_perm; [|exact Hns]. by rewrite refs_of_insert, delete_id.
  - intros id. destruct (decide (id = fresh pool)) as [->|Hne]; [lia|]. rewrite lookup_insert_ne by done.
    intros H%Hf. lia.
  - intros id sb'. rewrite cnt_cons. destruct (decide (id = fresh pool)) as [->|Hne].
    + rewrite lookup_insert_eq, decide_True by done. intros [= <-].
      assert (~ (0 < cnt (fresh pool) owners)%nat); [|lia]. rewrite cnt_pos, Hl, Hnew. by intros [].
    + rewrite lookup_insert_ne, decide_False by done. apply Hr.
  - intros id. rewrite elem_of_cons. destruct (decide (id = fresh pool)) as [->|Hne].
    + rewrite lookup_insert_eq. by split; [|left].
    + rewrite lookup_insert_ne, <- Hl by done. tauto.
Qed.

Lemma get_service_inv conns pool service retries fail temp st t hints :
  pool_inv conns pool ->
  exists srv pool', fd_pool_get_service pool service retries fail temp st t hints = Some (srv, pool') /\
    pool_inv conns pool' /\ srvs pool' !! service = Some srv.
Proof.
  clear getaddrinfo realpath.
  intros Hinv. unfold fd_pool_get_service. rewrite (find_service_spec conns) by done.
  destruct (srvs pool !! service) as [srv|] eqn:E; [by exists srv, pool|]. destruct Hinv as [Hh Hok Hs].
  assert (forall y, y ∈ os_elems (services pool) -> lexcmp service y <> 0) as Hfresh.
  { intros y Hy ->%lexcmp_eq. apply Hs in Hy as [? ?]. congruence. }
  destruct (os_insert_ok service _ Hok Hfresh) as (ss & -> & Hok' & Hp). cbn [mbind option_bind].
  eexists _, _. split; [done|]. split; [|cbn [srvs]; by rewrite lookup_insert_eq].
  split; cbn [services srvs sbs all_nodes fresh]; [|done|].
  - eapply heap_ok_perm; [|apply (heap_ok_new_sb _ _ _ _ Hh)].
    + by rewrite owners_of_insert, delete_id.
    + done.
    + cbn. eapply nodes_ok_fresh; [|apply Hh]. lia.
  - intros name. rewrite Hp, elem_of_cons, Hs. destruct (decide (name = service)) as [->|Hne].
    + rewrite lookup_insert_eq. by split; [|left].
    + rewrite lookup_insert_ne by done. tauto.
Qed.

(** Storing a balancer that has grown. *)
Lemma grown_inv conns pool id sb pool' sb' :
  pool_inv conns pool -> sbs pool !! id = Some sb -> grows pool sb pool' sb' ->
  pool_inv conns (set_sbs pool' (<[id := sb']> (sbs pool'))).
Proof.
  intros [[Hn Hf Hr Hl] Hok Hs] Hid (new & En & Er & Hno & Hfr & Eb & Ev & Es).
  split; cbn [set_sbs services srvs]; rewrite ?Ev, ?Es; [|done|done].
  split; cbn [set_sbs sbs all_nodes fresh]; rewrite ?Eb.
  - eapply nodes_ok_perm; [|by apply Hno]. rewrite refs_of_insert, (refs_of_lookup _ _ _ Hid), En.
    by rewrite (assoc_L (++)), (Permutation_app_comm new).
  - intros id' Hid'. assert (id' < fresh pool)%nat; [|lia]. apply Hf.
    destruct (decide (id' = id)) as [->|Hne]; [by eexists|]. by rewrite lookup_insert_ne in Hid'.
  - intros id' sb1. destruct (decide (id' = id)) as [->|Hne].
    + rewrite lookup_insert_eq. intros [= <-]. rewrite Er. by apply Hr.
    + rewrite lookup_insert_ne by done. apply Hr.
  - intros id'. rewrite Hl. destruct (decide (id' = id)) as [->|Hne].
    + rewrite lookup_insert_eq, Hid. split; intros _; by eexists.
    + by rewrite lookup_insert_ne.
Qed.

Lemma with_sb_inv {R} conns pool srv name f (r : R) pool' :
  pool_inv conns pool -> srvs pool !! name = Some srv ->
  (forall sb r p sb', f sb = Some (r, p, sb') -> grows pool sb p sb') ->
  with_sb pool srv f = Some (r, pool') -> pool_inv conns pool' /\ srvs pool' = srvs pool.
Proof.
  intros Hinv Hn Hf. unfold with_sb. destruct (sbs pool !! srv_sb srv) as [sb|] eqn:E; [|done].
  cbn [mbind option_bind]. destruct (f sb) as [[[r1 p1] s1]|] eqn:Ef; [|done]. intros [= <- <-].
  apply Hf in Ef. split; [by eapply grown_inv|]. by destruct Ef as (? & ? & ? & ? & ? & ? & ? & ?).
Qed.

Lemma config_service_inv conns pool service vtree hints srv pool' :
  pool_inv conns pool -> config_service pool service vtree hints = Some (srv, pool') ->
  pool_inv conns pool' /\ srvs pool' !! service = Some srv.
Proof.
  intros Hinv. unfold config_service. intros H.
  repeat match type of H with
  | mbind _ ?o = Some _ => destruct o; [cbn [mbind option_bind] in H|done]
  end.
  edestruct (get_service_inv conns pool) as (srv1 & p1 & E & H1); [done|].
  rewrite E in H. by injection H as <- <-.
Qed.

Lemma add_ports_inv conns pool srv name st ports pool' :
  pool_inv conns pool -> srvs pool !! name = Some srv ->
  add_ports (X := X) pool srv st ports = Some pool' -> pool_inv conns pool' /\ srvs pool' = srvs pool.
Proof.
  intros Hinv Hn. unfold add_ports. destruct (with_sb pool srv _) as [[[] p1]|] eqn:E; [|done].
  intros [= <-]. eapply with_sb_inv in E; eauto. intros sb r p sb'.
  destruct (fd_pool_add _ _ _ _ _ _) as [[p2 s2]|] eqn:Ea; [|done]. intros [= <- <- <-]. by eapply add_grows.
Qed.

Lemma new_inv : pool_inv [] (fd_pool_new : fd_pool T).
Proof.
  destruct os_empty_ok as [Hok He]. split; cbn [fd_pool_new srvs services]; [|done|].
  - split; cbn [fd_pool_new sbs all_nodes fresh].
    + apply nodes_ok_empty.
    + intros id. rewrite lookup_empty. by intros [].
    + intros id sb. by rewrite lookup_empty.
    + intros id. rewrite lookup_empty. split; [|by intros []]. intros []%elem_of_nil.
  - intros name. rewrite He, lookup_empty. split; [intros []%elem_of_nil|by intros []].
Qed.

Lemma add_config_inv conns pool derived vtree hints err pool' out :
  pool_inv conns pool ->
  fd_pool_add_config getaddrinfo realpath pool derived vtree hints = Some (err, pool', out) ->
  pool_inv conns pool'.
Proof.
  intros Hinv. unfold fd_pool_add_config. destruct (has_fun vtree); [|by intros [= <- <- <-]].
  destruct (vtree_get vtree _) as [name|]; [|done]. cbn [mbind option_bind].
  destruct (config_service pool _ vtree hints) as [[srv p1]|] eqn:E1; [|done]. cbn [mbind option_bind].
  destruct (config_service_inv _ _ _ _ _ _ _ Hinv E1) as [Hinv1 Hs1].
  destruct (nserv p1 srv) as [n|]; [|done]. cbn [mbind option_bind].
  destruct (negb (n =? 0)); [by intros [= <- <- <-]|].
  destruct (with_sb p1 srv _) as [[e p2]|] eqn:E2; [|done]. cbn [mbind option_bind].
  eapply with_sb_inv in E2 as [Hinv2 _]; [|done|done|intros *; apply populate_grows].
  destruct (is_empty p2 srv vtree) as [[]|]; [by intros [= <- <- <-]..|done].
Qed.

Lemma add_single_inv conns pool service host port retries t hints err pool' :
  pool_inv conns pool ->
  fd_pool_add_single (X := X) getaddrinfo pool service host port retries t hints = Some (err, pool') ->
  pool_inv conns pool'.
Proof.
  intros Hinv. unfold fd_pool_add_single. destruct (getaddrinfo _ _ _) as [e|res]; [by intros [= <- <-]|].
  edestruct (get_service_inv conns pool) as (srv & p1 & E & Hinv1 & Hs1); [done|]. rewrite E. cbn [mbind option_bind].
  destruct (add_ports p1 srv _ _) as [p2|] eqn:E2; [|done]. cbn [mbind option_bind].
  destruct (add_ports_inv _ _ _ _ _ _ _ Hinv1 Hs1 E2) as [Hinv2 _].
  destruct (nserv p2 srv); [by intros [= <- <-]|done].
Qed.

Lemma add_unix_inv conns pool service path retries t st err pool' :
  pool_inv conns pool ->
  fd_pool_add_unix (X := X) realpath pool service path retries t st = Some (err, pool') ->
  pool_inv conns pool'.
Proof.
  intros Hinv. unfold fd_pool_add_unix.
  edestruct (get_service_inv conns pool) as (srv & p1 & E & Hinv1 & Hs1); [done|]. rewrite E. cbn [mbind option_bind].
  destruct (add_ports p1 srv _ _) as [p2|] eqn:E2; [|done]. intros [= <- <-].
  by destruct (add_ports_inv _ _ _ _ _ _ _ Hinv1 Hs1 E2) as [Hinv2 _].
Qed.

(** Releasing the reference of a connection. *)
Lemma release_inv conns pool id :
  pool_inv (id :: conns) pool ->
  exists pool', release_sb pool id = Some pool' /\ pool_inv conns pool' /\ srvs pool' = srvs pool.
Proof.
  intros [Hh Hok Hs]. destruct (release_sb_ok (owners_of (srvs pool) ++ conns) pool id) as (p' & E & Hh' & E1 & E2 & _).
  { eapply heap_ok_perm; [|exact Hh]. by rewrite Permutation_middle. }
  exists p'. split; [done|]. split; [|done]. split; rewrite ?E1, ?E2; done.
Qed.

Lemma update_hosts_inv conns pool service vtree n pool' :
  pool_inv conns pool ->
  fd_pool_update_hosts getaddrinfo realpath pool service vtree = Some (n, pool') -> pool_inv conns pool'.
Proof.
  intros Hinv. unfold fd_pool_update_hosts. destruct vtree as [v|]; [|by intros [= <- <-]].
  rewrite (find_service_spec conns) by done.
  destruct (srvs pool !! service) as [srv|] eqn:Es; [|by intros [= <- <-]].
  destruct (sbs pool !! srv_sb srv) as [src|] eqn:Esrc; [|done]. cbn [mbind option_bind].
  set (p0 := mk_pool _ _ _ _ _ _). set (sb0 := sbalance_create _ _ _ _).
  destruct (fd_pool_populate_from_vtree _ _ p0 _ sb0 _) as [[[e p1] sb]|] eqn:Ep; [|done]. cbn [mbind option_bind].
  assert (pool_inv (fresh pool :: conns) (set_sbs p1 (<[fresh pool := sb]> (sbs p1)))) as Hnew.
  { assert (pool_inv (fresh pool :: conns) (set_sbs p0 (<[fresh pool := sb0]> (sbs p0)))) as H0.
    { destruct Hinv as [Hh Hok Hs]. split; [|done|done]. eapply heap_ok_perm; [by rewrite <- Permutation_middle|].
      apply (heap_ok_new_sb _ pool sb0 (all_nodes pool)); [done|done|].
      eapply nodes_ok_fresh; [|apply Hh]. lia. }
    apply populate_grows in Ep as (new & En & Er & Hno & Hfr & Eb & Ev & Ess).
    pose proof (grown_inv _ _ (fresh pool) sb0 (set_sbs p1 (<[fresh pool := sb0]> (sbs p0))) sb H0) as Hg.
    cbn [set_sbs sbs p0] in Hg. rewrite lookup_insert_eq, insert_insert_eq in Hg. rewrite Eb. apply Hg; [done|].
    exists new. cbn [set_sbs all_nodes fresh sbs services srvs p0] in *. done. }
  destruct (sb_nserv sb =? 0).
  - destruct (release_inv _ _ _ Hnew) as (p2 & -> & Hinv2 & _). by intros [= <- <-].
  - assert (srvs p1 = srvs pool /\ services p1 = services pool) as [Es1 Ev1].
    { apply populate_grows in Ep as (new & _ & _ & _ & _ & _ & Ev & Es1). done. }
    cbn [set_sbs services]. rewrite Ev1, (lookup_name_spec conns pool service srv) by done. cbn [mbind option_bind].
    set (srv' := mk_srv _ _ _ _ _). set (p2 := set_srvs _ _).
    destruct (release_inv conns p2 (srv_sb srv)) as (p3 & -> & Hinv3 & _); [|by intros [= <- <-]].
    destruct Hnew as [Hh Hok Hs]. cbn [set_sbs services srvs] in Hok, Hs.
    split; subst p2; cbn [set_srvs set_sbs services srvs]; [|done|].
    + cbn [set_sbs srvs] in Hh. rewrite Es1 in *.
      destruct Hh as [Hn Hf Hr Hl]. cbn [set_sbs sbs all_nodes fresh srvs] in *.
      assert (owners_of (srvs pool) ++ fresh pool :: conns ≡ₚ
        owners_of (<[service := srv']> (srvs pool)) ++ srv_sb srv :: conns) as Hp.
      { rewrite owners_of_insert, (owners_of_lookup _ _ _ Es). subst srv'. cbn [srv_sb].
        cbn [app]. rewrite <- (Permutation_middle _ conns (fresh pool)), <- (Permutation_middle _ conns (srv_sb srv)).
        apply perm_swap. }
      eapply heap_ok_perm; [exact Hp|]. by split.
    + intros name. rewrite Hs, Es1. destruct (decide (name = service)) as [->|Hne].
      * rewrite lookup_insert_eq, Es. split; intros _; by eexists.
      * by rewrite lookup_insert_ne.
Qed.

Lemma create_inv service vtree hints pool :
  fd_pool_create getaddrinfo realpath service vtree hints = Some (Some pool) ->
  pool_inv [] (pool : fd_pool T).
Proof.
  unfold fd_pool_create. destruct (has_fun vtree); [|done].
  destruct (config_service fd_pool_new _ vtree hints) as [[srv p1]|] eqn:E1; [|done]. cbn [mbind option_bind].
  destruct (config_service_inv [] _ _ _ _ _ _ new_inv E1) as [Hinv1 Hs1].
  destruct (with_sb p1 srv _) as [[e p2]|] eqn:E2; [|done]. cbn [mbind option_bind].
  eapply with_sb_inv in E2 as [Hinv2 _]; [|done|done|intros *; apply populate_grows].
  destruct (is_empty p2 srv vtree) as [[]|]; cbn [mbind option_bind]; [|by intros [= <-]|done].
  by destruct (release_sb p2 (srv_sb srv)).
Qed.

Lemma create_single_inv service host port retries t hints pool :
  fd_pool_create_single (X := X) getaddrinfo service host port retries t hints = Some (Some pool) ->
  pool_inv [] (pool : fd_pool T).
Proof.
  unfold fd_pool_create_single. destruct (getaddrinfo _ _ _) as [e|res]; [done|].
  edestruct (get_service_inv [] fd_pool_new) as (srv & p1 & E & Hinv1 & Hs1); [apply new_inv|].
  rewrite E. cbn [mbind option_bind]. destruct (add_ports p1 srv _ _) as [p2|] eqn:E2; [|done]. cbn [mbind option_bind].
  destruct (add_ports_inv _ _ _ _ _ _ _ Hinv1 Hs1 E2) as [Hinv2 _].
  destruct (nserv p2 srv) as [n|]; [|done]. cbn [mbind option_bind]. destruct (n =? 0); [|by intros [= <-]].
  by destruct (release_sb p2 (srv_sb srv)).
Qed.

Lemma create_unix_inv service path retries t st pool :
  fd_pool_create_unix (X := X) realpath service path retries t st = Some pool -> pool_inv [] (pool : fd_pool T).
Proof.
  unfold fd_pool_create_unix.
  edestruct (get_service_inv [] fd_pool_new) as (srv & p1 & E & Hinv1 & Hs1); [apply new_inv|].
  rewrite E. cbn [mbind option_bind]. intros E2. by destruct (add_ports_inv _ _ _ _ _ _ _ Hinv1 Hs1 E2).
Qed.

Lemma cycle_last_inv conns pool service cl :
  pool_inv conns pool -> pool_inv conns (fd_pool_set_cycle_last pool service cl).
Proof.
  intros Hinv. unfold fd_pool_set_cycle_last. destruct (os_lookup service (services pool)) as [name|]; [|done].
  destruct (srvs pool !! name) as [srv|] eqn:E; [|done]. destruct Hinv as [Hh Hok Hs].
  split; cbn [set_srvs services srvs]; [|done|].
  - destruct Hh as [? ? ? ?]. eapply heap_ok_perm; [|by split].
    by rewrite owners_of_insert, (owners_of_lookup _ _ _ E).
  - intros name'. rewrite Hs. destruct (decide (name' = name)) as [->|Hne].
    + rewrite lookup_insert_eq, E. split; intros _; by eexists.
    + by rewrite lookup_insert_ne.
Qed.

(** ** Disposal *)

Lemma release_services_ok names : forall pool ids owners,
  heap_ok (ids ++ owners) pool -> Forall2 (fun name id => srv_sb <$> srvs pool !! name = Some id) names ids ->
  exists pool', release_services pool names = Some pool' /\ heap_ok owners pool'.
Proof.
  induction names as [|name names IH]; intros pool ids owners Hh Hids.
  - apply Forall2_nil_inv_l in Hids as ->. by exists pool.
  - apply Forall2_cons_inv_l in Hids as (id & ids' & Hid & Hids & ->).
    apply fmap_Some in Hid as (srv & Hsrv & ->). cbn [release_services]. rewrite Hsrv. cbn [mbind option_bind].
    destruct (release_sb_ok (ids' ++ owners) pool (srv_sb srv) Hh) as (p1 & -> & Hh1 & _ & Es & _).
    cbn [mbind option_bind]. apply (IH p1 ids'); [done|]. by rewrite Es.
Qed.

Lemma heap_ok_empty pool : heap_ok [] pool -> all_nodes pool = [].
Proof.
  intros [Hn _ _ Hl]. assert (sbs pool = ∅) as E.
  { apply map_empty. intros id. destruct (sbs pool !! id) eqn:Hid; [|done].
    assert (id ∈ @nil nat) as []%elem_of_nil. apply Hl. by eexists. }
  rewrite E in Hn. unfold refs_of in Hn. rewrite map_to_list_empty in Hn. by eapply nodes_ok_nil.
Qed.

(** The names in the tree, with the balancers of their services. *)
Lemma names_owners conns pool :
  pool_inv conns pool ->
  let sb_of name := default O (srv_sb <$> srvs pool !! name) in
  os_elems (services pool) ≡ₚ (map_to_list (srvs pool)).*1 /\
  owners_of (srvs pool) ≡ₚ (sb_of <$> os_elems (services pool)).
Proof.
  intros [_ Hok Hs] sb_of.
  assert (os_elems (services pool) ≡ₚ (map_to_list (srvs pool)).*1) as Hp.
  { apply NoDup_Permutation; [by apply os_nodup|apply NoDup_fst_map_to_list|].
    intros name. rewrite Hs, list_elem_of_fmap. split.
    - intros [srv E]. exists (name, srv). split; [done|]. by apply elem_of_map_to_list.
    - intros ([name' srv] & -> & E%elem_of_map_to_list). by eexists. }
  split; [done|]. rewrite Hp. unfold owners_of. rewrite <- list_fmap_compose.
  erewrite (list_fmap_ext (srv_sb ∘ snd) (sb_of ∘ fst)); [done|].
  intros i [name srv] Hi%list_elem_of_lookup_2%elem_of_map_to_list. simpl. unfold sb_of. by rewrite Hi.
Qed.

Lemma free_ok pool :
  pool_inv [] pool -> Z.of_nat (length (os_elems (services pool))) < 2 ^ 32 -> is_Some (fd_pool_free pool).
Proof.
  intros Hinv Hsize. destruct (names_owners _ _ Hinv) as [Hp Ho]. destruct Hinv as [Hh Hok Hs].
  rewrite app_nil_r in Hh. unfold fd_pool_free. rewrite os_walk_ok by done.
  cbn [mbind option_bind]. set (names := os_elems (services pool)) in *.
  destruct (release_services_ok (reverse names) pool
    ((fun name => default O (srv_sb <$> srvs pool !! name)) <$> reverse names) []) as (p' & -> & Hh').
  - rewrite app_nil_r. eapply heap_ok_perm; [|exact Hh]. rewrite Ho. by rewrite reverse_Permutation.
  - apply Forall2_fmap_r, Forall_Forall2_diag, list.Forall_forall. intros name Hn.
    rewrite elem_of_reverse in Hn. apply Hs in Hn as [srv E]. simpl. by rewrite E.
  - cbn [mbind option_bind]. rewrite heap_ok_empty by done. by eexists.
Qed.
End Refs.
