(* ===== verification/FdPoolConn.v ===== *)
(** FdPoolConn: connections of a pool (the second half of
    src/core/lib/fd_pool.c): moving through nodes and ports, getting and putting
    back descriptors, and iterating over ports.

    What the operating system answers is an argument: [alive] says for an idle
    descriptor whether poll finds it usable, [outcomes] lists the results of the
    attempts to connect, a new descriptor or a failure, and [rnds] the random
    numbers.  A loop that consumes more outcomes than given fails, as do
    dereferences of NULL and of freed objects.  The timer attributes that
    [fd_pool_get] records, one per attempted port, are its trace. *)
From stdpp Require Import prelude list numbers sorting gmap.
From Stdlib Require Import ZArith Lia.
From S2P Require Import Prelude Rcycle Avl Sbalance Vtree FdPool.

Local Open Scope Z_scope.
#[local] Set Warnings "-register-all".

(** [c_service] names the service, [c_sb] is the balancer of [c_sc]. *)
Record fd_pool_conn (C : Type) := mk_conn {
  c_service : option (list Z);
  c_sn : option fd_pool_service_node;
  c_port : option nat;
  c_entry : option Z;
  c_sb : option nat;
  c_sc : sbalance_connection C;
  c_sb_gen : Z;
  c_port_key : list Z;
  c_pk_ptr : list Z;
  c_sc_hash : Z;
  c_node_filter : option (list Z);
  c_active_fd : bool
}.
Arguments mk_conn {C}.
Arguments c_service {C}.
Arguments c_sn {C}.
Arguments c_port {C}.
Arguments c_entry {C}.
Arguments c_sb {C}.
Arguments c_sc {C}.
Arguments c_sb_gen {C}.
Arguments c_port_key {C}.
Arguments c_pk_ptr {C}.
Arguments c_sc_hash {C}.
Arguments c_node_filter {C}.
Arguments c_active_fd {C}.

(** * Ports *)

(** The bytes before a comma. *)
Fixpoint strcspn (s : list Z) : nat :=
  match s with
  | [] => O
  | c :: s => if c =? 44 then O else S (strcspn s)
  end.

(** The first port with the key from an index on. *)
Definition find_port (ports : list fd_pool_port) (key : list Z) (from : nat) : option nat :=
  '(i, _) ← list_find (fun p => port_key p = key) (drop from ports); Some (from + i)%nat.

(** The loop of [fd_pool_move_port]; each turn shortens the list of keys. *)
Fixpoint move_port_loop (fuel : nat) (ports : list fd_pool_port) (pk : list Z) (port : option nat) :
    option (bool * list Z * option nat) :=
  match pk, fuel with
  | [], _ => Some (false, pk, port)
  | _, O => None
  | _, S fuel =>
    let from := match port with Some i => S i | None => O end in
    match find_port ports (take (strcspn pk) pk) from with
    | Some j => Some (true, pk, Some j)
    | None =>
      let rest := drop (strcspn pk) pk in
      move_port_loop fuel ports (match rest with c :: r => if c =? 44 then r else rest | [] => [] end) None
    end
  end.

Section Code.
Context {T : Type} `{!OrderedSet lexcmp T} {X : Type} `{!VtreeBackend X}.
Context {C F G : Type} `{!Cycler C, !Drand F G}.
Implicit Types (pool : fd_pool T) (conn : fd_pool_conn C).

Definition find_node pool (id : nat) : option (nat * fd_pool_node) :=
  '(i, (_, n)) ← list_find (fun x => fst x = id) (all_nodes pool); Some (i, n).

Definition set_place conn (sn : option fd_pool_service_node) (port : option nat) (pk : list Z) : fd_pool_conn C :=
  mk_conn (c_service conn) sn port (c_entry conn) (c_sb conn) (c_sc conn) (c_sb_gen conn) (c_port_key conn)
    pk (c_sc_hash conn) (c_node_filter conn) (c_active_fd conn).

Definition set_sc conn (sb : option nat) (sc : sbalance_connection C) (gen : Z) : fd_pool_conn C :=
  mk_conn (c_service conn) (c_sn conn) (c_port conn) (c_entry conn) sb sc gen (c_port_key conn)
    (c_pk_ptr conn) (c_sc_hash conn) (c_node_filter conn) (c_active_fd conn).

Definition set_entry conn (entry : option Z) (active : bool) : fd_pool_conn C :=
  mk_conn (c_service conn) (c_sn conn) (c_port conn) entry (c_sb conn) (c_sc conn) (c_sb_gen conn)
    (c_port_key conn) (c_pk_ptr conn) (c_sc_hash conn) (c_node_filter conn) active.

Definition fd_pool_move_port pool conn : option (bool * fd_pool_conn C) :=
  sn ← c_sn conn;
  '(_, n) ← find_node pool (sn_node sn);
  '(found, pk, port) ← move_port_loop (length (c_pk_ptr conn)) (nd_ports n) (c_pk_ptr conn) (c_port conn);
  Some (found, set_place conn (c_sn conn) port pk).

(** The node filter is compared with the key of the node, which must not be NULL. *)
Definition passes_filter conn (sn : fd_pool_service_node) : option bool :=
  match c_node_filter conn with
  | None => Some true
  | Some f => k ← sn_key sn; Some (bool_decide (k = f))
  end.

(** The loops of [fd_pool_move_node], with at most [fuel] calls of
    [sbalance_conn_next]. *)
Fixpoint move_node_loop (fuel : nat) pool conn (status : sbalance_conn_status) (rnds : list Z) :
    option (fd_pool T * fd_pool_conn C * list Z) :=
  match fuel with
  | O => None
  | S fuel =>
    id ← c_sb conn;
    sb ← sbs pool !! id;
    '(sb, sc, d) ← sbalance_conn_next sb (c_sc conn) status (hd 0 rnds);
    let pool := set_sbs pool (<[id := sb]> (sbs pool)) in
    let conn := set_sc conn (c_sb conn) sc (c_sb_gen conn) in
    match d with
    | None => Some (pool, set_place conn None (c_port conn) (c_pk_ptr conn), tl rnds)
    | Some sn =>
      pass ← passes_filter conn sn;
      if (pass : bool) then
        '(found, conn) ← fd_pool_move_port pool (set_place conn (Some sn) None (c_port_key conn));
        if (found : bool) then Some (pool, conn, tl rnds)
        else move_node_loop fuel pool conn SBCS_START (tl rnds)
      else move_node_loop fuel pool (set_place conn (Some sn) (c_port conn) (c_pk_ptr conn)) SBCS_START (tl rnds)
    end
  end.

(** The calls that are left on a balancer, and the one that returns NULL. *)
Definition calls_left pool conn : nat :=
  match c_sb conn ≫= fun id => sbs pool !! id with
  | Some sb => S (Z.to_nat (sc_first (c_sc conn)) + Z.to_nat (sc_retries (c_sc conn)) * Z.to_nat (sb_nserv sb))
  | None => 1
  end.

Definition fd_pool_move_node pool conn (status : sbalance_conn_status) (rnds : list Z) :
    option (fd_pool T * fd_pool_conn C * list Z) :=
  move_node_loop (calls_left pool conn) pool conn status rnds.

(** * Getting a descriptor *)

(** Replace port [j] of the node at index [i]. *)
Definition set_port pool (i : nat) (id : nat) (n : fd_pool_node) (j : nat) (p : fd_pool_port) : fd_pool T :=
  set_nodes pool (<[i := (id, mk_fd_node (nd_socktype n) (<[j := p]> (nd_ports n)) (nd_cost n) (nd_refs n))]>
                    (all_nodes pool)).

Definition close_fds pool (fds : list Z) : fd_pool T :=
  mk_pool (all_nodes pool) (fresh pool) (sbs pool) (services pool) (srvs pool) (closed pool ++ fds).

(** Take idle descriptors until one is usable: those to close, those that stay, and
    the usable one. *)
Fixpoint pop_idle (alive : Z -> bool) (fds : list Z) : list Z * list Z * option Z :=
  match fds with
  | [] => ([], [], None)
  | fd :: fds =>
    if alive fd then ([], fds, Some fd)
    else let '(dead, rest, r) := pop_idle alive fds in (fd :: dead, rest, r)
  end.

(** The choice of node and port at the top of the loop. *)
Definition next_place pool conn (status : sbalance_conn_status) (rnds : list Z) :
    option (fd_pool T * fd_pool_conn C * list Z) :=
  match c_sn conn, c_entry conn with
  | None, _ => fd_pool_move_node pool conn status rnds
  | Some _, Some _ => Some (pool, conn, rnds)
  | Some _, None =>
    '(found, conn) ← fd_pool_move_port pool conn;
    if (found : bool) then Some (pool, conn, rnds) else fd_pool_move_node pool conn status rnds
  end.

Record get_result := mk_got {
  got_fd : option Z;
  got_pool : fd_pool T;
  got_conn : fd_pool_conn C;
  got_trace : list (fd_pool_service_node * nat);
  got_outcomes : list (option Z);
  got_rnds : list Z
}.

Fixpoint get_loop (alive : Z -> bool) (outcomes : list (option Z)) pool conn
    (status : sbalance_conn_status) (rnds : list Z) (trace : list (fd_pool_service_node * nat)) :
    option get_result :=
  '(pool, conn, rnds) ← next_place pool conn status rnds;
  match c_port conn with
  | None => Some (mk_got None pool conn trace outcomes rnds)
  | Some j =>
    sn ← c_sn conn;
    '(i, n) ← find_node pool (sn_node sn);
    p ← nd_ports n !! j;
    let trace := trace ++ [(sn, j)] in
    let '(dead, rest, idle) := pop_idle alive (entries p) in
    let pool := close_fds (set_port pool i (sn_node sn) n j
                  (mk_port (port_key p) (sockaddr p) (peer p) rest (last_ptr p))) dead in
    match idle with
    | Some fd => Some (mk_got (Some fd) pool (set_entry conn (Some fd) true) trace outcomes rnds)
    | None =>
      match outcomes with
      | [] => None
      | Some fd :: outcomes => Some (mk_got (Some fd) pool (set_entry conn None true) trace outcomes rnds)
      | None :: outcomes =>
        get_loop alive outcomes pool (set_entry conn None false) SBCS_FAIL rnds trace
      end
    end
  end.

Definition is_start (status : sbalance_conn_status) : bool :=
  match status with SBCS_START => true | _ => false end.

(** Only call done if successful. *)
Definition leave pool conn (status : sbalance_conn_status) : option (fd_pool T) :=
  match c_sb conn with
  | None => Some pool
  | Some old =>
    sb ← sbs pool !! old;
    sb ← (if is_start status then sbalance_conn_done sb (c_sc conn) else Some sb);
    release_sb (set_sbs pool (<[old := sb]> (sbs pool))) old
  end.

(** Attach the connection to the current balancer of the service. *)
Definition restart pool conn (srv : fd_pool_service) (status : sbalance_conn_status) (arc4random : Z) :
    option (fd_pool T * fd_pool_conn C) :=
  pool ← leave pool conn status;
  sb ← sbs pool !! srv_sb srv;
  let '(sb, sc) := sbalance_conn_new sb (c_sc conn) (c_sc_hash conn) arc4random in
  let conn := set_place (set_sc conn (Some (srv_sb srv)) sc (srv_sb_gen srv)) None (c_port conn) (c_pk_ptr conn) in
  Some (set_sbs pool (<[srv_sb srv := sb]> (sbs pool)), conn).

Definition fd_pool_get (alive : Z -> bool) (outcomes : list (option Z)) pool conn
    (status : sbalance_conn_status) (rnds : list Z) : option get_result :=
  let conn := set_entry conn (c_entry conn) false in
  match c_service conn with
  | None => Some (mk_got None pool conn [] outcomes rnds)
  | Some name =>
    srv ← srvs pool !! name;
    '(pool, conn, rnds) ←
      (if is_start status || (c_sb_gen conn <? srv_sb_gen srv)
       then '(pool, conn) ← restart pool conn srv status (hd 0 rnds); Some (pool, conn, tl rnds)
       else Some (pool, conn, rnds));
    get_loop alive outcomes pool conn status rnds []
  end.

(** * Putting a descriptor back *)

Fixpoint insert_after (x y : Z) (l : list Z) : option (list Z) :=
  match l with
  | [] => None
  | z :: l => if decide (z = x) then Some (z :: y :: l) else k ← insert_after x y l; Some (z :: k)
  end.

(** The list of idle descriptors with [fd] added: with [cycle_last] after the last
    one that was put back, which must be in the list. *)
Definition put_entry (cycle_last : bool) (p : fd_pool_port) (fd : Z) : option fd_pool_port :=
  l ← (match cycle_last, entries p with
       | true, _ :: _ => last ← last_ptr p; insert_after last fd (entries p)
       | _, _ => Some (fd :: entries p)
       end);
  Some (mk_port (port_key p) (sockaddr p) (peer p) l (Some fd)).

(** [over_limit] is the safety net for descriptors close to the limit. *)
Definition fd_pool_put (over_limit : Z -> bool) pool conn (fd : Z) : option (fd_pool T * fd_pool_conn C) :=
  if over_limit fd then Some (close_fds pool [fd], set_entry conn (c_entry conn) false)
  else
    name ← c_service conn;
    srv ← srvs pool !! name;
    sn ← c_sn conn;
    '(i, n) ← find_node pool (sn_node sn);
    j ← c_port conn;
    p ← nd_ports n !! j;
    p ← put_entry (srv_cycle_last srv) p fd;
    Some (set_port pool i (sn_node sn) n j p, set_entry conn None false).

(** * Connections *)

Definition fd_pool_upmap_lookup (upmap : option (vtree_chain X)) (key : option (list Z)) : option (list Z) :=
  match key with
  | None | Some [] => Some (bytes "port")
  | Some k => v ← vtree_get upmap k; Some (default k v)
  end.

(** A new connection, with everything not set here zero. *)
Definition fd_pool_new_conn (zero : C) (upmap : option (vtree_chain X)) pool (service : list Z)
    (key remote_addr : option (list Z)) : option (fd_pool_conn C) :=
  let name := match fd_pool_find_service pool service with Some _ => Some service | None => None end in
  k ← fd_pool_upmap_lookup upmap key;
  Some (mk_conn name None None None None (mk_sc 0 0 zero 0 0) 0 k []
          (match remote_addr with Some s => sbalance_hash_string s | None => 0 end) None false).

Definition fd_pool_set_port_key (upmap : option (vtree_chain X)) conn (key : option (list Z)) :
    option (fd_pool_conn C) :=
  k ← fd_pool_upmap_lookup upmap key;
  Some (mk_conn (c_service conn) (c_sn conn) (c_port conn) (c_entry conn) (c_sb conn) (c_sc conn) (c_sb_gen conn)
          k k (c_sc_hash conn) (c_node_filter conn) (c_active_fd conn)).

Definition fd_pool_set_node_key conn (key : list Z) : fd_pool_conn C :=
  mk_conn (c_service conn) (c_sn conn) (c_port conn) (c_entry conn) (c_sb conn) (c_sc conn) (c_sb_gen conn)
    (c_port_key conn) (c_pk_ptr conn) (c_sc_hash conn) (Some key) (c_active_fd conn).

Definition fd_pool_free_conn pool conn : option (fd_pool T) :=
  match c_sb conn with
  | None => Some pool
  | Some id =>
    sb ← sbs pool !! id;
    sb ← sbalance_conn_done sb (c_sc conn);
    release_sb (set_sbs pool (<[id := sb]> (sbs pool))) id
  end.

(** [fd_pool_conn_writev]: [writes] says whether writing everything to a descriptor
    succeeds; at most [fuel] turns. *)
Fixpoint conn_writev (fuel : nat) (writes alive : Z -> bool) (outcomes : list (option Z)) pool conn
    (fd : option Z) (failed : bool) (rnds : list Z) : option (option Z * fd_pool T * fd_pool_conn C) :=
  match fuel with
  | O => None
  | S fuel =>
    '(fd, pool, conn, outcomes, rnds) ←
      (match fd, failed with
       | Some fd, false => Some (Some fd, pool, conn, outcomes, rnds)
       | Some fd, true =>
         g ← fd_pool_get alive outcomes (close_fds pool [fd]) conn SBCS_FAIL rnds;
         Some (got_fd g, got_pool g, got_conn g, got_outcomes g, got_rnds g)
       | None, _ =>
         g ← fd_pool_get alive outcomes pool conn SBCS_START rnds;
         Some (got_fd g, got_pool g, got_conn g, got_outcomes g, got_rnds g)
       end);
    match fd with
    | None => Some (None, pool, conn)
    | Some s => if writes s then Some (Some s, pool, conn)
                else conn_writev fuel writes alive outcomes pool conn (Some s) true rnds
    end
  end.

(** * Iterating over the ports of a service *)

Record port_iter := mk_iter { it_key : option (list Z); it_port : fd_pool_port; it_num_stored : nat }.

(** The loop that skips to a node with a port left, from service [k] of the
    balancer. *)
Fixpoint iter_skip pool (ss : list (sb_service fd_pool_service_node)) (k state : nat) :
    option (option (nat * nat * fd_pool_service_node * fd_pool_node)) :=
  match ss with
  | [] => Some None
  | s :: ss =>
    '(_, n) ← find_node pool (sn_node (data s));
    if (length (nd_ports n) <? state)%nat then iter_skip pool ss (S k) 1
    else Some (Some (k, state, data s, n))
  end.

(** [state] with the index of the service in the iterator; the outer option is an
    invalid pointer, the inner one the end. *)
Definition fd_pool_iter_ports pool (service : list Z) (state : nat * nat) :
    option (option (port_iter * (nat * nat))) :=
  match fd_pool_find_service pool service with
  | None => Some None
  | Some srv =>
    sb ← sbs pool !! srv_sb srv;
    let '(k, st) := if (snd state =? 0)%nat then (0, 1)%nat else state in
    r ← iter_skip pool (drop k (sb_service_ sb)) k st;
    match r with
    | None => Some None
    | Some (k, st, sn, n) =>
      p ← nd_ports n !! (st - 1)%nat;
      Some (Some (mk_iter (sn_key sn) p (length (entries p)), (k, S st)))
    end
  end.
End Code.

(** * Lifetimes *)

Section Lifetimes.
Context {T : Type} `{!OrderedSet lexcmp T} {X : Type} `{!VtreeBackend X}.
Context {C F G : Type} `{!Cycler C, !Drand F G}.
Implicit Types (pool : fd_pool T) (conn : fd_pool_conn C) (sb : sbalance fd_pool_service_node).

Lemma set_tempfailcost_frame sb i c sb' :
  set_tempfailcost sb i c = Some sb' -> datas sb' = datas sb /\ sb_refs sb' = sb_refs sb.
Proof.
  unfold set_tempfailcost. destruct (sb_service_ sb !! Z.to_nat i) as [s|] eqn:E; [|done].
  intros [= <-]. split; [|done]. unfold datas. simpl.
  change (map data (<[Z.to_nat i := ?x]> ?l)) with (data <$> <[Z.to_nat i := x]> l).
  rewrite list_fmap_insert. apply list_insert_id. by rewrite list_lookup_fmap, E.
Qed.

Lemma conn_next_frame sb (sc : sbalance_connection C) st rnd sb' sc' d :
  sbalance_conn_next sb sc st rnd = Some (sb', sc', d) ->
  datas sb' = datas sb /\ sb_refs sb' = sb_refs sb /\ (forall x, d = Some x -> x ∈ datas sb).
Proof.
  unfold sbalance_conn_next. destruct (sb_nserv sb =? 0); [intros [= <- <- <-]; done|].
  set (report := match st with SBCS_START => _ | _ => _ end).
  destruct report as [sb1|] eqn:E; [|done]. cbn [mbind option_bind].
  assert (datas sb1 = datas sb /\ sb_refs sb1 = sb_refs sb) as [Hd Hr].
  { subst report. destruct st; [by injection E as <-|by eapply set_tempfailcost_frame..]. }
  destruct (_ && _); [intros [= <- <- <-]; done|].
  destruct (if sc_first sc =? 0 then _ else _) as [sc1|]; [|done]. cbn [mbind option_bind].
  destruct (strat_next _ _) as [[i sc2]|]; [|done]. cbn [mbind option_bind].
  destruct (sb_service_ sb1 !! _) as [s|] eqn:Es; [|done]. cbn [mbind option_bind]. intros [= <- <- <-].
  split; [done|]. split; [done|]. intros x [= <-]. rewrite <- Hd. apply list_elem_of_fmap.
  exists s. split; [done|by eapply list_elem_of_lookup_2].
Qed.

Lemma conn_done_frame sb (sc : sbalance_connection C) sb' :
  sbalance_conn_done sb sc = Some sb' -> datas sb' = datas sb /\ sb_refs sb' = sb_refs sb.
Proof.
  unfold sbalance_conn_done. destruct (_ && _); [|by intros [= <-]].
  destruct (sb_service_ sb !! _) as [s|]; [|done]. cbn [mbind option_bind].
  destruct (tempfailcost s =? 0); [by intros [= <-]|]. apply set_tempfailcost_frame.
Qed.

Lemma sb_nodes_datas sb : sb_nodes sb = sn_node <$> datas sb.
Proof. unfold sb_nodes, datas. by rewrite <- list_fmap_compose. Qed.

(** Services stay; a balancer that lives on has at least its nodes, and no balancer
    comes back under an old number. *)
Definition keeps pool pool' : Prop :=
  (fresh pool <= fresh pool')%nat /\
  (forall name, is_Some (srvs pool !! name) -> is_Some (srvs pool' !! name)) /\
  forall id sb', (id < fresh pool)%nat -> sbs pool' !! id = Some sb' ->
    exists sb, sbs pool !! id = Some sb /\ sb_nodes sb ⊆ sb_nodes sb'.

Lemma keeps_refl pool : keeps pool pool.
Proof. split; [done|]. split; [done|]. intros id sb' _ ->. by exists sb'. Qed.

Lemma keeps_trans p1 p2 p3 : keeps p1 p2 -> keeps p2 p3 -> keeps p1 p3.
Proof.
  intros (F12 & S12 & K12) (F23 & S23 & K23). split; [lia|]. split; [auto|]. intros id sb3 Hid H3.
  destruct (K23 id sb3) as (sb2 & H2 & N23); [lia|done|].
  destruct (K12 id sb2 Hid H2) as (sb1 & H1 & N12). exists sb1. split; [done|]. by etrans.
Qed.

Lemma keeps_sbs pool pool' :
  fresh pool' = fresh pool -> sbs pool' = sbs pool ->
  (forall name, is_Some (srvs pool !! name) -> is_Some (srvs pool' !! name)) -> keeps pool pool'.
Proof. intros Hf Hs Hv. split; [lia|]. split; [done|]. intros id sb'. rewrite Hs. intros _ ->. by exists sb'. Qed.

(** Changing a balancer in place. *)
Lemma keeps_update pool id sb sb' :
  sbs pool !! id = Some sb -> sb_nodes sb ⊆ sb_nodes sb' ->
  keeps pool (set_sbs pool (<[id := sb']> (sbs pool))).
Proof.
  intros Hid Hsub. split; [done|]. split; [done|]. intros id' sb1 _. cbn [set_sbs sbs].
  destruct (decide (id' = id)) as [->|Hne].
  - rewrite lookup_insert_eq. intros [= <-]. by exists sb.
  - rewrite lookup_insert_ne by done. intros ->. by exists sb1.
Qed.

Lemma update_sb_inv conns pool id sb sb' :
  pool_inv conns pool -> sbs pool !! id = Some sb -> datas sb' = datas sb -> sb_refs sb' = sb_refs sb ->
  pool_inv conns (set_sbs pool (<[id := sb']> (sbs pool))) /\ keeps pool (set_sbs pool (<[id := sb']> (sbs pool))).
Proof.
  intros Hinv Hid Hd Hr. assert (sb_nodes sb' = sb_nodes sb) as Hn by by rewrite !sb_nodes_datas, Hd. split.
  - eapply grown_inv; [done|done|]. exists []. rewrite app_nil_r. done.
  - apply (keeps_update pool id sb sb'); [done|]. by rewrite Hn.
Qed.

Lemma release_keeps pool id pool' : release_sb pool id = Some pool' -> keeps pool pool'.
Proof.
  unfold release_sb. destruct (sbs pool !! id) as [sb|] eqn:Hid; [|done]. cbn [mbind option_bind].
  unfold sbalance_release. destruct (1 <? sb_refs sb).
  { intros [= <-]. by apply (keeps_update _ _ sb). }
  assert (forall sns (p p' : fd_pool T), free_nodes p sns = Some p' ->
    fresh p' = fresh p /\ sbs p' = sbs p /\ srvs p' = srvs p) as Hfree.
  { induction sns as [|sn sns IH]; intros p p'; cbn [free_nodes]; [by intros [= <-]|].
    unfold fd_pool_free_node. destruct (list_find _ _) as [[i [k n]]|]; [|done]. cbn [mbind option_bind].
    destruct (0 <? _); cbn [mbind option_bind]; intros (-> & -> & ->)%IH; done. }
  intros (Hf & Hs & Hv)%Hfree. split; [by rewrite Hf|]. split; [by rewrite Hv|]. intros id' sb'. rewrite Hs. cbn [set_sbs sbs].
  intros _ [_ E]%lookup_delete_Some. by exists sb'.
Qed.

Lemma get_service_keeps pool service retries fail temp st t hints srv pool' :
  fd_pool_get_service pool service retries fail temp st t hints = Some (srv, pool') -> keeps pool pool'.
Proof.
  unfold fd_pool_get_service. destruct (fd_pool_find_service pool service); [intros [= <- <-]; apply keeps_refl|].
  destruct (os_insert service (services pool)) as [ss|]; [|done]. intros [= <- <-]. split; cbn [fresh sbs srvs]; [lia|].
  split; [intros name; rewrite lookup_insert_is_Some'; tauto|].
  intros id sb' Hid. rewrite lookup_insert_ne by lia. intros ->. by exists sb'.
Qed.

Lemma grows_keeps pool id sb pool' sb' :
  sbs pool !! id = Some sb -> grows pool sb pool' sb' -> keeps pool (set_sbs pool' (<[id := sb']> (sbs pool'))).
Proof.
  intros Hid (new & En & _ & _ & Hf & Eb & _ & Ev). split; [done|]. split; [cbn; by rewrite Ev|]. intros id' sb1 _. cbn [set_sbs sbs]. rewrite Eb.
  destruct (decide (id' = id)) as [->|Hne].
  - rewrite lookup_insert_eq. intros [= <-]. exists sb. split; [done|]. rewrite En. by apply list_subseteq_app_l.
  - rewrite lookup_insert_ne by done. intros ->. by exists sb1.
Qed.

Lemma with_sb_keeps {R} pool srv f (r : R) pool' :
  (forall sb r p sb', f sb = Some (r, p, sb') -> grows pool sb p sb') ->
  with_sb pool srv f = Some (r, pool') -> keeps pool pool'.
Proof.
  intros Hf. unfold with_sb. destruct (sbs pool !! srv_sb srv) as [sb|] eqn:E; [|done].
  cbn [mbind option_bind]. destruct (f sb) as [[[r1 p1] s1]|] eqn:Ef; [|done]. intros [= <- <-].
  by eapply grows_keeps, Hf.
Qed.

Section Config.
Context (getaddrinfo : list Z -> list Z -> addrinfo_hints -> gai_error + list addrinfo).
Context (realpath : list Z -> option (list Z)).

Lemma config_service_keeps pool service (vtree : option (vtree_chain X)) hints srv pool' :
  config_service pool service vtree hints = Some (srv, pool') -> keeps pool pool'.
Proof.
  unfold config_service. intros H.
  repeat match type of H with
  | mbind _ ?o = Some _ => destruct o; [cbn [mbind option_bind] in H|done]
  end.
  by eapply get_service_keeps.
Qed.

Lemma add_config_keeps pool derived (vtree : option (vtree_chain X)) hints err pool' out :
  fd_pool_add_config getaddrinfo realpath pool derived vtree hints = Some (err, pool', out) -> keeps pool pool'.
Proof.
  unfold fd_pool_add_config. destruct (has_fun vtree); [|intros [= <- <- <-]; apply keeps_refl].
  destruct (vtree_get vtree _) as [name|]; [|done]. cbn [mbind option_bind].
  destruct (config_service pool _ vtree hints) as [[srv p1]|] eqn:E1; [|done]. cbn [mbind option_bind].
  apply config_service_keeps in E1.
  destruct (nserv p1 srv) as [n|]; [|done]. cbn [mbind option_bind].
  destruct (negb (n =? 0)); [by intros [= <- <- <-]|].
  destruct (with_sb p1 srv _) as [[e p2]|] eqn:E2; [|done]. cbn [mbind option_bind].
  apply with_sb_keeps in E2; [|intros *; apply populate_grows].
  pose proof (keeps_trans _ _ _ E1 E2).
  destruct (is_empty p2 srv vtree) as [[]|]; [by intros [= <- <- <-]..|done].
Qed.

Lemma add_ports_keeps pool srv st ports pool' :
  add_ports (X := X) pool srv st ports = Some pool' -> keeps pool pool'.
Proof.
  unfold add_ports. destruct (with_sb pool srv _) as [[[] p1]|] eqn:E; [|done].
  intros [= <-]. eapply with_sb_keeps in E; eauto. intros sb r p sb'.
  destruct (fd_pool_add _ _ _ _ _ _) as [[p2 s2]|] eqn:Ea; [|done]. intros [= <- <- <-]. by eapply add_grows.
Qed.

Lemma add_single_keeps pool service host port retries t hints err pool' :
  fd_pool_add_single (X := X) getaddrinfo pool service host port retries t hints = Some (err, pool') ->
  keeps pool pool'.
Proof.
  unfold fd_pool_add_single. destruct (getaddrinfo _ _ _) as [e|res]; [intros [= <- <-]; apply keeps_refl|].
  destruct (fd_pool_get_service _ _ _ _ _ _ _ _) as [[srv p1]|] eqn:E; [|done]. cbn [mbind option_bind].
  destruct (add_ports p1 srv _ _) as [p2|] eqn:E2; [|done]. cbn [mbind option_bind].
  apply get_service_keeps in E. apply add_ports_keeps in E2. pose proof (keeps_trans _ _ _ E E2).
  destruct (nserv p2 srv); [by intros [= <- <-]|done].
Qed.

Lemma add_unix_keeps pool service path retries t st err pool' :
  fd_pool_add_unix (X := X) realpath pool service path retries t st = Some (err, pool') -> keeps pool pool'.
Proof.
  unfold fd_pool_add_unix.
  destruct (fd_pool_get_service _ _ _ _ _ _ _ _) as [[srv p1]|] eqn:E; [|done]. cbn [mbind option_bind].
  destruct (add_ports p1 srv _ _) as [p2|] eqn:E2; [|done]. intros [= <- <-].
  apply get_service_keeps in E. apply add_ports_keeps in E2. by eapply keeps_trans.
Qed.

Lemma update_hosts_keeps pool service (vtree : option (vtree_chain X)) n pool' :
  fd_pool_update_hosts getaddrinfo realpath pool service vtree = Some (n, pool') -> keeps pool pool'.
Proof.
  unfold fd_pool_update_hosts. destruct vtree as [v|]; [|intros [= <- <-]; apply keeps_refl].
  destruct (fd_pool_find_service pool service) as [srv|]; [|intros [= <- <-]; apply keeps_refl].
  destruct (sbs pool !! srv_sb srv) as [src|]; [|done]. cbn [mbind option_bind].
  destruct (fd_pool_populate_from_vtree _ _ _ _ _ _) as [[[e p1] sb]|] eqn:Ep; [|done]. cbn [mbind option_bind].
  apply populate_grows in Ep as (new & _ & _ & _ & Hf & Eb & Ev & Es). cbn [fresh sbs services srvs] in Hf, Eb, Ev, Es.
  assert (keeps pool (set_sbs p1 (<[fresh pool := sb]> (sbs p1)))) as H1.
  { split; cbn [set_sbs fresh sbs srvs]; [lia|]. split; [by rewrite Es|]. intros id sb' Hid. rewrite lookup_insert_ne, Eb by lia.
    intros ->. by exists sb'. }
  destruct (sb_nserv sb =? 0).
  - destruct (release_sb _ _) as [p2|] eqn:E2; [|done]. intros [= <- <-].
    eapply keeps_trans; [exact H1|]. by eapply release_keeps.
  - cbn [set_sbs services]. destruct (os_lookup service (services p1)) as [name|]; [|done]. cbn [mbind option_bind].
    destruct (release_sb _ _) as [p2|] eqn:E2; [|done]. intros [= <- <-].
    apply release_keeps in E2. eapply keeps_trans; [exact H1|]. eapply keeps_trans; [|exact E2].
    apply keeps_sbs; [done..|]. intros k. cbn. rewrite lookup_insert_is_Some'. tauto.
Qed.

End Config.

Lemma cycle_last_keeps pool service cl : keeps pool (fd_pool_set_cycle_last pool service cl).
Proof.
  unfold fd_pool_set_cycle_last. destruct (os_lookup service (services pool)) as [name|]; [|apply keeps_refl].
  destruct (srvs pool !! name); [|apply keeps_refl].
  apply keeps_sbs; [done..|]. intros k. cbn. rewrite lookup_insert_is_Some'. tauto.
Qed.

(** ** Connections *)

(** The node that a connection is at belongs to its balancer. *)
Definition conn_inv pool conn : Prop :=
  forall sn, c_sn conn = Some sn ->
    exists id sb, c_sb conn = Some id /\ sbs pool !! id = Some sb /\ sn_node sn ∈ sb_nodes sb.

(** What a step of one connection does to the pool; [others] are the balancers of
    the other connections. *)
Definition conn_step (others : list nat) pool pool' conn' : Prop :=
  pool_inv (option_list (c_sb conn') ++ others) pool' /\ keeps pool pool' /\ conn_inv pool' conn'.

Lemma find_node_lookup pool id i n :
  find_node pool id = Some (i, n) -> all_nodes pool !! i = Some (id, n).
Proof.
  unfold find_node. destruct (list_find _ _) as [[j [id' m]]|] eqn:E; [|done]. intros [= <- <-].
  apply list_find_Some in E as (Hi & <- & _). done.
Qed.

Lemma close_inv conns pool fds : pool_inv conns (close_fds pool fds) <-> pool_inv conns pool.
Proof. split; intros [[] ? ?]; by split. Qed.

Lemma set_port_inv conns pool id i n j p fds :
  pool_inv conns pool -> find_node pool id = Some (i, n) ->
  pool_inv conns (close_fds (set_port pool i id n j p) fds).
Proof.
  intros [[Hn Hf Hr Hl] Hok Hs] Hi%find_node_lookup. split; [|done|done]. split; [|done|done|done].
  cbn [close_fds set_port set_nodes all_nodes fresh sbs].
  pose proof (no_refs _ _ _ Hn id n ltac:(by eapply list_elem_of_lookup_2)) as Hrefs.
  eapply nodes_ok_update; [exact Hn|exact Hi|done| |done].
  apply cnt_pos, (no_used _ _ _ Hn), list_elem_of_fmap. exists (id, n).
  split; [done|by eapply list_elem_of_lookup_2].
Qed.

Lemma move_port_frame pool conn b conn' :
  fd_pool_move_port pool conn = Some (b, conn') ->
  c_sn conn' = c_sn conn /\ c_sb conn' = c_sb conn /\ c_service conn' = c_service conn.
Proof.
  unfold fd_pool_move_port. destruct (c_sn conn) as [sn|] eqn:E; [|done]. cbn [mbind option_bind].
  destruct (find_node _ _) as [[i n]|]; [|done]. cbn [mbind option_bind].
  destruct (move_port_loop _ _ _ _) as [[[f pk] port]|]; [|done]. by intros [= <- <-].
Qed.

Lemma move_node_step fuel : forall others pool conn st rnds pool' conn' rnds',
  pool_inv (option_list (c_sb conn) ++ others) pool ->
  move_node_loop fuel pool conn st rnds = Some (pool', conn', rnds') ->
  conn_step others pool pool' conn' /\ c_sb conn' = c_sb conn /\ srvs pool' = srvs pool.
Proof.
  induction fuel as [|fuel IH]; intros others pool conn st rnds pool' conn' rnds' Hinv; cbn [move_node_loop]; [done|].
  destruct (c_sb conn) as [id|] eqn:Eid; [|done]. cbn [mbind option_bind].
  destruct (sbs pool !! id) as [sb|] eqn:Esb; [|done]. cbn [mbind option_bind].
  destruct (sbalance_conn_next sb (c_sc conn) st (hd 0 rnds)) as [[[sb1 sc1] d]|] eqn:En; [|done]. cbn [mbind option_bind].
  destruct (conn_next_frame _ _ _ _ _ _ _ En) as (Hd & Hr & Hin).
  destruct (update_sb_inv _ pool id sb sb1 Hinv Esb Hd Hr) as [Hinv1 Hk1].
  set (p1 := set_sbs pool _) in *.
  assert (forall c st, c_sb c = Some id ->
    move_node_loop fuel p1 c st (tl rnds) = Some (pool', conn', rnds') ->
    conn_step others pool pool' conn' /\ c_sb conn' = Some id /\ srvs pool' = srvs pool) as Hrec.
  { intros c st' Hc H. apply (IH others) in H; [|by rewrite Hc]. destruct H as [(H1 & H2 & H3) [H4 H5]].
    split; [|by rewrite H4, H5]. split; [done|]. split; [by eapply keeps_trans|done]. }
  destruct d as [sn|].
  - destruct (passes_filter _ sn) as [[]|]; [| |done]; cbn [mbind option_bind]; [|by apply Hrec].
    destruct (fd_pool_move_port p1 _) as [[found c2]|] eqn:Em; [|done]. cbn [mbind option_bind].
    apply move_port_frame in Em as (Hsn & Hsb & _). destruct found; [|apply Hrec; by rewrite Hsb].
    intros [= <- <- <-]. rewrite Hsb. split; [|done]. split; [by rewrite Hsb|]. split; [done|].
    intros sn'. rewrite Hsn. cbn. intros [= <-]. exists id, sb1. rewrite Hsb. split; [done|].
    split; [subst p1; cbn; by rewrite lookup_insert_eq|]. rewrite sb_nodes_datas, Hd.
    apply list_elem_of_fmap. exists sn. auto.
  - intros [= <- <- <-]. split; [|done]. split; [done|]. done.
Qed.

Lemma next_place_step others pool conn st rnds pool' conn' rnds' :
  pool_inv (option_list (c_sb conn) ++ others) pool -> conn_inv pool conn ->
  next_place pool conn st rnds = Some (pool', conn', rnds') ->
  conn_step others pool pool' conn' /\ c_sb conn' = c_sb conn /\ srvs pool' = srvs pool.
Proof.
  intros Hinv Hconn. unfold next_place, fd_pool_move_node.
  assert (forall c, c_sn c = c_sn conn -> c_sb c = c_sb conn -> conn_step others pool pool c) as Hsame.
  { intros c Hsn Hsb. split; [by rewrite Hsb|]. split; [apply keeps_refl|]. intros sn. rewrite Hsn, Hsb. apply Hconn. }
  destruct (c_sn conn) as [sn|] eqn:Esn; [|by apply move_node_step].
  destruct (c_entry conn); [intros [= <- <- <-]; by split; [apply Hsame|]|].
  destruct (fd_pool_move_port pool conn) as [[found c]|] eqn:Em; [|done]. cbn [mbind option_bind].
  apply move_port_frame in Em as (Hsn & Hsb & _). rewrite Esn in Hsn. destruct found.
  - intros [= <- <- <-]. split; [by apply Hsame|by rewrite Hsb].
  - intros H. rewrite <- Hsb. eapply move_node_step; [|exact H]. by rewrite Hsb.
Qed.

Lemma get_loop_step alive outcomes : forall others pool conn st rnds trace g,
  pool_inv (option_list (c_sb conn) ++ others) pool -> conn_inv pool conn ->
  get_loop alive outcomes pool conn st rnds trace = Some g ->
  conn_step others pool (got_pool g) (got_conn g) /\ srvs (got_pool g) = srvs pool.
Proof.
  induction outcomes as [|o outcomes IH]; intros others pool conn st rnds trace g Hinv Hconn; cbn [get_loop];
    (destruct (next_place pool conn st rnds) as [[[p1 c1] rnds1]|] eqn:En; [|done]); cbn [mbind option_bind];
    (destruct (next_place_step others _ _ _ _ _ _ _ Hinv Hconn En) as [(H1 & K1 & N1) [S1 V1]]);
    (destruct (c_port c1) as [j|]; [|by intros [= <-]]);
    (destruct (c_sn c1) as [sn|] eqn:Esn; [|done]); cbn [mbind option_bind];
    (destruct (find_node p1 _) as [[i n]|] eqn:Ef; [|done]); cbn [mbind option_bind];
    (destruct (nd_ports n !! j) as [p|]; [|done]); cbn [mbind option_bind];
    (destruct (pop_idle alive (entries p)) as [[dead rest] idle]);
    set (p2 := close_fds _ dead);
    assert (pool_inv (option_list (c_sb c1) ++ others) p2) as H2 by (by apply set_port_inv);
    assert (keeps pool p2) as K2 by (eapply keeps_trans; [exact K1|by apply keeps_sbs]);
    assert (forall e a, conn_inv p2 (set_entry c1 e a)) as N2
      by (intros e a sn' Hsn'; exact (N1 sn' Hsn')).
  - destruct idle; [|done]. intros [= <-]. by split.
  - destruct idle; [intros [= <-]; by split|]. destruct o as [fd|]; [intros [= <-]; by split|].
    intros H. apply (IH others) in H; [|done..]. destruct H as [(H3 & K3 & N3) V3].
    split; [|by rewrite V3]. split; [done|]. split; [by eapply keeps_trans|done].
Qed.

(** The counters of references are 32 bits wide. *)
Definition few (conns : list nat) pool : Prop :=
  Z.of_nat (length (owners_of (srvs pool) ++ conns)) < 2147483647.

Lemma retain_inv conns pool id sb :
  pool_inv conns pool -> few conns pool -> sbs pool !! id = Some sb ->
  let pool' := set_sbs pool (<[id := sbalance_retain sb]> (sbs pool)) in
  pool_inv (id :: conns) pool' /\ keeps pool pool'.
Proof.
  intros [[Hn Hf Hr Hl] Hok Hs] Hfew Hid pool'. split; [|by apply (keeps_update _ _ sb)].
  assert (sb_refs (sbalance_retain sb) = Z.of_nat (S (cnt id (owners_of (srvs pool) ++ conns)))) as Href.
  { cbn. rewrite (Hr id sb Hid). pose proof (cnt_length id (owners_of (srvs pool) ++ conns)). unfold few in Hfew.
    rewrite swrap_small; cbn; lia. }
  split; [|done|done]. eapply heap_ok_perm; [apply Permutation_middle|]. change (srvs pool') with (srvs pool).
  split; cbn [set_sbs sbs all_nodes fresh pool'].
  - eapply nodes_ok_perm; [|exact Hn]. by rewrite refs_of_insert, (refs_of_lookup _ _ _ Hid).
  - intros id'. destruct (decide (id' = id)) as [->|Hne]; [intros _; apply Hf; by eexists|].
    rewrite lookup_insert_ne by done. apply Hf.
  - intros id' sb'. rewrite cnt_cons. destruct (decide (id' = id)) as [->|Hne].
    + rewrite lookup_insert_eq. intros [= <-]. rewrite Href, decide_True by done. done.
    + rewrite lookup_insert_ne, decide_False by done. apply Hr.
  - intros id'. rewrite elem_of_cons, Hl. destruct (decide (id' = id)) as [->|Hne].
    + rewrite lookup_insert_eq, Hid. split; intros _; [by eexists|by left].
    + rewrite lookup_insert_ne by done. split; [by intros [->|?]|by right].
Qed.

Lemma leave_inv others pool conn st pool' :
  pool_inv (option_list (c_sb conn) ++ others) pool -> leave pool conn st = Some pool' ->
  pool_inv others pool' /\ keeps pool pool' /\ srvs pool' = srvs pool.
Proof.
  unfold leave. destruct (c_sb conn) as [old|]; cbn [option_list app]; intros Hinv; [|intros [= <-]; by split; [|split; [apply keeps_refl|]]].
  destruct (sbs pool !! old) as [sb|] eqn:Hid; [|done]. cbn [mbind option_bind].
  set (done_ := if is_start st then _ else _). destruct done_ as [sb1|] eqn:E; [|done]. cbn [mbind option_bind].
  assert (datas sb1 = datas sb /\ sb_refs sb1 = sb_refs sb) as [Hd Hr].
  { subst done_. destruct (is_start st); [by eapply conn_done_frame|by injection E as <-]. }
  destruct (update_sb_inv _ _ _ _ _ Hinv Hid Hd Hr) as [H1 K1].
  destruct (release_inv _ _ _ H1) as (p' & Ep & H2 & V2). rewrite Ep. intros [= <-].
  split; [done|]. split; [|done]. eapply keeps_trans; [exact K1|by eapply release_keeps].
Qed.

Lemma restart_step others pool conn name srv st rnd pool' conn' :
  pool_inv (option_list (c_sb conn) ++ others) pool -> few others pool ->
  srvs pool !! name = Some srv -> restart pool conn srv st rnd = Some (pool', conn') ->
  conn_step others pool pool' conn' /\ srvs pool' = srvs pool.
Proof.
  intros Hinv Hfew Hsrv. unfold restart. destruct (leave pool conn st) as [p1|] eqn:El; [|done]. cbn [mbind option_bind].
  destruct (leave_inv _ _ _ _ _ Hinv El) as (H1 & K1 & V1).
  destruct (sbs p1 !! srv_sb srv) as [sb|] eqn:Hid; [|done]. cbn [mbind option_bind sbalance_conn_new].
  intros [= <- <-]. destruct (retain_inv others p1 (srv_sb srv) sb) as [H2 K2]; [done| |done|].
  { unfold few. by rewrite V1. }
  split; [|done]. split; [done|]. split; [by eapply keeps_trans|done].
Qed.

Lemma get_step others alive outcomes pool conn st rnds g :
  pool_inv (option_list (c_sb conn) ++ others) pool -> few others pool -> conn_inv pool conn ->
  fd_pool_get alive outcomes pool conn st rnds = Some g ->
  conn_step others pool (got_pool g) (got_conn g) /\ srvs (got_pool g) = srvs pool.
Proof.
  intros Hinv Hfew Hconn. unfold fd_pool_get. set (c := set_entry conn (c_entry conn) false).
  change (c_service c) with (c_service conn). destruct (c_service conn) as [name|].
  2:{ intros [= <-]. split; [|done]. split; [done|]. split; [apply keeps_refl|exact Hconn]. }
  destruct (srvs pool !! name) as [srv|] eqn:Hsrv; [|done]. cbn [mbind option_bind].
  destruct (is_start st || _); cbn [mbind option_bind]; [|by apply get_loop_step].
  destruct (restart pool c srv st _) as [[p1 c1]|] eqn:Er; [|done]. cbn [mbind option_bind].
  destruct (restart_step others pool c _ _ _ _ _ _ Hinv Hfew Hsrv Er) as [(H1 & K1 & N1) V1].
  intros Hg. destruct (get_loop_step _ _ _ _ _ _ _ _ _ H1 N1 Hg) as [(H2 & K2 & N2) V2].
  split; [|by rewrite V2]. split; [done|]. split; [by eapply keeps_trans|done].
Qed.

Lemma put_step others over pool conn fd pool' conn' :
  pool_inv (option_list (c_sb conn) ++ others) pool -> conn_inv pool conn ->
  fd_pool_put over pool conn fd = Some (pool', conn') ->
  conn_step others pool pool' conn' /\ srvs pool' = srvs pool.
Proof.
  intros Hinv Hconn. unfold fd_pool_put. destruct (over fd).
  { intros [= <- <-]. split; [|done]. split; [by apply close_inv|split; [by apply keeps_sbs|exact Hconn]]. }
  destruct (c_service conn) as [name|]; [|done]. cbn [mbind option_bind].
  destruct (srvs pool !! name) as [srv|] eqn:Hsrv; [|done]. cbn [mbind option_bind].
  destruct (c_sn conn) as [sn|] eqn:Esn; [|done]. cbn [mbind option_bind].
  destruct (find_node pool _) as [[i n]|] eqn:Ef; [|done]. cbn [mbind option_bind].
  destruct (c_port conn) as [j|]; [|done]. cbn [mbind option_bind].
  destruct (nd_ports n !! j) as [p|]; [|done]. cbn [mbind option_bind].
  destruct (put_entry _ p fd) as [p'|]; [|done]. cbn [mbind option_bind]. intros [= <- <-].
  split; [|done]. split; [|split; [by apply keeps_sbs|exact Hconn]].
  by apply (close_inv _ _ []), set_port_inv.
Qed.

(** Freeing a connection succeeds if its last node is still in range. *)
Lemma free_conn_inv others pool conn pool' :
  pool_inv (option_list (c_sb conn) ++ others) pool -> fd_pool_free_conn pool conn = Some pool' ->
  pool_inv others pool' /\ keeps pool pool' /\ srvs pool' = srvs pool.
Proof. intros Hinv. exact (leave_inv others pool conn SBCS_START pool' Hinv). Qed.

Lemma writev_step fuel : forall others writes alive outcomes pool conn fd failed rnds fd' pool' conn',
  pool_inv (option_list (c_sb conn) ++ others) pool -> few others pool -> conn_inv pool conn ->
  conn_writev fuel writes alive outcomes pool conn fd failed rnds = Some (fd', pool', conn') ->
  conn_step others pool pool' conn' /\ srvs pool' = srvs pool.
Proof.
  induction fuel as [|fuel IH]; intros others writes alive outcomes pool conn fd failed rnds fd' pool' conn' Hinv Hfew Hconn;
    cbn [conn_writev]; [done|].
  set (next := match fd with Some _ => _ | None => _ end).
  destruct next as [[[[[fd1 p1] c1] o1] r1]|] eqn:En; [|done]. cbn [mbind option_bind].
  assert (conn_step others pool p1 c1 /\ srvs p1 = srvs pool) as [(H1 & K1 & N1) V1].
  { subst next. destruct fd as [fd|]; [destruct failed|].
    - destruct (fd_pool_get _ _ _ _ _ _) as [g|] eqn:Eg; [|done]. injection En as <- <- <- <- <-.
      by eapply (get_step others) in Eg; [|by apply close_inv|..].
    - injection En as <- <- <- <- <-. split; [|done]. split; [done|]. split; [apply keeps_refl|done].
    - destruct (fd_pool_get _ _ _ _ _ _) as [g|] eqn:Eg; [|done]. injection En as <- <- <- <- <-.
      by eapply (get_step others) in Eg. }
  destruct fd1 as [s|]; [|by intros [= <- <- <-]]. destruct (writes s); [by intros [= <- <- <-]|].
  intros H. apply (IH others) in H; [|done| |done]; [|unfold few; by rewrite V1].
  destruct H as [(H2 & K2 & N2) V2]. split; [|by rewrite V2]. split; [done|]. split; [by eapply keeps_trans|done].
Qed.

(** No operation changes the service of a connection. *)
Lemma move_node_service fuel : forall pool conn st rnds pool' conn' rnds',
  move_node_loop fuel pool conn st rnds = Some (pool', conn', rnds') -> c_service conn' = c_service conn.
Proof.
  induction fuel as [|fuel IH]; intros pool conn st rnds pool' conn' rnds'; cbn [move_node_loop]; [done|].
  destruct (c_sb conn) as [id|]; [|done]. cbn [mbind option_bind].
  destruct (sbs pool !! id) as [sb|]; [|done]. cbn [mbind option_bind].
  destruct (sbalance_conn_next _ _ _ _) as [[[sb1 sc1] [sn|]]|]; [| |done]; cbn [mbind option_bind]; [|by intros [= <- <- <-]].
  destruct (passes_filter _ sn) as [[]|]; [| |done]; cbn [mbind option_bind]; [|by intros H%IH].
  destruct (fd_pool_move_port _ _) as [[[] c2]|] eqn:Em; [| |done]; cbn [mbind option_bind];
    apply move_port_frame in Em as (_ & _ & Hs); [by intros [= <- <- <-]|].
  intros ->%IH. exact Hs.
Qed.

Lemma get_loop_service alive outcomes : forall pool conn st rnds trace g,
  get_loop alive outcomes pool conn st rnds trace = Some g -> c_service (got_conn g) = c_service conn.
Proof.
  induction outcomes as [|o outcomes IH]; intros pool conn st rnds trace g; cbn [get_loop];
    (destruct (next_place pool conn st rnds) as [[[p1 c1] rnds1]|] eqn:En; [|done]); cbn [mbind option_bind];
    assert (c_service c1 = c_service conn) as <-
      by (revert En; unfold next_place, fd_pool_move_node; destruct (c_sn conn); [|by apply move_node_service];
          destruct (c_entry conn); [by intros [= <- <- <-]|];
          destruct (fd_pool_move_port pool conn) as [[[] c]|] eqn:Em; [| |done];
          apply move_port_frame in Em as (_ & _ & <-); [by intros [= <- <- <-]|apply move_node_service]);
    (destruct (c_port c1) as [j|]; [|by intros [= <-]]);
    (destruct (c_sn c1) as [sn|]; [|done]); cbn [mbind option_bind];
    (destruct (find_node p1 _) as [[i n]|]; [|done]); cbn [mbind option_bind];
    (destruct (nd_ports n !! j) as [p|]; [|done]); cbn [mbind option_bind];
    (destruct (pop_idle alive (entries p)) as [[dead rest] [fd|]]; [by intros [= <-]|]); [done|].
  destruct o as [fd|]; [by intros [= <-]|by intros H%IH].
Qed.

Lemma get_keeps_service alive outcomes pool conn st rnds g :
  fd_pool_get alive outcomes pool conn st rnds = Some g -> c_service (got_conn g) = c_service conn.
Proof.
  unfold fd_pool_get. set (c := set_entry conn (c_entry conn) false).
  change (c_service c) with (c_service conn). destruct (c_service conn) as [name|] eqn:E; [|by intros [= <-]].
  destruct (srvs pool !! name) as [srv|]; [|done]. cbn [mbind option_bind].
  destruct (is_start st || _); cbn [mbind option_bind]; [|by intros ->%get_loop_service].
  unfold restart. destruct (leave pool c st) as [p1|]; [|done]. cbn [mbind option_bind].
  destruct (sbs p1 !! srv_sb srv) as [sb|]; [|done]. cbn [mbind option_bind sbalance_conn_new].
  by intros ->%get_loop_service.
Qed.

Lemma writev_service fuel : forall writes alive outcomes pool conn fd failed rnds fd' pool' conn',
  conn_writev fuel writes alive outcomes pool conn fd failed rnds = Some (fd', pool', conn') ->
  c_service conn' = c_service conn.
Proof.
  induction fuel as [|fuel IH]; intros writes alive outcomes pool conn fd failed rnds fd' pool' conn'; cbn [conn_writev]; [done|].
  set (next := match fd with Some _ => _ | None => _ end).
  destruct next as [[[[[fd1 p1] c1] o1] r1]|] eqn:En; [|done]. cbn [mbind option_bind].
  assert (c_service c1 = c_service conn) as <-.
  { subst next. destruct fd as [fd|]; [destruct failed|]; [|by injection En as <- <- <- <- <-|];
      (destruct (fd_pool_get _ _ _ _ _ _) as [g|] eqn:Eg; [|done]); injection En as <- <- <- <- <-;
      by eapply get_keeps_service. }
  destruct fd1 as [s|]; [|by intros [= <- <- <-]]. destruct (writes s); [by intros [= <- <- <-]|apply IH].
Qed.
End Lifetimes.

(** ** All uses of a pool *)

Section Uses.
Context {T : Type} `{!OrderedSet lexcmp T} {X : Type} `{!VtreeBackend X}.
Context {C F G : Type} `{!Cycler C, !Drand F G}.
Implicit Types (pool : fd_pool T) (conn : fd_pool_conn C) (vtree upmap : option (vtree_chain X)).
Implicit Types (getaddrinfo : list Z -> list Z -> addrinfo_hints -> gai_error + list addrinfo).
Implicit Types (realpath : list Z -> option (list Z)).

Definition references (conns : list (fd_pool_conn C)) : list nat := omap c_sb conns.

(** A new pool with its first service. *)
Inductive pool_created : fd_pool T -> Prop :=
  | created_new : pool_created fd_pool_new
  | created_config getaddrinfo realpath service vtree hints pool :
      fd_pool_create getaddrinfo realpath service vtree hints = Some (Some pool) -> pool_created pool
  | created_single getaddrinfo service host port retries t hints pool :
      fd_pool_create_single (X := X) getaddrinfo service host port retries t hints = Some (Some pool) ->
      pool_created pool
  | created_unix realpath service path retries t st pool :
      fd_pool_create_unix (X := X) realpath service path retries t st = Some pool -> pool_created pool.

(** The configuration of a pool changes. *)
Inductive pool_configured : fd_pool T -> fd_pool T -> Prop :=
  | add_configured getaddrinfo realpath pool derived vtree hints err pool' out :
      fd_pool_add_config getaddrinfo realpath pool derived vtree hints = Some (err, pool', out) ->
      pool_configured pool pool'
  | add_single getaddrinfo pool service host port retries t hints err pool' :
      fd_pool_add_single (X := X) getaddrinfo pool service host port retries t hints = Some (err, pool') ->
      pool_configured pool pool'
  | add_unix realpath pool service path retries t st err pool' :
      fd_pool_add_unix (X := X) realpath pool service path retries t st = Some (err, pool') ->
      pool_configured pool pool'
  | updated_hosts getaddrinfo realpath pool service vtree n pool' :
      fd_pool_update_hosts getaddrinfo realpath pool service vtree = Some (n, pool') -> pool_configured pool pool'
  | cycled_last pool service cl : pool_configured pool (fd_pool_set_cycle_last pool service cl).

(** A connection is used; [others] is the number of balancers that the other
    connections refer to, the counters of references being 32 bits wide. *)
Inductive conn_used (others : list nat) : fd_pool T -> fd_pool_conn C -> fd_pool T -> fd_pool_conn C -> Prop :=
  | used_get alive outcomes pool conn st rnds g :
      few others pool -> fd_pool_get alive outcomes pool conn st rnds = Some g ->
      conn_used others pool conn (got_pool g) (got_conn g)
  | used_put over pool conn fd pool' conn' :
      fd_pool_put over pool conn fd = Some (pool', conn') -> conn_used others pool conn pool' conn'
  | used_writev fuel writes alive outcomes pool conn fd failed rnds fd' pool' conn' :
      few others pool ->
      conn_writev fuel writes alive outcomes pool conn fd failed rnds = Some (fd', pool', conn') ->
      conn_used others pool conn pool' conn'
  | used_port_key upmap pool conn key conn' :
      fd_pool_set_port_key upmap conn key = Some conn' -> conn_used others pool conn pool conn'
  | used_node_key pool conn key : conn_used others pool conn pool (fd_pool_set_node_key conn key).

(** A pool and its connections after any sequence of calls. *)
Inductive reach : fd_pool T -> list (fd_pool_conn C) -> Prop :=
  | reach_created pool : pool_created pool -> reach pool []
  | reach_configured pool pool' conns : reach pool conns -> pool_configured pool pool' -> reach pool' conns
  | reach_new_conn zero upmap pool conns service key remote_addr conn :
      reach pool conns -> fd_pool_new_conn zero upmap pool service key remote_addr = Some conn ->
      reach pool (conn :: conns)
  | reach_used pool l conn r pool' conn' :
      reach pool (l ++ conn :: r) -> conn_used (references (l ++ r)) pool conn pool' conn' ->
      reach pool' (l ++ conn' :: r)
  | reach_free_conn pool l conn r pool' :
      reach pool (l ++ conn :: r) -> fd_pool_free_conn pool conn = Some pool' -> reach pool' (l ++ r).

Definition conn_ok pool conn : Prop :=
  conn_inv pool conn /\ (forall name, c_service conn = Some name -> is_Some (srvs pool !! name)).

Definition uses_inv pool (conns : list (fd_pool_conn C)) : Prop :=
  pool_inv (references conns) pool /\ Forall (conn_ok pool) conns.

Lemma created_inv pool : pool_created pool -> pool_inv [] pool.
Proof.
  destruct 1; [apply new_inv|by eapply create_inv|by eapply create_single_inv|by eapply create_unix_inv].
Qed.

Lemma configured_inv conns pool pool' :
  pool_inv conns pool -> pool_configured pool pool' -> pool_inv conns pool' /\ keeps pool pool'.
Proof.
  destruct 2; split.
  - by eapply add_config_inv.
  - by eapply add_config_keeps.
  - by eapply add_single_inv.
  - by eapply add_single_keeps.
  - by eapply add_unix_inv.
  - by eapply add_unix_keeps.
  - by eapply update_hosts_inv.
  - by eapply update_hosts_keeps.
  - by apply cycle_last_inv.
  - apply cycle_last_keeps.
Qed.

Lemma used_inv others pool conn pool' conn' :
  pool_inv (option_list (c_sb conn) ++ others) pool -> conn_inv pool conn ->
  conn_used others pool conn pool' conn' ->
  conn_step others pool pool' conn' /\ c_service conn' = c_service conn.
Proof.
  intros Hinv Hconn Hu. destruct Hu as [? ? ? ? ? ? ? ? Hg|? ? ? ? ? ? Hp|? ? ? ? ? ? ? ? ? ? ? ? ? Hw|? ? ? ? ? Hk|].
  - split; [by eapply (get_step others) in Hg as [? _]|by eapply get_keeps_service].
  - split; [by eapply put_step in Hp as [? _]|]. revert Hp. unfold fd_pool_put.
    destruct (over fd); [by intros [= _ <-]|].
    destruct (c_service conn) as [name|] eqn:Es; [|done]. cbn [mbind option_bind].
    destruct (srvs pool !! name); [|done]. cbn [mbind option_bind].
    destruct (c_sn conn); [|done]. cbn [mbind option_bind].
    destruct (find_node _ _) as [[]|]; [|done]. cbn [mbind option_bind].
    destruct (c_port conn); [|done]. cbn [mbind option_bind].
    destruct (nd_ports _ !! _); [|done]. cbn [mbind option_bind].
    destruct (put_entry _ _ _); [|done]. by intros [= _ <-].
  - split; [by eapply (writev_step _ others) in Hw as [? _]|by eapply writev_service].
  - unfold fd_pool_set_port_key in Hk. destruct (fd_pool_upmap_lookup _ _); [|done]. injection Hk as <-.
    split; [|done]. split; [done|]. split; [apply keeps_refl|exact Hconn].
  - split; [|done]. split; [done|]. split; [apply keeps_refl|exact Hconn].
Qed.

(** A connection that keeps its balancer is not affected by changes of the pool. *)
Lemma conn_ok_keeps conns conns' pool pool' conn :
  pool_inv conns pool -> pool_inv conns' pool' -> keeps pool pool' ->
  (forall id, c_sb conn = Some id -> id ∈ conns /\ id ∈ conns') -> conn_ok pool conn -> conn_ok pool' conn.
Proof.
  intros [Hh _ _] [Hh' _ _] (Hf & Hv & Hk) Hid [Hc Hs]. split; [|auto].
  intros sn Hsn. destruct (Hc sn Hsn) as (id & sb & Eid & Hsb & Hin). destruct (Hid id Eid) as [H1 H2].
  assert (id ∈ owners_of (srvs pool') ++ conns') as [sb' Hsb']%(hp_live _ _ Hh') by (apply elem_of_app; by right).
  assert (id < fresh pool)%nat as Hlt by (apply (hp_fresh _ _ Hh); by eexists).
  destruct (Hk id sb' Hlt Hsb') as (sb0 & E0 & Hsub). rewrite Hsb in E0. injection E0 as <-.
  exists id, sb'. auto.
Qed.

Lemma references_elem conns conn id : conn ∈ conns -> c_sb conn = Some id -> id ∈ references conns.
Proof. intros Hc Hid. apply list_elem_of_omap. eauto. Qed.

Lemma references_middle l conn r :
  references (l ++ conn :: r) ≡ₚ option_list (c_sb conn) ++ references (l ++ r).
Proof.
  unfold references. rewrite !omap_app. cbn. destruct (c_sb conn); cbn; [|done]. by rewrite Permutation_middle.
Qed.

Lemma pool_inv_perm l k pool : l ≡ₚ k -> pool_inv l pool -> pool_inv k pool.
Proof. intros Hp [Hh ? ?]. split; [|done|done]. eapply heap_ok_perm; [|exact Hh]. by rewrite Hp. Qed.

Lemma reach_inv pool conns : reach pool conns -> uses_inv pool conns.
Proof.
  induction 1 as [pool Hc|pool pool' conns _ [Hi Hf] Hp|zero upmap pool conns service key remote conn _ [Hi Hf] Hn
    |pool l conn r pool' conn' _ [Hi Hf] Hu|pool l conn r pool' _ [Hi Hf] Hd].
  - split; [by apply created_inv|done].
  - destruct (configured_inv _ _ _ Hi Hp) as [Hi' Hk]. split; [done|]. rewrite list.Forall_forall in Hf |- *.
    intros c Hc. eapply conn_ok_keeps; [exact Hi|exact Hi'|done| |by apply Hf].
    intros id Hid. split; by eapply references_elem.
  - unfold fd_pool_new_conn in Hn. destruct (fd_pool_upmap_lookup _ _) as [k|]; [|done]. injection Hn as <-.
    split; [done|]. constructor; [|done]. split; [done|]. cbn. rewrite (find_service_spec (references conns)) by done.
    intros name. destruct (srvs pool !! service) eqn:E; [|done]. intros [= <-]. by rewrite E.
  - apply Forall_app in Hf as [Hl [[Hc Hs] Hr]%list.Forall_cons].
    eapply pool_inv_perm in Hi; [|apply references_middle].
    destruct (used_inv _ _ _ _ _ Hi Hc Hu) as [(Hi' & Hk & Hc') Hs']. split.
    { eapply pool_inv_perm; [|exact Hi']. by rewrite references_middle. }
    assert (Forall (conn_ok pool') (l ++ r)) as Hlr.
    { assert (Forall (conn_ok pool) (l ++ r)) as Hlr by by apply Forall_app. rewrite list.Forall_forall in Hlr |- *.
      intros c Hin. eapply conn_ok_keeps; [exact Hi|exact Hi'|done| |by apply Hlr].
      intros id Hid. split; apply elem_of_app; right; by eapply references_elem. }
    apply Forall_app in Hlr as [Hl' Hr']. apply Forall_app. split; [done|]. constructor; [|done].
    split; [done|]. rewrite Hs'. intros name Hname. apply Hk. auto.
  - apply Forall_app in Hf as [Hl [_ Hr]%list.Forall_cons].
    eapply pool_inv_perm in Hi; [|apply references_middle].
    destruct (free_conn_inv _ _ _ _ Hi Hd) as (Hi' & Hk & _). split; [done|].
    assert (Forall (conn_ok pool) (l ++ r)) as Hlr by by apply Forall_app. rewrite list.Forall_forall in Hlr |- *.
    intros c Hin. eapply conn_ok_keeps; [exact Hi|exact Hi'|done| |by apply Hlr].
    intros id Hid. split; [apply elem_of_app; right|]; by eapply references_elem.
Qed.

(** C18: However a pool is created, configured, reconfigured and used by any number
    of connections, the counters are exact: each balancer's is the number of services
    and connections that refer to it, each node's the number of times it is in a
    balancer, and no other balancer or node exists.  A connection never dangles: its
    service and its balancer exist, its current node is found, and freeing it or
    moving it to the balancer of its service can only fail in reporting the result of
    the last node.  Without connections freeing the pool succeeds, its assertion that
    no nodes are left included. *)
Theorem fd_pool_lifetimes pool conns :
  reach pool conns ->
  pool_inv (references conns) pool /\
  (forall conn, conn ∈ conns ->
    (forall name, c_service conn = Some name -> is_Some (srvs pool !! name)) /\
    (forall id, c_sb conn = Some id -> exists sb, sbs pool !! id = Some sb /\
      forall sb', sbalance_conn_done sb (c_sc conn) = Some sb' -> is_Some (fd_pool_free_conn pool conn)) /\
    (forall sn, c_sn conn = Some sn -> is_Some (find_node pool (sn_node sn)))) /\
  (conns = [] -> Z.of_nat (length (os_elems (services pool))) < 2 ^ 32 -> is_Some (fd_pool_free pool)).
Proof.
  intros [Hi Hf]%reach_inv. split; [done|]. split; [|intros ->; by apply free_ok].
  intros conn Hin. rewrite list.Forall_forall in Hf. destruct (Hf conn Hin) as [Hc Hs]. split; [done|]. split.
  - intros id Hid. pose proof (references_elem _ _ _ Hin Hid) as Hr.
    destruct (proj1 (hp_live _ _ (pi_heap _ _ Hi) id)) as [sb Hsb]; [apply elem_of_app; by right|].
    exists sb. split; [done|]. intros sb' Hd. unfold fd_pool_free_conn. rewrite Hid, Hsb. cbn [mbind option_bind].
    rewrite Hd. cbn [mbind option_bind]. destruct (conn_done_frame _ _ _ Hd) as [Hd1 Hd2].
    apply list_elem_of_split in Hin as (l & r & ->).
    eapply pool_inv_perm in Hi; [|apply references_middle]. rewrite Hid in Hi.
    destruct (update_sb_inv _ _ _ _ _ Hi Hsb Hd1 Hd2) as [Hi' _].
    destruct (release_inv _ _ _ Hi') as (p' & -> & _). by eexists.
  - intros sn Hsn. destruct (Hc sn Hsn) as (id & sb & _ & Hsb & Hnode). unfold find_node.
    destruct (nodes_ok_find _ _ _ (sn_node sn) (hp_nodes _ _ (pi_heap _ _ Hi))) as (i & n & -> & _); [|by eexists].
    rewrite (refs_of_lookup _ _ _ Hsb). apply elem_of_app. by left.
Qed.
End Uses.
