(* ===== verification/FdPoolGet.v ===== *)
(** FdPoolGet: what [fd_pool_get] tries and what happens to descriptors: the order of
    nodes and ports, the queue of idle descriptors of a port, and the iteration over
    ports (src/core/lib/fd_pool.c). *)
From stdpp Require Import prelude list numbers sorting gmap.
From Stdlib Require Import ZArith Lia.
From S2P Require Import Prelude Rcycle Avl Sbalance Vtree FdPool FdPoolConn.

Local Open Scope Z_scope.
#[local] Set Warnings "-register-all".

(** * The order of ports *)

(** The keys of a comma separated list; an empty rest has none. *)
Fixpoint split_keys (fuel : nat) (pk : list Z) : list (list Z) :=
  match pk, fuel with
  | [], _ | _, O => []
  | _, S fuel => take (strcspn pk) pk :: split_keys fuel (tl (drop (strcspn pk) pk))
  end.

Definition port_keys (pk : list Z) : list (list Z) := split_keys (length pk) pk.

(** The ports with a key, from an index on. *)
Definition ports_with (ports : list fd_pool_port) (key : list Z) (from : nat) : list nat :=
  filter (fun j => port_key <$> ports !! j = Some key) (seq from (length ports - from)).

(** All ports with one of the keys, in the order of the keys. *)
Definition port_order (ports : list fd_pool_port) (pk : list Z) : list nat :=
  concat (map (fun key => ports_with ports key 0) (port_keys pk)).

Lemma after_key_length c pk : (length (tl (drop (strcspn (c :: pk)) (c :: pk))) <= length pk)%nat.
Proof. pose proof (length_drop (c :: pk) (strcspn (c :: pk))) as H. destruct (drop _ _); simpl in *; lia. Qed.

Lemma split_keys_fuel fuel fuel' pk :
  (length pk <= fuel)%nat -> (length pk <= fuel')%nat -> split_keys fuel pk = split_keys fuel' pk.
Proof.
  revert fuel' pk. induction fuel as [|fuel IH]; intros fuel' pk; [by destruct pk; [destruct fuel'|simpl; lia]|].
  destruct pk as [|c pk]; [by destruct fuel'|]. destruct fuel' as [|fuel']; [simpl; lia|]. intros H1 H2. cbn [split_keys].
  f_equal. pose proof (after_key_length c pk). simpl in H1, H2. apply IH; lia.
Qed.

Lemma port_keys_cons c pk :
  port_keys (c :: pk) = take (strcspn (c :: pk)) (c :: pk) :: port_keys (tl (drop (strcspn (c :: pk)) (c :: pk))).
Proof.
  unfold port_keys at 1. cbn [length split_keys]. f_equal. apply split_keys_fuel; [apply after_key_length|done].
Qed.

(** The ports that are left, from the current one and the rest of the keys. *)
Definition todo (ports : list fd_pool_port) (pk : list Z) (port : option nat) : list nat :=
  match pk with
  | [] => []
  | _ => ports_with ports (take (strcspn pk) pk) (match port with Some i => S i | None => O end) ++
         port_order ports (tl (drop (strcspn pk) pk))
  end.

Lemma todo_start ports pk : todo ports pk None = port_order ports pk.
Proof. destruct pk as [|c pk]; [done|]. unfold port_order at 1. by rewrite port_keys_cons. Qed.

Lemma seq_filter_head (P : nat -> Prop) `{!forall j, Decision (P j)} from n j :
  (from <= j < from + n)%nat -> P j -> (forall i, (from <= i < j)%nat -> ~ P i) ->
  filter P (seq from n) = j :: filter P (seq (S j) (from + n - S j)).
Proof.
  revert from. induction n as [|n IH]; intros from Hj HP Hlt; [lia|]. cbn [seq]. rewrite filter_cons.
  destruct (decide (from = j)) as [->|Hne].
  - rewrite decide_True by done. by replace (j + S n - S j)%nat with n by lia.
  - rewrite decide_False by (apply Hlt; lia). rewrite IH; [|lia|done|intros; apply Hlt; lia].
    by replace (S from + n - S j)%nat with (from + S n - S j)%nat by lia.
Qed.

Lemma find_port_spec ports key from :
  match find_port ports key from with
  | Some j => ports_with ports key from = j :: ports_with ports key (S j)
  | None => ports_with ports key from = []
  end.
Proof.
  unfold find_port, ports_with. destruct (list_find _ (drop from ports)) as [[i p]|] eqn:E; cbn [mbind option_bind].
  - apply list_find_Some in E as (Hi & Hk & Hlt). rewrite lookup_drop in Hi.
    pose proof (lookup_lt_Some _ _ _ Hi). rewrite (seq_filter_head _ _ _ (from + i)).
    + by replace (from + (length ports - from) - S (from + i))%nat with (length ports - S (from + i))%nat by lia.
    + lia.
    + by rewrite Hi; simpl; f_equal.
    + intros k Hk'. destruct (ports !! k) as [q|] eqn:Eq; [|done]. intros [= Hq].
      apply (Hlt (k - from)%nat q); [|lia|done]. rewrite lookup_drop. by replace (from + (k - from))%nat with k by lia.
  - apply list_find_None in E. destruct (filter _ _) as [|j l] eqn:Ef; [done|]. exfalso.
    assert (j ∈ j :: l) as Hj by left. rewrite <- Ef, list_elem_of_filter, elem_of_seq in Hj. destruct Hj as [Hk Hj].
    destruct (ports !! j) as [q|] eqn:Eq; [|done]. injection Hk as Hk.
    rewrite list.Forall_forall in E. apply (E q); [|done].
    apply list_elem_of_lookup_2 with (j - from)%nat. rewrite lookup_drop. by replace (from + (j - from))%nat with j by lia.
Qed.

(** Each call of [fd_pool_move_port] takes the next of the ports that are left. *)
Lemma move_port_spec ports fuel : forall pk port,
  (length pk <= fuel)%nat ->
  match todo ports pk port with
  | [] => move_port_loop fuel ports pk port = Some (false, [], match pk with [] => port | _ => None end)
  | j :: js => exists pk', move_port_loop fuel ports pk port = Some (true, pk', Some j) /\
               todo ports pk' (Some j) = js /\ pk' <> []
  end.
Proof.
  induction fuel as [|fuel IH]; intros [|c pk] port Hlen; [done|simpl in Hlen; lia|done|].
  cbn [move_port_loop]. set (pk1 := c :: pk) in *. set (from := match port with Some i => S i | None => O end).
  pose proof (find_port_spec ports (take (strcspn pk1) pk1) from) as Hf.
  change (todo ports pk1 port) with (ports_with ports (take (strcspn pk1) pk1) from ++
    port_order ports (tl (drop (strcspn pk1) pk1))).
  destruct (find_port _ _ from) as [j|].
  - rewrite Hf. exists pk1. done.
  - rewrite Hf. cbn [app].
    assert (forall l : list Z, match l with c :: r => if c =? 44 then r else l | [] => [] end = tl l \/
      exists c r, l = c :: r /\ c <> 44) as Htl.
    { intros [|d r]; [by left|]. destruct (Z.eqb_spec d 44); [by left|]. right. by exists d, r. }
    destruct (Htl (drop (strcspn pk1) pk1)) as [->|(d & r & Hd & Hne)].
    + pose proof (after_key_length c pk) as Hlen'. fold pk1 in Hlen'.
      specialize (IH (tl (drop (strcspn pk1) pk1)) None). rewrite todo_start in IH. simpl in Hlen.
      destruct (port_order _ _); [|apply IH; lia]. rewrite IH by lia. by destruct (tl _).
    + exfalso. clear -Hd Hne. revert Hd. induction pk1 as [|e l IHl]; [done|]. cbn [strcspn].
      destruct (Z.eqb_spec e 44) as [->|]; [by intros [= <- _]|]. exact IHl.
Qed.

(** * The order of nodes *)

Section Balancer.
Context {C : Type} `{!Cycler C}.
Implicit Types (sb : sbalance fd_pool_service_node) (sc : sbalance_connection C).

(** How many more services a balancer returns. *)
Definition left sb sc : nat := (Z.to_nat (sc_first sc) + Z.to_nat (sc_retries sc) * Z.to_nat (sb_nserv sb))%nat.

Definition sc_range sc : Prop := 0 <= sc_first sc < 2 ^ 31 /\ 0 <= sc_retries sc < 2 ^ 31.

Lemma nserv_datas sb sb' : datas sb' = datas sb -> sb_nserv sb' = sb_nserv sb.
Proof. intros Hd. unfold sb_nserv. apply (f_equal length) in Hd. unfold datas in Hd. rewrite !length_map in Hd. lia. Qed.

Lemma conn_next_left sb sc st rnd sb' sc' d :
  0 < sb_nserv sb < 2 ^ 31 -> sc_range sc -> sbalance_conn_next sb sc st rnd = Some (sb', sc', Some d) ->
  left sb sc = S (left sb' sc') /\ sc_range sc' /\ sb_nserv sb' = sb_nserv sb.
Proof.
  intros Hn [Hf Hr] H. destruct (conn_next_frame _ _ _ _ _ _ _ H) as (Hd & _ & _).
  pose proof (nserv_datas _ _ Hd) as Hns.
  unfold left. rewrite Hns. clear Hd Hns. revert H. unfold sbalance_conn_next.
  rewrite (proj2 (Z.eqb_neq _ _)) by lia.
  set (report := match st with SBCS_START => _ | _ => _ end). destruct report as [sb1|] eqn:Es; [|done].
  cbn [mbind option_bind]. destruct ((sc_first sc =? 0) && (sc_retries sc =? 0)) eqn:Eend; [done|].
  assert (sb_nserv sb1 = sb_nserv sb) as Hn1.
  { subst report. destruct st; [by injection Es as <-|..];
      apply set_tempfailcost_frame in Es as [Hd _]; by apply nserv_datas. }
  set (re := if sc_first sc =? 0 then _ else _). destruct re as [sc1|] eqn:Er; [|done]. cbn [mbind option_bind].
  set (n := Z.to_nat (sb_nserv sb)).
  assert (0 < sc_first sc1 < 2 ^ 31 /\ 0 <= sc_retries sc1 < 2 ^ 31 /\
    (Z.to_nat (sc_first sc1) + Z.to_nat (sc_retries sc1) * n = Z.to_nat (sc_first sc) + Z.to_nat (sc_retries sc) * n)%nat) as (Hf1 & Hr1 & Hl1).
  { subst re. destruct (Z.eqb_spec (sc_first sc) 0) as [E0|E0]; [|injection Er as <-; repeat split; lia].
    assert (sc_first sc1 = sb_nserv sb /\ sc_retries sc1 = sc_retries sc - 1) as [-> ->].
    { revert Er. unfold strat_reinit, sbalance_rand_reinit. destruct (sb_strat sb1);
        [intros [= <-]|destruct (cy_init _ _ _); [intros [= <-]|done]..]; cbn; rewrite Hn1, !swrap_small by (simpl; lia); done. }
    simpl in Eend. rewrite E0. fold n. nia. }
  unfold strat_next. set (nx := match sb_strat sb1 with ST_SEQ => _ | _ => _ end).
  destruct nx as [[i sc2]|] eqn:En; [|done]. cbn [mbind option_bind].
  assert (sc_first sc2 = sc_first sc1 - 1 /\ sc_retries sc2 = sc_retries sc1) as [Hf2 Hr2].
  { assert (i32 (sc_first sc1 - 1) = sc_first sc1 - 1) as Hi by (rewrite swrap_small; simpl; lia).
    subst nx. revert En. unfold sbalance_seq_next, sbalance_rcycle_next. cbn [sc_offs sc_rc sc_retries sc_first sc_last].
    rewrite Hi. destruct (sb_strat sb1); [by intros [= <- <-]|..];
      (destruct (negb _); [by intros [= <- <-]|destruct (cy_next _) as [[]|]; [by intros [= <- <-]|done]]). }
  destruct (sb_service_ sb1 !! _) as [s0|]; [|done]. cbn [mbind option_bind]. intros [= _ <- _]. cbn [sc_first sc_retries].
  rewrite Hf2, Hr2. split; [|split; [split; cbn [sc_first sc_retries]; rewrite ?Hf2, ?Hr2; lia|done]]. fold n. lia.
Qed.

(** Whatever is reported, the balancer returns [n] more services and then NULL; the
    first report is [st]. *)
Definition ends_in (n : nat) sb sc (st : sbalance_conn_status) : Prop :=
  left sb sc = n /\ sc_range sc /\ 0 < sb_nserv sb < 2 ^ 31 /\
  forall rnd calls, length calls = n -> Forall (fun c => 0 <= snd c < 2 ^ 32) ((st, rnd) :: calls) ->
    exists sb' sc' ds, conn_calls sb sc ((st, rnd) :: calls) = Some (sb', sc', map Some ds ++ [None]) /\ length ds = n.

Lemma ends_in_step n sb sc st rnd :
  ends_in (S n) sb sc st -> 0 <= rnd < 2 ^ 32 ->
  exists sb' sc' d, sbalance_conn_next sb sc st rnd = Some (sb', sc', Some d) /\ forall st', ends_in n sb' sc' st'.
Proof.
  intros (Hl & Hr & Hn & H) Hrnd.
  destruct (H rnd (replicate (S n) (SBCS_START, 0))) as (sb1 & sc1 & ds & E & Hds).
  { apply length_replicate. } { constructor; [done|]. apply Forall_replicate. simpl. lia. }
  cbn [conn_calls] in E. destruct (sbalance_conn_next sb sc st rnd) as [[[sb' sc'] o]|] eqn:En; [|done].
  cbn [mbind option_bind] in E. destruct (conn_calls sb' sc' _) as [[[sb2 sc2] ds2]|]; [|done].
  cbn [mbind option_bind] in E. destruct ds as [|d ds]; [done|]. injection E as <- <- -> _.
  exists sb', sc', d. split; [done|]. intros st'.
  destruct (conn_next_left _ _ _ _ _ _ _ Hn Hr En) as (Hl' & Hr' & Hn').
  split; [lia|]. split; [done|]. split; [by rewrite Hn'|]. intros rnd' calls Hlen Hok.
  destruct (H rnd ((st', rnd') :: calls)) as (sb3 & sc3 & ds3 & E3 & Hds3); [simpl; lia|by constructor|].
  change (conn_calls sb sc ((st, rnd) :: (st', rnd') :: calls)) with
    ('(sb, sc, d) ← sbalance_conn_next sb sc st rnd;
     '(sb, sc, ds) ← conn_calls sb sc ((st', rnd') :: calls); Some (sb, sc, d :: ds)) in E3.
  rewrite En in E3. cbn [mbind option_bind] in E3.
  destruct (conn_calls sb' sc' ((st', rnd') :: calls)) as [[[sb4 sc4] ds4]|]; [|done].
  cbn [mbind option_bind] in E3. destruct ds3 as [|d3 ds3]; [done|]. injection E3 as <- <- _ ->.
  exists sb4, sc4, ds3. split; [done|]. simpl in Hds3. lia.
Qed.

Lemma ends_in_end sb sc st rnd :
  ends_in 0 sb sc st -> 0 <= rnd < 2 ^ 32 -> exists sb' sc', sbalance_conn_next sb sc st rnd = Some (sb', sc', None).
Proof.
  intros (_ & _ & _ & H) Hrnd. destruct (H rnd []) as (sb1 & sc1 & ds & E & Hds); [done|by constructor|].
  destruct ds; [|done]. cbn in E. destruct (sbalance_conn_next sb sc st rnd) as [[[sb' sc'] o]|]; [|done].
  cbn in E. injection E as <- <- ->. eauto.
Qed.
End Balancer.

(** * Attempts *)

Section Tries.
Context {T : Type} `{!OrderedSet lexcmp T}.
Context {C F G : Type} `{!Cycler C, !Drand F G}.
Implicit Types (pool : fd_pool T) (conn : fd_pool_conn C) (sb : sbalance fd_pool_service_node).
Implicit Types (sn : fd_pool_service_node).

Definition selects conn sn : bool :=
  match c_node_filter conn with None => true | Some f => bool_decide (sn_key sn = Some f) end.

(** What is tried on a node, in order: nothing if it is filtered out. *)
Definition node_tries pool conn sn : list (fd_pool_service_node * nat) :=
  match find_node pool (sn_node sn) with
  | Some (_, n) => if selects conn sn then map (pair sn) (port_order (nd_ports n) (c_port_key conn)) else []
  | None => []
  end.

(** A node that exists, with a key if there is a filter. *)
Definition visitable pool conn sn : Prop :=
  is_Some (find_node pool (sn_node sn)) /\ (c_node_filter conn = None \/ is_Some (sn_key sn)).

Definition no_idle pool : Prop :=
  forall id n p, (id, n) ∈ all_nodes pool -> p ∈ nd_ports n -> entries p = [].

(** What stays the same while nodes are visited. *)
Record same_run pool conn pool' conn' : Prop := {
  sr_nodes : all_nodes pool' = all_nodes pool;
  sr_sb : c_sb conn' = c_sb conn;
  sr_key : c_port_key conn' = c_port_key conn;
  sr_filter : c_node_filter conn' = c_node_filter conn
}.

Lemma same_run_refl pool conn : same_run pool conn pool conn.
Proof. done. Qed.

Lemma same_run_trans p1 c1 p2 c2 p3 c3 : same_run p1 c1 p2 c2 -> same_run p2 c2 p3 c3 -> same_run p1 c1 p3 c3.
Proof. intros [] []. split; congruence. Qed.

Section SameRun.
Context pool conn pool' conn' (Hrun : same_run pool conn pool' conn').

Lemma find_node_run id : find_node pool' id = find_node pool id.
Proof. unfold find_node. by rewrite (sr_nodes _ _ _ _ Hrun). Qed.

Lemma node_tries_run sn : node_tries pool' conn' sn = node_tries pool conn sn.
Proof.
  unfold node_tries, selects. by rewrite find_node_run, (sr_filter _ _ _ _ Hrun), (sr_key _ _ _ _ Hrun).
Qed.

Lemma visitable_run sn : visitable pool conn sn -> visitable pool' conn' sn.
Proof. unfold visitable. by rewrite find_node_run, (sr_filter _ _ _ _ Hrun). Qed.

Lemma no_idle_run : no_idle pool -> no_idle pool'.
Proof. unfold no_idle. by rewrite (sr_nodes _ _ _ _ Hrun). Qed.
End SameRun.

Lemma visitable_filter pool conn sn : visitable pool conn sn -> passes_filter conn sn = Some (selects conn sn).
Proof.
  intros [_ H]. unfold passes_filter, selects. destruct (c_node_filter conn) as [f|]; [|done].
  destruct H as [|[k ->]]; [done|]. cbn. f_equal. by apply bool_decide_ext; split; [intros ->|intros [= ->]].
Qed.

Lemma move_port_node pool conn sn i n :
  c_sn conn = Some sn -> find_node pool (sn_node sn) = Some (i, n) ->
  match todo (nd_ports n) (c_pk_ptr conn) (c_port conn) with
  | [] => fd_pool_move_port pool conn =
            Some (false, set_place conn (Some sn) (match c_pk_ptr conn with [] => c_port conn | _ => None end) [])
  | j :: js => exists pk, fd_pool_move_port pool conn = Some (true, set_place conn (Some sn) (Some j) pk) /\
      todo (nd_ports n) pk (Some j) = js /\ pk <> []
  end.
Proof.
  intros Hsn Hn. pose proof (move_port_spec (nd_ports n) (length (c_pk_ptr conn)) (c_pk_ptr conn) (c_port conn)) as H.
  unfold fd_pool_move_port. rewrite Hsn. cbn [mbind option_bind]. rewrite Hn. cbn [mbind option_bind].
  destruct (todo _ _ _) as [|j js].
  - rewrite H by done. done.
  - destruct H as (pk & -> & Ht & Hne); [done|]. eauto.
Qed.

(** The balancer that a connection is at, with [n] services left. *)
Definition at_balancer (n : nat) pool conn (id : nat) sb (st : sbalance_conn_status) : Prop :=
  c_sb conn = Some id /\ sbs pool !! id = Some sb /\ ends_in n sb (c_sc conn) st /\
  Forall (visitable pool conn) (datas sb).

Definition rnds_ok (rnds : list Z) : Prop := Forall (fun r => 0 <= r < 2 ^ 32) rnds.

Lemma rnds_hd rnds : rnds_ok rnds -> 0 <= hd 0 rnds < 2 ^ 32.
Proof. destruct 1; simpl; lia. Qed.

Lemma rnds_tl rnds : rnds_ok rnds -> rnds_ok (tl rnds).
Proof. destruct 1; [constructor|assumption]. Qed.

(** One call of the balancer that returns a node. *)
Lemma at_balancer_step n pool conn id sb st rnd :
  at_balancer (S n) pool conn id sb st -> 0 <= rnd < 2 ^ 32 ->
  exists sb' sc' sn, sbalance_conn_next sb (c_sc conn) st rnd = Some (sb', sc', Some sn) /\ visitable pool conn sn /\
    forall conn' st', c_sb conn' = Some id -> c_sc conn' = sc' -> c_node_filter conn' = c_node_filter conn ->
      at_balancer n (set_sbs pool (<[id := sb']> (sbs pool))) conn' id sb' st'.
Proof.
  intros (Hid & Hsb & Hends & Hv) Hrnd. destruct (ends_in_step _ _ _ _ _ Hends Hrnd) as (sb' & sc' & sn & E & Hends').
  destruct (conn_next_frame _ _ _ _ _ _ _ E) as (Hd & _ & Hin). exists sb', sc', sn. split; [done|].
  rewrite list.Forall_forall in Hv. split; [by apply Hv, Hin|]. intros conn' st' Hid' Hsc' Hf'.
  split; [done|]. split; [cbn; by rewrite lookup_insert_eq|]. split; [by rewrite Hsc'|].
  rewrite Hd, list.Forall_forall. intros sn' Hsn'. destruct (Hv sn' Hsn') as [H1 H2].
  split; [exact H1|by rewrite Hf'].
Qed.

Definition calls_ok (calls : list (sbalance_conn_status * Z)) : Prop := Forall (fun c => 0 <= snd c < 2 ^ 32) calls.

(** What [fd_pool_move_node] does, with [n] nodes left: it skips nodes where nothing
    is to be tried, and is then at the end, or at the first port of a node with [n']
    nodes left. *)
Definition moved (n : nat) pool conn sb (st : sbalance_conn_status) pool' conn' : Prop :=
  same_run pool conn pool' conn' /\
  exists skipped rnd calls,
    Forall (fun sn => node_tries pool conn sn = []) skipped /\ calls_ok ((st, rnd) :: calls) /\
    ((c_port conn' = None /\ length skipped = n /\
      exists sb' sc', conn_calls sb (c_sc conn) ((st, rnd) :: calls) = Some (sb', sc', map Some skipped ++ [None])) \/
     (exists n' id sn i nd j js sb',
      n = S (length skipped + n') /\ c_sn conn' = Some sn /\ find_node pool (sn_node sn) = Some (i, nd) /\
      node_tries pool conn sn = map (pair sn) (j :: js) /\
      c_port conn' = Some j /\ todo (nd_ports nd) (c_pk_ptr conn') (Some j) = js /\ c_pk_ptr conn' <> [] /\
      (forall st', at_balancer n' pool' conn' id sb' st') /\
      conn_calls sb (c_sc conn) ((st, rnd) :: calls) = Some (sb', c_sc conn', map Some (skipped ++ [sn])))).

(** A node is skipped. *)
Lemma moved_skip n pool conn sb st rnd sb1 sn pool1 conn1 st1 pool' conn' :
  moved n pool1 conn1 sb1 st1 pool' conn' ->
  sbalance_conn_next sb (c_sc conn) st rnd = Some (sb1, c_sc conn1, Some sn) -> 0 <= rnd < 2 ^ 32 ->
  same_run pool conn pool1 conn1 -> node_tries pool conn sn = [] -> moved (S n) pool conn sb st pool' conn'.
Proof.
  intros (Hrun1 & skipped & rnd1 & calls & Hsk & Hok & H) En Hrnd Hrun Hsn.
  split; [by eapply same_run_trans|]. exists (sn :: skipped), rnd, ((st1, rnd1) :: calls).
  split; [constructor; [done|]; eapply Forall_impl; [exact Hsk|]; intros x; cbn beta; by rewrite (node_tries_run _ _ _ _ Hrun)|].
  split; [by constructor|].
  assert (forall r, conn_calls sb1 (c_sc conn1) ((st1, rnd1) :: calls) = r ->
    conn_calls sb (c_sc conn) ((st, rnd) :: (st1, rnd1) :: calls) =
      ('(sb2, sc2, ds) ← r; Some (sb2, sc2, Some sn :: ds))) as Hcalls.
  { intros r Hr. change (conn_calls sb (c_sc conn) ((st, rnd) :: (st1, rnd1) :: calls)) with
      ('(sb, sc, d) ← sbalance_conn_next sb (c_sc conn) st rnd;
       '(sb, sc, ds) ← conn_calls sb sc ((st1, rnd1) :: calls); Some (sb, sc, d :: ds)).
    rewrite En. cbn [mbind option_bind]. by rewrite Hr. }
  destruct H as [(Hp & Hl & sb' & sc' & E)|(n' & id & sn' & i & nd & j & js & sb' & Hn & Hs & Hf & Ht & Hp & Htd & Hpk & Hb & E)].
  - left. split; [done|]. split; [by rewrite <- Hl|]. exists sb', sc'. by rewrite (Hcalls _ E).
  - right. exists n', id, sn', i, nd, j, js, sb'. rewrite (find_node_run _ _ _ _ Hrun) in Hf.
    rewrite (node_tries_run _ _ _ _ Hrun) in Ht. split; [simpl; lia|]. do 7 (split; [done|]). by rewrite (Hcalls _ E).
Qed.

Lemma move_node_moves n : forall fuel pool conn id sb st rnds,
  (n < fuel)%nat -> at_balancer n pool conn id sb st -> rnds_ok rnds ->
  c_port conn = None \/ (c_node_filter conn = None /\ (0 < n)%nat) ->
  exists pool' conn' rnds', move_node_loop fuel pool conn st rnds = Some (pool', conn', rnds') /\
    rnds_ok rnds' /\ moved n pool conn sb st pool' conn'.
Proof.
  induction n as [|n IH]; intros [|fuel] pool conn id sb st rnds Hfuel Hat Hrnds Hport; try lia; cbn [move_node_loop];
    pose proof (rnds_hd _ Hrnds) as Hhd; pose proof (rnds_tl _ Hrnds) as Htl.
  - destruct Hat as (Hid & Hsb & Hends & _). rewrite Hid. cbn [mbind option_bind]. rewrite Hsb. cbn [mbind option_bind].
    destruct (ends_in_end _ _ _ _ Hends Hhd) as (sb' & sc' & E). rewrite E. cbn [mbind option_bind].
    destruct Hport as [Hport|[_ ?]]; [|lia]. eexists _, _, _. split; [done|]. split; [done|].
    split; [by split|]. exists [], (hd 0 rnds), []. split; [done|]. split; [by apply Forall_singleton|].
    left. split; [done|]. split; [done|]. exists sb', sc'. cbn [conn_calls]. by rewrite E.
  - destruct (at_balancer_step _ _ _ _ _ _ _ Hat Hhd) as (sb' & sc' & sn & E & Hv & Hnext).
    destruct Hat as (Hid & Hsb & _ & _). rewrite Hid. cbn [mbind option_bind]. rewrite Hsb. cbn [mbind option_bind].
    rewrite E. cbn [mbind option_bind]. set (p1 := set_sbs pool _). set (c1 := set_sc conn _ _ _).
    pose proof (visitable_filter _ _ _ Hv) as Hpf. change (passes_filter c1 sn) with (passes_filter conn sn). rewrite Hpf.
    cbn [mbind option_bind]. pose proof Hv as [[[i nd] Hnd] _].
    assert (node_tries pool conn sn = if selects conn sn then map (pair sn) (port_order (nd_ports nd) (c_port_key conn)) else [])
      as Htries by (unfold node_tries; by rewrite Hnd).
    destruct (selects conn sn) eqn:Hsel.
    + pose proof (move_port_node p1 (set_place c1 (Some sn) None (c_port_key conn)) sn i nd eq_refl Hnd) as Hm.
      cbn [set_place c_port c_pk_ptr] in Hm. rewrite todo_start in Hm.
      destruct (port_order (nd_ports nd) (c_port_key conn)) as [|j js].
      * change (c_port_key c1) with (c_port_key conn). rewrite Hm. cbn [mbind option_bind].
        edestruct (IH fuel p1) as (p' & c' & r' & -> & Hr' & Hmoved); [lia|by apply Hnext|exact Htl|left; by destruct (c_port_key conn)|].
        exists p', c', r'. split; [done|]. split; [done|]. eapply moved_skip; [exact Hmoved|exact E|done|by split|done].
      * destruct Hm as (pk & Hm & Htd & Hpk). change (c_port_key c1) with (c_port_key conn). rewrite Hm. cbn [mbind option_bind].
        eexists _, _, _. split; [done|]. split; [done|]. split; [by split|]. exists [], (hd 0 rnds), [].
        split; [done|]. split; [by apply Forall_singleton|]. right. exists n, id, sn, i, nd, j, js, sb'.
        do 7 (split; [done|]). split; [intros st'; by apply Hnext|]. cbn [conn_calls]. by rewrite E.
    + assert (c_port conn = None) as Hp by (unfold selects in Hsel; destruct Hport as [|[Hf _]]; [done|by rewrite Hf in Hsel]).
      edestruct (IH fuel p1) as (p' & c' & r' & -> & Hr' & Hmoved); [lia|by apply Hnext|exact Htl|by left|].
      exists p', c', r'. split; [done|]. split; [done|]. eapply moved_skip; [exact Hmoved|exact E|done|by split|done].
Qed.

(** One turn of the loop of [fd_pool_get] after the choice of the place. *)
Definition after_place (alive : Z -> bool) (outcomes : list (option Z)) pool conn (rnds : list Z)
    (trace : list (fd_pool_service_node * nat)) : option get_result :=
  match c_port conn with
  | None => Some (mk_got None pool conn trace outcomes rnds)
  | Some j =>
    sn ← c_sn conn;
    '(i, n) ← find_node pool (sn_node sn);
    p ← nd_ports n !! j;
    let trace := trace ++ [(sn, j)] in
    let '(dead, rest, idle) := pop_idle alive (entries p) in
    let pool := close_fds (set_port pool i (sn_node sn) n j
                  (mk_port (port_key p) (sockaddr p) (peer p) rest (last_ptr p))) dead in
    match idle with
    | Some fd => Some (mk_got (Some fd) pool (set_entry conn (Some fd) true) trace outcomes rnds)
    | None =>
      match outcomes with
      | [] => None
      | Some fd :: outcomes => Some (mk_got (Some fd) pool (set_entry conn None true) trace outcomes rnds)
      | None :: outcomes => get_loop alive outcomes pool (set_entry conn None false) SBCS_FAIL rnds trace
      end
    end
  end.

Lemma get_loop_unfold alive outcomes pool conn st rnds trace :
  get_loop alive outcomes pool conn st rnds trace =
    ('(pool, conn, rnds) ← next_place pool conn st rnds; after_place alive outcomes pool conn rnds trace).
Proof. by destruct outcomes. Qed.

(** A failed attempt without idle descriptors changes nothing in the pool. *)
Lemma after_place_fail alive outcomes pool conn rnds trace sn i n j p :
  no_idle pool -> c_port conn = Some j -> c_sn conn = Some sn -> find_node pool (sn_node sn) = Some (i, n) ->
  nd_ports n !! j = Some p ->
  after_place alive (None :: outcomes) pool conn rnds trace =
    get_loop alive outcomes pool (set_entry conn None false) SBCS_FAIL rnds (trace ++ [(sn, j)]).
Proof.
  intros Hidle Hj Hsn Hn Hp. unfold after_place. rewrite Hj, Hsn. cbn [mbind option_bind].
  rewrite Hn. cbn [mbind option_bind]. rewrite Hp. cbn [mbind option_bind]. apply find_node_lookup in Hn.
  rewrite (Hidle (sn_node sn) n p) by (eapply list_elem_of_lookup_2; done). cbn [pop_idle]. f_equal.
  pose proof (Hidle (sn_node sn) n p ltac:(by eapply list_elem_of_lookup_2) ltac:(by eapply list_elem_of_lookup_2)) as He.
  unfold close_fds, set_port, set_nodes. cbn [all_nodes fresh sbs services srvs closed]. rewrite app_nil_r.
  rewrite (list_insert_id (nd_ports n)), list_insert_id; [by destruct pool| |].
  - rewrite Hn. by destruct n.
  - rewrite Hp. destruct p. simpl in *. by subst.
Qed.

Lemma ports_with_lookup ports key from j : j ∈ ports_with ports key from -> is_Some (ports !! j).
Proof. intros [H _]%list_elem_of_filter. by destruct (ports !! j). Qed.

Lemma port_order_lookup ports pk j : j ∈ port_order ports pk -> is_Some (ports !! j).
Proof.
  unfold port_order. rewrite list_elem_of_In, in_concat. intros (l & (key & <- & _)%in_map_iff & Hj).
  eapply ports_with_lookup. by apply list_elem_of_In.
Qed.

Lemma todo_lookup ports pk port j : j ∈ todo ports pk port -> is_Some (ports !! j).
Proof.
  destruct pk as [|c pk]; [by intros ?%elem_of_nil|]. intros [H|H]%elem_of_app;
    [by eapply ports_with_lookup|by eapply port_order_lookup].
Qed.

(** All ports that are left on a node fail. *)
Lemma ports_fail sn i n pool js : forall conn j,
  no_idle pool -> c_sn conn = Some sn -> find_node pool (sn_node sn) = Some (i, n) ->
  c_port conn = Some j -> is_Some (nd_ports n !! j) ->
  todo (nd_ports n) (c_pk_ptr conn) (Some j) = js -> c_pk_ptr conn <> [] ->
  exists conn', c_sb conn' = c_sb conn /\ c_sc conn' = c_sc conn /\ c_entry conn' = None /\ c_port conn' = None /\
    c_port_key conn' = c_port_key conn /\ c_node_filter conn' = c_node_filter conn /\
    forall alive k rnds trace,
    after_place alive (replicate (S (length js) + k) None) pool conn rnds trace =
      ('(pool, conn, rnds) ← fd_pool_move_node pool conn' SBCS_FAIL rnds;
       after_place alive (replicate k None) pool conn rnds (trace ++ map (pair sn) (j :: js))).
Proof.
  induction js as [|j' js IH]; intros conn j Hidle Hsn Hn Hj [p Hp] Htodo Hpk;
    pose proof (move_port_node pool (set_entry conn None false) sn i n Hsn Hn) as Hm;
    cbn [set_entry c_pk_ptr c_port] in Hm; rewrite Hj, Htodo in Hm;
    assert (forall alive k rnds trace,
      after_place alive (replicate (S k) None) pool conn rnds trace =
      ('(pool, conn, rnds) ← next_place pool (set_entry conn None false) SBCS_FAIL rnds;
       after_place alive (replicate k None) pool conn rnds (trace ++ [(sn, j)]))) as Hstep
      by (intros; cbn [replicate]; by rewrite (after_place_fail _ _ _ _ _ _ sn i n j p), get_loop_unfold);
    unfold next_place in Hstep; cbn [set_entry c_sn c_entry] in Hstep; rewrite Hsn in Hstep.
  - exists (set_place (set_entry conn None false) (Some sn) None []). do 6 (split; [done|]). intros.
    cbn [length Nat.add]. rewrite Hstep, Hm. cbn [mbind option_bind]. by destruct (c_pk_ptr conn).
  - destruct Hm as (pk & Hm & Htd & Hne).
    destruct (IH (set_place (set_entry conn None false) (Some sn) (Some j') pk) j')
      as (c' & H1 & H2 & H3 & H4 & H5 & H6 & E); [done..| |done|done|].
    { apply (todo_lookup _ (c_pk_ptr conn) (Some j)). rewrite Htodo. by left. }
    exists c'. do 6 (split; [done|]). intros. cbn [length Nat.add] in *. rewrite Hstep, Hm. cbn [mbind option_bind].
    rewrite E. by rewrite <- (assoc_L (++)).
Qed.

Lemma concat_nil {A B} (f : A -> list B) l : Forall (fun x => f x = []) l -> concat (map f l) = [].
Proof. induction 1 as [|x l Hx _ IH]; [done|]. simpl. by rewrite Hx. Qed.

Definition all_tries pool conn (sns : list fd_pool_service_node) : list (fd_pool_service_node * nat) :=
  concat (map (node_tries pool conn) sns).

Lemma all_tries_app pool conn l k : all_tries pool conn (l ++ k) = all_tries pool conn l ++ all_tries pool conn k.
Proof. unfold all_tries. by rewrite map_app, concat_app. Qed.

Lemma all_tries_run pool conn pool' conn' sns :
  same_run pool conn pool' conn' -> all_tries pool' conn' sns = all_tries pool conn sns.
Proof.
  intros Hrun. unfold all_tries. f_equal. apply map_ext. intros sn. by apply node_tries_run.
Qed.

(** Moving from node to node, every attempt failing, visits all the nodes that are
    left. *)
Lemma get_tries n : forall pool conn id sb st rnds,
  at_balancer n pool conn id sb st -> rnds_ok rnds -> no_idle pool ->
  c_port conn = None \/ (c_node_filter conn = None /\ (0 < n)%nat) ->
  exists sns rnd calls sb' sc', length sns = n /\ calls_ok ((st, rnd) :: calls) /\
    conn_calls sb (c_sc conn) ((st, rnd) :: calls) = Some (sb', sc', map Some sns ++ [None]) /\
    forall alive k trace, exists g,
      ('(pool', conn', rnds') ← fd_pool_move_node pool conn st rnds;
       after_place alive (replicate (length (all_tries pool conn sns) + k) None) pool' conn' rnds' trace) = Some g /\
      got_fd g = None /\ got_trace g = trace ++ all_tries pool conn sns /\ got_outcomes g = replicate k None.
Proof.
  induction (lt_wf n) as [n _ IH]. intros pool conn id sb st rnds Hat Hrnds Hidle Hport.
  destruct (move_node_moves n (calls_left pool conn) pool conn id sb st rnds) as (p1 & c1 & r1 & Em & Hr1 & Hrun & Hmoved); [|done..|].
  { destruct Hat as (Hid & Hsb & (Hl & _) & _). unfold calls_left. rewrite Hid. cbn [mbind option_bind]. rewrite Hsb.
    unfold left in Hl. lia. }
  unfold fd_pool_move_node at 1. rewrite Em. cbn [mbind option_bind]. clear Em.
  destruct Hmoved as (skipped & rnd & calls & Hsk & Hok & Hcase).
  assert (all_tries pool conn skipped = []) as Hnone by by apply concat_nil.
  destruct Hcase as [(Hp1 & Hl & sb' & sc' & E)|(n' & id' & sn & i & nd & j & js & sb' & -> & Hsn & Hnd & Ht & Hj & Htd & Hpk & Hb & E)].
  - exists skipped, rnd, calls, sb', sc'. do 3 (split; [done|]). intros alive k trace. rewrite Hnone. unfold after_place.
    rewrite Hp1. eexists. split; [done|]. by rewrite app_nil_r.
  - destruct (ports_fail sn i nd p1 js c1 j) as (c2 & H1 & H2 & H3 & H4 & H5 & H6 & Heq);
      [by eapply no_idle_run|done|by rewrite (find_node_run _ _ _ _ Hrun)|done| |done|done|].
    { unfold node_tries in Ht. rewrite Hnd in Ht. destruct (selects conn sn); [|done].
      apply (port_order_lookup _ (c_port_key conn)). destruct (port_order _ _) as [|j0 l]; [done|].
      injection Ht as <- _. by left. }
    assert (same_run pool conn p1 c2) as Hrun2 by (destruct Hrun; split; congruence).
    destruct (IH n' ltac:(lia) p1 c2 id' sb' SBCS_FAIL r1) as (sns & rnd2 & calls2 & sb2 & sc2 & Hl2 & Hok2 & E2 & Hget);
      [|done|by eapply no_idle_run|by left|].
    { destruct (Hb SBCS_FAIL) as (B1 & B2 & B3 & B4). unfold at_balancer. rewrite H1, H2.
      do 3 (split; [done|]). eapply Forall_impl; [exact B4|]. unfold visitable. by rewrite H6. }
    exists (skipped ++ sn :: sns), rnd, (calls ++ (SBCS_FAIL, rnd2) :: calls2), sb2, sc2.
    split; [rewrite length_app; simpl; lia|]. split; [apply (Forall_app_2 _ ((st, rnd) :: calls)); done|].
    split.
    { change ((st, rnd) :: calls ++ (SBCS_FAIL, rnd2) :: calls2) with
        (((st, rnd) :: calls) ++ (SBCS_FAIL, rnd2) :: calls2). rewrite (conn_calls_app _ _ _ _ _ _ _ E), <- H2, E2.
      cbn [mbind option_bind]. by rewrite !map_app, <- !(assoc_L (++)). }
    intros alive k trace. rewrite all_tries_app, Hnone. cbn [app]. unfold all_tries at 1 2. cbn [map concat].
    fold (all_tries pool conn sns). rewrite Ht, length_app, length_map. rewrite <- Nat.add_assoc.
    change (length (j :: js)) with (S (length js)). rewrite Heq.
    destruct (Hget alive k (trace ++ map (pair sn) (j :: js))) as (g & Eg & G1 & G2 & G3).
    rewrite (all_tries_run _ _ _ _ _ Hrun2) in Eg, G2. exists g. split; [exact Eg|]. split; [done|].
    split; [|done]. by rewrite G2, <- (assoc_L (++)).
Qed.

Lemma map_Some_omap {A B} (f : A -> option B) l k : map Some k = map f l -> omap f l = k.
Proof.
  revert k. induction l as [|x l IH]; intros [|y k]; simpl; [done..|]. intros [= E H]. rewrite <- E. f_equal. by apply IH.
Qed.

Lemma conn_calls_length sb (sc : sbalance_connection C) calls sb' sc' ds :
  conn_calls sb sc calls = Some (sb', sc', ds) -> length ds = length calls.
Proof.
  revert sb sc ds. induction calls as [|[st rnd] calls IH]; intros sb sc ds; cbn [conn_calls]; [by intros [= <- <- <-]|].
  destruct (sbalance_conn_next sb sc st rnd) as [[[sb1 sc1] d]|]; [|done]. cbn [mbind option_bind].
  destruct (conn_calls sb1 sc1 calls) as [[[sb2 sc2] ds2]|] eqn:E; [|done]. intros [= <- <- <-]. simpl. f_equal. by eapply IH.
Qed.

(** A connection on a new balancer has all its attempts left. *)
Lemma conn_new_ends sb (sc : sbalance_connection C) hash rnd :
  0 < sb_nserv sb < cy_max -> cy_max <= 2 ^ 31 -> 0 <= sb_retries sb < 2 ^ 31 ->
  let '(sb0, sc0) := sbalance_conn_new sb sc hash rnd in
  let n := (Z.to_nat (match sb_strat sb with ST_SEQ => sb_nserv sb | _ => 1 end) +
            Z.to_nat (sb_retries sb) * Z.to_nat (sb_nserv sb))%nat in
  datas sb0 = datas sb /\ ends_in n sb0 sc0 SBCS_START /\
  forall rnd' calls sb' sc' sns, calls_ok calls -> length sns = n ->
    conn_calls sb0 sc0 ((SBCS_START, rnd') :: calls) = Some (sb', sc', map Some sns ++ [None]) ->
    exists first rounds, first_ok (sb_strat sb) (sb_nserv sb) first /\
      Z.of_nat (length rounds) = sb_retries sb /\ Forall (round_ok (sb_strat sb) (sb_nserv sb)) rounds /\
      map Some sns = map (fun i => datas sb !! Z.to_nat i) (first ++ concat rounds).
Proof.
  intros Hn Hmax Hr. pose proof (conn_tries_every_service sb sc hash rnd) as Htry.
  destruct (conn_new_first sb sc hash rnd) as (sb0 & sc0 & first & c' & E & Hsp & Hr0 & Hf0 & _ & Hfirst); [lia|lia|].
  rewrite E in *. set (n := (_ + _)%nat). pose proof (same_pool_nserv _ _ Hsp) as Hns.
  pose proof (first_ok_length _ _ _ (proj1 Hn) Hfirst) as Hfl.
  assert (forall (calls : list (sbalance_conn_status * Z)), length calls = n -> Z.of_nat (length calls) =
    match sb_strat sb with ST_SEQ => sb_nserv sb | _ => 1 end + sb_retries sb * sb_nserv sb) as Hlen.
  { intros calls ->. unfold n. destruct (sb_strat sb); nia. }
  split; [by apply sp_datas|]. split.
  - split; [|split; [|split]].
    + unfold left, n. rewrite Hf0, Hr0, Hns, Hfl. done.
    + unfold sc_range. rewrite Hf0, Hr0, Hfl. destruct (sb_strat sb); lia.
    + lia.
    + intros rnd' calls Hl [_ Hok]%list.Forall_cons. destruct (Htry rnd' calls Hn Hmax Hr Hok (Hlen _ Hl))
        as (sb' & sc' & first' & rounds & Ec & Hf' & Hlr & Hrounds).
      assert (Forall (fun i => 0 <= i < sb_nserv sb) (first' ++ concat rounds)) as Hrange.
      { apply Forall_app. split; [by apply (first_ok_range (sb_strat sb)); [lia|]|].
        apply Forall_concat. eapply Forall_impl; [exact Hrounds|]. intros l. apply round_ok_range. }
      assert (exists ds, map Some ds = map (fun i => datas sb !! Z.to_nat i) (first' ++ concat rounds)) as [ds Hds].
      { clear -Hrange. induction Hrange as [|i l Hi _ [ds IH]]; [by exists []|].
        destruct (lookup_lt_is_Some_2 (datas sb) (Z.to_nat i)) as [d Hd].
        { unfold datas. rewrite length_map. unfold sb_nserv in Hi. lia. }
        exists (d :: ds). simpl. by rewrite Hd, IH. }
      exists sb', sc', ds. rewrite Hds. split; [done|]. apply conn_calls_length in Ec.
      rewrite <- Hds, length_app, length_map in Ec. simpl in Ec. lia.
  - intros rnd' calls sb' sc' sns Hok Hl Ec. pose proof (conn_calls_length _ _ _ _ _ _ Ec) as Hcl.
    rewrite length_app, length_map in Hcl. simpl in Hcl.
    destruct (Htry rnd' calls Hn Hmax Hr Hok (Hlen calls ltac:(lia))) as (sb1 & sc1 & first' & rounds & Ec' & Hf' & Hlr & Hrounds).
    exists first', rounds. do 3 (split; [done|]). rewrite Ec in Ec'. injection Ec' as _ _ Heq. by apply app_inv_tail in Heq.
Qed.

(** C19: When no descriptor is idle and every attempt to connect fails, starting a
    connection tries exactly the following and then reports the failure: the nodes in
    the order of the balancer, which is all of them in turn or one pick followed by
    all of them once per retry, leaving out those that the node filter excludes; and
    on each node the ports that have one of the connection's comma separated port
    keys, key by key. *)
Theorem fd_pool_get_tries_all others pool conn name srv pool1 sb rnds :
  pool_inv (option_list (c_sb conn) ++ others) pool ->
  c_service conn = Some name -> srvs pool !! name = Some srv ->
  leave pool conn SBCS_START = Some pool1 -> sbs pool1 !! srv_sb srv = Some sb ->
  0 < sb_nserv sb < cy_max -> cy_max <= 2 ^ 31 -> 0 <= sb_retries sb < 2 ^ 31 ->
  c_node_filter conn = None \/ (c_port conn = None /\ Forall (fun sn => is_Some (sn_key sn)) (datas sb)) ->
  no_idle pool1 -> rnds_ok rnds ->
  exists first rounds,
    first_ok (sb_strat sb) (sb_nserv sb) first /\
    Z.of_nat (length rounds) = sb_retries sb /\ Forall (round_ok (sb_strat sb) (sb_nserv sb)) rounds /\
    let visited := omap (fun i => datas sb !! Z.to_nat i) (first ++ concat rounds) in
    length visited = length (first ++ concat rounds) /\
    forall alive k, exists g,
      fd_pool_get alive (replicate (length (all_tries pool1 conn visited) + k) None) pool conn SBCS_START rnds = Some g /\
      got_fd g = None /\ got_trace g = all_tries pool1 conn visited /\ got_outcomes g = replicate k None.
Proof.
  intros Hinv Hname Hsrv Hleave Hsb Hn Hmax Hr Hfilter Hidle Hrnds.
  destruct (leave_inv _ _ _ _ _ Hinv Hleave) as (Hinv1 & _ & _).
  pose proof (conn_new_ends sb (c_sc conn) (c_sc_hash conn) (hd 0 rnds) Hn Hmax Hr) as Hnew.
  destruct (sbalance_conn_new sb (c_sc conn) (c_sc_hash conn) (hd 0 rnds)) as [sb0 sc0] eqn:Enew.
  set (n := (_ + _)%nat) in Hnew. destruct Hnew as (Hd & Hends & Hcalls).
  set (p2 := set_sbs pool1 (<[srv_sb srv := sb0]> (sbs pool1))).
  set (c2 := set_place (set_sc (set_entry conn (c_entry conn) false) (Some (srv_sb srv)) sc0 (srv_sb_gen srv))
               None (c_port conn) (c_pk_ptr conn)).
  assert (forall sn, sn ∈ datas sb -> is_Some (find_node pool1 (sn_node sn))) as Hfound.
  { intros sn Hsn. unfold find_node. destruct (nodes_ok_find _ _ _ (sn_node sn) (hp_nodes _ _ (pi_heap _ _ Hinv1)))
      as (i & nd & -> & _); [|by eexists]. rewrite (refs_of_lookup _ _ _ Hsb). apply elem_of_app. left.
    rewrite sb_nodes_datas. by apply list_elem_of_fmap_2. }
  destruct (get_tries n p2 c2 (srv_sb srv) sb0 SBCS_START (tl rnds))
    as (sns & rnd & calls & sb' & sc' & Hl & Hok & Ec & Hget).
  - split; [done|]. split; [cbn; by rewrite lookup_insert_eq|]. split; [done|]. rewrite Hd, list.Forall_forall.
    intros sn Hsn. split; [by apply Hfound|]. destruct Hfilter as [|[_ Hk]]; [by left|right].
    rewrite list.Forall_forall in Hk. by apply Hk.
  - by apply rnds_tl.
  - exact Hidle.
  - destruct Hfilter as [Hf|[Hp _]]; [right|by left]. split; [done|]. unfold n. destruct (sb_strat sb); lia.
  - apply list.Forall_cons in Hok as [_ Hok].
    destruct (Hcalls _ _ _ _ _ Hok Hl Ec) as (first & rounds & Hf & Hlr & Hrs & Hmap). exists first, rounds.
    do 3 (split; [done|]). rewrite (map_Some_omap _ _ _ Hmap). cbn zeta.
    split; [by rewrite <- (length_map Some), Hmap, length_map|]. intros alive k.
    assert (all_tries p2 c2 sns = all_tries pool1 conn sns) as Ht by done. rewrite <- Ht.
    destruct (Hget alive k []) as (g & Eg & Hg). exists g. split; [|exact Hg].
    unfold fd_pool_get. cbn [set_entry c_service]. rewrite Hname. cbn [mbind option_bind]. rewrite Hsrv.
    cbn [mbind option_bind is_start orb]. unfold restart. change (leave pool (set_entry conn (c_entry conn) false) SBCS_START)
      with (leave pool conn SBCS_START). rewrite Hleave. cbn [mbind option_bind]. rewrite Hsb. cbn [mbind option_bind].
    cbn [set_entry c_sc c_sc_hash]. rewrite Enew. cbn [mbind option_bind]. rewrite get_loop_unfold. exact Eg.
Qed.
End Tries.

(** * Descriptors *)

Section Descriptors.
Context {T : Type} `{!OrderedSet lexcmp T}.
Context {C F G : Type} `{!Cycler C, !Drand F G}.
Implicit Types (pool : fd_pool T) (conn : fd_pool_conn C).

Definition node_idle (x : nat * fd_pool_node) : list Z := concat (map entries (nd_ports (snd x))).

(** The idle descriptors and those that were closed. *)
Definition held pool : list Z := concat (map node_idle (all_nodes pool)) ++ closed pool.

Lemma concat_insert {A B} (f : A -> list B) l i x :
  l !! i = Some x -> exists R, concat (map f l) ≡ₚ f x ++ R /\ forall y, concat (map f (<[i := y]> l)) ≡ₚ f y ++ R.
Proof.
  revert i. induction l as [|z l IH]; intros [|i] Hi; [done..| |].
  - injection Hi as <-. by exists (concat (map f l)).
  - destruct (IH i Hi) as (R & H1 & H2). exists (f z ++ R). simpl. rewrite H1. split.
    + by rewrite Permutation_app_swap_app.
    + intros y. by rewrite H2, Permutation_app_swap_app.
Qed.

Lemma held_set_port pool id i n j p :
  find_node pool id = Some (i, n) -> nd_ports n !! j = Some p ->
  exists R, held pool ≡ₚ entries p ++ R /\
    forall p' fds, held (close_fds (set_port pool i id n j p') fds) ≡ₚ entries p' ++ fds ++ R.
Proof.
  intros Hi%find_node_lookup Hj. destruct (concat_insert node_idle _ _ _ Hi) as (R1 & H1 & H1').
  destruct (concat_insert entries _ _ _ Hj) as (R2 & H2 & H2'). exists (R2 ++ R1 ++ closed pool). unfold held. split.
  - rewrite H1. unfold node_idle at 1. cbn [snd]. by rewrite H2, <- !(assoc_L (++)).
  - intros p' fds. cbn [close_fds set_port set_nodes all_nodes closed]. rewrite H1'. unfold node_idle at 1. cbn [snd nd_ports].
    rewrite H2', <- !(assoc_L (++)). f_equiv. rewrite (Permutation_app_comm (closed pool)).
    by rewrite !(assoc_L (++)), (Permutation_app_comm _ fds), !(assoc_L (++)).
Qed.

Lemma free_node_held pool sn pool' : fd_pool_free_node pool sn = Some pool' -> held pool' ≡ₚ held pool.
Proof.
  unfold fd_pool_free_node. destruct (list_find _ _) as [[i [id n]]|] eqn:E; [|done].
  apply list_find_Some in E as (Hi & _ & _). cbn [mbind option_bind]. destruct (0 <? _); intros [= <-]; unfold held; cbn.
  - destruct (concat_insert node_idle _ _ _ Hi) as (R & H1 & H2). by rewrite H1, H2.
  - rewrite (concat_delete node_idle _ _ _ Hi). unfold node_idle at 3. cbn [snd].
    by rewrite (Permutation_app_comm (closed pool)), Permutation_app_swap_app, <- (assoc_L (++)).
Qed.

Lemma release_held pool id pool' : release_sb pool id = Some pool' -> held pool' ≡ₚ held pool.
Proof.
  assert (forall sns p p', free_nodes (p : fd_pool T) sns = Some p' -> held p' ≡ₚ held p) as Hfree.
  { induction sns as [|sn sns IH]; intros p p'; cbn [free_nodes]; [by intros [= <-]|].
    destruct (fd_pool_free_node p sn) as [p1|] eqn:E; [|done]. cbn [mbind option_bind]. intros ->%IH.
    by eapply free_node_held. }
  unfold release_sb. destruct (sbs pool !! id) as [sb|]; [|done]. cbn [mbind option_bind].
  destruct (sbalance_release sb); [by intros [= <-]|]. by intros ->%Hfree.
Qed.

Lemma leave_held pool conn st pool' : leave pool conn st = Some pool' -> held pool' ≡ₚ held pool.
Proof.
  unfold leave. destruct (c_sb conn) as [id|]; [|by intros [= <-]].
  destruct (sbs pool !! id) as [sb|]; [|done]. cbn [mbind option_bind].
  destruct (if is_start st then _ else _) as [sb1|]; [|done]. cbn [mbind option_bind]. by intros ->%release_held.
Qed.

Lemma move_node_held fuel : forall pool conn st rnds pool' conn' rnds',
  move_node_loop fuel pool conn st rnds = Some (pool', conn', rnds') -> held pool' = held pool.
Proof.
  induction fuel as [|fuel IH]; intros pool conn st rnds pool' conn' rnds'; cbn [move_node_loop]; [done|].
  destruct (c_sb conn) as [id|]; [|done]. cbn [mbind option_bind].
  destruct (sbs pool !! id) as [sb|]; [|done]. cbn [mbind option_bind].
  destruct (sbalance_conn_next _ _ _ _) as [[[sb1 sc1] [sn|]]|]; [| |done]; cbn [mbind option_bind]; [|by intros [= <- <- <-]].
  destruct (passes_filter _ sn) as [[]|]; [| |done]; cbn [mbind option_bind]; [|by intros ->%IH].
  destruct (fd_pool_move_port _ _) as [[[] c2]|]; [| |done]; cbn [mbind option_bind]; [by intros [= <- <- <-]|by intros ->%IH].
Qed.

Lemma next_place_held pool conn st rnds pool' conn' rnds' :
  next_place pool conn st rnds = Some (pool', conn', rnds') -> held pool' = held pool.
Proof.
  unfold next_place. destruct (c_sn conn); [destruct (c_entry conn)|]; [by intros [= <- <- <-]| |by apply move_node_held].
  destruct (fd_pool_move_port pool conn) as [[[] c]|]; [by intros [= <- <- <-]|apply move_node_held|done].
Qed.

(** Idle descriptors are taken from the front; the unusable ones are closed. *)
Lemma pop_idle_spec alive fds dead rest r :
  pop_idle alive fds = (dead, rest, r) ->
  fds = dead ++ option_list r ++ rest /\ Forall (fun fd => alive fd = false) dead /\
  match r with Some fd => alive fd = true | None => rest = [] end.
Proof.
  revert dead. induction fds as [|fd fds IH]; intros dead; cbn [pop_idle]; [by intros [= <- <- <-]|].
  destruct (alive fd) eqn:Ha; [by intros [= <- <- <-]|].
  destruct (pop_idle alive fds) as [[d k] r']. intros [= <- -> ->].
  destruct (IH d eq_refl) as (-> & Hd & Hr). split; [done|]. split; [by constructor|done].
Qed.

(** The descriptor that [fd_pool_get] took from the pool. *)
Definition reused (g : get_result (T := T) (C := C)) : list Z :=
  match got_fd g, c_entry (got_conn g) with Some fd, Some _ => [fd] | _, _ => [] end.

Definition got_ok (alive : Z -> bool) (outcomes : list (option Z)) pool (g : get_result (T := T) (C := C)) : Prop :=
  held pool ≡ₚ reused g ++ held (got_pool g) /\
  match got_fd g with
  | Some fd => (reused g = [fd] /\ alive fd = true) \/
               (reused g = [] /\ exists n, outcomes = replicate n None ++ Some fd :: got_outcomes g)
  | None => exists n, outcomes = replicate n None ++ got_outcomes g
  end.

Lemma reuse_perm (dead rest R : list Z) fd : (dead ++ option_list (Some fd) ++ rest) ++ R ≡ₚ [fd] ++ rest ++ dead ++ R.
Proof. cbn. rewrite <- Permutation_middle. cbn. by rewrite <- (assoc_L (++)), Permutation_app_swap_app. Qed.

Lemma get_loop_held alive outcomes : forall pool conn st rnds trace g,
  get_loop alive outcomes pool conn st rnds trace = Some g -> got_ok alive outcomes pool g.
Proof.
  induction outcomes as [|o outcomes IH]; intros pool conn st rnds trace g; cbn [get_loop];
    (destruct (next_place pool conn st rnds) as [[[p1 c1] rnds1]|] eqn:En; [|done]); cbn [mbind option_bind];
    apply next_place_held in En; unfold got_ok; rewrite <- En; clear En;
    (destruct (c_port c1) as [j|]; [|intros [= <-]; cbn; split; [done|by exists O]]);
    (destruct (c_sn c1) as [sn|]; [|done]); cbn [mbind option_bind];
    (destruct (find_node p1 _) as [[i n]|] eqn:Ef; [|done]); cbn [mbind option_bind];
    (destruct (nd_ports n !! j) as [p|] eqn:Ep; [|done]); cbn [mbind option_bind];
    (destruct (pop_idle alive (entries p)) as [[dead rest] idle] eqn:Ei);
    (destruct (pop_idle_spec _ _ _ _ _ Ei) as (He & _ & Hr));
    (destruct (held_set_port _ _ _ _ _ _ Ef Ep) as (R & H1 & H2));
    rewrite He in H1;
    rewrite H1.
  - destruct idle as [fd|]; [|done]. intros [= <-]. unfold reused. cbn [got_fd got_conn got_pool set_entry c_entry].
    split; [|by left]. by rewrite H2, reuse_perm.
  - destruct idle as [fd|].
    { intros [= <-]. unfold reused. cbn [got_fd got_conn got_pool set_entry c_entry]. split; [|by left].
      by rewrite H2, reuse_perm. }
    rewrite Hr. cbn [option_list app]. rewrite app_nil_r. destruct o as [fd|].
    + intros [= <-]. unfold reused. cbn [got_fd got_conn got_pool set_entry c_entry got_outcomes].
      split; [by rewrite H2|]. right. split; [done|]. by exists O.
    + intros [Hh Hg]%IH. rewrite H2 in Hh. split; [exact Hh|]. destruct (got_fd g) as [fd|].
      * destruct Hg as [|[Hg [k ->]]]; [by left|]. right. split; [done|]. by exists (S k).
      * destruct Hg as [k ->]. by exists (S k).
Qed.

Lemma get_held alive outcomes pool conn st rnds g :
  fd_pool_get alive outcomes pool conn st rnds = Some g -> got_ok alive outcomes pool g.
Proof.
  unfold fd_pool_get. set (c := set_entry conn (c_entry conn) false).
  destruct (c_service c) as [name|]; [|intros [= <-]; split; [done|by exists O]].
  destruct (srvs pool !! name) as [srv|]; [|done]. cbn [mbind option_bind].
  destruct (is_start st || _); cbn [mbind option_bind]; [|by apply get_loop_held].
  unfold restart. destruct (leave pool c st) as [p1|] eqn:El; [|done]. cbn [mbind option_bind].
  destruct (sbs p1 !! srv_sb srv) as [sb|]; [|done]. cbn [mbind option_bind sbalance_conn_new].
  intros [Hh Hg]%get_loop_held. split; [|done]. by rewrite <- (leave_held _ _ _ _ El).
Qed.

Lemma insert_after_perm x y l l' : insert_after x y l = Some l' -> l' ≡ₚ y :: l.
Proof.
  revert l'. induction l as [|z l IH]; intros l'; cbn [insert_after]; [done|].
  destruct (decide (z = x)); [intros [= <-]; apply perm_swap|].
  destruct (insert_after x y l) as [k|]; [|done]. intros [= <-]. rewrite (IH k eq_refl). apply perm_swap.
Qed.

Lemma put_entry_perm cl p fd p' : put_entry cl p fd = Some p' -> entries p' ≡ₚ fd :: entries p.
Proof.
  unfold put_entry. destruct cl, (entries p) as [|e l] eqn:E; try by intros [= <-].
  destruct (last_ptr p) as [x|]; [|done]. cbn [mbind option_bind].
  destruct (insert_after x fd (e :: l)) as [k|] eqn:Ei; [|done]. intros [= <-]. by apply insert_after_perm in Ei.
Qed.

Lemma put_held over pool conn fd pool' conn' :
  fd_pool_put over pool conn fd = Some (pool', conn') -> held pool' ≡ₚ fd :: held pool.
Proof.
  unfold fd_pool_put. destruct (over fd).
  { intros [= <- _]. unfold held. cbn. by rewrite (assoc_L (++)), <- Permutation_cons_append. }
  destruct (c_service conn) as [name|]; [|done]. cbn [mbind option_bind].
  destruct (srvs pool !! name); [|done]. cbn [mbind option_bind].
  destruct (c_sn conn) as [sn|]; [|done]. cbn [mbind option_bind].
  destruct (find_node pool _) as [[i n]|] eqn:Ef; [|done]. cbn [mbind option_bind].
  destruct (c_port conn) as [j|]; [|done]. cbn [mbind option_bind].
  destruct (nd_ports n !! j) as [p|] eqn:Ep; [|done]. cbn [mbind option_bind].
  destruct (put_entry _ p fd) as [p'|] eqn:Eput; [|done]. cbn [mbind option_bind]. intros [= <- _].
  destruct (held_set_port _ _ _ _ _ _ Ef Ep) as (R & H1 & H2). specialize (H2 p' []).
  unfold held, close_fds in H2. cbn [all_nodes closed] in H2. rewrite app_nil_r in H2. unfold held at 1.
  change (closed (set_port _ _ _ _ _ _)) with (closed pool). rewrite H2, H1. by rewrite (put_entry_perm _ _ _ _ Eput).
Qed.

Lemma free_held pool cl : fd_pool_free pool = Some cl -> cl ≡ₚ held pool.
Proof.
  unfold fd_pool_free. destruct (os_walk (services pool)) as [names|]; [|done]. cbn [mbind option_bind].
  assert (forall ns p p', release_services (p : fd_pool T) ns = Some p' -> held p' ≡ₚ held p) as Hrel.
  { induction ns as [|name ns IH]; intros p p'; cbn [release_services]; [by intros [= <-]|].
    destruct (srvs p !! name) as [srv|]; [|done]. cbn [mbind option_bind].
    destruct (release_sb p (srv_sb srv)) as [p1|] eqn:E; [|done]. cbn [mbind option_bind]. intros ->%IH. by eapply release_held. }
  destruct (release_services pool (reverse names)) as [p'|] eqn:E; [|done]. cbn [mbind option_bind].
  destruct (all_nodes p') eqn:En; [|done]. intros [= <-]. rewrite <- (Hrel _ _ _ E). unfold held. by rewrite En.
Qed.

(** C20: No descriptor is lost or used twice.  A descriptor that is put back is
    added to those that the pool holds, idle or closed; [fd_pool_get] takes at most the
    one it returns out of them, which poll found usable, or else returns the first
    successful connection, having closed all it discarded; freeing a connection
    changes nothing; and freeing the pool leaves all of them closed. *)
Theorem fd_pool_descriptors_conserved pool conn :
  (forall alive outcomes st rnds g, fd_pool_get alive outcomes pool conn st rnds = Some g ->
    got_ok alive outcomes pool g) /\
  (forall over fd pool' conn', fd_pool_put over pool conn fd = Some (pool', conn') -> held pool' ≡ₚ fd :: held pool) /\
  (forall pool', fd_pool_free_conn pool conn = Some pool' -> held pool' ≡ₚ held pool) /\
  (forall fds, fd_pool_free pool = Some fds -> fds ≡ₚ held pool).
Proof.
  split; [intros *; apply get_held|]. split; [intros *; apply put_held|]. split; [|apply free_held].
  intros pool'. exact (leave_held pool conn SBCS_START pool').
Qed.

(** The queue of a port, with distinct descriptors, and the last one known if new
    ones go to the end. *)
Definition queue_ok (cycle_last : bool) (p : fd_pool_port) : Prop :=
  NoDup (entries p) /\ (cycle_last = true -> forall x, last (entries p) = Some x -> last_ptr p = Some x).

Lemma insert_after_last l x y : NoDup l -> last l = Some x -> insert_after x y l = Some (l ++ [y]).
Proof.
  induction l as [|z l IH]; [done|]. intros [Hz Hnd]%NoDup_cons Hl. cbn [insert_after]. rewrite last_cons in Hl.
  destruct (last l) as [w|] eqn:E.
  - injection Hl as ->. destruct (decide (z = x)) as [->|_].
    { destruct Hz. apply last_Some in E as [l' ->]. apply elem_of_app. right. by left. }
    by rewrite IH.
  - apply last_None in E as ->. injection Hl as <-. by rewrite decide_True.
Qed.

(** The idle descriptors of a port are a stack, or with [cycle_last] a queue:
    putting back always succeeds and adds the descriptor at the front, or at the end;
    taking closes the unusable ones from the front up to the first usable one. *)
Theorem fd_pool_port_queue cycle_last p fd alive :
  queue_ok cycle_last p -> fd ∉ entries p ->
  (exists p', put_entry cycle_last p fd = Some p' /\ queue_ok cycle_last p' /\
    entries p' = if cycle_last then entries p ++ [fd] else fd :: entries p) /\
  (forall dead rest r, pop_idle alive (entries p) = (dead, rest, r) ->
    entries p = dead ++ option_list r ++ rest /\ Forall (fun fd => alive fd = false) dead /\
    match r with Some fd => alive fd = true | None => rest = [] end /\
    queue_ok cycle_last (mk_port (port_key p) (sockaddr p) (peer p) rest (last_ptr p))).
Proof.
  intros [Hnd Hlast] Hfd. split.
  - assert (forall l, NoDup l -> (cycle_last = true -> last l = Some fd) ->
      queue_ok cycle_last (mk_port (port_key p) (sockaddr p) (peer p) l (Some fd))) as Hok.
    { intros l Hl Hc. split; [done|]. cbn. intros Ht x. by rewrite (Hc Ht). }
    unfold put_entry. destruct cycle_last; [destruct (entries p) as [|e l] eqn:E|].
    + eexists. split; [done|]. split; [|done]. apply Hok; [|done]. apply NoDup_singleton.
    + destruct (last (e :: l)) as [x|] eqn:El.
      2:{ by apply last_None in El. }
      rewrite (Hlast eq_refl x eq_refl). cbn [mbind option_bind]. rewrite (insert_after_last _ x) by done.
      eexists. split; [done|]. split; [|done]. apply Hok.
      * apply NoDup_app. split; [done|]. split; [|apply NoDup_singleton]. by intros y Hy ->%list_elem_of_singleton.
      * intros _. apply last_snoc.
    + eexists. split; [done|]. split; [|done]. apply Hok; [|done]. by constructor.
  - intros dead rest r E. destruct (pop_idle_spec _ _ _ _ _ E) as (He & Hd & Hr). do 3 (split; [done|]).
    rewrite He in Hnd, Hlast. split; cbn.
    + apply NoDup_app in Hnd as (_ & _ & Hnd). by apply NoDup_app in Hnd as (_ & _ & Hnd).
    + intros Hc x Hx. apply Hlast; [done|]. by rewrite !last_app, Hx.
Qed.
End Descriptors.

(** * Iteration *)

Section Iteration.
Context {T : Type} `{!OrderedSet lexcmp T}.
Implicit Types (pool : fd_pool T) (ss : list (sb_service fd_pool_service_node)).

(** What a caller of [fd_pool_iter_ports] sees in a loop. *)
Fixpoint iter_all (fuel : nat) pool (service : list Z) (state : nat * nat) : option (list port_iter) :=
  match fuel with
  | O => None
  | S fuel =>
    r ← fd_pool_iter_ports pool service state;
    match r with
    | None => Some []
    | Some (it, state) => l ← iter_all fuel pool service state; Some (it :: l)
    end
  end.

Definition node_items pool (s : sb_service fd_pool_service_node) : list port_iter :=
  match find_node pool (sn_node (data s)) with
  | Some (_, n) => map (fun p => mk_iter (sn_key (data s)) p (length (entries p))) (nd_ports n)
  | None => []
  end.

Definition items pool ss (st : nat) : list port_iter :=
  match ss with
  | [] => []
  | s :: ss => drop (st - 1) (node_items pool s) ++ concat (map (node_items pool) ss)
  end.

Lemma items_next pool ss : items pool ss 1 = concat (map (node_items pool) ss).
Proof. by destruct ss. Qed.

Lemma iter_skip_spec pool ss : forall k st,
  (1 <= st)%nat -> Forall (fun s => is_Some (find_node pool (sn_node (data s)))) ss ->
  exists r, iter_skip pool ss k st = Some r /\
    match r with
    | None => items pool ss st = []
    | Some (k', st', sn, n) => exists s ss' p, (k <= k')%nat /\ (1 <= st')%nat /\ drop (k' - k) ss = s :: ss' /\ data s = sn /\
        nd_ports n !! (st' - 1)%nat = Some p /\
        items pool ss st = mk_iter (sn_key sn) p (length (entries p)) :: items pool (s :: ss') (S st')
    end.
Proof.
  induction ss as [|s ss IH]; intros k st Hst Hfound; cbn [iter_skip]; [by eexists|].
  apply list.Forall_cons in Hfound as [[[i n] Hn] Hfound]. rewrite Hn. cbn [mbind option_bind].
  destruct (Nat.ltb_spec (length (nd_ports n)) st) as [Hlt|Hge].
  - assert (items pool (s :: ss) st = items pool ss 1) as Hitems.
    { rewrite items_next. cbn [items]. unfold node_items at 1. rewrite Hn, drop_ge; [done|]. rewrite length_map. lia. }
    destruct (IH (S k) 1%nat) as (r & E & Hr); [lia|done|]. exists r. split; [done|]. rewrite Hitems.
    destruct r as [[[[k' st'] sn] n']|]; [|done].
    destruct Hr as (s' & ss' & p & H1 & H2 & H3 & H4). exists s', ss', p. split; [lia|]. split; [done|].
    replace (k' - k)%nat with (S (k' - S k)) by lia. done.
  - eexists. split; [done|]. destruct (lookup_lt_is_Some_2 (nd_ports n) (st - 1)) as [p Hp]; [lia|].
    exists s, ss, p. rewrite Nat.sub_diag. do 5 (split; [done|]). cbn [items]. unfold node_items. rewrite Hn.
    rewrite (drop_S _ (mk_iter (sn_key (data s)) p (length (entries p))) (st - 1)).
    + by replace (S (st - 1))%nat with (S st - 1)%nat by lia.
    + change (map ?f ?l) with (f <$> l). by rewrite list_lookup_fmap, Hp.
Qed.

(** Iterating from the start yields every port of every node of the service exactly
    once, in the order of the balancer, with the number of its idle descriptors. *)
Theorem fd_pool_iter_ports_complete conns pool service srv sb :
  pool_inv conns pool -> srvs pool !! service = Some srv -> sbs pool !! srv_sb srv = Some sb ->
  exists fuel, iter_all fuel pool service (0, 0)%nat = Some (concat (map (node_items pool) (sb_service_ sb))).
Proof.
  intros Hinv Hsrv Hsb.
  assert (Forall (fun s => is_Some (find_node pool (sn_node (data s)))) (sb_service_ sb)) as Hfound.
  { apply list.Forall_forall. intros s Hs. unfold find_node.
    destruct (nodes_ok_find _ _ _ (sn_node (data s)) (hp_nodes _ _ (pi_heap _ _ Hinv))) as (i & n & -> & _); [|by eexists].
    rewrite (refs_of_lookup _ _ _ Hsb). apply elem_of_app. left. by apply (list_elem_of_fmap_2 (fun s => sn_node (data s))). }
  assert (forall l fuel k st, (length l < fuel)%nat -> (1 <= st)%nat -> items pool (drop k (sb_service_ sb)) st = l ->
    iter_all fuel pool service (k, st) = Some l) as Hall.
  { induction l as [|it l IH]; intros [|fuel] k st Hfuel Hst Hl; try (simpl in Hfuel; lia);
      destruct (iter_skip_spec pool (drop k (sb_service_ sb)) k st Hst (Forall_drop _ _ _ Hfound)) as (r & E & Hr);
      cbn [iter_all]; unfold fd_pool_iter_ports; rewrite (find_service_spec conns), Hsrv, Hsb by done;
      cbn [mbind option_bind snd]; rewrite (proj2 (Nat.eqb_neq st 0)) by lia; rewrite E; cbn [mbind option_bind];
      destruct r as [[[[k' st'] sn] n]|]; rewrite Hl in Hr; try done.
    - by destruct Hr as (? & ? & ? & _ & _ & _ & _ & _ & ?).
    - destruct Hr as (s & ss' & p & H1 & H2 & H3 & _ & H5 & H6). rewrite H5. cbn [mbind option_bind].
      injection H6 as -> ->. rewrite drop_drop in H3. replace (k + (k' - k))%nat with k' in H3 by lia.
      simpl in Hfuel. rewrite (IH fuel k' (S st')); [done|lia|lia|by rewrite H3]. }
  set (l := concat _). exists (S (length l)). rewrite <- (Hall l (S (length l)) 0%nat 1%nat); [done|lia|done|apply items_next].
Qed.
End Iteration.
