(* ===== verification/FdPoolExamples.v ===== *)
(** FdPoolExamples: concrete pools, on which the theorems of the pool are applied and
    on which operations that go wrong are exhibited. *)
From stdpp Require Import prelude list numbers sorting gmap.
From Stdlib Require Import ZArith Lia QArith.
From S2P Require Import Prelude Rcycle Avl Sbalance Vtree Bconf BconfVtree FdPool FdPoolConn FdPoolGet.

Local Open Scope Z_scope.
#[local] Set Warnings "-register-all".

(** * A service *)

Definition db : list Z := bytes "db".

(** A resolver with two addresses for one host and one for the others. *)
Definition resolve (host port : list Z) (hints : addrinfo_hints) : gai_error + list addrinfo :=
  inr (mk_addrinfo (1 :: host ++ port) (Some (host, port)) ::
       (if bool_decide (host = bytes "b") then [mk_addrinfo (2 :: host ++ port) (Some (host, port))] else [])).

Definition no_realpath (path : list Z) : option (list Z) := None.

Definition config (kvs : list (list Z * list Z)) : option (vtree_chain bconf_chain) :=
  Some (bconf_vtree (foldl (fun r kv => bconf_add_data r (fst kv) (snd kv)) None kvs)).

Definition two_hosts : option (vtree_chain bconf_chain) :=
  config [(bytes "retries", bytes "1"); (bytes "host.1.name", bytes "a"); (bytes "host.1.port", bytes "80");
          (bytes "host.2.name", bytes "b"); (bytes "host.2.port", bytes "80"); (bytes "host.2.rw_port", bytes "81")].
Definition one_host : option (vtree_chain bconf_chain) :=
  config [(bytes "host.1.name", bytes "c"); (bytes "host.1.port", bytes "80")].

Definition pool0 : fd_pool (tree (list Z)) :=
  default fd_pool_new (r ← fd_pool_create resolve no_realpath db two_hosts None; r).
Definition conn0 : fd_pool_conn rcycle :=
  mk_conn (Some db) None None None None (mk_sc 0 0 rcycle_zero 0 0) 0 (bytes "rw_port,port") [] 0 None false.

Definition all_alive (fd : Z) : bool := true.
Definition no_limit (fd : Z) : bool := false.

(** The first attempt fails, the second one gives descriptor 7. *)
Definition got1 : get_result (T := tree (list Z)) (C := rcycle) :=
  default (mk_got None pool0 conn0 [] [] []) (fd_pool_get all_alive [None; Some 7] pool0 conn0 SBCS_START []).

Lemma got1_eq : fd_pool_get all_alive [None; Some 7] pool0 conn0 SBCS_START [] = Some got1.
Proof. by vm_compute. Qed.

Lemma pool0_created : fd_pool_create resolve no_realpath db two_hosts None = Some (Some pool0).
Proof. by vm_compute. Qed.

Lemma conn0_new : fd_pool_new_conn (X := bconf_chain) rcycle_zero None pool0 db (Some (bytes "rw_port,port")) None = Some conn0.
Proof. by vm_compute. Qed.

Lemma got1_reach : reach (X := bconf_chain) (got_pool got1) [got_conn got1].
Proof.
  apply (reach_used pool0 [] conn0 []).
  - eapply (reach_new_conn rcycle_zero None pool0 [] db); [|apply conn0_new].
    apply reach_created. eapply created_config. apply pool0_created.
  - eapply used_get; [by vm_compute|apply got1_eq].
Qed.

(** * The theorems on the service *)

Lemma fd_pool_lifetimes_witness :
  pool_inv [0%nat] (got_pool got1) /\ is_Some (fd_pool_free_conn (got_pool got1) (got_conn got1)).
Proof.
  destruct (fd_pool_lifetimes (got_pool got1) [got_conn got1] got1_reach) as (Hinv & Hconn & _).
  split; [exact Hinv|]. destruct (Hconn (got_conn got1)) as (_ & Hsb & _); [by apply list_elem_of_singleton|].
  destruct (Hsb 0%nat eq_refl) as (sb & E & Hdone). vm_compute in E. injection E as <-. eapply Hdone. by vm_compute.
Defined.

Lemma fd_pool_get_tries_all_witness :
  exists g, fd_pool_get all_alive (replicate 12 None) pool0 conn0 SBCS_START [] = Some g /\ got_fd g = None /\
    map (fun t => (sn_node (fst t), snd t)) (got_trace g) =
      [(1, 0); (2, 2); (2, 3); (2, 0); (2, 1); (1, 0); (2, 2); (2, 3); (2, 0); (2, 1)]%nat.
Proof.
  destruct (sbs pool0 !! 0%nat) as [sb|] eqn:Esb; [|by vm_compute in Esb].
  destruct (srvs pool0 !! db) as [srv|] eqn:Esrv; [|by vm_compute in Esrv].
  assert (srv_sb srv = 0%nat) as Hid by (vm_compute in Esrv; by injection Esrv as <-).
  assert (pool_inv (option_list (c_sb conn0) ++ []) pool0) as Hinv.
  { apply (create_inv resolve no_realpath db two_hosts None), pool0_created. }
  destruct (fd_pool_get_tries_all [] pool0 conn0 db srv pool0 sb []) as (first & rounds & Hf & Hl & Hr & Hlen & Hget).
  - exact Hinv.
  - done.
  - done.
  - done.
  - by rewrite Hid.
  - vm_compute in Esb. injection Esb as <-. by split.
  - by vm_compute.
  - vm_compute in Esb. injection Esb as <-. by split.
  - by left.
  - intros id n p Hin Hp. assert (Forall (fun x => Forall (fun p => entries p = []) (nd_ports (snd x))) (all_nodes pool0)) as H
      by (vm_compute; repeat constructor).
    rewrite list.Forall_forall in H. specialize (H _ Hin). rewrite list.Forall_forall in H. by apply H.
  - constructor.
  - vm_compute in Esb. injection Esb as <-. change (first = seqZ 0 2) in Hf. subst first.
    change (Z.of_nat (length rounds) = 1) in Hl. destruct rounds as [|r [|]]; [done| |simpl in Hl; lia].
    apply list.Forall_cons in Hr as [Hr _]. change (r = seqZ 0 2) in Hr. subst r.
    destruct (Hget all_alive 2%nat) as (g & Eg & Hfd & Ht & _). exists g.
    match type of Eg with fd_pool_get _ (replicate (length ?l + _) _) _ _ _ _ = _ =>
      assert (length l = 10%nat) as E10 by (by vm_compute) end. rewrite E10 in Eg.
    split; [exact Eg|]. split; [exact Hfd|]. rewrite Ht. by vm_compute.
Defined.

Definition put1 : fd_pool (tree (list Z)) * fd_pool_conn rcycle :=
  default (pool0, conn0) (fd_pool_put no_limit (got_pool got1) (got_conn got1) 7).
Definition freed1 : fd_pool (tree (list Z)) := default pool0 (fd_pool_free_conn (fst put1) (snd put1)).

Lemma fd_pool_descriptors_conserved_witness :
  got_ok all_alive [None; Some 7] pool0 got1 /\ held (fst put1) ≡ₚ 7 :: held (got_pool got1) /\
  held freed1 ≡ₚ held (fst put1) /\ exists fds, fd_pool_free freed1 = Some fds /\ fds ≡ₚ held freed1.
Proof.
  split; [destruct (fd_pool_descriptors_conserved pool0 conn0) as (H & _); eapply H, got1_eq|].
  split; [destruct (fd_pool_descriptors_conserved (got_pool got1) (got_conn got1)) as (_ & H & _)|].
  { apply (H no_limit 7 (fst put1) (snd put1)). by vm_compute. }
  destruct (fd_pool_descriptors_conserved (fst put1) (snd put1)) as (_ & _ & H & _).
  split; [apply H; by vm_compute|]. exists [7]. split; [by vm_compute|].
  destruct (fd_pool_descriptors_conserved freed1 conn0) as (_ & _ & _ & H'). apply H'. by vm_compute.
Defined.

Definition port0 : fd_pool_port := mk_port (bytes "port") [1] (bytes "a 80") [3; 4] (Some 4).

Lemma fd_pool_port_queue_witness :
  exists p, put_entry true port0 5 = Some p /\ entries p = [3; 4; 5].
Proof.
  destruct (fd_pool_port_queue true port0 5 (fun fd => fd =? 4)) as [(p & E & _ & Hp) _].
  - split; [|by intros _ x [= <-]]. by apply (bool_decide_unpack _); vm_compute.
  - by apply (bool_decide_unpack _); vm_compute.
  - exists p. split; [exact E|exact Hp].
Defined.

(** * What goes wrong *)

(** After the hosts of a service were replaced by fewer, reporting the failure of a
    node of the old balancer indexes the services of the new one out of range. *)
Theorem update_hosts_stale_index :
  exists n pool, fd_pool_update_hosts resolve no_realpath (got_pool got1) db one_host = Some (n, pool) /\ n = 1 /\
    fd_pool_get all_alive [Some 8] pool (got_conn got1) SBCS_FAIL [] = None.
Proof. eexists _, _. split; [by vm_compute|]. by split; vm_compute. Qed.

(** A port that the new hosts no longer have stays in use, if the rest of the host is
    the same: its node is found in the pool. *)
Theorem update_hosts_keeps_removed_ports :
  exists n pool, fd_pool_update_hosts resolve no_realpath pool0 db
      (config [(bytes "host.2.name", bytes "b"); (bytes "host.2.port", bytes "80")]) = Some (n, pool) /\
    map (fun x => map port_key (nd_ports (snd x))) (all_nodes pool) =
      [[bytes "port"; bytes "port"; bytes "rw_port"; bytes "rw_port"]].
Proof. eexists _, _. split; by vm_compute. Qed.

(** With a node filter, a node without a key is compared with NULL. *)
Theorem node_key_of_unkeyed_node :
  exists pool, fd_pool_create_unix (T := tree (list Z)) (X := bconf_chain) no_realpath db (bytes "/s") 1 1000 SOCK_STREAM = Some pool /\
    is_Some (fd_pool_get all_alive [Some 7] pool conn0 SBCS_START []) /\
    fd_pool_get all_alive [Some 7] pool (fd_pool_set_node_key conn0 (bytes "1")) SBCS_START [] = None.
Proof. eexists. split; [by vm_compute|]. split; [by eexists; vm_compute|by vm_compute]. Qed.

(** A filter that matches nothing makes a connection that was used before
    dereference its missing node, where a new one reports the failure. *)
Theorem node_key_without_match :
  fd_pool_get all_alive [] (got_pool got1) (fd_pool_set_node_key (got_conn got1) (bytes "3")) SBCS_START [] = None /\
  exists g, fd_pool_get all_alive [] pool0 (fd_pool_set_node_key conn0 (bytes "3")) SBCS_START [] = Some g /\ got_fd g = None.
Proof. split; [by vm_compute|]. eexists. split; by vm_compute. Qed.

(** Changing the port key goes on after the current port of the node instead of
    restarting its ports: the first two are not tried. *)
Theorem port_key_does_not_restart :
  exists conn g, fd_pool_set_port_key (X := bconf_chain) None (got_conn got1) (Some (bytes "port")) = Some conn /\
    fd_pool_get all_alive (replicate 9 None) (got_pool got1) conn SBCS_FAIL [] = Some g /\
    map (fun t => (sn_node (fst t), snd t)) (got_trace g) = [(1, 0); (2, 0); (2, 1)]%nat /\
    map (fun t => (sn_node (fst t), snd t)) (got_trace got1) = [(1, 0); (2, 2)]%nat.
Proof. eexists _, _. split; [by vm_compute|]. split; [by vm_compute|]. by split; vm_compute. Qed.

(** Turning on [cycle_last] when the descriptor that was put last is in use inserts
    after an entry that is not in the list. *)
Theorem cycle_last_toggled :
  exists p1 p2, put_entry false (mk_port (bytes "port") [1] (bytes "a 80") [] None) 7 = Some p1 /\
    put_entry false p1 8 = Some p2 /\ pop_idle all_alive (entries p2) = ([], [7], Some 8) /\
    put_entry true (mk_port (port_key p2) (sockaddr p2) (peer p2) [7] (last_ptr p2)) 9 = None.
Proof. eexists _, _. split; [by vm_compute|]. split; [by vm_compute|]. by split; vm_compute. Qed.
