(* ===== verification/BufString.v ===== *)
(** BufString: growing string buffers (src/util/lib/buf_string.c).

    A buffer is its allocated bytes and the position of the terminator.  Memory that
    was never written holds the bytes given by [junk], which no theorem constrains.  A
    write outside the allocation fails, and so does a loop that does not end; what
    [vsnprintf] produces is an argument. *)
From stdpp Require Import prelude list numbers.
From Stdlib Require Import ZArith Lia.
From S2P Require Import Prelude.

Local Open Scope Z_scope.

Record buf_string := mk_bs { bs_buf : option (list Z); bs_len : Z; bs_pos : Z }.

Definition BUFCAT_SIZE : Z := 1024.

Definition bs_null : buf_string := mk_bs None 0 0.

Section Code.
Context (junk : nat -> list Z).

(** [realloc], which keeps what fits. *)
Definition xrealloc (buf : option (list Z)) (size : Z) : list Z :=
  let n := Z.to_nat size in
  take n (default [] buf ++ junk n ++ replicate n 0).

(** Growing by a half; [fuel] bounds the turns. *)
Fixpoint grow (fuel : nat) (new_size required : Z) : option Z :=
  if new_size <? required then
    match fuel with
    | O => None
    | S fuel => grow fuel (i32 (new_size + Z.quot new_size 2)) required
    end
  else Some new_size.

Definition resize (b : buf_string) (required : Z) : option (Z * buf_string) :=
  match bs_buf b with
  | Some _ =>
    let remaining := i32 (bs_len b - bs_pos b) in
    if required <? remaining then Some (remaining, b) else
    let required := i32 (required + bs_pos b) in
    n ← grow (Z.to_nat required) (bs_len b) required;
    Some (i32 (n - bs_pos b), mk_bs (Some (xrealloc (bs_buf b) n)) n (bs_pos b))
  | None =>
    n ← grow (Z.to_nat required) BUFCAT_SIZE required;
    Some (i32 (n - 0), mk_bs (Some (xrealloc None n)) n 0)
  end.

(** Copy bytes to an offset of an allocation. *)
Definition memcpy (mem : list Z) (off : Z) (data : list Z) : option (list Z) :=
  let o := Z.to_nat off in
  if (0 <=? off) && (off + Z.of_nat (length data) <=? Z.of_nat (length mem))
  then Some (take o mem ++ data ++ drop (o + length data) mem) else None.

Definition bufwrite (b : buf_string) (data : list Z) : option (Z * buf_string) :=
  let len := Z.of_nat (length data) in
  '(_, b) ← resize b (i32 (len + 1));
  mem ← bs_buf b;
  mem ← memcpy mem (bs_pos b) data;
  let pos := i32 (bs_pos b + len) in
  mem ← memcpy mem pos [0];
  Some (i32 len, mk_bs (Some mem) (bs_len b) pos).

(** What [vsnprintf] stores of [out] in [size] bytes. *)
Definition snprintf_at (mem : list Z) (off size : Z) (out : list Z) : option (list Z) :=
  if size <=? 0 then Some mem else memcpy mem off (take (Z.to_nat (size - 1)) out ++ [0]).

(** [out] is the formatted string. *)
Definition vbufcat (b : buf_string) (out : list Z) : option (Z * buf_string) :=
  '(remaining, b) ← resize b 0;
  mem ← bs_buf b;
  mem ← snprintf_at mem (bs_pos b) remaining out;
  let b := mk_bs (Some mem) (bs_len b) (bs_pos b) in
  let res := i32 (Z.of_nat (length out)) in
  b ← (if remaining <=? res then
         '(remaining, b) ← resize b (i32 (res + 1));
         mem ← bs_buf b;
         mem ← snprintf_at mem (bs_pos b) remaining out;
         Some (mk_bs (Some mem) (bs_len b) (bs_pos b))
       else Some b);
  Some (res, mk_bs (bs_buf b) (bs_len b) (i32 (bs_pos b + res))).

Definition bsprealloc (b : buf_string) (size : Z) : buf_string :=
  match bs_buf b with
  | None => mk_bs (Some (xrealloc None size)) (i32 size) 0
  | Some _ => b
  end.

Definition bscat := vbufcat.
Definition bswrite := bufwrite.

(** [file] is what is left to read of a regular file. *)
Fixpoint bs_fread_all (fuel : nat) (b : buf_string) (file : list Z) (tot : Z) : option (Z * buf_string) :=
  match fuel with
  | O => None
  | S fuel =>
    let remaining := i32 (bs_len b - bs_pos b) in
    '(remaining, b) ← (if remaining <? 512 then resize b 2048 else Some (remaining, b));
    let data := take (Z.to_nat remaining) file in
    mem ← bs_buf b;
    mem ← memcpy mem (bs_pos b) data;
    let r := Z.of_nat (length data) in
    let b := mk_bs (Some mem) (bs_len b) (i32 (bs_pos b + r)) in
    if r =? 0 then Some (tot + r, b) else bs_fread_all fuel b (drop (Z.to_nat remaining) file) (tot + r)
  end.
End Code.

(** * Proofs *)

Section Proofs.
Context (junk : nat -> list Z).
Implicit Types (b : buf_string).

(** A buffer with the bytes [s] before its position. *)
Definition holds b (s : list Z) : Prop :=
  match bs_buf b with
  | None => s = []
  | Some mem => Z.of_nat (length mem) = bs_len b /\ 0 <= bs_pos b <= bs_len b /\ bs_len b < 2 ^ 30 /\
                take (Z.to_nat (bs_pos b)) mem = s
  end.

(** The terminator. *)
Definition terminated b : Prop :=
  exists mem, bs_buf b = Some mem /\ mem !! Z.to_nat (bs_pos b) = Some 0.

(** Enough room to start growing from. *)
Definition growable b : Prop := bs_buf b = None \/ 2 <= bs_len b.

Lemma grow_spec fuel : forall n required,
  2 <= n < 2 ^ 30 -> required <= 2 ^ 29 -> (Z.to_nat (required - n) <= fuel)%nat ->
  exists m, grow fuel n required = Some m /\ n <= m < 2 ^ 30 /\ required <= m.
Proof.
  induction fuel as [|fuel IH]; intros n required Hn Hr Hf; cbn [grow]; destruct (Z.ltb_spec n required); try lia.
  1,3: exists n; repeat split; lia.
  assert (0 < Z.quot n 2 <= n / 2) by (rewrite Z.quot_div_nonneg by lia; split; [apply Z.div_str_pos|]; lia).
  assert (n / 2 < 2 ^ 28) by (apply Z.div_lt_upper_bound; lia).
  rewrite swrap_small by (simpl; lia). destruct (IH (n + Z.quot n 2) required) as (m & E & Hm & Hm'); [lia..|].
  exists m. repeat split; lia || done.
Qed.

Lemma length_xrealloc buf n : 0 <= n -> Z.of_nat (length (xrealloc junk buf n)) = n.
Proof. intros Hn. unfold xrealloc. rewrite length_take, !length_app, length_replicate. lia. Qed.

Lemma take_xrealloc mem n k : (k <= Z.to_nat n)%nat -> (k <= length mem)%nat -> take k (xrealloc junk (Some mem) n) = take k mem.
Proof. intros Hk Hl. unfold xrealloc. change (default [] (Some mem)) with mem. by rewrite take_take, Nat.min_l, take_app_le by lia. Qed.

Definition size (s : list Z) : Z := Z.of_nat (length s).

Lemma holds_pos mem len pos s : holds (mk_bs (Some mem) len pos) s -> pos = size s.
Proof. intros (Hl & Hp & _ & <-). simpl in *. unfold size. rewrite length_take. lia. Qed.

(** Room to hold [n] bytes is there or can be made. *)
Definition fits b (n : Z) : Prop := n <= 2 ^ 29 /\ (bs_buf b = None \/ 2 <= bs_len b \/ n <= bs_len b).

(** [resize] makes room and keeps what is held. *)
Lemma resize_spec b s required :
  holds b s -> 0 <= required -> fits b (size s + required) ->
  exists mem n, resize junk b required = Some (n - size s, mk_bs (Some mem) n (size s)) /\
    holds (mk_bs (Some mem) n (size s)) s /\ size s + required <= n < 2 ^ 30 /\ (2 <= n \/ (bs_buf b <> None /\ n = bs_len b)).
Proof.
  intros Hh Hr [Hmax Hfit]. unfold resize. destruct b as [[mem|] len pos]; cbn [bs_buf bs_len bs_pos] in *.
  - pose proof (holds_pos _ _ _ _ Hh) as ->. destruct Hh as (Hl & Hp & H30 & Hs). cbn [bs_len bs_pos] in *.
    rewrite !(swrap_small 32) by (simpl; lia). destruct (Z.ltb_spec required (len - size s)).
    { exists mem, len. split; [done|]. split; [done|]. split; [lia|by right]. }
    assert (exists m, grow (Z.to_nat (required + size s)) len (required + size s) = Some m /\
      len <= m < 2 ^ 30 /\ required + size s <= m /\ (2 <= m \/ m = len)) as (m & -> & Hm & Hm' & Hm2).
    { destruct (decide (2 <= len)).
      - destruct (grow_spec (Z.to_nat (required + size s)) len (required + size s)) as (m & E & ? & ?); [lia..|].
        exists m. repeat split; lia || done.
      - destruct Hfit as [|[|]]; [done|lia|]. exists len.
        destruct (Z.to_nat (required + size s)); cbn [grow]; rewrite (proj2 (Z.ltb_ge _ _)) by lia; repeat split; lia || by right. }
    cbn [mbind option_bind]. rewrite swrap_small by (simpl; lia). exists (xrealloc junk (Some mem) m), m.
    split; [done|]. split; [|split; [lia|destruct Hm2; [by left|by right]]]. split; [by rewrite length_xrealloc by lia|]. cbn [bs_pos bs_len].
    split; [lia|]. split; [lia|]. rewrite take_xrealloc by lia. done.
  - cbn in Hh. subst s. change (size []) with 0 in *.
    destruct (grow_spec (Z.to_nat required) BUFCAT_SIZE required) as (m & -> & Hm & Hm'); [unfold BUFCAT_SIZE; lia..|].
    unfold BUFCAT_SIZE in Hm. cbn [mbind option_bind]. rewrite swrap_small by (simpl; lia).
    exists (xrealloc junk None m), m. rewrite Z.sub_0_r. split; [done|]. split; [|split; [lia|left; lia]].
    split; [by rewrite length_xrealloc by lia|]. cbn [bs_pos bs_len]. split; [lia|]. split; [lia|done].
Qed.

Lemma memcpy_spec mem off data :
  0 <= off -> off + size data <= size mem ->
  exists mem', memcpy mem off data = Some mem' /\ length mem' = length mem /\
    take (Z.to_nat off) mem' = take (Z.to_nat off) mem /\
    take (Z.to_nat (off + size data)) mem' = take (Z.to_nat off) mem ++ data.
Proof.
  intros Ho Hl. unfold size in *. unfold memcpy. rewrite (proj2 (Z.leb_le _ _)), (proj2 (Z.leb_le _ _)) by lia. cbn [andb].
  eexists. split; [done|]. split; [rewrite !length_app, length_take, length_drop; lia|].
  assert (length (take (Z.to_nat off) mem) = Z.to_nat off) as Ht by (rewrite length_take; lia).
  split; [by rewrite take_app_length'|].
  replace (Z.to_nat (off + Z.of_nat (length data))) with (length (take (Z.to_nat off) mem ++ data)) by (rewrite length_app; lia).
  by rewrite (assoc_L (++)), take_app_length.
Qed.

(** Writing appends the bytes, leaves a terminator after them and stays within the
    allocation. *)
Lemma bufwrite_spec b s data :
  holds b s -> fits b (size s + size data + 1) ->
  exists b', bufwrite junk b data = Some (size data, b') /\ holds b' (s ++ data) /\ terminated b' /\ bs_buf b' <> None /\
    (2 <= bs_len b' \/ bs_len b' = bs_len b).
Proof.
  intros Hh Hfit. assert (0 <= size data /\ 0 <= size s) as [Hd0 Hs0] by (unfold size; lia).
  destruct Hfit as [Hmax Hfit]. unfold bufwrite. fold (size data). rewrite !(swrap_small 32) by (simpl; lia).
  destruct (resize_spec b s (size data + 1)) as (mem & n & -> & Hh1 & Hn & Hn2); [done|lia|split; [lia|]|].
  { destruct Hfit as [|[|]]; [by left|by right; left|right; right; lia]. }
  cbn [mbind option_bind bs_buf bs_pos bs_len]. destruct Hh1 as (Hl & _ & _ & Htake). cbn [bs_len bs_pos] in *.
  destruct (memcpy_spec mem (size s) data) as (m1 & -> & Hl1 & Ht1 & Ht2); [lia|unfold size in *; lia|].
  cbn [mbind option_bind]. rewrite swrap_small by (simpl; lia).
  destruct (memcpy_spec m1 (size s + size data) [0]) as (m2 & -> & Hl2 & Ht3 & Ht4); [lia|unfold size in *; simpl; lia|].
  cbn [mbind option_bind]. eexists. split; [done|]. split; [|split; [|split; [done|]]].
  3:{ destruct Hn2 as [|[_ ?]]; [by left|by right]. }
  - split; [cbn; lia|]. cbn [bs_pos bs_len]. split; [lia|]. split; [lia|]. by rewrite Ht3, Ht2, Htake.
  - eexists. split; [done|]. cbn [bs_pos]. rewrite <- (lookup_take_lt _ (Z.to_nat (size s + size data + size [0]))) by (unfold size; simpl; lia).
    rewrite Ht4. rewrite lookup_app_r; rewrite length_take; [|unfold size in *; lia].
    replace (_ - _)%nat with 0%nat by (unfold size in *; lia). done.
Qed.

(** Formatting into what is left, with a second attempt after growing. *)
Lemma snprintf_full mem s n out :
  holds (mk_bs (Some mem) n (size s)) s -> size s + size out + 1 <= n ->
  exists mem', snprintf_at mem (size s) (n - size s) out = Some mem' /\ length mem' = length mem /\
    take (Z.to_nat (size s + size out)) mem' = s ++ out /\ mem' !! Z.to_nat (size s + size out) = Some 0.
Proof.
  intros (Hl & Hp & _ & Hs) Hn. cbn [bs_len bs_pos] in *. assert (0 <= size s /\ 0 <= size out) as [] by (unfold size; lia).
  unfold snprintf_at. rewrite (proj2 (Z.leb_gt _ _)), take_ge by (unfold size in *; lia).
  destruct (memcpy_spec mem (size s) (out ++ [0])) as (m & -> & Hm & _ & Ht); [lia|unfold size in *; rewrite length_app; simpl; lia|].
  rewrite Hs, (assoc_L (++)) in Ht. exists m. split; [done|]. split; [done|].
  assert (Z.to_nat (size s + size out) = length (s ++ out)) as -> by (rewrite length_app; unfold size; lia). split.
  - apply (f_equal (take (length (s ++ out)))) in Ht. rewrite take_take, Nat.min_l, take_app_length in Ht; [done|].
    unfold size. rewrite !length_app. simpl. lia.
  - rewrite <- (lookup_take_lt _ (Z.to_nat (size s + size (out ++ [0])))) by (unfold size; rewrite !length_app; simpl; lia).
    rewrite Ht, lookup_app_r, Nat.sub_diag by done. done.
Qed.

Lemma snprintf_part mem s n out :
  holds (mk_bs (Some mem) n (size s)) s ->
  exists mem', snprintf_at mem (size s) (n - size s) out = Some mem' /\ holds (mk_bs (Some mem') n (size s)) s.
Proof.
  intros (Hl & Hp & Hn & Hs). cbn [bs_len bs_pos] in *. unfold snprintf_at.
  destruct (Z.leb_spec (n - size s) 0); [by exists mem|].
  destruct (memcpy_spec mem (size s) (take (Z.to_nat (n - size s - 1)) out ++ [0])) as (m & -> & Hm & Ht & _); [lia| |].
  { unfold size in *. rewrite length_app, length_take. simpl. lia. }
  exists m. split; [done|]. split; [cbn; lia|]. split; [done|]. split; [done|]. cbn [bs_pos]. by rewrite Ht.
Qed.

Lemma vbufcat_spec b s out :
  holds b s -> fits b (size s + size out + 1) ->
  exists b', vbufcat junk b out = Some (size out, b') /\ holds b' (s ++ out) /\ terminated b' /\ (growable b -> growable b').
Proof.
  intros Hh [Hmax Hfit]. assert (0 <= size s /\ 0 <= size out) as [Hs0 Ho0] by (unfold size; lia). unfold vbufcat.
  destruct (resize_spec b s 0) as (mem & n & -> & Hh1 & Hn & Hn2); [done|lia|split; [lia|]|].
  { destruct Hfit as [|[|]]; [by left|by right; left|right; right; lia]. }
  cbn [mbind option_bind bs_buf bs_pos bs_len]. fold (size out). rewrite !(swrap_small 32 (size out)) by (simpl; lia).
  assert (forall mem n, holds (mk_bs (Some mem) n (size s)) s -> size s + size out + 1 <= n -> exists mem' b',
    snprintf_at mem (size s) (n - size s) out = Some mem' /\
    b' = mk_bs (Some mem') n (i32 (size s + size out)) /\ holds b' (s ++ out) /\ terminated b') as Hfull.
  { intros mem' n' Hh' Hn'. destruct (snprintf_full _ _ _ out Hh' Hn') as (m & E & Hm & Ht & Hz).
    exists m, (mk_bs (Some m) n' (i32 (size s + size out))). rewrite (swrap_small 32) by (simpl; lia). split; [done|].
    split; [done|]. destruct Hh' as (Hl & _ & H30 & _). cbn [bs_len bs_pos] in *.
    split; [|by exists m]. split; [cbn; lia|]. cbn [bs_pos bs_len]. split; [lia|]. by split. }
  destruct (Z.leb_spec (n - size s) (size out)) as [Hle|Hgt].
  - destruct (snprintf_part mem s n out Hh1) as (m1 & -> & Hh2). cbn [mbind option_bind bs_buf].
    rewrite swrap_small by (simpl; lia).
    destruct (resize_spec (mk_bs (Some m1) n (size s)) s (size out + 1)) as (m2 & n2 & -> & Hh3 & Hn3 & Hn4); [done|lia| |].
    { split; [lia|]. right. cbn [bs_len]. destruct Hn2 as [|[Hb Hn2]]; [by left|]. destruct Hfit as [|[|]]; [done|left; lia|right; lia]. }
    cbn [mbind option_bind bs_buf bs_pos bs_len]. destruct (Hfull m2 n2 Hh3) as (m3 & b' & -> & -> & Hb'); [lia|].
    cbn [mbind option_bind bs_buf bs_pos bs_len]. eexists. split; [done|]. split; [exact (proj1 Hb')|]. split; [exact (proj2 Hb')|]. intros Hg. right. cbn [bs_len] in *.
    destruct Hg, Hn2 as [|[? ->]]; (done || lia).
  - destruct (Hfull mem n Hh1) as (m3 & b' & -> & -> & Hb'); [lia|]. cbn [mbind option_bind bs_buf bs_pos bs_len].
    eexists. split; [done|]. split; [exact (proj1 Hb')|]. split; [exact (proj2 Hb')|]. intros Hg. right. cbn [bs_len].
    destruct Hg, Hn2 as [|[? ->]]; (done || lia).
Qed.

(** Reading to the end of a file appends all of it; no terminator is written. *)
Lemma bs_fread_all_spec fuel : forall b s file tot,
  (length file < fuel)%nat -> holds b s -> (bs_buf b = None -> b = bs_null) -> fits b 2 ->
  size s + size file + 2048 <= 2 ^ 29 ->
  exists b', bs_fread_all junk fuel b file tot = Some (tot + size file, b') /\ holds b' (s ++ file).
Proof.
  induction fuel as [|fuel IH]; intros b s file tot Hfuel Hh Hnull [_ Hg] Hmax; [lia|]. cbn [bs_fread_all].
  assert (0 <= size s /\ 0 <= size file) as [Hs0 Hf0] by (unfold size; lia).
  set (room := if _ <? 512 then _ else _).
  assert (exists mem n, room = Some (n - size s, mk_bs (Some mem) n (size s)) /\
    holds (mk_bs (Some mem) n (size s)) s /\ 512 <= n - size s /\ 2 <= n < 2 ^ 30) as (mem & n & -> & Hh1 & Hroom & Hn).
  { subst room. assert (forall n, 2048 <= n -> 2 <= n) by lia.
    destruct (Z.ltb_spec (i32 (bs_len b - bs_pos b)) 512) as [Hlt|Hge].
    - destruct (resize_spec b s 2048) as (mem & n & E & H1 & H2 & _); [done|lia|split; [lia|]|].
      { destruct Hg as [|[|]]; [by left|by right; left|by right; left]. }
      exists mem, n. split; [done|]. split; [done|]. lia.
    - destruct b as [[mem|] len pos]; [|by rewrite (Hnull eq_refl) in Hge].
      pose proof (holds_pos _ _ _ _ Hh) as ->. cbn [bs_len bs_pos bs_buf] in *.
      pose proof Hh as (Hl & Hp & H30 & _). cbn [bs_len bs_pos] in *. rewrite (swrap_small 32) in * by (simpl; lia).
      exists mem, len. split; [done|]. split; [done|]. lia. }
  cbn [mbind option_bind bs_buf bs_pos bs_len]. clear Hh Hg. destruct Hh1 as (Hl & Hp & _ & Ht). cbn [bs_len bs_pos] in *.
  set (data := take (Z.to_nat (n - size s)) file). fold (size data).
  assert (size data <= n - size s /\ size data <= size file) as [Hd Hd'] by (subst data; unfold size in *; rewrite length_take; lia).
  destruct (memcpy_spec mem (size s) data) as (m & -> & Hm & _ & Htake); [lia|unfold size in *; lia|].
  assert (0 <= size data) by (unfold size; lia). cbn [mbind option_bind]. rewrite swrap_small by (simpl; lia). rewrite Ht in Htake.
  assert (holds (mk_bs (Some m) n (size s + size data)) (s ++ data)) as Hh2.
  { split; [cbn; lia|]. cbn [bs_pos bs_len]. split; [lia|]. split; [lia|done]. }
  destruct (Z.eqb_spec (size data) 0) as [E0|E0].
  - assert (file = []) as ->.
    { subst data. unfold size in *. rewrite length_take in E0. destruct file; [done|]. simpl in E0. lia. }
    eexists. split; [by rewrite E0|]. replace data with (@nil Z) in * by (by destruct data). exact Hh2.
  - destruct (IH (mk_bs (Some m) n (size s + size data)) (s ++ data) (drop (Z.to_nat (n - size s)) file) (tot + size data))
      as (b' & E & Hb').
    + rewrite length_drop. subst data. unfold size in *. rewrite length_take in E0. lia.
    + done.
    + done.
    + split; [lia|]. right. left. cbn. lia.
    + subst data. unfold size in *. rewrite length_app, length_take, length_drop. lia.
    + exists b'. rewrite E. split.
      * do 2 f_equal. subst data. unfold size in *. rewrite length_take, length_drop. lia.
      * rewrite <- (assoc_L (++)) in Hb'. unfold data in Hb'. by rewrite take_drop in Hb'.
Qed.

Lemma growable_fits b n : growable b -> n <= 2 ^ 29 -> fits b n.
Proof. intros [H|H] Hn; split; auto. Qed.

(** Both ways of appending, for a client that writes many times. *)
Lemma bufwrite_grows b s data :
  holds b s -> growable b -> size s + size data + 1 <= 2 ^ 29 ->
  exists b', bufwrite junk b data = Some (size data, b') /\ holds b' (s ++ data) /\ growable b' /\ terminated b'.
Proof.
  intros Hh Hg Hn. destruct (bufwrite_spec b s data Hh (growable_fits _ _ Hg Hn)) as (b' & E & Hh' & Ht & Hb & Hl).
  exists b'. split; [done|]. split; [done|]. split; [|done]. right. destruct Hl as [|Hl]; [done|]. destruct Hg as [Hnull|]; [|lia].
  revert E. unfold bufwrite, resize. rewrite Hnull. fold (size data).
  destruct (grow _ BUFCAT_SIZE _) as [n|] eqn:Eg; [|done]. cbn [mbind option_bind bs_buf bs_pos bs_len].
  destruct (memcpy _ _ _); [|done]. cbn [mbind option_bind]. destruct (memcpy _ _ _); [|done]. intros [= _ <-]. cbn [bs_len].
  assert (0 <= size data /\ 0 <= size s) as [] by (unfold size; lia). rewrite swrap_small in Eg by (simpl; lia).
  destruct (grow_spec (Z.to_nat (size data + 1)) BUFCAT_SIZE (size data + 1)) as (m & E' & Hm & _); [done|lia|unfold BUFCAT_SIZE; lia|].
  rewrite E' in Eg. injection Eg as ->. unfold BUFCAT_SIZE in Hm. lia.
Qed.

Lemma vbufcat_grows b s out :
  holds b s -> growable b -> size s + size out + 1 <= 2 ^ 29 ->
  exists b', vbufcat junk b out = Some (size out, b') /\ holds b' (s ++ out) /\ growable b' /\ terminated b'.
Proof.
  intros Hh Hg Hn. destruct (vbufcat_spec b s out Hh (growable_fits _ _ Hg Hn)) as (b' & E & Hh' & Ht & Hl). eauto 10.
Qed.

(** Buffers of any history hold exactly what was written to them: writing and
    formatting append, end in a terminator within the allocation and always return,
    as long as the buffer was not preallocated empty and stays below 512 MiB. *)
Theorem buf_string_appends b s data :
  holds b s -> fits b (size s + size data + 1) ->
  (exists b', bswrite junk b data = Some (size data, b') /\ holds b' (s ++ data) /\ terminated b') /\
  (exists b', bscat junk b data = Some (size data, b') /\ holds b' (s ++ data) /\ terminated b').
Proof.
  intros Hh Hf. split.
  - destruct (bufwrite_spec b s data Hh Hf) as (b' & E & H1 & H2 & _). eauto.
  - destruct (vbufcat_spec b s data Hh Hf) as (b' & E & H1 & H2 & _). eauto.
Qed.

(** A buffer that was preallocated with no bytes never finishes growing. *)
Theorem prealloc_empty_hangs fuel required : 0 < required -> grow fuel (bs_len (bsprealloc junk bs_null 0)) required = None.
Proof.
  intros Hr. cbn. induction fuel as [|fuel IH]; cbn [grow]; rewrite (proj2 (Z.ltb_lt _ _)) by done; [done|exact IH].
Qed.
End Proofs.

Lemma buf_string_appends_witness :
  exists b, bscat (fun _ => []) (mk_bs (Some [104; 0]) 2 1) (bytes "ello") = Some (4, b) /\ holds b (bytes "hello").
Proof.
  destruct (buf_string_appends (fun _ => []) (mk_bs (Some [104; 0]) 2 1) [104] (bytes "ello"))
    as [_ (b & E & H & _)].
  - repeat split; simpl; lia.
  - split; [vm_compute; discriminate|]. right. left. simpl. lia.
  - exists b. split; [exact E|exact H].
Defined.
