(* ===== verification/Strings.v ===== *)
(** Strings: the string functions of src/util/lib/string_functions.c.

    A string is the list of its bytes without the terminator; a pointer into it is the
    suffix it points at, or an index.  Functions that read raw memory take the readable
    bytes, terminator included, and fail on a read beyond them.  The character classes
    are those of the C locale. *)
From stdpp Require Import prelude list numbers sorting.
From Stdlib Require Import ZArith Lia.
From S2P Require Import Prelude BufString.

Local Open Scope Z_scope.

(** * UTF-8 *)

Definition write_utf8_char (ch : Z) : list Z :=
  if ch <? 0x80 then [u8 ch]
  else if ch <? 0x800 then [u8 (0xC0 .| ch >> 6); u8 (0x80 .| (ch .& 0x3F))]
  else if ch <? 0x10000 then
    [u8 (0xE0 .| ch >> 12); u8 (0x80 .| ((ch >> 6) .& 0x3F)); u8 (0x80 .| (ch .& 0x3F))]
  else [u8 (0xF0 .| ch >> 18); u8 (0x80 .| ((ch >> 12) .& 0x3F)); u8 (0x80 .| ((ch >> 6) .& 0x3F));
        u8 (0x80 .| (ch .& 0x3F))].

(** Short-circuit conjunction of conditions that read memory. *)
Definition also (a b : option bool) : option bool := x ← a; if (x : bool) then b else Some false.

(** A continuation byte. *)
Definition cont (mem : list Z) (i : nat) : option bool := c ← mem !! i; Some (c .& 0xC0 =? 0x80).

(** A character that was encoded in more bytes than needed is refused. *)
Definition recheck (least ch : Z) : Z := if ch <? least then 63 else ch.

(** The character at the start of [mem] and the bytes it takes; [end_] is the distance
    to the end if one is given. *)
Definition utf8_char_safe (mem : list Z) (end_ : option Z) : option (Z * nat) :=
  let maxl := match end_ with None => 4 | Some n => n end in
  if (match end_ with None => false | Some n => n <=? 0 end) then Some (0, 0%nat) else
  c0 ← mem !! 0%nat;
  if c0 <=? 0x80 then Some (c0, 1%nat) else
  two ← also (Some ((2 <=? maxl) && (c0 .& 0xE0 =? 0xC0))) (cont mem 1);
  if (two : bool) then
    c1 ← mem !! 1%nat;
    let ch := (c0 .& 0x1F) << 6 .| (c1 .& 0x3F) in
    Some (recheck 0x80 ch, 2%nat)
  else
  three ← also (Some ((3 <=? maxl) && (c0 .& 0xF0 =? 0xE0))) (also (cont mem 1) (cont mem 2));
  if (three : bool) then
    c1 ← mem !! 1%nat; c2 ← mem !! 2%nat;
    let ch := (c0 .& 0xF) << 12 .| (c1 .& 0x3F) << 6 .| (c2 .& 0x3F) in
    Some (recheck 0x800 ch, 3%nat)
  else
  four ← also (Some ((4 <=? maxl) && (c0 .& 0xF8 =? 0xF0))) (also (cont mem 1) (also (cont mem 2) (cont mem 3)));
  if (four : bool) then
    c1 ← mem !! 1%nat; c2 ← mem !! 2%nat; c3 ← mem !! 3%nat;
    let ch := (c0 .& 0xE) << 18 .| (c1 .& 0x3F) << 12 .| (c2 .& 0x3F) << 6 .| (c3 .& 0x3F) in
    Some (recheck 0x10000 ch, 4%nat)
  else Some (c0, 1%nat).

Definition utf8_char (mem : list Z) : option (Z * nat) := utf8_char_safe mem None.

(** * Trimming *)

Definition ltrim (str : list Z) : list Z := skip_space str.

(** [ptr] is the first of the spaces before the current position. *)
Fixpoint rtrim_loop (str : list Z) (i : nat) (ptr : option nat) : option nat :=
  match str with
  | [] => ptr
  | c :: str =>
    rtrim_loop str (S i)
      (if isspace c then match ptr with None => Some i | Some _ => ptr end else None)
  end.

Definition rtrim (str : list Z) : list Z :=
  match rtrim_loop str 0 None with Some p => take p str | None => str end.

Definition trim (str : list Z) : list Z := rtrim (ltrim str).

(** * Searching *)

Definition toupper (c : Z) : Z := if (97 <=? c) && (c <=? 122) then c - 32 else c.

Section StrStr.
Context (up : Z -> Z).

Definition in_delim (delim : option (list Z)) (c : Z) : bool :=
  match delim with None => true | Some d => bool_decide (c ∈ d) end.

(** Compare the needle with the haystack: what is left of both. *)
Fixpoint match_loop (tmp tmp1 : list Z) : list Z * list Z :=
  match tmp, tmp1 with
  | c :: tmp', d :: tmp1' => if up d =? up c then match_loop tmp' tmp1' else (tmp, tmp1)
  | _, _ => (tmp, tmp1)
  end.

Definition match_here (h needle : list Z) (delim : option (list Z)) : bool :=
  match match_loop h needle with
  | ([], []) => true
  | (c :: _, []) => in_delim delim c
  | _ => false
  end.

(** [prev] is the character before [h], [first] the one that [ns] points at. *)
Fixpoint strstr_loop (prev : option Z) (h : list Z) (first : Z) (needle : list Z) (delim : option (list Z)) (i : nat) :
    option nat :=
  match h with
  | [] => None
  | c :: h' =>
    if (up c =? up first) && match prev with None => true | Some p => in_delim delim p end && match_here h needle delim
    then Some i else strstr_loop (Some c) h' first needle delim (S i)
  end.

(** [ne] is the offset of the end of the needle in [ns]. *)
Definition strstr_ptrs (h ns : list Z) (ne : option nat) (delim : option (list Z)) : option nat :=
  strstr_loop None h (hd 0 ns) (match ne with None => ns | Some n => take n ns end) delim 0.
End StrStr.

Definition stristrptrs := strstr_ptrs toupper.
Definition strstrptrs := strstr_ptrs (fun c => c).

(** * Replacing *)

Definition strmodify (str : list Z) (modifier : Z -> Z) : list Z := map modifier str.

Definition count_chars (str : option (list Z)) (ch : Z) : Z :=
  match str with None => 0 | Some s => Z.of_nat (length (filter (fun c => c = ch) s)) end.

Definition is_prefix (p s : list Z) : bool := bool_decide (take (length p) s = p).

(** The first occurrence of a string. *)
Fixpoint strstr (s from : list Z) : option nat :=
  if is_prefix from s then Some 0%nat
  else match s with [] => None | _ :: s => S <$> strstr s from end.

(** The loop of [str_replace]; each turn but the last consumes the subject if [from]
    is not empty. *)
Fixpoint replace_loop (junk : nat -> list Z) (fuel : nat) (res : buf_string) (subject from to : list Z) : option buf_string :=
  match fuel with
  | O => None
  | S fuel =>
    match strstr subject from with
    | Some n =>
      '(_, res) ← bufwrite junk res (take n subject);
      '(_, res) ← bufwrite junk res to;
      replace_loop junk fuel res (drop (n + length from) subject) from to
    | None => '(_, res) ← bufwrite junk res subject; Some res
    end
  end.

Definition str_replace (junk : nat -> list Z) (fuel : nat) (subject from to : list Z) : option buf_string :=
  let res := bsprealloc junk bs_null
    (if (length to <=? length from)%nat then size subject + 1 else size subject * 2) in
  replace_loop junk fuel res subject from to.

Definition strtrchr (s from_set : option (list Z)) (to : Z) : option (list Z) :=
  s ← s; from_set ← from_set; Some (map (fun c => if bool_decide (c ∈ from_set) then to else c) s).

(** The terminator is always found in the set, and the result starts zeroed. *)
Definition remove_subset (s reject_set : option (list Z)) (invert : bool) : option (list Z) :=
  s ← s; reject_set ← reject_set;
  Some (filter (fun c => negb invert = negb (bool_decide (c ∈ reject_set))) s).

(** The map of [replace_chars]: pairs in order, the later ones winning; an odd length
    reads beyond the terminator. *)
Fixpoint char_map (char_list : list Z) (map : Z -> Z) : option (Z -> Z) :=
  match char_list with
  | [] => Some map
  | [_] => None
  | bad :: good :: l => char_map l (fun c => if c =? bad then good else map c)
  end.

Definition replace_chars (string : list Z) (len : Z) (char_list : list Z) : option (list Z) :=
  m ← char_map char_list (fun _ => 0);
  let n := if len <? 0 then length string else Z.to_nat len in
  Some (map (fun c => if m c =? 0 then c else m c) (take n string)).

(** The binary search of [replace_chars_utf8], with its odd and even halves. *)
Fixpoint map_search (fuel : nat) (m : list (Z * Z)) (ch : Z) (o n : nat) : option Z :=
  match fuel with
  | O => None
  | S fuel =>
    match n with
    | O => Some ch
    | _ =>
      let even := Nat.even n in
      let n := Nat.div2 n in
      '(k, v) ← m !! (o + n)%nat;
      let res := k - ch in
      if res =? 0 then Some v
      else if 0 <? res then map_search fuel m ch o n
      else map_search fuel m ch (o + n + 1) (if even then n - 1 else n)
    end
  end.

(** [string] holds the bytes from the pointer on, terminator included. *)
Fixpoint replace_utf8_loop (fuel : nat) (mem : list Z) (left : Z) (m : list (Z * Z)) : option (list Z) :=
  match fuel with
  | O => None
  | S fuel =>
    if left <=? 0 then Some [] else
    '(ch, k) ← utf8_char mem;
    ch ← map_search (S (length m)) m ch 0 (length m);
    out ← replace_utf8_loop fuel (drop k mem) (left - Z.of_nat k) m;
    Some (write_utf8_char (u32 ch) ++ out)
  end.

Definition replace_chars_utf8 (string : list Z) (len : Z) (m : list (Z * Z)) : option (list Z) :=
  let len := if len <? 0 then size string else len in
  replace_utf8_loop (S (length string)) (string ++ [0]) len m.

Definition rcu_le (a b : Z * Z) : Prop := fst a - fst b <= 0.
#[export] Instance rcu_le_dec a b : Decision (rcu_le a b) := Z_le_dec _ _.

Fixpoint create_map_loop (fuel : nat) (mem : list Z) (n : nat) : option (list (Z * Z)) :=
  match fuel with
  | O => None
  | S fuel =>
    '(bch, k) ← utf8_char mem;
    if bch =? 0 then Some [] else
    '(rch, k') ← utf8_char (drop k mem);
    if (256 <=? n)%nat then None else
    l ← create_map_loop fuel (drop (k + k') mem) (S n);
    Some ((bch, rch) :: l)
  end.

Definition replace_chars_utf8_create_map (char_list : list Z) : option (list (Z * Z)) :=
  merge_sort rcu_le <$> create_map_loop (S (length char_list)) (char_list ++ [0]) 0.

Definition is_ws (s : option (list Z)) : bool :=
  match s with None => true | Some s => forallb (fun c => (c =? 32) || (c =? 9) || (c =? 13) || (c =? 10)) s end.

(** * Numbers *)

(** The decimal digits of a number, least significant first. *)
Fixpoint dec_rev (fuel : nat) (n : Z) : list Z :=
  match fuel with
  | O => []
  | S fuel => (48 + n mod 10) :: (if n <? 10 then [] else dec_rev fuel (n / 10))
  end.

(** printf of "%d". *)
Definition print_dec (v : Z) : list Z :=
  let ds := rev (dec_rev (Z.to_nat (Z.abs v + 1)) (Z.abs v)) in
  if v <? 0 then 45 :: ds else ds.

(** printf of "%0*d". *)
Definition print_padded (width v : Z) : list Z :=
  let ds := rev (dec_rev (Z.to_nat (Z.abs v + 1)) (Z.abs v)) in
  let sign := if v <? 0 then [45] else [] in
  sign ++ replicate (Z.to_nat width - length sign - length ds) 48 ++ ds.

(** The loop writes a separator after every digit whose distance to the end is a
    multiple of three, the last digit included. *)
Fixpoint separate (s : list Z) (sep : Z) : list Z :=
  match s with
  | [] => []
  | c :: s => c :: (if (length s mod 3 =? 0)%nat then sep :: separate s sep else separate s sep)
  end.

Definition pretty_format_number_thousands (value min_length thou_sep_char : Z) : list Z :=
  let original := if 0 <? min_length then print_padded min_length value else print_dec value in
  let len := size original in
  let final_len := len + Z.quot (len - 1) 3 in
  take (Z.to_nat final_len) (separate original thou_sep_char).

(** strtol in base 10 on a 64-bit long: the value, the rest of the string, and whether
    errno is set to ERANGE. *)
Fixpoint span_digits (s : list Z) : list Z * list Z :=
  match s with
  | c :: r => if isdigit c then let '(ds, rest) := span_digits r in (c :: ds, rest) else ([], s)
  | [] => ([], [])
  end.

Definition strtol (s : list Z) : Z * list Z * bool :=
  let t := skip_space s in
  let '(neg, t) := match t with
                   | c :: r => if c =? 45 then (true, r) else if c =? 43 then (false, r) else (false, t)
                   | [] => (false, [])
                   end in
  let '(ds, rest) := span_digits t in
  match ds with
  | [] => (0, s, false)
  | _ =>
    let v := if (neg : bool) then - digits 0 ds else digits 0 ds in
    if v <? - 2 ^ 63 then (- 2 ^ 63, rest, true)
    else if 2 ^ 63 - 1 <? v then (2 ^ 63 - 1, rest, true) else (v, rest, false)
  end.

(** The result, and the destination if it is stored to. *)
Definition string_to (lo hi : Z) (s : list Z) : Z * option Z :=
  let '(i, e, erange) := strtol s in
  if (erange && ((i =? 2 ^ 63 - 1) || (i =? - 2 ^ 63))) || (erange && (i =? 0)) || ((i <? lo) || (hi <? i))
  then (-1, None)
  else if negb (bool_decide (e = [])) || bool_decide (e = s) then (1, None)
  else (0, Some i).

Definition string_to_int32 := string_to (- 2 ^ 31) (2 ^ 31 - 1).
Definition string_to_uint32 := string_to 0 (2 ^ 32 - 1).

(** * Escaping *)

Definition escape_dquotes (uqs : list Z) : list Z :=
  concat (map (fun c => if (c =? 34) || (c =? 92) then [92; c] else [c]) uqs).

Definition control_letter (ch : Z) : option Z :=
  if ch =? 10 then Some 110 else if ch =? 12 then Some 102 else if ch =? 13 then Some 114
  else if ch =? 9 then Some 116 else if ch =? 11 then Some 118 else if ch =? 7 then Some 97
  else if ch =? 8 then Some 98 else if ch =? 27 then Some 101 else None.

Definition escape_control (ch : Z) : list Z :=
  if 31 <? ch then [ch]
  else match control_letter ch with Some l => [92; l] | None => 92 :: print_dec ch end.

(** The bytes are written to an allocation for three more bytes per escape. *)
Definition escape_control_characters (s : list Z) : option (list Z) :=
  let num_escape := length (filter (fun ch => ch < 32) s) in
  if (num_escape =? 0)%nat then Some s else
  let out := concat (map escape_control s) in
  if (length out + 1 <=? 1 + length s + num_escape * 3)%nat then Some out else None.

Definition hex_digit (n : Z) : Z := if n <? 10 then 48 + n else 87 + n.

(** The escapes table. *)
Definition json_escape (ch : Z) : Z :=
  if ch =? 8 then 98 else if ch =? 12 then 102 else if ch =? 10 then 110 else if ch =? 13 then 114
  else if ch =? 9 then 116 else if ch =? 92 then 92 else if ch =? 34 then 34 else if ch =? 47 then 47 else 0.

(** What is left in [dlen] bytes of [dst], and the value returned. *)
Definition json_encode_char (dlen ch : Z) (escape_solus : bool) : list Z :=
  if dlen =? 0 then [] else
  let e := json_escape ch in
  if negb (e =? 0) && (negb (e =? 47) || escape_solus) then
    if dlen <=? 1 then [] else [92; e]
  else if 0x1F <? ch then [ch]
  else take (Z.to_nat (dlen - 1)) [92; 117; 48; 48; hex_digit (ch >> 4); hex_digit (ch .& 15)].

(** * Proofs *)

(** Properties of all bytes below a bound, by evaluation. *)
Lemma forall_below (n : Z) (P : Z -> bool) : forallb P (seqZ 0 n) = true -> forall x, 0 <= x < n -> P x = true.
Proof.
  intros H x Hx. rewrite forallb_forall in H. apply H, list_elem_of_In, elem_of_seqZ. lia.
Qed.

(** ** UTF-8 *)

Lemma shiftr_below ch n m : 0 <= ch < 2 ^ (n + m) -> 0 <= n -> 0 <= m -> 0 <= ch >> n < 2 ^ m.
Proof.
  intros H Hn Hm. rewrite Z.shiftr_div_pow2 by done. rewrite Z.pow_add_r in H by done.
  split; [apply Z.div_pos|apply Z.div_lt_upper_bound]; lia.
Qed.

Lemma low6 ch : 0 <= ch .& 0x3F < 64.
Proof. change 0x3F with (Z.ones 6). rewrite Z.land_ones by done. apply Z.mod_pos_bound. done. Qed.

Lemma lead2 x : 0 <= x < 32 ->
  u8 (0xC0 .| x) = 0xC0 .| x /\ 0x80 < 0xC0 .| x /\ (0xC0 .| x) .& 0xE0 = 0xC0 /\ (0xC0 .| x) .& 0x1F = x.
Proof.
  intros Hx. pose proof (forall_below 32 (fun x => (u8 (0xC0 .| x) =? 0xC0 .| x) && (0x80 <? 0xC0 .| x) &&
    ((0xC0 .| x) .& 0xE0 =? 0xC0) && ((0xC0 .| x) .& 0x1F =? x)) ltac:(by vm_compute) x Hx) as H. cbn beta in H. lia.
Qed.

Lemma lead3 x : 0 <= x < 16 ->
  u8 (0xE0 .| x) = 0xE0 .| x /\ 0x80 < 0xE0 .| x /\ (0xE0 .| x) .& 0xE0 = 0xE0 /\ (0xE0 .| x) .& 0xF0 = 0xE0 /\
  (0xE0 .| x) .& 0xF = x.
Proof.
  intros Hx. pose proof (forall_below 16 (fun x => (u8 (0xE0 .| x) =? 0xE0 .| x) && (0x80 <? 0xE0 .| x) &&
    ((0xE0 .| x) .& 0xE0 =? 0xE0) && ((0xE0 .| x) .& 0xF0 =? 0xE0) && ((0xE0 .| x) .& 0xF =? x)) ltac:(by vm_compute) x Hx) as H. cbn beta in H. lia.
Qed.

Lemma lead4 x : 0 <= x < 8 ->
  u8 (0xF0 .| x) = 0xF0 .| x /\ 0x80 < 0xF0 .| x /\ (0xF0 .| x) .& 0xE0 = 0xE0 /\ (0xF0 .| x) .& 0xF0 = 0xF0 /\
  (0xF0 .| x) .& 0xF8 = 0xF0 /\ (0xF0 .| x) .& 0xE = x - (if Z.testbit x 0 then 1 else 0).
Proof.
  intros Hx. pose proof (forall_below 8 (fun x => (u8 (0xF0 .| x) =? 0xF0 .| x) && (0x80 <? 0xF0 .| x) &&
    ((0xF0 .| x) .& 0xE0 =? 0xE0) && ((0xF0 .| x) .& 0xF0 =? 0xF0) && ((0xF0 .| x) .& 0xF8 =? 0xF0) &&
    ((0xF0 .| x) .& 0xE =? x - (if Z.testbit x 0 then 1 else 0))) ltac:(by vm_compute) x Hx) as H. cbn beta in H.
  destruct (Z.testbit x 0); lia.
Qed.

Lemma follow x : 0 <= x < 64 ->
  u8 (0x80 .| x) = 0x80 .| x /\ (0x80 .| x) .& 0xC0 = 0x80 /\ (0x80 .| x) .& 0x3F = x.
Proof.
  intros Hx. pose proof (forall_below 64 (fun x => (u8 (0x80 .| x) =? 0x80 .| x) &&
    ((0x80 .| x) .& 0xC0 =? 0x80) && ((0x80 .| x) .& 0x3F =? x)) ltac:(by vm_compute) x Hx) as H. cbn beta in H. lia.
Qed.

Lemma join6 ch : (ch >> 6) << 6 .| (ch .& 0x3F) = ch.
Proof.
  apply Z.bits_inj'. intros i Hi. change 0x3F with (Z.ones 6).
  rewrite Z.lor_spec, Z.land_spec, Z.shiftl_spec by done. destruct (decide (i < 6)) as [Hlt|Hge].
  - rewrite Z.testbit_neg_r, Z.ones_spec_low by lia. by rewrite andb_true_r.
  - rewrite Z.shiftr_spec, Z.ones_spec_high by lia. rewrite andb_false_r, orb_false_r. f_equal. lia.
Qed.

(** The bits of a character put together again from six of them at a time. *)
Lemma join12 ch : (ch >> 12) << 12 .| ((ch >> 6) .& 0x3F) << 6 .| (ch .& 0x3F) = ch.
Proof.
  rewrite <- (join6 ch) at 4. f_equal. rewrite <- (join6 (ch >> 6)) at 2.
  rewrite Z.shiftl_lor, Z.shiftl_shiftl, Z.shiftr_shiftr by done. done.
Qed.

Lemma join18 ch :
  (ch >> 18) << 18 .| ((ch >> 12) .& 0x3F) << 12 .| ((ch >> 6) .& 0x3F) << 6 .| (ch .& 0x3F) = ch.
Proof.
  rewrite <- (join12 ch) at 5. do 2 f_equal. rewrite <- (join6 (ch >> 12)) at 2.
  rewrite Z.shiftl_lor, Z.shiftl_shiftl, Z.shiftr_shiftr by done. done.
Qed.

Lemma shl_lor a low n : 0 <= n -> 0 <= low < 2 ^ n -> a << n .| low = a * 2 ^ n + low.
Proof.
  intros Hn Hl. rewrite <- Z.shiftl_mul_pow2 by done. rewrite <- Z.add_lor_land.
  assert (a << n .& low = 0) as ->; [|lia]. apply Z.bits_inj'. intros i Hi. rewrite Z.land_spec, Z.bits_0.
  destruct (decide (i < n)).
  - by rewrite Z.shiftl_spec_low.
  - rewrite (Zbits_above low n) by lia. apply andb_false_r.
Qed.

(** The last eighteen bits of a character. *)
Lemma low18 ch :
  let low := ((ch >> 12) .& 0x3F) << 12 .| (((ch >> 6) .& 0x3F) << 6 .| (ch .& 0x3F)) in
  0 <= low < 2 ^ 18 /\ ch = (ch >> 18) * 2 ^ 18 + low.
Proof.
  intros low. pose proof (low6 (ch >> 12)). pose proof (low6 (ch >> 6)). pose proof (low6 ch).
  assert (0 <= low < 2 ^ 18) as Hlow.
  { subst low. rewrite (shl_lor ((ch >> 6) .& 0x3F) (ch .& 0x3F) 6), shl_lor by lia. lia. }
  split; [done|]. rewrite <- shl_lor by (done || lia). subst low. rewrite !Z.lor_assoc. symmetry. apply join18.
Qed.

(** What becomes of a character that is written and read back: the fourth of the bits
    above the basic plane is dropped. *)
Definition reread (ch : Z) : Z :=
  let ch' := ch - (if Z.testbit ch 18 then 2 ^ 18 else 0) in
  if (0x10000 <=? ch) && (ch' <? 0x10000) then 63 else ch'.

Lemma utf8_char_write ch rest end_ :
  0 <= ch < 0x110000 -> match end_ with None => True | Some n => size (write_utf8_char ch) <= n end ->
  utf8_char_safe (write_utf8_char ch ++ rest) end_ = Some (reread ch, length (write_utf8_char ch)).
Proof.
  intros Hch Hend. unfold reread.
  assert (ch < 0x10000 -> Z.testbit ch 18 = false) as Hbit by (intros; apply (Zbits_above ch 16); lia).
  assert (exists maxl, match end_ with None => 4 | Some n => n end = maxl /\ size (write_utf8_char ch) <= maxl /\
    match end_ with None => false | Some n => n <=? 0 end = false) as (maxl & Hm & Hmax & Hpos).
  { destruct end_ as [n|].
    - exists n. split; [done|]. split; [done|]. apply Z.leb_gt. revert Hend. unfold size, write_utf8_char.
      repeat case_match; simpl; lia.
    - exists 4. split; [done|]. split; [|done]. unfold size, write_utf8_char. repeat case_match; simpl; lia. }
  unfold utf8_char_safe, recheck. rewrite Hm, Hpos. clear Hm Hpos Hend. revert Hmax. unfold write_utf8_char, size.
  destruct (Z.ltb_spec ch 0x80) as [H1|H1]; [|destruct (Z.ltb_spec ch 0x800) as [H2|H2]; [|destruct (Z.ltb_spec ch 0x10000) as [H3|H3]]];
    cbn [length app]; intros Hmax.
  - cbn [lookup list_lookup mbind option_bind]. rewrite uwrap_small by (simpl; lia). rewrite (proj2 (Z.leb_le ch 0x80)) by lia.
    rewrite Hbit by lia. rewrite (proj2 (Z.leb_gt 0x10000 ch)) by lia. cbn [andb]. by rewrite Z.sub_0_r.
  - destruct (lead2 (ch >> 6)) as (E1 & E2 & E3 & E4); [apply (shiftr_below ch 6 5); lia|].
    destruct (follow (ch .& 0x3F) (low6 ch)) as (F1 & F2 & F3). rewrite E1, F1.
    unfold cont. cbn [lookup list_lookup mbind option_bind]. rewrite (proj2 (Z.leb_gt _ _)), E3, F2, E4, F3, join6 by lia.
    rewrite (proj2 (Z.leb_le 2 maxl)) by lia. cbn [also andb mbind option_bind Z.eqb Pos.eqb]. rewrite (proj2 (Z.ltb_ge ch 0x80)) by lia.
    rewrite Hbit by lia. rewrite (proj2 (Z.leb_gt 0x10000 ch)) by lia. cbn [andb]. by rewrite Z.sub_0_r.
  - destruct (lead3 (ch >> 12)) as (E1 & E2 & E3 & E4 & E5); [apply (shiftr_below ch 12 4); lia|].
    destruct (follow (ch .& 0x3F) (low6 ch)) as (F1 & F2 & F3). destruct (follow ((ch >> 6) .& 0x3F) (low6 _)) as (G1 & G2 & G3).
    rewrite E1, F1, G1. unfold cont. cbn [lookup list_lookup mbind option_bind].
    rewrite (proj2 (Z.leb_gt _ _)), E3, E4, E5, F2, F3, G2, G3, join12 by lia.
    rewrite (proj2 (Z.leb_le 2 maxl)), (proj2 (Z.leb_le 3 maxl)) by lia. cbn [also andb mbind option_bind Z.eqb Pos.eqb]. rewrite (proj2 (Z.ltb_ge ch 0x800)) by lia.
    rewrite Hbit by lia. rewrite (proj2 (Z.leb_gt 0x10000 ch)) by lia. cbn [andb]. by rewrite Z.sub_0_r.
  - destruct (lead4 (ch >> 18)) as (E1 & E2 & E3 & E4 & E5 & E6); [apply (shiftr_below ch 18 3); lia|].
    destruct (follow (ch .& 0x3F) (low6 ch)) as (F1 & F2 & F3). destruct (follow ((ch >> 6) .& 0x3F) (low6 _)) as (G1 & G2 & G3).
    destruct (follow ((ch >> 12) .& 0x3F) (low6 _)) as (I1 & I2 & I3).
    rewrite E1, F1, G1, I1. unfold cont. cbn [lookup list_lookup mbind option_bind].
    rewrite (proj2 (Z.leb_gt _ _)), E3, E4, E5, E6, F2, F3, G2, G3, I2, I3 by lia.
    rewrite (proj2 (Z.leb_le 2 maxl)), (proj2 (Z.leb_le 3 maxl)), (proj2 (Z.leb_le 4 maxl)) by lia. cbn [also andb mbind option_bind Z.eqb Pos.eqb].
    destruct (low18 ch) as [Hlow Hsum]. rewrite Z.shiftr_spec by done. cbn [Z.add].
    rewrite <- !Z.lor_assoc, shl_lor by (done || lia). rewrite (proj2 (Z.leb_le 0x10000 ch)) by lia.
    replace ((ch >> 18 - (if Z.testbit ch 18 then 1 else 0)) * 2 ^ 18 + _) with (ch - (if Z.testbit ch 18 then 2 ^ 18 else 0)); [done|].
    rewrite Hsum at 1. destruct (Z.testbit ch 18); lia.
Qed.

Lemma recheck_nonzero least ch : 0 < least -> recheck least ch <> 0.
Proof. unfold recheck. destruct (Z.ltb_spec ch least); lia. Qed.

(** Reading a character of a terminated string stays within it: it takes at least one
    byte and at most what is left. *)
Lemma utf8_char_total s :
  Forall char s -> exists ch k, utf8_char (s ++ [0]) = Some (ch, k) /\ (1 <= k <= Nat.max 1 (length s))%nat /\
    (ch = 0 <-> s = []).
Proof.
  intros Hs. unfold utf8_char, utf8_char_safe, cont, also.
  destruct s as [|c0 s]; [by exists 0, 1%nat; split; [|split; [simpl; lia|]]|].
  assert (0 < c0) by (apply list.Forall_cons in Hs as [[] _]; lia). cbn [app lookup list_lookup mbind option_bind length].
  destruct (c0 <=? 0x80); [exists c0, 1%nat; split; [done|]; split; [lia|]; split; [lia|done]|].
  generalize (c0 .& 0xE0 =? 0xC0) (c0 .& 0xF0 =? 0xE0) (c0 .& 0xF8 =? 0xF0). intros a b c.
  assert (forall x k, x <> 0 -> (1 <= k <= S (length s))%nat -> exists ch k', Some (x, k) = Some (ch, k') /\
    (1 <= k' <= Nat.max 1 (S (length s)))%nat /\ (ch = 0 <-> c0 :: s = [])) as Hend.
  { intros x k Hx Hk. exists x, k. split; [done|]. split; [lia|]. by split. }
  destruct s as [|c1 s]; [|destruct s as [|c2 s]; [|destruct s as [|c3 s]]];
    cbn [app lookup list_lookup mbind option_bind length] in *; change (0 .& 0xC0 =? 0x80) with false;
    try generalize (c1 .& 0xC0 =? 0x80); try generalize (c2 .& 0xC0 =? 0x80); try generalize (c3 .& 0xC0 =? 0x80);
    intros; repeat match goal with x : bool |- _ => destruct x end; cbn [andb Z.leb mbind option_bind Z.compare Pos.compare Pos.compare_cont];
    apply Hend; (lia || by apply recheck_nonzero).
Qed.

(** ** Replacing characters *)

(** The plain lookup that the binary search stands for. *)
Definition map_lookup (m : list (Z * Z)) (ch : Z) : Z :=
  match list_find (fun kv => fst kv = ch) m with Some (_, (_, v)) => v | None => ch end.

Definition rcu_lt (a b : Z * Z) : Prop := fst a < fst b.

Lemma map_lookup_at m i ch v :
  StronglySorted rcu_lt m -> m !! i = Some (ch, v) -> map_lookup m ch = v.
Proof.
  intros Hs Hi. unfold map_lookup. rewrite (proj2 (list_find_Some _ _ i (ch, v))); [done|].
  split; [done|]. split; [done|]. intros j [k w] Hj Hlt ?. simpl in *. subst k.
  pose proof (StronglySorted_lookup rcu_lt m j i _ _ Hs Hj Hi Hlt) as H. unfold rcu_lt in H. simpl in H. lia.
Qed.

Lemma map_lookup_none m ch : (forall i v, m !! i <> Some (ch, v)) -> map_lookup m ch = ch.
Proof.
  intros H. unfold map_lookup. destruct (list_find _ m) as [[i [k v]]|] eqn:E; [|done].
  apply list_find_Some in E as (Hi & Hk & _). simpl in Hk. subst k. by apply H in Hi.
Qed.

Lemma map_search_window m ch : StronglySorted rcu_lt m -> forall fuel o n,
  (n < fuel)%nat -> (o + n <= length m)%nat ->
  (forall i v, m !! i = Some (ch, v) -> (o <= i < o + n)%nat) ->
  map_search fuel m ch o n = Some (map_lookup m ch).
Proof.
  intros Hs. induction fuel as [|fuel IH]; intros o n Hf Hlen Hin; [lia|]. cbn [map_search].
  destruct n as [|n']; [rewrite map_lookup_none; [done|]; intros i v Hi; apply Hin in Hi; lia|]. set (n := S n') in *.
  assert (Nat.div2 n < n)%nat as Hhalf by (apply Nat.lt_div2; lia).
  destruct (lookup_lt_is_Some_2 m (o + Nat.div2 n)) as [[k v] Hi]; [lia|]. rewrite Hi. cbn [mbind option_bind].
  destruct (Z.eqb_spec (k - ch) 0) as [E|E].
  { assert (k = ch) as -> by lia. by erewrite map_lookup_at. }
  assert (forall j w, m !! j = Some (ch, w) -> if decide (j < o + Nat.div2 n)%nat then ch < k else k < ch /\ (o + Nat.div2 n < j)%nat) as Hside.
  { intros j w Hj. destruct (decide (j < o + Nat.div2 n)%nat) as [Hlt|Hge].
    - apply (StronglySorted_lookup rcu_lt m j _ _ _ Hs Hj Hi Hlt).
    - destruct (decide (j = o + Nat.div2 n)%nat) as [->|Hne]; [rewrite Hi in Hj; injection Hj as -> ->; lia|].
      assert (o + Nat.div2 n < j)%nat as Hgt by lia. split; [|done].
      apply (StronglySorted_lookup rcu_lt m _ j _ _ Hs Hi Hj Hgt). }
  pose proof (Nat.div2_odd n) as Hodd. pose proof (Nat.negb_even n) as Hev.
  destruct (Z.ltb_spec 0 (k - ch)).
  - apply IH; [lia|lia|]. intros j w Hj. specialize (Hside j w Hj). specialize (Hin j w Hj).
    destruct (decide _); [lia|]. lia.
  - apply IH.
    + destruct (Nat.even n); lia.
    + destruct (Nat.even n), (Nat.odd n); simpl in *; try done; lia.
    + intros j w Hj. specialize (Hside j w Hj). specialize (Hin j w Hj).
      destruct (decide _); [lia|]. destruct (Nat.even n), (Nat.odd n); simpl in *; try done; lia.
Qed.

(** The characters of a terminated string. *)
Inductive decodes : list Z -> list Z -> Prop :=
  | decodes_nil : decodes [] []
  | decodes_cons s ch k chs :
      s <> [] -> utf8_char (s ++ [0]) = Some (ch, k) -> decodes (drop k s) chs -> decodes s (ch :: chs).

Lemma replace_utf8_decodes m fuel s :
  StronglySorted rcu_lt m -> Forall char s -> (length s < fuel)%nat ->
  exists chs, decodes s chs /\
    replace_utf8_loop fuel (s ++ [0]) (size s) m =
      Some (concat (map (fun ch => write_utf8_char (u32 (map_lookup m ch))) chs)).
Proof.
  intros Hm. induction fuel as [|fuel IH] in s |- *; intros Hs Hf; [lia|]. cbn [replace_utf8_loop]. unfold size.
  destruct (decide (s = [])) as [->|Hne]; [exists []; by split; [constructor|]|].
  assert (0 < length s)%nat by (destruct s; [done|simpl; lia]). rewrite (proj2 (Z.leb_gt _ _)) by lia.
  destruct (utf8_char_total s Hs) as (ch & k & Hu & Hk & _). rewrite Hu. cbn [mbind option_bind].
  rewrite map_search_window by (done || lia || (intros i v Hi%lookup_lt_Some; lia)). cbn [mbind option_bind].
  rewrite drop_app_le by lia. destruct (IH (drop k s)) as (chs & Hd & Hr); [by apply Forall_drop|rewrite length_drop; lia|].
  unfold size in Hr. rewrite length_drop, Nat2Z.inj_sub in Hr by lia. rewrite Hr. cbn [mbind option_bind].
  exists (ch :: chs). by split; [econstructor|].
Qed.

(** The map is written to its result character by character: a string is decoded, every
    character is looked up by binary search, and what it maps to is encoded. *)
Theorem replace_chars_utf8_maps (s : list Z) (m : list (Z * Z)) :
  StronglySorted rcu_lt m -> Forall char s ->
  exists chs, decodes s chs /\
    replace_chars_utf8 s (-1) m = Some (concat (map (fun ch => write_utf8_char (u32 (map_lookup m ch))) chs)).
Proof. intros Hm Hs. by apply replace_utf8_decodes; [| |lia]. Qed.

(** ** Trimming *)

Definition spaces (s : list Z) : Prop := Forall (fun c => isspace c = true) s.

Lemma skip_space_spec s : exists p, s = p ++ skip_space s /\ spaces p /\ forall c r, skip_space s = c :: r -> isspace c = false.
Proof.
  induction s as [|c s (p & IH & Hp & Hc)]; [by exists []; split; [|split; [constructor|]]|]. cbn [skip_space].
  destruct (isspace c) eqn:E; [|by exists []; split; [|split; [constructor|]; intros ?? [= <- _]]].
  exists (c :: p). split; [by rewrite IH at 1|]. by split; [constructor|].
Qed.

Lemma rtrim_loop_spec s i ptr :
  exists q, (q <= length s)%nat /\ spaces (drop q s) /\ (forall c, last (take q s) = Some c -> isspace c = false) /\
    rtrim_loop s i ptr = (if decide (q = 0%nat) then match ptr with Some p => Some p | None => if decide (s = []) then None else Some i end
                          else if decide (q = length s) then None else Some (i + q)%nat).
Proof.
  induction s as [|c s IH] in i, ptr |- *; [exists 0%nat; split; [done|]; split; [constructor|]; split; [done|]; by destruct ptr|].
  cbn [rtrim_loop length]. destruct (IH (S i) (if isspace c then match ptr with None => Some i | Some _ => ptr end else None)) as (q & Hq & Hsp & Hl & ->).
  destruct (decide (q = 0%nat)) as [->|Hq0].
  - destruct (isspace c) eqn:Ec.
    + exists 0%nat. split; [lia|]. split; [constructor; done|]. split; [done|]. by destruct ptr.
    + exists 1%nat. split; [lia|]. split; [done|]. split; [by intros ? [= <-]|]. destruct s; [done|]. simpl. do 2 f_equal. lia.
  - exists (S q). split; [lia|]. split; [done|]. split.
    + intros d. cbn [take]. rewrite last_cons. destruct (last (take q s)) eqn:E; [intros [= <-]; by apply Hl|].
      apply last_None in E. apply (f_equal length) in E. rewrite length_take in E. simpl in E. lia.
    + destruct (decide (q = length s)), (decide (S q = S (length s))); [done|lia|lia|]. simpl. f_equal. lia.
Qed.

Lemma rtrim_spec s : exists q, s = rtrim s ++ q /\ spaces q /\ forall c, last (rtrim s) = Some c -> isspace c = false.
Proof.
  destruct (rtrim_loop_spec s 0 None) as (q & Hq & Hsp & Hl & E). exists (drop q s). unfold rtrim. rewrite E. clear E.
  assert (forall t, t = take q s -> s = t ++ drop q s /\ spaces (drop q s) /\ forall c, last t = Some c -> isspace c = false) as Hend.
  { intros t ->. by rewrite take_drop. }
  apply Hend. destruct (decide (q = 0%nat)) as [->|]; [by destruct s|].
  destruct (decide (q = length s)) as [->|]; [|done]. by rewrite firstn_all.
Qed.

(** Trimming takes white space off both ends and nothing else: what is left neither
    starts nor ends with white space. *)
Theorem trim_spec (s : list Z) :
  exists p q, s = p ++ trim s ++ q /\ spaces p /\ spaces q /\
    (forall c, head (trim s) = Some c -> isspace c = false) /\ (forall c, last (trim s) = Some c -> isspace c = false).
Proof.
  destruct (skip_space_spec s) as (p & Hs & Hp & Hc). destruct (rtrim_spec (skip_space s)) as (q & Hr & Hq & Hl).
  exists p, q. unfold trim, ltrim. split; [by rewrite <- Hr|]. split; [done|]. split; [done|]. split; [|done].
  intros c Hh. destruct (rtrim (skip_space s)) as [|d t] eqn:E; [done|]. simpl in Hh. injection Hh as ->.
  apply (Hc c (t ++ q)). done.
Qed.

(** ** Searching *)

Section Searching.
Context (up : Z -> Z) (needle : list Z) (delim : option (list Z)).

(** The needle stands at offset [i] between delimiters. *)
Definition stands (h : list Z) (prev : option Z) (i : nat) : Prop :=
  map up (take (length needle) (drop i h)) = map up needle /\
  (forall c, h !! (i + length needle)%nat = Some c -> in_delim delim c = true) /\
  (forall c, (match i with O => prev | S j => h !! j end) = Some c -> in_delim delim c = true).

Lemma match_here_spec h n :
  match_here up h n delim = true <->
  map up (take (length n) h) = map up n /\ (forall c, h !! length n = Some c -> in_delim delim c = true).
Proof.
  unfold match_here. induction n as [|d n IH] in h |- *.
  - destruct h as [|c h]; simpl; [done|]. split; [intros E; split; [done|]; by intros ? [= <-]|]. intros [_ E]. by apply E.
  - destruct h as [|c h]; [by split; [|intros []]|]. cbn [match_loop length take map].
    destruct (Z.eqb_spec (up d) (up c)) as [E|E].
    + rewrite IH. rewrite E. cbn [lookup list_lookup]. split; intros [? ?]; split; [by f_equal|done| |done]. congruence.
    + split; [done|]. intros [? _]. congruence.
Qed.

Lemma prev_delim prev :
  (match prev with None => true | Some p => in_delim delim p end) = true <-> forall c, prev = Some c -> in_delim delim c = true.
Proof. destruct prev as [p|]; [|done]. split; [by intros ? ? [= <-]|]. intros H. by apply H. Qed.

Lemma strstr_loop_spec prev h j : needle <> [] ->
  match strstr_loop up prev h (hd 0 needle) needle delim j with
  | Some k => exists i, k = (j + i)%nat /\ (i < length h)%nat /\ stands h prev i /\ forall i', (i' < i)%nat -> ~ stands h prev i'
  | None => forall i, ~ stands h prev i
  end.
Proof.
  intros Hn. assert (exists d n, needle = d :: n) as (d & n & En) by (clear -Hn; destruct needle as [|d n]; [done|by exists d, n]).
  induction h as [|c h IH] in prev, j |- *.
  { intros i (H & _). rewrite drop_nil, take_nil, En in H. done. }
  cbn [strstr_loop]. destruct (_ && _ && _) eqn:E.
  - apply andb_prop in E as [[_ E1]%andb_prop E2]. pose proof (proj1 (prev_delim prev) E1) as E3'. apply match_here_spec in E2 as [E2 E3].
    exists 0%nat. split; [lia|]. split; [simpl; lia|]. split; [by split; [|split]|]. lia.
  - assert (~ stands (c :: h) prev 0) as H0.
    { intros (H1 & H2 & H3). rewrite (proj2 (prev_delim prev)), (proj2 (match_here_spec _ _)) in E by done.
      rewrite !andb_true_r in E. apply Z.eqb_neq in E. rewrite En in E, H1. simpl in E, H1. congruence. }
    assert (forall i, stands (c :: h) prev (S i) <-> stands h (Some c) i) as HS.
    { intros i. unfold stands. cbn [Nat.add]. by destruct i. }
    specialize (IH (Some c) (S j)). destruct (strstr_loop _ _ _ _ _ _ _) as [k|].
    + destruct IH as (i & -> & Hi & Hs & Hl). exists (S i). split; [lia|]. split; [simpl; lia|]. split; [by apply HS|].
      intros [|i'] Hlt; [done|]. rewrite HS. apply Hl. lia.
    + intros [|i]; [done|]. rewrite HS. apply IH.
Qed.
End Searching.

(** The search returns the first place in the haystack where the needle stands between
    delimiters, and none if there is no such place. *)
Theorem strstr_ptrs_first (up : Z -> Z) (h needle : list Z) (delim : option (list Z)) :
  needle <> [] ->
  match strstr_ptrs up h needle None delim with
  | Some i => (i < length h)%nat /\ stands up needle delim h None i /\ forall j, (j < i)%nat -> ~ stands up needle delim h None j
  | None => forall i, ~ stands up needle delim h None i
  end.
Proof.
  intros Hn. pose proof (strstr_loop_spec up needle delim None h 0 Hn) as H. unfold strstr_ptrs.
  destruct (strstr_loop _ _ _ _ _ _ _) as [k|]; [|done]. by destruct H as (i & -> & H).
Qed.

(** ** Replacing strings *)

Definition occurs (from s : list Z) (i : nat) : Prop := take (length from) (drop i s) = from.

(** Every leftmost occurrence that does not overlap an earlier one is replaced. *)
Inductive replaced (from to : list Z) : list Z -> list Z -> Prop :=
  | replaced_none s : (forall i, ~ occurs from s i) -> replaced from to s s
  | replaced_next a s out :
      (forall i, (i < length a)%nat -> ~ occurs from (a ++ from ++ s) i) ->
      replaced from to s out -> replaced from to (a ++ from ++ s) (a ++ to ++ out).

Lemma strstr_spec s from : from <> [] ->
  match strstr s from with
  | Some n => s = take n s ++ from ++ drop (n + length from) s /\ (n <= length s)%nat /\ forall i, (i < n)%nat -> ~ occurs from s i
  | None => forall i, ~ occurs from s i
  end.
Proof.
  intros Hf. induction s as [|c s IH]; cbn [strstr].
  - unfold is_prefix. rewrite take_nil. rewrite bool_decide_eq_false_2 by congruence.
    intros i. unfold occurs. rewrite drop_nil, take_nil. congruence.
  - destruct (is_prefix from (c :: s)) eqn:E; unfold is_prefix in E.
    + apply bool_decide_eq_true in E. split; [|split; [lia|lia]]. simpl. rewrite <- E at 1. by rewrite take_drop.
    + apply bool_decide_eq_false in E. destruct (strstr s from) as [n|]; cbn [fmap option_fmap option_map].
      * destruct IH as (Hs & Hn & Hfirst). split; [cbn [take Nat.add drop]; simpl; by f_equal|]. split; [simpl; lia|].
        intros [|i] Hi; [done|]. apply (Hfirst i). lia.
      * intros [|i]; [done|]. apply IH.
Qed.

Lemma size_app s t : size (s ++ t) = size s + size t.
Proof. unfold size. rewrite length_app. lia. Qed.

Lemma replaced_exists from to s : from <> [] -> exists out, replaced from to s out.
Proof.
  intros Hf. assert (forall n s, (length s < n)%nat -> exists out, replaced from to s out) as H; [|apply (H (S (length s))); lia].
  clear s. induction n as [|n IH]; intros s Hs; [lia|]. pose proof (strstr_spec s from Hf) as H.
  destruct (strstr s from) as [k|]; [|by exists s; constructor]. destruct H as (E & Hk & Hfirst).
  assert (length from > 0)%nat by (destruct from; [done|simpl; lia]).
  destruct (IH (drop (k + length from) s)) as [out Ho].
  { apply (f_equal length) in E. rewrite !length_app, length_take in E. lia. }
  exists (take k s ++ to ++ out). rewrite E at 1. constructor; [|done].
  rewrite length_take, <- E. intros i Hi. apply Hfirst. lia.
Qed.

(** The first occurrence is the one the relation replaces. *)
Lemma replaced_strstr from to s out : from <> [] -> replaced from to s out ->
  match strstr s from with
  | Some n => exists out', out = take n s ++ to ++ out' /\ replaced from to (drop (n + length from) s) out'
  | None => out = s
  end.
Proof.
  intros Hf [t Hno|a t out' Hfirst Hr]; [|set (s' := a ++ from ++ t) in *].
  - pose proof (strstr_spec t from Hf) as H. destruct (strstr t from) as [k|]; [|done].
    destruct H as (E & Hk & _). exfalso. apply (Hno k). unfold occurs. rewrite E at 1.
    rewrite drop_app_ge by (rewrite length_take; lia). rewrite length_take, Nat.min_l, Nat.sub_diag by lia.
    by rewrite drop_0, take_app_le, firstn_all.
  - assert (occurs from s' (length a)) as Ha.
    { unfold occurs, s'. by rewrite drop_app_length, take_app_length. }
    pose proof (strstr_spec s' from Hf) as H. destruct (strstr s' from) as [k|]; [|by apply H in Ha].
    destruct H as (E & Hk & Hbefore).
    assert (occurs from s' k) as Hk'.
    { unfold occurs. rewrite E at 1. rewrite drop_app_ge by (rewrite length_take; lia).
      rewrite length_take, Nat.min_l, Nat.sub_diag by lia. by rewrite drop_0, take_app_length. }
    assert (k = length a) as ->.
    { destruct (lt_eq_lt_dec k (length a)) as [[Hlt|]|Hgt]; [by apply Hfirst in Hk'|done|by apply Hbefore in Ha]. }
    exists out'. unfold s'. rewrite take_app_length. split; [done|]. by rewrite app_assoc, <- length_app, drop_app_length.
Qed.

Lemma replace_loop_spec junk fuel from to : from <> [] -> forall res s subject out,
  (length subject < fuel)%nat -> replaced from to subject out -> holds res s -> bs_buf res <> None ->
  2 <= bs_len res \/ (subject = [] /\ s = [] /\ 1 <= bs_len res) -> size (s ++ out) + 1 <= 2 ^ 29 ->
  exists b, replace_loop junk fuel res subject from to = Some b /\ holds b (s ++ out) /\ terminated b.
Proof.
  intros Hf. induction fuel as [|fuel IH]; intros res s subject out Hfuel Hr Hh Hb Hroom Hmax; [lia|].
  cbn [replace_loop]. pose proof (replaced_strstr from to subject out Hf Hr) as Ho.
  pose proof (strstr_spec subject from Hf) as Hs. destruct (strstr subject from) as [n|].
  - destruct Ho as (out' & -> & Hr'). destruct Hs as (E & Hn & _).
    assert (length from > 0)%nat by (destruct from; [done|simpl; lia]).
    assert (length subject >= length from)%nat as Hge by (rewrite E, !length_app; lia).
    assert (2 <= bs_len res) as H2 by (destruct Hroom as [|[-> _]]; [done|simpl in Hge; lia]).
    rewrite !size_app in Hmax. pose proof (Nat2Z.is_nonneg (length out')). pose proof (Nat2Z.is_nonneg (length to)). unfold size in Hmax.
    destruct (bufwrite_spec junk res s (take n subject)) as (b1 & -> & Hh1 & _ & Hb1 & Hl1); [done|split; [unfold size; lia|auto]|].
    cbn [mbind option_bind].
    destruct (bufwrite_spec junk b1 (s ++ take n subject) to) as (b2 & -> & Hh2 & _ & Hb2 & Hl2);
      [done|split; [rewrite size_app; unfold size; lia|right; left; lia]|]. cbn [mbind option_bind].
    destruct (IH b2 ((s ++ take n subject) ++ to) (drop (n + length from) subject) out') as (b & Hb' & Hh' & Ht'); try done.
    + apply (f_equal length) in E. rewrite !length_app, length_take in E. lia.
    + left. lia.
    + rewrite !size_app. unfold size. lia.
    + exists b. split; [done|]. by rewrite <- !app_assoc in Hh'.
  - subst out. rewrite size_app in Hmax.
    destruct (bufwrite_spec junk res s subject) as (b & -> & Hh' & Ht & _); [done|split; [lia|]|by exists b].
    destruct Hroom as [|(-> & -> & ?)]; [auto|]. right. right. vm_compute size. lia.
Qed.

(** An empty [from] is found for ever at the same place. *)
Lemma str_replace_empty_from (junk : nat -> list Z) (fuel : nat) (subject to : list Z) :
  str_replace junk fuel subject [] to = None.
Proof.
  unfold str_replace. generalize (bsprealloc junk bs_null (if (length to <=? length ([] : list Z))%nat then size subject + 1 else size subject * 2)).
  induction fuel as [|fuel IH]; intros res; [done|]. cbn [replace_loop length].
  assert (strstr subject [] = Some 0%nat) as ->.
  { destruct subject; cbn [strstr]; unfold is_prefix; by rewrite bool_decide_eq_true_2. }
  destruct (bufwrite junk res (take 0 subject)) as [[? b]|]; [|reflexivity]. cbn [mbind option_bind].
  destruct (bufwrite junk b to) as [[? b']|]; [|reflexivity]. cbn [mbind option_bind Nat.add drop]. apply IH.
Qed.

(** A buffer of no bytes does not grow: half of its size is nothing. *)
Lemma str_replace_empty_subject (junk : nat -> list Z) (fuel : nat) (from to : list Z) :
  from <> [] -> (length from < length to)%nat -> str_replace junk fuel [] from to = None.
Proof.
  intros Hf Hl. unfold str_replace. rewrite (proj2 (Nat.leb_gt _ _)) by done. destruct fuel as [|fuel]; [done|].
  cbn [replace_loop strstr]. unfold is_prefix. rewrite take_nil, bool_decide_eq_false_2 by congruence. by vm_compute.
Qed.

(** C22: replacing a string that is not empty in a subject that is not empty, or by
    one that is not longer, yields the subject with every leftmost, non-overlapping
    occurrence replaced, in a terminated buffer, when the subject and the result are
    shorter than 2^29 bytes.  In the other cases the call never returns: an empty [from]
    is found for ever at the same place, and for an empty subject and a longer
    replacement the buffer of no bytes never grows. *)
Theorem str_replace_correct (junk : nat -> list Z) (subject from to : list Z) :
  (from <> [] -> subject <> [] \/ (length to <= length from)%nat ->
   (exists out, replaced from to subject out) /\
   forall out, replaced from to subject out -> size subject < 2 ^ 29 - 1 -> size out < 2 ^ 29 -> exists b,
     str_replace junk (S (length subject)) subject from to = Some b /\ holds b out /\ terminated b) /\
  (from = [] \/ (subject = [] /\ (length from < length to)%nat) ->
   forall fuel, str_replace junk fuel subject from to = None).
Proof.
  split; [|intros [->|[-> Hl]] fuel; [apply str_replace_empty_from|]; destruct (decide (from = [])) as [->|Hf];
    [apply str_replace_empty_from|by apply str_replace_empty_subject]].
  intros Hf Hgrow. split; [by apply replaced_exists|]. intros out Ho Hsub Hout.
  unfold str_replace, bsprealloc. cbn [bs_buf bs_null].
  set (n := if (length to <=? length from)%nat then _ else _).
  assert (size subject < n < 2 ^ 30 /\ (2 <= n \/ (subject = [] /\ n = 1))) as [Hn Hn2].
  { unfold n. destruct (Nat.leb_spec (length to) (length from)) as [?|?].
    - unfold size in *. destruct subject; [by vm_compute; split; [|right]|]. cbn [length] in *. lia.
    - destruct Hgrow as [Hne|]; [|lia]. destruct subject; [done|]. unfold size in *. simpl in *. lia. }
  pose proof (Nat2Z.is_nonneg (length subject)). unfold size in Hn, Hsub.
  rewrite swrap_small by (simpl; lia).
  destruct (replace_loop_spec junk (S (length subject)) from to Hf (mk_bs (Some (xrealloc junk None n)) n 0) [] subject out)
    as (b & E & Hh & Ht); try done.
  - lia.
  - cbn [holds bs_buf bs_len bs_pos]. rewrite length_xrealloc by lia. repeat split; lia.
  - cbn [bs_len]. destruct Hn2 as [|[-> ->]]; [by left|]. right. repeat split; lia.
  - simpl app. lia.
  - by exists b.
Qed.

(** ** Numbers *)

Definition is_numeral (ds : list Z) : Prop := ds <> [] /\ Forall (fun c => isdigit c = true) ds.

(** A decimal number: white space, a sign, digits, and nothing after them. *)
Inductive numeral : list Z -> Z -> Prop :=
  | numeral_plain sp ds : spaces sp -> is_numeral ds -> numeral (sp ++ ds) (digits 0 ds)
  | numeral_plus sp ds : spaces sp -> is_numeral ds -> numeral (sp ++ 43 :: ds) (digits 0 ds)
  | numeral_minus sp ds : spaces sp -> is_numeral ds -> numeral (sp ++ 45 :: ds) (- digits 0 ds).

Definition saturate (v : Z) (rest : list Z) : Z * list Z * bool :=
  if v <? - 2 ^ 63 then (- 2 ^ 63, rest, true)
  else if 2 ^ 63 - 1 <? v then (2 ^ 63 - 1, rest, true) else (v, rest, false).

Lemma skip_space_app sp c r : spaces sp -> isspace c = false -> skip_space (sp ++ c :: r) = c :: r.
Proof. intros Hsp Hc. induction Hsp as [|d sp Hd _ IH]; cbn [app skip_space]; [by rewrite Hc|by rewrite Hd]. Qed.

Lemma span_digits_spec t : exists ds rest, span_digits t = (ds, rest) /\ t = ds ++ rest /\ Forall (fun c => isdigit c = true) ds.
Proof.
  induction t as [|c t (ds & rest & E & -> & Hd)]; [by exists [], []|]. cbn [span_digits].
  destruct (isdigit c) eqn:Ec; [|by exists [], (c :: ds ++ rest)].
  rewrite E. exists (c :: ds), rest. by split; [|split; [|constructor]].
Qed.

Lemma span_digits_all ds : Forall (fun c => isdigit c = true) ds -> span_digits ds = (ds, []).
Proof. induction 1 as [|c ds Hc _ IH]; [done|]. cbn [span_digits]. by rewrite Hc, IH. Qed.

Lemma digit_not_space c : isdigit c = true -> isspace c = false /\ c <> 45 /\ c <> 43.
Proof. unfold isdigit, isspace. lia. Qed.

Lemma strtol_numeral s v : numeral s v -> strtol s = saturate v [].
Proof.
  intros [sp ds Hsp [Hne Hd]|sp ds Hsp [Hne Hd]|sp ds Hsp [Hne Hd]]; unfold strtol; destruct ds as [|d ds]; try done;
    [assert (isspace d = false /\ d <> 45 /\ d <> 43) as (H1 & H2 & H3) by (apply list.Forall_cons in Hd as [? _]; by apply digit_not_space)|..];
    rewrite skip_space_app by done; cbn [Z.eqb Pos.eqb];
    [rewrite (proj2 (Z.eqb_neq d 45) H2), (proj2 (Z.eqb_neq d 43) H3)|..]; by rewrite span_digits_all.
Qed.

(** Whatever is read to the end is a number. *)
Lemma strtol_parses s r : snd (fst r) = [] -> strtol s = r -> s <> [] -> exists v, numeral s v /\ r = saturate v [].
Proof.
  unfold strtol. destruct (skip_space_spec s) as (sp & Hs & Hsp & _). intros Er E Hne. revert E.
  assert (forall t v, (let '(ds, rest) := span_digits t in match ds with [] => (0, s, false) | _ => saturate (v ds) rest end) = r ->
    is_numeral t /\ r = saturate (v t) []) as Hend.
  { intros t v. destruct (span_digits_spec t) as (ds & rest & -> & -> & Hd).
    destruct ds as [|d ds]; [intros <-; by destruct Hne|]. intros <-.
    assert (rest = []) as -> by (unfold saturate in Er; destruct (_ <? _); [done|]; by destruct (_ <? _)). by rewrite app_nil_r. }
  destruct (skip_space s) as [|c t]; [intros [[] _]%(Hend [] (fun ds => digits 0 ds)); done|].
  destruct (Z.eqb_spec c 45) as [->|_]; [|destruct (Z.eqb_spec c 43) as [->|_]].
  - intros [Hn ->]%(Hend t (fun ds => - digits 0 ds)). rewrite Hs. eexists. split; [by constructor|done].
  - intros [Hn ->]%(Hend t (fun ds => digits 0 ds)). rewrite Hs. eexists. split; [by constructor|done].
  - intros [Hn ->]%(Hend (c :: t) (fun ds => digits 0 ds)). rewrite Hs. eexists. split; [by constructor|done].
Qed.

Lemma strtol_complete s i : strtol s = (i, [], false) -> s <> [] -> numeral s i.
Proof.
  intros E Hne. destruct (strtol_parses s (i, [], false) eq_refl E Hne) as (v & Hv & Es). unfold saturate in Es.
  destruct (_ <? _); [done|]. destruct (_ <? _); [done|]. by injection Es as ->.
Qed.

Lemma numeral_not_nil s v : numeral s v -> s <> [].
Proof. intros [sp ds _ [? _]|sp ds|sp ds]; by destruct sp, ds. Qed.

Lemma string_to_spec lo hi s : - 2 ^ 63 <= lo -> hi <= 2 ^ 63 - 1 ->
  (forall v, string_to lo hi s = (0, Some v) <-> numeral s v /\ lo <= v <= hi) /\
  (forall v, numeral s v -> ~ lo <= v <= hi -> string_to lo hi s = (-1, None)).
Proof.
  intros Hlo Hhi. assert (forall v, numeral s v -> string_to lo hi s = if decide (lo <= v <= hi) then (0, Some v) else (-1, None)) as Hnum.
  { intros v Hv. unfold string_to. rewrite (strtol_numeral _ _ Hv). unfold saturate. apply numeral_not_nil in Hv.
    destruct (Z.ltb_spec v (- 2 ^ 63)); [by destruct (decide _); [lia|]|].
    destruct (Z.ltb_spec (2 ^ 63 - 1) v); [by destruct (decide _); [lia|]|]. cbn [andb orb].
    rewrite bool_decide_eq_true_2, bool_decide_eq_false_2 by congruence. cbn [negb orb].
    destruct (decide _), (Z.ltb_spec v lo), (Z.ltb_spec hi v); cbn [orb]; (done || lia). }
  split; [|intros v Hv Hr; rewrite (Hnum v Hv); by destruct (decide _)].
  intros v. split; [|intros [Hv Hr]; rewrite (Hnum v Hv); by destruct (decide _)].
  intros E. cut (numeral s v).
  { intros Hv. split; [done|]. rewrite (Hnum v Hv) in E. by destruct (decide _). }
  revert E. unfold string_to. destruct (strtol s) as [[i e] er] eqn:E.
  destruct (_ || _) eqn:C; [done|]. destruct (negb _ || _) eqn:C'; [done|]. intros [= <-].
  apply orb_false_iff in C' as [C1 C2]. apply negb_false_iff, bool_decide_eq_true in C1. apply bool_decide_eq_false in C2. subst e.
  apply strtol_complete; [|congruence]. destruct er; [|done]. exfalso. clear -C E. revert E. unfold strtol.
  destruct (match skip_space s with [] => _ | _ => _ end) as [neg t]. destruct (span_digits t) as [[|d ds] rest]; [done|].
  generalize (if neg then - digits 0 (d :: ds) else digits 0 (d :: ds)). intros v.
  destruct (v <? _); [intros E; injection E; intros; subst i; vm_compute in C; discriminate C|].
  destruct (_ <? v); [intros E; injection E; intros; subst i; vm_compute in C; discriminate C|]. done.
Qed.

Lemma digits_snoc acc ds c : Forall (fun c => isdigit c = true) ds -> isdigit c = true -> digits acc (ds ++ [c]) = digits acc ds * 10 + (c - 48).
Proof.
  intros Hd Hc. induction Hd as [|d ds Hd _ IH] in acc |- *; cbn [app digits]; [by rewrite Hc|]. by rewrite Hd.
Qed.

Lemma dec_rev_spec fuel n : 0 <= n < Z.of_nat fuel ->
  is_numeral (rev (dec_rev fuel n)) /\ digits 0 (rev (dec_rev fuel n)) = n.
Proof.
  induction fuel as [|fuel IH] in n |- *; intros Hn; [lia|]. cbn [dec_rev rev].
  assert (isdigit (48 + n mod 10) = true) as Hd by (pose proof (Z.mod_pos_bound n 10); unfold isdigit; lia).
  destruct (Z.ltb_spec n 10).
  - cbn [rev app digits]. rewrite Hd, Z.mod_small by lia. split; [|lia]. split; [done|].
    apply list.Forall_cons. split; [|constructor]. rewrite <- Hd, Z.mod_small by lia. done.
  - destruct (IH (n / 10)) as [[Hne Hall] Hv].
    { split; [apply Z.div_pos; lia|]. apply Z.div_lt_upper_bound; lia. }
    split.
    + split; [by destruct (rev _)|]. apply Forall_app. split; [done|by constructor].
    + rewrite digits_snoc, Hv by done. rewrite (Z.div_mod n 10) at 3 by lia. lia.
Qed.

Lemma print_dec_numeral v : numeral (print_dec v) v.
Proof.
  destruct (dec_rev_spec (Z.to_nat (Z.abs v + 1)) (Z.abs v)) as [Hn Hv]; [lia|]. unfold print_dec.
  set (ds := rev _) in *. destruct (Z.ltb_spec v 0).
  - replace v with (- digits 0 ds) by lia. apply (numeral_minus []); [constructor|done].
  - replace v with (digits 0 ds) by lia. apply (numeral_plain []); [constructor|done].
Qed.

Lemma print_dec_inj i i' : 0 <= i -> 0 <= i' -> print_dec i = print_dec i' -> i = i'.
Proof.
  intros Hi Hi' E. unfold print_dec in E. rewrite !(proj2 (Z.ltb_ge _ 0)) in E by lia.
  destruct (dec_rev_spec (Z.to_nat (Z.abs i + 1)) (Z.abs i)) as [_ H1]; [lia|].
  destruct (dec_rev_spec (Z.to_nat (Z.abs i' + 1)) (Z.abs i')) as [_ H2]; [lia|]. rewrite E, H2 in H1. lia.
Qed.

Lemma print_dec_digits i : 0 <= i -> is_numeral (print_dec i).
Proof.
  intros Hi. unfold print_dec. rewrite (proj2 (Z.ltb_ge _ 0)) by lia. apply dec_rev_spec. lia.
Qed.

(** [string_to_int32] accepts exactly the decimal numbers that fit: it stores their
    value, and reports the others as out of range. *)
Theorem string_to_int32_correct (s : list Z) :
  (forall v, string_to_int32 s = (0, Some v) <-> numeral s v /\ - 2 ^ 31 <= v <= 2 ^ 31 - 1) /\
  (forall v, numeral s v -> ~ - 2 ^ 31 <= v <= 2 ^ 31 - 1 -> string_to_int32 s = (-1, None)) /\
  (forall v, string_to_uint32 s = (0, Some v) <-> numeral s v /\ 0 <= v <= 2 ^ 32 - 1) /\
  (forall v, numeral s v -> ~ 0 <= v <= 2 ^ 32 - 1 -> string_to_uint32 s = (-1, None)).
Proof.
  destruct (string_to_spec (- 2 ^ 31) (2 ^ 31 - 1) s) as [H1 H2]; [done|done|].
  by destruct (string_to_spec 0 (2 ^ 32 - 1) s) as [H3 H4].
Qed.

(** A printed number reads back. *)
Theorem string_to_int32_print (v : Z) :
  - 2 ^ 31 <= v <= 2 ^ 31 - 1 -> string_to_int32 (print_dec v) = (0, Some v).
Proof.
  intros Hv. apply (string_to_spec (- 2 ^ 31) (2 ^ 31 - 1) (print_dec v)); [done|done|]. split; [apply print_dec_numeral|done].
Qed.

(** ** JSON *)

Definition unhex (c : Z) : option Z :=
  if isdigit c then Some (c - 48) else if (97 <=? c) && (c <=? 102) then Some (c - 87) else None.

(** The character that one element of a JSON string stands for. *)
Definition json_decode (l : list Z) : option Z :=
  match l with
  | [c] => if (c <? 32) || (c =? 34) || (c =? 92) then None else Some c
  | [92; e] =>
    if (e =? 34) || (e =? 92) || (e =? 47) then Some e
    else if e =? 98 then Some 8 else if e =? 102 then Some 12 else if e =? 110 then Some 10
    else if e =? 114 then Some 13 else if e =? 116 then Some 9 else None
  | [92; 117; a; b; c; d] =>
    a ← unhex a; b ← unhex b; c ← unhex c; d ← unhex d; Some (a * 4096 + b * 256 + c * 16 + d)
  | _ => None
  end.

(** Every byte is encoded as an element of a JSON string that stands for it, in at most
    six bytes, if there is room for seven. *)
Theorem json_encode_char_decodes (dlen ch : Z) (escape_solus : bool) :
  7 <= dlen -> byte ch ->
  json_decode (json_encode_char dlen ch escape_solus) = Some ch /\ size (json_encode_char dlen ch escape_solus) <= 6.
Proof.
  intros Hd Hch.
  assert (json_encode_char dlen ch escape_solus = json_encode_char 7 ch escape_solus) as ->.
  { unfold json_encode_char. rewrite (proj2 (Z.eqb_neq dlen 0)), (proj2 (Z.leb_gt dlen 1)) by lia.
    rewrite (take_ge _ (Z.to_nat (dlen - 1))) by (simpl; lia). done. }
  pose proof (forall_below 256 (fun ch => bool_decide (json_decode (json_encode_char 7 ch escape_solus) = Some ch) &&
    (size (json_encode_char 7 ch escape_solus) <=? 6)) ltac:(by destruct escape_solus; vm_compute) ch Hch) as H.
  cbn beta in H. apply andb_prop in H as [H1%bool_decide_eq_true H2]. split; [done|lia].
Qed.

(** The escapes of control characters fit the allocation that is made for them. *)
Theorem escape_control_characters_total (s : list Z) :
  Forall char s -> escape_control_characters s = Some (concat (map escape_control s)).
Proof.
  intros Hs. unfold escape_control_characters.
  assert (length (concat (map escape_control s)) <= length s + length (filter (fun ch => (ch < 32)%Z) s) * 3)%nat as Hlen.
  { induction Hs as [|c s Hc _ IH]; [done|]. cbn [map concat length]. rewrite length_app, filter_cons.
    pose proof (forall_below 256 (fun c => (length (escape_control c) <=? if (c <? 32)%Z then 4 else 1)%nat) ltac:(by vm_compute) c
      ltac:(unfold char in Hc; lia)) as H. cbn beta in H. apply Nat.leb_le in H.
    destruct (Z.ltb_spec c 32), (decide (c < 32)); cbn [length]; lia. }
  destruct (Nat.eqb_spec (length (filter (fun ch => (ch < 32)%Z) s)) 0) as [E|E].
  - f_equal. apply nil_length_inv in E. clear Hlen. induction Hs as [|c s Hc _ IH]; [done|].
    rewrite filter_cons in E. destruct (decide (c < 32)) as [|Hn]; [done|]. cbn [map concat]. rewrite <- IH by done.
    unfold escape_control. by rewrite (proj2 (Z.ltb_lt 31 c)) by lia.
  - rewrite (proj2 (Nat.leb_le _ _)) by lia. done.
Qed.

(** The separators of a negative number may start with one. *)
Theorem pretty_negative : pretty_format_number_thousands (-123) 0 44 = bytes "-,123".
Proof. by vm_compute. Qed.

(** A character that is written reads back, whatever follows it, if bit 18 is not set. *)
Theorem utf8_roundtrip (ch : Z) (rest : list Z) (end_ : option Z) :
  0 <= ch < 0x110000 -> Z.testbit ch 18 = false ->
  match end_ with None => True | Some n => size (write_utf8_char ch) <= n end ->
  utf8_char_safe (write_utf8_char ch ++ rest) end_ = Some (ch, length (write_utf8_char ch)).
Proof.
  intros Hch Hbit Hend. rewrite utf8_char_write by done. unfold reread. rewrite Hbit, Z.sub_0_r.
  destruct (Z.leb_spec 0x10000 ch), (Z.ltb_spec ch 0x10000); (done || lia).
Qed.

(** The mask of the first of four bytes drops bit 18. *)
Theorem utf8_bit18_lost : utf8_char (write_utf8_char 0x50000 ++ [0]) = Some (0x10000, 4%nat) /\
  utf8_char (write_utf8_char 0x40000 ++ [0]) = Some (63, 4%nat).
Proof. by vm_compute. Qed.

Lemma utf8_roundtrip_witness : utf8_char_safe (write_utf8_char 0x1F600 ++ [33]) (Some 5) = Some (0x1F600, 4%nat).
Proof. apply (utf8_roundtrip 0x1F600 [33] (Some 5)); [lia|reflexivity|vm_compute; discriminate]. Defined.

Lemma str_replace_correct_witness : exists b,
  str_replace (fun _ => []) 6 (bytes "ababd") (bytes "ab") (bytes "c") = Some b /\ holds b (bytes "ccd") /\ terminated b.
Proof.
  destruct (str_replace_correct (fun _ => []) (bytes "ababd") (bytes "ab") (bytes "c")) as [H _].
  destruct H as [_ H]; [discriminate|left; discriminate|]. apply (H (bytes "ccd")); [|reflexivity|reflexivity].
  apply (replaced_next (bytes "ab") (bytes "c") [] (bytes "abd") (bytes "cd")); [simpl; lia|].
  apply (replaced_next (bytes "ab") (bytes "c") [] (bytes "d") (bytes "d")); [simpl; lia|].
  apply replaced_none. intros [|[|i]] Hi; vm_compute in Hi; try discriminate.
Defined.

Lemma strstr_ptrs_first_witness : stands (fun c => c) (bytes "bc") (Some (bytes " ,")) (bytes "abc bc,d") None 4.
Proof.
  pose proof (strstr_ptrs_first (fun c => c) (bytes "abc bc,d") (bytes "bc") (Some (bytes " ,"))) as H.
  exact (proj1 (proj2 (H ltac:(discriminate)))).
Defined.

Lemma string_to_int32_print_witness : string_to_int32 (print_dec (-2147483648)) = (0, Some (-2147483648)).
Proof. apply (string_to_int32_print (-2147483648)). vm_compute. split; discriminate. Defined.

Lemma json_encode_char_decodes_witness : json_decode (json_encode_char 7 1 true) = Some 1.
Proof. apply (json_encode_char_decodes 7 1 true); [lia|split; [lia|reflexivity]]. Defined.

Lemma replace_chars_utf8_maps_witness : exists chs, decodes (bytes "ab") chs /\
  replace_chars_utf8 (bytes "ab") (-1) [(97, 0xE5)] = Some (concat (map (fun ch => write_utf8_char (u32 (map_lookup [(97, 0xE5)] ch))) chs)).
Proof.
  apply (replace_chars_utf8_maps (bytes "ab") [(97, 0xE5)]); [repeat constructor|].
  change (bytes "ab") with [97; 98]. repeat (apply List.Forall_cons; [split; reflexivity|]). apply List.Forall_nil.
Defined.
