(* ===== verification/JsonVtree.v ===== *)
(** JsonVtree: reading JSON into a configuration tree and printing a tree as JSON
    (src/vtree/lib/json_vtree.c).

    Parsing is done by yajl, whose callbacks are the events that the reader gets;
    an error of the parser is the message that comes after them.  The stack of the
    reader points to nodes inside of the trees it builds: a pointer is a tree and
    the path from its root.  [None] stands for a NULL key that is read, a write
    outside of the stack, and the exits of bconf.c.

    The printer writes with [vtree_json_bscat], which appends the text and ignores
    the indentation. *)
From stdpp Require Import prelude list numbers.
From Stdlib Require Import ZArith Lia.
From S2P Require Import Prelude Bconf BconfPrint BconfReach Vtree BconfVtree Strings.

Local Open Scope Z_scope.
#[local] Set Warnings "-register-all".

(** * Reading *)

Definition MAX_DEPTH : nat := 40.
Definition MAX_KEYLEN : nat := 256.

Inductive event :=
| ev_null
| ev_boolean (b : bool)
| ev_number (s : list Z)
| ev_string (s : list Z)
| ev_map_key (s : list Z)
| ev_start_map
| ev_end_map
| ev_start_array
| ev_end_array.

Definition ptr : Type := nat * list (list Z).

Record j_stack := mk_frame { js_count : Z; js_node : option ptr }.

Record j_ctx := mk_ctx { stack : nat; st : list j_stack; next_key : list Z; trees : list bconf_node }.

Definition set_st (st : list j_stack) (c : j_ctx) : j_ctx := mk_ctx (stack c) st (next_key c) (trees c).
Definition set_key (k : list Z) (c : j_ctx) : j_ctx := mk_ctx (stack c) (st c) k (trees c).
Definition set_trees (ts : list bconf_node) (c : j_ctx) : j_ctx := mk_ctx (stack c) (st c) (next_key c) ts.
Definition set_stack (i : nat) (c : j_ctx) : j_ctx := mk_ctx i (st c) (next_key c) (trees c).

(** The key for the next value, [None] for NULL. *)
Definition json_vtree_next_key (c : j_ctx) : option (option (list Z) * j_ctx) :=
  s ← st c !! stack c;
  c ← (if 0 <=? js_count s then
         if js_count s =? 2 ^ 31 - 1 then None
         else Some (set_key (take (MAX_KEYLEN - 1) (print_dec (js_count s)))
                     (set_st (<[stack c := mk_frame (js_count s + 1) (js_node s)]> (st c)) c))
       else Some c);
  Some (match next_key c with [] => None | k => Some k end, c).

(** [bconf_lookup_addv] from the node of entry [i] of the stack, followed by an
    operation on the node it returns: the result with a pointer to that node, or
    NULL on a conflict. *)
Definition at_node {R} (c : j_ctx) (i : nat) (keyv : list (list Z)) (f : bconf_node -> option (R * bconf_node)) :
    option (option (R * ptr) * j_ctx) :=
  s ← st c !! i;
  match js_node s with
  | None =>
    let t := length (trees c) in
    a ← bconf_lookup_addv root_node keyv f;
    let c := set_st (<[i := mk_frame (js_count s) (Some (t, []))]> (st c)) c in
    Some (match a with
          | Conflict => (None, set_trees (trees c ++ [root_node]) c)
          | Added (r, n) => (Some (r, (t, keyv)), set_trees (trees c ++ [n]) c)
          end)
  | Some (t, path) =>
    n ← trees c !! t;
    a ← bconf_lookup_addv n (path ++ keyv) f;
    Some (match a with
          | Conflict => (None, c)
          | Added (r, n) => (Some (r, (t, path ++ keyv)), set_trees (<[t := n]> (trees c)) c)
          end)
  end.

(** [bconf_add_datav] and [bconf_add_listnodev] on an entry of the stack. *)
Definition add_datav (c : j_ctx) (i : nat) (keyv : list (list Z)) (value : list Z) (dup : dup_mode) : option j_ctx :=
  '(r, c) ← at_node c i keyv (fun n => bconf_add_dataX n (Some value) dup);
  match r with
  | Some (r, _) => if r =? -1 then None else Some c
  | None => None
  end.

Definition bconf_add_listnodev (c : j_ctx) (i : nat) (key : option (list Z)) : option (option ptr * j_ctx) :=
  match key with
  | None => Some (Some (length (trees c), []), set_trees (trees c ++ [root_node]) c)
  | Some key =>
    '(r, c) ← at_node c i [key] (fun n => Some ((), n));
    Some (match r with Some (_, p) => Some p | None => None end, c)
  end.

(** A value at the next key. *)
Definition add_value (c : j_ctx) (value : list Z) (dup : dup_mode) : option j_ctx :=
  let i := stack c in
  '(key, c) ← json_vtree_next_key c;
  key ← key;
  add_datav c i [key] value dup.

Definition json_vtree_boolean (c : j_ctx) (boolean : bool) : option j_ctx :=
  if boolean then add_value c (bytes "true") BCONF_REF else Some c.

Definition json_vtree_number (c : j_ctx) (str : list Z) : option j_ctx := add_value c (cstr str) BCONF_OWN.

Definition json_vtree_string (c : j_ctx) (str : list Z) : option j_ctx := add_value c (cstr str) BCONF_OWN.

Definition json_key (str : list Z) : list Z := cstr (take (MAX_KEYLEN - 1) str).

Definition json_vtree_map_key (c : j_ctx) (str : list Z) : option j_ctx := Some (set_key (json_key str) c).

(** [json_vtree_start_map] and [json_vtree_start_array], which start to count at
    -1 and 0. *)
Definition json_vtree_start (c : j_ctx) (count : Z) : option j_ctx :=
  let i := stack c in
  '(key, c) ← json_vtree_next_key c;
  '(node, c) ← bconf_add_listnodev c i key;
  if (S (stack c) <? MAX_DEPTH)%nat
  then Some (set_stack (S (stack c)) (set_st (<[S (stack c) := mk_frame count node]> (st c)) c))
  else None.

Definition json_vtree_end_map (c : j_ctx) : option j_ctx :=
  match stack c with O => None | S i => Some (set_stack i c) end.

Definition json_vtree_cbs (c : j_ctx) (e : event) : option j_ctx :=
  match e with
  | ev_null => Some c
  | ev_boolean b => json_vtree_boolean c b
  | ev_number s => json_vtree_number c s
  | ev_string s => json_vtree_string c s
  | ev_map_key s => json_vtree_map_key c s
  | ev_start_map => json_vtree_start c (-1)
  | ev_start_array => json_vtree_start c 0
  | ev_end_map | ev_end_array => json_vtree_end_map c
  end.

(** [yajl_parse] and [yajl_complete_parse]. *)
Fixpoint yajl_parse (c : j_ctx) (evs : list event) : option j_ctx :=
  match evs with
  | [] => Some c
  | e :: evs => c ← json_vtree_cbs c e; yajl_parse c evs
  end.

(** The node of an entry of the stack. *)
Definition node_of (c : j_ctx) (i : nat) : option bconf_node :=
  '(t, path) ← (s ← st c !! i; js_node s); n ← trees c !! t; find_path n path.

Definition j_init (root_name : option (list Z)) : j_ctx :=
  mk_ctx 0 (mk_frame (-1) None :: replicate (MAX_DEPTH - 1) (mk_frame 0 None))
    (take (MAX_KEYLEN - 1) (default [] root_name)) [].

(** The events the parser delivers and, if it fails, its message. *)
Definition json_bconf (root_name : option (list Z)) (evs : list event) (error : option (list Z)) :
    option (Z * option bconf_node) :=
  c ← yajl_parse (j_init root_name) evs;
  '(res, c) ←
    match error with
    | None => Some (0, c)
    | Some error =>
      n ← match root_name with Some name => bconf_get (node_of c 0) name | None => Some None end;
      e ← match root_name with Some name => bconf_vget (node_of c 0) [name; bytes "error"] | None => Some (node_of c 0) end;
      if bool_decide (is_Some (bconf_value n)) || bool_decide (is_Some e) then Some (1, c)
      else c ← match root_name with
               | Some name => add_datav c 0 [name; bytes "error"] error BCONF_DUP
               | None => add_datav c 1 [bytes "error"] error BCONF_DUP
               end;
           Some (1, c)
    end;
  Some (res, node_of c (match root_name with Some _ => 0 | None => 1 end)).

Definition json_vtree (root_name : option (list Z)) (evs : list event) (error : option (list Z)) :
    option (Z * vtree_chain bconf_chain) :=
  '(res, bn) ← json_bconf root_name evs error; Some (res, bconf_vtree_own bn).

(** * Nodes inside of a tree *)

(** Replace the node at the end of a path. *)
Fixpoint plug (n : bconf_node) (path : list (list Z)) (x : bconf_node) : bconf_node :=
  match path with
  | [] => x
  | k :: path =>
    match list_find (fun m => n_key m = k) (n_subs n) with
    | Some (i, c) => set_sub n i (plug c path x)
    | None => n
    end
  end.

Lemma child_find n k c : child n k = Some c ->
  exists i, list_find (fun m => n_key m = k) (n_subs n) = Some (i, c) /\ n_subs n !! i = Some c /\ n_key c = k.
Proof.
  unfold child. destruct (list_find _ _) as [[i m]|] eqn:E; [|done]. intros [= ->].
  exists i. split; [done|]. by apply list_find_Some in E as (? & ? & _).
Qed.

Lemma plug_cons n k c path x : child n k = Some c ->
  exists i, n_subs n !! i = Some c /\ n_key c = k /\ plug n (k :: path) x = set_sub n i (plug c path x).
Proof. intros (i & E & Hi & Hk)%child_find. exists i. cbn [plug]. by rewrite E. Qed.

Lemma plug_key n path m x : find_path n path = Some m -> n_key x = n_key m -> n_key (plug n path x) = n_key n.
Proof.
  destruct path as [|k path]; cbn [find_path]; [cbn [plug]; by intros [= ->] ->|].
  destruct (child n k) as [c|] eqn:Hc; [|done]. intros _ _. by destruct (plug_cons n k c path x Hc) as (i & _ & _ & ->).
Qed.

Lemma plug_ok n path m x : node_ok n -> find_path n path = Some m -> n_key x = n_key m -> node_ok x -> node_ok (plug n path x).
Proof.
  revert n. induction path as [|k path IH]; intros n Hok Hp Hk Hx; [done|]. cbn [find_path] in Hp.
  destruct (child n k) as [c|] eqn:Hc; [|done]. cbn [mbind option_bind] in Hp.
  destruct (plug_cons n k c path x Hc) as (i & Hi & Hkc & ->). apply (set_sub_ok n i c); [done|done| |].
  - by apply (plug_key c path m).
  - apply IH; [by apply (child_ok n k)|done..].
Qed.

Lemma child_plug n k c path m x k' : node_ok n -> child n k = Some c -> find_path c path = Some m -> n_key x = n_key m ->
  child (plug n (k :: path) x) k' = if decide (k' = k) then Some (plug c path x) else child n k'.
Proof.
  intros Hok Hc Hp Hk. destruct (plug_cons n k c path x Hc) as (i & Hi & Hkc & ->).
  rewrite (child_set_sub n i c); [by rewrite Hkc|apply Hok|done|]. by apply (plug_key c path m).
Qed.

Lemma find_path_app n p q : find_path n (p ++ q) = (m ← find_path n p; find_path m q).
Proof. revert n. induction p as [|k p IH]; intros n; cbn [app find_path]; [done|]. destruct (child n k); [apply IH|done]. Qed.

Lemma find_path_plug n p m x q : node_ok n -> find_path n p = Some m -> n_key x = n_key m ->
  find_path (plug n p x) (p ++ q) = find_path x q.
Proof.
  revert n. induction p as [|k p IH]; intros n Hok Hp Hk; [done|]. cbn [find_path app] in *.
  destruct (child n k) as [c|] eqn:Hc; [|done]. cbn [mbind option_bind] in Hp.
  rewrite (child_plug n k c p m x k Hok Hc Hp Hk), decide_True by done. apply IH; [by apply (child_ok n k)|done..].
Qed.

Lemma plug_app n p m x q y : node_ok n -> find_path n p = Some m -> n_key x = n_key m ->
  plug (plug n p x) (p ++ q) y = plug n p (plug x q y).
Proof.
  revert n. induction p as [|k p IH]; intros n Hok Hp Hk; [done|]. cbn [find_path] in Hp.
  destruct (child n k) as [c|] eqn:Hc; [|done]. cbn [mbind option_bind] in Hp. pose proof (child_ok n k c Hok Hc) as Hokc.
  pose proof (child_find n k c Hc) as (i & E & Hi & Hkc). cbn [plug app]. rewrite E.
  assert (child (set_sub n i (plug c p x)) k = Some (plug c p x)) as (i' & E' & Hi' & _)%child_find.
  { rewrite (child_set_sub n i c), Hkc, decide_True; [done|done|apply Hok|done|]. by apply (plug_key c p m). }
  rewrite E'. rewrite IH by done.
  assert (i' = i) as ->.
  { pose proof (keys_NoDup _ (ok_sorted _ Hok)) as Hnd. pose proof (plug_key c p m x Hp Hk) as Hkp.
    assert (keys (n_subs n) !! i' = keys (n_subs n) !! i) as Hkeys.
    { rewrite <- (keys_insert (n_subs n) i c (plug c p x)) by done. cbn [set_sub n_subs] in Hi'.
      rewrite !lookup_keys, Hi', list_lookup_insert_eq; [done|]. by eapply lookup_lt_Some. }
    rewrite lookup_keys with (i := i), Hi in Hkeys. eapply NoDup_lookup; [done|done|]. by rewrite lookup_keys, Hi. }
  unfold set_sub. cbn [n_key n_type n_value n_star n_subs]. by rewrite list_insert_insert_eq.
Qed.

(** A lookup that goes through a node is a lookup from that node. *)
Lemma lookup_addv_plug {R} n p m q (f : bconf_node -> option (R * bconf_node)) :
  node_ok n -> Forall valid_key p -> find_path n p = Some m ->
  bconf_lookup_addv n (p ++ q) f =
    (a ← bconf_lookup_addv m q f; Some (match a with Conflict => Conflict | Added (r, m') => Added (r, plug n p m') end)).
Proof.
  revert n. induction p as [|k p IH]; intros n Hok Hv Hp; cbn [app find_path] in *.
  { injection Hp as ->. destruct (bconf_lookup_addv m q f) as [[|[r m']]|]; done. }
  apply list.Forall_cons in Hv as [Hvk Hv]. destruct (child n k) as [c|] eqn:Hc; [|done]. cbn [mbind option_bind] in Hp.
  destruct (child_find n k c Hc) as (i & E & Hi & Hkc).
  assert (is_list n = true) as Hl.
  { unfold is_list. rewrite (ok_list _ Hok); [done|]. intros E0. by rewrite E0 in Hi. }
  cbn [bconf_lookup_addv]. unfold bconf_get_node. rewrite Hl.
  destruct (node_search_spec n k Hok Hvk) as (r & -> & Hr). destruct r as [j|]; [|by rewrite Hc in Hr].
  destruct Hr as (c' & Hj & Hkc' & Hc'). rewrite Hc in Hc'. injection Hc' as <-.
  assert (j = i) as ->.
  { eapply NoDup_lookup; [apply (keys_NoDup _ (ok_sorted _ Hok))|..]; rewrite lookup_keys; [by rewrite Hj|by rewrite Hi]. }
  cbn [mbind option_bind]. rewrite Hi. cbn [mbind option_bind]. rewrite (IH c) by (done || by apply (child_ok n k)).
  destruct (bconf_lookup_addv m q f) as [[|[r m']]|]; cbn [mbind option_bind plug]; [done| |done]. by rewrite E.
Qed.

(** * What is read *)

(** The events of a value. *)
Fixpoint events (j : json) : list event :=
  match j with
  | JNull => [ev_null]
  | JBool b => [ev_boolean b]
  | JNum s => [ev_number s]
  | JStr s => [ev_string s]
  | JObj ms => ev_start_map :: concat (map (fun m => ev_map_key (fst m) :: events (snd m)) ms) ++ [ev_end_map]
  | JArr l => ev_start_array :: concat (map events l) ++ [ev_end_array]
  end.

(** Null and false are read as nothing, not even an index of an array. *)
Definition skips (j : json) : bool := match j with JNull | JBool false => true | _ => false end.

Fixpoint number (i : Z) (l : list json) : list (list Z * json) :=
  match l with
  | [] => []
  | j :: l => if skips j then number i l else (print_dec i, j) :: number (i + 1) l
  end.

(** The keys of a value with what is below them. *)
Definition members_of (j : json) : list (list Z * json) :=
  match j with
  | JObj ms => filter (fun m => skips (snd m) = false) (map (fun m => (json_key (fst m), snd m)) ms)
  | JArr l => number 0 l
  | _ => []
  end.

Definition assoc (k : list Z) (ms : list (list Z * json)) : option json :=
  snd <$> (snd <$> list_find (fun m => fst m = k) ms).

(** The value at a path. *)
Fixpoint json_at (j : json) (path : list (list Z)) : option (node_type * list Z) :=
  match path with
  | [] =>
    match j with
    | JBool true => Some (NODE_BIN, bytes "true")
    | JNum s | JStr s => Some (NODE_VAL, cstr s)
    | _ => None
    end
  | k :: path => match assoc k (members_of j) with Some j => json_at j path | None => None end
  end.

(** Values whose keys are different, not empty and bytes, in small arrays. *)
Inductive readable : json -> Prop :=
  | readable_null : readable JNull
  | readable_bool b : readable (JBool b)
  | readable_num s : readable (JNum s)
  | readable_str s : readable (JStr s)
  | readable_obj ms : NoDup (map (fun m => json_key (fst m)) ms) ->
      Forall (fun m => valid_key (json_key (fst m)) /\ json_key (fst m) <> [] /\ readable (snd m)) ms -> readable (JObj ms)
  | readable_arr l : Z.of_nat (length l) < 2 ^ 31 -> Forall readable l -> readable (JArr l).

Fixpoint depth (j : json) : nat :=
  match j with
  | JObj ms => S (foldr (fun m d => Nat.max (depth (snd m)) d) 0%nat ms)
  | JArr l => S (foldr (fun j d => Nat.max (depth j) d) 0%nat l)
  | _ => 0%nat
  end.

Lemma json_full_ind (P : json -> Prop) :
  P JNull -> (forall b, P (JBool b)) -> (forall s, P (JNum s)) -> (forall s, P (JStr s)) ->
  (forall ms, Forall (fun m => P (snd m)) ms -> P (JObj ms)) -> (forall l, Forall P l -> P (JArr l)) -> forall j, P j.
Proof.
  intros Hn Hb Hm Hs Ho Ha. fix IH 1. intros [|b|s|s|ms|l]; [done|apply Hb|apply Hm|apply Hs|apply Ho|apply Ha].
  - induction ms as [|[k j] ms IHms]; constructor; [apply IH|exact IHms].
  - induction l as [|j l IHl]; constructor; [apply IH|exact IHl].
Qed.

(** Adding a value below a node at once. *)
Definition put_data (m : bconf_node) (k : list Z) (v : list Z) (dup : dup_mode) : option bconf_node :=
  snd <$> bconf_add_datav (Some m) [k] v dup.

Definition put_node (m : bconf_node) (k : list Z) (f : bconf_node -> option bconf_node) : option bconf_node :=
  a ← bconf_lookup_addv m [k] (fun c => c ← f c; Some ((), c));
  match a with Added (_, m) => Some m | Conflict => None end.

Definition put_all (put : json -> list Z -> bconf_node -> option bconf_node) : list (list Z * json) -> bconf_node -> option bconf_node :=
  fix go ms m := match ms with [] => Some m | (k, j) :: ms => m ← put j k m; go ms m end.

(** The values below a value of depth at most [d]. *)
Fixpoint put (d : nat) (j : json) (k : list Z) (m : bconf_node) : option bconf_node :=
  match j, d with
  | JNull, _ | JBool false, _ => Some m
  | JBool true, _ => put_data m k (bytes "true") BCONF_REF
  | JNum s, _ | JStr s, _ => put_data m k (cstr s) BCONF_OWN
  | _, O => None
  | _, S d => put_node m k (put_all (put d) (members_of j))
  end.

(** The node [c] holds the value [j]. *)
Definition holds (c : bconf_node) (j : json) : Prop := node_ok c /\ forall path, value_at c path = json_at j path.

(** The effect of adding below a node. *)
Record adds (m : bconf_node) (ms : list (list Z * json)) (m' : bconf_node) : Prop := {
  ad_ok : node_ok m';
  ad_key : n_key m' = n_key m;
  ad_list : is_list m' = true;
  ad_child k : match assoc k ms with Some j => exists c, child m' k = Some c /\ holds c j | None => child m' k = child m k end
}.

Lemma assoc_cons k k' j ms : assoc k ((k', j) :: ms) = if decide (k' = k) then Some j else assoc k ms.
Proof. unfold assoc. cbn [list_find]. cbn [fst]. destruct (decide (k' = k)); [done|]. by destruct (list_find _ ms) as [[]|]. Qed.

Lemma assoc_None k ms : assoc k ms = None <-> k ∉ map fst ms.
Proof.
  induction ms as [|[k' j] ms IH]; [split; [intros _ []%elem_of_nil|done]|]. rewrite assoc_cons. cbn [map fst].
  rewrite not_elem_of_cons, <- IH. destruct (decide (k' = k)); [split; [done|intros []; congruence]|].
  split; [intros ?; split; congruence|by intros []].
Qed.

Definition good (m : list Z * json) : Prop := valid_key (fst m) /\ fst m <> [] /\ skips (snd m) = false /\ readable (snd m).

Lemma put_all_spec P ms m :
  Forall (fun x => good x /\ forall m, node_ok m -> is_list m = true -> child m (fst x) = None ->
            exists m', P (snd x) (fst x) m = Some m' /\ adds m [x] m') ms ->
  NoDup (map fst ms) -> node_ok m -> is_list m = true -> Forall (fun x => child m (fst x) = None) ms ->
  exists m', put_all P ms m = Some m' /\ adds m ms m'.
Proof.
  revert m. induction ms as [|[k j] ms IH]; intros m Hall Hnd Hok Hl Hfree.
  { exists m. split; [done|]. by split. }
  apply list.Forall_cons in Hall as [[Hg Hp] Hall]. apply list.Forall_cons in Hfree as [Hk Hfree]. cbn [fst snd map] in *.
  apply NoDup_cons in Hnd as [Hnin Hnd]. destruct (Hp m Hok Hl Hk) as (m1 & E1 & [Hok1 Hk1 Hl1 Hc1]).
  cbn [put_all]. rewrite E1. cbn [mbind option_bind].
  assert (forall x, x <> k -> child m1 x = child m x) as Hother.
  { intros x Hx. specialize (Hc1 x). rewrite assoc_cons, decide_False in Hc1 by done. exact Hc1. }
  destruct (IH m1 Hall Hnd Hok1 Hl1) as (m' & E & [Hok' Hk' Hl' Hc']).
  { rewrite list.Forall_forall in Hfree |- *. intros x Hx. rewrite Hother; [auto|]. intros <-. apply Hnin.
    by apply (list_elem_of_fmap_2 fst) in Hx. }
  exists m'. split; [done|]. split; [done|congruence|done|]. intros x. specialize (Hc' x). rewrite assoc_cons.
  destruct (decide (k = x)) as [<-|Hne].
  - rewrite (proj2 (assoc_None k ms)) in Hc' by done. rewrite Hc'. specialize (Hc1 k). by rewrite assoc_cons, decide_True in Hc1.
  - destruct (assoc x ms); [done|]. by rewrite Hc', Hother by done.
Qed.

Lemma put_data_spec m k v dup j : node_ok m -> is_list m = true -> valid_key k -> child m k = None ->
  (forall path, json_at j path = match path with [] => Some (dup_type dup, v) | _ => None end) ->
  exists m', put_data m k v dup = Some m' /\ adds m [(k, j)] m'.
Proof.
  intros Hok Hl Hk Hc Hj. destruct (add_datav_one m k v dup Hok Hk) as (r & m' & c & E & Hok' & Hk' & Hl' & Hs & Hd & Hch).
  { apply (can_add_cons m k [] dup Hl). rewrite Hc. by repeat split. }
  exists m'. unfold put_data. rewrite E. split; [done|]. split; [done|done|done|]. intros x. rewrite assoc_cons, Hch.
  destruct (decide (k = x)) as [<-|Hne]; [|by rewrite decide_False]. rewrite decide_True by done. exists c. split; [done|]. split.
  - apply (child_ok m' k); [done|]. by rewrite Hch, decide_True.
  - intros [|y path]; rewrite Hj; [by unfold value_at|]. by apply value_at_leaf.
Qed.

Lemma put_node_spec m k f c' : node_ok m -> is_list m = true -> valid_key k -> child m k = None ->
  f (new_node k) = Some c' -> node_ok c' -> n_key c' = k ->
  exists m', put_node m k f = Some m' /\ node_ok m' /\ n_key m' = n_key m /\ is_list m' = true /\
    forall x, child m' x = if decide (x = k) then Some c' else child m x.
Proof.
  intros Hok Hl Hk Hc Hf Hok' Hk'.
  destruct (bconf_get_node_spec m k Hok Hl Hk) as (i & n1 & c & Hget & Hi & -> & Hkc & _ & Ht & Hk1 & Hset).
  rewrite Hc in Hi. cbn [default] in Hi. unfold put_node. cbn [bconf_lookup_addv]. rewrite Hget. cbn [mbind option_bind]. rewrite Hi.
  cbn [mbind option_bind]. change (default (new_node k) None) with (new_node k). rewrite Hf. cbn [mbind option_bind].
  destruct (Hset c' Hk' Hok') as [Hoks Hchs]. eexists. split; [done|]. split; [done|]. split; [done|]. split; [|done].
  unfold is_list. cbn [set_sub n_type]. by rewrite Ht.
Qed.

Lemma holds_members c j : node_ok c -> is_list c = true -> json_at j [] = None ->
  (forall k, match assoc k (members_of j) with Some j => exists d, child c k = Some d /\ holds d j | None => child c k = None end) ->
  holds c j.
Proof.
  intros Hok Hl Hj Hall. split; [done|]. intros [|k path].
  - rewrite Hj. unfold value_at. simpl. by apply data_list.
  - rewrite value_at_cons. cbn [json_at]. specialize (Hall k). destruct (assoc k (members_of j)) as [j'|].
    + destruct Hall as (d & -> & _ & Hd). apply Hd.
    + by rewrite Hall.
Qed.

Lemma print_dec_key i : 0 <= i -> valid_key (print_dec i) /\ print_dec i <> [].
Proof.
  intros Hi. destruct (print_dec_digits i Hi) as [Hne Hd]. split; [|done]. eapply Forall_impl; [exact Hd|].
  unfold isdigit, char. intros c. lia.
Qed.

Lemma number_keys l i k : k ∈ map fst (number i l) -> exists i', i <= i' /\ k = print_dec i'.
Proof.
  induction l as [|j l IH] in i |- *; cbn [number]; [by intros ?%elem_of_nil|].
  destruct (skips j); [apply IH|]. cbn [map fst]. intros [->|Hk]%elem_of_cons; [by exists i|].
  apply IH in Hk as (i' & ? & ->). exists i'. split; [lia|done].
Qed.

Lemma number_good i l : 0 <= i -> Forall readable l -> Forall good (number i l) /\ NoDup (map fst (number i l)).
Proof.
  intros Hi Hall. induction Hall as [|j l Hj _ IH] in i, Hi |- *; cbn [number]; [split; constructor|].
  destruct (skips j) eqn:Hs; [by apply IH|]. destruct (IH (i + 1)) as [Hg Hnd]; [lia|]. cbn [map fst]. split.
  - constructor; [|done]. destruct (print_dec_key i Hi). by repeat split.
  - constructor; [|done]. intros (i' & ? & E)%number_keys. apply print_dec_inj in E; lia.
Qed.

Lemma members_good j : readable j -> Forall good (members_of j) /\ NoDup (map fst (members_of j)).
Proof.
  intros Hj. destruct Hj as [| | | |ms Hnd Hall|l _ Hall]; cbn [members_of]; try (split; constructor); [split|by apply number_good].
  - apply list.Forall_forall. intros m [Hs Hm]%list_elem_of_filter. apply list_elem_of_In, in_map_iff in Hm as (x & <- & Hx%list_elem_of_In).
    rewrite list.Forall_forall in Hall. destruct (Hall x Hx) as (? & ? & ?). by repeat split.
  - eapply sublist_NoDup; [|apply (fmap_sublist fst), sublist_filter].
    change (fst <$> map ?f ms) with (map fst (map f ms)). by rewrite map_map.
Qed.

Lemma foldr_max_le {A} (f : A -> nat) l d : (foldr (fun x d => Nat.max (f x) d) 0 l <= d)%nat -> Forall (fun x => (f x <= d)%nat) l.
Proof. induction l as [|x l IH]; cbn [foldr]; intros H; constructor; [lia|apply IH; lia]. Qed.

Lemma members_depth j : Forall (fun m => (depth (snd m) <= depth j - 1)%nat) (members_of j).
Proof.
  destruct j as [| | | |ms|l]; cbn [members_of]; try constructor.
  - apply list.Forall_forall. intros m [_ Hm]%list_elem_of_filter. apply list_elem_of_In, in_map_iff in Hm as (x & <- & Hx%list_elem_of_In).
    cbn [depth snd]. pose proof (foldr_max_le (fun m => depth (snd m)) ms _ (le_n _)) as H. rewrite list.Forall_forall in H.
    apply H in Hx. lia.
  - cbn [depth]. pose proof (foldr_max_le depth l _ (le_n _)) as H. revert H. generalize (foldr (fun j d => Nat.max (depth j) d) 0%nat l).
    generalize 0 as i. intros i d H. induction H as [|x l Hx _ IH] in i |- *; cbn [number]; [constructor|].
    destruct (skips x); [apply IH|]. constructor; [cbn [snd]; lia|apply IH].
Qed.

(** A value that is not skipped is added below its key. *)
Lemma put_spec d : forall j k m, (depth j <= d)%nat -> good (k, j) -> node_ok m -> is_list m = true -> child m k = None ->
  exists m', put d j k m = Some m' /\ adds m [(k, j)] m'.
Proof.
  induction d as [|d IH]; intros j k m Hd (Hk & Hne & Hs & Hr) Hok Hl Hc; cbn [fst snd] in *;
    destruct j as [|[]|s|s|ms|l]; try done; try (cbn in Hd; lia);
    try (apply put_data_spec; [done|done|done|done|by intros []]); cbn [put].
  all: match goal with |- context [members_of ?x] => set (j := x) in * end.
  all: destruct (members_good j Hr) as [Hg Hnd]; pose proof (members_depth j) as Hdep.
  all: rewrite list.Forall_forall in Hg, Hdep.
  all: destruct (put_all_spec (put d) (members_of j) (new_node k)) as (c & Ec & [Hokc Hkc Hlc Hcc]);
    [|done|apply new_node_ok|done|by apply list.Forall_forall|].
  all: try (apply list.Forall_forall; intros [k' j'] Hx; split; [by apply Hg|]; intros m1 ? ? ?; apply IH;
    [specialize (Hdep _ Hx); cbn [fst snd] in *; lia|by apply Hg|done..]).
  all: destruct (put_node_spec m k _ c Hok Hl Hk Hc Ec Hokc Hkc) as (m' & E & Hok' & Hk' & Hl' & Hch).
  all: exists m'; split; [done|]; split; [done|done|done|]; intros x; rewrite assoc_cons, Hch.
  all: destruct (decide (k = x)) as [<-|Hx]; [rewrite decide_True by done|by rewrite decide_False].
  all: exists c; split; [done|]; apply holds_members; [done|done|done|exact Hcc].
Qed.

(** * The stack machine *)

(** The top of the stack points to the node [m], in the tree [n]. *)
Record focus (c : j_ctx) (cnt : Z) (t : nat) (path : list (list Z)) (n m : bconf_node) : Prop := {
  fc_len : length (st c) = MAX_DEPTH;
  fc_frame : st c !! stack c = Some (mk_frame cnt (Some (t, path)));
  fc_tree : trees c !! t = Some n;
  fc_ok : node_ok n;
  fc_path : Forall valid_key path;
  fc_find : find_path n path = Some m
}.

(** The effect of reading: one tree changed, and the counter at the top of the stack. *)
Record lands (c : j_ctx) (fr : j_stack) (t : nat) (n : bconf_node) (c' : j_ctx) : Prop := {
  ld_stack : stack c' = stack c;
  ld_len : length (st c') = length (st c);
  ld_below i : (i < stack c)%nat -> st c' !! i = st c !! i;
  ld_frame : st c' !! stack c = Some fr;
  ld_trees : trees c' = <[t := n]> (trees c)
}.

Lemma dec_rev_length fuel n k : 0 <= n < 10 ^ Z.of_nat k -> (length (dec_rev fuel n) <= Nat.max 1 k)%nat.
Proof.
  revert n k. induction fuel as [|fuel IH]; intros n k Hn; cbn [dec_rev length]; [lia|].
  destruct (Z.ltb_spec n 10); cbn [length]; [lia|]. destruct k as [|k]; [simpl in Hn; lia|].
  assert (0 <= n / 10 < 10 ^ Z.of_nat k) as Hn'.
  { rewrite Nat2Z.inj_succ, Z.pow_succ_r in Hn by lia. split; [apply Z.div_pos; lia|]. apply Z.div_lt_upper_bound; lia. }
  pose proof (IH _ _ Hn'). destruct k; [simpl in Hn'; assert (1 <= n / 10) by (apply Z.div_le_lower_bound; lia); lia|]. lia.
Qed.

Lemma index_key i : 0 <= i < 2 ^ 31 -> take (MAX_KEYLEN - 1) (print_dec i) = print_dec i.
Proof.
  intros Hi. apply take_ge. unfold print_dec. rewrite (proj2 (Z.ltb_ge _ 0)) by lia. rewrite length_rev.
  pose proof (dec_rev_length (Z.to_nat (Z.abs i + 1)) (Z.abs i) 10) as H. change (MAX_KEYLEN - 1)%nat with 255%nat. lia.
Qed.

(** What the next key is, in an object and in an array. *)
Lemma next_key_obj c cnt fr : st c !! stack c = Some (mk_frame cnt fr) -> cnt < 0 -> next_key c <> [] ->
  json_vtree_next_key c = Some (Some (next_key c), c).
Proof.
  intros E Hc Hk. unfold json_vtree_next_key. rewrite E. cbn [mbind option_bind js_count].
  rewrite (proj2 (Z.leb_gt 0 cnt)) by lia. cbn [mbind option_bind]. by destruct (next_key c).
Qed.

Lemma next_key_arr c i fr : st c !! stack c = Some (mk_frame i fr) -> 0 <= i < 2 ^ 31 - 1 ->
  json_vtree_next_key c = Some (Some (print_dec i), set_key (print_dec i) (set_st (<[stack c := mk_frame (i + 1) fr]> (st c)) c)).
Proof.
  intros E Hi. unfold json_vtree_next_key. rewrite E. cbn [mbind option_bind js_count js_node].
  rewrite (proj2 (Z.leb_le 0 i)), (proj2 (Z.eqb_neq _ _)), index_key by lia. cbn [mbind option_bind set_key next_key].
  destruct (print_dec_key i) as [_ Hne]; [lia|]. by destruct (print_dec i).
Qed.

Lemma next_key_focus c cnt t path n m k c1 : focus c cnt t path n m -> json_vtree_next_key c = Some (Some k, c1) ->
  exists cnt1, focus c1 cnt1 t path n m /\ stack c1 = stack c /\ trees c1 = trees c /\
    forall i, (i < stack c)%nat -> st c1 !! i = st c !! i.
Proof.
  intros [Hlen Hfr Ht Hok Hp Hf]. unfold json_vtree_next_key. rewrite Hfr. cbn [mbind option_bind js_count js_node].
  destruct (0 <=? cnt); [destruct (cnt =? _); [done|]|]; cbn [mbind option_bind]; intros [= _ <-]; [exists (cnt + 1)|by exists cnt].
  split; [|split; [done|split; [done|]]].
  - split; cbn [set_key set_st st stack trees]; [by rewrite length_insert| |done..].
    apply list_lookup_insert_eq. by eapply lookup_lt_Some.
  - intros i Hi. cbn [set_key set_st st]. apply list_lookup_insert_ne. lia.
Qed.

Lemma at_node_focus {R} c cnt t path n m keyv (f : bconf_node -> option (R * bconf_node)) r m' :
  focus c cnt t path n m -> bconf_lookup_addv m keyv f = Some (Added (r, m')) ->
  at_node c (stack c) keyv f = Some (Some (r, (t, path ++ keyv)), set_trees (<[t := plug n path m']> (trees c)) c).
Proof.
  intros [Hlen Hfr Ht Hok Hp Hf] E. unfold at_node. rewrite Hfr. cbn [mbind option_bind js_node]. rewrite Ht.
  cbn [mbind option_bind]. by rewrite (lookup_addv_plug n path m), E.
Qed.

(** The focus after the node was replaced. *)
Lemma focus_lands c cnt t path n m cnt' m' c' : focus c cnt t path n m -> node_ok m' -> n_key m' = n_key m ->
  lands c (mk_frame cnt' (Some (t, path))) t (plug n path m') c' -> focus c' cnt' t path (plug n path m') m'.
Proof.
  intros [Hlen Hfr Ht Hok Hp Hf] Hok' Hk' [Hs Hl _ Hfr' Htr]. split; [congruence|by rewrite Hs| |by apply (plug_ok n path m)|done|].
  - rewrite Htr. apply list_lookup_insert_eq. by eapply lookup_lt_Some.
  - rewrite <- (app_nil_r path) at 2. by rewrite (find_path_plug n path m).
Qed.

Lemma lands_trans c fr1 t n path m m1 m2 c1 fr2 c2 : node_ok n -> find_path n path = Some m -> n_key m1 = n_key m ->
  lands c fr1 t (plug n path m1) c1 -> lands c1 fr2 t (plug (plug n path m1) path m2) c2 -> lands c fr2 t (plug n path m2) c2.
Proof.
  intros Hok Hp Hk [Hs1 Hl1 Hb1 _ Ht1] [Hs2 Hl2 Hb2 Hf2 Ht2]. split; [congruence|congruence| |congruence|].
  - intros i Hi. rewrite Hb2 by lia. auto.
  - rewrite Ht2, Ht1, list_insert_insert_eq. rewrite <- (app_nil_r path) at 2. by rewrite (plug_app n path m).
Qed.

Lemma yajl_parse_app c evs evs' : yajl_parse c (evs ++ evs') = (c ← yajl_parse c evs; yajl_parse c evs').
Proof. revert c. induction evs as [|e evs IH]; intros c; cbn [app yajl_parse]; [done|]. destruct (json_vtree_cbs c e); [apply IH|done]. Qed.

Lemma add_datav_focus c cnt t path n m k v dup m' : focus c cnt t path n m -> put_data m k v dup = Some m' ->
  add_datav c (stack c) [k] v dup = Some (set_trees (<[t := plug n path m']> (trees c)) c).
Proof.
  intros Hf E. unfold put_data, bconf_add_datav, bconf_add_datav_canfail in E. change (root_or_new (Some m)) with m in E.
  destruct (bconf_lookup_addv m [k] _) as [[|[r m1]]|] eqn:El; [done| |done]. cbn [mbind option_bind or_exit] in E.
  unfold add_datav. rewrite (at_node_focus _ _ _ _ _ _ _ _ _ _ Hf El). cbn [mbind option_bind].
  destruct (r =? -1); [done|]. by injection E as ->.
Qed.

(** Opening a node: it is created, then filled. *)
Lemma put_node_split m k f m' : node_ok m -> is_list m = true -> valid_key k -> child m k = None -> put_node m k f = Some m' ->
  exists m1 c', bconf_lookup_addv m [k] (fun n => Some ((), n)) = Some (Added ((), m1)) /\ node_ok m1 /\ n_key m1 = n_key m /\
    child m1 k = Some (new_node k) /\ f (new_node k) = Some c' /\ m' = plug m1 [k] c'.
Proof.
  intros Hok Hl Hk Hc. destruct (bconf_get_node_spec m k Hok Hl Hk) as (i & n1 & c & Hget & Hi & E & Hkc & Hokc & Ht & Hk1 & Hset).
  rewrite Hc in E. change (default (new_node k) None) with (new_node k) in E. subst c. unfold put_node. cbn [bconf_lookup_addv].
  rewrite Hget. cbn [mbind option_bind]. rewrite Hi. cbn [mbind option_bind]. destruct (f (new_node k)) as [c'|]; [|done].
  cbn [mbind option_bind]. intros [= <-]. destruct (Hset _ Hkc Hokc) as [Hok1 Hch1]. specialize (Hch1 k). rewrite decide_True in Hch1 by done.
  eexists _, c'. split; [done|]. split; [done|]. split; [done|]. split; [done|]. split; [done|].
  destruct (plug_cons _ k _ [] c' Hch1) as (i' & Hi' & _ & ->).
  assert (i' = i) as ->.
  { eapply NoDup_lookup; [apply (keys_NoDup _ (ok_sorted _ Hok1))|..]; rewrite lookup_keys; [by rewrite Hi'|].
    cbn [set_sub n_subs]. rewrite list_lookup_insert_eq; [done|]. by eapply lookup_lt_Some. }
  unfold set_sub. cbn [n_key n_type n_value n_star n_subs plug]. by rewrite list_insert_insert_eq.
Qed.

Lemma plug_same n path m : find_path n path = Some m -> plug n path m = n.
Proof.
  revert n. induction path as [|x path IH]; intros n; cbn [find_path]; [by intros [= ->]|].
  destruct (child n x) as [c|] eqn:Hc; [|done]. cbn [mbind option_bind]. intros Hf.
  destruct (plug_cons n x c path m Hc) as (i & Hi & _ & ->). rewrite IH by done.
  unfold set_sub. rewrite list_insert_id by done. by destruct n.
Qed.

Lemma lands_refl c cnt t path n m : focus c cnt t path n m -> lands c (mk_frame cnt (Some (t, path))) t (plug n path m) c.
Proof.
  intros [Hlen Hfr Ht Hok Hp Hf]. split; try done. rewrite plug_same by done. by rewrite list_insert_id.
Qed.

(** Reading the events of a value at the next key is [put]. *)
Definition reads (d : nat) (j : json) : Prop :=
  forall c cnt t path n m k c1 m', focus c cnt t path n m -> json_vtree_next_key c = Some (Some k, c1) ->
    good (k, j) -> (depth j <= d)%nat -> (stack c + d < MAX_DEPTH)%nat -> node_ok m -> is_list m = true -> child m k = None ->
    put d j k m = Some m' ->
    exists c' fr, st c1 !! stack c = Some fr /\ yajl_parse c (events j) = Some c' /\ lands c fr t (plug n path m') c'.

(** The members [ms] are still to be added to [m], which makes it [m']. *)
Record fills (d : nat) (ms : list (list Z * json)) (m m' : bconf_node) : Prop := {
  fl_good : Forall good ms;
  fl_keys : NoDup (map fst ms);
  fl_depth : Forall (fun x => (depth (snd x) <= d)%nat) ms;
  fl_ok : node_ok m;
  fl_list : is_list m = true;
  fl_free : Forall (fun x => child m (fst x) = None) ms;
  fl_put : put_all (put d) ms m = Some m'
}.

Lemma fills_cons d k j ms m m' : fills d ((k, j) :: ms) m m' ->
  exists m1, put d j k m = Some m1 /\ node_ok m1 /\ n_key m1 = n_key m /\ fills d ms m1 m'.
Proof.
  intros [Hg Hnd Hdep Hok Hl Hfree Hput]. apply list.Forall_cons in Hg as [Hgj Hg]. apply list.Forall_cons in Hdep as [Hdj Hdep].
  apply list.Forall_cons in Hfree as [Hcj Hfree]. apply NoDup_cons in Hnd as [Hnin Hnd]. cbn [put_all fst snd map] in *.
  destruct (put_spec d j k m Hdj Hgj Hok Hl Hcj) as (m1 & E & [Hok1 Hk1 Hl1 Hc1]). rewrite E in Hput. cbn [mbind option_bind] in Hput.
  exists m1. do 3 (split; [done|]). split; try done. rewrite list.Forall_forall in Hfree |- *. intros x Hx. specialize (Hc1 (fst x)).
  rewrite assoc_cons, decide_False in Hc1.
  - rewrite Hc1. by apply Hfree.
  - intros ->. apply Hnin. by apply (list_elem_of_fmap_2 fst) in Hx.
Qed.

(** One member, and what is left. *)
Lemma reads_step d j c cnt t path n m k c1 ms m' : reads d j -> focus c cnt t path n m -> json_vtree_next_key c = Some (Some k, c1) ->
  (stack c + d < MAX_DEPTH)%nat -> fills d ((k, j) :: ms) m m' ->
  exists cnt1 m1 c2, let fr := mk_frame cnt1 (Some (t, path)) in
    st c1 !! stack c = Some fr /\ yajl_parse c (events j) = Some c2 /\ n_key m1 = n_key m /\
    lands c fr t (plug n path m1) c2 /\ focus c2 cnt1 t path (plug n path m1) m1 /\ fills d ms m1 m'.
Proof.
  intros Hj Hf Hnk Hst Hfl. destruct (fills_cons _ _ _ _ _ _ Hfl) as (m1 & Ep & Hok1 & Hk1 & Hfl1).
  destruct Hfl as [Hg _ Hdep Hok Hl Hfree _]. apply list.Forall_cons in Hg as [Hg _]. apply list.Forall_cons in Hdep as [Hdj _].
  apply list.Forall_cons in Hfree as [Hc _]. cbn [fst snd] in *.
  destruct (Hj c cnt t path n m k c1 m1 Hf Hnk Hg Hdj) as (c2 & fr & Hfr & E & Hla); [done..|].
  destruct (next_key_focus _ _ _ _ _ _ _ _ Hf Hnk) as (cnt1 & Hf1 & Hs1 & _). pose proof (fc_frame _ _ _ _ _ _ Hf1) as Hfr'.
  rewrite Hs1, Hfr in Hfr'. injection Hfr' as ->. exists cnt1, m1, c2. do 4 (split; [done|]). split; [|done]. by apply (focus_lands c cnt t path n m).
Qed.

(** The members of an object are read at the keys they name. *)
Lemma reads_members d ms : Forall (fun m => reads d (snd m)) ms -> forall c cnt t path n m m',
  focus c cnt t path n m -> cnt < 0 -> (stack c + d < MAX_DEPTH)%nat -> fills d (members_of (JObj ms)) m m' ->
  exists c', yajl_parse c (concat (map (fun m => ev_map_key (fst m) :: events (snd m)) ms)) = Some c' /\
    lands c (mk_frame cnt (Some (t, path))) t (plug n path m') c'.
Proof.
  induction 1 as [|[k j] ms Hj Hms IH]; intros c cnt t path n m m' Hf Hcnt Hst Hfl; cbn [snd] in *.
  { pose proof (fl_put _ _ _ _ Hfl) as [= <-]. exists c. split; [done|]. by apply lands_refl. }
  cbn [map concat]. rewrite yajl_parse_app. cbn [yajl_parse json_vtree_cbs fst snd]. unfold json_vtree_map_key.
  cbn [mbind option_bind]. set (c0 := set_key (json_key k) c) in *. assert (focus c0 cnt t path n m) as Hf0 by (by destruct Hf).
  assert (members_of (JObj ((k, j) :: ms)) = if skips j then members_of (JObj ms) else (json_key k, j) :: members_of (JObj ms)) as Ems.
  { cbn [members_of map fst snd]. rewrite filter_cons. cbn [snd]. destruct (skips j); [by rewrite decide_False|by rewrite decide_True]. }
  rewrite Ems in Hfl. clear Ems. destruct (skips j) eqn:Hs.
  { assert (yajl_parse c0 (events j) = Some c0) as -> by (by destruct j as [|[]| | | |]). cbn [mbind option_bind].
    destruct (IH c0 cnt t path n m m' Hf0 Hcnt Hst Hfl) as (c' & E & [H1 H2 H3 H4 H5]). by exists c'. }
  assert (json_vtree_next_key c0 = Some (Some (json_key k), c0)) as Hnk.
  { pose proof (fl_good _ _ _ _ Hfl) as [(_ & Hne & _) _]%list.Forall_cons. apply (next_key_obj c0 cnt (Some (t, path))); [apply Hf0|done|done]. }
  destruct (reads_step d j c0 cnt t path n m _ _ _ m' Hj Hf0 Hnk Hst Hfl) as (cnt1 & m1 & c1 & Hfr & E1 & Hk1 & Hl1 & Hf1 & Hfl1).
  rewrite (fc_frame _ _ _ _ _ _ Hf0) in Hfr. injection Hfr as <-. rewrite E1. cbn [mbind option_bind].
  destruct (IH c1 cnt t path _ m1 m' Hf1 Hcnt) as (c' & E & Hl2); [rewrite (ld_stack _ _ _ _ _ Hl1); exact Hst|done|].
  exists c'. split; [done|]. destruct (lands_trans c0 _ t n path m m1 m' c1 _ c' (fc_ok _ _ _ _ _ _ Hf) (fc_find _ _ _ _ _ _ Hf) Hk1 Hl1 Hl2). by split.
Qed.

(** The elements of an array are read at their indexes. *)
Lemma reads_elements d l : Forall (reads d) l -> forall c i t path n m m',
  focus c i t path n m -> 0 <= i -> i + Z.of_nat (length l) < 2 ^ 31 -> (stack c + d < MAX_DEPTH)%nat -> fills d (number i l) m m' ->
  exists c' i', yajl_parse c (concat (map events l)) = Some c' /\ lands c (mk_frame i' (Some (t, path))) t (plug n path m') c'.
Proof.
  induction 1 as [|j l Hj Hls IH]; intros c i t path n m m' Hf Hi Hlen Hst Hfl; cbn [number length] in *.
  { pose proof (fl_put _ _ _ _ Hfl) as [= <-]. exists c, i. split; [done|]. by apply lands_refl. }
  cbn [map concat]. rewrite yajl_parse_app. destruct (skips j) eqn:Hs.
  { assert (yajl_parse c (events j) = Some c) as -> by (by destruct j as [|[]| | | |]). cbn [mbind option_bind]. apply (IH c i t path n m m'); [done|done|lia|done|done]. }
  pose proof (next_key_arr c i _ (fc_frame _ _ _ _ _ _ Hf)) as Hnk. specialize (Hnk ltac:(lia)).
  destruct (reads_step d j c i t path n m _ _ _ m' Hj Hf Hnk Hst Hfl) as (cnt1 & m1 & c1 & Hfr & E1 & Hk1 & Hl1 & Hf1 & Hfl1).
  assert (cnt1 = i + 1) as ->.
  { cbn [set_key set_st st] in Hfr. rewrite list_lookup_insert_eq in Hfr; [congruence|]. eapply lookup_lt_Some, (fc_frame _ _ _ _ _ _ Hf). }
  rewrite E1. cbn [mbind option_bind].
  destruct (IH c1 (i + 1) t path _ m1 m' Hf1) as (c' & i' & E & Hl2); [lia|lia|rewrite (ld_stack _ _ _ _ _ Hl1); exact Hst|done|].
  exists c', i'. split; [done|]. by apply (lands_trans c _ t n path m m1 m' c1 _ c' (fc_ok _ _ _ _ _ _ Hf) (fc_find _ _ _ _ _ _ Hf) Hk1 Hl1 Hl2).
Qed.

Lemma reads_scalar d j k v dup c cnt t path n m c1 m' e : focus c cnt t path n m -> json_vtree_next_key c = Some (Some k, c1) ->
  put d j k m = put_data m k v dup -> put d j k m = Some m' -> events j = [e] -> json_vtree_cbs c e = add_value c v dup ->
  exists c' fr, st c1 !! stack c = Some fr /\ yajl_parse c (events j) = Some c' /\ lands c fr t (plug n path m') c'.
Proof.
  intros Hf Hnk Ep Ep' Ee Ecb. rewrite Ep in Ep'. destruct (next_key_focus _ _ _ _ _ _ _ _ Hf Hnk) as (cnt1 & Hf1 & Hs1 & Ht1 & Hb1).
  rewrite Ee. cbn [yajl_parse]. rewrite Ecb. unfold add_value. rewrite Hnk. cbn [mbind option_bind]. rewrite <- Hs1.
  rewrite (add_datav_focus _ _ _ _ _ _ _ _ _ _ Hf1 Ep'). cbn [mbind option_bind]. pose proof (fc_frame _ _ _ _ _ _ Hf1) as Hfr.
  eexists _, _. split; [exact Hfr|]. split; [done|]. split; cbn [set_trees stack st trees]; [done| | |by rewrite <- Hs1|by rewrite Ht1].
  - by rewrite (fc_len _ _ _ _ _ _ Hf1), (fc_len _ _ _ _ _ _ Hf).
  - auto.
Qed.

(** A container opens a node, and the events inside fill it. *)
Lemma reads_container c cnt t path n m k c1 m' cnt0 fill : focus c cnt t path n m -> json_vtree_next_key c = Some (Some k, c1) ->
  valid_key k -> node_ok m -> is_list m = true -> child m k = None -> (S (stack c) < MAX_DEPTH)%nat -> put_node m k fill = Some m' ->
  exists n1 c2 x, json_vtree_start c cnt0 = Some c2 /\ focus c2 cnt0 t (path ++ [k]) n1 (new_node k) /\ stack c2 = S (stack c) /\
    fill (new_node k) = Some x /\
    forall fr c3, lands c2 fr t (plug n1 (path ++ [k]) x) c3 ->
      exists c' fr', json_vtree_end_map c3 = Some c' /\ st c1 !! stack c = Some fr' /\ lands c fr' t (plug n path m') c'.
Proof.
  intros Hf Hnk Hk Hokm Hl Hc Hst Ep. destruct (next_key_focus _ _ _ _ _ _ _ _ Hf Hnk) as (cnt1 & Hf1 & Hs1 & Ht1 & Hb1).
  destruct (put_node_split m k fill m' Hokm Hl Hk Hc Ep) as (m1 & x & El & Hok1 & Hk1 & Hc1 & Ex & ->).
  pose proof Hf1 as [Hlen Hfr Ht Hok Hp Hfi]. pose proof (lookup_lt_Some _ _ _ Hfr) as Hlt.
  exists (plug n path m1). unfold json_vtree_start. rewrite Hnk. cbn [mbind option_bind]. unfold bconf_add_listnodev.
  rewrite <- Hs1, (at_node_focus _ _ _ _ _ _ _ _ _ _ Hf1 El). cbn [mbind option_bind set_trees stack]. rewrite Hs1.
  rewrite (proj2 (Nat.ltb_lt _ _)) by exact Hst. eexists _, x. split; [done|]. split; [|split; [done|split; [done|]]].
  - split; cbn [set_stack set_st set_trees st stack trees].
    + by rewrite length_insert.
    + apply list_lookup_insert_eq. by rewrite Hlen.
    + apply list_lookup_insert_eq. by eapply lookup_lt_Some.
    + by apply (plug_ok n path m).
    + apply Forall_app. split; [done|]. by constructor.
    + rewrite (find_path_plug n path m) by done. cbn [find_path]. by rewrite Hc1.
  - intros fr c3 [Hs3 Hl3 Hb3 _ Ht3]. cbn [set_stack set_st set_trees st stack trees] in *. unfold json_vtree_end_map. rewrite Hs3.
    rewrite Hs1 in Hfr, Hlt. eexists _, _. split; [done|]. split; [exact Hfr|].
    split; cbn [set_stack stack st trees].
    + done.
    + by rewrite Hl3, length_insert, Hlen, (fc_len _ _ _ _ _ _ Hf).
    + intros i Hi. rewrite Hb3, list_lookup_insert_ne by lia. auto.
    + by rewrite Hb3, list_lookup_insert_ne by lia.
    + by rewrite Ht3, list_insert_insert_eq, Ht1, (plug_app n path m).
Qed.

Lemma fills_new d j k x : readable j -> (depth j <= S d)%nat -> put_all (put d) (members_of j) (new_node k) = Some x ->
  fills d (members_of j) (new_node k) x.
Proof.
  intros Hr Hd Hput. destruct (members_good j Hr) as [Hg Hnd]. pose proof (members_depth j) as Hdep.
  split; [done|done| |apply new_node_ok|done|by apply list.Forall_forall|done].
  eapply Forall_impl; [exact Hdep|]. cbn. intros y ?. lia.
Qed.

Lemma reads_value j : forall d, reads d j.
Proof.
  induction j as [|b|s|s|ms IH|l IH] using json_full_ind; intros d c cnt t path n m k c1 m' Hf Hnk (Hk & Hne & Hs & Hr) Hd Hst Hok Hl Hc Hput;
    cbn [fst snd] in *; [done| | | | |].
  - destruct b; [|done]. apply (reads_scalar d (JBool true) k (bytes "true") BCONF_REF c cnt t path n m c1 m' (ev_boolean true)); try done; by destruct d.
  - apply (reads_scalar d (JNum s) k (cstr s) BCONF_OWN c cnt t path n m c1 m' (ev_number s)); try done; by destruct d.
  - apply (reads_scalar d (JStr s) k (cstr s) BCONF_OWN c cnt t path n m c1 m' (ev_string s)); try done; by destruct d.
  - destruct d as [|d]; [cbn in Hd; lia|]. cbn [put] in Hput.
    destruct (reads_container c cnt t path n m k c1 m' (-1) (put_all (put d) (members_of (JObj ms))) Hf Hnk Hk Hok Hl Hc)
      as (n1 & c2 & x & E2 & Hf2 & Hs2 & Ex & Hend); [lia|exact Hput|].
    destruct (reads_members d ms) with (c := c2) (cnt := -1) (t := t) (path := path ++ [k]) (n := n1) (m := new_node k) (m' := x)
      as (c3 & E3 & Hl3); [eapply Forall_impl; [exact IH|by auto]|done|done|lia|by apply fills_new|].
    destruct (Hend _ _ Hl3) as (c' & fr' & E' & Hfr & Hla). exists c', fr'. split; [done|]. split; [|done].
    cbn [events yajl_parse json_vtree_cbs]. rewrite E2. cbn [mbind option_bind]. rewrite yajl_parse_app, E3. cbn [mbind option_bind yajl_parse json_vtree_cbs].
    by rewrite E'.
  - destruct d as [|d]; [cbn in Hd; lia|]. cbn [put] in Hput.
    destruct (reads_container c cnt t path n m k c1 m' 0 (put_all (put d) (members_of (JArr l))) Hf Hnk Hk Hok Hl Hc)
      as (n1 & c2 & x & E2 & Hf2 & Hs2 & Ex & Hend); [lia|exact Hput|].
    destruct (reads_elements d l) with (c := c2) (i := 0) (t := t) (path := path ++ [k]) (n := n1) (m := new_node k) (m' := x)
      as (c3 & i' & E3 & Hl3); [eapply Forall_impl; [exact IH|by auto]|done|done|by inversion Hr|lia|by apply (fills_new d (JArr l))|].
    destruct (Hend _ _ Hl3) as (c' & fr' & E' & Hfr & Hla). exists c', fr'. split; [done|]. split; [|done].
    cbn [events yajl_parse json_vtree_cbs]. rewrite E2. cbn [mbind option_bind]. rewrite yajl_parse_app, E3. cbn [mbind option_bind yajl_parse json_vtree_cbs].
    by rewrite E'.
Qed.

(** * Whole texts *)

Lemma put_members d j k : readable j -> json_at j [] = None -> (depth j <= S d)%nat ->
  exists x, put_all (put d) (members_of j) (new_node k) = Some x /\ holds x j.
Proof.
  intros Hr Hj Hd. destruct (members_good j Hr) as [Hg Hnd]. pose proof (members_depth j) as Hdep. rewrite list.Forall_forall in Hg, Hdep.
  destruct (put_all_spec (put d) (members_of j) (new_node k)) as (x & E & [Hok _ Hl Hc]);
    [|done|apply new_node_ok|done|by apply list.Forall_forall|].
  - apply list.Forall_forall. intros [k' j'] Hx. split; [by apply Hg|]. intros m ? ? ?. apply put_spec; [|by apply Hg|done..].
    specialize (Hdep _ Hx). cbn [fst snd] in *. lia.
  - exists x. split; [done|]. apply holds_members; [done|done|done|exact Hc].
Qed.

(** The first value allocates the tree of the bottom of the stack. *)
Definition alloc (c : j_ctx) : j_ctx := set_trees [root_node] (set_st (<[0%nat := mk_frame (-1) (Some (0%nat, []))]> (st c)) c).

Lemma at_node_alloc {R} r keyv (f : bconf_node -> option (R * bconf_node)) :
  at_node (j_init (Some r)) 0 keyv f = at_node (alloc (j_init (Some r))) 0 keyv f.
Proof. unfold at_node. cbn. by destruct (bconf_lookup_addv root_node keyv f) as [[|[]]|]. Qed.

Lemma parse_alloc r j : take (MAX_KEYLEN - 1) r <> [] -> skips j = false ->
  yajl_parse (j_init (Some r)) (events j) = yajl_parse (alloc (j_init (Some r))) (events j).
Proof.
  intros Hr Hs. set (c := j_init (Some r)).
  assert (json_vtree_next_key c = Some (Some (next_key c), c)) as H1 by (by apply (next_key_obj c (-1) None)).
  assert (json_vtree_next_key (alloc c) = Some (Some (next_key c), alloc c)) as H2 by (by apply (next_key_obj (alloc c) (-1) (Some (0%nat, [])))).
  assert (forall v dup, add_value c v dup = add_value (alloc c) v dup) as Hadd.
  { intros v dup. unfold add_value. rewrite H1, H2. cbn [mbind option_bind]. change (stack c) with 0%nat. change (stack (alloc c)) with 0%nat.
    unfold add_datav, c. by rewrite at_node_alloc. }
  assert (forall cnt, json_vtree_start c cnt = json_vtree_start (alloc c) cnt) as Hstart.
  { intros cnt. unfold json_vtree_start. rewrite H1, H2. cbn [mbind option_bind]. change (stack c) with 0%nat. change (stack (alloc c)) with 0%nat.
    unfold bconf_add_listnodev, c. by rewrite at_node_alloc. }
  destruct j as [|[]|s|s|ms|l]; [done| |done|..]; cbn [events yajl_parse json_vtree_cbs];
    unfold json_vtree_boolean, json_vtree_number, json_vtree_string; by rewrite ?Hadd, ?Hstart.
Qed.

(** With a name, the value is read below it. *)
Lemma json_bconf_named r j : valid_key r -> r <> [] -> (length r < MAX_KEYLEN)%nat -> readable j -> skips j = false -> (depth j < MAX_DEPTH)%nat ->
  exists n, json_bconf (Some r) (events j) None = Some (0, Some n) /\ node_ok n /\ forall path, value_at n (r :: path) = json_at j path.
Proof.
  intros Hv Hne Hlen Hr Hs Hd. set (c := alloc (j_init (Some r))).
  assert (take (MAX_KEYLEN - 1) r = r) as Htake by (apply take_ge; change MAX_KEYLEN with 256%nat in *; lia).
  assert (good (r, j)) as Hg by done.
  assert (focus c (-1) 0 [] root_node root_node) as Hf by (split; done || apply new_node_ok).
  destruct (put_spec (depth j) j r root_node) as (m' & Ep & [Hok' Hk' Hl' Hc']); [done|done|apply new_node_ok|done|done|].
  destruct (reads_value j (depth j) c (-1) 0%nat [] root_node root_node r c m' Hf) as (c' & fr & Hfr & E & Hla);
    [|done|done|done|apply new_node_ok|done|done|done|].
  { pose proof (next_key_obj c (-1) (Some (0%nat, []))) as Hnk. change (next_key c) with (take (MAX_KEYLEN - 1) r) in Hnk. rewrite Htake in Hnk. by apply Hnk. }
  injection Hfr as <-. unfold json_bconf. rewrite parse_alloc by (rewrite ?Htake; done). fold c. rewrite E. cbn [mbind option_bind].
  destruct Hla as [Hs' Hl'' _ Hfr' Ht']. change (stack c) with 0%nat in Hfr'. exists m'. split.
  { unfold node_of. rewrite Hfr'. cbn [mbind option_bind js_node]. by rewrite Ht'. }
  split; [done|]. intros path. rewrite value_at_cons.
  specialize (Hc' r). rewrite assoc_cons, decide_True in Hc' by done. destruct Hc' as (x & -> & _ & Hx). apply Hx.
Qed.

Definition container (j : json) : bool := match j with JObj _ | JArr _ => true | _ => false end.

(** Without one it is the tree. *)
Lemma json_bconf_unnamed j : readable j -> container j = true -> (depth j < MAX_DEPTH)%nat ->
  exists n, json_bconf None (events j) None = Some (0, Some n) /\ node_ok n /\ forall path, value_at n path = json_at j path.
Proof.
  intros Hr Hj Hd. set (cnt := match j with JObj _ => -1 | _ => 0 end).
  destruct (put_members (depth j - 1) j []) as (x & Ex & Hok & Hx); [done|by destruct j|lia|].
  destruct (json_vtree_start (j_init None) cnt) as [c|] eqn:E1; [|by destruct j].
  assert (focus c cnt 0 [] root_node root_node /\ stack c = 1%nat) as [Hf Hsc].
  { injection E1 as <-. split; [|done]. split; done || apply new_node_ok. }
  pose proof (fills_new (depth j - 1) j [] x Hr ltac:(lia) Ex) as Hfl.
  assert (exists inner e c' fr, events j = (match j with JObj _ => ev_start_map | _ => ev_start_array end) :: inner ++ [e] /\
    (forall c, json_vtree_cbs c e = json_vtree_end_map c) /\ yajl_parse c inner = Some c' /\
    lands c (mk_frame fr (Some (0%nat, []))) 0 (plug root_node [] x) c') as (inner & e & c' & fr & Ee & Hend & E & [Hs' _ _ Hfr Ht]).
  { destruct j as [| | | |ms|l]; try done.
    - destruct (reads_members (depth (JObj ms) - 1) ms) with (c := c) (cnt := -1) (t := 0%nat) (path := @nil (list Z)) (n := root_node) (m := root_node) (m' := x)
        as (c' & E & Hla); [apply list.Forall_forall; intros; apply reads_value|done|done|rewrite Hsc; unfold MAX_DEPTH in *; lia|done|]. by eexists _, ev_end_map, c', _.
    - destruct (reads_elements (depth (JArr l) - 1) l) with (c := c) (i := 0) (t := 0%nat) (path := @nil (list Z)) (n := root_node) (m := root_node) (m' := x)
        as (c' & i' & E & Hla); [apply list.Forall_forall; intros; apply reads_value|done|done|by inversion Hr|rewrite Hsc; unfold MAX_DEPTH in *; lia|done|]. by eexists _, ev_end_array, c', _. }
  exists x. split; [|done]. unfold json_bconf. rewrite Ee. cbn [yajl_parse].
  assert (json_vtree_cbs (j_init None) (match j with JObj _ => ev_start_map | _ => ev_start_array end) = Some c) as -> by (by destruct j).
  cbn [mbind option_bind]. rewrite yajl_parse_app, E. cbn [mbind option_bind yajl_parse]. rewrite Hend. unfold json_vtree_end_map. rewrite Hs', Hsc.
  cbn [mbind option_bind]. unfold node_of. cbn [set_stack st trees]. rewrite Hsc in Hfr. rewrite Hfr. cbn [mbind option_bind js_node].
  rewrite Ht. injection E1 as <-. done.
Qed.

(** * Printing *)

Section Print.
Context {X : Type} `{!VtreeBackend X}.

(** The runs between the characters that strpbrk finds are written as they are. *)
Definition json_escape (newline : bool) (c : Z) : list Z :=
  if c =? 9 then bytes "\t"
  else if newline && (c =? 10) then bytes "\n"
  else if (c =? 34) || (c =? 92) then [92; c] else [c].

Definition json_quoted (newline : bool) (s : list Z) : list Z := [34] ++ concat (map (json_escape newline) s) ++ [34].

(** The check for a numeric array. *)
Fixpoint all_numeric (l : list (vtree_keyvals_elem (vtree_chain X))) : option bool :=
  match l with
  | [] => Some true
  | e :: l => k ← kv_key e; if forallb isdigit k then all_numeric l else Some false
  end.

Definition json_elements (rec : vtree_chain X -> option (list Z)) (numeric : bool) : list (vtree_keyvals_elem (vtree_chain X)) -> option (list Z) :=
  fix go l :=
    match l with
    | [] => Some []
    | e :: l =>
      let comma := if bool_decide (l = []) then [] else [44] in
      let value :=
        match kv_val e with
        | vkvNode n => t ← rec n; Some (t ++ comma)
        | vkvValue v => Some (json_quoted true v ++ comma)
        | vkvNone => Some (bytes "null" ++ comma)
        end in
      if numeric then t ← value; rest ← go l; Some (t ++ rest)
      else
        k ← kv_key e;
        if hd0 k =? 95 then go l
        else t ← value; rest ← go l; Some (json_quoted false k ++ [58; 32] ++ t ++ rest)
    end.

(** [junk] is the type in the uninitialised structure, which is left as it is if
    there is no tree. *)
Fixpoint vtree_json (junk : vtree_keyvals_type) (fuel : nat) (use_arrays : bool) (n : vtree_chain X) : option (list Z) :=
  match fuel with
  | O => None
  | S fuel =>
    '(keyvals, _) ← vtree_fetch_keys_and_values_cachev (Some n) (mk_keyvals junk []) (Some VTCACHE_UNKNOWN) [VTREE_LOOP];
    numeric ← (if use_arrays && bool_decide (kv_type keyvals = vktUnknown) then all_numeric (kv_list keyvals)
               else Some (bool_decide (kv_type keyvals = vktList)));
    body ← json_elements (vtree_json junk fuel use_arrays) numeric (kv_list keyvals);
    Some (if (numeric : bool) then [91] ++ body ++ [93] else [123] ++ body ++ [125])
  end.
End Print.

(** What a configuration tree is printed as. *)
Definition numeric_keys (n : bconf_node) : bool := forallb (fun m => forallb isdigit (n_key m)) (n_subs n).

Fixpoint vjson (use_arrays : bool) (n : bconf_node) : json :=
  let value m := match n_value m with Some v => JStr v | None => vjson use_arrays m end in
  if use_arrays && numeric_keys n then JArr (map value (n_subs n)) else JObj (map (fun m => (n_key m, value m)) (n_subs n)).

Definition vjson_value (use_arrays : bool) (m : bconf_node) : json :=
  match n_value m with Some v => JStr v | None => vjson use_arrays m end.

Fixpoint height (n : bconf_node) : nat := S (foldr (fun m h => Nat.max (height m) h) 0%nat (n_subs n)).

(** Keys and values that the printer escapes as JSON wants, and arrays without
    gaps: those that can be read back. *)
Definition json_key_ok (k : list Z) : Prop :=
  Forall (fun c => c = 9 \/ 32 <= c < 256) k /\ k <> [] /\ hd0 k <> 95 /\ (length k < MAX_KEYLEN)%nat.

Definition json_value_ok (v : list Z) : Prop := Forall (fun c => c = 9 \/ c = 10 \/ 32 <= c < 256) v.

Inductive exportable (use_arrays : bool) (n : bconf_node) : Prop := mk_exportable {
  ex_dense : use_arrays = true -> numeric_keys n = true ->
    keys (n_subs n) = map (fun i => print_dec (Z.of_nat i)) (seq 0 (length (n_subs n))) /\ Z.of_nat (length (n_subs n)) < 2 ^ 31;
  ex_subs : Forall (fun m => json_key_ok (n_key m) /\ json_value_ok (value_of m) /\ exportable use_arrays m) (n_subs n)
}.

Lemma vjson_eq ua n : vjson ua n =
  if ua && numeric_keys n then JArr (map (vjson_value ua) (n_subs n)) else JObj (map (fun m => (n_key m, vjson_value ua m)) (n_subs n)).
Proof. by destruct n. Qed.

Lemma height_subs n m : m ∈ n_subs n -> (height m < height n)%nat.
Proof.
  intros Hm. destruct n as [k t v s subs]. cbn [height n_subs] in *. pose proof (foldr_max_le height subs _ (le_n _)) as H.
  rewrite list.Forall_forall in H. apply H in Hm. lia.
Qed.

(** ** The text denotes the tree *)

Lemma quoted_key k : Forall (fun c => c = 9 \/ 32 <= c < 256) k -> jchars (concat (map (json_escape false) k)) k.
Proof.
  induction 1 as [|c k Hc _ IH]; cbn [map concat]; [constructor|]. unfold json_escape.
  destruct (Z.eqb_spec c 9) as [->|]; [by apply jchars_tab|]. cbn [andb].
  destruct (Z.eqb_spec c 34) as [->|]; [apply jchars_self; auto|]. destruct (Z.eqb_spec c 92) as [->|]; [apply jchars_self; auto|].
  cbn [orb app]. apply jchars_plain; [lia|done|done|done].
Qed.

Lemma quoted_value v : json_value_ok v -> jtext (json_quoted true v) (JStr v).
Proof.
  intros Hv. apply jtext_string. induction Hv as [|c v Hc _ IH]; cbn [map concat]; [constructor|]. unfold json_escape.
  destruct (Z.eqb_spec c 9) as [->|]; [by apply jchars_tab|]. cbn [andb]. destruct (Z.eqb_spec c 10) as [->|]; [by apply jchars_newline|].
  destruct (Z.eqb_spec c 34) as [->|]; [apply jchars_self; auto|]. destruct (Z.eqb_spec c 92) as [->|]; [apply jchars_self; auto|].
  cbn [orb app]. apply jchars_plain; [lia|done|done|done].
Qed.

(** The elements of a node as [fetch_keys_and_values] returns them. *)
Definition node_elem (m : bconf_node) : vtree_keyvals_elem (vtree_chain bconf_chain) :=
  mk_elem (Some (n_key m)) (match n_value m with Some v => vkvValue v | None => vkvNode (Ext (Node false (Some m))) end).

Lemma fetch_node own n junk : vtree_fetch_keys_and_values_cachev (Some (Ext (Node own (Some n)))) junk (Some VTCACHE_UNKNOWN) [VTREE_LOOP] =
  Some (mk_keyvals vktUnknown (map node_elem (n_subs n)), Some VTCACHE_UNKNOWN).
Proof.
  unfold vtree_fetch_keys_and_values_cachev, fetch_call, cached_call. cbn [bpv_fetch_keys_and_values ext_fetch_keys_and_values bconf_api].
  unfold lift, vtree_bconf_fetch_keys_and_values. cbn [bconf_vasget mbind option_bind after_loop subs_of].
  assert (mapM (bconf_elem []) (n_subs n) = Some (map node_elem (n_subs n))) as ->; [|done].
  apply mapM_Some. induction (n_subs n) as [|m l IH]; cbn [map]; constructor; [|exact IH].
  unfold bconf_elem, node_elem. cbn [bconf_vasget mbind option_bind]. unfold bconf_value. cbn [mbind option_bind]. by destruct (n_value m).
Qed.

Lemma numeric_spec l : all_numeric (map node_elem l) = Some (forallb (fun m => forallb isdigit (n_key m)) l).
Proof.
  induction l as [|m l IH]; [done|]. cbn [map all_numeric node_elem kv_key mbind option_bind forallb].
  destruct (forallb isdigit (n_key m)); [exact IH|done].
Qed.

Lemma elements_text (ua numeric : bool) rec (text : bconf_node -> list Z) l :
  Forall (fun m => json_key_ok (n_key m) /\ jtext (text m) (vjson_value ua m) /\
    match n_value m with Some v => text m = json_quoted true v | None => rec (Ext (Node false (Some m))) = Some (text m) end) l ->
  exists t, json_elements rec numeric (map node_elem l) = Some t /\
    if numeric then jelements t (map (vjson_value ua) l) else jmembers t (map (fun m => (n_key m, vjson_value ua m)) l).
Proof.
  induction 1 as [|m l (Hk & Ht & Hm) Hl (t & E & IH)].
  { exists []. split; [done|]. destruct numeric; [apply jelements_nil|apply jmembers_nil; constructor]. }
  set (comma := if bool_decide (map node_elem l = []) then [] else [44]).
  assert (match kv_val (node_elem m) with vkvNode n => t ← rec n; Some (t ++ comma) | vkvValue v => Some (json_quoted true v ++ comma)
    | vkvNone => Some (bytes "null" ++ comma) end = Some (text m ++ comma)) as Hval.
  { unfold node_elem. cbn [kv_val]. destruct (n_value m) as [v|]; [by rewrite Hm|]. by rewrite Hm. }
  cbn [map json_elements]. fold comma. rewrite Hval. clear Hval. cbn [node_elem kv_key mbind option_bind]. destruct Hk as (Hk & _ & Hh & _).
  rewrite (proj2 (Z.eqb_neq _ _)) by done. destruct numeric; fold (json_elements rec true) (json_elements rec false); rewrite E; cbn [mbind option_bind].
  - eexists. split; [done|]. destruct l as [|m' l].
    + injection E as <-. unfold comma. cbn [map]. rewrite bool_decide_true, !app_nil_r by done. by apply jelements_last.
    + unfold comma. cbn [map]. rewrite bool_decide_false, <- app_assoc by done. by apply jelements_cons.
  - eexists. split; [done|].
    assert (jmember (json_quoted false (n_key m) ++ [58; 32] ++ text m) (n_key m, vjson_value ua m)) as Hmem.
    { pose proof (jmember_intro [] _ _ _ _ (list.Forall_nil_2 _) (quoted_key _ Hk) Ht) as H. unfold json_quoted. by rewrite <- !app_assoc. }
    destruct l as [|m' l].
    + injection E as <-. unfold comma. cbn [map]. rewrite bool_decide_true, !app_nil_r by done.
      rewrite <- (app_nil_r (json_quoted false _ ++ _)). apply jmembers_last; [done|constructor].
    + unfold comma. cbn [map]. rewrite bool_decide_false by done. replace (json_quoted false (n_key m) ++ [58; 32] ++ (text m ++ [44]) ++ t)
        with ((json_quoted false (n_key m) ++ [58; 32] ++ text m) ++ [44] ++ t) by (by rewrite <- !app_assoc). by apply jmembers_cons.
Qed.

Lemma vtree_json_text junk ua n : exportable ua n -> forall fuel own, (height n <= fuel)%nat ->
  exists t, vtree_json junk fuel ua (Ext (Node own (Some n))) = Some t /\ jtext t (vjson ua n).
Proof.
  induction n as [n IH] using bconf_node_ind_subs. intros [_ Hsubs] fuel own Hh.
  destruct fuel as [|fuel]; [destruct n; cbn in Hh; lia|].
  set (text m := match n_value m with Some v => json_quoted true v | None => default [] (vtree_json junk fuel ua (Ext (Node false (Some m)))) end).
  destruct (elements_text ua (ua && numeric_keys n) (vtree_json junk fuel ua) text (n_subs n)) as (t & E & Ht).
  { rewrite list.Forall_forall in IH, Hsubs |- *. intros m Hm. destruct (Hsubs m Hm) as (Hk & Hv & Hx). split; [done|].
    unfold text, vjson_value. unfold value_of in Hv. destruct (n_value m) as [v|]; [split; [by apply quoted_value|done]|].
    destruct (IH m Hm Hx fuel false) as (t & -> & Ht); [pose proof (height_subs n m Hm); lia|done]. }
  cbn [vtree_json]. rewrite fetch_node. cbn [mbind option_bind kv_type kv_list]. rewrite numeric_spec. fold (numeric_keys n).
  rewrite bool_decide_true, andb_true_r, bool_decide_false by done. rewrite vjson_eq.
  assert ((if ua then Some (numeric_keys n) else Some false) = Some (ua && numeric_keys n)) as -> by (by destruct ua).
  cbn [mbind option_bind]. rewrite E. cbn [mbind option_bind]. eexists. split; [done|].
  destruct (ua && numeric_keys n); [by apply jtext_array|by apply jtext_object].
Qed.

(** ** Reading it back *)

Lemma cstr_valid s : Forall (fun c => c <> 0) s -> cstr s = s.
Proof. induction 1 as [|c s Hc _ IH]; cbn [cstr]; [done|]. by rewrite (proj2 (Z.eqb_neq c 0)), IH. Qed.

Lemma json_key_same k : json_key_ok k -> json_key k = k /\ valid_key k.
Proof.
  intros (Hk & Hne & _ & Hlen). split.
  - unfold json_key. rewrite take_ge by (unfold MAX_KEYLEN in *; lia). apply cstr_valid. eapply Forall_impl; [exact Hk|]. cbn. lia.
  - eapply Forall_impl; [exact Hk|]. unfold char. cbn. lia.
Qed.

Lemma vjson_value_kept ua m : skips (vjson_value ua m) = false.
Proof. unfold vjson_value. destruct (n_value m); [done|]. rewrite vjson_eq. by destruct (ua && numeric_keys m). Qed.

Lemma number_map ua l i : number i (map (vjson_value ua) l) =
  zip (map (fun j => print_dec (i + Z.of_nat j)) (seq 0 (length l))) (map (vjson_value ua) l).
Proof.
  induction l as [|m l IH] in i |- *; [done|]. cbn [map number length seq]. rewrite vjson_value_kept, IH, <- seq_shift, map_map.
  cbn [zip zip_with map]. rewrite Z.add_0_r. do 2 f_equal. apply map_ext. intros j. f_equal. lia.
Qed.

Lemma members_vjson ua n : exportable ua n -> members_of (vjson ua n) = map (fun m => (n_key m, vjson_value ua m)) (n_subs n).
Proof.
  intros [Hd Hs]. rewrite vjson_eq. destruct ua; [destruct (numeric_keys n) eqn:En|]; cbn [andb members_of].
  1: { destruct Hd as [Hk _]; [done|done|]. rewrite number_map.
    change (map (fun j => print_dec (0 + Z.of_nat j)) (seq 0 (length (n_subs n)))) with (map (fun j => print_dec (Z.of_nat j)) (seq 0 (length (n_subs n)))).
    rewrite <- Hk. unfold keys. clear. induction (n_subs n) as [|m l IH]; [done|]. cbn. by rewrite <- IH. }
  all: rewrite map_map; induction Hs as [|m l (Hk & _) _ IH]; [done|]; cbn [map fst snd] in IH |- *; rewrite filter_cons; cbn [snd].
  all: rewrite vjson_value_kept, decide_True, IH by done; by rewrite (proj1 (json_key_same _ Hk)).
Qed.

Lemma vjson_depth ua n : (depth (vjson ua n) <= height n)%nat.
Proof.
  induction n as [n IH] using bconf_node_ind_subs. rewrite vjson_eq. rewrite list.Forall_forall in IH.
  assert (foldr (fun m d => Nat.max (depth (vjson_value ua m)) d) 0%nat (n_subs n) <=
          foldr (fun m h => Nat.max (height m) h) 0%nat (n_subs n))%nat as H.
  { induction (n_subs n) as [|m l IHl]; cbn [foldr]; [lia|].
    assert (depth (vjson_value ua m) <= height m)%nat by (unfold vjson_value; destruct (n_value m); [cbn; lia|apply IH; left]).
    pose proof (IHl (fun x Hx => IH x (list_elem_of_further _ _ _ Hx))). lia. }
  destruct n as [k t v s subs]. cbn [n_subs height] in *. destruct (ua && _); cbn [depth]; apply le_n_S; etrans; try exact H; clear.
  all: induction subs; cbn [map foldr snd]; lia.
Qed.

Lemma vjson_readable ua n : node_ok n -> exportable ua n -> readable (vjson ua n).
Proof.
  induction n as [n IH] using bconf_node_ind_subs. intros Hok [Hd Hs]. rewrite vjson_eq.
  assert (forall m, m ∈ n_subs n -> readable (vjson_value ua m)) as Hsub.
  { intros m Hm. rewrite list.Forall_forall in IH, Hs. unfold vjson_value. destruct (n_value m); [constructor|].
    apply IH; [done|by apply (sub_valid n)|by apply Hs]. }
  destruct (ua && numeric_keys n) eqn:E.
  - apply andb_true_iff in E as [E1 E2]. destruct (Hd E1 E2) as [_ Hlen]. constructor; [by rewrite length_map|].
    apply list.Forall_forall. intros j Hj. apply list_elem_of_In, in_map_iff in Hj as (m & <- & Hm%list_elem_of_In). by apply Hsub.
  - constructor.
    + rewrite map_map. cbn [fst]. replace (map (fun x => json_key (n_key x)) (n_subs n)) with (keys (n_subs n)); [apply keys_NoDup, Hok|].
      clear -Hs. induction Hs as [|m l (Hk & _) _ IH]; [done|]. cbn [map].
      change (keys (m :: l)) with (n_key m :: keys l). by rewrite (proj1 (json_key_same _ Hk)), <- IH.
    + apply list.Forall_forall. intros x Hx. apply list_elem_of_In, in_map_iff in Hx as (m & <- & Hm%list_elem_of_In). cbn [fst snd].
      rewrite list.Forall_forall in Hs. destruct (Hs m Hm) as (Hk & _). destruct (json_key_same _ Hk) as [-> Hv].
      split; [done|]. split; [by destruct Hk as (_ & ? & _)|by apply Hsub].
Qed.

Lemma assoc_subs (f : bconf_node -> json) l k :
  assoc k (map (fun m => (n_key m, f m)) l) = f <$> (snd <$> list_find (fun m => n_key m = k) l).
Proof.
  induction l as [|m l IH]; [done|]. cbn [map]. rewrite assoc_cons, IH. cbn [list_find]. destruct (decide (n_key m = k)); [done|].
  by destruct (list_find _ l) as [[]|].
Qed.

Lemma vjson_at ua n : node_ok n -> exportable ua n -> is_list n = true ->
  forall path, json_at (vjson ua n) path = (fun x => (NODE_VAL, snd x)) <$> value_at n path.
Proof.
  induction n as [n IH] using bconf_node_ind_subs. intros Hok Hx Hl [|k path].
  { unfold value_at. cbn [find_path mbind option_bind]. rewrite data_list by done. rewrite vjson_eq. by destruct (ua && numeric_keys n). }
  cbn [json_at]. rewrite (members_vjson ua n Hx), assoc_subs, value_at_cons. fold (child n k).
  destruct (child n k) as [m|] eqn:Hc; cbn [fmap option_fmap option_map]; [|done].
  assert (m ∈ n_subs n) as Hm by (apply child_Some in Hc as (i & Hi & _); by eapply list_elem_of_lookup_2).
  destruct (sub_valid n m Hok Hm) as [Hokm _]. destruct Hx as [_ Hs]. rewrite list.Forall_forall in IH, Hs.
  destruct (Hs m Hm) as (_ & Hv & Hxm). unfold vjson_value. pose proof (ok_value _ Hokm) as Hval.
  destruct (n_value m) as [v|] eqn:Ev.
  - assert (n_type m = NODE_VAL \/ n_type m = NODE_BIN) as Ht by (by apply Hval).
    destruct path as [|k' path].
    + unfold value_at, data. cbn [find_path mbind option_bind json_at]. rewrite Ev. unfold value_of in Hv. rewrite Ev in Hv.
      rewrite cstr_valid by (eapply Forall_impl; [exact Hv|cbn; lia]). by destruct Ht as [-> | ->].
    + rewrite value_at_leaf; [done| |done]. apply leaf_subs; [done|]. intros E. rewrite E in Ht. by destruct Ht.
  - apply IH; [done|done|done|]. unfold is_list. destruct (n_type m); try done; destruct (proj2 Hval); auto; done.
Qed.

(** * Properties *)

(** The members of a value as JSON has them: by their keys, and the elements of an array by
    their indexes. *)
Fixpoint indexed (i : Z) (l : list json) : list (list Z * json) :=
  match l with [] => [] | j :: l => (print_dec i, j) :: indexed (i + 1) l end.

Definition members (j : json) : list (list Z * json) :=
  match j with JObj ms => ms | JArr l => indexed 0 l | _ => [] end.

(** The value that JSON has at a path: the text of a string or a number, or true. *)
Fixpoint json_get (j : json) (path : list (list Z)) : option (node_type * list Z) :=
  match path with
  | [] =>
    match j with
    | JBool true => Some (NODE_BIN, bytes "true")
    | JNum s | JStr s => Some (NODE_VAL, s)
    | _ => None
    end
  | k :: path => match assoc k (members j) with Some j => json_get j path | None => None end
  end.

Fixpoint nulls_last (l : list json) : Prop :=
  match l with [] => True | j :: l => if skips j then Forall (fun j => skips j = true) l else nulls_last l end.

(** Values without the byte zero, whose keys are different, not empty and shorter than the
    reader's buffer, and in whose arrays null and false are only at the end. *)
Inductive plain_json : json -> Prop :=
  | plain_null : plain_json JNull
  | plain_bool b : plain_json (JBool b)
  | plain_num s : Forall (fun c => c <> 0) s -> plain_json (JNum s)
  | plain_str s : Forall (fun c => c <> 0) s -> plain_json (JStr s)
  | plain_obj ms : NoDup (map fst ms) ->
      Forall (fun m => valid_key (fst m) /\ fst m <> [] /\ (length (fst m) < MAX_KEYLEN)%nat /\ plain_json (snd m)) ms -> plain_json (JObj ms)
  | plain_arr l : Z.of_nat (length l) < 2 ^ 31 -> nulls_last l -> Forall plain_json l -> plain_json (JArr l).

Lemma short_key k : valid_key k -> (length k < MAX_KEYLEN)%nat -> json_key k = k.
Proof.
  intros Hv Hl. unfold json_key. rewrite take_ge by (unfold MAX_KEYLEN in *; lia). apply cstr_valid.
  eapply Forall_impl; [exact Hv|]. unfold char. simpl. lia.
Qed.

Lemma obj_keys (ms : list (list Z * json)) : Forall (fun m => json_key (fst m) = fst m) ms ->
  map (fun m => (json_key (fst m), snd m)) ms = ms /\ map (fun m => json_key (fst m)) ms = map fst ms.
Proof. induction 1 as [|[k j] ms E _ [IH1 IH2]]; [done|]. cbn [map fst snd] in *. by rewrite E, IH1, IH2. Qed.

Lemma plain_obj_keys ms : plain_json (JObj ms) -> Forall (fun m => json_key (fst m) = fst m) ms.
Proof. inversion 1 as [| | | |? _ Hall|]; subst. eapply Forall_impl; [exact Hall|]. intros m (? & _ & ? & _). by apply short_key. Qed.

Lemma plain_readable j : plain_json j -> readable j.
Proof.
  induction j as [|b|s|s|ms IH|l IH] using json_full_ind; intros Hp; try constructor.
  - destruct (obj_keys ms (plain_obj_keys ms Hp)) as [_ ->]. by inversion Hp.
  - pose proof (plain_obj_keys ms Hp) as Hk. inversion Hp as [| | | |? _ Hall|]; subst. clear Hp.
    rewrite list.Forall_forall in *. intros m Hm. destruct (Hall m Hm) as (Hv & Hne & _ & Hj). rewrite (Hk m Hm). split; [done|]. split; [done|by apply IH].
  - by inversion Hp.
  - inversion Hp as [| | | | |? _ _ Hall]; subst. rewrite list.Forall_forall in *. auto.
Qed.

Lemma get_skips j path : skips j = true -> json_get j path = None.
Proof. intros Hs. destruct j as [|[]| | | |], path; done. Qed.

Lemma number_skipped l i : Forall (fun j => skips j = true) l -> number i l = [].
Proof. induction 1 as [|j l Hj _ IH]; [done|]. cbn [number]. by rewrite Hj. Qed.

Lemma indexed_skipped l k j : Forall (fun j => skips j = true) l -> forall i, assoc k (indexed i l) = Some j -> skips j = true.
Proof. induction 1 as [|j' l Hj _ IH]; intros i; [done|]. cbn [indexed]. rewrite assoc_cons. case_decide; [by intros [= <-]|apply IH]. Qed.

(** What is read below a key is what JSON has there, or nothing for null and false. *)
Definition agrees (a b : option json) : Prop :=
  match a with Some j => b = Some j | None => forall j, b = Some j -> skips j = true end.

Lemma number_agrees k l : nulls_last l -> forall i, agrees (assoc k (number i l)) (assoc k (indexed i l)).
Proof.
  induction l as [|j l IH]; intros Hn i; [done|]. cbn [nulls_last number indexed] in *. destruct (skips j) eqn:Hs.
  - rewrite (number_skipped l) by done. intros j'. rewrite assoc_cons. case_decide; [by intros [= <-]|by apply indexed_skipped].
  - rewrite !assoc_cons. case_decide; [done|by apply IH].
Qed.

Lemma members_agree j k : plain_json j -> agrees (assoc k (members_of j)) (assoc k (members j)).
Proof.
  intros Hp. destruct j as [| | | |ms|l]; try done; [|by apply number_agrees; inversion Hp].
  cbn [members_of members]. destruct (obj_keys ms (plain_obj_keys ms Hp)) as [-> _]. inversion Hp as [| | | |? Hnd _|]; subst. clear Hp.
  induction ms as [|[k' j] ms IH]; [done|]. cbn [map fst] in Hnd. apply NoDup_cons in Hnd as [Hk Hnd]. specialize (IH Hnd).
  destruct (skips j) eqn:Hs.
  - rewrite filter_cons_False by (cbn; congruence). rewrite (assoc_cons k k' j ms). destruct (decide (k' = k)) as [->|Hne]; [|done].
    rewrite (proj2 (assoc_None k (filter _ ms))); [by intros j' [= <-]|]. intros (m & -> & [_ Hm]%list_elem_of_filter)%list_elem_of_fmap.
    destruct Hk. by apply (list_elem_of_fmap_2 fst).
  - rewrite filter_cons_True by done. rewrite !assoc_cons. by case_decide.
Qed.

Lemma assoc_in k j (ms : list (list Z * json)) : assoc k ms = Some j -> exists k', (k', j) ∈ ms.
Proof.
  induction ms as [|[k' j'] ms IH]; [done|]. rewrite assoc_cons. case_decide; [intros [= <-]; exists k'; left|].
  intros (k2 & ?)%IH. exists k2. by right.
Qed.

Lemma indexed_in l m i : m ∈ indexed i l -> snd m ∈ l.
Proof. induction l as [|j l IH] in i |- *; [by intros ?%elem_of_nil|]. cbn [indexed]. intros [-> | Hm]%elem_of_cons; [left|right; by eapply IH]. Qed.

Lemma plain_member j k j' : plain_json j -> assoc k (members j) = Some j' -> plain_json j'.
Proof.
  intros Hp (k' & Hin)%assoc_in. destruct Hp as [| | | |ms _ Hall|l _ _ Hall]; try by apply elem_of_nil in Hin.
  - rewrite list.Forall_forall in Hall. by apply Hall in Hin as (_ & _ & _ & ?).
  - apply indexed_in in Hin. rewrite list.Forall_forall in Hall. by apply Hall.
Qed.

Lemma json_at_get path : forall j, plain_json j -> json_at j path = json_get j path.
Proof.
  induction path as [|k path IH]; intros j Hp; cbn [json_at json_get].
  - destruct Hp as [| |s Hs|s Hs| |]; try done; by rewrite cstr_valid.
  - pose proof (members_agree j k Hp) as Ha. destruct (assoc k (members_of j)) as [j'|]; cbn [agrees] in Ha.
    + rewrite Ha. apply IH. by eapply plain_member.
    + destruct (assoc k (members j)) as [j'|]; [|done]. symmetry. by apply get_skips, Ha.
Qed.

(** C39: The reader turns a JSON value into a tree that holds exactly its values: strings
    and numbers at the paths of their keys and array indexes, true as the text true, and
    nothing for null and false; below the name of the root if there is one.  The value has
    less than 40 levels, keys that are different, not empty and shorter than 256 bytes, no
    byte zero, and null or false in an array only after all other elements; a null before
    one would take no index.  Without a name for the root it is an object or an array. *)
Theorem json_bconf_reads root_name j :
  plain_json j -> (depth j < MAX_DEPTH)%nat ->
  match root_name with
  | Some r => valid_key r /\ r <> [] /\ (length r < MAX_KEYLEN)%nat /\ skips j = false
  | None => container j = true
  end ->
  exists n, json_bconf root_name (events j) None = Some (0, Some n) /\ node_ok n /\
    forall path, value_at n (match root_name with Some r => r :: path | None => path end) = json_get j path.
Proof.
  intros Hp Hd Hn. pose proof (plain_readable j Hp) as Hr.
  assert (exists n, json_bconf root_name (events j) None = Some (0, Some n) /\ node_ok n /\
    forall path, value_at n (match root_name with Some r => r :: path | None => path end) = json_at j path) as (n & E & Hok & Hv).
  { destruct root_name as [r|]; [|by apply json_bconf_unnamed]. destruct Hn as (? & ? & ? & ?). by apply json_bconf_named. }
  exists n. split; [done|]. split; [done|]. intros path. by rewrite Hv, json_at_get.
Qed.

(** C40: A configuration tree that is printed as JSON and read back has the same values
    at the same paths, with and without arrays: the text is JSON for the tree, and what the
    reader builds from it answers as the tree did.  The tree has less than 40 levels; its keys
    are not empty, shorter than 256 bytes, do not start with '_' and have no control
    characters but tabs; its values have none but tabs and newlines; and when arrays are used,
    a list with only numeric keys has the keys 0, 1, 2 and so on in this order. *)
Theorem vtree_json_roundtrip junk fuel use_arrays own n :
  node_ok n -> is_list n = true -> exportable use_arrays n -> (height n < MAX_DEPTH)%nat -> (height n <= fuel)%nat ->
  exists t n', vtree_json junk fuel use_arrays (Ext (Node own (Some n))) = Some t /\ jtext t (vjson use_arrays n) /\
    json_bconf None (events (vjson use_arrays n)) None = Some (0, Some n') /\
    forall path, snd <$> value_at n' path = snd <$> value_at n path.
Proof.
  intros Hok Hl Hx Hh Hf. destruct (vtree_json_text junk use_arrays n Hx fuel own Hf) as (t & Et & Ht).
  destruct (json_bconf_unnamed (vjson use_arrays n)) as (n' & En & _ & Hv).
  - by apply vjson_readable.
  - rewrite vjson_eq. by destruct (use_arrays && numeric_keys n).
  - pose proof (vjson_depth use_arrays n). lia.
  - exists t, n'. do 3 (split; [done|]). intros path. rewrite Hv, vjson_at by done. by destruct (value_at n path) as [[]|].
Qed.

(** * What the code does not do *)

Fixpoint nested (d : nat) : json := match d with O => JArr [] | S d => JArr [nested d] end.

(** Forty levels are too many, and the stack is not checked: the last write is
    outside of it. *)
Theorem json_depth_unchecked :
  (exists n, json_bconf None (events (nested 38)) None = Some (0, Some n)) /\ json_bconf None (events (nested 39)) None = None.
Proof. split; [eexists; by vm_compute|by vm_compute]. Qed.

(** The element after a null takes its index. *)
Theorem json_null_shifts : exists n, json_bconf None (events (JArr [JNull; JStr (bytes "a")])) None = Some (0, Some n) /\
  value_at n [bytes "0"] = Some (NODE_VAL, bytes "a") /\ value_at n [bytes "1"] = None /\
  json_get (JArr [JNull; JStr (bytes "a")]) [bytes "1"] = Some (NODE_VAL, bytes "a").
Proof. eexists. split; [by vm_compute|]. by vm_compute. Qed.

(** A text that repeats a key as a value and as an object ends the program, and so
    does one that has an error after an object named error. *)
Theorem json_input_exits :
  json_bconf None (events (JObj [(bytes "a", JStr (bytes "x")); (bytes "a", JObj [(bytes "b", JStr (bytes "y"))])])) None = None /\
  json_bconf None [ev_start_map; ev_map_key (bytes "error"); ev_start_map; ev_map_key (bytes "a"); ev_string (bytes "b"); ev_end_map]
    (Some (bytes "parse error")) = None.
Proof. by vm_compute. Qed.

(** A key that is skipped at the end leaves a comma before the brace. *)
Definition hidden_last : bconf_node :=
  mk_node [] NODE_LIST None false [mk_node (bytes "A") NODE_VAL (Some (bytes "x")) false []; mk_node (bytes "_b") NODE_VAL (Some (bytes "y")) false []].

Theorem vtree_json_trailing_comma : vtree_json vktUnknown 2 false (Ext (Node false (Some hidden_last))) = Some [123; 34; 65; 34; 58; 32; 34; 120; 34; 44; 125].
Proof. by vm_compute. Qed.

(** * Witnesses *)

Definition sample_json : json := JObj [(bytes "a", JArr [JStr (bytes "x"); JBool true; JNull]); (bytes "n", JNum (bytes "12"))].

Lemma json_bconf_reads_witness : exists n, json_bconf (Some (bytes "root")) (events sample_json) None = Some (0, Some n) /\
  value_at n [bytes "root"; bytes "a"; bytes "1"] = Some (NODE_BIN, bytes "true").
Proof.
  destruct (json_bconf_reads (Some (bytes "root")) sample_json) as (n & E & _ & Hv).
  - constructor; [apply (bool_decide_unpack _); vm_compute; exact I|]. vm_compute. repeat (constructor; auto; try lia; try done).
  - vm_compute. lia.
  - vm_compute. repeat (constructor; auto; try lia; try done).
  - exists n. split; [exact E|]. exact (Hv [bytes "a"; bytes "1"]).
Defined.

Definition exported : bconf_node := default root_node (
  n ← bconf_add_data None (bytes "l.0") (bytes "x"); n ← bconf_add_data (Some n) (bytes "l.1") [9; 34];
  bconf_add_data (Some n) (bytes "k") (bytes "y")).

Lemma vtree_json_roundtrip_witness : exists t, vtree_json vktUnknown 5 true (Ext (Node false (Some exported))) = Some t /\ jtext t (vjson true exported).
Proof.
  destruct (vtree_json_roundtrip vktUnknown 5 true false exported) as (t & n' & E & Ht & _).
  - apply node_okb_ok. by vm_compute.
  - by vm_compute.
  - vm_compute. repeat (constructor; auto; try lia; try done).
  - vm_compute. lia.
  - vm_compute. lia.
  - by exists t.
Defined.
