(* ===== verification/VtreeLiteral.v ===== *)
(** VtreeLiteral: trees that are given as lists of keys and values, and trees that
    are a single value (src/vtree/lib/vtree_literal.c and vtree_value.c).

    A literal contains chains of any kind, so its data is defined together with
    the chains it is used in, over another backend [X].  A call of a literal
    dispatches to the nodes inside of it with one argument less: [lit_ops n] are
    the tables for calls with less than [n] arguments.

    [None] means that NULL or VTREE_LOOP is read as a string.  Where the code
    returns an empty list of keys and values it leaves the type as it was; here
    the type is unknown.  Releasing results is not modelled. *)
From stdpp Require Import prelude list numbers.
From Stdlib Require Import ZArith Lia.
From S2P Require Import Prelude Vtree Strings.

Local Open Scope Z_scope.
#[local] Set Warnings "-register-all".

Inductive lit (X : Type) :=
| Back (x : X)
| Value (v : list Z)
| Literal (data : vtree_keyvals (vtree_chain (lit X))).
Arguments Back {X} x.
Arguments Value {X} v.
Arguments Literal {X} data.

(** * Calls of the accessors with the cacheability of the caller *)

Section Calls.
Context {X : Type} `{!VtreeBackend X}.

Definition cached {R C} (call : option vtree_cacheable -> option (R * option vtree_cacheable * option C)) : M R :=
  fun cc => '(r, cc', _) ← call (Some cc); Some (r, default cc cc').

Definition fetched {R} (call : option vtree_cacheable -> option (R * option vtree_cacheable)) : M R :=
  fun cc => '(r, cc') ← call (Some cc); Some (r, default cc cc').

Definition call_getlen (v : vtree_chain X) (argv : list arg) : M Z := cached (fun cc => vtree_getlen_cachev (Some v) cc None argv).
Definition call_get (v : vtree_chain X) (argv : list arg) : M (option (list Z)) := cached (fun cc => vtree_get_cachev (Some v) cc None argv).
Definition call_haskey (v : vtree_chain X) (argv : list arg) : M bool :=
  r ← cached (fun cc => vtree_haskey_cachev (Some v) cc None argv); mret (negb (r =? 0)).
Definition call_fetch_keys (v : vtree_chain X) (argv : list arg) := fetched (fun cc => vtree_fetch_keys_cachev (Some v) cc argv).
Definition call_fetch_values (v : vtree_chain X) (argv : list arg) := fetched (fun cc => vtree_fetch_values_cachev (Some v) cc argv).
Definition call_fetch_byval (v : vtree_chain X) (value : list Z) (argv : list arg) :=
  fetched (fun cc => vtree_fetch_keys_by_value_cachev (Some v) cc value argv).
Definition call_fetch_nodes (v : vtree_chain X) (argv : list arg) := fetched (fun cc => vtree_fetch_nodes_cachev (Some v) cc argv).

(** Into a chain that holds nothing. *)
Definition call_getnode (v : vtree_chain X) (argv : list arg) : M (option (vtree_chain X)) :=
  fun cc => '(r, cc', _, _) ← vtree_getnode_cachev (fun _ => false) (Some v) (Some cc) (mk_dst Null false) None argv; Some (r, default cc cc').
End Calls.

(** * The literal tree *)

Section Literal.
Context {X : Type} `{!VtreeBackend (lit X)}.

Abbreviation chain := (vtree_chain (lit X)) (only parsing).
Abbreviation elem := (vtree_keyvals_elem (vtree_chain (lit X))) (only parsing).
Implicit Types (data : vtree_keyvals chain) (argv : list arg).

(** The first element with the key. *)
Fixpoint find_key (k : list Z) (l : list elem) (idx : nat) : option (option nat) :=
  match l with
  | [] => Some None
  | e :: l => k' ← kv_key e; if bool_decide (k = k') then Some (Some idx) else find_key k l (S idx)
  end.

Definition get_index data argv : option (option nat) :=
  match argv with
  | [] => Some None
  | VTREE_LOOP :: _ => if bool_decide (kv_type data <> vktList) && bool_decide (kv_list data = []) then Some None else None
  | Key k :: _ =>
    if bool_decide (kv_type data = vktList) then
      let '(n, ep, _) := strtol k in
      let idx := i32 n in
      Some (if bool_decide (k = []) || negb (bool_decide (ep = [])) || (idx <? 0) || (Z.of_nat (length (kv_list data)) <=? idx)
            then None else Some (Z.to_nat idx))
    else find_key k (kv_list data) 0
  end.

(** The value of the element that the first argument names. *)
Definition at_index data argv : M (option (vtree_value chain)) :=
  idx ← lift (get_index data argv);
  match (idx : option nat) with
  | Some i => e ← lift (kv_list data !! i); mret (Some (kv_val e))
  | None => mret None
  end.

Definition vtree_literal_getlen data argv : M Z :=
  _ ← set_cc VTCACHE_CANT;
  match argv with
  | [] => mret (Z.of_nat (length (kv_list data)))
  | _ :: rest =>
    e ← at_index data argv;
    match (e : option (vtree_value chain)) with Some (vkvNode n) => call_getlen n rest | _ => mret 0 end
  end.

Definition vtree_literal_get data argv : M (option (list Z)) :=
  _ ← set_cc VTCACHE_CANT;
  e ← at_index data argv;
  match (e : option (vtree_value chain)) with
  | Some (vkvValue v) => mret (match argv with [_] => Some v | _ => None end)
  | Some (vkvNode n) => call_get n (tail argv)
  | _ => mret None
  end.

Definition vtree_literal_haskey data argv : M bool :=
  _ ← set_cc VTCACHE_CANT;
  e ← at_index data argv;
  match (e : option (vtree_value chain)), argv with
  | None, _ => mret false
  | Some _, [_] => mret true
  | Some (vkvNode n), _ => call_haskey n (tail argv)
  | Some _, _ => mret false
  end.

(** The key that is reported for an element. *)
Definition elem_key data (i : nat) (e : elem) : option (list Z) :=
  if bool_decide (kv_type data = vktList) then Some (print_dec (Z.of_nat i)) else kv_key e.

Definition vtree_literal_fetch_keys data argv : M (list (list Z)) :=
  _ ← set_cc VTCACHE_CANT;
  match argv with
  | [] => lift (mapM (fun x => x) (imap (elem_key data) (kv_list data)))
  | _ :: rest =>
    e ← at_index data argv;
    match (e : option (vtree_value chain)) with Some (vkvNode n) => call_fetch_keys n rest | _ => mret [] end
  end.

(** The value of an element for the arguments after VTREE_LOOP. *)
Definition elem_value (rest : list arg) (e : elem) : M (option (list Z)) :=
  match kv_val e with
  | vkvNone => mret None
  | vkvValue v => mret (match rest with [] => Some v | _ => None end)
  | vkvNode n => call_get n rest
  end.

Fixpoint M_list {A B} (f : A -> M B) (l : list A) : M (list B) :=
  match l with
  | [] => mret []
  | a :: l => b ← f a; bs ← M_list f l; mret (b :: bs)
  end.

Definition vtree_literal_fetch_values data argv : M (list (option (list Z))) :=
  _ ← set_cc VTCACHE_CANT;
  match argv with
  | [] => mret []
  | VTREE_LOOP :: rest => M_list (elem_value rest) (kv_list data)
  | _ :: rest =>
    e ← at_index data argv;
    match (e : option (vtree_value chain)) with Some (vkvNode n) => call_fetch_values n rest | _ => mret [] end
  end.

Definition vtree_literal_fetch_keys_by_value data (value : list Z) argv : M (list (list Z)) :=
  _ ← set_cc VTCACHE_CANT;
  match argv with
  | [] => mret []
  | VTREE_LOOP :: rest =>
    vs ← M_list (elem_value rest) (kv_list data);
    lift (mapM (fun x => x) (imap (elem_key data) (kv_list data))) ≫= fun ks =>
    mret (fst <$> filter (fun kv => snd kv = Some value) (zip ks vs))
  | _ :: rest =>
    e ← at_index data argv;
    match (e : option (vtree_value chain)) with Some (vkvNode n) => call_fetch_byval n value rest | _ => mret [] end
  end.

Definition vtree_literal_getnode data argv : M (option chain) :=
  _ ← set_cc VTCACHE_CANT;
  match argv with
  | [] => mret (Some (Ext (Literal data)))
  | _ :: rest =>
    e ← at_index data argv;
    match (e : option (vtree_value chain)), rest with
    | Some (vkvValue v), [] => mret (Some (Ext (Value v)))
    | Some (vkvNode n), _ => call_getnode n rest
    | _, _ => mret None
    end
  end.

Definition elem_node (e : elem) : chain :=
  match kv_val e with vkvNone => Null | vkvValue v => Ext (Value v) | vkvNode n => n end.

Definition vtree_literal_fetch_nodes data argv : M (list chain) :=
  _ ← set_cc VTCACHE_CANT;
  match argv with
  | [] => mret (elem_node <$> kv_list data)
  | _ :: rest =>
    e ← at_index data argv;
    match (e : option (vtree_value chain)) with Some (vkvNode n) => call_fetch_nodes n rest | _ => mret [] end
  end.

(** An element of the result for the arguments after VTREE_LOOP. *)
Definition elem_keyval (rest : list arg) (e : elem) : M elem :=
  v ← match kv_val e with
      | vkvNone => mret vkvNone
      | vkvValue v => mret (match rest with [] => vkvValue v | _ => vkvNone end)
      | vkvNode n =>
        node ← call_getnode n rest;
        match (node : option chain) with
        | None => mret vkvNone
        | Some node =>
          v ← lift (vtree_get node []);
          mret (match (v : option (list Z)) with Some v => vkvValue v | None => vkvNode node end)
        end
      end;
  mret (mk_elem (kv_key e) v).

Definition vtree_literal_fetch_keys_and_values data argv : M (vtree_keyvals chain) :=
  _ ← set_cc VTCACHE_CANT;
  match argv with
  | [] => mret data
  | VTREE_LOOP :: rest => l ← M_list (elem_keyval rest) (kv_list data); mret (mk_keyvals (kv_type data) l)
  | a :: rest =>
    vnode ← vtree_literal_getnode data [a];
    match (vnode : option chain) with
    | Some vnode => bpv_fetch_keys_and_values vnode rest
    | None => mret no_keyvals
    end
  end.
End Literal.

(** * The dispatch tables *)

Section Tables.
Context {X : Type} `{!VtreeBackend X}.

(** Nodes of the other backend, inside of chains that have literals. *)
Fixpoint back (v : vtree_chain X) : vtree_chain (lit X) :=
  match v with
  | Null => Null
  | Ext x => Ext (Back x)
  | Shadow top next =>
    Shadow (match top with Some t => Some (back t) | None => None end) (match next with Some n => Some (back n) | None => None end)
  | Prefix prefix next => Prefix prefix (match next with Some n => Some (back n) | None => None end)
  end.

Definition back_val (v : vtree_value (vtree_chain X)) : vtree_value (vtree_chain (lit X)) :=
  match v with vkvNone => vkvNone | vkvValue v => vkvValue v | vkvNode n => vkvNode (back n) end.

Definition back_keyvals (kv : vtree_keyvals (vtree_chain X)) : vtree_keyvals (vtree_chain (lit X)) :=
  mk_keyvals (kv_type kv) (map (fun e => mk_elem (kv_key e) (back_val (kv_val e))) (kv_list kv)).

Definition M_map {A B} (f : A -> B) (m : M A) : M B := a ← m; mret (f a).

Definition no_ops : VtreeBackend (lit X) := {|
  ext_getlen _ _ := crash; ext_get _ _ := crash; ext_haskey _ _ := crash; ext_fetch_keys _ _ := crash; ext_fetch_values _ _ := crash;
  ext_fetch_byval _ _ _ := crash; ext_getnode _ _ := crash; ext_fetch_nodes _ _ := crash; ext_fetch_keys_and_values _ _ := crash |}.

(** The tables [vtree_literal_vtree] and [vtree_value_vtree] over the tables of the
    nodes inside. *)
Definition lit_table (B : VtreeBackend (lit X)) : VtreeBackend (lit X) := {|
  ext_getlen c argv :=
    match c with Back x => ext_getlen x argv | Value _ => mret 0 | Literal data => vtree_literal_getlen data argv end;
  ext_get c argv :=
    match c with
    | Back x => ext_get x argv
    | Value v => mret (match argv with [] => Some v | _ => None end)
    | Literal data => vtree_literal_get data argv
    end;
  ext_haskey c argv :=
    match c with
    | Back x => ext_haskey x argv
    | Value _ => mret (bool_decide (argv = []))
    | Literal data => vtree_literal_haskey data argv
    end;
  ext_fetch_keys c argv :=
    match c with Back x => ext_fetch_keys x argv | Value _ => mret [] | Literal data => vtree_literal_fetch_keys data argv end;
  ext_fetch_values c argv :=
    match c with Back x => ext_fetch_values x argv | Value _ => mret [] | Literal data => vtree_literal_fetch_values data argv end;
  ext_fetch_byval c value argv :=
    match c with
    | Back x => ext_fetch_byval x value argv
    | Value _ => mret []
    | Literal data => vtree_literal_fetch_keys_by_value data value argv
    end;
  ext_getnode c argv :=
    match c with
    | Back x => M_map (fmap back) (ext_getnode x argv)
    | Value v => mret (match argv with [] => Some (Ext (Value v)) | _ => None end)
    | Literal data => vtree_literal_getnode data argv
    end;
  ext_fetch_nodes c argv :=
    match c with
    | Back x => M_map (map back) (ext_fetch_nodes x argv)
    | Value _ => mret []
    | Literal data => vtree_literal_fetch_nodes data argv
    end;
  ext_fetch_keys_and_values c argv :=
    match c with
    | Back x => M_map back_keyvals (ext_fetch_keys_and_values x argv)
    | Value _ => mret no_keyvals
    | Literal data => vtree_literal_fetch_keys_and_values data argv
    end |}.

Fixpoint lit_ops (n : nat) : VtreeBackend (lit X) := match n with O => no_ops | S n => lit_table (lit_ops n) end.

(** As many levels as there are arguments, the node itself and the [vtree_get] of
    [elem_keyval]. *)
#[export] Instance lit_api : VtreeBackend (lit X) := {|
  ext_getlen c argv := @ext_getlen _ (lit_ops (length argv + 2)) c argv;
  ext_get c argv := @ext_get _ (lit_ops (length argv + 2)) c argv;
  ext_haskey c argv := @ext_haskey _ (lit_ops (length argv + 2)) c argv;
  ext_fetch_keys c argv := @ext_fetch_keys _ (lit_ops (length argv + 2)) c argv;
  ext_fetch_values c argv := @ext_fetch_values _ (lit_ops (length argv + 2)) c argv;
  ext_fetch_byval c value argv := @ext_fetch_byval _ (lit_ops (length argv + 2)) c value argv;
  ext_getnode c argv := @ext_getnode _ (lit_ops (length argv + 2)) c argv;
  ext_fetch_nodes c argv := @ext_fetch_nodes _ (lit_ops (length argv + 2)) c argv;
  ext_fetch_keys_and_values c argv := @ext_fetch_keys_and_values _ (lit_ops (length argv + 2)) c argv |}.
End Tables.

Definition vtree_literal_create {X} (data : vtree_keyvals (vtree_chain (lit X))) : vtree_chain (lit X) := Ext (Literal data).

(** * What a literal tree is *)

(** A value, a dict or a list; an element may have no value. *)
Inductive tree :=
| TValue (v : list Z)
| TDict (subs : list (list Z * option tree))
| TList (subs : list (option tree)).

Definition index_keys (n : nat) : list (list Z) := map (fun i => print_dec (Z.of_nat i)) (seq 0 n).

Definition keys_of (t : tree) : list (list Z) :=
  match t with TValue _ => [] | TDict subs => map fst subs | TList subs => index_keys (length subs) end.

Definition subs_of (t : tree) : list (option tree) :=
  match t with TValue _ => [] | TDict subs => map snd subs | TList subs => subs end.

(** The first sub tree with the key. *)
Definition sub (t : tree) (k : list Z) : option (option tree) :=
  '(i, _) ← list_find (fun k' => k' = k) (keys_of t); subs_of t !! i.

(** What is at the end of a path: nothing, an element without a value, or a tree. *)
Fixpoint at_path (t : tree) (ks : list (list Z)) : option (option tree) :=
  match ks with
  | [] => Some (Some t)
  | k :: ks =>
    match sub t k with
    | None => None
    | Some None => match ks with [] => Some None | _ => None end
    | Some (Some t) => at_path t ks
    end
  end.

Definition value_at (t : tree) (ks : list (list Z)) : option (list Z) :=
  match at_path t ks with Some (Some (TValue v)) => Some v | _ => None end.

(** The data of a tree. *)
Section Data.
Context {X : Type}.

Fixpoint data_of (t : tree) : vtree_keyvals (vtree_chain (lit X)) :=
  let val t := match t with None => vkvNone | Some (TValue v) => vkvValue v | Some t => vkvNode (Ext (Literal (data_of t))) end in
  match t with
  | TValue _ => mk_keyvals vktUnknown []
  | TDict subs => mk_keyvals vktDict (map (fun kt => mk_elem (Some (fst kt)) (val (snd kt))) subs)
  | TList subs => mk_keyvals vktList (map (fun t => mk_elem None (val t)) subs)
  end.

Definition val_of (t : option tree) : vtree_value (vtree_chain (lit X)) :=
  match t with None => vkvNone | Some (TValue v) => vkvValue v | Some t => vkvNode (Ext (Literal (data_of t))) end.

Definition chain_of (t : tree) : vtree_chain (lit X) :=
  match t with TValue v => Ext (Value v) | _ => Ext (Literal (data_of t)) end.
End Data.

(** * Proofs *)

(** Keys for lists: indexes as they are printed, or no numbers at all. *)
Definition plain_key (k : list Z) : Prop := (exists i, 0 <= i < 2 ^ 31 /\ k = print_dec i) \/ forall v, ~ numeral k v.

Inductive small : tree -> Prop :=
  | small_value v : small (TValue v)
  | small_dict subs : Forall (fun kt => forall t, snd kt = Some t -> small t) subs -> small (TDict subs)
  | small_list subs : Z.of_nat (length subs) < 2 ^ 31 -> Forall (fun s => forall t, s = Some t -> small t) subs -> small (TList subs).

Definition is_node (t : tree) : bool := match t with TValue _ => false | _ => true end.

Lemma keys_subs_length t : length (keys_of t) = length (subs_of t).
Proof. destruct t; cbn; unfold index_keys; by rewrite ?length_map, ?length_seq. Qed.

Lemma sub_small t k u : small t -> sub t k = Some (Some u) -> small u.
Proof.
  intros Ht. unfold sub. destruct (list_find _ _) as [[i k']|]; [|done]. cbn [mbind option_bind]. intros Hi.
  destruct Ht as [v|subs Hs|subs _ Hs]; cbn [subs_of] in Hi; [done| |]; rewrite list.Forall_forall in Hs.
  - apply list_lookup_fmap_Some in Hi as (kt & E & Hi). apply (Hs kt); [by eapply list_elem_of_lookup_2|done].
  - apply (Hs (Some u)); [by eapply list_elem_of_lookup_2|done].
Qed.

Lemma find_key_spec {X} k (subs : list (list Z * option tree)) idx :
  find_key (X := X) k (map (fun kt => mk_elem (Some (fst kt)) (val_of (snd kt))) subs) idx =
  Some ((fun ix => (idx + fst ix)%nat) <$> list_find (fun k' => k' = k) (map fst subs)).
Proof.
  induction subs as [|[k' s] subs IH] in idx |- *; [done|]. cbn [map find_key kv_key fst snd mbind option_bind list_find].
  destruct (decide (k' = k)) as [->|Hne]; [rewrite bool_decide_true by done; cbn; by rewrite Nat.add_0_r|].
  rewrite bool_decide_false by done. rewrite IH. f_equal. destruct (list_find _ _) as [[i ?]|]; [|done]. cbn. f_equal. lia.
Qed.

Lemma index_found i n : (i < n)%nat -> list_find (fun k' => k' = print_dec (Z.of_nat i)) (index_keys n) = Some (i, print_dec (Z.of_nat i)).
Proof.
  intros Hi. apply list_find_Some. unfold index_keys. split; [|split; [done|]].
  - rewrite list_lookup_fmap, lookup_seq_lt by lia. done.
  - intros j y Hj Hlt. rewrite list_lookup_fmap, lookup_seq_lt in Hj by lia. injection Hj as <-. intros E.
    apply print_dec_inj in E; lia.
Qed.

Lemma index_absent k n : (forall i, (i < n)%nat -> k <> print_dec (Z.of_nat i)) -> list_find (fun k' => k' = k) (index_keys n) = None.
Proof.
  intros H. apply list_find_None, list.Forall_forall. intros x Hx ->. unfold index_keys in Hx.
  apply list_elem_of_In, in_map_iff in Hx as (i & E & Hi%in_seq). apply (H i); [lia|done].
Qed.

Section Lookup.
Context {X : Type}.

Lemma lit_data_list t : kv_list (data_of (X := X) t) = match t with
  | TValue _ => []
  | TDict subs => map (fun kt => mk_elem (Some (fst kt)) (val_of (snd kt))) subs
  | TList subs => map (fun t => mk_elem None (val_of t)) subs
  end.
Proof. by destruct t. Qed.

Lemma data_val t i : kv_val <$> kv_list (data_of (X := X) t) !! i = val_of <$> subs_of t !! i.
Proof. rewrite lit_data_list. destruct t; cbn [subs_of]; [done|..]; rewrite ?list_lookup_fmap; by destruct (_ !! i). Qed.

Lemma get_index_spec t k rest : small t -> is_node t = true -> plain_key k ->
  get_index (X := X) (data_of t) (Key k :: rest) = Some (fst <$> list_find (fun k' => k' = k) (keys_of t)).
Proof.
  intros Ht Hn Hk. destruct Ht as [v|subs _|subs Hlen _]; [done| |].
  - cbn [get_index]. change (kv_type (data_of (TDict subs))) with vktDict. rewrite bool_decide_false by done.
    by rewrite lit_data_list, find_key_spec.
  - cbn [get_index]. change (kv_type (data_of (TList subs))) with vktList. rewrite bool_decide_true by done.
    destruct (strtol k) as [[v ep] e] eqn:E. rewrite lit_data_list, length_map. cbn [keys_of]. f_equal.
    destruct Hk as [(i & Hi & ->)|Hk].
    + rewrite (strtol_numeral _ i (print_dec_numeral i)) in E. unfold saturate in E.
      rewrite (proj2 (Z.ltb_ge i _)), (proj2 (Z.ltb_ge _ i)) in E by lia. injection E as <- <- <-.
      destruct (print_dec_digits i) as [Hne _]; [lia|]. rewrite bool_decide_false, bool_decide_true by done. cbn [orb negb].
      replace (i32 i) with i by (symmetry; apply swrap_small; lia). rewrite (proj2 (Z.ltb_ge i 0)) by lia. cbn [orb].
      destruct (Z.leb_spec (Z.of_nat (length subs)) i).
      * rewrite index_absent; [done|]. intros j Hj E. apply print_dec_inj in E; lia.
      * replace (print_dec i) with (print_dec (Z.of_nat (Z.to_nat i))) by (f_equal; lia). by rewrite index_found by lia.
    + rewrite index_absent.
      2: { intros i Hi ->. apply (Hk (Z.of_nat i)), print_dec_numeral. }
      destruct (bool_decide_reflect (k = [])) as [?|Hne]; [done|]. destruct (bool_decide_reflect (ep = [])) as [->|]; [|done].
      destruct (strtol_parses k (v, [], e) eq_refl E Hne) as (v' & Hv & _). by destruct (Hk v').
Qed.

(** The first argument leads to the sub tree. *)
Lemma at_index_spec t k rest cc : small t -> is_node t = true -> plain_key k ->
  at_index (X := X) (data_of t) (Key k :: rest) cc = Some (val_of <$> sub t k, cc).
Proof.
  intros Ht Hn Hk. unfold at_index. run_M. rewrite get_index_spec by done. cbn [fmap option_fmap option_map].
  unfold sub. destruct (list_find _ (keys_of t)) as [[i k']|] eqn:Ef; cbn [fmap option_fmap option_map fst]; [|done].
  apply list_find_Some in Ef as (Hi & _). apply lookup_lt_Some in Hi. rewrite keys_subs_length in Hi.
  destruct (lookup_lt_is_Some_2 _ _ Hi) as [s Hs]. pose proof (data_val t i) as Hv. rewrite Hs in Hv.
  destruct (kv_list (data_of t) !! i) as [e|]; [|done]. injection Hv as Hv. cbn. rewrite Hs. cbn. by rewrite Hv.
Qed.
End Lookup.

(** ** Calls after the cacheability was set *)

Section Cant.
Context {X : Type} `{!VtreeBackend X}.
Implicit Types (v : vtree_chain X).

Lemma lower_cant c : lower_cc (Some VTCACHE_CANT) c = Some VTCACHE_CANT.
Proof. by destruct c. Qed.

Lemma call_get_cant v argv r c : v <> Null -> bpv_get v argv VTCACHE_CAN = Some (r, c) ->
  call_get v argv VTCACHE_CANT = Some (r, VTCACHE_CANT).
Proof.
  intros Hv E. unfold call_get, cached, vtree_get_cachev, cached_call. cbn [mjoin option_join fmap option_fmap option_map].
  destruct v; [done|..]; rewrite E; cbn [mbind option_bind]; by rewrite lower_cant.
Qed.

Lemma call_getlen_cant v argv r c : v <> Null -> bpv_getlen v argv VTCACHE_CAN = Some (r, c) ->
  call_getlen v argv VTCACHE_CANT = Some (r, VTCACHE_CANT).
Proof.
  intros Hv E. unfold call_getlen, cached, vtree_getlen_cachev, cached_call. cbn [int_hit mbind option_bind].
  destruct v; [done|..]; rewrite E; cbn [mbind option_bind]; by rewrite lower_cant.
Qed.

Lemma call_haskey_cant v argv (r : bool) c : v <> Null -> bpv_haskey v argv VTCACHE_CAN = Some (r, c) ->
  call_haskey v argv VTCACHE_CANT = Some (r, VTCACHE_CANT).
Proof.
  intros Hv E. unfold call_haskey, cached, vtree_haskey_cachev, cached_call. run_M. cbn [int_hit mbind option_bind].
  destruct v; [done|..]; rewrite E; cbn [mbind option_bind]; rewrite lower_cant; by destruct r.
Qed.

Lemma fetched_cant {R} v (null : R) (f : vtree_chain X -> M R) r c : v <> Null -> f v VTCACHE_CAN = Some (r, c) ->
  fetched (fetch_call (Some v) null f) VTCACHE_CANT = Some (r, VTCACHE_CANT).
Proof.
  intros Hv E. unfold fetched, fetch_call, cached_call. destruct v; [done|..]; rewrite E; cbn [mbind option_bind]; by rewrite lower_cant.
Qed.

Lemma call_getnode_cant v argv r c : v <> Null -> bpv_getnode v argv VTCACHE_CAN = Some (r, c) ->
  call_getnode v argv VTCACHE_CANT = Some (r, VTCACHE_CANT).
Proof.
  intros Hv E. unfold call_getnode, vtree_getnode_cachev, cached_call. cbn [mjoin option_join vtree_free mbind option_bind dst_chain].
  destruct v; [done|..]; rewrite E; cbn [mbind option_bind]; by rewrite lower_cant.
Qed.
End Cant.

Lemma M_list_spec {A B} (f : A -> M B) (g : A -> B) cc l : (forall a, a ∈ l -> f a cc = Some (g a, cc)) -> M_list f l cc = Some (map g l, cc).
Proof.
  intros H. induction l as [|a l IH]; [done|]. cbn [M_list map]. run_M. rewrite H by left. rewrite IH; [done|]. intros b Hb. apply H. by right.
Qed.

(** ** What the operations return *)

Section Answers.
Context {X : Type} `{!VtreeBackend X}.

Definition node_at (t : tree) (ks : list (list Z)) : option tree := mjoin (at_path t ks).

Abbreviation lit_chain t := (chain_of (X := X) t) (only parsing).

(** An operation gives an answer on a tree at every sufficient level, whatever the
    cacheability was; on a node nothing may be cached. *)
Definition answers {R} (op : forall B : VtreeBackend (lit X), vtree_chain (lit X) -> M R) (need : nat) (t : tree) (r : R) : Prop :=
  forall n cc, (need < n)%nat -> exists cc', op (lit_ops n) (chain_of t) cc = Some (r, cc') /\ (is_node t = true -> cc' = VTCACHE_CANT).

Lemma node_chain t : is_node t = true -> lit_chain t = Ext (Literal (data_of t)) /\ val_of (X := X) (Some t) = vkvNode (Ext (Literal (data_of t))).
Proof. by destruct t. Qed.

Lemma get_answers ks : forall t, small t -> Forall plain_key ks ->
  answers (fun B v => @bpv_get _ B v (Key <$> ks)) (length ks) t (value_at t ks).
Proof.
  induction ks as [|k ks IH]; intros t Ht Hks n cc Hn; (destruct n as [|n]; [lia|]); cbn [length] in Hn.
  { destruct t as [v|subs|subs]; [by eexists|..]; (eexists; split; [reflexivity|done]). }
  apply list.Forall_cons in Hks as [Hk Hks]. destruct (is_node t) eqn:Hnode; [|destruct t; [by eexists|done..]].
  destruct (node_chain t Hnode) as [-> _]. eexists. split; [|done]. cbn [bpv_get lit_ops lit_table ext_get].
  unfold vtree_literal_get. rewrite fmap_cons. run_M. rewrite at_index_spec by done. unfold value_at. cbn [at_path].
  destruct (sub t k) as [[u|]|] eqn:Es; cbn [fmap option_fmap option_map]; [|by destruct ks|done].
  pose proof (sub_small t k u Ht Es) as Hu. destruct (is_node u) eqn:Hnu.
  - destruct (node_chain u Hnu) as [Hc ->]. cbn [tail]. destruct (IH u Hu Hks n VTCACHE_CAN) as (c & E & _); [lia|].
    rewrite Hc in E. apply call_get_cant in E; [|done]. exact E.
  - destruct u as [v| |]; [|done..]. cbn [val_of]. by destruct ks.
Qed.

(** The operations that follow a path to a node and answer there. *)
Lemma descend_answers {R} (op call : forall B : VtreeBackend (lit X), vtree_chain (lit X) -> list arg -> M R) (dflt : R) (args : list arg) (final : tree -> R) need :
  (forall n data k rest cc, op (lit_ops (S n)) (Ext (Literal data)) (Key k :: rest) cc =
    (e ← at_index data (Key k :: rest); match e with Some (vkvNode v) => call (lit_ops n) v rest | _ => mret dflt end) VTCACHE_CANT) ->
  (forall B v argv r c, v <> Null -> op B v argv VTCACHE_CAN = Some (r, c) -> call B v argv VTCACHE_CANT = Some (r, VTCACHE_CANT)) ->
  (forall n v k rest cc, op (lit_ops (S n)) (Ext (Value v)) (Key k :: rest) cc = Some (dflt, cc)) ->
  (forall v, final (TValue v) = dflt) -> (forall t, small t -> answers (fun B v => op B v args) need t (final t)) ->
  forall ks t, small t -> Forall plain_key ks ->
    answers (fun B v => op B v ((Key <$> ks) ++ args)) (length ks + need) t (match node_at t ks with Some u => final u | None => dflt end).
Proof.
  intros Hlit Hcall Hval Hfin Hbase. induction ks as [|k ks IH]; intros t Ht Hks n cc Hn; cbn [length] in Hn; [by apply Hbase|].
  destruct n as [|n]; [lia|]. apply list.Forall_cons in Hks as [Hk Hks]. rewrite fmap_cons. cbn [app].
  destruct (is_node t) eqn:Hnode; [|destruct t as [v| |]; [|done..]; cbn [chain_of]; rewrite Hval; by eexists].
  destruct (node_chain t Hnode) as [-> _]. eexists. split; [|done]. rewrite Hlit. run_M. rewrite at_index_spec by done.
  unfold node_at. cbn [at_path]. destruct (sub t k) as [[u|]|] eqn:Es; cbn [fmap option_fmap option_map]; [|by destruct ks|done].
  pose proof (sub_small t k u Ht Es) as Hu. destruct (is_node u) eqn:Hnu.
  - destruct (node_chain u Hnu) as [Hc ->]. destruct (IH u Hu Hks n VTCACHE_CAN) as (c & E & _); [lia|]. rewrite Hc in E. by apply Hcall in E.
  - destruct u as [v| |]; [|done..]. cbn [val_of]. destruct ks; [cbn; by rewrite Hfin|done].
Qed.

Lemma getlen_answers ks t : small t -> Forall plain_key ks ->
  answers (fun B v => @bpv_getlen _ B v (Key <$> ks)) (length ks) t (match node_at t ks with Some u => Z.of_nat (length (subs_of u)) | None => 0 end).
Proof.
  intros Ht Hks. rewrite <- (app_nil_r (Key <$> ks)), <- (Nat.add_0_r (length ks)).
  apply (descend_answers (fun B v argv => @bpv_getlen _ B v argv) (fun B v argv => @call_getlen _ B v argv) 0 [] (fun t => Z.of_nat (length (subs_of t))) 0); try done.
  - intros B v argv r c. apply call_getlen_cant.
  - intros u _ n cc Hn. destruct n as [|n]; [lia|]. destruct u; [by eexists|..]; (eexists; split; [|done]).
    all: cbn [chain_of bpv_getlen lit_ops lit_table ext_getlen]; unfold vtree_literal_getlen; run_M; rewrite lit_data_list; cbn [subs_of]; by rewrite !length_map.
Qed.

Definition tree_node (s : option tree) : vtree_chain (lit X) := match s with Some u => chain_of u | None => Null end.

Lemma fetch_nodes_answers ks t : small t -> Forall plain_key ks ->
  answers (fun B v => @bpv_fetch_nodes _ B v (Key <$> ks)) (length ks) t (match node_at t ks with Some u => map tree_node (subs_of u) | None => [] end).
Proof.
  intros Ht Hks. rewrite <- (app_nil_r (Key <$> ks)), <- (Nat.add_0_r (length ks)).
  apply (descend_answers (fun B v argv => @bpv_fetch_nodes _ B v argv) (fun B v argv => @call_fetch_nodes _ B v argv) [] [] (fun t => map tree_node (subs_of t)) 0); try done.
  - intros B v argv r c. apply (fetched_cant v [] (fun v => bpv_fetch_nodes v argv)).
  - intros u _ n cc Hn. destruct n as [|n]; [lia|]. destruct u as [v|subs|subs]; [by eexists|..]; (eexists; split; [|done]).
    all: cbn [chain_of bpv_fetch_nodes lit_ops lit_table ext_fetch_nodes]; unfold vtree_literal_fetch_nodes; run_M; rewrite lit_data_list; cbn [subs_of].
    all: do 2 f_equal; induction subs as [|x subs IH]; [done|]; cbn [map]; rewrite fmap_cons, IH; f_equal.
    + destruct x as [k [[]|]]; done.
    + destruct x as [[]|]; done.
Qed.

Lemma elem_keys t : is_node t = true -> mapM (fun x => x) (imap (elem_key (X := X) (data_of t)) (kv_list (data_of t))) = Some (keys_of t).
Proof.
  intros Hn. apply mapM_Some. apply Forall2_same_length_lookup_2.
  { rewrite length_imap, lit_data_list. destruct t; [done|..]; cbn; unfold index_keys; by rewrite ?length_map, ?length_seq. }
  intros i x k Hx Hk. rewrite list_lookup_imap in Hx. rewrite lit_data_list in Hx. destruct t as [v|subs|subs]; [done|..]; cbn [keys_of] in Hk.
  - rewrite list_lookup_fmap in Hx. rewrite list_lookup_fmap in Hk. destruct (subs !! i); [|done]. injection Hx as <-. injection Hk as <-. done.
  - rewrite list_lookup_fmap in Hx. destruct (subs !! i) eqn:Ei; [|done]. apply lookup_lt_Some in Ei.
    unfold index_keys in Hk. rewrite list_lookup_fmap, lookup_seq_lt in Hk by lia. injection Hx as <-. injection Hk as <-. done.
Qed.

Lemma fetch_keys_answers ks t : small t -> Forall plain_key ks ->
  answers (fun B v => @bpv_fetch_keys _ B v (Key <$> ks)) (length ks) t (match node_at t ks with Some u => keys_of u | None => [] end).
Proof.
  intros Ht Hks. rewrite <- (app_nil_r (Key <$> ks)), <- (Nat.add_0_r (length ks)).
  apply (descend_answers (fun B v argv => @bpv_fetch_keys _ B v argv) (fun B v argv => @call_fetch_keys _ B v argv) [] [] keys_of 0); try done.
  - intros B v argv r c. apply (fetched_cant v [] (fun v => bpv_fetch_keys v argv)).
  - intros u _ n cc Hn. destruct n as [|n]; [lia|]. destruct (is_node u) eqn:Hu; [|destruct u; [by eexists|done..]].
    destruct (node_chain u Hu) as [-> _]. eexists. split; [|done].
    cbn [bpv_fetch_keys lit_ops lit_table ext_fetch_keys]; unfold vtree_literal_fetch_keys; run_M. by rewrite elem_keys.
Qed.

Lemma haskey_answers ks : forall t, small t -> Forall plain_key ks -> ks <> [] ->
  answers (fun B v => @bpv_haskey _ B v (Key <$> ks)) (length ks) t (bool_decide (is_Some (at_path t ks))).
Proof.
  induction ks as [|k ks IH]; intros t Ht Hks Hne n cc Hn; [done|]. destruct n as [|n]; [lia|]. cbn [length] in Hn.
  apply list.Forall_cons in Hks as [Hk Hks]. destruct (is_node t) eqn:Hnode; [|destruct t; [by eexists|done..]].
  destruct (node_chain t Hnode) as [-> _]. eexists. split; [|done]. cbn [bpv_haskey lit_ops lit_table ext_haskey].
  unfold vtree_literal_haskey. rewrite fmap_cons. run_M. rewrite at_index_spec by done. cbn [at_path].
  destruct (sub t k) as [[u|]|] eqn:Es; cbn [fmap option_fmap option_map]; [|by destruct ks|done].
  destruct ks as [|k' ks]; [by destruct u|]. pose proof (sub_small t k u Ht Es) as Hu. destruct (is_node u) eqn:Hnu.
  - destruct (node_chain u Hnu) as [Hc ->]. cbn [tail]. destruct (IH u Hu Hks ltac:(done) n VTCACHE_CAN) as (c & E & _); [lia|].
    rewrite Hc in E. apply call_haskey_cant in E; [|done]. exact E.
  - destruct u as [v| |]; [|done..]. done.
Qed.

Lemma getnode_answers ks : forall t, small t -> Forall plain_key ks ->
  answers (fun B v => @bpv_getnode _ B v (Key <$> ks)) (length ks) t (chain_of <$> node_at t ks).
Proof.
  induction ks as [|k ks IH]; intros t Ht Hks n cc Hn; (destruct n as [|n]; [lia|]); cbn [length] in Hn.
  { destruct t as [v|subs|subs]; [by eexists|..]; (eexists; split; [reflexivity|done]). }
  apply list.Forall_cons in Hks as [Hk Hks]. destruct (is_node t) eqn:Hnode; [|destruct t; [by eexists|done..]].
  destruct (node_chain t Hnode) as [-> _]. eexists. split; [|done]. cbn [bpv_getnode lit_ops lit_table ext_getnode].
  unfold vtree_literal_getnode. rewrite fmap_cons. run_M. rewrite at_index_spec by done. unfold node_at. cbn [at_path].
  destruct (sub t k) as [[u|]|] eqn:Es; cbn [fmap option_fmap option_map]; [|by destruct ks|done].
  pose proof (sub_small t k u Ht Es) as Hu. destruct (is_node u) eqn:Hnu.
  - destruct (node_chain u Hnu) as [Hc ->]. destruct (IH u Hu Hks n VTCACHE_CAN) as (c & E & _); [lia|].
    rewrite Hc in E. apply call_getnode_cant in E; [|done]. exact E.
  - destruct u as [v| |]; [|done..]. cbn [val_of]. by destruct ks.
Qed.

Lemma sub_elem_small t s : small t -> s ∈ subs_of t -> forall u, s = Some u -> small u.
Proof.
  intros Ht Hs u ->. destruct Ht as [v|subs Hall|subs _ Hall]; cbn [subs_of] in Hs; [by apply elem_of_nil in Hs| |]; rewrite list.Forall_forall in Hall.
  - apply list_elem_of_In, in_map_iff in Hs as (kt & E & Hkt%list_elem_of_In). by apply (Hall kt).
  - by apply (Hall (Some u)).
Qed.

(** The elements as the sub trees with their keys. *)
Lemma data_elems t : kv_list (data_of (X := X) t) = zip_with (fun k s => mk_elem k (val_of s))
  (match t with TList subs => map (fun _ => None) subs | _ => Some <$> keys_of t end) (subs_of t).
Proof.
  rewrite lit_data_list. destruct t as [v|subs|subs]; [done|..]; cbn [keys_of subs_of]; induction subs as [|x subs IH]; try done; cbn [map]; by rewrite IH.
Qed.

Lemma elem_value_spec n rest s k : (length rest < n)%nat -> Forall plain_key rest -> (forall u, s = Some u -> small u) ->
  elem_value (VtreeBackend0 := lit_ops n) (Key <$> rest) (mk_elem k (val_of s)) VTCACHE_CANT = Some (s ≫= fun u => value_at u rest, VTCACHE_CANT).
Proof.
  intros Hn Hr Hs. unfold elem_value. cbn [kv_val]. destruct s as [u|]; [|done]. cbn [mbind option_bind]. destruct (is_node u) eqn:Hu.
  - destruct (node_chain u Hu) as [Hc ->]. destruct (get_answers rest u (Hs u eq_refl) Hr n VTCACHE_CAN Hn) as (c & E & _).
    rewrite Hc in E. by apply call_get_cant in E.
  - destruct u as [v| |]; [|done..]. cbn [val_of]. by destruct rest.
Qed.

Definition loop_values (rest : list (list Z)) (t : tree) : list (option (list Z)) := map (fun s => s ≫= fun u => value_at u rest) (subs_of t).

Lemma loop_values_spec n rest t : (length rest < n)%nat -> small t -> Forall plain_key rest ->
  M_list (elem_value (VtreeBackend0 := lit_ops n) (Key <$> rest)) (kv_list (data_of t)) VTCACHE_CANT = Some (loop_values rest t, VTCACHE_CANT).
Proof.
  intros Hn Ht Hr. rewrite data_elems. set (ks := match t with TList subs => _ | _ => _ end).
  assert (length ks = length (subs_of t)) as Hlen by (unfold ks; destruct t; cbn; by rewrite ?length_map).
  unfold loop_values. pose proof (sub_elem_small t) as Hsub. clearbody ks. revert ks Hlen. specialize (fun s => Hsub s Ht).
  induction (subs_of t) as [|s subs IH]; intros [|k ks] Hlen; try done. cbn [zip_with M_list map]. run_M.
  rewrite elem_value_spec; [|done|done|by apply Hsub; left]. rewrite IH; [done|intros; eapply Hsub; [by right|done]|by injection Hlen].
Qed.

Lemma fetch_values_answers ks rest t : small t -> Forall plain_key ks -> Forall plain_key rest ->
  answers (fun B v => @bpv_fetch_values _ B v ((Key <$> ks) ++ VTREE_LOOP :: (Key <$> rest))) (length ks + S (length rest)) t
    (match node_at t ks with Some u => loop_values rest u | None => [] end).
Proof.
  intros Ht Hks Hr.
  apply (descend_answers (fun B v argv => @bpv_fetch_values _ B v argv) (fun B v argv => @call_fetch_values _ B v argv) [] _ (loop_values rest)); try done.
  - intros B v argv r c. apply (fetched_cant v [] (fun v => bpv_fetch_values v argv)).
  - intros u Hsm n cc Hn. destruct n as [|n]; [lia|]. destruct (is_node u) eqn:Hu; [|destruct u; [by eexists|done..]].
    destruct (node_chain u Hu) as [-> _]. eexists. split; [|done].
    cbn [bpv_fetch_values lit_ops lit_table ext_fetch_values]; unfold vtree_literal_fetch_values; run_M. by rewrite loop_values_spec by (done || lia).
Qed.

Definition loop_keys (rest : list (list Z)) (value : list Z) (t : tree) : list (list Z) :=
  fst <$> filter (fun kv => snd kv = Some value) (zip (keys_of t) (loop_values rest t)).

Lemma fetch_byval_answers ks rest value t : small t -> Forall plain_key ks -> Forall plain_key rest ->
  answers (fun B v => @bpv_fetch_byval _ B v value ((Key <$> ks) ++ VTREE_LOOP :: (Key <$> rest))) (length ks + S (length rest)) t
    (match node_at t ks with Some u => loop_keys rest value u | None => [] end).
Proof.
  intros Ht Hks Hr.
  apply (descend_answers (fun B v argv => @bpv_fetch_byval _ B v value argv) (fun B v argv => @call_fetch_byval _ B v value argv) [] _ (loop_keys rest value)); try done.
  - intros B v argv r c. apply (fetched_cant v [] (fun v => bpv_fetch_byval v value argv)).
  - intros u Hsm n cc Hn. destruct n as [|n]; [lia|]. destruct (is_node u) eqn:Hu; [|destruct u; [by eexists|done..]].
    destruct (node_chain u Hu) as [-> _]. eexists. split; [|done].
    cbn [bpv_fetch_byval lit_ops lit_table ext_fetch_byval]; unfold vtree_literal_fetch_keys_by_value; run_M.
    rewrite loop_values_spec by (done || lia). by rewrite elem_keys.
Qed.

(** The elements of a tree with what is below them at a path. *)
Definition elem_names (t : tree) : list (option (list Z)) :=
  match t with TList subs => map (fun _ => None) subs | _ => Some <$> keys_of t end.

Definition loop_keyvals (rest : list (list Z)) (t : tree) : vtree_keyvals (vtree_chain (lit X)) :=
  mk_keyvals (kv_type (data_of (X := X) t)) (zip_with (fun k s => mk_elem k (val_of (s ≫= fun u => node_at u rest))) (elem_names t) (subs_of t)).

Lemma get_self n u : vtree_get (VtreeBackend0 := lit_ops (S n)) (chain_of u) [] = Some (match u with TValue v => Some v | _ => None end).
Proof. by destruct u. Qed.

Lemma elem_keyval_spec n rest s k : (length rest < n)%nat -> Forall plain_key rest -> (forall u, s = Some u -> small u) ->
  elem_keyval (VtreeBackend0 := lit_ops n) (Key <$> rest) (mk_elem k (val_of s)) VTCACHE_CANT =
  Some (mk_elem k (val_of (s ≫= fun u => node_at u rest)), VTCACHE_CANT).
Proof.
  intros Hn Hr Hs. unfold elem_keyval. cbn [kv_val kv_key]. destruct s as [u|]; [|done]. cbn [mbind option_bind]. destruct (is_node u) eqn:Hu.
  - destruct (node_chain u Hu) as [Hc ->]. destruct (getnode_answers rest u (Hs u eq_refl) Hr n VTCACHE_CAN Hn) as (c & E & _).
    rewrite Hc in E. apply call_getnode_cant in E; [|done]. run_M. cbn beta in E. rewrite E. destruct (node_at u rest) as [x|]; [|done].
    cbn [fmap option_fmap option_map]. destruct n as [|n]; [lia|]. rewrite get_self. by destruct x.
  - destruct u as [v| |]; [|done..]. cbn [val_of]. by destruct rest.
Qed.

Lemma loop_keyvals_spec n rest t : (length rest < n)%nat -> small t -> Forall plain_key rest ->
  M_list (elem_keyval (VtreeBackend0 := lit_ops n) (Key <$> rest)) (kv_list (data_of t)) VTCACHE_CANT = Some (kv_list (loop_keyvals rest t), VTCACHE_CANT).
Proof.
  intros Hn Ht Hr. rewrite data_elems. fold (elem_names t). unfold loop_keyvals. cbn [kv_list].
  assert (length (elem_names t) = length (subs_of t)) as Hlen by (destruct t; cbn; by rewrite ?length_map).
  pose proof (sub_elem_small t) as Hsub. revert Hlen. generalize (elem_names t) as ks. specialize (fun s => Hsub s Ht).
  induction (subs_of t) as [|s subs IH]; intros [|k ks] Hlen; try done. cbn [zip_with M_list]. run_M.
  rewrite elem_keyval_spec; [|done|done|by apply Hsub; left]. rewrite IH; [done|intros; eapply Hsub; [by right|done]|by injection Hlen].
Qed.

Lemma keyvals_answers ks : forall rest t, small t -> Forall plain_key ks -> Forall plain_key rest ->
  answers (fun B v => @bpv_fetch_keys_and_values _ B v ((Key <$> ks) ++ VTREE_LOOP :: (Key <$> rest))) (length ks + S (length rest)) t
    (match node_at t ks with Some u => loop_keyvals rest u | None => no_keyvals end).
Proof.
  induction ks as [|k ks IH]; intros rest t Ht Hks Hr n cc Hn; (destruct n as [|n]; [lia|]); cbn [length] in Hn;
    (destruct (is_node t) eqn:Hnode; [|destruct t; [by eexists|done..]]); destruct (node_chain t Hnode) as [-> _]; eexists; (split; [|done]);
    cbn [bpv_fetch_keys_and_values lit_ops lit_table ext_fetch_keys_and_values]; unfold vtree_literal_fetch_keys_and_values.
  { change ((Key <$> []) ++ VTREE_LOOP :: (Key <$> rest)) with (VTREE_LOOP :: (Key <$> rest)). run_M. by rewrite loop_keyvals_spec by (done || lia). }
  apply list.Forall_cons in Hks as [Hk Hks]. rewrite fmap_cons. cbn [app]. run_M. unfold vtree_literal_getnode. run_M. rewrite at_index_spec by done.
  unfold node_at. cbn [at_path]. destruct (sub t k) as [[u|]|] eqn:Es; cbn [fmap option_fmap option_map]; [|by destruct ks|done].
  pose proof (sub_small t k u Ht Es) as Hu. destruct (IH rest u Hu Hks Hr n VTCACHE_CANT) as (c & E & Hc); [lia|].
  destruct (is_node u) eqn:Hnu.
  - destruct (node_chain u Hnu) as [Hch ->]. destruct (getnode_answers [] u Hu ltac:(constructor) n VTCACHE_CAN) as (c' & E' & _); [cbn; lia|].
    rewrite Hch in E', E. apply call_getnode_cant in E'; [|done]. change (Key <$> []) with (@nil arg) in E'. rewrite E'.
    cbn [node_at at_path mjoin option_join fmap option_fmap option_map]. rewrite Hch. cbn beta in E. rewrite E, Hc by done. done.
  - destruct u as [v| |]; [|done..]. cbn [val_of]. destruct n as [|n]; [lia|]. destruct ks; done.
Qed.
End Answers.

(** The levels of [lit_api] are enough. *)
Lemma api_answers {X} `{!VtreeBackend X} {R} (op : forall B : VtreeBackend (lit X), vtree_chain (lit X) -> M R) need t r n cc :
  answers op need t r -> is_node t = true -> (need < n)%nat -> op (lit_ops n) (Ext (Literal (data_of t))) cc = Some (r, VTCACHE_CANT).
Proof.
  intros Ha Ht Hn. destruct (Ha n cc Hn) as (cc' & E & Hc). rewrite Hc in E by done. by destruct (node_chain (X := X) t Ht) as [<- _].
Qed.

(** A literal tree answers every question of the interface from the tree it is,
    over any other backend: a path of keys and printed indexes gives the value, the
    length, the keys and the node at its end, VTREE_LOOP the values below every
    element, and no answer may be cached. *)
Theorem literal_answers {X} `{!VtreeBackend X} t ks rest value cc :
  small t -> is_node t = true -> Forall plain_key ks -> Forall plain_key rest ->
  let v := vtree_literal_create (X := X) (data_of t) in
  let at_node {A} (f : tree -> A) (no : A) := match node_at t ks with Some u => f u | None => no end in
  let loop := (Key <$> ks) ++ VTREE_LOOP :: (Key <$> rest) in
  bpv_get v (Key <$> ks) cc = Some (value_at t ks, VTCACHE_CANT) /\
  bpv_getlen v (Key <$> ks) cc = Some (at_node (fun u => Z.of_nat (length (subs_of u))) 0, VTCACHE_CANT) /\
  (ks <> [] -> bpv_haskey v (Key <$> ks) cc = Some (bool_decide (is_Some (at_path t ks)), VTCACHE_CANT)) /\
  bpv_fetch_keys v (Key <$> ks) cc = Some (at_node keys_of [], VTCACHE_CANT) /\
  bpv_getnode v (Key <$> ks) cc = Some (chain_of <$> node_at t ks, VTCACHE_CANT) /\
  bpv_fetch_nodes v (Key <$> ks) cc = Some (at_node (fun u => map tree_node (subs_of u)) [], VTCACHE_CANT) /\
  bpv_fetch_values v loop cc = Some (at_node (loop_values rest) [], VTCACHE_CANT) /\
  bpv_fetch_byval v value loop cc = Some (at_node (loop_keys rest value) [], VTCACHE_CANT) /\
  bpv_fetch_keys_and_values v loop cc = Some (at_node (loop_keyvals rest) no_keyvals, VTCACHE_CANT).
Proof.
  intros Ht Hn Hks Hr v at_node loop.
  assert (length (Key <$> ks) = length ks) as Hlen by apply length_fmap.
  assert (length loop = length ks + S (length rest))%nat as Hlen' by (unfold loop; rewrite length_app; cbn [length]; by rewrite !length_fmap).
  repeat split; [| |intros Hne|..]; [apply (api_answers (fun B v => @bpv_get _ B v (Key <$> ks)) (length ks) t _ _ cc)|
    apply (api_answers (fun B v => @bpv_getlen _ B v (Key <$> ks)) (length ks) t _ _ cc)|
    apply (api_answers (fun B v => @bpv_haskey _ B v (Key <$> ks)) (length ks) t _ _ cc)|
    apply (api_answers (fun B v => @bpv_fetch_keys _ B v (Key <$> ks)) (length ks) t _ _ cc)|
    apply (api_answers (fun B v => @bpv_getnode _ B v (Key <$> ks)) (length ks) t _ _ cc)|
    apply (api_answers (fun B v => @bpv_fetch_nodes _ B v (Key <$> ks)) (length ks) t _ _ cc)|
    apply (api_answers (fun B v => @bpv_fetch_values _ B v loop) (length ks + S (length rest)) t _ _ cc)|
    apply (api_answers (fun B v => @bpv_fetch_byval _ B v value loop) (length ks + S (length rest)) t _ _ cc)|
    apply (api_answers (fun B v => @bpv_fetch_keys_and_values _ B v loop) (length ks + S (length rest)) t _ _ cc)];
    try done; try lia.
  - by apply get_answers.
  - by apply getlen_answers.
  - by apply haskey_answers.
  - by apply fetch_keys_answers.
  - by apply getnode_answers.
  - by apply fetch_nodes_answers.
  - by apply fetch_values_answers.
  - by apply fetch_byval_answers.
  - by apply keyvals_answers.
Qed.

(** The keys and the values of a loop belong together: each value is what the path
    through its key gives. *)
Lemma literal_loop_paths t ks rest u i k : node_at t ks = Some u -> NoDup (keys_of u) -> keys_of u !! i = Some k ->
  loop_values rest u !! i = Some (value_at t (ks ++ k :: rest)).
Proof.
  intros Hu Hnd Hi. assert (exists s, subs_of u !! i = Some s /\ sub u k = Some s) as (s & Hs & Hsub).
  { assert (is_Some (subs_of u !! i)) as [s Hs] by (apply lookup_lt_is_Some; rewrite <- keys_subs_length; by eapply lookup_lt_Some).
    exists s. split; [done|]. unfold sub. assert (list_find (fun k' => k' = k) (keys_of u) = Some (i, k)) as ->; [|done].
    apply list_find_Some. split; [done|]. split; [done|]. intros j y Hj Hlt ->. assert (j = i) by (by eapply NoDup_lookup). lia. }
  unfold loop_values. rewrite list_lookup_fmap, Hs. cbn [fmap option_fmap option_map]. f_equal.
  assert (at_path t (ks ++ k :: rest) = at_path u (k :: rest)) as E.
  { revert t Hu. induction ks as [|x ks IH]; intros t Hu; cbn [app]; [by injection Hu as ->|]. unfold node_at in *. cbn [at_path] in *.
    destruct (sub t x) as [[y|]|]; [by apply IH|by destruct ks|done]. }
  unfold value_at. rewrite E. cbn [at_path]. rewrite Hsub. destruct s as [y|]; [done|]. by destruct rest.
Qed.

(** * Examples *)

#[export] Instance no_backend : VtreeBackend Empty_set := {|
  ext_getlen (x : Empty_set) := match x with end; ext_get (x : Empty_set) := match x with end; ext_haskey (x : Empty_set) := match x with end; ext_fetch_keys (x : Empty_set) := match x with end;
  ext_fetch_values (x : Empty_set) := match x with end; ext_fetch_byval (x : Empty_set) := match x with end; ext_getnode (x : Empty_set) := match x with end;
  ext_fetch_nodes (x : Empty_set) := match x with end; ext_fetch_keys_and_values (x : Empty_set) := match x with end |}.

Definition hosts : tree := TDict [(bytes "port", Some (TValue (bytes "80"))); (bytes "host", Some (TList [Some (TValue (bytes "a")); None; Some (TValue (bytes "b"))]))].

Lemma literal_answers_witness :
  bpv_get (vtree_literal_create (X := Empty_set) (data_of hosts)) (Key <$> [bytes "host"; bytes "2"]) VTCACHE_CAN = Some (Some (bytes "b"), VTCACHE_CANT).
Proof.
  destruct (literal_answers (X := Empty_set) hosts [bytes "host"; bytes "2"] [] (bytes "b") VTCACHE_CAN) as [H _]; [| | | |exact H].
  - apply small_dict. constructor; [intros ? [= <-]; constructor|]. constructor; [|constructor]. intros ? [= <-]. apply small_list; [done|].
    repeat (constructor; [intros ? [= <-]; constructor|]). constructor.
  - done.
  - constructor; [right|constructor; [|constructor]].
    + intros v Hv%strtol_numeral. revert Hv. change (strtol (bytes "host")) with (0, bytes "host", false). unfold saturate.
      destruct (_ <? _); [done|]. by destruct (_ <? _).
    + left. exists 2. by vm_compute.
  - constructor.
Defined.

(** An index is cut to 32 bits, and any form of a number is an index. *)
Theorem literal_index_truncated :
  let get k := bpv_get (vtree_literal_create (X := Empty_set) (data_of hosts)) (Key <$> [bytes "host"; k]) VTCACHE_CAN in
  get (bytes "4294967298") = Some (Some (bytes "b"), VTCACHE_CANT) /\ get (bytes "-99999999999999999999") = Some (Some (bytes "a"), VTCACHE_CANT).
Proof. by vm_compute. Qed.
