(* ===== verification/Encoding.v ===== *)
(** Encoding: base64 (src/util/lib/base64.c) and the escaping of URLs
    (src/util/lib/url.c).

    Byte sequences are lists.  The decoders write to a buffer of the caller: what is
    written is the result, and the bound on its length is a theorem.  [url_decode] works
    in place: the result is the decoded part and what is left of the string after it. *)
From stdpp Require Import prelude list numbers.
From Stdlib Require Import ZArith Lia.
From S2P Require Import Prelude BufString Strings.

Local Open Scope Z_scope.

(** * Base64 *)

Definition BASE64_NEEDED (sz : Z) : Z := Z.quot (sz + 2) 3 * 4 + 1.
Definition BASE64DECODE_NEEDED (sz : Z) : Z := Z.quot sz 4 * 3 + 1.

Definition b64table : list Z := bytes "ABCDEFGHIJKLMNOPQRSTUVWXYZabcdefghijklmnopqrstuvwxyz0123456789+/".

Definition b64urltable : list Z := bytes "ABCDEFGHIJKLMNOPQRSTUVWXYZabcdefghijklmnopqrstuvwxyz0123456789-_".

(** From '+' to 'z'. *)
Definition deb64table : list Z :=
  [62] ++ [0; 0; 0] ++ [63] ++ seqZ 52 10 ++ [0; 0; 0] ++ [0] ++ [0; 0; 0] ++ seqZ 0 26 ++ [0; 0; 0; 0; 0; 0] ++ seqZ 26 26.

Definition at_ (table : list Z) (i : Z) : Z := nth (Z.to_nat i) table 0.

Definition base64_encode_triplet (table input : list Z) (len : Z) : list Z :=
  [at_ table (at_ input 0 >> 2);
   at_ table (((at_ input 0 .& 0x3) << 4) .| (if 1 <? len then (at_ input 1 .& 0xF0) >> 4 else 0));
   if 1 <? len then at_ table (((at_ input 1 .& 0xF) << 2) .| (if 2 <? len then (at_ input 2 .& 0xC0) >> 6 else 0)) else 61;
   if 2 <? len then at_ table (at_ input 2 .& 0x3F) else 61].

(** The characters written, without the terminator. *)
Fixpoint base64_encode_table (table src : list Z) : list Z :=
  match src with
  | [] => []
  | x :: y :: z :: src => base64_encode_triplet table [x; y; z] 3 ++ base64_encode_table table src
  | src => base64_encode_triplet table src (size src)
  end.

(** The value returned. *)
Definition base64_encode_len (len : Z) : Z := Z.quot (len + 2) 3 * 4.

Definition base64_encode (src : list Z) : list Z := base64_encode_table b64table src.
Definition base64url_encode (src : list Z) : list Z := base64_encode_table b64urltable src.

(** A character that is skipped. *)
Definition not_b64 (c : Z) : bool :=
  (c <? 43) || (122 <? c) || ((at_ deb64table (c - 43) =? 0) && negb (c =? 65)).

(** The loop: the last character read, the bits and characters pending, the bytes written. *)
Fixpoint decode_loop (src : list Z) (c bits char_count : Z) (dst : list Z) : Z * Z * Z * list Z :=
  match src with
  | [] => (c, bits, char_count, dst)
  | s :: src =>
    let c := schar s in
    if c =? 61 then (c, bits, char_count, dst)
    else if not_b64 c then decode_loop src c bits char_count dst
    else
      let bits := bits + at_ deb64table (c - 43) in
      let char_count := char_count + 1 in
      if char_count =? 4 then
        decode_loop src c 0 0 (dst ++ [u8 (bits >> 16); u8 ((bits >> 8) .& 0xff); u8 (bits .& 0xff)])
      else decode_loop src c (bits << 6) char_count dst
  end.

(** What is written for an incomplete group; the errors counted are dropped. *)
Definition decode_end (r : Z * Z * Z * list Z) : list Z :=
  let '(c, bits, char_count, dst) := r in
  if c =? 61 then
    if char_count =? 2 then dst ++ [u8 (bits >> 10)]
    else if char_count =? 3 then dst ++ [u8 (bits >> 16); u8 ((bits >> 8) .& 0xff)]
    else dst
  else dst.

Definition base64_decode (src : list Z) : list Z := decode_end (decode_loop src 0 0 0 []).

(** The allocation, zeroed, with the bytes written at its start: nothing if they do not
    fit; and the length returned. *)
Definition filled (needed : Z) (written : list Z) : option (list Z) :=
  if size written <=? needed then Some (written ++ replicate (Z.to_nat needed - length written) 0) else None.

Definition base64_encode_new (src : option (list Z)) : option (option (list Z) * Z) :=
  match src with
  | None => Some (None, 0)
  | Some src =>
    buf ← filled (BASE64_NEEDED (size src)) (base64_encode src ++ [0]);
    Some (Some buf, base64_encode_len (size src))
  end.

Definition base64_decode_new (src : option (list Z)) : option (option (list Z) * Z) :=
  match src with
  | None => Some (None, 0)
  | Some src =>
    buf ← filled (BASE64DECODE_NEEDED (size src)) (base64_decode src);
    Some (Some buf, size (base64_decode src))
  end.

(** * URLs *)

Definition isxdigit (c : Z) : bool :=
  isdigit c || ((65 <=? c) && (c <=? 70)) || ((97 <=? c) && (c <=? 102)).

Definition url_xdigit (a : Z) : Z := if a <=? 57 then a - 48 else if a <=? 70 then a - 55 else a - 87.

(** The check that the decoded bytes are UTF-8. *)
Record utf8_check := mk_check { is_utf8 : bool; trailing : Z; minuch : Z; uch : Z }.

Definition check_init : utf8_check := mk_check true 0 0 0.
Definition bad (k : utf8_check) : utf8_check := mk_check false (trailing k) (minuch k) (uch k).

Definition check_step (k : utf8_check) (c : Z) : utf8_check :=
  if negb (is_utf8 k) then k
  else if c .& 0x80 =? 0 then (if 0 <? trailing k then bad k else k)
  else if c .& 0xC0 =? 0x80 then
    let k := mk_check true (trailing k - 1) (minuch k) (uch k << 6 .| (c .& 0x3F)) in
    if trailing k <? 0 then bad k
    else if (trailing k =? 0) && (uch k <? minuch k) then bad k else k
  else if 0 <? trailing k then bad k
  else if c .& 0xE0 =? 0xC0 then mk_check true 1 0x80 (c .& 0x1F)
  else if c .& 0xF0 =? 0xE0 then mk_check true 2 0x800 (c .& 0x1F)
  else if c .& 0xF8 =? 0xF0 then mk_check true 3 0x10000 (c .& 0x1F)
  else bad k.

Definition check_done (k : utf8_check) : bool := is_utf8 k && negb (0 <? trailing k).

(** What a byte that was escaped is replaced with. *)
Definition make_safe (unsafe : bool) (c : Z) : Z :=
  if unsafe then c else if c =? 9 then 32 else if c <? 32 then 63 else c.

Definition is_stop (stopchars : option (list Z)) (c : Z) : bool :=
  match stopchars with None => false | Some l => bool_decide (c ∈ l) end.

(** [str] is the string from [ptr] on and [left] the distance to [end]. *)
Fixpoint url_decode_loop (str : list Z) (left : Z) (stopchars : option (list Z)) (unsafe : bool) (k : utf8_check) :
    list Z * list Z * utf8_check :=
  match str with
  | [] => ([], [], k)
  | c :: r =>
    if (left <=? 0) || is_stop stopchars c then ([], str, k) else
    let plain :=
      let c := if c =? 43 then 32 else c in
      let '(done, rest, k) := url_decode_loop r (left - 1) stopchars unsafe (check_step k c) in (c :: done, rest, k) in
    match r with
    | a :: b :: r' =>
      if (c =? 37) && isxdigit a && isxdigit b then
        let c := make_safe unsafe (u8 (url_xdigit a * 16 + url_xdigit b)) in
        let '(done, rest, k) := url_decode_loop r' (left - 3) stopchars unsafe (check_step k c) in (c :: done, rest, k)
      else plain
    | _ => plain
    end
  end.

(** The decoded bytes, the string after them, and whether they are UTF-8. *)
Definition url_decode (str : list Z) (max : Z) (stopchars : option (list Z)) (unsafe : bool) : list Z * list Z * bool :=
  let '(done, rest, k) := url_decode_loop str (if 0 <=? max then max else size str) stopchars unsafe check_init in
  (done, rest, check_done k).

Definition hex_upper (n : Z) : Z := if n <? 10 then 48 + n else 55 + n.

(** printf of "%%%02X". *)
Definition percent (c : Z) : list Z := [37; hex_upper (c >> 4); hex_upper (c .& 15)].

Definition url_reserved : list Z := bytes " ;/?:@&=+$,<>#%{}|\^[]`'!" ++ [34].
Definition postdata_reserved : list Z := bytes " ?&=+#%" ++ [127].

Definition url_escapes (c : Z) : bool := (0x7F <=? c) || (schar c <? 0x20) || bool_decide (c ∈ url_reserved).
Definition postdata_escapes (c : Z) : bool := (schar c <? 0x20) || bool_decide (c ∈ postdata_reserved).

Section Buf.
Context (junk : nat -> list Z).

Fixpoint encode_loop (escapes : Z -> bool) (dst : buf_string) (str : list Z) : option buf_string :=
  match str with
  | [] => Some dst
  | c :: str =>
    '(_, dst) ← (if escapes c then vbufcat junk dst (percent c) else bufwrite junk dst [c]);
    encode_loop escapes dst str
  end.

Definition url_encode := encode_loop url_escapes.
Definition url_encode_postdata := encode_loop postdata_escapes.
End Buf.

(** * Proofs *)

(** ** Base64 *)

(** The sextets of a table entry. *)
Lemma b64_entry i : 0 <= i < 64 ->
  let c := at_ b64table i in schar c = c /\ c <> 61 /\ not_b64 c = false /\ at_ deb64table (c - 43) = i.
Proof.
  intros Hi. pose proof (forall_below 64 (fun i => let c := at_ b64table i in
    (schar c =? c) && negb (c =? 61) && negb (not_b64 c) && (at_ deb64table (c - 43) =? i)) ltac:(by vm_compute) i Hi) as H.
  cbn zeta beta in H. cbn zeta. apply andb_prop in H as [[[H1 H2]%andb_prop H3]%andb_prop H4].
  apply Z.eqb_eq in H1, H4. apply negb_true_iff in H2, H3. apply Z.eqb_neq in H2. done.
Qed.

Lemma decode_char i src c bits n dst : 0 <= i < 64 ->
  decode_loop (at_ b64table i :: src) c bits n dst =
  if n + 1 =? 4 then decode_loop src (at_ b64table i) 0 0
    (dst ++ [u8 ((bits + i) >> 16); u8 (((bits + i) >> 8) .& 0xff); u8 ((bits + i) .& 0xff)])
  else decode_loop src (at_ b64table i) ((bits + i) << 6) (n + 1) dst.
Proof.
  intros Hi. destruct (b64_entry i Hi) as (H1 & H2 & H3 & H4). cbn [decode_loop].
  by rewrite H1, (proj2 (Z.eqb_neq _ _) H2), H3, H4.
Qed.

Ltac to_arith :=
  repeat (rewrite ?Z.shiftr_div_pow2, ?Z.shiftl_mul_pow2 by done);
  change 0xff with (Z.ones 8); change 0x3F with (Z.ones 6); change 0xF with (Z.ones 4); change 0x3 with (Z.ones 2);
  rewrite ?Z.land_ones by done; unfold uwrap; Z.to_euclidean_division_equations; lia.

Lemma high_nibble y : byte y -> (y .& 0xF0) >> 4 = y / 16.
Proof.
  intros Hy. pose proof (forall_below 256 (fun y => (y .& 0xF0) >> 4 =? y / 16) ltac:(by vm_compute) y Hy) as H. cbn beta in H. lia.
Qed.

Lemma high_two z : byte z -> (z .& 0xC0) >> 6 = z / 64.
Proof.
  intros Hz. pose proof (forall_below 256 (fun y => (y .& 0xC0) >> 6 =? y / 64) ltac:(by vm_compute) z Hz) as H. cbn beta in H. lia.
Qed.

(** The sextets of a triplet are those of its number. *)
Lemma sextets x y z : byte x -> byte y -> byte z ->
  x >> 2 = x / 4 /\
  ((x .& 0x3) << 4) .| ((y .& 0xF0) >> 4) = (x mod 4) * 16 + y / 16 /\
  ((y .& 0xF) << 2) .| ((z .& 0xC0) >> 6) = (y mod 16) * 4 + z / 64 /\
  z .& 0x3F = z mod 64.
Proof.
  intros Hx Hy Hz. rewrite high_nibble, high_two by done. unfold byte in *.
  rewrite !shl_lor; [|lia|split; [apply Z.div_pos|apply Z.div_lt_upper_bound]; lia|lia|split; [apply Z.div_pos|apply Z.div_lt_upper_bound]; lia].
  change 0x3F with (Z.ones 6). change 0xF with (Z.ones 4). change 0x3 with (Z.ones 2). rewrite !Z.land_ones by done.
  rewrite Z.shiftr_div_pow2 by done. done.
Qed.

Ltac decode_one :=
  rewrite decode_char by (Z.to_euclidean_division_equations; lia);
  match goal with |- context [if ?b then _ else _] => let v := eval vm_compute in b in change b with v end; cbn match.

Lemma decode_triplet x y z src c dst : byte x -> byte y -> byte z ->
  exists c', c' <> 61 /\ decode_loop (base64_encode_triplet b64table [x; y; z] 3 ++ src) c 0 0 dst = decode_loop src c' 0 0 (dst ++ [x; y; z]).
Proof.
  intros Hx Hy Hz. unfold base64_encode_triplet. cbn [Z.ltb Z.compare Pos.compare Pos.compare_cont].
  change (at_ [x; y; z] 0) with x. change (at_ [x; y; z] 1) with y. change (at_ [x; y; z] 2) with z.
  destruct (sextets x y z Hx Hy Hz) as (-> & -> & -> & ->). unfold byte in *. cbn [app].
  exists (at_ b64table (z mod 64)). split; [apply b64_entry, Z.mod_pos_bound; done|].
  do 4 decode_one. f_equal. f_equal.
  repeat rewrite Z.shiftl_mul_pow2 by done. f_equal; [|f_equal; [|f_equal]]; to_arith.
Qed.

Lemma decode_pair x y c dst : byte x -> byte y ->
  decode_end (decode_loop (base64_encode_triplet b64table [x; y] 2) c 0 0 dst) = dst ++ [x; y].
Proof.
  intros Hx Hy. unfold base64_encode_triplet. cbn [Z.ltb Z.compare Pos.compare Pos.compare_cont].
  change (at_ [x; y] 0) with x. change (at_ [x; y] 1) with y.
  destruct (sextets x y 0 Hx Hy) as (-> & -> & E & _); [done|]. change ((0 .& 0xC0) >> 6) with 0 in E. rewrite E.
  unfold byte in *. do 3 decode_one. cbn [decode_loop]. change (schar 61 =? 61) with true.
  cbn [decode_end Z.eqb Pos.eqb]. repeat rewrite Z.shiftl_mul_pow2 by done. f_equal. apply f_equal2; [|apply f_equal2; [|done]]; to_arith.
Qed.

Lemma decode_single x c dst : byte x ->
  decode_end (decode_loop (base64_encode_triplet b64table [x] 1) c 0 0 dst) = dst ++ [x].
Proof.
  intros Hx. unfold base64_encode_triplet. cbn [Z.ltb Z.compare Pos.compare Pos.compare_cont].
  change (at_ [x] 0) with x. destruct (sextets x 0 0 Hx) as (-> & E & _); [done|done|]. change ((0 .& 0xF0) >> 4) with 0 in E. rewrite E.
  unfold byte in *. do 2 decode_one. cbn [decode_loop]. change (schar 61 =? 61) with true.
  cbn [decode_end Z.eqb Pos.eqb]. repeat rewrite Z.shiftl_mul_pow2 by done. f_equal. apply f_equal2; [|done]. to_arith.
Qed.

(** Induction by triplets. *)
Lemma triplet_ind (P : list Z -> Prop) :
  P [] -> (forall x, P [x]) -> (forall x y, P [x; y]) -> (forall x y z l, P l -> P (x :: y :: z :: l)) -> forall l, P l.
Proof.
  intros H0 H1 H2 H3. assert (forall l, P l /\ (forall x, P (x :: l)) /\ (forall x y, P (x :: y :: l))) as H; [|apply H].
  induction l as [|a l (IH1 & IH2 & IH3)]; [done|]. split; [done|]. split; [done|]. intros x y. by apply H3.
Qed.

Lemma decode_encode s : forall c dst, Forall byte s -> c <> 61 ->
  decode_end (decode_loop (base64_encode s) c 0 0 dst) = dst ++ s.
Proof.
  induction s as [|x|x y|x y z s IH] using triplet_ind; intros c dst Hs Hc; repeat (apply list.Forall_cons in Hs as [? Hs]).
  - cbn. rewrite (proj2 (Z.eqb_neq c 61)) by done. by rewrite app_nil_r.
  - by apply decode_single.
  - by apply decode_pair.
  - unfold base64_encode. cbn [base64_encode_table]. destruct (decode_triplet x y z (base64_encode_table b64table s) c dst) as (c' & Hc' & ->); [done..|].
    fold (base64_encode s). rewrite IH by done. by rewrite <- (assoc_L (++)).
Qed.

(** What is not of the alphabet is skipped, so that encoded text may be broken into lines. *)
Definition kept (s : Z) : Prop := schar s = 61 \/ not_b64 (schar s) = false.
#[local] Instance kept_dec s : Decision (kept s).
Proof. unfold kept. apply _. Defined.

Lemma decode_loop_skips src : forall c c' bits n dst, c <> 61 -> c' <> 61 ->
  decode_end (decode_loop src c bits n dst) = decode_end (decode_loop (filter kept src) c' bits n dst).
Proof.
  induction src as [|s src IH]; intros c c' bits n dst Hc Hc'.
  - cbn. by rewrite !(proj2 (Z.eqb_neq _ 61)).
  - rewrite filter_cons. destruct (Z.eqb_spec (schar s) 61) as [E|E].
    + rewrite decide_True by (by left). cbn [decode_loop]. by rewrite E.
    + destruct (not_b64 (schar s)) eqn:En.
      * rewrite decide_False by (intros [|]; congruence). cbn [decode_loop].
        rewrite (proj2 (Z.eqb_neq _ _) E), En. by apply IH.
      * rewrite decide_True by (by right). cbn [decode_loop]. rewrite (proj2 (Z.eqb_neq _ _) E), En.
        destruct (n + 1 =? 4); by apply IH.
Qed.

(** Encoded bytes decode to themselves, also when the text was broken up by characters
    that are not in the alphabet. *)
Theorem base64_roundtrip (s text : list Z) :
  Forall byte s -> filter kept text = base64_encode s -> base64_decode text = s.
Proof.
  intros Hs E. unfold base64_decode. rewrite (decode_loop_skips text 0 0) by done. rewrite E. by rewrite decode_encode.
Qed.

Lemma decode_loop_count src : forall c bits n dst q, c <> 61 -> 0 <= n < 4 -> size dst = 3 * q ->
  exists c' bits' n' dst' q', decode_loop src c bits n dst = (c', bits', n', dst') /\ 0 <= n' < 4 /\ size dst' = 3 * q' /\
    4 * q' + n' + (if c' =? 61 then 1 else 0) <= 4 * q + n + size src.
Proof.
  induction src as [|s src IH]; intros c bits n dst q Hc Hn Hd.
  - exists c, bits, n, dst, q. rewrite (proj2 (Z.eqb_neq c 61)) by done. unfold size. simpl. split; [done|]. split; [done|]. split; [done|]. lia.
  - cbn [decode_loop]. assert (size (s :: src) = size src + 1) as -> by (unfold size; simpl; lia).
    destruct (Z.eqb_spec (schar s) 61) as [E|E].
    + exists (schar s), bits, n, dst, q. rewrite E. split; [done|]. split; [done|]. split; [done|]. unfold size. simpl. lia.
    + destruct (not_b64 (schar s)); [|destruct (Z.eqb_spec (n + 1) 4)].
      * destruct (IH (schar s) bits n dst q) as (c' & b' & n' & d' & q' & H1 & H2 & H3 & H4); [done..|].
        exists c', b', n', d', q'. split; [done|]. split; [done|]. split; [done|]. lia.
      * destruct (IH (schar s) 0 0 (dst ++ [u8 ((bits + at_ deb64table (schar s - 43)) >> 16);
          u8 (((bits + at_ deb64table (schar s - 43)) >> 8) .& 0xff); u8 ((bits + at_ deb64table (schar s - 43)) .& 0xff)]) (q + 1))
          as (c' & b' & n' & d' & q' & H1 & H2 & H3 & H4); [done|lia|rewrite size_app, Hd; unfold size; simpl; lia|].
        exists c', b', n', d', q'. split; [done|]. split; [done|]. split; [done|]. lia.
      * destruct (IH (schar s) ((bits + at_ deb64table (schar s - 43)) << 6) (n + 1) dst q) as (c' & b' & n' & d' & q' & H1 & H2 & H3 & H4); [done|lia|done|].
        exists c', b', n', d', q'. split; [done|]. split; [done|]. split; [done|]. lia.
Qed.

Lemma decode_fits src : size (base64_decode src) <= BASE64DECODE_NEEDED (size src).
Proof.
  unfold base64_decode. destruct (decode_loop_count src 0 0 0 [] 0) as (c & bits & n & dst & q & -> & Hn & Hd & Hq); [done..|].
  unfold BASE64DECODE_NEEDED. rewrite Z.quot_div_nonneg by (unfold size; lia).
  assert (4 * q + n + (if c =? 61 then 1 else 0) <= size src) by lia. pose proof (Z.div_mod (size src) 4) as Hdiv.
  pose proof (Z.mod_pos_bound (size src) 4). cbn [decode_end]. destruct (c =? 61); [|lia].
  destruct (Z.eqb_spec n 2); [rewrite size_app, Hd; unfold size at 1; simpl; lia|].
  destruct (Z.eqb_spec n 3); [rewrite size_app, Hd; unfold size at 1; simpl; lia|]. lia.
Qed.

Lemma size_encode_triplet table l n : size (base64_encode_triplet table l n) = 4.
Proof. done. Qed.

Lemma encode_length table s : size (base64_encode_table table s) = base64_encode_len (size s).
Proof.
  unfold base64_encode_len. induction s as [|x|x y|x y z s IH] using triplet_ind; [done..|].
  cbn [base64_encode_table]. rewrite size_app, IH, size_encode_triplet.
  rewrite !Z.quot_div_nonneg by (unfold size; simpl; lia).
  replace (size (x :: y :: z :: s) + 2) with (size s + 2 + 1 * 3) by (unfold size; simpl; lia). rewrite Z.div_add by done. lia.
Qed.

(** The allocations are large enough for any input, and what they hold are the encoded
    or decoded bytes followed by zeros. *)
Theorem base64_new_fits (s : list Z) :
  (exists pad, base64_encode_new (Some s) = Some (Some (base64_encode s ++ [0] ++ pad), size (base64_encode s))) /\
  (exists pad, base64_decode_new (Some s) = Some (Some (base64_decode s ++ pad), size (base64_decode s))).
Proof.
  unfold base64_encode_new, base64_decode_new, filled, base64_encode. split; eexists.
  - rewrite size_app, encode_length. rewrite (proj2 (Z.leb_le _ _)) by (unfold BASE64_NEEDED, base64_encode_len, size; simpl; lia).
    cbn [mbind option_bind]. by rewrite <- (assoc_L (++)).
  - by rewrite (proj2 (Z.leb_le _ _)) by apply decode_fits.
Qed.

(** A text that lacks one of two padding characters fills its allocation: the decoded
    string has no terminator. *)
Theorem base64_decode_unterminated : base64_decode_new (Some (bytes "QQ=")) = Some (Some [65], 1).
Proof. by vm_compute. Qed.

(** ** URLs *)

Definition url_char (escapes : Z -> bool) (c : Z) : list Z := if escapes c then percent c else [c].

Lemma encode_loop_spec junk escapes str : forall b s,
  holds b s -> growable b -> size s + 3 * size str + 1 <= 2 ^ 29 ->
  exists b', encode_loop junk escapes b str = Some b' /\ holds b' (s ++ concat (map (url_char escapes) str)) /\ growable b'.
Proof.
  induction str as [|c str IH]; intros b s Hh Hg Hn; [exists b; cbn; by rewrite app_nil_r|].
  assert (size (c :: str) = size str + 1) as E by (unfold size; simpl; lia). rewrite E in Hn. pose proof (Nat2Z.is_nonneg (length str)).
  cbn [encode_loop map concat]. unfold url_char at 1. destruct (escapes c).
  - destruct (vbufcat_grows junk b s (percent c)) as (b1 & -> & H1 & H2 & _); [done|done|unfold size in *; simpl; lia|].
    cbn [mbind option_bind]. destruct (IH b1 (s ++ percent c)) as (b' & -> & H3 & H4); [done|done|rewrite size_app; unfold size in *; simpl; lia|].
    exists b'. by rewrite (assoc_L (++)).
  - destruct (bufwrite_grows junk b s [c]) as (b1 & -> & H1 & H2 & _); [done|done|unfold size in *; simpl; lia|].
    cbn [mbind option_bind]. destruct (IH b1 (s ++ [c])) as (b' & -> & H3 & H4); [done|done|rewrite size_app; unfold size in *; simpl; lia|].
    exists b'. by rewrite (assoc_L (++)).
Qed.

(** What decoding needs of the escapes: escaped bytes read back, and the others are
    neither special nor stop characters. *)
Definition decodable (escapes : Z -> bool) (stopchars : option (list Z)) : Prop :=
  (forall c, byte c -> escapes c = false -> c <> 37 /\ c <> 43 /\ is_stop stopchars c = false) /\ is_stop stopchars 37 = false.

Lemma percent_decodes c : byte c ->
  isxdigit (hex_upper (c >> 4)) = true /\ isxdigit (hex_upper (c .& 15)) = true /\
  u8 (url_xdigit (hex_upper (c >> 4)) * 16 + url_xdigit (hex_upper (c .& 15))) = c.
Proof.
  intros Hc. pose proof (forall_below 256 (fun c => isxdigit (hex_upper (c >> 4)) && isxdigit (hex_upper (c .& 15)) &&
    (u8 (url_xdigit (hex_upper (c >> 4)) * 16 + url_xdigit (hex_upper (c .& 15))) =? c)) ltac:(by vm_compute) c Hc) as H.
  cbn beta in H. apply andb_prop in H as [[-> ->]%andb_prop H%Z.eqb_eq]. done.
Qed.

Lemma decode_plain c r left stop unsafe k :
  c <> 37 -> c <> 43 -> is_stop stop c = false -> 0 < left ->
  url_decode_loop (c :: r) left stop unsafe k =
  let '(done, rest, k) := url_decode_loop r (left - 1) stop unsafe (check_step k c) in (c :: done, rest, k).
Proof.
  intros H1 H2 H3 H4. cbn [url_decode_loop]. rewrite H3, (proj2 (Z.leb_gt _ _)), (proj2 (Z.eqb_neq c 37)), (proj2 (Z.eqb_neq c 43)) by done.
  cbn [orb andb]. by destruct r as [|? [|? ?]].
Qed.

(** Escaped text decodes to the bytes it was made of, up to the control characters that
    are made safe, and decoding stops at what follows it. *)
Lemma decode_escaped escapes stop unsafe s : decodable escapes stop -> Forall byte s -> forall tl left k,
  size (concat (map (url_char escapes) s)) <= left -> tl = [] \/ (exists c r, tl = c :: r /\ is_stop stop c = true) ->
  url_decode_loop (concat (map (url_char escapes) s) ++ tl) left stop unsafe k =
  let s' := map (fun c => if escapes c then make_safe unsafe c else c) s in
  (s', tl, fold_left check_step s' k).
Proof.
  intros [Hd H37] Hs. induction Hs as [|c s Hc _ IH]; intros tl left k Hl Htl.
  - cbn. destruct Htl as [->|(c & r & -> & Hc)]; [done|]. cbn [url_decode_loop]. by rewrite Hc, orb_true_r.
  - cbn [map concat] in *. assert (url_char escapes c = if escapes c then percent c else [c]) as Eu by done. rewrite Eu in *. clear Eu.
    destruct (escapes c) eqn:Ee.
    + destruct (percent_decodes c Hc) as (P1 & P2 & P3). unfold percent in *. cbn [app url_decode_loop].
      assert (size (37 :: hex_upper (c >> 4) :: hex_upper (c .& 15) :: concat (map (url_char escapes) s)) = size (concat (map (url_char escapes) s)) + 3) as E
        by (unfold size; simpl; lia). cbn [app] in Hl. rewrite E in Hl. pose proof (Nat2Z.is_nonneg (length (concat (map (url_char escapes) s)))).
      rewrite H37, (proj2 (Z.leb_gt _ _)), P1, P2, P3 by (unfold size in Hl; lia). cbn [orb andb Z.eqb Pos.eqb].
      rewrite IH by (done || lia). done.
    + destruct (Hd c Hc Ee) as (P1 & P2 & P3). cbn [app] in *.
      assert (size (c :: concat (map (url_char escapes) s)) = size (concat (map (url_char escapes) s)) + 1) as E by (unfold size; simpl; lia).
      rewrite E in Hl. pose proof (Nat2Z.is_nonneg (length (concat (map (url_char escapes) s)))).
      rewrite decode_plain by (done || (unfold size in Hl; lia)). rewrite IH by (done || lia). done.
Qed.

(** *** The check for UTF-8 *)

Definition follows (c : Z) : Prop := c .& 0xC0 = 0x80.

(** The texts that pass: whole characters, in no more bytes than needed; of the
    characters of four bytes any is accepted. *)
Inductive utf8_text : list Z -> Prop :=
  | text_nil : utf8_text []
  | text_one c s : c .& 0x80 = 0 -> utf8_text s -> utf8_text (c :: s)
  | text_two a b s :
      a .& 0xE0 = 0xC0 -> follows b -> 0x80 <= (a .& 0x1F) << 6 .| (b .& 0x3F) -> utf8_text s -> utf8_text (a :: b :: s)
  | text_three a b c s :
      a .& 0xF0 = 0xE0 -> follows b -> follows c -> 0x800 <= ((a .& 0x1F) << 6 .| (b .& 0x3F)) << 6 .| (c .& 0x3F) ->
      utf8_text s -> utf8_text (a :: b :: c :: s)
  | text_four a b c d s :
      a .& 0xF8 = 0xF0 -> follows b -> follows c -> follows d -> utf8_text s -> utf8_text (a :: b :: c :: d :: s).

Definition check_all (s : list Z) (k : utf8_check) : bool := check_done (fold_left check_step s k).

Lemma check_bad s k : is_utf8 k = false -> check_all s k = false.
Proof.
  unfold check_all. induction s as [|c s IH] in k |- *; intros Hk; cbn [fold_left]; [unfold check_done; by rewrite Hk|].
  assert (check_step k c = k) as -> by (unfold check_step; by rewrite Hk). by apply IH.
Qed.

(** The masks of the classes exclude each other. *)
Lemma byte_classes c : byte c ->
  (follows c -> c .& 0x80 <> 0) /\
  (c .& 0xE0 = 0xC0 -> c .& 0x80 <> 0 /\ c .& 0xC0 <> 0x80) /\
  (c .& 0xF0 = 0xE0 -> c .& 0x80 <> 0 /\ c .& 0xC0 <> 0x80 /\ c .& 0xE0 <> 0xC0) /\
  (c .& 0xF8 = 0xF0 -> c .& 0x80 <> 0 /\ c .& 0xC0 <> 0x80 /\ c .& 0xE0 <> 0xC0 /\ c .& 0xF0 <> 0xE0).
Proof.
  intros Hc. pose proof (forall_below 256 (fun c =>
    Nat.leb (length (filter Is_true [c .& 0x80 =? 0; c .& 0xC0 =? 0x80; c .& 0xE0 =? 0xC0; c .& 0xF0 =? 0xE0; c .& 0xF8 =? 0xF0])) 1)
    ltac:(by vm_compute) c Hc) as H. cbn beta in H. unfold follows.
  destruct (Z.eqb_spec (c .& 0x80) 0), (Z.eqb_spec (c .& 0xC0) 0x80), (Z.eqb_spec (c .& 0xE0) 0xC0),
    (Z.eqb_spec (c .& 0xF0) 0xE0), (Z.eqb_spec (c .& 0xF8) 0xF0); first [discriminate H|clear H; tauto].
Qed.

(** One continuation byte, or the end of the check. *)
Lemma check_cont s t m u : 0 < t ->
  check_all s (mk_check true t m u) = true ->
  exists b r, s = b :: r /\ follows b /\
    (t = 1 -> m <= u << 6 .| (b .& 0x3F)) /\ check_all r (mk_check true (t - 1) m (u << 6 .| (b .& 0x3F))) = true.
Proof.
  intros Ht. destruct s as [|b r].
  - unfold check_all, check_done. cbn [fold_left is_utf8 trailing andb]. rewrite (proj2 (Z.ltb_lt 0 t)) by done. done.
  - intros H. exists b, r. split; [done|]. revert H. unfold check_all. cbn [fold_left]. fold (check_all r (check_step (mk_check true t m u) b)).
    unfold check_step, follows. cbn [is_utf8 negb trailing minuch uch]. rewrite (proj2 (Z.ltb_lt 0 t)) by done.
    destruct (Z.eqb_spec (b .& 0x80) 0); [by rewrite check_bad|]. destruct (Z.eqb_spec (b .& 0xC0) 0x80); [|by rewrite check_bad].
    rewrite (proj2 (Z.ltb_ge (t - 1) 0)) by lia.
    destruct (Z.eqb_spec (t - 1) 0), (Z.ltb_spec (u << 6 .| (b .& 0x3F)) m); cbn [andb]; intros Hr;
      first [by rewrite check_bad in Hr|split; [done|]; split; [intros ->; (done || lia)|exact Hr]].
Qed.

Lemma check_cont_ok b r t m u : byte b -> 0 < t -> follows b -> (t = 1 -> m <= u << 6 .| (b .& 0x3F)) ->
  check_all (b :: r) (mk_check true t m u) = check_all r (mk_check true (t - 1) m (u << 6 .| (b .& 0x3F))).
Proof.
  intros Hb Ht Hf Hm. unfold check_all at 1. cbn [fold_left]. fold (check_all r (check_step (mk_check true t m u) b)).
  unfold check_step. cbn [is_utf8 negb trailing minuch uch].
  pose proof (proj1 (byte_classes b Hb) Hf) as H1.
  rewrite (proj2 (Z.eqb_neq _ _) H1), (proj2 (Z.eqb_eq _ _) Hf), (proj2 (Z.ltb_ge (t - 1) 0)) by lia.
  destruct (Z.eqb_spec (t - 1) 0) as [E|]; [|done]. rewrite (proj2 (Z.ltb_ge _ _)) by (apply Hm; lia). done.
Qed.

Lemma four_always a b c d : a .& 0xF8 = 0xF0 ->
  0x10000 <= (((a .& 0x1F) << 6 .| (b .& 0x3F)) << 6 .| (c .& 0x3F)) << 6 .| (d .& 0x3F).
Proof.
  intros Ha. pose proof (low6 b). pose proof (low6 c). pose proof (low6 d).
  assert (Z.testbit (a .& 0x1F) 4 = true) as Hbit.
  { assert (Z.testbit (a .& 0xF8) 4 = true) as H4 by (by rewrite Ha). rewrite Z.land_spec in H4 |- *.
    apply andb_prop in H4 as [-> _]. done. }
  assert (0 <= a .& 0x1F < 32) as Hr by (change 0x1F with (Z.ones 5); rewrite Z.land_ones by done; apply Z.mod_pos_bound; done).
  assert (16 <= a .& 0x1F) as H16.
  { pose proof (forall_below 32 (fun x => negb (Z.testbit x 4) || (16 <=? x)) ltac:(by vm_compute) (a .& 0x1F) Hr) as H2.
    cbn beta in H2. rewrite Hbit in H2. cbn [negb orb] in H2. lia. }
  rewrite !shl_lor by lia. lia.
Qed.

Lemma check_lead c r m u : check_all (c :: r) (mk_check true 0 m u) = check_all r (
  if c .& 0x80 =? 0 then mk_check true 0 m u
  else if c .& 0xC0 =? 0x80 then bad (mk_check true (-1) m (u << 6 .| (c .& 0x3F)))
  else if c .& 0xE0 =? 0xC0 then mk_check true 1 0x80 (c .& 0x1F)
  else if c .& 0xF0 =? 0xE0 then mk_check true 2 0x800 (c .& 0x1F)
  else if c .& 0xF8 =? 0xF0 then mk_check true 3 0x10000 (c .& 0x1F)
  else bad (mk_check true 0 m u)).
Proof. done. Qed.

Lemma text_checks s : utf8_text s -> Forall byte s -> forall m u, check_all s (mk_check true 0 m u) = true.
Proof.
  induction 1 as [|c s Hc _ IH|a b s Ha Hb Hv _ IH|a b c s Ha Hb Hc Hv _ IH|a b c d s Ha Hb Hc Hd _ IH]; intros Hs m u; [done|..];
    apply list.Forall_cons in Hs as [Hbyte Hs]; repeat (apply list.Forall_cons in Hs as [? Hs]); rewrite check_lead;
    try (destruct (byte_classes _ Hbyte) as (_ & L2 & L3 & L4)).
  - rewrite Hc. by apply IH.
  - destruct (L2 Ha) as (N1 & N2). rewrite (proj2 (Z.eqb_neq _ _) N1), (proj2 (Z.eqb_neq _ _) N2), (proj2 (Z.eqb_eq _ _) Ha).
    rewrite check_cont_ok by done. by apply IH.
  - destruct (L3 Ha) as (N1 & N2 & N3).
    rewrite (proj2 (Z.eqb_neq _ _) N1), (proj2 (Z.eqb_neq _ _) N2), (proj2 (Z.eqb_neq _ _) N3), (proj2 (Z.eqb_eq _ _) Ha).
    do 2 (rewrite check_cont_ok by (done || lia)). by apply IH.
  - destruct (L4 Ha) as (N1 & N2 & N3 & N4).
    rewrite (proj2 (Z.eqb_neq _ _) N1), (proj2 (Z.eqb_neq _ _) N2), (proj2 (Z.eqb_neq _ _) N3), (proj2 (Z.eqb_neq _ _) N4), (proj2 (Z.eqb_eq _ _) Ha).
    do 2 (rewrite check_cont_ok by (done || lia)). rewrite check_cont_ok; [|done|lia|done|intros _; by apply four_always]. by apply IH.
Qed.

Lemma checks_text n : forall s m u, (length s < n)%nat -> check_all s (mk_check true 0 m u) = true -> utf8_text s.
Proof.
  induction n as [|n IH]; intros s m u Hn; [lia|]. destruct s as [|a s]; [constructor|]. rewrite check_lead. simpl in Hn.
  destruct (Z.eqb_spec (a .& 0x80) 0); [intros H; constructor; [done|]; eapply IH; [|done]; lia|].
  destruct (_ =? 0x80); [by rewrite check_bad|].
  destruct (Z.eqb_spec (a .& 0xE0) 0xC0); [|destruct (Z.eqb_spec (a .& 0xF0) 0xE0); [|destruct (Z.eqb_spec (a .& 0xF8) 0xF0); [|by rewrite check_bad]]].
  - intros (b & r & -> & Hb & Hv & H)%check_cont; [|lia]. constructor; [done|done|by apply Hv|]. eapply IH; [|exact H]. simpl in Hn. lia.
  - intros (b & r & -> & Hb & _ & H)%check_cont; [|lia]. apply check_cont in H as (c & r' & -> & Hc & Hv & H); [|lia].
    constructor; [done|done|done|by apply Hv|]. eapply IH; [|exact H]. simpl in Hn. lia.
  - intros (b & r & -> & Hb & _ & H)%check_cont; [|lia]. apply check_cont in H as (c & r' & -> & Hc & _ & H); [|lia].
    apply check_cont in H as (d & r'' & -> & Hd & _ & H); [|lia].
    constructor; [done..|]. eapply IH; [|exact H]. simpl in Hn. lia.
Qed.

(** The characters that are left alone neither stop the decoder nor mean anything to it. *)
Lemma url_decodable : decodable url_escapes (Some [38]).
Proof.
  split; [|by vm_compute]. intros c Hc. pose proof (forall_below 256 (fun c =>
    url_escapes c || (negb (c =? 37) && negb (c =? 43) && negb (is_stop (Some [38]) c))) ltac:(by vm_compute) c Hc) as Hf.
  cbn beta in Hf. intros E. rewrite E in Hf. cbn [orb] in Hf. apply andb_prop in Hf as [[H1 H2]%andb_prop H3%negb_true_iff].
  apply negb_true_iff, Z.eqb_neq in H1, H2. done.
Qed.

Lemma postdata_decodable : decodable postdata_escapes (Some [38]).
Proof.
  split; [|by vm_compute]. intros c Hc. pose proof (forall_below 256 (fun c =>
    postdata_escapes c || (negb (c =? 37) && negb (c =? 43) && negb (is_stop (Some [38]) c))) ltac:(by vm_compute) c Hc) as Hf.
  cbn beta in Hf. intros E. rewrite E in Hf. cbn [orb] in Hf. apply andb_prop in Hf as [[H1 H2]%andb_prop H3%negb_true_iff].
  apply negb_true_iff, Z.eqb_neq in H1, H2. done.
Qed.

(** Decoding what was encoded gives the bytes back and stops where they end, and it
    tells whether they are UTF-8 text. *)
Theorem url_roundtrip (junk : nat -> list Z) (str tl : list Z) :
  Forall byte str -> 3 * size str + 1 <= 2 ^ 29 -> tl = [] \/ (exists r, tl = 38 :: r) ->
  (exists b enc ok, url_encode junk bs_null str = Some b /\ holds b enc /\
    url_decode (enc ++ tl) (-1) (Some [38]) true = (str, tl, ok) /\ (ok = true <-> utf8_text str)) /\
  (exists b enc ok, url_encode_postdata junk bs_null str = Some b /\ holds b enc /\
    url_decode (enc ++ tl) (-1) (Some [38]) true = (str, tl, ok) /\ (ok = true <-> utf8_text str)).
Proof.
  intros Hs Hn Htl.
  assert (forall escapes, decodable escapes (Some [38]) -> exists b enc ok, encode_loop junk escapes bs_null str = Some b /\ holds b enc /\
    url_decode (enc ++ tl) (-1) (Some [38]) true = (str, tl, ok) /\ (ok = true <-> utf8_text str)) as H.
  { intros escapes Hd. destruct (encode_loop_spec junk escapes str bs_null []) as (b & E & Hh & _); [done|by left|done|].
    exists b, (concat (map (url_char escapes) str)), (check_all str check_init). split; [done|]. split; [done|]. split.
    - unfold url_decode. cbn [Z.leb Z.compare]. rewrite decode_escaped; [|done|done|unfold size; rewrite length_app; lia|].
      + cbn zeta. rewrite (map_ext _ (fun c => c)), map_id; [done|]. intros c. by destruct (escapes c).
      + destruct Htl as [->|(r & ->)]; [by left|right]. exists 38, r. split; [done|]. by vm_compute.
    - split; [intros H; apply (checks_text (S (length str)) str 0 0); [lia|done]|]. intros H. by apply text_checks. }
  split; apply H; [apply url_decodable|apply postdata_decodable].
Qed.

(** The slash in four bytes passes the check: the value that is compared has a bit of the
    first byte that does not belong to the character. *)
Theorem url_overlong_accepted : url_decode (bytes "%F0%80%80%AF") (-1) None true = ([0xF0; 0x80; 0x80; 0xAF], [], true).
Proof. by vm_compute. Qed.

Lemma base64_roundtrip_witness : base64_decode (bytes "SGV" ++ [10] ++ bytes "sbG8=") = bytes "Hello".
Proof.
  apply (base64_roundtrip (bytes "Hello")); [|vm_compute; reflexivity].
  change (bytes "Hello") with [72; 101; 108; 108; 111]. repeat (apply List.Forall_cons; [split; [discriminate|reflexivity]|]). apply List.Forall_nil.
Defined.

Lemma url_roundtrip_witness : exists b enc ok, url_encode (fun _ => []) bs_null (bytes "a b&c") = Some b /\ holds b enc /\
  url_decode (enc ++ bytes "&x") (-1) (Some [38]) true = (bytes "a b&c", bytes "&x", ok) /\ (ok = true <-> utf8_text (bytes "a b&c")).
Proof.
  apply (url_roundtrip (fun _ => []) (bytes "a b&c") (bytes "&x")).
  - change (bytes "a b&c") with [97; 32; 98; 38; 99]. repeat (apply List.Forall_cons; [split; [discriminate|reflexivity]|]). apply List.Forall_nil.
  - vm_compute. discriminate.
  - right. exists (bytes "x"). reflexivity.
Defined.
