(* ===== verification/Latin.v ===== *)
(** Latin: conversion between UTF-8 and the eight-bit character sets, of
    src/util/lib/utf8.c.

    The tables are those of the source.  A string is the list of its bytes without the
    terminator; the converters that fill a buffer of the caller take its length. *)
From stdpp Require Import prelude list numbers.
From Stdlib Require Import ZArith Lia.
From S2P Require Import Prelude BufString Strings.

Local Open Scope Z_scope.

(** Code point, byte and encoding for the bytes from 0x80 on. *)
Definition translit : list (Z * Z * list Z) :=
  [(0x20ac, 0x80, [0xe2; 0x82; 0xac]); (0x0, 0x0, [63]); (0x201a, 0x82, [0xe2; 0x80; 0x9a]);
   (0x192, 0x83, [0xc6; 0x92]); (0x201e, 0x84, [0xe2; 0x80; 0x9e]); (0x2026, 0x85, [0xe2; 0x80; 0xa6]);
   (0x2020, 0x86, [0xe2; 0x80; 0xa0]); (0x2021, 0x87, [0xe2; 0x80; 0xa1]); (0x2c6, 0x88, [0xcb; 0x86]);
   (0x2030, 0x89, [0xe2; 0x80; 0xb0]); (0x160, 0x8a, [0xc5; 0xa0]); (0x2039, 0x8b, [0xe2; 0x80; 0xb9]);
   (0x152, 0x8c, [0xc5; 0x92]); (0x0, 0x0, [63]); (0x17d, 0x8e, [0xc5; 0xbd]); (0x0, 0x0, [63]);
   (0x0, 0x0, [63]); (0x2018, 0x91, [0xe2; 0x80; 0x98]); (0x2019, 0x92, [0xe2; 0x80; 0x99]);
   (0x201c, 0x93, [0xe2; 0x80; 0x9c]); (0x201d, 0x94, [0xe2; 0x80; 0x9d]);
   (0x2022, 0x95, [0xe2; 0x80; 0xa2]); (0x2013, 0x96, [0xe2; 0x80; 0x93]);
   (0x2014, 0x97, [0xe2; 0x80; 0x94]); (0x2dc, 0x98, [0xcb; 0x9c]); (0x2122, 0x99, [0xe2; 0x84; 0xa2]);
   (0x161, 0x9a, [0xc5; 0xa1]); (0x203a, 0x9b, [0xe2; 0x80; 0xba]); (0x153, 0x9c, [0xc5; 0x93]);
   (0x0, 0x0, [63]); (0x17e, 0x9e, [0xc5; 0xbe]); (0x178, 0x9f, [0xc5; 0xb8])].

(** Code point and encoding for the bytes from 0xA0 on; none where the code point is the byte. *)
Definition latin2_translit : list (Z * list Z) :=
  [(0, []); (0x0104, [0xc4; 0x84]); (0x02D8, [0xcb; 0x98]); (0x0141, [0xc5; 0x81]); (0, []);
   (0x013D, [0xc4; 0xbd]); (0x015A, [0xc5; 0x9a]); (0, []); (0, []); (0x0160, [0xc5; 0xa0]);
   (0x015E, [0xc5; 0x9e]); (0x0164, [0xc5; 0xa4]); (0x0179, [0xc5; 0xb9]); (0, []); (0x017D, [0xc5; 0xbd]);
   (0x017B, [0xc5; 0xbb]); (0, []); (0x0105, [0xc4; 0x85]); (0x02DB, [0xcb; 0x9b]); (0x0142, [0xc5; 0x82]);
   (0, []); (0x013E, [0xc4; 0xbe]); (0x015B, [0xc5; 0x9b]); (0x02C7, [0xcb; 0x87]); (0, []);
   (0x0161, [0xc5; 0xa1]); (0x015F, [0xc5; 0x9f]); (0x0165, [0xc5; 0xa5]); (0x017A, [0xc5; 0xba]);
   (0x02DD, [0xcb; 0x9d]); (0x017E, [0xc5; 0xbe]); (0x017C, [0xc5; 0xbc]); (0x0154, [0xc5; 0x94]); (0, []);
   (0, []); (0x0102, [0xc4; 0x82]); (0, []); (0x0139, [0xc4; 0xb9]); (0, []); (0, []);
   (0x010C, [0xc4; 0x8c]); (0, []); (0x0118, [0xc4; 0x98]); (0, []); (0x011A, [0xc4; 0x9a]); (0, []);
   (0, []); (0x010E, [0xc4; 0x8e]); (0x0110, [0xc4; 0x90]); (0x0143, [0xc5; 0x83]); (0x0147, [0xc5; 0x87]);
   (0, []); (0, []); (0x0150, [0xc5; 0x90]); (0, []); (0, []); (0x0158, [0xc5; 0x98]);
   (0x016E, [0xc5; 0xae]); (0, []); (0x0170, [0xc5; 0xb0]); (0, []); (0, []); (0x0162, [0xc5; 0xa2]);
   (0, []); (0x0155, [0xc5; 0x95]); (0, []); (0, []); (0x0103, [0xc4; 0x83]); (0, []);
   (0x013A, [0xc4; 0xba]); (0x0107, [0xc4; 0x87]); (0, []); (0x010D, [0xc4; 0x8d]); (0, []);
   (0x0119, [0xc4; 0x99]); (0, []); (0x011B, [0xc4; 0x9b]); (0, []); (0, []); (0x010F, [0xc4; 0x8f]);
   (0x0111, [0xc4; 0x91]); (0x0144, [0xc5; 0x84]); (0x0148, [0xc5; 0x88]); (0, []); (0, []);
   (0x0151, [0xc5; 0x91]); (0, []); (0, []); (0x0159, [0xc5; 0x99]); (0x016F, [0xc5; 0xaf]); (0, []);
   (0x0171, [0xc5; 0xb1]); (0, []); (0, []); (0x0163, [0xc5; 0xa3]); (0x02D9, [0xcb; 0x99])].

(** * To UTF-8 *)

(** The bytes counted for a character, and those written. *)
Definition latin1_char (c : Z) : Z * list Z :=
  if c .& 0xC0 =? 0xC0 then (2, [0xC3; u8 (0x80 + (c .& 0x3F))])
  else if c .& 0xA0 =? 0xA0 then (2, [0xC2; u8 (0x80 + (c .& 0x3F))])
  else if negb (c .& 0x80 =? 0) then (3, snd (nth (Z.to_nat (c .& 0x1f)) translit (0, 0, [])))
  else (1, [c]).

(** [send] is the distance to the end if there is one, [left] that to the end of the
    buffer: the characters converted and the bytes written. *)
Fixpoint latin1_loop (s : list Z) (send : option Z) (left : Z) : nat * list Z :=
  match s with
  | [] => (0%nat, [])
  | c :: s =>
    if match send with Some n => n <=? 0 | None => false end then (0%nat, []) else
    let '(need, enc) := latin1_char c in
    if left <=? need then (0%nat, [])
    else let '(n, out) := latin1_loop s (Z.pred <$> send) (left - size enc) in (S n, enc ++ out)
  end.

Definition latin1_to_utf8_buf (src : list Z) (slen dlen : Z) : nat * list Z :=
  latin1_loop src (if slen =? 0 then None else Some slen) dlen.

Definition latin1_width (c : Z) : Z :=
  if (c .& 0xC0 =? 0xC0) || (c .& 0xA0 =? 0xA0) then 2 else if negb (c .& 0x80 =? 0) then 3 else 1.

(** The room to allocate, counting the character at the end or the terminator. *)
Fixpoint count_width (mem : list Z) (end_ : option Z) : Z :=
  match mem with
  | [] => 0
  | c :: mem =>
    latin1_width c +
    (if match end_ with Some n => n <=? 0 | None => false end || (c =? 0) then 0 else count_width mem (Z.pred <$> end_))
  end.

(** The allocation and the length of the string in it. *)
Definition latin1_to_utf8 (src : list Z) (slen : Z) : list Z * Z :=
  let utf8len := count_width (src ++ [0]) (if 0 <=? slen then Some slen else None) in
  let '(_, out) := latin1_to_utf8_buf src (if 0 <=? slen then slen else 0) utf8len in
  (out ++ replicate (Z.to_nat utf8len - length out) 0, size out).

Definition latin2_char (ch : Z) : Z * list Z :=
  if 0xA0 <=? ch then
    let '(codepoint, enc) := nth (Z.to_nat (ch - 0xA0)) latin2_translit (0, []) in
    if negb (codepoint =? 0) then (2, enc) else (2, [0xC2 + ((ch >> 6) .& 1); 0x80 + (ch .& 0x3F)])
  else if negb (ch .& 0x80 =? 0) then (1, [63]) else (1, [ch]).

Fixpoint latin2_loop (s : list Z) (left : Z) : nat * list Z :=
  match s with
  | [] => (0%nat, [])
  | ch :: s =>
    let '(need, enc) := latin2_char ch in
    if left <=? need then (0%nat, []) else let '(n, out) := latin2_loop s (left - size enc) in (S n, enc ++ out)
  end.

Definition latin2_to_utf8_buf (src : list Z) (slen dlen : Z) : nat * list Z :=
  latin2_loop (take (Z.to_nat slen) src) dlen.

(** * From UTF-8 *)

Definition to_latin1 (c : Z) : Z :=
  if 255 <? c then
    match list_find (fun t => fst (fst t) = c) translit with
    | Some (_, (_, win1252, _)) => if win1252 =? 0 then 63 else win1252
    | None => 63
    end
  else c.

(** The index is compared with the size of the other table. *)
Definition to_latin2 (c : Z) : Z :=
  if 255 <? c then
    let '(i, c) := match list_find (fun t => fst t = c) latin2_translit with
                   | Some (i, _) => (i, 0xA0 + Z.of_nat i)
                   | None => (length latin2_translit, c)
                   end in
    if (i =? length translit)%nat then 63 else c
  else c.

(** [mem] is the memory from [src] on, [left] the distance to [end] and [dleft] that to
    [dend]. *)
Fixpoint from_utf8_loop (conv : Z -> Z) (fuel : nat) (mem : list Z) (left dleft : Z) : option (list Z) :=
  match fuel with
  | O => None
  | S fuel =>
    if (0 <? left) && (0 <? dleft) then
      '(c, k) ← utf8_char mem;
      out ← from_utf8_loop conv fuel (drop k mem) (left - Z.of_nat k) (dleft - 1);
      Some (u8 (conv c) :: out)
    else Some []
  end.

Definition utf8_to_latin1_buf (src : list Z) (slen dlen : Z) : option (list Z) :=
  from_utf8_loop to_latin1 (S (length src)) (src ++ [0]) slen (dlen - 1).

Definition utf8_to_latin1_len (src : list Z) (len : Z) : option (list Z) := utf8_to_latin1_buf src len (len + 1).
Definition utf8_to_latin1 (src : list Z) : option (list Z) := utf8_to_latin1_len src (size src).

Definition utf8_to_latin2_buf (src : list Z) (slen dlen : Z) : option (list Z) :=
  from_utf8_loop to_latin2 (S (length src)) (src ++ [0]) slen (dlen - 1).

Definition utf8_to_latin2_len (src : list Z) (len : Z) : option (list Z) := utf8_to_latin2_buf src len (len + 1).

(** * Proofs *)

(** ** To UTF-8 *)

(** The code point of a byte. *)
Definition latin1_codepoint (c : Z) : Z :=
  if (0x80 <=? c) && (c <? 0xA0) then
    let '(cp, _, _) := nth (Z.to_nat (c - 0x80)) translit (0, 0, []) in if cp =? 0 then 63 else cp
  else c.

Lemma latin1_char_spec c : byte c ->
  latin1_char c = (latin1_width c, write_utf8_char (latin1_codepoint c)) /\
  size (write_utf8_char (latin1_codepoint c)) <= latin1_width c <= 3 /\ 1 <= latin1_width c /\ 0 <= latin1_codepoint c < 0x10000.
Proof.
  intros Hc. pose proof (forall_below 256 (fun c =>
    bool_decide (latin1_char c = (latin1_width c, write_utf8_char (latin1_codepoint c))) &&
    ((size (write_utf8_char (latin1_codepoint c)) <=? latin1_width c) && (latin1_width c <=? 3) && (1 <=? latin1_width c)) &&
    ((0 <=? latin1_codepoint c) && (latin1_codepoint c <? 0x10000))) ltac:(by vm_compute) c Hc) as H. cbn beta in H.
  apply andb_prop in H as [[H1%bool_decide_eq_true H2]%andb_prop H3]. split; [done|]. lia.
Qed.

Definition encode1 (s : list Z) : list Z := concat (map (fun c => write_utf8_char (latin1_codepoint c)) s).

(** The width of a string, without its terminator. *)
Definition width (s : list Z) : Z := fold_right (fun c n => latin1_width c + n) 0 s.

Lemma width_nonneg s : Forall byte s -> 0 <= width s.
Proof. induction 1 as [|c s Hc _ IH]; cbn; [done|]. destruct (latin1_char_spec c Hc) as (_ & _ & ? & _). fold (width s). lia. Qed.

Lemma latin1_loop_all s : forall send left, Forall byte s -> width s < left -> match send with Some n => size s <= n | None => True end ->
  forall tl, match send with Some n => n = size s \/ tl = [] | None => tl = [] end ->
  latin1_loop (s ++ tl) send left = (length s, encode1 s).
Proof.
  induction s as [|c s IH]; intros send left Hs Hl Hn tl Htl.
  - destruct tl as [|c tl]; [done|]. destruct send as [n|]; [|done]. destruct Htl as [->|]; [|done]. done.
  - apply list.Forall_cons in Hs as [Hc Hs]. pose proof (width_nonneg s Hs). cbn [width fold_right] in Hl. fold (width s) in Hl.
    destruct (latin1_char_spec c Hc) as (E & Hw & Hw1 & _). cbn [app latin1_loop]. rewrite E.
    assert (match send with Some n => n <=? 0 | None => false end = false) as ->.
    { destruct send as [n|]; [|done]. unfold size in Hn. simpl in Hn. lia. }
    rewrite (proj2 (Z.leb_gt _ _)) by lia. rewrite IH; [done|done|lia|..].
    + destruct send as [n|]; [|done]. cbn [fmap option_fmap option_map]. unfold size in *. simpl in Hn. lia.
    + destruct send as [n|]; [|done]. cbn [fmap option_fmap option_map]. unfold size in *. simpl in Htl. destruct Htl as [->|]; [left; lia|by right].
Qed.

Lemma count_width_spec s : forall end_ tl, Forall char s -> Forall byte tl -> tl <> [] ->
  match end_ with Some n => size s <= n | None => True end -> width s < count_width (s ++ tl) end_.
Proof.
  induction s as [|c s IH]; intros end_ tl Hs Htl Hne Hn.
  - destruct tl as [|t tl]; [done|]. apply list.Forall_cons in Htl as [Ht Htl]. destruct (latin1_char_spec t Ht) as (_ & _ & ? & _).
    cbn [app count_width width fold_right]. destruct (_ || _); [lia|].
    assert (forall e, 0 <= count_width tl e) as Hpos; [|specialize (Hpos (Z.pred <$> end_)); lia].
    clear - Htl. induction Htl as [|x l Hx _ IH]; intros e; cbn [count_width]; [done|]. destruct (latin1_char_spec x Hx) as (_ & _ & ? & _).
    destruct (_ || _); [lia|]. specialize (IH (Z.pred <$> e)). lia.
  - apply list.Forall_cons in Hs as [Hc Hs]. cbn [app count_width width fold_right]. fold (width s).
    assert ((match end_ with Some n => n <=? 0 | None => false end || (c =? 0)) = false) as ->.
    { unfold char in Hc. rewrite (proj2 (Z.eqb_neq c 0)) by lia. destruct end_ as [n|]; [|done]. unfold size in Hn. simpl in Hn. lia. }
    apply Z.add_lt_mono_l. apply IH; [done..|]. destruct end_ as [n|]; [|done]. cbn [fmap option_fmap option_map].
    unfold size in *. simpl in Hn. lia.
Qed.

Lemma char_byte s : Forall char s -> Forall byte s.
Proof. intros Hs. apply (Forall_impl char); [done|]. unfold char, byte. lia. Qed.

(** Converting to UTF-8 writes the code point of every byte up to the given length, or to
    the end of the string, and a terminator: the allocation is large enough. *)
Theorem latin1_to_utf8_encodes (src : list Z) (slen : Z) :
  Forall char src ->
  let s := if 0 <=? slen then take (Z.to_nat slen) src else src in
  exists pad, latin1_to_utf8 src slen = (encode1 s ++ 0 :: pad, size (encode1 s)).
Proof.
  intros Hsrc s. unfold latin1_to_utf8, latin1_to_utf8_buf. set (e := if 0 <=? slen then Some slen else None).
  set (n := count_width (src ++ [0]) e).
  assert (exists tl, src = s ++ tl /\ match e with Some n => size s <= n | None => True end /\
    match e with Some n => n = size s \/ tl = [] | None => tl = [] end) as (tl & Esrc & H1 & H2).
  { unfold s, e. destruct (Z.leb_spec 0 slen); [|by exists []; rewrite app_nil_r].
    exists (drop (Z.to_nat slen) src). rewrite take_drop. split; [done|]. unfold size. rewrite length_take. split; [lia|].
    destruct (decide (length src <= Z.to_nat slen)%nat); [right; apply drop_ge; lia|left; lia]. }
  assert (Forall char s /\ Forall char tl) as [Hs Htl] by (rewrite Esrc in Hsrc; by apply Forall_app in Hsrc).
  assert (width s < n) as Hn.
  { unfold n. rewrite Esrc, <- (assoc_L (++)). apply count_width_spec; [done| | |done]; [|by destruct tl].
    apply Forall_app. split; [by apply char_byte|]. apply list.Forall_cons. by split; [|constructor]. }
  assert (exists k, latin1_loop src (if (if 0 <=? slen then slen else 0) =? 0 then None else Some (if 0 <=? slen then slen else 0)) n = (k, encode1 s)) as [k ->].
  { destruct (decide (slen = 0)) as [->|Hne].
    - cbn [Z.leb Z.compare Z.eqb]. exists 0%nat. unfold s. cbn [Z.to_nat take]. change (encode1 (take 0 src)) with (@nil Z).
      destruct src as [|c src]; [done|]. cbn [latin1_loop]. apply list.Forall_cons in Hsrc as [Hc _].
      destruct (latin1_char_spec c) as (E & _); [unfold char, byte in *; lia|]. rewrite E.
      rewrite (proj2 (Z.leb_le _ _)); [done|]. unfold n, e. cbn [app count_width Z.leb Z.compare orb]. lia.
    - exists (length s). rewrite Esrc. unfold e in *. destruct (Z.leb_spec 0 slen).
      + rewrite (proj2 (Z.eqb_neq slen 0)) by done. by apply latin1_loop_all; [apply char_byte|..].
      + apply latin1_loop_all; [by apply char_byte|done|done|done]. }
  assert (length (encode1 s) < Z.to_nat n)%nat as Hlen.
  { assert (size (encode1 s) <= width s) as Hw; [|unfold size in Hw; lia]. clear - Hs. unfold encode1. induction Hs as [|c s Hc _ IH]; [done|].
    destruct (latin1_char_spec c) as (_ & ? & _); [unfold char, byte in *; lia|].
    cbn [map concat width fold_right]. fold (width s). rewrite size_app. lia. }
  destruct (Z.to_nat n - length (encode1 s))%nat as [|j] eqn:E; [lia|]. exists (replicate j 0). done.
Qed.

(** ** From UTF-8 *)

Lemma reread_small ch : 0 <= ch < 0x10000 -> reread ch = ch.
Proof.
  intros H. unfold reread. rewrite (Zbits_above ch 16) by lia. rewrite (proj2 (Z.leb_gt _ _)) by lia. cbn [andb]. lia.
Qed.

Lemma size_write ch : 1 <= size (write_utf8_char ch) <= 4.
Proof. unfold write_utf8_char, size. repeat case_match; simpl; lia. Qed.

(** Text of the basic plane is read character by character. *)
Lemma from_utf8_written conv cps : forall fuel tl, Forall (fun ch => 0 <= ch < 0x10000) cps ->
  (length (concat (map write_utf8_char cps)) < fuel)%nat ->
  from_utf8_loop conv fuel (concat (map write_utf8_char cps) ++ tl) (size (concat (map write_utf8_char cps)))
    (size (concat (map write_utf8_char cps))) = Some (map (fun ch => u8 (conv ch)) cps).
Proof.
  assert (forall fuel tl dleft, Forall (fun ch => 0 <= ch < 0x10000) cps -> (length (concat (map write_utf8_char cps)) < fuel)%nat ->
    size (concat (map write_utf8_char cps)) <= dleft ->
    from_utf8_loop conv fuel (concat (map write_utf8_char cps) ++ tl) (size (concat (map write_utf8_char cps))) dleft =
    Some (map (fun ch => u8 (conv ch)) cps)) as H; [|intros; by apply H].
  induction cps as [|ch cps IH]; intros fuel tl dleft Hc Hf Hd; (destruct fuel as [|fuel]; [lia|]); [done|].
  apply list.Forall_cons in Hc as [Hch Hc]. cbn [map concat from_utf8_loop] in *. rewrite size_app in *.
  pose proof (size_write ch) as Hw. pose proof (Nat2Z.is_nonneg (length (concat (map write_utf8_char cps)))) as Hnn.
  change (Z.of_nat (length (concat (map write_utf8_char cps)))) with (size (concat (map write_utf8_char cps))) in Hnn.
  rewrite !(proj2 (Z.ltb_lt 0 _)) by lia. cbn [andb]. rewrite <- (assoc_L (++)). unfold utf8_char.
  rewrite utf8_char_write by (done || lia). cbn [mbind option_bind]. rewrite reread_small, drop_app_length by done.
  rewrite length_app in Hf. unfold size at 1 in Hw.
  replace (size (write_utf8_char ch) + size (concat (map write_utf8_char cps)) - Z.of_nat (length (write_utf8_char ch)))
    with (size (concat (map write_utf8_char cps))) by (unfold size; lia).
  rewrite IH; [done|done|unfold size in Hw; lia|unfold size in *; lia].
Qed.

(** The bytes that windows-1252 leaves undefined. *)
Definition undefined1 (c : Z) : bool := bool_decide (c ∈ [0x81; 0x8d; 0x8f; 0x90; 0x9d]).

(** A string that was converted to UTF-8 converts back, with a question mark for the
    bytes that have no character. *)
Theorem latin1_roundtrip (s : list Z) :
  Forall char s -> utf8_to_latin1 (encode1 s) = Some (map (fun c => if undefined1 c then 63 else c) s).
Proof.
  intros Hs. unfold utf8_to_latin1, utf8_to_latin1_len, utf8_to_latin1_buf, encode1.
  rewrite <- (map_map latin1_codepoint write_utf8_char). rewrite Z.add_simpl_r, from_utf8_written.
  - f_equal. rewrite map_map. apply map_ext_in. intros c Hc. apply list_elem_of_In in Hc.
    pose proof (proj1 (list.Forall_forall _ _) (char_byte s Hs) c Hc) as Hb.
    pose proof (forall_below 256 (fun c => u8 (to_latin1 (latin1_codepoint c)) =? (if undefined1 c then 63 else c)) ltac:(by vm_compute) c Hb) as H.
    cbn beta in H. by apply Z.eqb_eq in H.
  - apply Forall_map. apply (Forall_impl byte); [by apply char_byte|]. intros c Hc. by destruct (latin1_char_spec c Hc) as (_ & _ & _ & ?).
  - lia.
Qed.

Definition latin2_codepoint (c : Z) : Z :=
  if 0xA0 <=? c then let '(cp, _) := nth (Z.to_nat (c - 0xA0)) latin2_translit (0, []) in if cp =? 0 then c else cp
  else if 0x80 <=? c then 63 else c.

Definition encode2 (s : list Z) : list Z := concat (map (fun c => write_utf8_char (latin2_codepoint c)) s).

Lemma latin2_char_spec c : byte c ->
  latin2_char c = (size (write_utf8_char (latin2_codepoint c)), write_utf8_char (latin2_codepoint c)) /\ 0 <= latin2_codepoint c < 0x10000.
Proof.
  intros Hc. pose proof (forall_below 256 (fun c =>
    bool_decide (latin2_char c = (size (write_utf8_char (latin2_codepoint c)), write_utf8_char (latin2_codepoint c))) &&
    ((0 <=? latin2_codepoint c) && (latin2_codepoint c <? 0x10000))) ltac:(by vm_compute) c Hc) as H. cbn beta in H.
  apply andb_prop in H as [H1%bool_decide_eq_true H2]. split; [done|]. lia.
Qed.

Lemma latin2_loop_all s : forall left, Forall byte s -> size (encode2 s) < left -> latin2_loop s left = (length s, encode2 s).
Proof.
  induction s as [|c s IH]; intros left Hs Hl; [done|]. apply list.Forall_cons in Hs as [Hc Hs].
  unfold encode2 in *. cbn [map concat latin2_loop] in *. rewrite size_app in Hl. destruct (latin2_char_spec c Hc) as (-> & _).
  assert (0 <= size (concat (map (fun c => write_utf8_char (latin2_codepoint c)) s))) by (unfold size; lia).
  rewrite (proj2 (Z.leb_gt _ _)) by lia. rewrite IH by (done || lia). done.
Qed.

(** A string that was converted to UTF-8 with enough room converts back, except for the
    bytes without a character and one that the other table hides. *)
Theorem latin2_roundtrip (s : list Z) (dlen : Z) :
  Forall byte s -> size (encode2 s) < dlen ->
  latin2_to_utf8_buf s (size s) dlen = (length s, encode2 s) /\
  utf8_to_latin2_len (encode2 s) (size (encode2 s)) =
    Some (map (fun c => if ((0x80 <=? c) && (c <? 0xA0)) || (c =? 0xC0) then 63 else c) s).
Proof.
  intros Hs Hd. split.
  - unfold latin2_to_utf8_buf. rewrite take_ge by (unfold size; lia). by apply latin2_loop_all.
  - unfold utf8_to_latin2_len, utf8_to_latin2_buf, encode2. rewrite <- (map_map latin2_codepoint write_utf8_char).
    rewrite Z.add_simpl_r, from_utf8_written.
    + f_equal. rewrite map_map. apply map_ext_in. intros c Hc. apply list_elem_of_In in Hc.
      pose proof (proj1 (list.Forall_forall _ _) Hs c Hc) as Hb.
      pose proof (forall_below 256 (fun c => u8 (to_latin2 (latin2_codepoint c)) =? (if ((0x80 <=? c) && (c <? 0xA0)) || (c =? 0xC0) then 63 else c))
        ltac:(by vm_compute) c Hb) as H. cbn beta in H. by apply Z.eqb_eq in H.
    + apply Forall_map. apply (Forall_impl byte); [done|]. intros c Hc. by destruct (latin2_char_spec c Hc) as (_ & ?).
    + lia.
Qed.

(** The letter at 0xC0 does not convert back, the one at 0xC6 is taken for another, and
    a character outside the set becomes the low byte of its code point. *)
Theorem latin2_defects :
  utf8_to_latin2_len (encode2 [0xC0]) 2 = Some [63] /\
  encode2 [0xC6] = write_utf8_char 0xC6 /\
  utf8_to_latin2_len (write_utf8_char 0x106) 2 = Some [6].
Proof. by vm_compute. Qed.

Lemma latin1_to_utf8_encodes_witness : exists pad, latin1_to_utf8 [97; 0xE5; 0x80] 2 = ([97; 0xC3; 0xA5] ++ 0 :: pad, 3).
Proof.
  apply (latin1_to_utf8_encodes [97; 0xE5; 0x80] 2). repeat (apply List.Forall_cons; [split; reflexivity|]). apply List.Forall_nil.
Defined.

Lemma latin1_roundtrip_witness : utf8_to_latin1 [0xE2; 0x82; 0xAC; 63] = Some [0x80; 63].
Proof.
  apply (latin1_roundtrip [0x80; 0x81]). repeat (apply List.Forall_cons; [split; reflexivity|]). apply List.Forall_nil.
Defined.

Lemma latin2_roundtrip_witness : latin2_to_utf8_buf [97; 0xA1] 2 10 = (2%nat, [97; 0xC4; 0x84]).
Proof.
  apply (latin2_roundtrip [97; 0xA1] 10); [|reflexivity].
  repeat (apply List.Forall_cons; [split; [discriminate|reflexivity]|]). apply List.Forall_nil.
Defined.
