(* ===== verification/Lru.v ===== *)
(** Lru: the cache of src/util/lib/lru.c, a client of the ordered set of Avl.

    Entries are shared with their users, so they are objects with a number,
    [l_ents] their contents; the tree holds their keys and [l_queue] is the list
    from the oldest to the most recently used.  Each operation is a function of the
    whole cache, as it runs when no other thread does anything meanwhile; [lru_step] is
    a use of the cache in which calls do not overlap, and LruThreads has the interleavings
    of calls that do.  A caller that finds an entry that another thread has yet
    to store waits after its call, for the store.  What the destructor was
    called on is [l_freed].  [None] is what it is for the tree, and waiting for
    the users of an entry in [lru_flush]. *)
From stdpp Require Import prelude list numbers gmap.
From Stdlib Require Import ZArith Lia.
From S2P Require Import Prelude Avl Strings.

Local Open Scope Z_scope.

(** The part of an entry that is in the tree. *)
Record lnode := mk_lnode { ln_id : nat; ln_key : list Z }.

#[export] Instance lnode_eq_dec : EqDecision lnode.
Proof. solve_decision. Defined.

Definition lru_compare (a b : lnode) : Z := lexcmp (ln_key a) (ln_key b).

#[export] Instance lru_order : CmpOrder lru_compare.
Proof.
  split; unfold lru_compare.
  - intros x y. apply (cmp_opp (ln_key x) (ln_key y)).
  - intros x y z. apply (cmp_trans (ln_key x) (ln_key y) (ln_key z)).
Qed.

Section Lru.
Context {T : Type} `{!OrderedSet lru_compare T} {P : Type}.

Record lru_entry := mk_entry {
  e_key : list Z;
  e_users : Z;
  e_pending : bool;
  e_thread : nat;              (* pending_thread *)
  e_storage : option P;
  e_size : Z
}.

Record lru := mk_lru {
  l_size : Z;
  l_max : Z;
  l_destr : bool;              (* whether there is a destructor *)
  l_tree : T;
  l_queue : list nat;
  l_ents : gmap nat lru_entry;
  l_fresh : nat;
  l_rindex : Z;
  l_freed : list P
}.

(** * Operations *)

Definition lru_init (size : Z) (destr : bool) : lru := mk_lru 0 size destr os_empty [] ∅ 0 0 [].

Definition without (id : nat) (queue : list nat) : list nat := filter (fun i => i <> id) queue.

(** Take an entry out of the list and the tree and free it. *)
Definition drop_entry (id : nat) (size : Z) (c : lru) : option lru :=
  e ← l_ents c !! id;
  t ← os_delete (mk_lnode id (e_key e)) (l_tree c);
  Some (mk_lru size (l_max c) (l_destr c) t (without id (l_queue c)) (delete id (l_ents c)) (l_fresh c) (l_rindex c)
          (l_freed c ++ (if l_destr c then match e_storage e with Some p => [p] | None => [] end else []))).

Definition in_use (c : lru) (id : nat) : bool :=
  match l_ents c !! id with Some e => negb (e_users e =? 0) | None => false end.

Definition size_of (ents : gmap nat lru_entry) (id : nat) : Z :=
  match ents !! id with Some e => e_size e | None => 0 end.

(** The loop of [cache_lru] that makes room: false when the cache is full. *)
Fixpoint evict_loop (fuel : nat) (c : lru) : option (bool * lru) :=
  if l_size c <? l_max c then Some (true, c)
  else
    match List.find (fun id => negb (in_use c id)) (l_queue c), fuel with
    | None, _ => Some (false, c)
    | Some _, O => None
    | Some id, S fuel =>
      c ← drop_entry id (u64 (l_size c - size_of (l_ents c) id)) c;
      evict_loop fuel c
    end.

(** What [cache_lru] returns: NULL for [Full] and [Recurse], which differ in [new_entry]. *)
Inductive outcome := Full | Recurse | New (id : nat) | Hit (id : nat) (waits : bool).

Definition combined_key (rindex : Z) (key : list Z) : list Z := print_dec rindex ++ 35 :: cstr key.

Definition set_entry (id : nat) (e : lru_entry) (c : lru) : lru :=
  mk_lru (l_size c) (l_max c) (l_destr c) (l_tree c) (l_queue c) (<[id := e]> (l_ents c)) (l_fresh c) (l_rindex c) (l_freed c).

Definition set_queue (q : list nat) (c : lru) : lru :=
  mk_lru (l_size c) (l_max c) (l_destr c) (l_tree c) q (l_ents c) (l_fresh c) (l_rindex c) (l_freed c).

Definition add_users (n : Z) (e : lru_entry) : lru_entry :=
  mk_entry (e_key e) (e_users e + n) (e_pending e) (e_thread e) (e_storage e) (e_size e).

(** [thread] is the caller. *)
Definition cache_lru (c : lru) (thread : nat) (key : list Z) : option (outcome * lru) :=
  let ck := combined_key (l_rindex c) key in
  match os_lookup (mk_lnode 0 ck) (l_tree c) with
  | None =>
    '(ok, c) ← evict_loop (length (l_queue c)) c;
    if (ok : bool) then
      let id := l_fresh c in
      t ← os_insert (mk_lnode id ck) (l_tree c);
      Some (New id, mk_lru (l_size c) (l_max c) (l_destr c) t (l_queue c ++ [id])
                      (<[id := mk_entry ck 1 true thread None 0]> (l_ents c)) (S id) (l_rindex c) (l_freed c))
    else Some (Full, c)
  | Some n =>
    let id := ln_id n in
    e ← l_ents c !! id;
    if e_pending e && bool_decide (e_thread e = thread) then Some (Recurse, c)
    else Some (Hit id (e_pending e), set_queue (without id (l_queue c) ++ [id]) (set_entry id (add_users 1 e) c))
  end.

(** The caller of a new entry sets what it holds, and stores it. *)
Definition set_storage (id : nat) (p : P) (c : lru) : option lru :=
  e ← l_ents c !! id;
  Some (set_entry id (mk_entry (e_key e) (e_users e) (e_pending e) (e_thread e) (Some p) (e_size e)) c).

Definition set_size (size : Z) (c : lru) : lru :=
  mk_lru size (l_max c) (l_destr c) (l_tree c) (l_queue c) (l_ents c) (l_fresh c) (l_rindex c) (l_freed c).

(** [lru_store] does not take the mutex of the cache: it writes the size of the entry,
    adds it to that of the cache in one access, and then wakes those who wait. *)
Definition store_size (id : nat) (sz : Z) (c : lru) : option lru :=
  e ← l_ents c !! id;
  Some (set_entry id (mk_entry (e_key e) (e_users e) (e_pending e) (e_thread e) (e_storage e) sz) c).

Definition store_add (sz : Z) (c : lru) : lru := set_size (u64 (l_size c + sz)) c.

Definition store_done (id : nat) (c : lru) : option lru :=
  e ← l_ents c !! id;
  Some (set_entry id (mk_entry (e_key e) (e_users e) false (e_thread e) (e_storage e) (e_size e)) c).

Definition lru_store (c : lru) (id : nat) (sz : Z) : option lru :=
  c ← store_size id sz c; store_done id (store_add sz c).

Definition lru_retain (c : lru) (id : nat) : option lru := e ← l_ents c !! id; Some (set_entry id (add_users 1 e) c).
Definition lru_leave (c : lru) (id : nat) : option lru := e ← l_ents c !! id; Some (set_entry id (add_users (-1) e) c).

Definition lru_invalidate (c : lru) : Z * lru :=
  let wraps := l_rindex c =? 2 ^ 64 - 1 in
  (Z.b2z wraps,
   mk_lru (l_size c) (l_max c) (l_destr c) (l_tree c) (l_queue c) (l_ents c) (l_fresh c)
     (if wraps then 0 else l_rindex c + 1) (l_freed c)).

Fixpoint flush_loop (queue : list nat) (c : lru) : option lru :=
  match queue with
  | [] => Some (mk_lru 0 (l_max c) (l_destr c) (l_tree c) (l_queue c) (l_ents c) (l_fresh c) (l_rindex c) (l_freed c))
  | id :: queue =>
    if in_use c id then None
    else c ← drop_entry id (l_size c) c; flush_loop queue c
  end.

Definition lru_flush (c : lru) : option lru := flush_loop (l_queue c) c.

(** The entries that [lru_foreach] calls its callback on. *)
Definition lru_foreach (c : lru) : list lru_entry := omap (fun id => l_ents c !! id) (l_queue c).

(** * The invariant *)

Definition total (ents : gmap nat lru_entry) (queue : list nat) : Z := foldr (fun id s => size_of ents id + s) 0 queue.

Record lru_ok (c : lru) : Prop := {
  lk_tree : os_ok (l_tree c);
  lk_elems n : n ∈ os_elems (l_tree c) <-> exists e, l_ents c !! ln_id n = Some e /\ ln_key n = e_key e;
  lk_nodup : NoDup (l_queue c);
  lk_queue id : id ∈ l_queue c <-> is_Some (l_ents c !! id);
  lk_fresh id : is_Some (l_ents c !! id) -> (id < l_fresh c)%nat;
  lk_entry id e : l_ents c !! id = Some e -> 0 <= e_users e /\ 0 <= e_size e /\ (e_pending e = true -> e_size e = 0) /\
    exists r k, 0 <= r <= l_rindex c /\ e_key e = combined_key r k;
  lk_size : l_size c = total (l_ents c) (l_queue c) /\ l_size c < 2 ^ 64;
  lk_rindex : 0 <= l_rindex c < 2 ^ 64
}.

(** A use of the cache by any number of threads whose calls do not overlap: entries are
    stored once, by the thread that made them, and left by those that use them. *)
Inductive lru_step : lru -> lru -> Prop :=
  | step_cache c thread key o c' : cache_lru c thread key = Some (o, c') -> lru_step c c'
  | step_set c id p e c' : l_ents c !! id = Some e -> e_pending e = true -> 0 < e_users e -> set_storage id p c = Some c' -> lru_step c c'
  | step_store c id sz e c' : l_ents c !! id = Some e -> e_pending e = true -> 0 < e_users e -> 0 <= sz -> l_size c + sz < 2 ^ 64 ->
      lru_store c id sz = Some c' -> lru_step c c'
  | step_retain c id e c' : l_ents c !! id = Some e -> 0 < e_users e -> lru_retain c id = Some c' -> lru_step c c'
  | step_leave c id e c' : l_ents c !! id = Some e -> 0 < e_users e -> lru_leave c id = Some c' -> lru_step c c'
  | step_invalidate c : l_rindex c < 2 ^ 64 - 1 -> lru_step c (snd (lru_invalidate c))
  | step_flush c c' : lru_flush c = Some c' -> lru_step c c'.
End Lru.

(** * Proofs *)

Section Proofs.
Context {T : Type} `{!OrderedSet lru_compare T} {P : Type}.
Implicit Types (c : @lru T P) (e : @lru_entry P).

Lemma elem_of_without id i q : i ∈ without id q <-> i ∈ q /\ i <> id.
Proof. unfold without. rewrite list_elem_of_filter. tauto. Qed.

Lemma total_ext (ents ents' : gmap nat (@lru_entry P)) q : (forall id, id ∈ q -> size_of ents id = size_of ents' id) -> total ents q = total ents' q.
Proof.
  induction q as [|i q IH]; intros H; [done|]. simpl. f_equal; [apply H; left|]. apply IH. intros id Hid. apply H. by right.
Qed.

Lemma total_app (ents : gmap nat (@lru_entry P)) a b : total ents (a ++ b) = total ents a + total ents b.
Proof. induction a as [|i a IH]; [done|]. simpl. lia. Qed.

Lemma size_delete_ne (ents : gmap nat (@lru_entry P)) id i : i <> id -> size_of (delete id ents) i = size_of ents i.
Proof. intros H. unfold size_of. by rewrite lookup_delete_ne. Qed.

Lemma without_id id q : id ∉ q -> without id q = q.
Proof. intros H. unfold without. apply filter_all. by intros i Hi ->. Qed.

Lemma total_without (ents : gmap nat (@lru_entry P)) id q : NoDup q -> id ∈ q ->
  total (delete id ents) (without id q) = total ents q - size_of ents id.
Proof.
  intros Hn Hin. induction Hn as [|i q Hi Hn IH]; [by apply not_elem_of_nil in Hin|]. unfold without in *. cbn [total foldr].
  destruct (decide (i = id)) as [->|Hne].
  - rewrite filter_cons_False by (intros H; by apply H). fold (without id q). rewrite without_id by done.
    rewrite (total_ext _ ents); [fold (total ents q); lia|]. intros j Hj. apply size_delete_ne. by intros ->.
  - apply elem_of_cons in Hin as [->|Hin]; [done|]. rewrite filter_cons_True by done. cbn [total foldr].
    fold (total (delete id ents) (filter (fun i => i <> id) q)). rewrite IH by done. rewrite size_delete_ne by done. fold (total ents q). lia.
Qed.

(** Everything but the size. *)
Record lru_wf c : Prop := {
  lw_tree : os_ok (l_tree c);
  lw_elems n : n ∈ os_elems (l_tree c) <-> exists e, l_ents c !! ln_id n = Some e /\ ln_key n = e_key e;
  lw_nodup : NoDup (l_queue c);
  lw_queue id : id ∈ l_queue c <-> is_Some (l_ents c !! id);
  lw_fresh id : is_Some (l_ents c !! id) -> (id < l_fresh c)%nat;
  lw_entry id e : l_ents c !! id = Some e -> 0 <= e_users e /\ 0 <= e_size e /\
    exists r k, 0 <= r <= l_rindex c /\ e_key e = combined_key r k;
  lw_rindex : 0 <= l_rindex c < 2 ^ 64
}.

(** The size is the sum, and what is not stored yet has none. *)
Definition sized c : Prop :=
  (l_size c = total (l_ents c) (l_queue c) /\ l_size c < 2 ^ 64) /\
  forall id e, l_ents c !! id = Some e -> e_pending e = true -> e_size e = 0.

Lemma lru_ok_wf c : lru_ok c <-> lru_wf c /\ sized c.
Proof.
  split.
  - intros [? ? ? ? ? Hen ? ?]. split; [constructor; try assumption|split; [assumption|]]; intros id e E; destruct (Hen id e E) as (? & ? & ? & ?); auto.
  - intros [[? ? ? ? ? Hen ?] [? Hp]]. constructor; try assumption. intros id e E. destruct (Hen id e E) as (? & ? & ?).
    repeat split; eauto.
Qed.

Definition freed_of c id : list P :=
  if l_destr c then match l_ents c !! id ≫= e_storage with Some p => [p] | None => [] end else [].

Lemma drop_entry_wf id sz c e : lru_wf c -> l_ents c !! id = Some e -> exists t,
  drop_entry id sz c = Some (mk_lru sz (l_max c) (l_destr c) t (without id (l_queue c)) (delete id (l_ents c)) (l_fresh c)
    (l_rindex c) (l_freed c ++ freed_of c id)) /\
  lru_wf (mk_lru sz (l_max c) (l_destr c) t (without id (l_queue c)) (delete id (l_ents c)) (l_fresh c)
    (l_rindex c) (l_freed c ++ freed_of c id)).
Proof.
  intros [Ht He Hn Hq Hf Hen Hr] E. unfold drop_entry, freed_of. rewrite E. cbn [mbind option_bind].
  destruct (os_delete_ok (mk_lnode id (e_key e)) (l_tree c) Ht) as (t & Ed & Ht' & Hnot & Hoth & _).
  rewrite Ed. cbn [mbind option_bind]. exists t. split; [done|]. split; cbn [l_tree l_ents l_queue l_fresh l_rindex]; [done| | | | | |done].
  - intros [i k]. cbn [ln_id ln_key]. destruct (decide (mk_lnode i k = mk_lnode id (e_key e))) as [[= -> ->]|Hne].
    + split; [done|]. rewrite lookup_delete_eq. by intros (? & ? & _).
    + rewrite Hoth by done. rewrite He. cbn [ln_id ln_key]. destruct (decide (i = id)) as [->|Hi].
      * rewrite lookup_delete_eq. split; [|by intros (? & ? & _)]. intros (e' & E' & ->). rewrite E in E'. injection E' as <-. done.
      * by rewrite lookup_delete_ne.
  - by apply list.NoDup_filter.
  - intros i. rewrite elem_of_without, Hq. destruct (decide (i = id)) as [->|Hi].
    + rewrite lookup_delete_eq. split; [by intros [_ ?]|by intros [? ?]].
    + rewrite lookup_delete_ne by done. tauto.
  - intros i [x Hx]. apply lookup_delete_Some in Hx as [_ Hx]. apply Hf. by eexists.
  - intros i x Hx. apply lookup_delete_Some in Hx as [_ Hx]. by apply (Hen i).
Qed.

(** ** Making room *)

Definition unused c : list nat := filter (fun id => in_use c id = false) (l_queue c).

Lemma find_unused c : List.find (fun id => negb (in_use c id)) (l_queue c) = head (unused c).
Proof.
  unfold unused. induction (l_queue c) as [|i q IH]; [done|]. simpl. destruct (in_use c i) eqn:E; simpl.
  - rewrite filter_cons_False by congruence. exact IH.
  - by rewrite filter_cons_True.
Qed.

Lemma total_nonneg c q : lru_wf c -> 0 <= total (l_ents c) q.
Proof.
  intros Hw. induction q as [|i q IH]; [done|]. cbn [total foldr]. fold (total (l_ents c) q).
  assert (0 <= size_of (l_ents c) i); [|lia]. unfold size_of. destruct (l_ents c !! i) as [e|] eqn:E; [|done].
  by apply (lw_entry c Hw) in E as (_ & ? & _).
Qed.

Lemma size_of_le c id q : lru_wf c -> id ∈ q -> size_of (l_ents c) id <= total (l_ents c) q.
Proof.
  intros Hw. induction q as [|i q IH]; [by intros ?%not_elem_of_nil|]. cbn [total foldr]. fold (total (l_ents c) q).
  pose proof (total_nonneg c q Hw). pose proof (total_nonneg c [i] Hw) as Hi. cbn [total foldr] in Hi.
  intros [->|Hin]%elem_of_cons; [lia|]. specialize (IH Hin). lia.
Qed.

(** The cache after the entries [ev] are gone. *)
Record evicted c (ev : list nat) c' : Prop := {
  ev_wf : lru_wf c';
  ev_sized : sized c';
  ev_size : l_size c' = l_size c - total (l_ents c) ev;
  ev_queue : l_queue c' = filter (fun id => id ∉ ev) (l_queue c);
  ev_ents id : l_ents c' !! id = if decide (id ∈ ev) then None else l_ents c !! id;
  ev_freed : l_freed c' = l_freed c ++ concat (map (freed_of c) ev);
  ev_const : l_max c' = l_max c /\ l_destr c' = l_destr c /\ l_fresh c' = l_fresh c /\ l_rindex c' = l_rindex c
}.

Lemma evicted_nil c : lru_wf c -> sized c -> evicted c [] c.
Proof.
  intros Hw Hs. split; try done; simpl; [lia| |by rewrite app_nil_r].
  symmetry. apply filter_all. intros ? _. apply not_elem_of_nil.
Qed.

Lemma evict_one c id ev1 : lru_wf c -> sized c -> unused c = id :: ev1 -> exists c1,
  drop_entry id (u64 (l_size c - size_of (l_ents c) id)) c = Some c1 /\ evicted c [id] c1 /\ unused c1 = ev1.
Proof.
  intros Hw Hs Hu. assert (id ∈ unused c) as Hin by (rewrite Hu; left). unfold unused in Hin. apply list_elem_of_filter in Hin as [Hi Hq].
  destruct (proj1 (lw_queue c Hw id) Hq) as [e E].
  destruct (drop_entry_wf id (u64 (l_size c - size_of (l_ents c) id)) c e Hw E) as (t & -> & Hw1).
  destruct Hs as [[Hs1 Hs2] Hs3]. pose proof (size_of_le c id _ Hw Hq). pose proof (total_nonneg c (l_queue c) Hw).
  assert (u64 (l_size c - size_of (l_ents c) id) = l_size c - size_of (l_ents c) id) as Eu.
  { apply uwrap_small. pose proof (total_nonneg c [id] Hw) as Hp. cbn [total foldr] in Hp. lia. }
  pose proof (total_without (l_ents c) id (l_queue c) (lw_nodup c Hw) Hq) as Ht.
  eexists. split; [done|]. split.
  - split; cbn [l_size l_queue l_ents l_freed l_max l_destr l_fresh l_rindex]; [done| | | | | |done].
    + unfold sized. cbn [l_size l_queue l_ents]. rewrite Eu. pose proof (total_nonneg c [id] Hw) as Hp. cbn [total foldr] in Hp.
      split; [lia|]. intros i x [_ Hx]%lookup_delete_Some. by apply (Hs3 i).
    + rewrite Eu. cbn [total foldr]. lia.
    + unfold without. apply list_filter_iff. intros i. rewrite list_elem_of_singleton. done.
    + intros i. destruct (decide (i ∈ [id])) as [->%list_elem_of_singleton|Hne]; [apply lookup_delete_eq|].
      rewrite list_elem_of_singleton in Hne. apply lookup_delete_ne. congruence.
    + cbn [map concat]. by rewrite app_nil_r.
  - unfold unused at 1. cbn [l_queue]. unfold without. rewrite list_filter_filter.
    assert (filter (fun i => in_use c i = false /\ i <> id) (l_queue c) = ev1) as Hrest.
    { unfold unused in Hu. assert (NoDup (id :: ev1)) as Hnd by (rewrite <- Hu; apply list.NoDup_filter, Hw).
      rewrite (list_filter_iff _ (fun i => i <> id /\ in_use c i = false)) by tauto. rewrite <- list_filter_filter, Hu.
      rewrite filter_cons_False by (intros H'; by apply H'). apply filter_all. apply NoDup_cons in Hnd as [Hnd _]. by intros i Hi' ->. }
    rewrite <- Hrest. apply list_filter_iff. intros i. unfold in_use. cbn [l_ents]. destruct (decide (i = id)) as [->|Hne]; [tauto|].
    by rewrite lookup_delete_ne.
Qed.

Lemma evicted_step c c1 c2 id ev : evicted c [id] c1 -> evicted c1 ev c2 -> (id ∉ ev) -> evicted c (id :: ev) c2.
Proof.
  intros [W1 S1 Z1 Q1 E1 F1 (M1 & D1 & R1 & I1)] [W2 S2 Z2 Q2 E2 F2 (M2 & D2 & R2 & I2)] Hn.
  assert (forall i, i ∈ ev -> l_ents c1 !! i = l_ents c !! i) as Hsame.
  { intros i Hi. rewrite E1. apply decide_False. intros ->%list_elem_of_singleton. by apply Hn. }
  split; [done|done| | | | |repeat split; congruence].
  - rewrite Z2, Z1. cbn [total foldr]. fold (total (l_ents c) ev).
    rewrite (total_ext (l_ents c1) (l_ents c) ev); [lia|]. intros i Hi. unfold size_of. by rewrite Hsame.
  - rewrite Q2, Q1, list_filter_filter. apply list_filter_iff. intros i. rewrite !elem_of_cons. pose proof (not_elem_of_nil i). tauto.
  - intros i. rewrite E2, E1. repeat case_decide; try done; rewrite ?elem_of_cons in *; pose proof (not_elem_of_nil i); tauto.
  - rewrite F2, F1. cbn [map concat]. rewrite app_nil_r, <- app_assoc. do 2 f_equal.
    apply f_equal. apply map_ext_in. intros i Hi%list_elem_of_In. unfold freed_of. by rewrite D1, Hsame.
Qed.

(** The loop takes the oldest entries that nobody uses, no more of them than it needs
    to get below the maximum. *)
Lemma evict_loop_spec fuel : forall c, lru_wf c -> sized c -> (length (unused c) <= fuel)%nat ->
  exists ok ev rest c', evict_loop fuel c = Some (ok, c') /\ evicted c ev c' /\ unused c = ev ++ rest /\
    (if ok then l_size c' < l_max c else l_max c <= l_size c' /\ rest = []) /\
    forall ev1 id ev2, ev = ev1 ++ id :: ev2 -> l_max c <= l_size c - total (l_ents c) ev1.
Proof.
  induction fuel as [|fuel IH]; intros c Hw Hs Hf; cbn [evict_loop]; rewrite find_unused;
    destruct (Z.ltb_spec (l_size c) (l_max c)) as [Hlt|Hge];
    try (exists true, [], (unused c), c; split; [done|]; split; [by apply evicted_nil|]; split; [done|]; split; [done|]; by intros []);
    destruct (unused c) as [|id ev1] eqn:Hu; cbn [head];
    try (exists false, [], [], c; split; [done|]; split; [by apply evicted_nil|]; split; [done|]; split; [done|]; by intros []).
  { simpl in Hf. lia. }
  destruct (evict_one c id ev1 Hw Hs Hu) as (c1 & -> & He1 & Hu1). cbn [mbind option_bind].
  destruct (IH c1) as (ok & ev & rest & c2 & -> & He2 & Hsplit & Hok & Hmin);
    [apply He1|apply He1|rewrite Hu1; simpl in Hf; lia|]. rewrite Hu1 in Hsplit.
  assert (NoDup (id :: ev1)) as Hnd by (rewrite <- Hu; apply list.NoDup_filter, Hw).
  apply NoDup_cons in Hnd as [Hnd _].
  assert (id ∉ ev) as Hne by (rewrite Hsplit in Hnd; intros H; apply Hnd, elem_of_app; by left).
  destruct (ev_const _ _ _ He1) as (EM & _).
  exists ok, (id :: ev), rest, c2. split; [done|]. split; [by eapply evicted_step|]. split; [by rewrite Hsplit|].
  split; [by rewrite <- EM|]. intros [|x l] y r E; simplify_eq/=; [cbn [total foldr]; lia|].
  specialize (Hmin _ _ _ eq_refl). rewrite EM, (ev_size _ _ _ He1) in Hmin. cbn [total foldr] in *.
  fold (total (l_ents c) l). rewrite (total_ext (l_ents c1) (l_ents c) l) in Hmin; [lia|].
  intros i Hi. unfold size_of. rewrite (ev_ents _ _ _ He1), decide_False; [done|]. intros ->%list_elem_of_singleton.
  apply Hne, elem_of_app. by left.
Qed.

Lemma unused_length c : (length (unused c) <= length (l_queue c))%nat.
Proof. apply length_filter. Qed.

(** ** Keys *)

Lemma combined_inj r1 k1 r2 k2 : 0 <= r1 -> 0 <= r2 -> combined_key r1 k1 = combined_key r2 k2 -> r1 = r2.
Proof.
  intros H1 H2. unfold combined_key, print_dec. rewrite !(proj2 (Z.ltb_ge _ 0)) by lia. rewrite !Z.abs_eq by lia.
  destruct (dec_rev_spec (Z.to_nat (r1 + 1)) r1) as [[_ D1] V1]; [lia|]. destruct (dec_rev_spec (Z.to_nat (r2 + 1)) r2) as [[_ D2] V2]; [lia|].
  set (a := rev (dec_rev (Z.to_nat (r1 + 1)) r1)) in *. set (b := rev (dec_rev (Z.to_nat (r2 + 1)) r2)) in *. intros E.
  assert (a = b); [|congruence]. clear V1 V2. clearbody a b. revert b D2 E. induction D1 as [|x a Hx _ IH]; intros b D2 E.
  - destruct D2 as [|y b Hy _]; [done|]. injection E as <- _. done.
  - destruct D2 as [|y b Hy D2]; injection E as E1 E2; [by subst|]. subst. f_equal. by apply IH.
Qed.

Lemma lookup_spec c ck : lru_wf c ->
  match os_lookup (mk_lnode 0 ck) (l_tree c) with
  | Some n => exists e, l_ents c !! ln_id n = Some e /\ e_key e = ck
  | None => forall id e, l_ents c !! id = Some e -> e_key e <> ck
  end.
Proof.
  intros Hw. pose proof (os_lookup_ok (mk_lnode 0 ck) (l_tree c) (lw_tree c Hw)) as H.
  destruct (os_lookup (mk_lnode 0 ck) (l_tree c)) as [n|].
  - destruct H as [Hin Hc]. apply (lw_elems c Hw) in Hin as (e & E & Ek). exists e. split; [done|].
    unfold lru_compare in Hc. apply lexcmp_eq in Hc. simpl in Hc. congruence.
  - intros id e E Ek. apply (H (mk_lnode id (e_key e))); [apply (lw_elems c Hw); by exists e|].
    unfold lru_compare. apply lexcmp_eq. by simpl.
Qed.

(** ** The operations keep the invariant *)

Lemma total_perm (ents : gmap nat (@lru_entry P)) q q' : q ≡ₚ q' -> total ents q = total ents q'.
Proof. induction 1; simpl; lia. Qed.

Lemma without_perm id q : NoDup q -> id ∈ q -> without id q ++ [id] ≡ₚ q.
Proof.
  intros Hn Hin. rewrite Permutation_app_comm. apply NoDup_Permutation; [|done|].
  - constructor; [rewrite elem_of_without; tauto|by apply list.NoDup_filter].
  - intros i. cbn [app]. rewrite elem_of_cons, elem_of_without. destruct (decide (i = id)) as [->|]; tauto.
Qed.

Lemma total_set (ents : gmap nat (@lru_entry P)) id e e' q : NoDup q -> id ∈ q -> ents !! id = Some e ->
  total (<[id := e']> ents) q = total ents q + (e_size e' - e_size e).
Proof.
  intros Hn Hin E. rewrite <- !(total_perm _ _ _ (without_perm id q Hn Hin)), !total_app.
  rewrite (total_ext (<[id := e']> ents) ents).
  - cbn [total foldr]. unfold size_of. rewrite lookup_insert_eq, E. lia.
  - intros i [_ Hne]%elem_of_without. unfold size_of. by rewrite lookup_insert_ne.
Qed.

Lemma set_entry_wf id e e' c : lru_wf c -> l_ents c !! id = Some e -> e_key e' = e_key e ->
  0 <= e_users e' -> 0 <= e_size e' -> lru_wf (set_entry id e' c).
Proof.
  intros [Ht He Hn Hq Hf Hen Hr] E Ek Hu Hs. split; cbn [set_entry l_tree l_ents l_queue l_fresh l_rindex]; [done| |done| | | |done].
  - intros n. rewrite He. destruct (decide (ln_id n = id)) as [Ei|Hne].
    + rewrite Ei, lookup_insert_eq, E. split; intros (x & [= <-] & Hk); eexists; (split; [done|congruence]).
    + by rewrite lookup_insert_ne.
  - intros i. rewrite Hq. destruct (decide (i = id)) as [->|Hne]; [rewrite lookup_insert_eq, E; by split; eauto|by rewrite lookup_insert_ne].
  - intros i Hi. apply Hf. destruct (decide (i = id)) as [->|Hne]; [by eexists|by rewrite lookup_insert_ne in Hi].
  - intros i x Hx. destruct (decide (i = id)) as [->|Hne].
    + rewrite lookup_insert_eq in Hx. injection Hx as <-. destruct (Hen id e E) as (_ & _ & Hk). rewrite Ek. done.
    + rewrite lookup_insert_ne in Hx by done. by apply (Hen i).
Qed.

Lemma set_entry_ok id e e' c : lru_ok c -> l_ents c !! id = Some e -> e_key e' = e_key e ->
  0 <= e_users e' -> e_size e' = e_size e -> (e_pending e' = true -> e_pending e = true) -> lru_ok (set_entry id e' c).
Proof.
  rewrite !lru_ok_wf. intros [Hw [[Hs1 Hs2] Hs3]] E Ek Hu Hs Hp. destruct (lw_entry c Hw id e E) as (_ & H1 & _). split.
  - apply (set_entry_wf id e); [done|done|done|done|lia].
  - unfold sized. cbn [set_entry l_size l_ents l_queue]. rewrite (total_set _ id e); [|apply Hw|apply Hw; by eexists|done].
    split; [lia|]. intros i x. destruct (decide (i = id)) as [->|Hne]; [rewrite lookup_insert_eq|rewrite lookup_insert_ne by done; by apply Hs3].
    intros [= <-] Hx%Hp. rewrite Hs. by apply (Hs3 id).
Qed.

Lemma set_queue_ok q c : lru_ok c -> q ≡ₚ l_queue c -> lru_ok (set_queue q c).
Proof.
  intros [] Hp. split; cbn [set_queue l_tree l_ents l_queue l_fresh l_rindex l_size]; try done.
  - by rewrite Hp.
  - intros id. by rewrite Hp.
  - by rewrite (total_perm _ _ _ Hp).
Qed.

(** The cache with a new entry at the end. *)
Definition with_new c thread key t : @lru T P :=
  mk_lru (l_size c) (l_max c) (l_destr c) t (l_queue c ++ [l_fresh c])
    (<[l_fresh c := mk_entry (combined_key (l_rindex c) key) 1 true thread None 0]> (l_ents c)) (S (l_fresh c)) (l_rindex c) (l_freed c).

Definition missing c key : Prop := forall id e, l_ents c !! id = Some e -> e_key e <> combined_key (l_rindex c) key.

Lemma fresh_None c : lru_wf c -> l_ents c !! l_fresh c = None.
Proof. intros Hw. apply eq_None_not_Some. intros H%(lw_fresh c Hw). lia. Qed.

Lemma insert_wf c thread key : lru_wf c -> missing c key -> exists t,
  os_insert (mk_lnode (l_fresh c) (combined_key (l_rindex c) key)) (l_tree c) = Some t /\ lru_wf (with_new c thread key t).
Proof.
  intros Hw Hmiss. pose proof (fresh_None c Hw) as Hnone. destruct Hw as [Ht He Hn Hq Hf Hen Hr].
  unfold missing in Hmiss. unfold with_new. set (ck := combined_key (l_rindex c) key) in *. set (id := l_fresh c) in *.
  assert (id ∉ l_queue c) as Hnq by (rewrite Hq, Hnone; by intros []).
  destruct (os_insert_ok (mk_lnode id ck) (l_tree c) Ht) as (t & E & Ht' & Hp).
  { intros y (e & E & Ek)%He. unfold lru_compare. cbn [ln_key]. rewrite lexcmp_eq, Ek. intros E'. by apply (Hmiss _ _ E). }
  exists t. split; [done|]. split; cbn [l_tree l_ents l_queue l_fresh l_rindex l_size]; [done| | | | | |done].
  - intros n. rewrite Hp, elem_of_cons, He. destruct (decide (ln_id n = id)) as [Ei|Hne].
    + rewrite Ei, lookup_insert_eq, Hnone. split.
      * intros [->|(? & ? & _)]; [by eexists|done].
      * intros (e & [= <-] & Ek). left. destruct n; simpl in *; congruence.
    + rewrite lookup_insert_ne by done. split; [intros [->|?]; done|by right].
  - apply NoDup_app. split; [done|]. split; [by intros i Hi ->%list_elem_of_singleton|apply NoDup_singleton].
  - intros i. rewrite elem_of_app, list_elem_of_singleton, Hq. destruct (decide (i = id)) as [->|Hne].
    + rewrite lookup_insert_eq. split; [by eexists|by right].
    + rewrite lookup_insert_ne by done. split; [intros [?|?]; done|by left].
  - intros i Hi. destruct (decide (i = id)) as [->|Hne]; [lia|]. rewrite lookup_insert_ne in Hi by done. specialize (Hf i Hi). lia.
  - intros i x Hx. destruct (decide (i = id)) as [->|Hne].
    + rewrite lookup_insert_eq in Hx. injection Hx as <-. simpl. repeat split; try lia. exists (l_rindex c), key. split; [lia|done].
    + rewrite lookup_insert_ne in Hx by done. by apply (Hen i).
Qed.

Lemma total_new c thread key t : lru_wf c -> total (l_ents (with_new c thread key t)) (l_queue (with_new c thread key t)) = total (l_ents c) (l_queue c).
Proof.
  intros Hw. pose proof (fresh_None c Hw) as Hnone. cbn [with_new l_ents l_queue]. rewrite total_app.
  rewrite (total_ext (<[l_fresh c := mk_entry (combined_key (l_rindex c) key) 1 true thread None 0]> (l_ents c)) (l_ents c) (l_queue c)).
  - cbn [total foldr]. unfold size_of at 1. rewrite lookup_insert_eq. simpl. lia.
  - intros i Hi. unfold size_of. rewrite lookup_insert_ne; [done|]. intros <-. apply (lw_queue c Hw) in Hi. rewrite Hnone in Hi. by destruct Hi.
Qed.

Lemma insert_ok c thread key t : lru_ok c -> missing c key ->
  os_insert (mk_lnode (l_fresh c) (combined_key (l_rindex c) key)) (l_tree c) = Some t -> lru_ok (with_new c thread key t).
Proof.
  rewrite !lru_ok_wf. intros [Hw [[Hs1 Hs2] Hs3]] Hm Hins. destruct (insert_wf c thread key Hw Hm) as (t' & E & Hw').
  rewrite Hins in E. injection E as <-. split; [done|]. split; [rewrite total_new by done; done|].
  intros i x. cbn [with_new l_ents]. destruct (decide (i = l_fresh c)) as [->|Hne]; [rewrite lookup_insert_eq|rewrite lookup_insert_ne by done; apply Hs3].
  by intros [= <-].
Qed.

(** What a call does when the key is not in the cache. *)
Lemma cache_lru_miss c thread key : lru_ok c -> (forall id e, l_ents c !! id = Some e -> e_key e <> combined_key (l_rindex c) key) ->
  exists o c' c1 ev rest, cache_lru c thread key = Some (o, c') /\ lru_ok c' /\ evicted c ev c1 /\ unused c = ev ++ rest /\
    (forall ev1 id ev2, ev = ev1 ++ id :: ev2 -> l_max c <= l_size c - total (l_ents c) ev1) /\
    match o with
    | New id => id = l_fresh c /\ l_size c' < l_max c /\ l_size c' = l_size c1 /\ l_queue c' = l_queue c1 ++ [id] /\
        l_ents c' = <[id := mk_entry (combined_key (l_rindex c) key) 1 true thread None 0]> (l_ents c1) /\ l_freed c' = l_freed c1
    | Full => c' = c1 /\ l_max c <= l_size c' /\ rest = []
    | _ => False
    end.
Proof.
  intros Hok Hmiss. pose proof Hok as [Hw Hs]%lru_ok_wf. unfold cache_lru.
  pose proof (lookup_spec c (combined_key (l_rindex c) key) Hw) as Hl.
  destruct (os_lookup _ (l_tree c)) as [n|]; [destruct Hl as (e & E & Ek); by destruct (Hmiss _ _ E)|].
  destruct (evict_loop_spec (length (l_queue c)) c Hw Hs (unused_length c)) as (ok & ev & rest & c1 & -> & Hev & Hsp & Hres & Hmin).
  cbn [mbind option_bind]. destruct (ev_const _ _ _ Hev) as (EM & ED & EF & ER).
  assert (lru_ok c1) as Hok1 by (apply lru_ok_wf; split; apply Hev).
  assert (forall id e, l_ents c1 !! id = Some e -> e_key e <> combined_key (l_rindex c1) key) as Hmiss1.
  { intros id e. rewrite (ev_ents _ _ _ Hev), ER. case_decide; [done|]. apply Hmiss. }
  destruct ok.
  - destruct (os_insert_ok (mk_lnode (l_fresh c1) (combined_key (l_rindex c) key)) (l_tree c1)) as (t & Ei & _); [apply Hok1| |].
    { intros y (e & E & Ey)%(lk_elems c1 Hok1). unfold lru_compare. cbn [ln_key]. rewrite lexcmp_eq, Ey. intros E'.
      apply (Hmiss1 _ _ E). by rewrite ER. }
    rewrite Ei. cbn [mbind option_bind]. rewrite <- ER in Ei |- *. eexists _, _, c1, ev, rest. split; [done|].
    split; [exact (insert_ok c1 thread key t Hok1 Hmiss1 Ei)|]. split; [done|]. split; [done|]. split; [done|]. by rewrite EF.
  - eexists _, _, c1, ev, rest. split; [done|]. split; [done|]. split; [done|]. split; [done|]. split; [done|]. done.
Qed.

(** And when it is. *)
Lemma cache_lru_hit c thread key id e : lru_ok c -> l_ents c !! id = Some e -> e_key e = combined_key (l_rindex c) key ->
  cache_lru c thread key = Some (if e_pending e && bool_decide (e_thread e = thread) then (Recurse, c)
    else (Hit id (e_pending e), set_queue (without id (l_queue c) ++ [id]) (set_entry id (add_users 1 e) c))).
Proof.
  intros Hok E Ek. pose proof Hok as [Hw Hs]%lru_ok_wf. unfold cache_lru.
  pose proof (lookup_spec c (combined_key (l_rindex c) key) Hw) as Hl.
  pose proof (os_lookup_ok (mk_lnode 0 (combined_key (l_rindex c) key)) (l_tree c) (lw_tree c Hw)) as Ho.
  destruct (os_lookup _ (l_tree c)) as [n|]; [|by destruct (Hl id e E)]. destruct Hl as (e' & E' & Ek'). destruct Ho as [Hin _].
  assert (n = mk_lnode id (e_key e)) as ->.
  { apply (os_distinct (l_tree c)); [apply Hw|done|apply (lw_elems c Hw); by exists e|].
    apply (lw_elems c Hw) in Hin as (x & Ex & Hx). unfold lru_compare. apply lexcmp_eq. simpl. congruence. }
  cbn [ln_id] in *. rewrite E. cbn [mbind option_bind]. by destruct (_ && _).
Qed.

Lemma cache_lru_ok c thread key o c' : lru_ok c -> cache_lru c thread key = Some (o, c') -> lru_ok c'.
Proof.
  intros Hok E. destruct (decide (Exists (fun id => e_key <$> l_ents c !! id = Some (combined_key (l_rindex c) key)) (l_queue c))) as [Hx|Hx].
  - apply list.Exists_exists in Hx as (id & Hin & Hk). destruct (l_ents c !! id) as [e|] eqn:Ee; [|done]. injection Hk as Hk.
    rewrite (cache_lru_hit c thread key id e Hok Ee Hk) in E. destruct (_ && _); injection E as <- <-; [done|].
    destruct (lk_entry c Hok id e Ee) as (Hu & _). apply set_queue_ok.
    + apply (set_entry_ok id e); simpl; auto; lia.
    + apply without_perm; [apply Hok|done].
  - destruct (cache_lru_miss c thread key Hok) as (o1 & c1 & _ & _ & _ & E1 & Hok1 & _); [|by simplify_eq].
    intros id e Ee Hk. apply Hx, list.Exists_exists. exists id. rewrite (lk_queue c Hok), Ee. split; [by eexists|]. by rewrite <- Hk.
Qed.

Lemma flush_loop_ok q : forall c c', lru_wf c -> l_queue c = q -> flush_loop q c = Some c' -> lru_ok c'.
Proof.
  induction q as [|id q IH]; intros c c' Hw Hq E; cbn [flush_loop] in E.
  - injection E as <-. apply lru_ok_wf. split; [by destruct Hw; split|]. unfold sized. simpl. rewrite Hq. split; [done|].
    intros id e Ee. exfalso. apply (not_elem_of_nil id). rewrite <- Hq. apply Hw. by eexists.
  - destruct (in_use c id); [done|]. destruct (proj1 (lw_queue c Hw id)) as [e Ee]; [rewrite Hq; left|].
    destruct (drop_entry_wf id (l_size c) c e Hw Ee) as (t & Ed & Hw1). rewrite Ed in E. cbn [mbind option_bind] in E.
    apply (IH _ _ Hw1) in E; [done|]. cbn [l_queue]. pose proof (lw_nodup c Hw) as Hn. rewrite Hq in *. apply NoDup_cons in Hn as [Hn _].
    unfold without. rewrite filter_cons_False by (intros H; by apply H). by apply without_id.
Qed.

Lemma lru_step_ok c c' : lru_ok c -> lru_step c c' -> lru_ok c'.
Proof.
  intros Hok. destruct 1 as [c thread key o c' E|c id p e c' Ee Hp Hu E|c id sz e c' Ee Hp Hu Hsz Hmax E|c id e c' Ee Hu E|c id e c' Ee Hu E|c Hr|c c' E].
  - by eapply cache_lru_ok.
  - unfold set_storage in E. rewrite Ee in E. injection E as <-. apply (set_entry_ok id e); simpl; auto; lia.
  - unfold lru_store, store_size, store_done in E. rewrite Ee in E. cbn [mbind option_bind store_add set_size set_entry l_ents] in E.
    rewrite lookup_insert_eq in E. injection E as <-. unfold set_entry. simpl. rewrite insert_insert_eq. apply lru_ok_wf in Hok as [Hw [[Hs1 Hs2] Hs3]].
    set (e' := mk_entry (e_key e) (e_users e) false (e_thread e) (e_storage e) sz). pose proof (total_nonneg c (l_queue c) Hw).
    assert (lru_wf (set_entry id e' c)) as [] by (apply (set_entry_wf id e); simpl; auto; lia).
    apply lru_ok_wf. split; [by split|]. split; cbn [l_size l_ents l_queue set_entry].
    + rewrite (total_set _ id e); [|apply Hw|apply Hw; by eexists|done]. rewrite uwrap_small by lia. cbn [e_size e']. rewrite (Hs3 id e) by done. lia.
    + intros i x. destruct (decide (i = id)) as [->|Hne]; [rewrite lookup_insert_eq; by intros [= <-]|rewrite lookup_insert_ne by done; apply Hs3].
  - unfold lru_retain in E. rewrite Ee in E. injection E as <-. apply (set_entry_ok id e); simpl; auto; lia.
  - unfold lru_leave in E. rewrite Ee in E. injection E as <-. apply (set_entry_ok id e); simpl; auto; lia.
  - unfold lru_invalidate. rewrite (proj2 (Z.eqb_neq _ _)) by lia. destruct Hok as [? ? ? ? ? Hen ? Hri]. split; simpl; auto; [|lia].
    intros id e Ee. destruct (Hen id e Ee) as (? & ? & ? & r & k & Hr' & Hk). repeat split; auto. exists r, k. split; [lia|done].
  - apply lru_ok_wf in Hok as [Hw _]. by eapply flush_loop_ok.
Qed.

Lemma lru_reachable_ok max destr c : rtc lru_step (lru_init max destr) c -> lru_ok c.
Proof.
  intros Hr. remember (lru_init max destr) as c0 eqn:E0.
  assert (lru_ok c0) as H0.
  { subst c0. destruct os_empty_ok as [Ho He]. split; simpl; try done.
    - intros n. rewrite He. split; [by intros ?%not_elem_of_nil|by intros (? & ? & _)].
    - constructor.
    - intros id. split; [by intros ?%not_elem_of_nil|by intros []].
    - by intros id [].
  }
  clear E0. induction Hr as [|c0 c1 c2 H1 _ IH]; [done|]. apply IH. by eapply lru_step_ok.
Qed.

(** Every call on a cache that is used so returns. *)
Lemma lru_returns max destr c thread key : rtc lru_step (lru_init max destr) c ->
  lru_ok c /\ is_Some (cache_lru c thread key).
Proof.
  intros Hok%lru_reachable_ok. split; [done|].
  destruct (decide (Exists (fun id => e_key <$> l_ents c !! id = Some (combined_key (l_rindex c) key)) (l_queue c))) as [Hx|Hx].
  - apply list.Exists_exists in Hx as (id & Hin & Hk). destruct (l_ents c !! id) as [e|] eqn:Ee; [|done]. injection Hk as Hk.
    rewrite (cache_lru_hit c thread key id e Hok Ee Hk). by eexists.
  - destruct (cache_lru_miss c thread key Hok) as (o1 & c1 & _ & _ & _ & E1 & _); [|by eexists].
    intros id e Ee Hk. apply Hx, list.Exists_exists. exists id. rewrite (lk_queue c Hok), Ee. split; [by eexists|]. by rewrite <- Hk.
Qed.

(** C35: A call for a key that is not cached frees exactly the oldest entries that nobody
    uses, no more than it takes to get below the maximum, and adds an entry at the
    end; it gives up only when every entry left is in use.  No entry in use is ever
    freed. *)
Theorem cache_lru_evicts c thread key : lru_ok c ->
  (forall id e, l_ents c !! id = Some e -> e_key e <> combined_key (l_rindex c) key) ->
  exists o c' ev rest, cache_lru c thread key = Some (o, c') /\ unused c = ev ++ rest /\
    (forall ev1 id ev2, ev = ev1 ++ id :: ev2 -> l_max c <= l_size c - total (l_ents c) ev1) /\
    l_size c' = l_size c - total (l_ents c) ev /\ l_freed c' = l_freed c ++ concat (map (freed_of c) ev) /\
    match o with
    | New id => id = l_fresh c /\ l_size c' < l_max c /\ l_queue c' = filter (fun i => i ∉ ev) (l_queue c) ++ [id] /\
        forall i, i <> id -> l_ents c' !! i = if decide (i ∈ ev) then None else l_ents c !! i
    | Full => l_max c <= l_size c' /\ rest = []
    | _ => False
    end.
Proof.
  intros Hok Hm. destruct (cache_lru_miss c thread key Hok Hm) as (o & c' & c1 & ev & rest & E & _ & Hev & Hu & Hmin & Ho).
  exists o, c', ev, rest. split; [done|]. split; [done|]. split; [done|]. destruct Hev as [_ _ Hz Hq He Hf _].
  destruct o as [| |id|]; [|done| |done].
  - destruct Ho as (-> & H1 & H2). done.
  - destruct Ho as (-> & H1 & H2 & H3 & H4 & H5). rewrite H2, H5. split; [done|]. split; [done|]. split; [done|]. split; [congruence|].
    split; [by rewrite H3, Hq|]. intros i Hi. rewrite H4, lookup_insert_ne by done. apply He.
Qed.

(** After [lru_invalidate] nothing that was cached before is found: every call makes
    a new entry or reports that the cache is full. *)
Theorem lru_invalidate_hides max destr c thread key : rtc lru_step (lru_init max destr) c -> l_rindex c < 2 ^ 64 - 1 ->
  match cache_lru (snd (lru_invalidate c)) thread key with
  | Some (New _, _) | Some (Full, _) => True
  | _ => False
  end.
Proof.
  intros Hok%lru_reachable_ok Hr. pose proof (lru_step_ok _ _ Hok (step_invalidate c Hr)) as Hok'.
  destruct (cache_lru_miss _ thread key Hok') as (o & c' & c1 & ev & rest & -> & _ & _ & _ & _ & Ho); [|by destruct o].
  intros id e Ee Hk. unfold lru_invalidate in Ee, Hk. cbn [snd l_ents l_rindex] in Ee, Hk. rewrite (proj2 (Z.eqb_neq _ _)) in Hk by lia.
  destruct (lk_entry c Hok id e Ee) as (_ & _ & _ & r & k & Hr' & Ek). rewrite Ek in Hk. apply combined_inj in Hk; lia.
Qed.
End Proofs.

(** * Examples *)

Abbreviation cache := (@lru (tree lnode) nat).

(** Two entries of size 2 in a cache of size 3; the first is not used any more. *)
Definition full_cache : option cache :=
  '(_, c) ← cache_lru (lru_init 3 true) 1 (bytes "a"); c ← set_storage 0 100%nat c; c ← lru_store c 0 2; c ← lru_leave c 0;
  '(_, c) ← cache_lru c 1 (bytes "b"); c ← set_storage 1 101%nat c; lru_store c 1 2.

Definition get_cache (c : option cache) : cache := default (lru_init 0 false) c.

Lemma full_cache_reachable : rtc lru_step (lru_init 3 true) (get_cache full_cache).
Proof.
  eapply rtc_l; [eapply (step_cache _ 1%nat (bytes "a")); vm_compute; reflexivity|].
  eapply rtc_l; [eapply (step_set _ 0%nat 100%nat); [vm_compute; reflexivity|reflexivity|done|vm_compute; reflexivity]|].
  eapply rtc_l; [eapply (step_store _ 0%nat 2); [vm_compute; reflexivity|reflexivity|done|done|done|vm_compute; reflexivity]|].
  eapply rtc_l; [eapply (step_leave _ 0%nat); [vm_compute; reflexivity|done|vm_compute; reflexivity]|].
  eapply rtc_l; [eapply (step_cache _ 1%nat (bytes "b")); vm_compute; reflexivity|].
  eapply rtc_l; [eapply (step_set _ 1%nat 101%nat); [vm_compute; reflexivity|reflexivity|done|vm_compute; reflexivity]|].
  eapply rtc_l; [eapply (step_store _ 1%nat 2); [vm_compute; reflexivity|reflexivity|done|done|done|vm_compute; reflexivity]|].
  apply rtc_refl.
Qed.

Lemma full_cache_misses : map_Forall (fun _ e => e_key e <> combined_key 0 (bytes "c")) (l_ents (get_cache full_cache)).
Proof. apply (bool_decide_unpack _). vm_compute. exact I. Qed.

(** The first entry makes room for the third. *)
Lemma cache_lru_evicts_witness : exists o c', cache_lru (get_cache full_cache) 2 (bytes "c") = Some (o, c') /\
  l_freed c' = [100%nat].
Proof.
  destruct (cache_lru_evicts (get_cache full_cache) 2 (bytes "c")) as (o & c' & ev & rest & E & _).
  - exact (lru_reachable_ok _ _ _ full_cache_reachable).
  - exact full_cache_misses.
  - exists o, c'. split; [exact E|]. vm_compute in E. by injection E as <- <-.
Defined.

Lemma lru_invalidate_hides_witness :
  match cache_lru (snd (lru_invalidate (get_cache full_cache))) 2 (bytes "b") with
  | Some (New _, _) | Some (Full, _) => True
  | _ => False
  end.
Proof. apply (lru_invalidate_hides 3 true (get_cache full_cache) 2 (bytes "b") full_cache_reachable). vm_compute. reflexivity. Defined.
