(* ===== verification/LruThreads.v ===== *)
(** LruThreads: the cache of src/util/lib/lru.c when calls overlap.

    [cache_lru], [lru_flush] and [lru_invalidate] hold the mutex of the cache, so one of
    them at a time has begun; [s_pc] says how far it is.  Between any two of its
    accesses other threads may use entries: [lru_retain] and [lru_leave] are one access
    each, [lru_store] is three, the second of which adds to the size of the cache without the
    mutex.  The size is also what [cache_lru] lowers when it frees an entry, with one access
    that reads it and one that writes it.  Two fields are not in the code: how much was
    added between these two accesses, which the second one loses, and the sum of what was
    lost since the last flush. *)
From stdpp Require Import prelude list numbers gmap.
From Stdlib Require Import ZArith Lia.
From S2P Require Import Prelude Avl Strings Lru.

Local Open Scope Z_scope.

Section Threads.
Context {T : Type} `{!OrderedSet lru_compare T} {P : Type}.

(** The owner of the mutex: nobody; [cache_lru] for a key that is not cached, before it
    looks at the size, while it looks for an entry without users, after it freed one of the given
    size, and after it read the size of the cache; and [lru_flush]. *)
Inductive owner :=
  | Idle
  | Making (thread : nat) (key : list Z)
  | Scanning (thread : nat) (key : list Z) (rest : list nat)
  | Freed (thread : nat) (key : list Z) (sz : Z)
  | Subtracting (thread : nat) (key : list Z) (read sz added : Z)
  | Flushing.

(** A store that has begun: the entry has its size, and the cache has it, too. *)
Inductive phase := Sized (sz : Z) | Added.

Record shared := mk_shared {
  s_lru : @lru T P;
  s_pc : owner;
  s_store : gmap nat phase;
  s_lost : Z
}.

Definition shared_init (max : Z) (destr : bool) : shared := mk_shared (lru_init max destr) Idle ∅ 0.

(** What an addition to the size leaves the owner with. *)
Definition note_added (sz : Z) (pc : owner) : owner :=
  match pc with Subtracting t k r o a => Subtracting t k r o (a + sz) | pc => pc end.

(** The uses that are not given back: the one of the thread that stores. *)
Definition kept_users (st : gmap nat phase) (id : nat) : Z := match st !! id with Some _ => 1 | None => 0 end.

Inductive access : shared -> shared -> Prop :=
  (* with the mutex *)
  | a_hit c st l thread key n o c' :
      os_lookup (mk_lnode 0 (combined_key (l_rindex c) key)) (l_tree c) = Some n ->
      cache_lru c thread key = Some (o, c') -> access (mk_shared c Idle st l) (mk_shared c' Idle st l)
  | a_miss c st l thread key :
      os_lookup (mk_lnode 0 (combined_key (l_rindex c) key)) (l_tree c) = None ->
      access (mk_shared c Idle st l) (mk_shared c (Making thread key) st l)
  | a_new c st l thread key t : l_size c < l_max c ->
      os_insert (mk_lnode (l_fresh c) (combined_key (l_rindex c) key)) (l_tree c) = Some t ->
      access (mk_shared c (Making thread key) st l) (mk_shared (with_new c thread key t) Idle st l)
  | a_scan c st l thread key : l_max c <= l_size c ->
      access (mk_shared c (Making thread key) st l) (mk_shared c (Scanning thread key (l_queue c)) st l)
  | a_skip c st l thread key id rest : in_use c id = true ->
      access (mk_shared c (Scanning thread key (id :: rest)) st l) (mk_shared c (Scanning thread key rest) st l)
  | a_full c st l thread key :
      access (mk_shared c (Scanning thread key []) st l) (mk_shared c Idle st l)
  | a_free c st l thread key id rest c' : in_use c id = false -> drop_entry id (l_size c) c = Some c' ->
      access (mk_shared c (Scanning thread key (id :: rest)) st l)
             (mk_shared c' (Freed thread key (size_of (l_ents c) id)) st l)
  | a_read c st l thread key sz :
      access (mk_shared c (Freed thread key sz) st l) (mk_shared c (Subtracting thread key (l_size c) sz 0) st l)
  | a_write c st l thread key r sz a :
      access (mk_shared c (Subtracting thread key r sz a) st l)
             (mk_shared (set_size (u64 (r - sz)) c) (Making thread key) st (l + a))
  | a_invalidate c st l : l_rindex c < 2 ^ 64 - 1 ->
      access (mk_shared c Idle st l) (mk_shared (snd (lru_invalidate c)) Idle st l)
  | a_flush c st l : access (mk_shared c Idle st l) (mk_shared c Flushing st l)
  | a_flush_one c st l id rest c' : l_queue c = id :: rest -> in_use c id = false -> drop_entry id (l_size c) c = Some c' ->
      access (mk_shared c Flushing st l) (mk_shared c' Flushing st l)
  | a_flushed c st l : l_queue c = [] ->
      access (mk_shared c Flushing st l) (mk_shared (set_size 0 c) Idle st 0)
  (* without it *)
  | a_set c pc st l id p e c' : l_ents c !! id = Some e -> e_pending e = true -> 0 < e_users e -> st !! id = None ->
      set_storage id p c = Some c' -> access (mk_shared c pc st l) (mk_shared c' pc st l)
  | a_store_size c pc st l id sz e c' : l_ents c !! id = Some e -> e_pending e = true -> 0 < e_users e -> st !! id = None ->
      0 <= sz < 2 ^ 64 -> store_size id sz c = Some c' ->
      access (mk_shared c pc st l) (mk_shared c' pc (<[id := Sized sz]> st) l)
  | a_store_add c pc st l id sz : st !! id = Some (Sized sz) ->
      access (mk_shared c pc st l) (mk_shared (store_add sz c) (note_added sz pc) (<[id := Added]> st) l)
  | a_store_done c pc st l id c' : st !! id = Some Added -> store_done id c = Some c' ->
      access (mk_shared c pc st l) (mk_shared c' pc (delete id st) l)
  | a_retain c pc st l id e c' : l_ents c !! id = Some e -> 0 < e_users e -> lru_retain c id = Some c' ->
      access (mk_shared c pc st l) (mk_shared c' pc st l)
  | a_leave c pc st l id e c' : l_ents c !! id = Some e -> kept_users st id < e_users e -> lru_leave c id = Some c' ->
      access (mk_shared c pc st l) (mk_shared c' pc st l).

(** * The invariant *)

Implicit Types (c : @lru T P) (e : @lru_entry P).

(** What stores have yet to add to the size. *)
Definition weight (ph : phase) : Z := match ph with Sized sz => sz | Added => 0 end.

Definition owed (st : gmap nat phase) : Z := map_fold (fun _ ph s => weight ph + s) 0 st.

(** What the owner has yet to subtract. *)
Definition debt (pc : owner) : Z :=
  match pc with Freed _ _ sz | Subtracting _ _ _ sz _ => sz | _ => 0 end.

Definition owner_ok (c : @lru T P) (pc : owner) : Prop :=
  match pc with
  | Idle | Flushing => True
  | Making _ key | Scanning _ key _ | Freed _ key _ => missing c key
  | Subtracting _ key r sz a => missing c key /\ 0 <= a /\ u64 (l_size c) = u64 (r + a)
  end.

Record shared_ok (s : shared) : Prop := {
  so_wf : lru_wf (s_lru s);
  so_store id ph : s_store s !! id = Some ph ->
    exists e, l_ents (s_lru s) !! id = Some e /\ 0 < e_users e /\ e_pending e = true /\
      forall sz, ph = Sized sz -> e_size e = sz;
  so_pending id e : l_ents (s_lru s) !! id = Some e -> e_pending e = true -> s_store s !! id = None -> e_size e = 0;
  so_range : 0 <= l_size (s_lru s) < 2 ^ 64 /\ 0 <= s_lost s;
  so_size : s_pc s <> Flushing ->
            u64 (l_size (s_lru s) + s_lost s + owed (s_store s)) =
            u64 (total (l_ents (s_lru s)) (l_queue (s_lru s)) + debt (s_pc s));
  so_owner : owner_ok (s_lru s) (s_pc s)
}.

Lemma owed_insert id ph (st : gmap nat phase) : st !! id = None -> owed (<[id := ph]> st) = weight ph + owed st.
Proof. intros H. unfold owed. apply (map_fold_insert_L (fun _ ph s => weight ph + s)); [intros; lia|done]. Qed.

Lemma owed_delete id ph (st : gmap nat phase) : st !! id = Some ph -> owed (delete id st) = owed st - weight ph.
Proof.
  intros H. pose proof (owed_insert id ph (delete id st) (lookup_delete_eq st id)) as E.
  rewrite insert_delete_eq, insert_id in E by done. lia.
Qed.

Lemma owed_replace id ph ph' (st : gmap nat phase) : st !! id = Some ph ->
  owed (<[id := ph']> st) = owed st - weight ph + weight ph'.
Proof.
  intros H. rewrite <- insert_delete_eq, owed_insert by apply lookup_delete_eq. rewrite (owed_delete id ph st H). lia.
Qed.

(** Equations of sizes hold up to a multiple of 2^64. *)
Lemma u64_shift x y z : u64 x = u64 y -> u64 (x + z) = u64 (y + z).
Proof. unfold uwrap. intros H. by rewrite <- Zplus_mod_idemp_l, H, Zplus_mod_idemp_l. Qed.

Lemma u64_u64 x y : u64 (u64 x + y) = u64 (x + y).
Proof. unfold uwrap. apply Zplus_mod_idemp_l. Qed.

Lemma u64_range x : 0 <= u64 x < 2 ^ 64.
Proof. apply uwrap_range. lia. Qed.

(** An entry that is changed keeps its key, and what the owner knows. *)
Lemma missing_set c id e e' key : missing c key -> l_ents c !! id = Some e -> e_key e' = e_key e -> missing (set_entry id e' c) key.
Proof.
  intros Hm E Ek i x. cbn [set_entry l_ents l_rindex]. destruct (decide (i = id)) as [->|Hne].
  - rewrite lookup_insert_eq. intros [= <-]. rewrite Ek. by apply (Hm id).
  - rewrite lookup_insert_ne by done. apply Hm.
Qed.

Lemma owner_set c id e e' pc : owner_ok c pc -> l_ents c !! id = Some e -> e_key e' = e_key e -> owner_ok (set_entry id e' c) pc.
Proof. intros Ho E Ek. destruct pc; simpl in *; intuition eauto using missing_set. Qed.

(** An access to one entry, which may be that of a store. *)
Lemma set_entry_shared c pc st st' l id e e' :
  shared_ok (mk_shared c pc st l) -> l_ents c !! id = Some e -> e_key e' = e_key e -> 0 <= e_users e' -> 0 <= e_size e' ->
  (forall i, i <> id -> st' !! i = st !! i) ->
  (forall ph, st' !! id = Some ph -> 0 < e_users e' /\ e_pending e' = true /\ forall sz, ph = Sized sz -> e_size e' = sz) ->
  (e_pending e' = true -> st' !! id = None -> e_size e' = 0) ->
  owed st' - owed st = e_size e' - e_size e ->
  shared_ok (mk_shared (set_entry id e' c) pc st' l).
Proof.
  intros [Hw Hst Hp Hr Hs Ho] E Ek Hu Hz Hoth Hid Hpe Howed. simpl in *. split; simpl.
  - by apply (set_entry_wf id e).
  - intros i ph Hi. destruct (decide (i = id)) as [->|Hne]; [rewrite lookup_insert_eq; eauto|].
    rewrite lookup_insert_ne by done. apply Hst. by rewrite <- Hoth.
  - intros i x. destruct (decide (i = id)) as [->|Hne]; [rewrite lookup_insert_eq; by intros [= <-]|].
    rewrite lookup_insert_ne, Hoth by done. apply Hp.
  - done.
  - intros Hpc. specialize (Hs Hpc). rewrite (total_set _ id e); [|apply Hw|apply Hw; by eexists|done].
    apply (u64_shift _ _ (e_size e' - e_size e)) in Hs. etransitivity; [|etransitivity; [exact Hs|]]; f_equal; lia.
  - by apply (owner_set _ _ e).
Qed.

(** Freeing an entry without users. *)
Lemma drop_shared c pc st l id c' :
  shared_ok (mk_shared c pc st l) -> in_use c id = false -> drop_entry id (l_size c) c = Some c' ->
  (forall key, missing c key -> missing c' key) /\ lru_wf c' /\ l_size c' = l_size c /\
  total (l_ents c') (l_queue c') = total (l_ents c) (l_queue c) - size_of (l_ents c) id /\
  (forall i, l_ents c' !! i = if decide (i = id) then None else l_ents c !! i) /\ st !! id = None.
Proof.
  intros [Hw Hst _ _ _ _] Hu Hd. simpl in *. destruct (l_ents c !! id) as [e|] eqn:E; [|unfold drop_entry in Hd; by rewrite E in Hd].
  destruct (drop_entry_wf id (l_size c) c e Hw E) as (t & Hd' & Hw'). rewrite Hd in Hd'. injection Hd' as ->. simpl.
  split; [|split; [done|split; [done|split; [|split]]]].
  - intros key Hm i x Hx. cbn [l_ents] in Hx. apply lookup_delete_Some in Hx as [_ Hx]. by apply (Hm i).
  - apply total_without; [apply Hw|]. apply (lw_queue c Hw). by eexists.
  - intros i. destruct (decide (i = id)) as [->|Hne]; [apply lookup_delete_eq|by apply lookup_delete_ne].
  - destruct (st !! id) as [ph|] eqn:Eph; [|done]. destruct (Hst id ph Eph) as (e' & E' & Hu' & _).
    rewrite E in E'. injection E' as <-. unfold in_use in Hu. rewrite E in Hu. destruct (Z.eqb_spec (e_users e) 0); [lia|done].
Qed.

Lemma dropped_ok c pc st l id c' pc' :
  shared_ok (mk_shared c pc st l) -> in_use c id = false -> drop_entry id (l_size c) c = Some c' ->
  (pc' <> Flushing -> pc <> Flushing /\ debt pc' = debt pc + size_of (l_ents c) id) -> owner_ok c' pc' ->
  shared_ok (mk_shared c' pc' st l).
Proof.
  intros Hok Hu Hd Hdebt Ho. destruct (drop_shared _ _ _ _ _ _ Hok Hu Hd) as (_ & Hw & Hsz & Ht & He & Hnone).
  destruct Hok as [_ Hst Hp Hr Hs _]. simpl in *. split; simpl; [done| | | | |done].
  - intros i ph Hi. rewrite He, decide_False by congruence. by apply Hst.
  - intros i x. rewrite He. case_decide; [done|]. apply Hp.
  - by rewrite Hsz.
  - intros [Hpc E]%Hdebt. rewrite Hsz, Ht, (Hs Hpc), E. f_equal. lia.
Qed.

(** A hit changes no size and adds a use. *)
Lemma hit_shared c st l thread key n o c' :
  shared_ok (mk_shared c Idle st l) -> os_lookup (mk_lnode 0 (combined_key (l_rindex c) key)) (l_tree c) = Some n ->
  cache_lru c thread key = Some (o, c') -> shared_ok (mk_shared c' Idle st l).
Proof.
  intros Hok El E. pose proof (so_wf _ Hok) as Hw. simpl in Hw. unfold cache_lru in E. rewrite El in E.
  destruct (l_ents c !! ln_id n) as [e|] eqn:Ee; [|done]. cbn [mbind option_bind] in E.
  destruct (_ && _); injection E as <- <-; [done|]. destruct (lw_entry c Hw _ e Ee) as (Hu & Hz & _).
  assert (shared_ok (mk_shared (set_entry (ln_id n) (add_users 1 e) c) Idle st l)) as [Hw' Hst' Hp' Hr' Hs' Ho'].
  { apply (set_entry_shared c Idle st st l (ln_id n) e); simpl; try done; try lia.
    - intros ph Hph. destruct (so_store _ Hok _ _ Hph) as (e' & E' & ? & ? & ?). simpl in E'. simplify_eq. repeat split; auto. lia.
    - intros Hpe Hn. by apply (so_pending _ Hok (ln_id n) e). }
  assert (ln_id n ∈ l_queue c) as Hin by (apply (lw_queue c Hw); by eexists).
  pose proof (without_perm (ln_id n) (l_queue c) (lw_nodup c Hw) Hin) as Hperm. simpl in *.
  split; simpl; try done.
  - destruct Hw'. split; simpl in *; try done; [by rewrite Hperm|]. intros i. by rewrite Hperm.
  - by rewrite (total_perm _ _ _ Hperm).
Qed.

Lemma new_shared c st l thread key t :
  shared_ok (mk_shared c (Making thread key) st l) ->
  os_insert (mk_lnode (l_fresh c) (combined_key (l_rindex c) key)) (l_tree c) = Some t ->
  shared_ok (mk_shared (with_new c thread key t) Idle st l).
Proof.
  intros [Hw Hst Hp Hr Hs Ho] E. simpl in *. destruct (insert_wf c thread key Hw Ho) as (t' & E' & Hw'). rewrite E in E'. injection E' as <-.
  pose proof (fresh_None c Hw) as Hnone. split; simpl; [done| | |done| |done].
  - intros i ph Hi. destruct (Hst i ph Hi) as (e & Ee & He). exists e. rewrite lookup_insert_ne by congruence. done.
  - intros i x. destruct (decide (i = l_fresh c)) as [->|Hne]; [rewrite lookup_insert_eq; by intros [= <-]|].
    rewrite lookup_insert_ne by done. apply Hp.
  - intros _. specialize (Hs ltac:(done)). pose proof (total_new c thread key t Hw) as Ht. cbn [with_new l_ents l_queue] in Ht. by rewrite Ht.
Qed.

(** Accesses to the size alone. *)
Lemma set_size_shared c pc pc' st st' l l' size :
  shared_ok (mk_shared c pc st l) -> 0 <= size < 2 ^ 64 -> 0 <= l' ->
  (forall id ph, st' !! id = Some ph -> exists e, l_ents c !! id = Some e /\ 0 < e_users e /\ e_pending e = true /\
     forall sz, ph = Sized sz -> e_size e = sz) ->
  (forall id, st' !! id = None -> st !! id = None) ->
  (pc' <> Flushing -> u64 (size + l' + owed st') = u64 (total (l_ents c) (l_queue c) + debt pc')) ->
  owner_ok (set_size size c) pc' -> shared_ok (mk_shared (set_size size c) pc' st' l').
Proof.
  intros [Hw Hst Hp Hr Hs Ho] Hsz Hl Hst' Hnone Hs' Ho'. simpl in *. split; simpl; try done; [by destruct Hw|]. intros id e E Hpe Hn. eauto.
Qed.

Lemma store_add_shared c pc st l id sz :
  shared_ok (mk_shared c pc st l) -> st !! id = Some (Sized sz) ->
  shared_ok (mk_shared (store_add sz c) (note_added sz pc) (<[id := Added]> st) l).
Proof.
  intros Hok E. destruct (so_store _ Hok id _ E) as (e & Ee & Hu & Hpe & Hz). simpl in Ee. specialize (Hz sz eq_refl).
  destruct (lw_entry _ (so_wf _ Hok) id e Ee) as (_ & Hz0 & _).
  apply (set_size_shared c pc _ st _ l); [done|apply u64_range|apply Hok| | | |].
  - intros i ph. destruct (decide (i = id)) as [->|Hne]; [rewrite lookup_insert_eq; intros [= <-]; by exists e|].
    rewrite lookup_insert_ne by done. apply (so_store _ Hok).
  - intros i. destruct (decide (i = id)) as [->|Hne]; [by rewrite lookup_insert_eq|by rewrite lookup_insert_ne].
  - intros Hpc. assert (pc <> Flushing) as Hpc' by (by intros ->). pose proof (so_size _ Hok Hpc') as Hs. simpl in Hs.
    rewrite (owed_replace id (Sized sz) Added st E). cbn [weight].
    assert (debt (note_added sz pc) = debt pc) as -> by (by destruct pc). rewrite <- Hs.
    replace (u64 (l_size c + sz) + l + (owed st - sz + 0)) with (u64 (l_size c + sz) + (l + owed st - sz)) by lia.
    rewrite u64_u64. f_equal. lia.
  - pose proof (so_owner _ Hok) as Ho. simpl in Ho. destruct pc; simpl in *; try done. destruct Ho as (Hm & Ha & Hr). split; [done|]. split; [lia|].
    pose proof (u64_u64 (l_size c + sz) 0) as Hi. rewrite !Z.add_0_r in Hi. rewrite Hi, Z.add_assoc. by apply u64_shift.
Qed.

Lemma write_shared c st l thread key r sz a :
  shared_ok (mk_shared c (Subtracting thread key r sz a) st l) ->
  shared_ok (mk_shared (set_size (u64 (r - sz)) c) (Making thread key) st (l + a)).
Proof.
  intros Hok. pose proof (so_owner _ Hok) as (Hm & Ha & Hr). simpl in *. pose proof (so_range _ Hok) as [_ Hl]. simpl in Hl.
  apply (set_size_shared c (Subtracting thread key r sz a) _ st _ l); [done|apply u64_range|lia|apply (so_store _ Hok)|done| |done].
  intros _. pose proof (so_size _ Hok ltac:(done)) as Hs. simpl in *.
  replace (u64 (r - sz) + (l + a) + owed st) with (u64 (r - sz) + (l + a + owed st)) by lia. rewrite u64_u64.
  apply (u64_shift _ _ (- sz)) in Hs. apply (u64_shift _ _ (l + owed st - sz)) in Hr.
  replace (l_size c + (l + owed st - sz)) with (l_size c + l + owed st + - sz) in Hr by lia. rewrite Hs in Hr.
  replace (total (l_ents c) (l_queue c) + sz + - sz) with (total (l_ents c) (l_queue c) + 0) in Hr by lia. rewrite Hr. f_equal. lia.
Qed.

Lemma flushed_shared c st l : shared_ok (mk_shared c Flushing st l) -> l_queue c = [] ->
  shared_ok (mk_shared (set_size 0 c) Idle st 0).
Proof.
  intros Hok Hq. assert (forall id, st !! id = None) as Hst.
  { intros id. destruct (st !! id) as [ph|] eqn:E; [|done]. destruct (so_store _ Hok id ph E) as (e & Ee & _). simpl in Ee.
    exfalso. apply (not_elem_of_nil id). rewrite <- Hq. apply (lw_queue c (so_wf _ Hok)). by eexists. }
  apply (set_size_shared c Flushing _ st _ l); [done|lia|done|apply (so_store _ Hok)|done| |done].
  intros _. rewrite Hq. assert (st = ∅) as -> by (by apply map_empty). done.
Qed.

(** The owner goes on. *)
Lemma owner_shared c pc pc' st l :
  shared_ok (mk_shared c pc st l) -> (pc' <> Flushing -> pc <> Flushing /\ debt pc' = debt pc) -> owner_ok c pc' ->
  shared_ok (mk_shared c pc' st l).
Proof.
  intros [? ? ? ? Hs ?] Hpc Ho. split; simpl in *; try done. intros [H1 ->]%Hpc. by apply Hs.
Qed.

Lemma access_ok s s' : shared_ok s -> access s s' -> shared_ok s'.
Proof.
  intros Hok H. pose proof (so_wf _ Hok) as Hw. destruct H as [c st l thread key n o c' El E|c st l thread key El|c st l thread key t Hlt E
    |c st l thread key Hle|c st l thread key id rest Hu|c st l thread key|c st l thread key id rest c' Hu Hd|c st l thread key sz
    |c st l thread key r sz a|c st l Hr|c st l|c st l id rest c' Hq Hu Hd|c st l Hq|c pc st l id p e c' Ee Hp Hu Hst E
    |c pc st l id sz e c' Ee Hp Hu Hst Hsz E|c pc st l id sz Hst|c pc st l id c' Hst E|c pc st l id e c' Ee Hu E|c pc st l id e c' Ee Hu E]; simpl in Hw.
  - by eapply hit_shared.
  - apply (owner_shared c Idle); [done|done|]. intros id e Ee. pose proof (lookup_spec c (combined_key (l_rindex c) key) Hw) as Hl.
    rewrite El in Hl. by apply (Hl id).
  - by eapply new_shared.
  - apply (owner_shared c (Making thread key)); [done|done|apply (so_owner _ Hok)].
  - apply (owner_shared c (Scanning thread key (id :: rest))); [done|done|apply (so_owner _ Hok)].
  - by apply (owner_shared c (Scanning thread key [])).
  - apply (dropped_ok c (Scanning thread key (id :: rest)) st l id); [done|done|done|done|].
    destruct (drop_shared _ _ _ _ _ _ Hok Hu Hd) as (Hm & _). apply Hm, (so_owner _ Hok).
  - apply (owner_shared c (Freed thread key sz)); [done|done|]. split; [apply (so_owner _ Hok)|]. split; [done|]. by rewrite Z.add_0_r.
  - by apply write_shared.
  - unfold lru_invalidate. rewrite (proj2 (Z.eqb_neq _ _)) by lia. destruct Hok as [[? ? ? ? ? Hen Hri] ? ? ? ? ?]. split; simpl in *; try done.
    split; simpl; auto; [|lia]. intros id e Ee. destruct (Hen id e Ee) as (? & ? & r & k & Hr' & Hk). repeat split; auto. exists r, k. split; [lia|done].
  - by apply (owner_shared c Idle).
  - by apply (dropped_ok c Flushing st l id).
  - by eapply flushed_shared.
  - unfold set_storage in E. rewrite Ee in E. injection E as <-. destruct (lw_entry c Hw id e Ee) as (? & ? & _).
    apply (set_entry_shared c pc st st l id e); simpl; try done; try lia.
    + intros ph Hph. congruence.
    + intros _ _. by apply (so_pending _ Hok id e).
  - unfold store_size in E. rewrite Ee in E. injection E as <-.
    apply (set_entry_shared c pc st _ l id e); simpl; try done; try lia.
    + intros i Hi. by rewrite lookup_insert_ne.
    + intros ph. rewrite lookup_insert_eq. intros [= <-]. repeat split; auto. congruence.
    + by rewrite lookup_insert_eq.
    + rewrite owed_insert by done. rewrite (so_pending _ Hok id e) by done. simpl. lia.
  - by apply store_add_shared.
  - unfold store_done in E. destruct (so_store _ Hok id _ Hst) as (e & Ee & Hu & Hp & _). simpl in Ee. rewrite Ee in E. injection E as <-.
    destruct (lw_entry c Hw id e Ee) as (? & ? & _). apply (set_entry_shared c pc st _ l id e); simpl; try done; try lia.
    + intros i Hi. by rewrite lookup_delete_ne.
    + by rewrite lookup_delete_eq.
    + rewrite (owed_delete id Added) by done. simpl. lia.
  - unfold lru_retain in E. rewrite Ee in E. injection E as <-. destruct (lw_entry c Hw id e Ee) as (? & ? & _).
    apply (set_entry_shared c pc st st l id e); simpl; try done; try lia.
    + intros ph Hph. destruct (so_store _ Hok id ph Hph) as (e' & E' & ? & ? & ?). simpl in E'. simplify_eq. repeat split; auto. lia.
    + intros Hpe Hn. by apply (so_pending _ Hok id e).
  - unfold lru_leave in E. rewrite Ee in E. injection E as <-. destruct (lw_entry c Hw id e Ee) as (? & ? & _).
    unfold kept_users in Hu. apply (set_entry_shared c pc st st l id e); simpl; try done; try (destruct (st !! id); lia).
    + intros ph Hph. rewrite Hph in Hu. destruct (so_store _ Hok id ph Hph) as (e' & E' & ? & ? & ?). simpl in E'. simplify_eq. repeat split; auto. lia.
    + intros Hpe Hn. by apply (so_pending _ Hok id e).
Qed.

Lemma shared_init_ok max destr : shared_ok (shared_init max destr).
Proof.
  pose proof (lru_reachable_ok max destr (lru_init max destr : @lru T P) (rtc_refl _ _)) as [Hw _]%lru_ok_wf.
  split; simpl; try done; intros; by rewrite lookup_empty in *.
Qed.

Lemma reachable_shared max destr s : rtc access (shared_init max destr) s -> shared_ok s.
Proof.
  intros Hr. remember (shared_init max destr) as s0 eqn:E. assert (shared_ok s0) as H0 by (subst; apply shared_init_ok). clear E.
  induction Hr as [|s0 s1 s2 H1 _ IH]; [done|]. apply IH. by eapply access_ok.
Qed.
(** * A call that nobody interrupts *)

Lemma drop_entry_size id z c : drop_entry id z c = set_size z <$> drop_entry id (l_size c) c.
Proof.
  unfold drop_entry. destruct (l_ents c !! id) as [e|]; [|done]. cbn [mbind option_bind]. by destruct (os_delete _ _).
Qed.

Lemma find_split {A} (f : A -> bool) q :
  match List.find f q with
  | Some x => exists pre post, q = pre ++ x :: post /\ Forall (fun y => f y = false) pre /\ f x = true
  | None => Forall (fun y => f y = false) q
  end.
Proof.
  induction q as [|y q IH]; simpl; [done|]. destruct (f y) eqn:E; [by exists [], q|]. destruct (List.find f q) as [x|]; [|by constructor].
  destruct IH as (pre & post & -> & Hp & Hx). exists (y :: pre), post. split; [done|]. split; [by constructor|done].
Qed.

Lemma scan_runs c st l thread key pre rest : Forall (fun id => negb (in_use c id) = false) pre ->
  rtc access (mk_shared c (Scanning thread key (pre ++ rest)) st l) (mk_shared c (Scanning thread key rest) st l).
Proof.
  induction 1 as [|id pre Hi _ IH]; [apply rtc_refl|]. eapply rtc_l; [|exact IH]. apply a_skip. by apply negb_false_iff.
Qed.

Lemma set_size_wf z c : lru_wf c -> lru_wf (set_size z c).
Proof. intros []. by split. Qed.

(** Where the loop that makes room leaves the owner. *)
Definition made (ok : bool) thread key : owner := if ok then Making thread key else Scanning thread key [].

Lemma evict_runs fuel st l thread key : forall c, lru_wf c -> missing c key -> (length (l_queue c) <= fuel)%nat ->
  exists ok c', evict_loop fuel c = Some (ok, c') /\ lru_wf c' /\ missing c' key /\ l_rindex c' = l_rindex c /\
    (ok = true -> l_size c' < l_max c') /\
    rtc access (mk_shared c (Making thread key) st l) (mk_shared c' (made ok thread key) st l).
Proof.
  induction fuel as [|fuel IH]; intros c Hw Hm Hf; cbn [evict_loop]; destruct (Z.ltb_spec (l_size c) (l_max c)) as [Hlt|Hge];
    try (exists true, c; do 5 (split; [done|]); apply rtc_refl); pose proof (find_split (fun id => negb (in_use c id)) (l_queue c)) as Hfs.
  { destruct (l_queue c) as [|id q] eqn:Hq; [|simpl in Hf; lia]. simpl. exists false, c. do 5 (split; [done|]).
    pose proof (a_scan c st l thread key Hge) as Hs. rewrite Hq in Hs. by apply rtc_once. }
  destruct (List.find _ (l_queue c)) as [id|].
  2: { exists false, c. do 5 (split; [done|]). eapply rtc_l; [by apply a_scan|].
       pose proof (scan_runs c st l thread key (l_queue c) [] Hfs) as Hrun. by rewrite app_nil_r in Hrun. }
  destruct Hfs as (pre & post & Hq & Hpre & Hid%negb_true_iff). assert (id ∈ l_queue c) as Hin by (rewrite Hq; set_solver).
  destruct (proj1 (lw_queue c Hw id) Hin) as [e Ee]. destruct (drop_entry_wf id (l_size c) c e Hw Ee) as (t & Hd & Hw1).
  rewrite drop_entry_size, Hd. cbn [fmap option_fmap option_map mbind option_bind]. set (c1 := mk_lru _ _ _ _ _ _ _ _ _) in *.
  set (z := u64 _). assert (missing (set_size z c1) key) as Hm1.
  { intros i x Hx. cbn [set_size c1 l_ents] in Hx. apply lookup_delete_Some in Hx as [_ Hx]. by apply (Hm i). }
  destruct (IH (set_size z c1)) as (ok & c' & -> & Hw' & Hm' & Hri & Hok & Hrun); [by apply set_size_wf|done| |].
  { cbn [set_size c1 l_queue]. pose proof (without_perm id (l_queue c) (lw_nodup c Hw) Hin) as Hp%Permutation_length.
    rewrite length_app in Hp. simpl in Hp. lia. }
  exists ok, c'. split; [done|]. split; [done|]. split; [done|]. split; [done|]. split; [done|].
  eapply rtc_l; [by apply a_scan|]. rewrite Hq. etransitivity; [by apply scan_runs|].
  eapply rtc_l; [by apply a_free|]. eapply rtc_l; [apply a_read|]. eapply rtc_l; [apply a_write|]. by rewrite Z.add_0_r.
Qed.

Lemma call_runs c st l thread key : shared_ok (mk_shared c Idle st l) ->
  exists o c', cache_lru c thread key = Some (o, c') /\ rtc access (mk_shared c Idle st l) (mk_shared c' Idle st l).
Proof.
  intros Hok. pose proof (so_wf _ Hok) as Hw. simpl in Hw. pose proof (lookup_spec c (combined_key (l_rindex c) key) Hw) as Hl.
  destruct (os_lookup _ (l_tree c)) as [n|] eqn:El.
  - assert (exists o c', cache_lru c thread key = Some (o, c')) as (o & c' & E).
    { unfold cache_lru. rewrite El. destruct Hl as (e & -> & _). cbn [mbind option_bind]. destruct (_ && _); by eexists _, _. }
    exists o, c'. split; [done|]. apply rtc_once. by eapply a_hit.
  - assert (missing c key) as Hm by exact Hl.
    destruct (evict_runs (length (l_queue c)) st l thread key c Hw Hm) as (ok & c1 & E & Hw1 & Hm1 & Hri & Hlt & Hrun); [done|].
    unfold cache_lru. rewrite El, E. cbn [mbind option_bind]. destruct ok; cbn [made] in Hrun.
    + destruct (insert_wf c1 thread key Hw1 Hm1) as (t & Et & _). rewrite <- Hri, Et. eexists _, _. split; [done|].
      eapply rtc_l; [by apply a_miss|]. etransitivity; [exact Hrun|]. apply rtc_once. by apply a_new; auto.
    + eexists _, _. split; [done|]. eapply rtc_l; [by apply a_miss|]. etransitivity; [exact Hrun|]. apply rtc_once, a_full.
Qed.

Lemma reach_call max destr c st l thread key o c' :
  rtc access (shared_init max destr) (mk_shared c Idle st l) -> cache_lru c thread key = Some (o, c') ->
  rtc access (shared_init max destr) (mk_shared c' Idle st l).
Proof.
  intros R E. destruct (call_runs c st l thread key (reachable_shared _ _ _ R)) as (o' & c'' & E' & R').
  rewrite E in E'. injection E' as <- <-. by etransitivity.
Qed.

(** C34: whatever the threads that use a cache do, at the granularity of their accesses to
    it, every entry is once in the tree and once in the list; an entry that is being stored
    stays.  While nobody holds the mutex, the size of the cache is the sum of the sizes
    stored in its entries, less what stores have yet to add to it and less what was lost
    since the last flush: the sizes whose addition came between the read and the write with
    which [cache_lru] subtracts the size of an entry it frees.  So it is exactly the sum
    if no store is under way and none was lost.  A call that has the mutex to itself returns,
    and does to the cache what [cache_lru] does. *)
Theorem lru_invariant max destr s : rtc access (shared_init max destr) s ->
  lru_wf (s_lru s) /\
  (forall id ph, s_store s !! id = Some ph -> is_Some (l_ents (s_lru s) !! id)) /\
  (s_pc s = Idle ->
    let sum := total (l_ents (s_lru s)) (l_queue (s_lru s)) in
    0 <= s_lost s /\ u64 (l_size (s_lru s) + s_lost s + owed (s_store s)) = u64 sum /\
    (s_lost s = 0 -> s_store s = ∅ -> sum < 2 ^ 64 -> l_size (s_lru s) = sum) /\
    forall thread key, exists o c', cache_lru (s_lru s) thread key = Some (o, c') /\
      rtc access s (mk_shared c' Idle (s_store s) (s_lost s))).
Proof.
  intros Hok%reachable_shared. destruct s as [c pc st l]. cbn [s_lru s_store s_pc s_lost]. pose proof Hok as [Hw Hst _ [Hr Hl] Hs _].
  cbn [s_lru s_store s_pc s_lost] in *. split; [done|]. split; [intros id ph (e & -> & _)%Hst; by eexists|]. intros ->.
  specialize (Hs ltac:(done)). simpl debt in Hs. rewrite Z.add_0_r in Hs. split; [done|]. split; [done|]. split.
  - intros -> -> Hlt. pose proof (total_nonneg c (l_queue c) Hw). change (owed ∅) with 0 in Hs. rewrite !Z.add_0_r in Hs.
    rewrite !uwrap_small in Hs by lia. done.
  - intros thread key. by apply call_runs.
Qed.
End Threads.

(** * Examples *)

Abbreviation cache := (@lru (tree lnode) nat).

Definition get (c : option cache) : cache := default (lru_init 0 false) c.

Definition called (r : option (outcome * cache)) : cache := get (snd <$> r).

(** Two threads make entries; the first stores its own, of size 10, and leaves it, and a third
    one calls for another key and frees it. *)
Definition made_one : cache := called (cache_lru (lru_init 1 true) 1 (bytes "a")).
Definition made_two : cache := called (cache_lru made_one 2 (bytes "b")).
Definition sized_one : cache := get (store_size 0 10 made_two).
Definition added_one : cache := store_add 10 sized_one.
Definition stored_one : cache := get (store_done 0 added_one).
Definition left_one : cache := get (lru_leave stored_one 0).

Definition freed_one : cache := get (drop_entry 0 (l_size left_one) left_one).
Definition sized_two : cache := get (store_size 1 7 freed_one).
Definition added_two : cache := store_add 7 sized_two.
Definition subtracted : cache := set_size (u64 (10 - 10)) added_two.
Definition stored_two : cache := get (store_done 1 subtracted).

Lemma left_one_reachable : rtc access (shared_init 1 true) (mk_shared left_one Idle ∅ 0).
Proof.
  assert (rtc access (shared_init 1 true) (mk_shared made_two Idle ∅ 0)) as R.
  { eapply (reach_call _ _ made_one ∅ 0 2%nat (bytes "b") (New 1)); [|vm_compute; reflexivity].
    eapply (reach_call _ _ _ ∅ 0 1%nat (bytes "a") (New 0)); [apply rtc_refl|vm_compute; reflexivity]. }
  assert (rtc access (shared_init 1 true) (mk_shared sized_one Idle (<[0%nat := Sized 10]> ∅) 0)) as R1.
  { eapply rtc_r; [exact R|]. eapply a_store_size; [vm_compute; reflexivity|done|done|done|lia|vm_compute; reflexivity]. }
  assert (rtc access (shared_init 1 true) (mk_shared stored_one Idle (delete 0%nat (<[0%nat := Added]> (<[0%nat := Sized 10]> ∅))) 0)) as R2.
  { eapply rtc_r; [eapply rtc_r; [exact R1|]|].
    - apply a_store_add. apply lookup_insert_eq.
    - apply a_store_done; [apply lookup_insert_eq|vm_compute; reflexivity]. }
  eapply rtc_r; [exact R2|]. eapply (a_leave stored_one _ _ _ 0%nat); vm_compute; reflexivity.
Qed.

(** The second thread stores its entry, of size 7, between the two accesses of the third to
    the size: what it added is lost, and the cache holds more than its size says. *)
Theorem lru_size_race :
  rtc access (shared_init 1 true) (mk_shared stored_two (Making 3 (bytes "c")) ∅ 7) /\
  l_size stored_two = 0 /\ total (l_ents stored_two) (l_queue stored_two) = 7.
Proof.
  split; [|by vm_compute]. etransitivity; [exact left_one_reachable|].
  eapply rtc_l; [apply (a_miss left_one ∅ 0 3%nat (bytes "c")); vm_compute; reflexivity|].
  eapply rtc_l; [apply a_scan; vm_compute; congruence|].
  eapply rtc_l; [apply (a_free left_one ∅ 0 3%nat (bytes "c") 0%nat [1%nat] freed_one); vm_compute; reflexivity|].
  eapply rtc_l; [apply a_read|].
  eapply rtc_l; [eapply (a_store_size freed_one _ ∅ 0 1%nat 7); [vm_compute; reflexivity|done|done|done|lia|vm_compute; reflexivity]|].
  eapply rtc_l; [apply (a_store_add sized_two); apply lookup_insert_eq|].
  eapply rtc_l; [apply a_write|].
  eapply rtc_l; [apply (a_store_done subtracted _ _ _ 1%nat stored_two); [apply lookup_insert_eq|vm_compute; reflexivity]|].
  apply rtc_refl.
Qed.

Lemma lru_invariant_witness :
  l_size left_one = 10 /\ exists o c', cache_lru left_one 3 (bytes "c") = Some (o, c') /\
    rtc access (mk_shared left_one Idle ∅ 0) (mk_shared c' Idle ∅ 0).
Proof.
  destruct (lru_invariant 1 true _ left_one_reachable) as (_ & _ & H). destruct (H eq_refl) as (_ & _ & Hs & Hc).
  split; [etransitivity; [apply Hs; by vm_compute|by vm_compute]|]. apply (Hc 3%nat (bytes "c")).
Defined.
