(* ===== verification/CachedRegex.v ===== *)
(** CachedRegex: regular expressions compiled on first use and shared by threads
    (src/util/lib/cached_regex.c).

    The PCRE library is the class [Pcre].  [cached_regex_match] and [cached_regex_replace]
    are the calls of one thread.  The section on threads splits [cached_regex_match] at its
    accesses to the shared structure, in a step relation over any number of threads. *)
From stdpp Require Import prelude list numbers gmap.
From Stdlib Require Import ZArith Lia.
From S2P Require Import Prelude BufString Strings.

Local Open Scope Z_scope.

(** What [pcre_exec] returns: captured offsets, no match, or an error. *)
Inductive exec_result :=
  | Match (offset : list (Z * Z))
  | NoMatch
  | ExecError.

Class Pcre := {
  pcre : Type;
  pcre_extra : Type;
  PCRE_NO_AUTO_CAPTURE : Z;
  pcre_compile : list Z -> Z -> option pcre;
  pcre_study : pcre -> option (option pcre_extra);
  pcre_capture_count : pcre -> option pcre_extra -> option Z;
  pcre_exec : pcre -> option pcre_extra -> list Z -> Z -> exec_result }.

Section Code.
Context `{Pcre}.

Record cached_regex := mk_regex {
  regex : list Z;
  options : Z;
  pe : option pcre;
  extra : option pcre_extra;
  capture_count : Z;
  state : Z }.

(** The fields that are set by the thread that wins the race. *)
Definition install (r : cached_regex) (re : pcre) (ex : option pcre_extra) (count : Z) : cached_regex :=
  if state r =? 0 then mk_regex (regex r) (options r) (Some re) ex count 1 else r.

(** The value returned, the captures, and the structure after the call. *)
Definition cached_regex_match (r : cached_regex) (str : list Z) (ovlen : Z) : Z * list (Z * Z) * cached_regex :=
  match regex r with
  | [] => (0, [], r)
  | _ =>
    let compiled :=
      if state r =? 1 then re ← pe r; Some (re, extra r, false)
      else
        re ← pcre_compile (regex r) ((if ovlen =? 0 then PCRE_NO_AUTO_CAPTURE else 0) .| options r);
        ex ← pcre_study re;
        Some (re, ex, true) in
    match compiled with
    | None => (0, [], r)
    | Some (re, ex, alloced) =>
      match pcre_exec re ex str 0 with
      | ExecError => (0, [], r)
      | Match ov => (1, ov, if (alloced : bool) then install r re ex (capture_count r) else r)
      | NoMatch => (0, [], if (alloced : bool) then install r re ex (capture_count r) else r)
      end
    end
  end.

Context (junk : nat -> list Z).

(** The bytes between two offsets; both are negative for a group that is not set. *)
Definition slice (s : list Z) (a b : Z) : list Z := take (Z.to_nat (b - a)) (drop (Z.to_nat a) s).

Definition flush (result : buf_string) (pending : list Z) : option buf_string :=
  match pending with [] => Some result | _ => snd <$> bufwrite junk result pending end.

(** The walk through the replacement; [pending] are the characters from
    [replacement_start] to [curr_replacement]. *)
Fixpoint walk (result : buf_string) (haystack : list Z) (offset : list (Z * Z)) (count : Z) (repl pending : list Z) : option buf_string :=
  match repl with
  | [] => flush result pending
  | c :: repl' =>
    match repl' with
    | d :: repl'' =>
      if (c =? 36) && ((d =? 36) || isdigit d) then
        result ← flush result pending;
        if d =? 36 then walk result haystack offset count repl'' [36]
        else
          result ← (if d - 48 <? count then
                      '(a, b) ← offset !! Z.to_nat (d - 48);
                      snd <$> bufwrite junk result (slice haystack a b)
                    else Some result);
          walk result haystack offset count repl'' []
      else walk result haystack offset count repl' (pending ++ [c])
    | [] => walk result haystack offset count repl' (pending ++ [c])
    end
  end.

(** The loop over the matches: the value returned, and where the last match ended. *)
Fixpoint replace_matches (fuel : nat) (re : pcre) (ex : option pcre_extra) (count : Z) (result : buf_string)
    (replacement haystack : list Z) (haystack_offset : Z) (global : bool) : option (Z * buf_string * Z) :=
  match fuel with
  | O => None
  | S fuel =>
    match pcre_exec re ex haystack haystack_offset with
    | NoMatch => Some (0, result, haystack_offset)
    | ExecError => Some (-1, result, haystack_offset)
    | Match offset =>
      '(s, e) ← offset !! 0%nat;
      '(_, result) ← bufwrite junk result (slice haystack haystack_offset s);
      result ← walk result haystack offset count replacement [];
      if global then replace_matches fuel re ex count result replacement haystack e global else Some (0, result, e)
    end
  end.

Definition cached_regex_replace (fuel : nat) (result : buf_string) (r : cached_regex) (replacement haystack : list Z) (global : bool) :
    option (Z * buf_string * cached_regex) :=
  match regex r with
  | [] => '(_, result) ← bufwrite junk result haystack; Some (0, result, r)
  | _ =>
    let compiled :=
      if state r =? 1 then re ← pe r; Some (re, extra r, capture_count r, false)
      else
        re ← pcre_compile (regex r) (options r);
        ex ← pcre_study re;
        n ← pcre_capture_count re ex;
        Some (re, ex, n + 1, true) in
    match compiled with
    | None => Some (-1, result, r)
    | Some (re, ex, count, alloced) =>
      '(res, result, o) ← replace_matches fuel re ex count result replacement haystack 0 global;
      if res =? -1 then Some (-1, result, r)
      else
        '(_, result) ← bufwrite junk result (slice haystack o (size haystack));
        Some (0, result, if (alloced : bool) then install r re ex count else r)
    end
  end.

(** Frees the pattern; the structure is as new. *)
Definition cached_regex_cleanup (r : cached_regex) : cached_regex := mk_regex (regex r) (options r) None None (capture_count r) 0.
End Code.
Arguments cached_regex {_}.

(** * Threads *)

Section Threads.
Context `{Pcre} (rx : list Z) (opts ovlen : Z).

(** A call of [cached_regex_match] between its accesses to the structure.  A pattern that
    was compiled is named, so that its life time can be told. *)
Inductive thread :=
  | Called (str : list Z)
  | Cached (str : list Z)
  | Shared (str : list Z) (id : nat)
  | Alloced (str : list Z) (id : nat)
  | Matched (str : list Z) (id : nat)
  | Won (str : list Z) (id : nat)
  | Written (str : list Z) (id : nat)
  | Done (str : list Z) (ret : Z).

Record config := mk_config {
  c_state : Z;
  c_pe : option nat;
  c_live : gset nat;
  c_threads : list thread }.

Definition the_options : Z := (if ovlen =? 0 then PCRE_NO_AUTO_CAPTURE else 0) .| opts.

(** The pattern, which every thread compiles alike, and what it answers. *)
Definition pattern : option (pcre * option pcre_extra) :=
  re ← pcre_compile rx the_options; ex ← pcre_study re; Some (re, ex).

Definition answer (str : list Z) : exec_result :=
  match pattern with Some (re, ex) => pcre_exec re ex str 0 | None => ExecError end.

Definition ret_of (r : exec_result) : Z := match r with Match _ => 1 | _ => 0 end.

(** The step of one thread. *)
Definition goto (c : config) (i : nat) (t : thread) : config := mk_config (c_state c) (c_pe c) (c_live c) (<[i := t]> (c_threads c)).

Inductive step : config -> config -> Prop :=
  (** reading the state *)
  | step_cached c i str : c_threads c !! i = Some (Called str) -> c_state c = 1 -> step c (goto c i (Cached str))
  | step_alloc c i str id :
      c_threads c !! i = Some (Called str) -> c_state c <> 1 -> pattern <> None -> id ∉ c_live c ->
      step c (mk_config (c_state c) (c_pe c) ({[id]} ∪ c_live c) (<[i := Alloced str id]> (c_threads c)))
  | step_nocompile c i str :
      c_threads c !! i = Some (Called str) -> c_state c <> 1 -> pattern = None -> step c (goto c i (Done str 0))
  (** reading the pattern, and matching with it *)
  | step_load c i str id : c_threads c !! i = Some (Cached str) -> c_pe c = Some id -> step c (goto c i (Shared str id))
  | step_shared c i str id :
      c_threads c !! i = Some (Shared str id) -> id ∈ c_live c -> step c (goto c i (Done str (ret_of (answer str))))
  | step_exec c i str id :
      c_threads c !! i = Some (Alloced str id) -> id ∈ c_live c -> answer str <> ExecError -> step c (goto c i (Matched str id))
  | step_error c i str id :
      c_threads c !! i = Some (Alloced str id) -> id ∈ c_live c -> answer str = ExecError ->
      step c (mk_config (c_state c) (c_pe c) (c_live c ∖ {[id]}) (<[i := Done str 0]> (c_threads c)))
  (** the race *)
  | step_win c i str id :
      c_threads c !! i = Some (Matched str id) -> c_state c = 0 ->
      step c (mk_config (-1) (c_pe c) (c_live c) (<[i := Won str id]> (c_threads c)))
  | step_lose c i str id :
      c_threads c !! i = Some (Matched str id) -> c_state c <> 0 ->
      step c (mk_config (c_state c) (c_pe c) (c_live c ∖ {[id]}) (<[i := Done str (ret_of (answer str))]> (c_threads c)))
  | step_write c i str id :
      c_threads c !! i = Some (Won str id) ->
      step c (mk_config (c_state c) (Some id) (c_live c) (<[i := Written str id]> (c_threads c)))
  | step_publish c i str id :
      c_threads c !! i = Some (Written str id) ->
      step c (mk_config (if c_state c =? -1 then 1 else c_state c) (c_pe c) (c_live c)
                (<[i := Done str (ret_of (answer str))]> (c_threads c))).

(** A structure as it is declared, and calls that have not started. *)
Definition initial (calls : list (list Z)) : config := mk_config 0 None ∅ (map Called calls).

Inductive reachable (calls : list (list Z)) : config -> Prop :=
  | reach_init : reachable calls (initial calls)
  | reach_step c c' : reachable calls c -> step c c' -> reachable calls c'.

(** The pattern a thread holds for itself. *)
Definition owned (t : thread) : option nat :=
  match t with Alloced _ id | Matched _ id | Won _ id | Written _ id => Some id | _ => None end.

Definition in_race (t : thread) : bool := match t with Won _ _ | Written _ _ => true | _ => false end.

(** What is known of a thread from where it is. *)
Definition thread_ok (c : config) (t : thread) : Prop :=
  match t with
  | Called _ => True
  | Cached _ => c_state c = 1
  | Shared _ id => c_state c = 1 /\ c_pe c = Some id
  | Alloced _ _ | Matched _ _ => pattern <> None
  | Won _ _ => pattern <> None /\ c_state c = -1
  | Written _ id => pattern <> None /\ c_state c = -1 /\ c_pe c = Some id
  | Done s r => r = ret_of (answer s)
  end.

(** The state is that of the race: nobody won yet, one thread did, or the pattern is
    published; every live pattern has one owner. *)
Record regex_inv (c : config) : Prop := {
  inv_state : c_state c = 0 \/ (c_state c = -1 /\ exists i t, c_threads c !! i = Some t /\ in_race t = true) \/
    (c_state c = 1 /\ pattern <> None /\ exists id, c_pe c = Some id /\ id ∈ c_live c /\ forall i t, c_threads c !! i = Some t -> owned t <> Some id);
  inv_one : forall i j t u, c_threads c !! i = Some t -> c_threads c !! j = Some u -> in_race t = true -> in_race u = true -> i = j;
  inv_live : forall i t id, c_threads c !! i = Some t -> owned t = Some id -> id ∈ c_live c;
  inv_unique : forall i j t u id, c_threads c !! i = Some t -> c_threads c !! j = Some u -> owned t = Some id -> owned u = Some id -> i = j;
  inv_owned : forall id, id ∈ c_live c -> (c_state c = 1 /\ c_pe c = Some id) \/ exists i t, c_threads c !! i = Some t /\ owned t = Some id;
  inv_thread : forall i t, c_threads c !! i = Some t -> thread_ok c t }.

(** A thread that moves leaves the others where they are. *)
Lemma moved c i (t0 t' : thread) j u : c_threads c !! i = Some t0 -> <[i := t']> (c_threads c) !! j = Some u ->
  (j = i /\ u = t') \/ (j <> i /\ c_threads c !! j = Some u).
Proof. intros Hi [(-> & -> & _)|[? ?]]%list_lookup_insert_Some; auto. Qed.

Lemma moved_self c i (t0 t' : thread) : c_threads c !! i = Some t0 -> <[i := t']> (c_threads c) !! i = Some t'.
Proof. intros Hi. apply list_lookup_insert_eq. by eapply lookup_lt_Some. Qed.

Lemma regex_inv_init calls : regex_inv (initial calls).
Proof.
  assert (forall i t, map Called calls !! i = Some t -> exists s, t = Called s) as Hc.
  { intros i t Hi. rewrite list_lookup_fmap in Hi. destruct (calls !! i); [|done]. injection Hi as <-. by eexists. }
  split; cbn [initial c_state c_pe c_live c_threads]; [by left|..].
  - intros i j t u Hi _ Ht _. by destruct (Hc i t Hi) as [s ->].
  - intros i t id Hi Ho. by destruct (Hc i t Hi) as [s ->].
  - intros i j t u id Hi _ Ho _. by destruct (Hc i t Hi) as [s ->].
  - set_solver.
  - intros i t Hi. by destruct (Hc i t Hi) as [s ->].
Qed.

Lemma race_state c t : thread_ok c t -> in_race t = true -> c_state c = -1.
Proof. destruct t; cbn; intuition (done || lia). Qed.

Lemma owned_pattern c t id : thread_ok c t -> owned t = Some id -> pattern <> None.
Proof. destruct t; cbn; intuition done. Qed.

Ltac moved Hi :=
  repeat match goal with
  | H : <[_ := _]> _ !! _ = Some _ |- _ => apply (moved _ _ _ _ _ _ Hi) in H as [[-> ->]|[? H]]
  end.

(** The thread that moves is named [i], as it was before [Hi]. *)
Ltac each_step Hs :=
  destruct Hs as [c i str Hi E|c i str id Hi E Hp Hf|c i str Hi E Hp|c i str id Hi E|c i str id Hi E|c i str id Hi E Hr|c i str id Hi E Hr
                 |c i str id Hi E|c i str id Hi E|c i str id Hi|c i str id Hi]; cbn [goto c_state c_pe c_live c_threads].

Lemma step_one c c' : regex_inv c -> step c c' ->
  forall i j t u, c_threads c' !! i = Some t -> c_threads c' !! j = Some u -> in_race t = true -> in_race u = true -> i = j.
Proof.
  intros [Is I1 Il Iu Io It] Hs. each_step Hs; intros j k t u Hj Hk Rj Rk; moved Hi; try done; try (by eapply I1);
    first [exact (I1 _ _ _ _ Hi Hk eq_refl Rk)|symmetry; exact (I1 _ _ _ _ Hi Hj eq_refl Rj)
          |pose proof (race_state _ _ (It _ _ Hk) Rk); congruence|pose proof (race_state _ _ (It _ _ Hj) Rj); congruence].
Qed.

(** Dropping the pattern of one thread leaves those of the others. *)
Lemma live_minus c i t0 id j t x : regex_inv c -> c_threads c !! i = Some t0 -> owned t0 = Some id ->
  j <> i -> c_threads c !! j = Some t -> owned t = Some x -> x ∈ c_live c ∖ {[id]}.
Proof.
  intros [_ _ Il Iu _ _] Hi Oi Hne Hj Oj. apply elem_of_difference. split; [by apply (Il j t)|].
  intros ->%elem_of_singleton. apply Hne. by apply (Iu j i t t0 id).
Qed.

Lemma step_live c c' : regex_inv c -> step c c' ->
  forall i t id, c_threads c' !! i = Some t -> owned t = Some id -> id ∈ c_live c'.
Proof.
  intros Hinv Hs. pose proof Hinv as [_ _ Il _ _ _]. each_step Hs; intros j t x Hj Oj; moved Hi; try done;
    try (first [by apply (Il _ _ _ Hj)|injection Oj as <-; by apply (Il _ _ _ Hi)]).
  - injection Oj as <-. apply elem_of_union_l, elem_of_singleton. done.
  - apply elem_of_union_r. by apply (Il _ _ _ Hj).
  - by apply (live_minus c i _ id j t x Hinv Hi eq_refl).
  - by apply (live_minus c i _ id j t x Hinv Hi eq_refl).
Qed.

Lemma step_unique c c' : regex_inv c -> step c c' ->
  forall i j t u id, c_threads c' !! i = Some t -> c_threads c' !! j = Some u -> owned t = Some id -> owned u = Some id -> i = j.
Proof.
  intros [_ _ Il Iu _ _] Hs. each_step Hs; intros j k t u x Hj Hk Oj Ok; moved Hi; try done;
    first [exact (Iu _ _ _ _ _ Hj Hk Oj Ok)|exact (Iu _ _ _ _ _ Hi Hk Oj Ok)|exact (Iu _ _ _ _ _ Hj Hi Oj Ok)
          |injection Oj as <-; by apply (Il _ _ _ Hk) in Ok|injection Ok as <-; by apply (Il _ _ _ Hj) in Oj].
Qed.

Lemma owner_moves c i t0 t' id j t :
  c_threads c !! i = Some t0 -> owned t' = owned t0 -> c_threads c !! j = Some t -> owned t = Some id ->
  exists j t, <[i := t']> (c_threads c) !! j = Some t /\ owned t = Some id.
Proof.
  intros Hi Ho Hj Oj. destruct (decide (i = j)) as [<-|Hne].
  - exists i, t'. split; [by eapply moved_self|]. congruence.
  - exists j, t. by rewrite list_lookup_insert_ne.
Qed.

Lemma owner_stays c i t' id j t :
  i <> j -> c_threads c !! j = Some t -> owned t = Some id ->
  exists j t, <[i := t']> (c_threads c) !! j = Some t /\ owned t = Some id.
Proof. intros Hne Hj Oj. exists j, t. by rewrite list_lookup_insert_ne. Qed.

Lemma step_owned c c' : regex_inv c -> step c c' ->
  forall id, id ∈ c_live c' -> (c_state c' = 1 /\ c_pe c' = Some id) \/ exists i t, c_threads c' !! i = Some t /\ owned t = Some id.
Proof.
  intros [Is _ _ _ Io It] Hs. each_step Hs; intros x Hx.
  1,3,4,5: destruct (Io x Hx) as [|(j & t & Hj & Oj)]; [by left|right; by eapply owner_moves].
  - apply elem_of_union in Hx as [->%elem_of_singleton|Hx]; [right; exists i, (Alloced str id); split; [by eapply moved_self|done]|].
    destruct (Io x Hx) as [|(j & t & Hj & Oj)]; [by left|right]. eapply owner_stays; [|done|done]. intros ->. rewrite Hi in Hj. by injection Hj as <-.
  - destruct (Io x Hx) as [|(j & t & Hj & Oj)]; [by left|right; by eapply owner_moves].
  - apply elem_of_difference in Hx as [Hx Hne]. destruct (Io x Hx) as [|(j & t & Hj & Oj)]; [by left|right].
    eapply owner_stays; [|done|done]. intros ->. rewrite Hi in Hj. injection Hj as <-. cbn in Oj. injection Oj as ->.
    by apply Hne, elem_of_singleton.
  - destruct (Io x Hx) as [[? _]|(j & t & Hj & Oj)]; [congruence|right; by eapply owner_moves].
  - apply elem_of_difference in Hx as [Hx Hne]. destruct (Io x Hx) as [|(j & t & Hj & Oj)]; [by left|right].
    eapply owner_stays; [|done|done]. intros ->. rewrite Hi in Hj. injection Hj as <-. cbn in Oj. injection Oj as ->.
    by apply Hne, elem_of_singleton.
  - destruct (It _ _ Hi) as [_ E]. destruct (Io x Hx) as [[? _]|(j & t & Hj & Oj)]; [congruence|right; by eapply owner_moves].
  - destruct (It _ _ Hi) as (_ & E & Ep). rewrite E. cbn [Z.eqb Pos.eqb].
    destruct (Io x Hx) as [[? _]|(j & t & Hj & Oj)]; [congruence|]. destruct (decide (j = i)) as [->|Hne].
    + left. rewrite Hi in Hj. injection Hj as <-. cbn in Oj. injection Oj as ->. done.
    + right. by eapply owner_stays.
Qed.

(** The other threads keep what is known of them: of the state and the pattern only what
    they do not depend on changes. *)
Lemma thread_ok_other c st p lv ts u :
  thread_ok c u -> (c_state c = st /\ (c_state c = 1 \/ in_race u = true -> c_pe c = p)) \/ (in_race u = false /\ c_state c <> 1) ->
  thread_ok (mk_config st p lv ts) u.
Proof.
  intros Hu [[<- Ep]|[Hr Hs]].
  - destruct u; cbn in *; try done.
    + destruct Hu as [H1 H2]. rewrite <- Ep by (by left). done.
    + destruct Hu as (H1 & H2 & H3). rewrite <- Ep by (by right). done.
  - destruct u; cbn in *; try done. by destruct Hu.
Qed.

Lemma step_thread c c' : regex_inv c -> step c c' -> forall i t, c_threads c' !! i = Some t -> thread_ok c' t.
Proof.
  intros [Is I1 _ _ _ It] Hs. each_step Hs; intros j t Hj; moved Hi;
    try (by apply (thread_ok_other c); [by eapply It|left; split; [done|by intros _]]); pose proof (It _ _ Hi) as Ht; try (by cbn).
  - cbn. unfold answer. by rewrite Hp.
  - cbn. by rewrite Hr.
  - apply (thread_ok_other c); [by eapply It|]. right. split; [|congruence]. destruct (in_race t) eqn:Er; [|done].
    pose proof (race_state _ _ (It _ _ Hj) Er). congruence.
  - cbn in *. tauto.
  - apply (thread_ok_other c); [by eapply It|]. right. cbn in Ht. split; [|destruct Ht; congruence].
    destruct (in_race t) eqn:Er; [|done]. by rewrite (I1 _ _ _ _ Hj Hi Er) in *.
  - destruct Ht as (_ & Est & _). apply (thread_ok_other c); [by eapply It|]. right. split; [|congruence].
    destruct (in_race t) eqn:Er; [|done]. by rewrite (I1 _ _ _ _ Hj Hi Er) in *.
Qed.

Lemma step_state c c' : regex_inv c -> step c c' ->
  c_state c' = 0 \/ (c_state c' = -1 /\ exists i t, c_threads c' !! i = Some t /\ in_race t = true) \/
  (c_state c' = 1 /\ pattern <> None /\ exists id, c_pe c' = Some id /\ id ∈ c_live c' /\ forall i t, c_threads c' !! i = Some t -> owned t <> Some id).
Proof.
  intros Hinv Hs. pose proof Hinv as [Is I1 Il Iu _ It].
  assert (forall i t0 t' (lv : gset nat), c_threads c !! i = Some t0 -> in_race t' = in_race t0 ->
    (forall id, c_pe c = Some id -> id ∈ c_live c -> (forall i t, c_threads c !! i = Some t -> owned t <> Some id) -> id ∈ lv /\ owned t' <> Some id) ->
    let ts := <[i := t']> (c_threads c) in
    c_state c = 0 \/ (c_state c = -1 /\ exists i t, ts !! i = Some t /\ in_race t = true) \/
    (c_state c = 1 /\ pattern <> None /\ exists id, c_pe c = Some id /\ id ∈ lv /\ forall i t, ts !! i = Some t -> owned t <> Some id)) as Hmove.
  { intros i t0 t' lv Hi Hr Hlv ts. destruct Is as [|[(Es & j & t & Hj & Rj)|(Es & Hp & id & Ep & Hid & Hno)]]; [by left|right; left|right; right].
    - split; [done|]. destruct (decide (j = i)) as [->|Hne].
      + exists i, t'. split; [by eapply moved_self|]. rewrite Hi in Hj. injection Hj as ->. congruence.
      + exists j, t. unfold ts. by rewrite list_lookup_insert_ne.
    - destruct (Hlv id Ep Hid Hno) as [H1 H2]. split; [done|]. split; [done|]. exists id. split; [done|]. split; [done|].
      intros j t Hj. apply (moved _ _ _ _ _ _ Hi) in Hj as [[-> ->]|[_ Hj]]; [done|by eapply Hno]. }
  each_step Hs; try (apply (Hmove _ _ _ _ Hi); [done|]; intros x Ep Hx Hno; split; [done|first [done|by apply (Hno _ _ Hi)]]).
  - apply (Hmove _ _ _ _ Hi); [done|]. intros x Ep Hx Hno. split; [by apply elem_of_union_r|]. cbn. by intros [= ->].
  - apply (Hmove _ _ _ _ Hi); [done|]. intros x Ep Hx Hno. split; [|done]. apply elem_of_difference. split; [done|].
    intros ->%elem_of_singleton. by apply (Hno _ _ Hi).
  - right. left. split; [done|]. exists i, (Won str id). split; [by eapply moved_self|done].
  - apply (Hmove _ _ _ _ Hi); [done|]. intros x Ep Hx Hno. split; [|done]. apply elem_of_difference. split; [done|].
    intros ->%elem_of_singleton. by apply (Hno _ _ Hi).
  - destruct (It _ _ Hi) as [_ Es]. right. left. split; [done|]. exists i, (Written str id). split; [by eapply moved_self|done].
  - destruct (It _ _ Hi) as (Hp & Es & Ep). right. right. rewrite Es. split; [done|]. split; [done|]. exists id. split; [done|].
    split; [by eapply Il|]. intros j t Hj Oj. moved Hi; [done|]. by rewrite (Iu _ _ _ _ _ Hj Hi Oj eq_refl) in *.
Qed.

Lemma regex_inv_step c c' : regex_inv c -> step c c' -> regex_inv c'.
Proof.
  intros Hc Hs. split; [by eapply step_state|by eapply step_one|by eapply step_live|by eapply step_unique|by eapply step_owned|by eapply step_thread].
Qed.

Lemma regex_inv_reachable calls c : reachable calls c -> regex_inv c.
Proof. induction 1; [apply regex_inv_init|by eapply regex_inv_step]. Qed.

Definition finished (t : thread) : Prop := exists str r, t = Done str r.

(** A thread that has not returned can go on: in particular the pattern it matches with
    has not been freed. *)
Lemma regex_progress c i t : regex_inv c -> c_threads c !! i = Some t ->
  finished t \/ exists c' t', step c c' /\ c_threads c' !! i = Some t' /\ t' <> t.
Proof.
  intros [Is I1 Il Iu Io It] Hi. pose proof (It _ _ Hi) as Ht.
  assert (forall c' t', step c c' -> c_threads c' = <[i := t']> (c_threads c) -> t' <> t ->
    finished t \/ exists c' t', step c c' /\ c_threads c' !! i = Some t' /\ t' <> t) as Hgo.
  { intros c' t' Hs E Hne. right. exists c', t'. split; [done|]. split; [|done]. rewrite E. by eapply moved_self. }
  destruct t as [str|str|str id|str id|str id|str id|str id|str r].
  - destruct (decide (c_state c = 1)) as [E|E]; [by eapply Hgo; [by eapply step_cached|done|]|].
    destruct (decide (is_Some pattern)) as [[p Hp]|Hp]; [|apply eq_None_not_Some in Hp; by eapply Hgo; [by eapply step_nocompile|done|]].
    eapply Hgo; [apply (step_alloc c i str (fresh (c_live c))); [done|done|congruence|apply is_fresh]|done|done].
  - destruct Is as [?|[[? _]|(_ & _ & id & Ep & _)]]; cbn in Ht; [congruence|congruence|]. by eapply Hgo; [by eapply step_load|done|].
  - destruct Ht as [Es Ep]. destruct Is as [?|[[? _]|(_ & _ & id' & Ep' & Hl & _)]]; [congruence|congruence|].
    eapply Hgo; [eapply step_shared; [done|congruence]|done|done].
  - destruct (answer str) eqn:Ea.
    1,2: eapply Hgo; [eapply step_exec; [done|by eapply Il|congruence]|done|done].
    eapply Hgo; [eapply step_error; [done|by eapply Il|done]|done|done].
  - destruct (decide (c_state c = 0)); [by eapply Hgo; [by eapply step_win|done|]|by eapply Hgo; [by eapply step_lose|done|]].
  - by eapply Hgo; [by eapply step_write|done|].
  - by eapply Hgo; [by eapply step_publish|done|].
  - left. by exists str, r.
Qed.

(** The steps a thread has before it. *)
Definition rank (t : thread) : nat :=
  match t with Called _ => 5 | Alloced _ _ => 4 | Matched _ _ => 3 | Won _ _ | Cached _ => 2 | Written _ _ | Shared _ _ => 1 | Done _ _ => 0 end.

Definition total (c : config) : nat := sum_list_with rank (c_threads c).

Lemma total_moves (ts : list thread) i t0 t' : ts !! i = Some t0 -> (rank t' < rank t0)%nat ->
  (sum_list_with rank (<[i := t']> ts) < sum_list_with rank ts)%nat.
Proof.
  revert i. induction ts as [|t ts IH]; intros i Hi Hr; [done|]. destruct i as [|i]; [injection Hi as ->; cbn; lia|].
  change (<[S i := t']> (t :: ts)) with (t :: <[i := t']> ts). cbn [sum_list_with]. specialize (IH i Hi Hr). lia.
Qed.

Lemma step_total c c' : step c c' -> (total c' < total c)%nat.
Proof. intros Hs. each_step Hs; unfold total; cbn [c_threads]; (eapply total_moves; [exact Hi|cbn; lia]). Qed.

(** C27: Sharing the structure between threads is safe: whatever the interleaving, every call
    returns what the pattern answers, no thread is stuck (it never meets a pattern that is
    missing or freed), every step brings the calls closer to their end, and when all have
    returned at most the cached pattern is left allocated. *)
Theorem regex_cache_thread_safe (calls : list (list Z)) (c : config) :
  reachable calls c ->
  (forall i str r, c_threads c !! i = Some (Done str r) -> r = ret_of (answer str)) /\
  (forall i t, c_threads c !! i = Some t -> finished t \/ exists c' t', step c c' /\ c_threads c' !! i = Some t' /\ t' <> t) /\
  (forall c', step c c' -> (total c' < total c)%nat) /\
  ((forall i t, c_threads c !! i = Some t -> finished t) ->
    (c_state c = 0 /\ c_live c = ∅) \/ (c_state c = 1 /\ exists id, c_pe c = Some id /\ c_live c = {[id]})).
Proof.
  intros Hr. pose proof (regex_inv_reachable calls c Hr) as Hinv. pose proof Hinv as [Is _ _ _ Io It].
  split; [intros i str r Hi; by apply (It _ _ Hi)|]. split; [intros i t; by apply regex_progress|]. split; [by intros; apply step_total|].
  intros Hf. assert (forall id, id ∈ c_live c -> c_state c = 1 /\ c_pe c = Some id) as Hlive.
  { intros id [|(i & t & Hi & Ho)]%Io; [done|]. by destruct (Hf i t Hi) as (? & ? & ->). }
  destruct Is as [E|[(_ & i & t & Hi & Rt)|(E & _ & id & Ep & Hl & _)]].
  - left. split; [done|]. apply set_eq. intros id. split; [|set_solver]. intros [? _]%Hlive. congruence.
  - by destruct (Hf i t Hi) as (? & ? & ->).
  - right. split; [done|]. exists id. split; [done|]. apply set_eq. intros x. rewrite elem_of_singleton. split.
    + intros [_ ?]%Hlive. congruence.
    + by intros ->.
Qed.
End Threads.

(** * Calls of one thread *)

Section Calls.
Context `{Pcre} (ovlen : Z).

(** A structure that is unused, or caches the pattern of its expression. *)
Definition valid (r : cached_regex) : Prop :=
  state r = 0 \/ (state r = 1 /\ exists re ex, pattern (regex r) (options r) ovlen = Some (re, ex) /\ pe r = Some re /\ extra r = ex).

(** A call returns what the pattern answers, from the cache or not, and leaves a valid
    structure. *)
Lemma cached_regex_match_valid r str ret ov r' :
  valid r -> regex r <> [] -> cached_regex_match r str ovlen = (ret, ov, r') ->
  ret = ret_of (answer (regex r) (options r) ovlen str) /\
  ov = match answer (regex r) (options r) ovlen str with Match ov => ov | _ => [] end /\
  valid r' /\ regex r' = regex r /\ options r' = options r.
Proof.
  intros Hv Hne. unfold cached_regex_match, answer. destruct (regex r) as [|c0 rx] eqn:Erx; [done|]. rewrite <- Erx in *. clear Hne.
  destruct Hv as [E|(E & re & ex & Hp & Hpe & Hex)].
  - rewrite E. cbn [Z.eqb Pos.eqb]. unfold pattern, the_options.
    destruct (pcre_compile _ _) as [re|] eqn:Ec; cbn [mbind option_bind]; [|by intros [= <- <- <-]; split; [|split; [|split; [left|]]]].
    destruct (pcre_study re) as [ex|] eqn:Es; cbn [mbind option_bind]; [|by intros [= <- <- <-]; split; [|split; [|split; [left|]]]].
    unfold install. rewrite E. cbn [Z.eqb Pos.eqb].
    assert (valid (mk_regex (regex r) (options r) (Some re) ex (capture_count r) 1)) as Hv.
    { right. split; [done|]. exists re, ex. cbn [regex options pe extra]. unfold pattern, the_options. rewrite Ec. cbn [mbind option_bind]. by rewrite Es. }
    destruct (pcre_exec re ex str 0); intros [= <- <- <-]; (split; [done|]); (split; [done|]); (split; [|done]); first [exact Hv|by left].
  - rewrite E, Hpe, Hp, Hex. cbn [Z.eqb Pos.eqb mbind option_bind].
    assert (valid r) as Hv by (right; split; [done|]; by exists re, ex).
    destruct (pcre_exec re ex str 0); intros [= <- <- <-]; by split; [|split; [|split]].
Qed.
End Calls.

Section Replace.
Context `{Pcre} (junk : nat -> list Z).

(** The text of a group, and the replacement with its references expanded. *)
Definition group (haystack : list Z) (offset : list (Z * Z)) (count n : Z) : list Z :=
  if n <? count then match offset !! Z.to_nat n with Some (a, b) => slice haystack a b | None => [] end else [].

Fixpoint expand (haystack : list Z) (offset : list (Z * Z)) (count : Z) (repl : list Z) : list Z :=
  match repl with
  | [] => []
  | c :: repl' =>
    match repl' with
    | d :: repl'' =>
      if (c =? 36) && ((d =? 36) || isdigit d) then
        (if d =? 36 then [36] else group haystack offset count (d - 48)) ++ expand haystack offset count repl''
      else c :: expand haystack offset count repl'
    | [] => [c]
    end
  end.

Lemma flush_spec b s pending :
  holds b s -> growable b -> size s + size pending + 1 <= 2 ^ 29 ->
  exists b', flush junk b pending = Some b' /\ holds b' (s ++ pending) /\ growable b'.
Proof.
  intros Hh Hg Hn. unfold flush. destruct pending as [|c p]; [exists b; by rewrite app_nil_r|].
  destruct (bufwrite_grows junk b s (c :: p)) as (b' & -> & H1 & H2 & _); [done..|]. by exists b'.
Qed.

(** The walk writes the expanded replacement after what is pending. *)
Lemma walk_spec hay offset count : count <= Z.of_nat (length offset) -> forall n repl pending b s, (length repl < n)%nat ->
  holds b s -> growable b -> size s + size pending + size (expand hay offset count repl) + 1 <= 2 ^ 29 ->
  exists b', walk junk b hay offset count repl pending = Some b' /\ holds b' (s ++ pending ++ expand hay offset count repl) /\ growable b'.
Proof.
  intros Hc. induction n as [|n IH]; intros repl pending b s Hn Hh Hg Hsz; [lia|].
  destruct repl as [|c repl']; [cbn in *; rewrite app_nil_r; apply flush_spec; [done|done|change (size []) with 0 in Hsz; lia]|].
  assert (forall tl, expand hay offset count (c :: repl') = c :: expand hay offset count tl ->
    walk junk b hay offset count (c :: repl') pending = walk junk b hay offset count tl (pending ++ [c]) -> (length tl < n)%nat ->
    exists b', walk junk b hay offset count (c :: repl') pending = Some b' /\ holds b' (s ++ pending ++ expand hay offset count (c :: repl')) /\ growable b') as Hplain.
  { intros tl E1 E2 Htl. rewrite E1, E2 in *. destruct (IH tl (pending ++ [c]) b s) as (b' & -> & H1 & H2); [done..| |].
    - rewrite size_app. unfold size in *. simpl in *. lia.
    - exists b'. split; [done|]. by rewrite <- (assoc_L (++)) in H1. }
  destruct repl' as [|d repl'']; [by apply (Hplain []); [..|simpl in *; lia]|].
  destruct ((c =? 36) && ((d =? 36) || isdigit d)) eqn:Ecd;
    [|apply (Hplain (d :: repl'')); [cbn [expand]; by rewrite Ecd|cbn [walk]; by rewrite Ecd|simpl in *; lia]]. clear Hplain.
  cbn [walk expand] in *. rewrite Ecd in *. rewrite size_app in Hsz. simpl in Hn.
  set (g := if d =? 36 then _ else _) in *. assert (0 <= size g /\ 0 <= size (expand hay offset count repl'')) as [] by (unfold size; lia).
  destruct (flush_spec b s pending) as (b1 & -> & Hh1 & Hg1); [done|done|lia|]. cbn [mbind option_bind].
  destruct (Z.eqb_spec d 36) as [->|Hd].
  - destruct (IH repl'' [36] b1 (s ++ pending)) as (b' & -> & K1 & K2); [lia|done|done|rewrite size_app; subst g; lia|].
    exists b'. split; [done|]. rewrite <- !(assoc_L (++)) in K1. done.
  - assert (exists b2, (if d - 48 <? count then '(a, e) ← offset !! Z.to_nat (d - 48); snd <$> bufwrite junk b1 (slice hay a e) else Some b1) = Some b2 /\
      holds b2 ((s ++ pending) ++ g) /\ growable b2) as (b2 & -> & Hh2 & Hg2).
    { subst g. unfold group in *. destruct (Z.ltb_spec (d - 48) count); [|exists b1; by rewrite app_nil_r].
      assert (isdigit d = true) as Hdig by (apply andb_prop in Ecd as [_ [E|E]%orb_prop]; [lia|done]). unfold isdigit in Hdig.
      destruct (lookup_lt_is_Some_2 offset (Z.to_nat (d - 48))) as [[x y] Eo]; [lia|]. rewrite Eo in *. cbn [mbind option_bind].
      destruct (bufwrite_grows junk b1 (s ++ pending) (slice hay x y)) as (b2 & -> & K1 & K2 & _); [done|done|rewrite size_app; lia|]. by exists b2. }
    cbn [mbind option_bind]. destruct (IH repl'' [] b2 ((s ++ pending) ++ g)) as (b' & -> & K1 & K2); [lia|done|done|rewrite !size_app; change (size []) with 0; lia|].
    exists b'. split; [done|]. rewrite <- !(assoc_L (++)) in K1. done.
Qed.

Context (re : pcre) (ex : option pcre_extra) (count : Z) (repl hay : list Z).

(** What is documented of the offsets, and that no match is empty or fails. *)
Definition exec_ok : Prop := forall o, 0 <= o <= size hay ->
  match pcre_exec re ex hay o with
  | NoMatch => True
  | ExecError => False
  | Match offset => count <= Z.of_nat (length offset) /\ exists s e l, offset = (s, e) :: l /\ o <= s < e /\ e <= size hay
  end.

(** The text from an offset on with every match replaced; one match if not [global]. *)
Inductive rewritten (global : bool) : Z -> list Z -> Prop :=
  | rewritten_end o : pcre_exec re ex hay o = NoMatch -> rewritten global o (drop (Z.to_nat o) hay)
  | rewritten_one o s e l :
      global = false -> pcre_exec re ex hay o = Match ((s, e) :: l) ->
      rewritten global o (slice hay o s ++ expand hay ((s, e) :: l) count repl ++ drop (Z.to_nat e) hay)
  | rewritten_next o s e l out :
      global = true -> pcre_exec re ex hay o = Match ((s, e) :: l) -> rewritten global e out ->
      rewritten global o (slice hay o s ++ expand hay ((s, e) :: l) count repl ++ out).

Lemma slice_end o : 0 <= o <= size hay -> slice hay o (size hay) = drop (Z.to_nat o) hay.
Proof. intros Ho. unfold slice. apply take_ge. rewrite length_drop. unfold size in *. lia. Qed.

Lemma rewritten_exists global o : exec_ok -> 0 <= o <= size hay -> exists out, rewritten global o out.
Proof.
  intros Hok. assert (forall n o, 0 <= o <= size hay -> (Z.to_nat (size hay - o) < n)%nat -> exists out, rewritten global o out) as Hn;
    [|intros Ho; apply (Hn (S (Z.to_nat (size hay - o))) o); [done|lia]].
  clear o. induction n as [|n IH]; intros o Ho Hn; [lia|]. specialize (Hok o Ho). destruct (pcre_exec re ex hay o) as [offset| |] eqn:E; [|by eexists; constructor|done].
  destruct Hok as (_ & s & e & l & -> & Hs & He). destruct global; [|by eexists; eapply rewritten_one].
  destruct (IH e) as [out Ho']; [lia|lia|]. eexists. by eapply rewritten_next.
Qed.

(** What is written for one match. *)
Lemma match_written o s e l b s0 : count <= Z.of_nat (length ((s, e) :: l)) -> holds b s0 -> growable b ->
  size s0 + size (slice hay o s ++ expand hay ((s, e) :: l) count repl) + 1 <= 2 ^ 29 ->
  exists b1 b2 n, bufwrite junk b (slice hay o s) = Some (n, b1) /\ walk junk b1 hay ((s, e) :: l) count repl [] = Some b2 /\
    holds b2 (s0 ++ slice hay o s ++ expand hay ((s, e) :: l) count repl) /\ growable b2.
Proof.
  intros Hc Hh Hg Hsz. rewrite size_app in Hsz. assert (forall t, 0 <= size t) as Hnn by (unfold size; lia).
  pose proof (Hnn (slice hay o s)). pose proof (Hnn (expand hay ((s, e) :: l) count repl)).
  destruct (bufwrite_grows junk b s0 (slice hay o s)) as (b1 & E1 & Hh1 & Hg1 & _); [done|done|lia|].
  destruct (walk_spec hay ((s, e) :: l) count Hc (S (length repl)) repl [] b1 (s0 ++ slice hay o s)) as (b2 & E2 & Hh2 & Hg2);
    [lia|done|done|rewrite size_app; change (size []) with 0; lia|].
  exists b1, b2, (size (slice hay o s)). split; [done|]. split; [done|]. cbn [app] in Hh2. by rewrite <- (assoc_L (++)) in Hh2.
Qed.

Lemma replace_matches_spec global : exec_ok -> forall fuel o out b s0,
  rewritten global o out -> 0 <= o <= size hay -> (Z.to_nat (size hay - o) < fuel)%nat ->
  holds b s0 -> growable b -> size s0 + size out + 1 <= 2 ^ 29 ->
  exists b' s' e, replace_matches junk fuel re ex count b repl hay o global = Some (0, b', e) /\
    0 <= e <= size hay /\ holds b' s' /\ growable b' /\ s0 ++ out = s' ++ drop (Z.to_nat e) hay.
Proof.
  intros Hok. induction fuel as [|fuel IH]; intros o out b s0 Hr Ho Hf Hh Hg Hsz; [lia|]. cbn [replace_matches].
  specialize (Hok o Ho). destruct Hr as [o E|o s e l Hgl E|o s e l out Hgl E Hr]; rewrite E in *; [by exists b, s0, o|..];
    destruct Hok as (Hc & ? & ? & ? & [= <- <- <-] & Hs & He); cbn [lookup list_lookup mbind option_bind];
    rewrite (assoc_L (++)), size_app in Hsz.
  - pose proof (Nat2Z.is_nonneg (length (drop (Z.to_nat e) hay))).
    destruct (match_written o s e l b s0 Hc Hh Hg) as (b1 & b2 & n & -> & E2 & Hh2 & Hg2); [unfold size in *; lia|].
    cbn [mbind option_bind]. rewrite E2, Hgl. cbn [mbind option_bind].
    exists b2, (s0 ++ slice hay o s ++ expand hay ((s, e) :: l) count repl), e. split; [done|]. split; [lia|]. split; [done|]. split; [done|].
    by rewrite !(assoc_L (++)).
  - pose proof (Nat2Z.is_nonneg (length out)).
    destruct (match_written o s e l b s0 Hc Hh Hg) as (b1 & b2 & n & -> & E2 & Hh2 & Hg2); [unfold size in *; lia|].
    cbn [mbind option_bind]. rewrite E2, Hgl in *. cbn [mbind option_bind].
    destruct (IH e out b2 (s0 ++ slice hay o s ++ expand hay ((s, e) :: l) count repl) Hr) as (b' & s' & e' & -> & K1 & K2 & K3 & K4); [lia|lia|done|done|rewrite size_app; lia|].
    exists b', s', e'. split; [done|]. split; [done|]. split; [done|]. split; [done|]. rewrite <- K4. by rewrite !(assoc_L (++)).
Qed.
End Replace.

(** Replacing writes the text with its matches replaced, references expanded, and keeps
    the pattern, if no match is empty. *)
Theorem regex_replace_correct `{Pcre} (junk : nat -> list Z) (r : cached_regex) (repl hay : list Z) (global : bool) re ex n b s0 :
  regex r <> [] -> state r = 0 -> pcre_compile (regex r) (options r) = Some re -> pcre_study re = Some ex ->
  pcre_capture_count re ex = Some n -> exec_ok re ex (n + 1) hay -> holds b s0 -> growable b ->
  exists out, rewritten re ex (n + 1) repl hay global 0 out /\
    (size s0 + size out + 1 <= 2 ^ 29 -> exists b' r',
      cached_regex_replace junk (S (length hay)) b r repl hay global = Some (0, b', r') /\
      holds b' (s0 ++ out) /\ terminated b' /\ state r' = 1 /\ pe r' = Some re /\ capture_count r' = n + 1).
Proof.
  intros Hne Hst Hc Hs Hn Hok Hh Hg. assert (0 <= 0 <= size hay) as H0 by (unfold size; lia).
  destruct (rewritten_exists re ex (n + 1) repl hay global 0 Hok H0) as [out Ho]. exists out. split; [done|]. intros Hsz.
  unfold cached_regex_replace. destruct (regex r) as [|c0 rx] eqn:Erx; [done|]. rewrite <- Erx in *.
  rewrite Hst. cbn [Z.eqb Pos.eqb]. rewrite Hc. cbn [mbind option_bind]. rewrite Hs. cbn [mbind option_bind]. rewrite Hn. cbn [mbind option_bind].
  destruct (replace_matches_spec junk re ex (n + 1) repl hay global Hok (S (length hay)) 0 out b s0) as (b1 & s' & e & -> & He & Hh1 & Hg1 & E);
    [done|done|unfold size; lia|done|done|done|].
  cbn [mbind option_bind Z.eqb Pos.eqb]. rewrite slice_end by done. rewrite <- size_app, E, size_app in Hsz.
  destruct (bufwrite_grows junk b1 s' (drop (Z.to_nat e) hay)) as (b2 & -> & Hh2 & _ & Ht); [done..|].
  cbn [mbind option_bind]. eexists b2, _. split; [done|]. rewrite E. split; [done|]. split; [done|]. unfold install. by rewrite Hst.
Qed.

(** A match of nothing is found for ever when all matches are replaced. *)
Theorem regex_replace_empty_match `{Pcre} (junk : nat -> list Z) re ex count repl hay o l fuel b :
  pcre_exec re ex hay o = Match ((o, o) :: l) -> replace_matches junk fuel re ex count b repl hay o true = None.
Proof.
  intros E. revert b. induction fuel as [|fuel IH]; intros b; [done|]. cbn [replace_matches]. rewrite E.
  cbn [lookup list_lookup mbind option_bind]. destruct (bufwrite _ _ _) as [[? b1]|]; [|reflexivity]. cbn [mbind option_bind].
  destruct (walk _ _ _ _ _ _ _) as [b2|]; [|reflexivity]. apply IH.
Qed.

(** * Examples *)

(** Expressions that stand for themselves. *)
Definition literal_pcre : Pcre := {|
  pcre := list Z; pcre_extra := ();
  PCRE_NO_AUTO_CAPTURE := 0x1000;
  pcre_compile := fun r _ => Some r;
  pcre_study := fun _ => Some None;
  pcre_capture_count := fun _ _ => Some 0;
  pcre_exec := fun r _ s o => match strstr (drop (Z.to_nat o) s) r with
                              | Some i => Match [(o + Z.of_nat i, o + Z.of_nat i + size r)]
                              | None => NoMatch
                              end |}.

Lemma regex_replace_correct_witness :
  let r := @mk_regex literal_pcre (bytes "b") 0 None None 0 0 in
  exists out, @rewritten literal_pcre (bytes "b") None 1 (bytes "<$0>") (bytes "ab") true 0 out /\
    (size out + 1 <= 2 ^ 29 -> exists b' r', @cached_regex_replace literal_pcre (fun _ => []) 3 bs_null r (bytes "<$0>") (bytes "ab") true = Some (0, b', r') /\
      holds b' out).
Proof.
  intros r.
  destruct (@regex_replace_correct literal_pcre (fun _ => []) r (bytes "<$0>") (bytes "ab") true (bytes "b") None 0 bs_null [])
    as (out & H1 & H2); [discriminate|reflexivity|reflexivity|reflexivity|reflexivity| |reflexivity|left; reflexivity|].
  - intros o Ho. change (size (bytes "ab")) with 2 in *.
    assert (o = 0 \/ o = 1 \/ o = 2) as [-> | [-> | ->]] by lia; [| |exact I].
    + split; [vm_compute; discriminate|]. exists 1, 2, []. split; [reflexivity|lia].
    + split; [vm_compute; discriminate|]. exists 1, 2, []. split; [reflexivity|lia].
  - exists out. split; [exact H1|]. intros Hs. destruct (H2 Hs) as (b' & r' & E & Hh & _). exists b', r'. split; [exact E|exact Hh].
Defined.

(** Two threads that both compile: the second one loses the race. *)
Lemma regex_cache_thread_safe_witness : exists c,
  @reachable literal_pcre (bytes "b") 0 3 [bytes "ab"; bytes "c"] c /\
  c_threads c = [Done (bytes "ab") 1; Done (bytes "c") 0] /\ exists id, c_live c = {[id]}.
Proof.
  eexists. assert (forall c, @reachable literal_pcre (bytes "b") 0 3 [bytes "ab"; bytes "c"] c -> c_state c = 1 ->
    c_threads c = [Done (bytes "ab") 1; Done (bytes "c") 0] ->
    @reachable literal_pcre (bytes "b") 0 3 [bytes "ab"; bytes "c"] c /\ c_threads c = [Done (bytes "ab") 1; Done (bytes "c") 0] /\
    exists id, c_live c = {[id]}) as Hend.
  { intros c Hr Hs Ht. split; [exact Hr|]. split; [exact Ht|].
    destruct (proj2 (proj2 (proj2 (@regex_cache_thread_safe literal_pcre (bytes "b") 0 3 _ c Hr)))) as [[E _]|(_ & id & _ & E)].
    - rewrite Ht. intros i t Hi. destruct i as [|[|i]]; cbn in Hi; [injection Hi as <-; by eexists _, _|injection Hi as <-; by eexists _, _|discriminate Hi].
    - rewrite Hs in E. discriminate E.
    - exists id. exact E. }
  set (go := reach_step (H := literal_pcre)).
  apply Hend; [eapply go; [eapply go; [eapply go; [eapply go; [eapply go; [eapply go; [eapply go; [eapply go; [apply reach_init|]|]|]|]|]|]|]|]|..].
  - apply (step_alloc _ _ _ _ 0 (bytes "ab") 0%nat); [reflexivity|discriminate|discriminate|apply not_elem_of_empty].
  - apply (step_alloc _ _ _ _ 1 (bytes "c") 1%nat); [reflexivity|discriminate|discriminate|].
    cbn [c_live initial]. intros [E%elem_of_singleton|E%elem_of_empty]%elem_of_union; [discriminate E|exact E].
  - apply (step_exec _ _ _ _ 0 (bytes "ab") 0%nat); [reflexivity| |vm_compute; discriminate].
    cbn [c_live]. apply elem_of_union_r, elem_of_union_l, elem_of_singleton. reflexivity.
  - apply (step_exec _ _ _ _ 1 (bytes "c") 1%nat); [reflexivity| |vm_compute; discriminate].
    cbn [c_live goto]. apply elem_of_union_l, elem_of_singleton. reflexivity.
  - apply (step_win _ _ _ _ 0 (bytes "ab") 0%nat); reflexivity.
  - apply (step_lose _ _ _ _ 1 (bytes "c") 1%nat); [reflexivity|discriminate].
  - apply (step_write _ _ _ _ 0 (bytes "ab") 0%nat). reflexivity.
  - apply (step_publish _ _ _ _ 0 (bytes "ab") 0%nat). reflexivity.
  - reflexivity.
  - vm_compute. reflexivity.
Defined.
