(* ===== verification/QueryString.v ===== *)
(** QueryString: splitting URLs (src/util/lib/url.c, split_url) and parsing query strings
    (src/core/lib/parse_query_string.c).

    The strings are changed in place by the code; here a string is what its pointer sees.
    The callback is modelled by the list of its calls.  The variables that restrict the
    values are a vtree, over any backend. *)
From stdpp Require Import prelude list numbers gmap.
From Stdlib Require Import ZArith Lia.
From S2P Require Import Prelude BufString Strings Encoding Latin CachedRegex Bconf Vtree BconfVtree.

Local Open Scope Z_scope.

(** * Splitting URLs *)

Definition URL_RE : list Z := bytes "^([a-z]+)://([A-Za-z0-9.-]*|\[[A-Za-z0-9.:%-]+\])(:[0-9]{1,5})?(/.*)?$".

Record url := mk_url { protocol : list Z; host : list Z; port : list Z; path : list Z }.

Section Url.
Context `{Pcre}.

(** [re] is the static structure of the function.  An offset that was not filled in, or a
    read outside of the string, fails. *)
Definition split_url (re : cached_regex) (str : list Z) : option (option url * cached_regex) :=
  let '(ret, re_matches, re) := cached_regex_match re str 27 in
  if ret =? 0 then Some (None, re) else
  '(s1, e1) ← re_matches !! 1%nat;
  '(s2, e2) ← re_matches !! 2%nat;
  '(s3, e3) ← re_matches !! 3%nat;
  '(s4, e4) ← re_matches !! 4%nat;
  let pr_len := e1 - s1 in
  let host_len := e2 - s2 in
  let port_len := e3 - s3 in
  let path_len := e4 - s4 in
  brackets ← (if 0 <? host_len then c ← str !! Z.to_nat s2; Some (c =? 91) else Some false);
  let host_len := if (brackets : bool) then host_len - 2 else host_len in
  let port_len := if 0 <? port_len then port_len - 1 else port_len in
  let s2 := s2 + (if brackets then 1 else 0) in
  Some (Some (mk_url (slice str s1 (s1 + pr_len)) (slice str s2 (s2 + host_len))
                     (slice str (s3 + 1) (s3 + 1 + port_len)) (slice str s4 (s4 + path_len))), re).
End Url.

(** * Query strings *)

Inductive req_utf8 := RUTF8_NOCHECK | RUTF8_REQUIRE | RUTF8_FALLBACK_LATIN1.
Inductive tristate := TRI_UNDEF | TRI_FALSE | TRI_TRUE.

Record parse_qs_options := mk_options { escape_html : tristate; defaulted_escape_html : tristate }.

(** A call of the callback: the options at the time, the key and the value. *)
Record call := mk_call { cb_options : option parse_qs_options; cb_key : list Z; cb_value : list Z }.

Section Parse.
Context `{Pcre} {X : Type} `{!VtreeBackend X}.
(** The options of the pattern, with and without PCRE_UTF8. *)
Context (match_options : bool -> Z).

Definition match_var (vregex : option (list Z)) (value : list Z) (utf8 : req_utf8) : bool :=
  match vregex with
  | None | Some [] => false
  | Some vregex =>
    match pcre_compile vregex (match_options (match utf8 with RUTF8_NOCHECK => false | _ => true end)) with
    | None => false
    | Some pregex => match pcre_exec pregex None value 0 with Match _ => true | _ => false end
    end
  end.

Definition set_escape (options : option parse_qs_options) (esc_html : option (list Z)) : option parse_qs_options :=
  o ← options;
  Some (mk_options (match esc_html with
                    | Some ((_ :: _) as s) => if atoi s =? 0 then TRI_FALSE else TRI_TRUE
                    | _ => TRI_UNDEF
                    end) (defaulted_escape_html o)).

(** Whether one of the values is the string; the lists have the length of the keys. *)
Fixpoint in_list (value : list Z) (len : nat) (values : list (option (list Z))) : option bool :=
  match len with
  | O => Some false
  | S len => v ← mjoin (head values); if bool_decide (cstr value = v) then Some true else in_list value len (tail values)
  end.

(** The calls for the patterns under "match". *)
Fixpoint match_calls (options : option parse_qs_options) (value : list Z) (utf8 : req_utf8) (keys : list (list Z)) (values : list (option (list Z))) : option (list call) :=
  match keys with
  | [] => Some []
  | k :: keys =>
    v ← head values;
    l ← match_calls options value utf8 keys (tail values);
    Some (if match_var v value utf8 then mk_call options k [49] :: l else l)
  end.

(** The calls made for a key, and the options after them. *)
Definition parse_query_string_value (key : list Z) (value : option (list Z)) (vars : option (vtree_chain X)) (utf8 : req_utf8)
    (options : option parse_qs_options) : option (list call * option parse_qs_options) :=
  match value, vars with
  | Some value, Some vars =>
    options ← (match options with
               | None => Some None
               | Some _ => e ← vtree_get vars [Key key; Key (bytes "escape_html")]; Some (set_escape options e)
               end);
    allow ← vtree_haskey vars [Key key; Key (bytes "allow")];
    value_ok ← (if (allow : bool) then
                  keys ← vtree_fetch_keys vars [Key key; Key (bytes "allow")];
                  values ← vtree_fetch_values vars [Key key; Key (bytes "allow"); VTREE_LOOP];
                  in_list value (length keys) values
                else Some false);
    if (value_ok : bool) then Some ([mk_call options key value], options)
    else
      vregex ← vtree_get vars [Key key; Key (bytes "regex")];
      if match_var vregex value utf8 then
        keys ← vtree_fetch_keys vars [Key key; Key (bytes "match")];
        values ← vtree_fetch_values vars [Key key; Key (bytes "match"); VTREE_LOOP; Key (bytes "regex")];
        calls ← match_calls options value utf8 keys values;
        Some (calls ++ [mk_call options key value], options)
      else Some ([], options)
  | Some value, None => Some ([mk_call options key value], options)
  | None, _ => Some ([], options)
  end.

(** The key up to the first separator, and what follows. *)
Fixpoint span_key (s : list Z) : list Z * list Z :=
  match s with
  | [] => ([], [])
  | c :: r => if (c =? 61) || (c =? 38) then ([], s) else let '(k, rest) := span_key r in (c :: k, rest)
  end.

(** The value after the check of its encoding. *)
Definition check_value (utf8 : req_utf8) (is_utf8 : bool) (value : list Z) : option (list Z) :=
  if is_utf8 then Some value
  else match utf8 with
       | RUTF8_NOCHECK => Some value
       | RUTF8_REQUIRE => None
       | RUTF8_FALLBACK_LATIN1 => let '(tmpval, tlen) := latin1_to_utf8 (cstr value) (size value) in Some (take (Z.to_nat tlen) tmpval)
       end.

Definition skip_amp (s : list Z) : list Z := match s with 38 :: s => s | _ => s end.

Fixpoint parse_loop (fuel : nat) (ptr : list Z) (vars : option (vtree_chain X)) (unsafe : bool) (utf8 : req_utf8)
    (options : option parse_qs_options) : option (list call * option parse_qs_options) :=
  match fuel with
  | O => None
  | S fuel =>
    match ptr with
    | [] => Some ([], options)
    | _ =>
      let '(key, ptr) := span_key ptr in
      let '(value, ptr) :=
        match ptr with
        | 61 :: ptr =>
          let '(value, ptr, is_utf8) := url_decode ptr (-1) (Some [38]) unsafe in
          (check_value utf8 is_utf8 value, skip_amp ptr)
        | _ => (None, skip_amp ptr)
        end in
      '(calls, options) ← parse_query_string_value key value vars utf8 options;
      '(more, options) ← parse_loop fuel ptr vars unsafe utf8 options;
      Some (calls ++ more, options)
    end
  end.

Definition parse_query_string (qs : list Z) := parse_loop (S (length qs)) qs.
End Parse.

(** * Proofs *)

(** ** URLs *)

Definition is_lower (c : Z) : Prop := 97 <= c <= 122 \/ 65 <= c <= 90.
Definition bracketed (b : bool) (h : list Z) : list Z := if b then 91 :: h ++ [93] else h.

(** The parts of a URL as the pattern delimits them: the offsets of groups that did not
    take part are negative, and a final line feed is not matched. *)
Record url_groups (str : list Z) (ov : list (Z * Z)) (u : url) (b : bool) : Prop := {
  groups_host : b = false -> head (host u) <> Some 91;
  groups_str : exists nl, (nl = [] \/ nl = [10]) /\
    str = protocol u ++ bytes "://" ++ bracketed b (host u) ++ (match port u with [] => [] | _ => 58 :: port u end) ++ path u ++ nl;
  groups_ov : let a := size (protocol u) in
    let c := a + 3 + size (bracketed b (host u)) in
    let d := c + (match port u with [] => 0 | _ => 1 + size (port u) end) in
    ov !! 1%nat = Some (0, a) /\ ov !! 2%nat = Some (a + 3, c) /\
    ov !! 3%nat = Some (match port u with [] => (-1, -1) | _ => (c, d) end) /\
    ov !! 4%nat = Some (match path u with [] => (-1, -1) | _ => (d, d + size (path u)) end) }.

Lemma slice_app (a b c : list Z) : slice (a ++ b ++ c) (size a) (size a + size b) = b.
Proof.
  unfold slice. replace (Z.to_nat (size a)) with (length a) by (unfold size; lia).
  rewrite drop_app_length. replace (Z.to_nat _) with (length b) by (unfold size; lia). by rewrite take_app_length.
Qed.

Lemma slice_at (pre mid post : list Z) str s e : str = pre ++ mid ++ post -> s = size pre -> e = s + size mid -> slice str s e = mid.
Proof. intros -> -> ->. apply slice_app. Qed.

Lemma slice_empty str s : slice str s s = [].
Proof. unfold slice. by rewrite Z.sub_diag. Qed.

Section UrlParts.
Context `{Pcre} (url_options : Z).

(** What the pattern is documented to capture. *)
Context (url_re_groups : forall str ov, answer URL_RE url_options 27 str = Match ov -> exists u b, url_groups str ov u b).

(** A URL is split into the parts of the pattern, without the brackets and the colon. *)
Theorem split_url_parts (re : cached_regex) (str : list Z) :
  regex re = URL_RE -> options re = url_options -> valid 27 re ->
  exists re', valid 27 re' /\
    match answer URL_RE url_options 27 str with
    | Match ov => exists u b, url_groups str ov u b /\ split_url re str = Some (Some u, re')
    | _ => split_url re str = Some (None, re')
    end.
Proof.
  intros Hre Hopt Hv. unfold split_url. destruct (cached_regex_match re str 27) as [[ret ov] re'] eqn:E.
  apply cached_regex_match_valid in E as (-> & -> & Hv' & _); [|done|by rewrite Hre]. rewrite Hre, Hopt in *.
  exists re'. split; [done|]. specialize (url_re_groups str). destruct (answer URL_RE url_options 27 str) as [ov| |]; [|done|done].
  destruct (url_re_groups ov eq_refl) as (u & b & G). exists u, b. split; [done|].
  destruct G as [Hhost (nl & _ & Es) (E1 & E2 & E3 & E4)]. destruct u as [pr h po pa]. cbn [protocol host port path ret_of Z.eqb] in *.
  set (H0 := bracketed b h) in *. assert (size (bytes "://") = 3) as H3 by done.
  assert (exists s3 e3, ov !! 3%nat = Some (s3, e3) /\ slice str (s3 + 1) (s3 + 1 + (if 0 <? e3 - s3 then e3 - s3 - 1 else e3 - s3)) = po)
    as (s3 & e3 & E3' & Hport).
  { destruct po as [|p po]; eexists _, _; (split; [exact E3|]); [apply slice_empty|]. set (q := p :: po) in *.
    assert (0 < size q) by (unfold q, size; simpl; lia). rewrite (proj2 (Z.ltb_lt _ _)) by lia.
    eapply (slice_at (pr ++ bytes "://" ++ H0 ++ [58]) q (pa ++ nl)); [by rewrite Es, <- !(assoc_L (++))|rewrite !size_app; unfold size; simpl; lia|lia]. }
  assert (exists s4 e4, ov !! 4%nat = Some (s4, e4) /\ slice str s4 (s4 + (e4 - s4)) = pa) as (s4 & e4 & E4' & Hpath).
  { destruct pa as [|p pa]; eexists _, _; (split; [exact E4|]); [by vm_compute|]. set (q := p :: pa) in *.
    eapply (slice_at (pr ++ bytes "://" ++ H0 ++ match po with [] => [] | _ => 58 :: po end) q nl);
      [by rewrite Es, <- !(assoc_L (++))|rewrite !size_app; destruct po; unfold size; simpl; lia|lia]. }
  rewrite E1, E2, E3', E4'. cbn [mbind option_bind]. rewrite Hport, Hpath. clear E1 E2 E3 E4 Hport Hpath.
  set (probe := if 0 <? _ then _ else _). assert (probe = Some b) as ->.
  { subst probe. replace (size pr + 3 + size H0 - (size pr + 3)) with (size H0) by lia.
    assert (forall x t, H0 = x :: t -> str !! Z.to_nat (size pr + 3) = Some x) as Hat.
    { intros x t Ex. rewrite Es, Ex, (assoc_L (++)). replace (Z.to_nat _) with (length (pr ++ bytes "://")) by (rewrite length_app; unfold size in *; simpl; lia).
      rewrite lookup_app_r, Nat.sub_diag by done. done. }
    subst H0. destruct b; cbn [bracketed] in *; [|destruct h as [|x h]; [done|]].
    - rewrite (proj2 (Z.ltb_lt _ _)) by (unfold size; simpl; lia). by rewrite (Hat 91 (h ++ [93])).
    - rewrite (proj2 (Z.ltb_lt _ _)) by (unfold size; simpl; lia). rewrite (Hat x h) by done. cbn [mbind option_bind].
      rewrite (proj2 (Z.eqb_neq x 91)); [done|]. specialize (Hhost eq_refl). simpl in Hhost. congruence. }
  cbn [mbind option_bind]. do 2 f_equal. apply f_equal. f_equal.
  - by eapply (slice_at [] pr); [exact Es|..|]; [|lia].
  - subst H0. destruct b; cbn [bracketed] in *.
    + eapply (slice_at (pr ++ bytes "://" ++ [91]) h); [rewrite Es, <- !(assoc_L (++)); cbn [app]; by rewrite <- (assoc_L (++))|rewrite !size_app; unfold size; simpl; lia|].
      change (91 :: h ++ [93]) with ([91] ++ h ++ [93]). rewrite !size_app. unfold size. simpl. lia.
    + eapply (slice_at (pr ++ bytes "://") h); [by rewrite Es, <- !(assoc_L (++))|rewrite !size_app; unfold size; simpl; lia|lia].
Qed.
End UrlParts.

(** ** Query strings *)

Lemma span_key_length s k r : span_key s = (k, r) -> length s = (length k + length r)%nat.
Proof.
  induction s as [|c s IH] in k, r |- *; cbn [span_key]; [by intros [= <- <-]|].
  destruct (_ || _); [by intros [= <- <-]|]. destruct (span_key s) as [k' r']. intros [= <- <-]. simpl. f_equal. by apply IH.
Qed.

Lemma span_key_rest s k p r : span_key s = (k, p :: r) -> p = 61 \/ p = 38.
Proof.
  induction s as [|c s IH] in k |- *; cbn [span_key]; [done|].
  destruct (_ || _) eqn:E; [intros [= _ <- _]; apply orb_prop in E as [E|E]; apply Z.eqb_eq in E; auto|].
  destruct (span_key s) as [k' r'] eqn:Es. intros [= _ ->]. by eapply IH.
Qed.

Lemma span_key_app k r : Forall (fun c => c <> 61 /\ c <> 38) k -> (r = [] \/ exists c t, r = c :: t /\ (c = 61 \/ c = 38)) -> span_key (k ++ r) = (k, r).
Proof.
  intros Hk Hr. induction Hk as [|c k [H1 H2] _ IH]; cbn [app span_key].
  - destruct Hr as [->|(c & t & -> & [-> | ->])]; done.
  - rewrite (proj2 (Z.eqb_neq c 61)), (proj2 (Z.eqb_neq c 38)) by done. cbn [orb]. by rewrite IH.
Qed.

Lemma url_decode_loop_length n : forall s left stop unsafe k done rest k', (length s < n)%nat ->
  url_decode_loop s left stop unsafe k = (done, rest, k') -> (length done + length rest <= length s)%nat.
Proof.
  induction n as [|n IH]; intros s left stop unsafe k done rest k' Hn; [lia|]. destruct s as [|c r]; [by intros [= <- <- _]|].
  cbn [url_decode_loop]. destruct (_ || _); [intros [= <- <- _]; simpl; lia|].
  assert (forall left x, (let '(d, q, k2) := url_decode_loop r left stop unsafe (check_step k x) in (x :: d, q, k2)) = (done, rest, k') ->
    (length done + length rest <= length (c :: r))%nat) as Hplain.
  { intros left' x. destruct (url_decode_loop r left' stop unsafe (check_step k x)) as [[d q] k2] eqn:E. intros [= <- <- _].
    apply IH in E; simpl in *; lia. }
  destruct r as [|a [|b r']]; [by apply Hplain..|]. destruct (_ && _ && _); [|by apply Hplain].
  destruct (url_decode_loop r' _ _ _ _) as [[d q] k2] eqn:E. intros [= <- <- _]. apply IH in E; simpl in *; lia.
Qed.

Lemma skip_amp_length s : (length (skip_amp s) <= length s)%nat.
Proof. unfold skip_amp. destruct s as [|c s]; [done|]. simpl. repeat case_match; simpl; lia. Qed.

Section ParseProofs.
Context `{Pcre} {X : Type} `{!VtreeBackend X} (match_options : bool -> Z).

Lemma parse_loop_total n : forall fuel qs unsafe utf8 options, (length qs < n)%nat -> (length qs < fuel)%nat ->
  exists calls, parse_loop match_options fuel qs (None : option (vtree_chain X)) unsafe utf8 options = Some (calls, options).
Proof.
  induction n as [|n IH]; intros fuel qs unsafe utf8 options Hn Hf; [lia|]. destruct fuel as [|fuel]; [lia|].
  cbn [parse_loop]. destruct qs as [|c qs]; [by exists []|]. destruct (span_key (c :: qs)) as [key ptr] eqn:Ek.
  pose proof (span_key_length _ _ _ Ek) as Hlen.
  assert (forall value ptr', (length ptr' < length (c :: qs))%nat -> exists calls,
    ('(calls, options) ← parse_query_string_value match_options key value (None : option (vtree_chain X)) utf8 options;
     '(more, options) ← parse_loop match_options fuel ptr' (None : option (vtree_chain X)) unsafe utf8 options; Some (calls ++ more, options)) = Some (calls, options)) as Hgo.
  { intros value ptr' Hp. destruct (IH fuel ptr' unsafe utf8 options) as [more E]; [lia|lia|].
    destruct value; cbn [parse_query_string_value mbind option_bind]; rewrite E; by eexists. }
  destruct ptr as [|p ptr]; [apply Hgo; cbn; destruct key; simpl in *; lia|].
  assert (forall q : list Z, (length q <= length ptr)%nat -> (length q < length (c :: qs))%nat) as Hq by (simpl in *; lia).
  destruct (span_key_rest _ _ _ _ Ek) as [-> | ->]; [|by apply Hgo, Hq].
  destruct (url_decode ptr (-1) (Some [38]) unsafe) as [[v r] ok] eqn:Eu. apply Hgo, Hq. etrans; [apply skip_amp_length|].
  unfold url_decode in Eu. destruct (url_decode_loop _ _ _ _ _) as [[d q] k] eqn:El. injection Eu as <- <- _.
  apply (url_decode_loop_length (S (length ptr))) in El; lia.
Qed.

(** Every string is parsed to its end if the values are not restricted. *)
Theorem parse_query_string_total (qs : list Z) unsafe utf8 options :
  exists calls, parse_query_string match_options qs (None : option (vtree_chain X)) unsafe utf8 options = Some (calls, options).
Proof. apply (parse_loop_total (S (length qs))); lia. Qed.

Definition is_key (k : list Z) : Prop := Forall (fun c => c <> 61 /\ c <> 38) k.

(** The text of a form: the keys as they are, the values escaped. *)
Definition field (escapes : Z -> bool) (kv : list Z * list Z) : list Z := fst kv ++ 61 :: concat (map (url_char escapes) (snd kv)).

Fixpoint form (escapes : Z -> bool) (kvs : list (list Z * list Z)) : list Z :=
  match kvs with
  | [] => []
  | [kv] => field escapes kv
  | kv :: kvs => field escapes kv ++ 38 :: form escapes kvs
  end.

Lemma parse_field escapes kv tl fuel utf8 options :
  decodable escapes (Some [38]) -> is_key (fst kv) -> Forall byte (snd kv) -> utf8 = RUTF8_NOCHECK -> tl = [] \/ (exists r, tl = 38 :: r) ->
  parse_loop match_options (S fuel) (field escapes kv ++ tl) (None : option (vtree_chain X)) true utf8 options =
  '(more, o) ← parse_loop match_options fuel (skip_amp tl) (None : option (vtree_chain X)) true utf8 options;
  Some (mk_call options (fst kv) (snd kv) :: more, o).
Proof.
  intros Hd Hk Hv -> Htl. destruct kv as [k v]. cbn [fst snd] in *. unfold field. cbn [fst snd].
  rewrite <- (assoc_L (++)). cbn [app]. set (enc := concat (map (url_char escapes) v)).
  assert (url_decode (enc ++ tl) (-1) (Some [38]) true = (v, tl, check_all v check_init)) as Eu.
  { unfold url_decode. cbn [Z.leb Z.compare]. unfold enc. rewrite decode_escaped; [|done|done|unfold size; rewrite length_app; lia|].
    - cbn zeta. rewrite (map_ext _ (fun c => c)), map_id; [done|]. intros c. by destruct (escapes c).
    - destruct Htl as [->|(r & ->)]; [by left|right]. by exists 38, r. }
  assert (span_key (k ++ 61 :: enc ++ tl) = (k, 61 :: enc ++ tl)) as Ek by (apply span_key_app; [done|right; eexists _, _; split; [done|by left]]).
  cbn [parse_loop]. rewrite Ek, Eu. cbn [app].
  destruct (k ++ 61 :: enc ++ tl) as [|c0 t0] eqn:E0; [by destruct k|].
  assert (check_value RUTF8_NOCHECK (check_all v check_init) v = Some v) as -> by (unfold check_value; by destruct (check_all _ _)).
  cbn [parse_query_string_value mbind option_bind]. done.
Qed.

(** Parsing the text of a form calls back with its fields, in order: the values are
    decoded to what they were. *)
Theorem parse_form (kvs : list (list Z * list Z)) escapes options :
  escapes = url_escapes \/ escapes = postdata_escapes ->
  Forall (fun kv => is_key (fst kv) /\ Forall byte (snd kv)) kvs ->
  parse_query_string match_options (form escapes kvs) (None : option (vtree_chain X)) true RUTF8_NOCHECK options =
  Some (map (fun kv => mk_call options (fst kv) (snd kv)) kvs, options).
Proof.
  intros He Hkvs. assert (decodable escapes (Some [38])) as Hd by (destruct He as [-> | ->]; [apply url_decodable|apply postdata_decodable]).
  unfold parse_query_string.
  assert (forall fuel, (length (form escapes kvs) < fuel)%nat ->
    parse_loop match_options fuel (form escapes kvs) (None : option (vtree_chain X)) true RUTF8_NOCHECK options =
    Some (map (fun kv => mk_call options (fst kv) (snd kv)) kvs, options)) as Hl; [|apply Hl; lia].
  induction kvs as [|kv kvs IH]; intros fuel Hf; (destruct fuel as [|fuel]; [lia|]); [done|].
  apply list.Forall_cons in Hkvs as [[Hk Hv] Hkvs]. specialize (IH Hkvs).
  destruct kvs as [|kv' kvs].
  - cbn [form]. rewrite <- (app_nil_r (field escapes kv)). rewrite parse_field by (done || by left). cbn [skip_amp].
    destruct fuel as [|fuel]; [|done]. cbn [form] in Hf. unfold field in Hf. rewrite length_app in Hf. simpl in Hf. lia.
  - change (form escapes (kv :: kv' :: kvs)) with (field escapes kv ++ 38 :: form escapes (kv' :: kvs)) in *.
    rewrite parse_field by (done || (right; by eexists)). cbn [skip_amp].
    rewrite length_app in Hf. change (length (38 :: form escapes (kv' :: kvs))) with (S (length (form escapes (kv' :: kvs)))) in Hf.
    rewrite IH by lia. done.
Qed.

Lemma in_list_spec value len : forall values r, in_list value len values = Some r -> (r = true <-> Some (cstr value) ∈ take len values).
Proof.
  induction len as [|len IH]; intros values r; cbn [in_list].
  - intros [= <-]. rewrite take_0. split; [done|]. by intros ?%elem_of_nil.
  - destruct values as [|[v|] values]; [done| |done]. cbn [head mjoin option_join mbind option_bind tail take]. rewrite elem_of_cons.
    destruct (bool_decide_reflect (cstr value = v)) as [E|E]; [intros [= <-]; split; [left; congruence|done]|].
    intros Hr. apply IH in Hr. rewrite Hr. split; [by right|]. by intros [[= ?]|?].
Qed.

#[local] Arguments match_var : simpl never.

Lemma match_calls_spec options value utf8 keys : forall values l,
  match_calls match_options options value utf8 keys values = Some l ->
  l = map (fun k => mk_call options k [49]) (fst <$> filter (fun kv => Is_true (match_var match_options (snd kv) value utf8)) (zip keys values)).
Proof.
  induction keys as [|k keys IH]; intros values l; cbn [match_calls]; [by intros [= <-]|].
  destruct values as [|v values]; [done|]. cbn [head mbind option_bind tail zip zip_with].
  destruct (match_calls match_options options value utf8 keys values) as [l'|] eqn:E; [|done]. cbn [mbind option_bind]. intros [= <-].
  rewrite filter_cons. cbn [snd]. rewrite (IH _ _ E). destruct (decide _) as [Hd|Hd]; cbn [snd] in Hd; destruct (match_var match_options v value utf8); [done|by destruct Hd|by destruct Hd|done].
Qed.

(** The values that are let through: those of the list, or those that match. *)
Definition listed (vars : vtree_chain X) (key value : list Z) : Prop :=
  vtree_haskey vars [Key key; Key (bytes "allow")] = Some true /\
  exists keys values, vtree_fetch_keys vars [Key key; Key (bytes "allow")] = Some keys /\
    vtree_fetch_values vars [Key key; Key (bytes "allow"); VTREE_LOOP] = Some values /\ Some (cstr value) ∈ take (length keys) values.

Definition matches (vars : vtree_chain X) (key value : list Z) (utf8 : req_utf8) : Prop :=
  exists vregex, vtree_get vars [Key key; Key (bytes "regex")] = Some vregex /\ match_var match_options vregex value utf8 = true.

(** A restricted value reaches the callback exactly if it is listed or matches; the
    matching keys are called back before it only if the value is not listed. *)
Theorem restricted_value (vars : vtree_chain X) key value utf8 options calls o :
  parse_query_string_value match_options key (Some value) (Some vars) utf8 options = Some (calls, o) ->
  (listed vars key value /\ calls = [mk_call o key value]) \/
  (~ listed vars key value /\ matches vars key value utf8 /\ exists ks, calls = map (fun k => mk_call o k [49]) ks ++ [mk_call o key value]) \/
  (~ listed vars key value /\ ~ matches vars key value utf8 /\ calls = []).
Proof.
  unfold parse_query_string_value, listed, matches. set (opts := match options with None => Some None | Some _ => _ end).
  destruct opts as [opts'|]; [|done]. cbn [mbind option_bind].
  destruct (vtree_haskey vars [Key key; Key (bytes "allow")]) as [allow|]; [|done]. cbn [mbind option_bind].
  set (ok := if allow then _ else _).
  destruct ok as [value_ok|] eqn:Eok; [|done]. cbn [mbind option_bind].
  assert (value_ok = true <-> allow = true /\ exists keys values, vtree_fetch_keys vars [Key key; Key (bytes "allow")] = Some keys /\
    vtree_fetch_values vars [Key key; Key (bytes "allow"); VTREE_LOOP] = Some values /\ Some (cstr value) ∈ take (length keys) values) as Hok.
  { subst ok. destruct allow; [|injection Eok as <-; split; [done|by intros []]].
    destruct (vtree_fetch_keys _ _) as [keys|]; [|done]. cbn [mbind option_bind] in Eok.
    destruct (vtree_fetch_values _ _) as [values|]; [|done]. cbn [mbind option_bind] in Eok. rewrite (in_list_spec _ _ _ _ Eok).
    split; [intros Hin; split; [done|]; by exists keys, values|]. intros (_ & ? & ? & [= <-] & [= <-] & ?). done. }
  destruct value_ok.
  - intros [= <- <-]. left. split; [|done]. destruct (proj1 Hok eq_refl) as [-> ?]. done.
  - assert (~ (Some allow = Some true /\ exists keys values, vtree_fetch_keys vars [Key key; Key (bytes "allow")] = Some keys /\
      vtree_fetch_values vars [Key key; Key (bytes "allow"); VTREE_LOOP] = Some values /\ Some (cstr value) ∈ take (length keys) values)) as Hno.
    { intros [[= ->] ?]. discriminate (proj2 Hok ltac:(done)). }
    destruct (vtree_get vars [Key key; Key (bytes "regex")]) as [vregex|]; [|done]. cbn [mbind option_bind].
    destruct (match_var match_options vregex value utf8) eqn:Em; cbn [mbind option_bind].
    + destruct (vtree_fetch_keys vars [Key key; Key (bytes "match")]) as [keys|]; [|done]. cbn [mbind option_bind].
      destruct (vtree_fetch_values vars [Key key; Key (bytes "match"); VTREE_LOOP; Key (bytes "regex")]) as [values|]; [|done]. cbn [mbind option_bind].
      destruct (match_calls match_options opts' value utf8 keys values) as [l|] eqn:El; [|done]. cbn [mbind option_bind]. intros [= <- <-].
      right. left. split; [done|]. split; [by exists vregex|]. rewrite (match_calls_spec _ _ _ _ _ _ El). by eexists.
    + intros [= <- <-]. right. right. split; [done|]. split; [|done]. intros (? & [= <-] & ?). congruence.
Qed.
End ParseProofs.

(** * Examples *)

Definition sample_url : list Z := bytes "http://[::1]:80/x".

(** The pattern on one URL. *)
Definition url_pcre : Pcre := {|
  pcre := (); pcre_extra := ();
  PCRE_NO_AUTO_CAPTURE := 0x1000;
  pcre_compile := fun _ _ => Some ();
  pcre_study := fun _ => Some None;
  pcre_capture_count := fun _ _ => Some 4;
  pcre_exec := fun _ _ s _ => if bool_decide (s = sample_url) then Match [(0, 17); (0, 4); (7, 12); (12, 15); (15, 17)] else NoMatch |}.

Lemma split_url_parts_witness : exists re', @split_url url_pcre (@mk_regex url_pcre URL_RE 0 None None 0 0) sample_url =
  Some (Some (mk_url (bytes "http") (bytes "::1") (bytes "80") (bytes "/x")), re').
Proof.
  destruct (@split_url_parts url_pcre 0) with (re := @mk_regex url_pcre URL_RE 0 None None 0 0) (str := sample_url) as (re' & _ & H);
    [|reflexivity|reflexivity|left; reflexivity|].
  - intros str ov E. change (@answer url_pcre URL_RE 0 27 str) with
      (if bool_decide (str = sample_url) then Match [(0, 17); (0, 4); (7, 12); (12, 15); (15, 17)] else NoMatch) in E.
    destruct (bool_decide_reflect (str = sample_url)) as [->|]; [|discriminate E]. injection E as <-. exists (mk_url (bytes "http") (bytes "::1") (bytes "80") (bytes "/x")), true. split.
    + intros E. discriminate E.
    + exists []. split; [left; reflexivity|vm_compute; reflexivity].
    + vm_compute. repeat split; reflexivity.
  - exists re'. vm_compute in H. destruct H as (u & b & _ & E). injection E as <- <-. vm_compute. reflexivity.
Defined.

Lemma parse_form_witness :
  parse_query_string (H := literal_pcre) (X := bconf_chain) (fun _ => 0) (bytes "a=x%26y&b=") None true RUTF8_NOCHECK None =
  Some ([mk_call None (bytes "a") (bytes "x&y"); mk_call None (bytes "b") []], None).
Proof.
  apply (parse_form (H := literal_pcre) (X := bconf_chain) (fun _ => 0) [(bytes "a", bytes "x&y"); (bytes "b", [])] url_escapes None); [left; reflexivity|].
  apply List.Forall_cons; [|apply List.Forall_cons; [|apply List.Forall_nil]].
  - split; [apply List.Forall_cons; [split; discriminate|apply List.Forall_nil]|].
    change (snd (bytes "a", bytes "x&y")) with [120; 38; 121]. repeat (apply List.Forall_cons; [split; [discriminate|reflexivity]|]). apply List.Forall_nil.
  - split; [apply List.Forall_cons; [split; discriminate|apply List.Forall_nil]|apply List.Forall_nil].
Defined.

(** A tree that restricts the values of two keys. *)
Definition restricted_tree : vtree_chain bconf_chain :=
  bconf_vtree (root ← bconf_add_data None (bytes "a.allow.1") (bytes "x");
               bconf_add_data (Some root) (bytes "b.regex") (bytes "y")).

Lemma restricted_value_witness :
  (listed restricted_tree (bytes "a") (bytes "x") /\
    parse_query_string_value (H := literal_pcre) (fun _ => 0) (bytes "a") (Some (bytes "x")) (Some restricted_tree) RUTF8_REQUIRE None =
    Some ([mk_call None (bytes "a") (bytes "x")], None)) /\
  (matches (H := literal_pcre) (fun _ => 0) restricted_tree (bytes "b") (bytes "zyz") RUTF8_REQUIRE /\
    parse_query_string_value (H := literal_pcre) (fun _ => 0) (bytes "b") (Some (bytes "zyz")) (Some restricted_tree) RUTF8_REQUIRE None =
    Some ([mk_call None (bytes "b") (bytes "zyz")], None)) /\
  (~ listed restricted_tree (bytes "a") (bytes "y")).
Proof.
  split; [|split].
  - assert (parse_query_string_value (H := literal_pcre) (fun _ => 0) (bytes "a") (Some (bytes "x")) (Some restricted_tree) RUTF8_REQUIRE None =
      Some ([mk_call None (bytes "a") (bytes "x")], None)) as E by (vm_compute; reflexivity). split; [|exact E].
    destruct (restricted_value (H := literal_pcre) (fun _ => 0) restricted_tree _ _ _ _ _ _ E) as [[H _]|[(_ & (r & Hr & Hm) & _)|(_ & _ & H)]].
    + exact H.
    + vm_compute in Hr. injection Hr as <-. vm_compute in Hm. discriminate Hm.
    + discriminate H.
  - assert (parse_query_string_value (H := literal_pcre) (fun _ => 0) (bytes "b") (Some (bytes "zyz")) (Some restricted_tree) RUTF8_REQUIRE None =
      Some ([mk_call None (bytes "b") (bytes "zyz")], None)) as E by (vm_compute; reflexivity). split; [|exact E].
    destruct (restricted_value (H := literal_pcre) (fun _ => 0) restricted_tree _ _ _ _ _ _ E) as [[[H _] _]|[(_ & H & _)|(_ & _ & H)]].
    + vm_compute in H. discriminate H.
    + exact H.
    + discriminate H.
  - assert (parse_query_string_value (H := literal_pcre) (fun _ => 0) (bytes "a") (Some (bytes "y")) (Some restricted_tree) RUTF8_REQUIRE None =
      Some ([], None)) as E by (vm_compute; reflexivity).
    destruct (restricted_value (H := literal_pcre) (fun _ => 0) restricted_tree _ _ _ _ _ _ E) as [[_ H]|[(H & _)|(H & _)]]; [discriminate H|exact H|exact H].
Defined.
