(* ===== verification/Stringmap.v ===== *)
(** Stringmap: interned strings and maps from a string to the list of its values,
    src/util/lib/stringpool.c and src/util/lib/stringmap.c.

    The pool is a client of the tree's interface [OrderedSet].  A string and its
    length are the list of its bytes; a pointer into a pool is the string, which
    never moves.  The growth of the arrays is not modelled: an entry is the list
    of its values, [one] when there is one. *)
From stdpp Require Import prelude list numbers.
From Stdlib Require Import ZArith Lia.
From S2P Require Import Prelude Avl.

Local Open Scope Z_scope.

(** * stringpool.c *)

Record stringpool_entry := mk_entry { sp_str : list Z; sp_index : Z }.

#[export] Instance stringpool_entry_eq_dec : EqDecision stringpool_entry.
Proof. solve_decision. Defined.

(** strncmp of two buffers of the same length, which also stops at a zero byte. *)
Fixpoint strncmp (a b : list Z) : Z :=
  match a, b with
  | x :: a, y :: b => if negb (x =? y) then x - y else if x =? 0 then 0 else strncmp a b
  | _, _ => 0
  end.

Definition stringpool_compare (a b : stringpool_entry) : Z :=
  let la := Z.of_nat (length (sp_str a)) in
  let lb := Z.of_nat (length (sp_str b)) in
  if negb (la =? lb) then la - lb else strncmp (sp_str a) (sp_str b).

Lemma strncmp_opp a b : length a = length b -> Z.sgn (strncmp a b) = - Z.sgn (strncmp b a).
Proof.
  revert b. induction a as [|x a IH]; intros [|y b]; simpl; try done. intros [= Hl].
  rewrite (Z.eqb_sym y x). destruct (Z.eqb_spec x y) as [->|]; simpl; [|lia]. destruct (y =? 0); [done|auto].
Qed.

Lemma strncmp_trans a b c : length a = length b -> length b = length c ->
  strncmp a b <= 0 -> strncmp b c <= 0 -> strncmp a c <= 0.
Proof.
  revert b c. induction a as [|x a IH]; intros [|y b] [|z c]; simpl; try done. intros [= Hl] [= Hl'].
  destruct (Z.eqb_spec x y), (Z.eqb_spec y z), (Z.eqb_spec x z); simpl; try lia. subst.
  destruct (z =? 0); [lia|]. eauto.
Qed.

#[export] Instance stringpool_order : CmpOrder stringpool_compare.
Proof.
  split; unfold stringpool_compare.
  - intros [a i] [b j]; simpl. destruct (Z.eqb_spec (Z.of_nat (length a)) (Z.of_nat (length b))) as [E|E]; simpl.
    + rewrite (proj2 (Z.eqb_eq _ _)) by lia. simpl. apply strncmp_opp. lia.
    + rewrite (proj2 (Z.eqb_neq _ _)) by lia. simpl. lia.
  - intros [a i] [b j] [c k]; simpl.
    destruct (Z.eqb_spec (Z.of_nat (length a)) (Z.of_nat (length b))),
             (Z.eqb_spec (Z.of_nat (length b)) (Z.of_nat (length c))),
             (Z.eqb_spec (Z.of_nat (length a)) (Z.of_nat (length c))); simpl; try lia.
    apply strncmp_trans; lia.
Qed.

Section Stringmap.
Context {T : Type} `{!OrderedSet stringpool_compare T}.

Record stringpool := mk_pool { strs : T; sp_n : Z }.

Definition stringpool_new : stringpool := mk_pool os_empty 0.

(** The key on the stack has no index; the comparison does not look at it. *)
Definition stringpool_lookup (pool : stringpool) (str : list Z) : option stringpool_entry :=
  os_lookup (mk_entry str 0) (strs pool).

Definition stringpool_add (pool : stringpool) (str : list Z) : option (stringpool_entry * stringpool) :=
  let e := mk_entry str (sp_n pool) in
  t ← os_insert e (strs pool);
  Some (e, mk_pool t (sp_n pool + 1)).

Definition stringpool_get (pool : stringpool) (str : list Z) : option (list Z * stringpool) :=
  match stringpool_lookup pool str with
  | Some e => Some (sp_str e, pool)
  | None => '(e, pool) ← stringpool_add pool str; Some (sp_str e, pool)
  end.

Definition stringpool_get_index (pool : stringpool) (str : list Z) : option (Z * stringpool) :=
  match stringpool_lookup pool str with
  | Some e => Some (sp_index e, pool)
  | None => '(e, pool) ← stringpool_add pool str; Some (sp_index e, pool)
  end.

Definition stringpool_search_index (pool : stringpool) (str : list Z) : Z :=
  match stringpool_lookup pool str with Some e => sp_index e | None => -1 end.

(** * stringmap.c *)

Record stringmap := mk_sm {
  sm_keys : stringpool;
  sm_values : stringpool;
  sm_entries : list (list (list Z))
}.

Definition sm_new : stringmap := mk_sm stringpool_new stringpool_new [].

Definition sm_insert (sm : stringmap) (key value : list Z) : option stringmap :=
  '(idx, keys) ← stringpool_get_index (sm_keys sm) key;
  '(v, values) ← stringpool_get (sm_values sm) value;
  if idx <? Z.of_nat (length (sm_entries sm)) then
    e ← sm_entries sm !! Z.to_nat idx;
    Some (mk_sm keys values (<[Z.to_nat idx := e ++ [v]]> (sm_entries sm)))
  else Some (mk_sm keys values (sm_entries sm ++ [[v]])).

(** The entry of a key; a NULL map has none. *)
Definition sm_entry (sm : option stringmap) (key : list Z) : option (list (list Z)) :=
  sm ← sm;
  let idx := stringpool_search_index (sm_keys sm) key in
  if (idx <? 0) || (Z.of_nat (length (sm_entries sm)) <=? idx) then None else sm_entries sm !! Z.to_nat idx.

Definition sm_get (sm : option stringmap) (key : list Z) (index : Z) : option (list Z) :=
  e ← sm_entry sm key;
  if (index <? 0) || (Z.of_nat (length e) <=? index) then None else e !! Z.to_nat index.

(** [out_list]: no values when the key is not present. *)
Definition sm_getlist (sm : option stringmap) (key : list Z) : list (list Z) := default [] (sm_entry sm key).

(** * The pool numbers the strings in the order they came *)

(** Strings that the comparison tells apart; all of those without a zero byte. *)
Definition cstring (s : list Z) : Prop := Forall char s.

Lemma strncmp_eq a b : cstring a -> length a = length b -> strncmp a b = 0 <-> a = b.
Proof.
  revert b. induction a as [|x a IH]; intros [|y b] Ha; simpl; try done. intros [= Hl].
  apply list.Forall_cons in Ha as [Hx Ha]. unfold char in Hx.
  destruct (Z.eqb_spec x y) as [->|]; simpl.
  - destruct (Z.eqb_spec y 0); [lia|]. rewrite IH by done. split; [by intros ->|by intros [= ->]].
  - split; [lia|]. intros [= -> ->]. done.
Qed.

Lemma compare_eq a b : cstring (sp_str a) -> stringpool_compare a b = 0 <-> sp_str a = sp_str b.
Proof.
  intros Ha. unfold stringpool_compare.
  destruct (Z.eqb_spec (Z.of_nat (length (sp_str a))) (Z.of_nat (length (sp_str b)))); simpl.
  - apply strncmp_eq; [done|lia].
  - split; [lia|]. intros E. rewrite E in *. lia.
Qed.

(** The strings of a pool, by index. *)
Record pool_is (pool : stringpool) (l : list (list Z)) : Prop := {
  pi_ok : os_ok (strs pool);
  pi_n : sp_n pool = Z.of_nat (length l);
  pi_nodup : NoDup l;
  pi_chars : Forall cstring l;
  pi_elems e : e ∈ os_elems (strs pool) <-> 0 <= sp_index e /\ l !! Z.to_nat (sp_index e) = Some (sp_str e)
}.

Lemma pool_new_is : pool_is stringpool_new [].
Proof.
  destruct os_empty_ok as [Hok E]. split; simpl; [done|done|constructor|constructor|].
  intros e. rewrite E. split; [by intros ?%not_elem_of_nil|by intros [_ ?]].
Qed.

(** The index of a string. *)
Fixpoint position (s : list Z) (l : list (list Z)) : option nat :=
  match l with
  | [] => None
  | x :: l => if decide (x = s) then Some O else S <$> position s l
  end.

Lemma position_Some s l i : NoDup l -> position s l = Some i <-> l !! i = Some s.
Proof.
  intros Hl. revert i. induction Hl as [|x l Hx Hl IH]; intros i; simpl; [by destruct i|].
  destruct (decide (x = s)) as [->|Hne].
  - split; [by intros [= <-]|]. destruct i as [|i]; [done|]. simpl. by intros ?%list_elem_of_lookup_2.
  - destruct i as [|i]; simpl.
    + split; [by destruct (position s l)|intros [= ?]; done].
    + rewrite <- IH. destruct (position s l) as [j|]; simpl; [|done]. split; congruence.
Qed.

Lemma position_None s l : position s l = None <-> s ∉ l.
Proof.
  induction l as [|x l IH]; simpl; [split; [by intros _ ?%not_elem_of_nil|done]|].
  rewrite not_elem_of_cons, <- IH. destruct (decide (x = s)) as [->|]; [split; [done|by intros []]|].
  destruct (position s l); simpl; split; [done|by intros []| |done]. intros _. by split; [congruence|].
Qed.
Lemma lookup_is pool l str : pool_is pool l -> cstring str ->
  stringpool_lookup pool str = (fun i => mk_entry str (Z.of_nat i)) <$> position str l.
Proof.
  intros [Hok Hn Hnd Hch Hel] Hs. unfold stringpool_lookup.
  pose proof (os_lookup_ok (mk_entry str 0) (strs pool) Hok) as Hl.
  destruct (os_lookup _ _) as [e|].
  - destruct Hl as [He E]. apply compare_eq in E; [|done]. simpl in E. apply Hel in He as [Hi He].
    rewrite <- E in He. apply position_Some in He; [|done]. rewrite He. simpl. rewrite Z2Nat.id by done.
    destruct e; simpl in *. by subst.
  - destruct (position str l) as [i|] eqn:Ei; [|done]. apply position_Some in Ei; [|done].
    exfalso. apply (Hl (mk_entry str (Z.of_nat i))); [|by apply compare_eq].
    apply Hel. simpl. rewrite Nat2Z.id. split; [lia|done].
Qed.

Lemma add_is pool l str : pool_is pool l -> cstring str -> str ∉ l ->
  exists pool', stringpool_add pool str = Some (mk_entry str (Z.of_nat (length l)), pool') /\ pool_is pool' (l ++ [str]).
Proof.
  intros [Hok Hn Hnd Hch Hel] Hs Hnew. unfold stringpool_add.
  destruct (os_insert_ok (mk_entry str (sp_n pool)) (strs pool) Hok) as (t & E & Ht & Hp).
  { intros y Hy Ec. apply compare_eq in Ec; [|done]. apply Hel in Hy as [_ Hy]. simpl in Ec. rewrite <- Ec in Hy.
    by apply Hnew, (list_elem_of_lookup_2 _ _ _ Hy). }
  rewrite E, Hn. cbn [mbind option_bind]. eexists. split; [done|]. split; cbn [strs sp_n].
  - done.
  - rewrite length_app; simpl; lia.
  - apply NoDup_app. split; [done|]. split; [|apply NoDup_singleton].
    intros x Hx ->%list_elem_of_singleton. done.
  - apply Forall_app; split; [done|by apply Forall_singleton].
  - intros e. rewrite Hp, elem_of_cons, Hel, Hn. split.
    + intros [->|[H1 H2]]; cbn [sp_index sp_str].
      * rewrite Nat2Z.id, lookup_app_r, Nat.sub_diag by lia. split; [lia|done].
      * split; [done|]. by apply lookup_app_l_Some.
    + intros [H1 [H2|[H2 H3]]%lookup_app_Some]; [by right|left].
      apply list_lookup_singleton_Some in H3 as [H3 ->]. destruct e as [s i]; simpl in *. f_equal. lia.
Qed.

(** The list after a string has been asked for. *)
Definition interned (l : list (list Z)) (str : list Z) : list (list Z) :=
  if decide (str ∈ l) then l else l ++ [str].

Lemma get_entry_is pool l str : pool_is pool l -> cstring str ->
  exists i pool', match stringpool_lookup pool str with
                  | Some e => Some (e, pool)
                  | None => stringpool_add pool str
                  end = Some (mk_entry str (Z.of_nat i), pool') /\
    pool_is pool' (interned l str) /\ interned l str !! i = Some str.
Proof.
  intros Hp Hs. rewrite (lookup_is pool l) by done. unfold interned.
  destruct (position str l) as [i|] eqn:Ei; simpl.
  - exists i, pool. apply position_Some in Ei; [|apply Hp]. rewrite decide_True by (by eapply list_elem_of_lookup_2). done.
  - apply position_None in Ei. rewrite decide_False by done.
    destruct (add_is pool l str) as (pool' & E & Hp'); [done..|]. exists (length l), pool'.
    split; [done|]. split; [done|]. by rewrite lookup_app_r, Nat.sub_diag by lia.
Qed.
Lemma entry_first {A} (f : stringpool_entry -> A) pool str :
  match stringpool_lookup pool str with
  | Some e => Some (f e, pool)
  | None => '(e, pool) ← stringpool_add pool str; Some (f e, pool)
  end =
  '(e, pool) ← match stringpool_lookup pool str with Some e => Some (e, pool) | None => stringpool_add pool str end;
  Some (f e, pool).
Proof. by destruct (stringpool_lookup pool str). Qed.

(** * The map is the history of its insertions *)

Fixpoint sm_insert_all (sm : stringmap) (l : list (list Z * list Z)) : option stringmap :=
  match l with
  | [] => Some sm
  | (k, v) :: l => sm ← sm_insert sm k v; sm_insert_all sm l
  end.

(** The values inserted for a key, oldest first. *)
Definition values_of (key : list Z) (l : list (list Z * list Z)) : list (list Z) :=
  snd <$> filter (fun kv => fst kv = key) l.

Record sm_is (sm : stringmap) (l : list (list Z * list Z)) (ks vs : list (list Z)) : Prop := {
  si_keys : pool_is (sm_keys sm) ks;
  si_values : pool_is (sm_values sm) vs;
  si_known k : k ∈ ks <-> k ∈ map fst l;
  si_entries : sm_entries sm = (fun k => values_of k l) <$> ks
}.

Lemma values_of_app key l k v :
  values_of key (l ++ [(k, v)]) = values_of key l ++ if decide (k = key) then [v] else [].
Proof.
  unfold values_of. rewrite filter_app, fmap_app. f_equal. rewrite filter_cons. simpl. by destruct (decide _).
Qed.

Lemma values_of_nil key l : key ∉ map fst l -> values_of key l = [].
Proof.
  intros H. unfold values_of. rewrite filter_none; [done|]. intros [k v] Hin <-.
  apply H. apply list_elem_of_fmap. by exists (k, v).
Qed.

Lemma sm_insert_is sm l ks vs k v : sm_is sm l ks vs -> cstring k -> cstring v ->
  exists sm', sm_insert sm k v = Some sm' /\ sm_is sm' (l ++ [(k, v)]) (interned ks k) (interned vs v).
Proof.
  intros [Hk Hv Hin He] Ck Cv. unfold sm_insert, stringpool_get_index, stringpool_get.
  destruct (get_entry_is _ _ k Hk Ck) as (i & keys & Ei & Hk' & Hki).
  destruct (get_entry_is _ _ v Hv Cv) as (j & vals & Ej & Hv' & _).
  rewrite !entry_first, Ei, Ej. cbn [mbind option_bind sp_str sp_index]. clear Ei Ej.
  assert (length (sm_entries sm) = length ks) as Hlen by (rewrite He; apply length_fmap).
  assert (forall k', k' ∈ interned ks k <-> k' ∈ map fst (l ++ [(k, v)])) as Hin'.
  { intros k'. rewrite map_app, elem_of_app, <- Hin. simpl. rewrite list_elem_of_singleton. unfold interned.
    destruct (decide (k ∈ ks)); [|by rewrite elem_of_app, list_elem_of_singleton].
    split; [by left|]. by intros [?| ->]. }
  unfold interned in *. destruct (decide (k ∈ ks)) as [Hold|Hnew].
  - pose proof (lookup_lt_Some _ _ _ Hki) as Hlt. rewrite (proj2 (Z.ltb_lt _ _)) by lia.
    rewrite Nat2Z.id, He, list_lookup_fmap, Hki. cbn [fmap option_fmap option_map mbind option_bind].
    eexists. split; [done|]. split; cbn [sm_keys sm_values sm_entries]; [done|done|done|].
    apply list_eq. intros n. rewrite list_lookup_fmap.
    destruct (decide (n = i)) as [->|Hne].
    + rewrite list_lookup_insert_eq by (by rewrite length_fmap). rewrite Hki. simpl.
      by rewrite values_of_app, decide_True.
    + rewrite list_lookup_insert_ne, list_lookup_fmap by done. destruct (ks !! n) as [k'|] eqn:En; [|done]. simpl.
      rewrite values_of_app, decide_False, app_nil_r; [done|]. intros <-. apply Hne.
      eapply NoDup_lookup; [apply Hk|done|done].
  - assert (i = length ks) as ->.
    { destruct (decide (i < length ks)%nat) as [H|H].
      - exfalso. apply Hnew. rewrite lookup_app_l in Hki by done. by eapply list_elem_of_lookup_2.
      - apply lookup_lt_Some in Hki. rewrite length_app in Hki. simpl in Hki. lia. }
    rewrite Hlen, Z.ltb_irrefl. eexists. split; [done|]. split; cbn [sm_keys sm_values sm_entries]; [done|done|done|].
    rewrite fmap_app. simpl. rewrite values_of_app, decide_True, values_of_nil by (done || by rewrite <- Hin).
    f_equal. rewrite He. apply list_fmap_ext. intros n k' Hn. rewrite values_of_app, decide_False, app_nil_r; [done|].
    intros <-. by apply Hnew, (list_elem_of_lookup_2 _ _ _ Hn).
Qed.

Lemma sm_insert_all_is l' : forall sm l ks vs, sm_is sm l ks vs -> Forall (fun kv => cstring (fst kv) /\ cstring (snd kv)) l' ->
  exists sm' ks' vs', sm_insert_all sm l' = Some sm' /\ sm_is sm' (l ++ l') ks' vs'.
Proof.
  induction l' as [|[k v] l' IH]; intros sm l ks vs Hsm Hl; [rewrite app_nil_r; by exists sm, ks, vs|].
  apply list.Forall_cons in Hl as [[Hk Hv] Hl]. destruct (sm_insert_is _ _ _ _ k v Hsm Hk Hv) as (sm1 & E & Hsm1).
  destruct (IH sm1 _ _ _ Hsm1 Hl) as (sm' & ks' & vs' & E' & Hsm'). exists sm', ks', vs'. simpl. rewrite E.
  rewrite <- app_assoc in Hsm'. done.
Qed.

Lemma sm_entry_is sm l ks vs key : sm_is sm l ks vs -> cstring key ->
  default [] (sm_entry (Some sm) key) = values_of key l.
Proof.
  intros [Hk Hv Hin He] Ck. unfold sm_entry, stringpool_search_index. cbn [mbind option_bind].
  rewrite (lookup_is _ _ _ Hk Ck). destruct (position key ks) as [i|] eqn:Ei; simpl.
  - apply position_Some in Ei; [|apply Hk]. pose proof (lookup_lt_Some _ _ _ Ei).
    rewrite He, length_fmap. rewrite (proj2 (Z.ltb_ge _ _)), (proj2 (Z.leb_gt _ _)) by lia. simpl.
    by rewrite Nat2Z.id, list_lookup_fmap, Ei.
  - apply position_None in Ei. symmetry. apply values_of_nil. by rewrite <- Hin.
Qed.

(** Insertions succeed whatever bytes the strings hold. *)
Record sm_wf (sm : stringmap) : Prop := {
  wf_keys : os_ok (strs (sm_keys sm));
  wf_values : os_ok (strs (sm_values sm));
  wf_n : sp_n (sm_keys sm) = Z.of_nat (length (sm_entries sm));
  wf_index e : e ∈ os_elems (strs (sm_keys sm)) -> 0 <= sp_index e < sp_n (sm_keys sm)
}.

Lemma sm_new_wf : sm_wf sm_new.
Proof.
  destruct os_empty_ok as [Hok E]. split; simpl; [done|done|done|]. intros e. rewrite E. by intros ?%not_elem_of_nil.
Qed.

Lemma get_entry_wf pool str : os_ok (strs pool) ->
  exists e pool', match stringpool_lookup pool str with Some e => Some (e, pool) | None => stringpool_add pool str end = Some (e, pool') /\
    os_ok (strs pool') /\
    ((e ∈ os_elems (strs pool) /\ pool' = pool) \/
     (sp_index e = sp_n pool /\ sp_n pool' = sp_n pool + 1 /\ os_elems (strs pool') ≡ₚ e :: os_elems (strs pool))).
Proof.
  intros Hok. unfold stringpool_lookup. pose proof (os_lookup_ok (mk_entry str 0) (strs pool) Hok) as Hl.
  destruct (os_lookup _ _) as [e|]; [exists e, pool; split; [done|]; split; [done|]; left; by destruct Hl|].
  unfold stringpool_add. destruct (os_insert_ok (mk_entry str (sp_n pool)) (strs pool) Hok) as (t & E & Ht & Hp).
  { intros y Hy Ec. by apply (Hl y Hy). }
  rewrite E. eexists _, _. split; [done|]. split; [done|]. by right.
Qed.

Lemma sm_insert_wf sm k v : sm_wf sm -> exists sm', sm_insert sm k v = Some sm' /\ sm_wf sm'.
Proof.
  intros [Hk Hv Hn Hi]. unfold sm_insert, stringpool_get_index, stringpool_get.
  destruct (get_entry_wf (sm_keys sm) k Hk) as (e & keys & Ei & Hk' & He).
  destruct (get_entry_wf (sm_values sm) v Hv) as (e' & vals & Ej & Hv' & _).
  rewrite !entry_first, Ei, Ej. cbn [mbind option_bind]. clear Ei Ej.
  destruct He as [[Hin ->]|(Hidx & Hn' & Hp)].
  - pose proof (Hi e Hin). rewrite (proj2 (Z.ltb_lt _ _)) by lia.
    destruct (lookup_lt_is_Some_2 (sm_entries sm) (Z.to_nat (sp_index e))) as [l El]; [lia|].
    rewrite El. cbn [mbind option_bind]. eexists. split; [done|].
    split; cbn [sm_keys sm_values sm_entries]; [done|done|by rewrite length_insert|done].
  - rewrite Hidx, Hn, Z.ltb_irrefl. eexists. split; [done|].
    split; cbn [sm_keys sm_values sm_entries]; [done|done|rewrite length_app; simpl; lia|].
    intros e0. rewrite Hp, elem_of_cons. intros [->|H%Hi]; lia.
Qed.

Lemma sm_insert_all_wf l : forall sm, sm_wf sm -> exists sm', sm_insert_all sm l = Some sm' /\ sm_wf sm'.
Proof.
  induction l as [|[k v] l IH]; intros sm Hsm; [by exists sm|]. simpl.
  destruct (sm_insert_wf sm k v Hsm) as (sm1 & -> & H1). cbn [mbind option_bind]. by apply IH.
Qed.

(** A map holds, for every key, the values inserted for it in the order they
    were inserted: insertions succeed, [sm_getlist] gives them all and [sm_get]
    the one at an index, or NULL. *)
Theorem stringmap_multimap l : Forall (fun kv => cstring (fst kv) /\ cstring (snd kv)) l ->
  exists sm, sm_insert_all sm_new l = Some sm /\ forall key, cstring key ->
    sm_getlist (Some sm) key = values_of key l /\
    forall index, sm_get (Some sm) key index = if index <? 0 then None else values_of key l !! Z.to_nat index.
Proof.
  intros Hl. destruct (sm_insert_all_is l sm_new [] [] []) as (sm & ks & vs & E & Hsm); [|done|].
  { split; [apply pool_new_is|apply pool_new_is|done|done]. }
  change ([] ++ l) with l in Hsm. exists sm. split; [done|]. intros key Ck. pose proof (sm_entry_is _ _ _ _ key Hsm Ck) as He.
  split; [done|]. intros index. unfold sm_get. rewrite <- He.
  destruct (sm_entry (Some sm) key) as [e|]; cbn [mbind option_bind default from_option]; [|by destruct (index <? 0), (Z.to_nat index)].
  destruct (Z.ltb_spec index 0); [done|]. simpl. destruct (Z.leb_spec (Z.of_nat (length e)) index); [|done].
  symmetry. apply lookup_ge_None_2. lia.
Qed.
End Stringmap.

(** * Witness: the map on the balanced tree *)

Lemma stringmap_multimap_witness : exists sm : stringmap (T := tree stringpool_entry),
  sm_insert_all sm_new [(bytes "a", bytes "1"); (bytes "b", bytes "2"); (bytes "a", bytes "3")] = Some sm /\
  sm_getlist (Some sm) (bytes "a") = [bytes "1"; bytes "3"] /\ sm_get (Some sm) (bytes "b") 0 = Some (bytes "2").
Proof.
  destruct (stringmap_multimap (T := tree stringpool_entry)
    [(bytes "a", bytes "1"); (bytes "b", bytes "2"); (bytes "a", bytes "3")]) as (sm & E & H).
  - vm_compute. repeat constructor.
  - exists sm. split; [exact E|]. split.
    + rewrite (proj1 (H (bytes "a") ltac:(vm_compute; repeat constructor))). reflexivity.
    + rewrite (proj2 (H (bytes "b") ltac:(vm_compute; repeat constructor))). reflexivity.
Defined.
