(* ===== verification/Acl.v ===== *)
(** Acl: the access control lists of the controller, src/core/lib/controller.c,
    and of the Go daemons, src/core/pkg/acl/acl.go and src/core/pkg/sapp/sapp.go.

    Both evaluate a list of rules below the configuration key "acl" on the
    method, the path and the peer of a request; the first rule that matches
    decides.  The peer is what the system calls and the TLS library say of the
    connection: the numeric address of getpeername and getnameinfo, and the
    subject and issuer common names of the peer certificate, empty when the
    certificate has none; they fit the buffers of 1024 bytes.  The controller
    judges the path as it was sent, a Go daemon after net/url has decoded it. *)
From stdpp Require Import prelude list numbers sorting.
From Stdlib Require Import ZArith Lia.
From S2P Require Import Prelude Bconf BconfReach.

Local Open Scope Z_scope.

(** * The controller's check *)

Record connection := mk_conn {
  cn_method : list Z;                        (* http_method_str(cr->hp.method) *)
  cn_addr : option (list Z);                 (* getnameinfo, None when it fails *)
  cn_cert : option (list Z * list Z)         (* subject and issuer of the certificate *)
}.

(** The parser has the method of the message it is at. *)
Definition with_method (method : list Z) (cr : connection) : connection := mk_conn method (cn_addr cr) (cn_cert cr).

Definition V4MAPPED : list Z := bytes "::ffff:".

Definition ctrl_get_peer (cr : connection) : option (list Z) :=
  hbuf ← cn_addr cr;
  Some (if bool_decide (take (length V4MAPPED) hbuf = V4MAPPED) then drop (length V4MAPPED) hbuf else hbuf).

Definition ctrl_get_peer_commonname (cr : connection) : option (list Z) := fst <$> cn_cert cr.
Definition ctrl_get_peer_issuer (cr : connection) : option (list Z) := snd <$> cn_cert cr.

(** An entry of the array [checks], with the buffer of the last [get]. *)
Record check := mk_check {
  ck_key : list Z;
  ck_get : connection -> option (list Z);
  ck_buf : list Z;
  ck_tried : bool
}.

Definition checks : list check :=
  [mk_check (bytes "remote_addr") ctrl_get_peer [] false;
   mk_check (bytes "cert.cn") ctrl_get_peer_commonname [] false;
   mk_check (bytes "issuer.cn") ctrl_get_peer_issuer [] false].

(** [strcmp(value, "*") == 0 || strcmp(value, x) == 0]. *)
Definition star_or (value x : list Z) : bool := bool_decide (value = star_key) || bool_decide (value = x).

(** The loop over the checks of one rule: whether it got to the end, and the
    array it leaves. *)
Fixpoint run_checks (cr : connection) (aclnode : bconf_node) (l : list check) : option (bool * list check) :=
  match l with
  | [] => Some (true, [])
  | curr :: rest =>
    value ← bconf_get_string (Some aclnode) (ck_key curr);
    match value with
    | None => '(r, rest) ← run_checks cr aclnode rest; Some (r, curr :: rest)
    | Some value =>
      let '(got, buf) :=
        if ck_tried curr then (true, ck_buf curr)
        else match ck_get curr cr with Some b => (true, b) | None => (false, ck_buf curr) end in
      let curr := mk_check (ck_key curr) (ck_get curr) buf true in
      if negb got then Some (false, curr :: rest)
      else if bool_decide (buf = []) then Some (false, curr :: rest)
      else if star_or value buf then '(r, rest) ← run_checks cr aclnode rest; Some (r, curr :: rest)
      else Some (false, curr :: rest)
    end
  end.

(** [url] is the path of the request.  [pathlen <= urllen] and the terminated
    [path] make strncmp the comparison of the first [pathlen] bytes. *)
Definition path_matches (path url : list Z) : bool :=
  bool_decide (path <> []) && (length path <=? length url)%nat &&
  bool_decide (take (length path) url = path) &&
  (bool_decide (list.last path = Some 47) || (length path =? length url)%nat).

Fixpoint acl_loop (cr : connection) (url : list Z) (l : list check) (acl : list bconf_node) : option bool :=
  match acl with
  | [] => Some false
  | aclnode :: acl =>
    method ← bconf_get_string (Some aclnode) (bytes "method");
    match method with
    | None => acl_loop cr url l acl
    | Some method =>
      if negb (star_or method (cn_method cr)) then acl_loop cr url l acl
      else
        path ← bconf_get_string (Some aclnode) (bytes "path");
        match path with
        | None => acl_loop cr url l acl
        | Some path =>
          if negb (path_matches path url) then acl_loop cr url l acl
          else
            '(ok, l) ← run_checks cr aclnode l;
            if negb ok then acl_loop cr url l acl
            else
              value ← bconf_get_string (Some aclnode) (bytes "action");
              match value with
              | None => acl_loop cr url l acl
              | Some value => Some (bool_decide (value = bytes "allow"))
              end
        end
    end
  end.

(** The additions of [get_default_acl], in order. *)
Definition default_rules : list (list Z * list Z) :=
  [(bytes "0.method", bytes "*"); (bytes "0.path", bytes "/");
   (bytes "0.remote_addr", bytes "::1"); (bytes "0.action", bytes "allow");
   (bytes "1.method", bytes "*"); (bytes "1.path", bytes "/");
   (bytes "1.remote_addr", bytes "127.0.0.1"); (bytes "1.action", bytes "allow");
   (bytes "2.method", bytes "*"); (bytes "2.path", bytes "/");
   (bytes "2.cert.cn", bytes "*"); (bytes "2.action", bytes "allow")].

Fixpoint add_all (root : option bconf_node) (l : list (list Z * list Z)) : option (option bconf_node) :=
  match l with
  | [] => Some root
  | (k, v) :: l => n ← bconf_add_data root k v; add_all (Some n) l
  end.

Definition get_default_acl : option (option bconf_node) := add_all None default_rules.

Definition check_acl (cr : connection) (url : list Z) (acl : option bconf_node) : option bool :=
  acl ← match acl with Some n => Some (Some n) | None => get_default_acl end;
  acl_loop cr url checks (match acl with Some n => n_subs n | None => [] end).

(** * The Go daemons' check *)

Record Access := mk_access {
  ac_Method : list Z;
  ac_Path : list Z;
  ac_RemoteAddr : option (list Z);
  ac_CommonName : option (list Z);
  ac_Issuer : option (list Z);
  ac_KeyId : option (list Z);
  ac_Action : list Z
}.

Definition InitDefault : list Access :=
  [mk_access (bytes "*") (bytes "/") (Some (bytes "::1")) None None None (bytes "allow");
   mk_access (bytes "*") (bytes "/") (Some (bytes "127.0.0.1")) None None None (bytes "allow");
   mk_access (bytes "*") (bytes "/") None (Some (bytes "*")) None None (bytes "allow")].

(** What the interface [aclValues] gives; [av_RemoteAddr] is [None] on an error. *)
Record aclValues := mk_values {
  av_Method : list Z;
  av_Path : list Z;
  av_RemoteAddr : option (list Z);
  av_CommonName : option (list Z);
  av_Issuer : option (list Z);
  av_KeyId : option (list Z)
}.

(** [f] is the comparison of the rule's value with the request's. *)
Definition opt_match (f : list Z -> list Z -> bool) (rule v : option (list Z)) : bool :=
  match rule with
  | None => true
  | Some r => match v with None => false | Some v => f r v end
  end.

Definition same (r v : list Z) : bool := bool_decide (r = v).

Definition ac_matches (ac : Access) (v : aclValues) : bool :=
  (bool_decide (ac_Method ac = star_key) || bool_decide (av_Method v = ac_Method ac)) &&
  bool_decide (take (length (ac_Path ac)) (av_Path v) = ac_Path ac) &&
  (bool_decide (list.last (ac_Path ac) = Some 47) || (length (av_Path v) =? length (ac_Path ac))%nat) &&
  opt_match same (ac_RemoteAddr ac) (av_RemoteAddr v) &&
  opt_match star_or (ac_CommonName ac) (av_CommonName v) &&
  opt_match star_or (ac_Issuer ac) (av_Issuer v) &&
  opt_match same (ac_KeyId ac) (av_KeyId v).

Fixpoint Acl_check (acl : list Access) (v : aclValues) : bool :=
  match acl with
  | [] => false
  | ac :: acl =>
    if ac_matches ac v then bool_decide (ac_Action ac = bytes "allow")
    else Acl_check acl v
  end.

(** [initAclFromBconf] on the C tree ([CBconf]): [Get] is [bconf_get], [Leaf] is
    that the node has a value, [Slice] its sub nodes.  An entry without a method
    or path is skipped, and [KeyId] is not set. *)
Fixpoint initAclFromBconf (subs : list bconf_node) : option (list Access) :=
  match subs with
  | [] => Some []
  | b :: subs =>
    rest ← initAclFromBconf subs;
    m ← bconf_get_string (Some b) (bytes "method");
    match m with
    | None => Some rest
    | Some m =>
      p ← bconf_get_string (Some b) (bytes "path");
      match p with
      | None => Some rest
      | Some p =>
        ra ← bconf_get_string (Some b) (bytes "remote_addr");
        cn ← bconf_get_string (Some b) (bytes "cert.cn");
        is_ ← bconf_get_string (Some b) (bytes "issuer.cn");
        action ← bconf_get_string_default (Some b) (bytes "action") (bytes "deny");
        Some (mk_access m p ra cn is_ None action :: rest)
      end
    end
  end.

(** [Init]: the default list when the configuration has no "acl". *)
Definition sapp_acl (acl : option bconf_node) : option (list Access) :=
  match acl with Some n => initAclFromBconf (n_subs n) | None => Some InitDefault end.

(** ** The request of a Go daemon *)

(** The value of a hexadecimal digit. *)
Definition unhex (c : Z) : option Z :=
  if (48 <=? c) && (c <=? 57) then Some (c - 48)
  else if (97 <=? c) && (c <=? 102) then Some (c - 97 + 10)
  else if (65 <=? c) && (c <=? 70) then Some (c - 65 + 10) else None.

(** The unescape of net/url for a path, which gives URL.Path; a request for which it fails
    is refused as malformed before any handler runs. *)
Fixpoint unescape_path (s : list Z) : option (list Z) :=
  match s with
  | [] => Some []
  | c :: s =>
    if c =? 37 then
      match s with
      | a :: b :: s => x ← unhex a; y ← unhex b; rest ← unescape_path s; Some (x * 16 + y :: rest)
      | _ => None
      end
    else rest ← unescape_path s; Some (c :: rest)
  end.

(** The values of a request, [path] being URL.Path; net.SplitHostPort has no mapped prefix. *)
Definition go_values (cr : connection) (path : list Z) (keyid : option (list Z)) : aclValues :=
  mk_values (cn_method cr) path (ctrl_get_peer cr) (ctrl_get_peer_commonname cr) (ctrl_get_peer_issuer cr) keyid.

(** [CheckRequest] for the path as it was sent. *)
Definition CheckRequest (acl : list Access) (cr : connection) (url : list Z) (keyid : option (list Z)) : option bool :=
  path ← unescape_path url; Some (Acl_check acl (go_values cr path keyid)).

(** * What a list means *)

(** The value of a rule's key. *)
Definition attr (n : bconf_node) (key : list Z) : option (list Z) :=
  find_star n (split_dots key) ≫= n_value.

(** A path ending in "/" covers the paths below it, any other only itself. *)
Definition covers (path url : list Z) : Prop :=
  path <> [] /\ (path = url \/ list.last path = Some 47 /\ path `prefix_of` url).

(** A condition on the peer: the rule's value is "*" or the peer's, which is known and not empty. *)
Definition peer_is (value x : option (list Z)) : Prop :=
  forall v, value = Some v -> exists y, x = Some y /\ y <> [] /\ (v = star_key \/ v = y).

Record rule_matches (cr : connection) (url : list Z) (n : bconf_node) : Prop := {
  rm_method : exists m, attr n (bytes "method") = Some m /\ (m = star_key \/ m = cn_method cr);
  rm_path : exists p, attr n (bytes "path") = Some p /\ covers p url;
  rm_addr : peer_is (attr n (bytes "remote_addr")) (ctrl_get_peer cr);
  rm_cn : peer_is (attr n (bytes "cert.cn")) (ctrl_get_peer_commonname cr);
  rm_issuer : peer_is (attr n (bytes "issuer.cn")) (ctrl_get_peer_issuer cr);
  rm_action : is_Some (attr n (bytes "action"))
}.

(** The first rule that matches allows the request. *)
Definition allowed (cr : connection) (url : list Z) (acl : list bconf_node) : Prop :=
  exists pre n post, acl = pre ++ n :: post /\ Forall (fun m => ~ rule_matches cr url m) pre /\
    rule_matches cr url n /\ attr n (bytes "action") = Some (bytes "allow").

Lemma allowed_skip cr url n acl : ~ rule_matches cr url n -> allowed cr url (n :: acl) <-> allowed cr url acl.
Proof.
  intros Hno. split.
  - intros ([|n' pre] & m & post & E & Hpre & Hm & Ha); simplify_eq/=; [done|].
    apply list.Forall_cons in Hpre as [_ Hpre]. by exists pre, m, post.
  - intros (pre & m & post & -> & Hpre & Hm). exists (n :: pre), m, post. split; [done|]. by split; [constructor|].
Qed.

Lemma allowed_hit cr url n acl : rule_matches cr url n ->
  allowed cr url (n :: acl) <-> attr n (bytes "action") = Some (bytes "allow").
Proof.
  intros Hyes. split; [|by exists [], n, acl].
  intros ([|n' pre] & m & post & E & Hpre & Hm & Ha); simplify_eq/=; [done|].
  by apply list.Forall_cons in Hpre as [? _].
Qed.

Lemma get_string_attr n key : node_ok n -> valid_key key -> bconf_get_string (Some n) key = Some (attr n key).
Proof. intros Hn Hk. unfold bconf_get_string, bconf_get, bconf_value. by rewrite get_loop_spec by auto using valid_split. Qed.

Ltac valid_lit := vm_compute; repeat constructor.

Lemma star_or_spec v x : star_or v x = true <-> v = star_key \/ v = x.
Proof. unfold star_or. by rewrite orb_true_iff, !bool_decide_eq_true. Qed.

Lemma take_prefix (p url : list Z) : take (length p) url = p <-> p `prefix_of` url.
Proof.
  split.
  - intros E. exists (drop (length p) url). by rewrite <- E at 1; rewrite take_drop.
  - intros [k ->]. by rewrite take_app_length.
Qed.

Lemma path_matches_spec path url : path_matches path url = true <-> covers path url.
Proof.
  unfold path_matches, covers. rewrite !andb_true_iff, orb_true_iff, !bool_decide_eq_true, take_prefix.
  rewrite Nat.leb_le, Nat.eqb_eq. split.
  - intros [[[Hne Hle] Hp] Hc]. split; [done|]. destruct Hc as [Hc|Hc]; [by right|left].
    by apply prefix_length_eq; [|lia].
  - intros [Hne [->|[Hl Hp]]]; [by repeat split; auto|].
    split; [|by left]. split; [|done]. split; [done|]. by apply prefix_length.
Qed.

(** The entry of [checks] after some rules: the buffer holds what [get] gave. *)
Definition memo (cr : connection) (c0 c : check) : Prop :=
  ck_key c = ck_key c0 /\ ck_get c = ck_get c0 /\
  ck_buf c = if ck_tried c then default [] (ck_get c0 cr) else [].

Lemma run_checks_spec cr n l0 l : node_ok n -> Forall (fun c => valid_key (ck_key c)) l0 -> Forall2 (memo cr) l0 l ->
  exists r l', run_checks cr n l = Some (r, l') /\ Forall2 (memo cr) l0 l' /\
    (r = true <-> Forall (fun c => peer_is (attr n (ck_key c)) (ck_get c cr)) l0).
Proof.
  intros Hn Hv Hl. induction Hl as [|c0 c l0 l (Hk & Hg & Hb) Hl IH]; [by exists true, []|].
  apply list.Forall_cons in Hv as [Hv0 Hv]. destruct (IH Hv) as (r & l' & E & Hl' & Hr). clear IH.
  simpl run_checks. rewrite Hk, get_string_attr by done. cbn [mbind option_bind].
  rewrite Hg. setoid_rewrite list.Forall_cons.
  destruct (attr n (ck_key c0)) as [v|] eqn:Ev.
  2:{ rewrite E. exists r, (c :: l'). cbn [mbind option_bind]. split; [done|]. split; [by constructor|].
      rewrite Hr. split; [|by intros []]. by split. }
  assert (exists got buf, (if ck_tried c then (true, ck_buf c) else
      match ck_get c0 cr with Some b => (true, b) | None => (false, ck_buf c) end) = (got, buf) /\
      buf = default [] (ck_get c0 cr) /\ (got = false -> buf = [])) as (got & buf & -> & Hbuf & Hgot).
  { rewrite Hb. destruct (ck_tried c), (ck_get c0 cr); simpl; (do 2 eexists; split; [reflexivity|]; by split). }
  set (c' := mk_check _ _ buf true).
  assert (memo cr c0 c') as Hc' by (split; [done|]; split; [done|]; exact Hbuf).
  assert (forall l'', Forall2 (memo cr) l0 l'' -> Forall2 (memo cr) (c0 :: l0) (c' :: l'')) as Hcons
    by (intros; by constructor).
  destruct (decide (buf = [])) as [Eb|Eb].
  { exists false, (c' :: l). rewrite (bool_decide_true _ Eb). split; [by destruct got|]. split; [auto|].
    split; [done|]. intros [Hp _]. destruct (Hp v eq_refl) as (y & Ey & Hy & _). rewrite Ey in Hbuf. by simplify_eq/=. }
  destruct got; [|by destruct Eb; auto]. simpl negb. cbv iota. rewrite (bool_decide_false _ Eb).
  destruct (ck_get c0 cr) as [y|] eqn:Eg; simpl in Hbuf; subst buf; [|done].
  destruct (star_or v y) eqn:Es.
  - rewrite E. exists r, (c' :: l'). cbn [mbind option_bind]. split; [done|]. split; [auto|].
    rewrite Hr. split; [|by intros []]. intros Hf. split; [|done]. intros ? [= <-].
    exists y. by rewrite <- star_or_spec.
  - exists false, (c' :: l). split; [done|]. split; [auto|]. split; [done|]. intros [Hp _].
    destruct (Hp v eq_refl) as (y' & [= <-] & _ & Hs%star_or_spec). congruence.
Qed.

Lemma checks_valid : Forall (fun c => valid_key (ck_key c)) checks.
Proof. repeat (constructor; [valid_lit|]). constructor. Qed.

Lemma checks_fresh cr : Forall2 (memo cr) checks checks.
Proof. repeat constructor. Qed.

Lemma acl_loop_step cr url n l acl : node_ok n -> Forall2 (memo cr) checks l -> exists l', Forall2 (memo cr) checks l' /\
  ((~ rule_matches cr url n /\ acl_loop cr url l (n :: acl) = acl_loop cr url l' acl) \/
   (rule_matches cr url n /\ exists v, attr n (bytes "action") = Some v /\
    acl_loop cr url l (n :: acl) = Some (bool_decide (v = bytes "allow")))).
Proof.
  intros Hn Hl. cbn [acl_loop]. rewrite (get_string_attr n (bytes "method")) by (done || valid_lit). cbn [mbind option_bind].
  destruct (attr n (bytes "method")) as [m|] eqn:Em.
  2:{ exists l. split; [done|]. left. split; [|done]. intros [(m & Hm & _)]. congruence. }
  destruct (star_or m (cn_method cr)) eqn:Es; simpl negb; cbv iota.
  2:{ exists l. split; [done|]. left. split; [|done]. intros [(m' & Hm & Hs%star_or_spec)]. congruence. }
  rewrite (get_string_attr n (bytes "path")) by (done || valid_lit). cbn [mbind option_bind].
  destruct (attr n (bytes "path")) as [p|] eqn:Ep.
  2:{ exists l. split; [done|]. left. split; [|done]. intros [_ (p & Hp & _)]. congruence. }
  destruct (path_matches p url) eqn:Epm; simpl negb; cbv iota.
  2:{ exists l. split; [done|]. left. split; [|done]. intros [_ (p' & Hp & Hs%path_matches_spec)]. congruence. }
  destruct (run_checks_spec cr n checks l Hn checks_valid Hl) as (r & l' & -> & Hl' & Hr). cbn [mbind option_bind].
  unfold checks in Hr. rewrite !list.Forall_cons in Hr. cbn [ck_key ck_get] in Hr.
  exists l'. split; [done|]. destruct r; simpl negb; cbv iota.
  2:{ left. split; [|done]. intros [_ _ ? ? ? _]. enough (false = true) by done. apply Hr. auto. }
  destruct (proj1 Hr eq_refl) as (Ha & Hc & Hi & _).
  rewrite (get_string_attr n (bytes "action")) by (done || valid_lit). cbn [mbind option_bind].
  destruct (attr n (bytes "action")) as [v|] eqn:Ev.
  - right. split; [|by exists v]. split; try done.
    + exists m. by rewrite <- star_or_spec.
    + exists p. by rewrite <- path_matches_spec.
  - left. split; [|done]. intros [_ _ _ _ _ [v Hv]]. congruence.
Qed.

Lemma acl_loop_spec cr url acl : Forall node_ok acl -> forall l, Forall2 (memo cr) checks l ->
  exists b, acl_loop cr url l acl = Some b /\ (b = true <-> allowed cr url acl).
Proof.
  induction 1 as [|n acl Hn Hacl IH]; intros l Hl.
  { exists false. split; [done|]. split; [done|]. intros (pre & n & post & E & _). by destruct pre. }
  destruct (acl_loop_step cr url n l acl Hn Hl) as (l' & Hl' & [[Hno ->]|(Hyes & v & Hv & ->)]).
  - destruct (IH l' Hl') as (b & -> & Hb). exists b. split; [done|]. by rewrite allowed_skip.
  - eexists. split; [done|]. rewrite bool_decide_eq_true, allowed_hit, Hv by done. split; [by intros ->|by intros [= ->]].
Qed.

(** * The theorems *)

(** The default list, evaluated. *)
Definition default_tree : bconf_node :=
  Eval vm_compute in match get_default_acl with Some (Some n) => n | _ => new_node [] end.

Lemma get_default_acl_tree : get_default_acl = Some (Some default_tree).
Proof. vm_compute. reflexivity. Qed.

Definition acl_tree (acl : option bconf_node) : bconf_node := default default_tree acl.

Lemma acl_tree_ok acl : (forall n, acl = Some n -> node_ok n) -> node_ok (acl_tree acl).
Proof. destruct acl as [n|]; simpl; [auto|]. intros _. by apply node_okb_ok. Qed.

Lemma check_acl_tree cr url acl : check_acl cr url acl = acl_loop cr url checks (n_subs (acl_tree acl)).
Proof. unfold check_acl. destruct acl as [n|]; [done|]. by rewrite get_default_acl_tree. Qed.

Lemma check_acl_spec cr url acl : (forall n, acl = Some n -> node_ok n) ->
  exists b, check_acl cr url acl = Some b /\ (b = true <-> allowed cr url (n_subs (acl_tree acl))).
Proof.
  intros Hok. rewrite check_acl_tree. apply acl_loop_spec; [|apply checks_fresh].
  by apply ok_subs, acl_tree_ok.
Qed.


(** What the two dialects treat differently: an address "*" and a rule without
    an action, and an empty path or name of the peer. *)
Definition plain (n : bconf_node) : Prop :=
  attr n (bytes "remote_addr") <> Some star_key /\ is_Some (attr n (bytes "action")).

Definition plainb (n : bconf_node) : bool :=
  bool_decide (attr n (bytes "remote_addr") <> Some star_key) && bool_decide (is_Some (attr n (bytes "action"))).

Lemma plainb_ok l : forallb plainb l = true -> Forall plain l.
Proof.
  intros H. apply list.Forall_forall. intros n Hn. rewrite forallb_forall in H.
  apply list_elem_of_In, H, andb_prop in Hn as [H1%bool_decide_eq_true H2%bool_decide_eq_true]. by split.
Qed.

Definition named_peer (cr : connection) : Prop :=
  ctrl_get_peer cr <> Some [] /\ ctrl_get_peer_commonname cr <> Some [] /\ ctrl_get_peer_issuer cr <> Some [].

Lemma opt_match_star r x : x <> Some [] -> opt_match star_or r x = true <-> peer_is r x.
Proof.
  intros Hx. unfold opt_match, peer_is. destruct r as [r|]; [|by split].
  destruct x as [x|]; [rewrite star_or_spec|]; split.
  - intros H ? [= <-]. exists x. repeat split; [congruence|done].
  - intros H. destruct (H r eq_refl) as (y & [= <-] & _ & Hy). done.
  - done.
  - intros H. by destruct (H r eq_refl) as (y & ? & _).
Qed.

Lemma opt_match_same r x : x <> Some [] -> r <> Some star_key -> opt_match same r x = true <-> peer_is r x.
Proof.
  intros Hx Hr. rewrite <- opt_match_star by done. unfold opt_match, same.
  destruct r as [r|], x as [x|]; try done. rewrite star_or_spec, bool_decide_eq_true. split; [auto|].
  intros [->|]; done.
Qed.

(** The access entry of a rule. *)
Definition access_of (n : bconf_node) (m p : list Z) : Access :=
  mk_access m p (attr n (bytes "remote_addr")) (attr n (bytes "cert.cn")) (attr n (bytes "issuer.cn"))
    None (default (bytes "deny") (attr n (bytes "action"))).

Lemma ac_matches_rule cr url k n m p : named_peer cr -> url <> [] -> plain n ->
  attr n (bytes "method") = Some m -> attr n (bytes "path") = Some p ->
  ac_matches (access_of n m p) (go_values cr url k) = true <-> rule_matches cr url n.
Proof.
  intros (Ha & Hc & Hi) Hu [Hstar Hact] Em Ep. unfold ac_matches, access_of, go_values; simpl.
  rewrite !andb_true_iff, !orb_true_iff, !bool_decide_eq_true, opt_match_same, !opt_match_star by done.
  rewrite take_prefix, Nat.eqb_eq. split.
  - intros ((((((Hm & Hp) & Hl) & Ra) & Cn) & Is_) & _). split; try done.
    + exists m. split; [done|]. by destruct Hm; [left|right].
    + exists p. split; [done|]. destruct Hl as [Hl|Hl].
      * split; [by intros ->|by right].
      * assert (p = url) as -> by (apply prefix_length_eq; [done|lia]). by split; [|left].
  - intros [(m' & Em' & Hm) (p' & Ep' & Hp & Hc') Ra Cn Is_ _]. simplify_eq.
    repeat match goal with |- _ /\ _ => split end; try done; [by destruct Hm; [left|right]|..].
    + by destruct Hc' as [->|[_ ?]].
    + by destruct Hc' as [->|[? _]]; [right|left].
Qed.

Lemma acl_agree cr url k acl : named_peer cr -> url <> [] -> Forall node_ok acl -> Forall plain acl ->
  exists l, initAclFromBconf acl = Some l /\ (Acl_check l (go_values cr url k) = true <-> allowed cr url acl).
Proof.
  intros Hp Hu. induction acl as [|n acl IH]; intros Hok Hpl.
  { exists []. split; [done|]. split; [done|]. by intros ([] & ? & ? & ? & _). }
  apply list.Forall_cons in Hok as [Hn Hok], Hpl as [Hpn Hpl].
  destruct (IH Hok Hpl) as (l & E & Hl). clear IH. cbn [initAclFromBconf]. rewrite E. cbn [mbind option_bind].
  rewrite (get_string_attr n (bytes "method")) by (done || valid_lit). cbn [mbind option_bind].
  destruct (attr n (bytes "method")) as [m|] eqn:Em.
  2:{ exists l. split; [done|]. rewrite Hl, allowed_skip; [done|]. intros [(m & Hm & _)]. congruence. }
  rewrite (get_string_attr n (bytes "path")) by (done || valid_lit). cbn [mbind option_bind].
  destruct (attr n (bytes "path")) as [p|] eqn:Ep.
  2:{ exists l. split; [done|]. rewrite Hl, allowed_skip; [done|]. intros [_ (p & Hp' & _)]. congruence. }
  unfold bconf_get_string_default.
  rewrite !(get_string_attr n) by (done || valid_lit). cbn [mbind option_bind].
  eexists. split; [done|]. fold (access_of n m p). cbn [Acl_check].
  pose proof (ac_matches_rule cr url k n m p Hp Hu Hpn Em Ep) as Hm.
  destruct (ac_matches _ _).
  - rewrite bool_decide_eq_true. pose proof (proj1 Hm eq_refl) as Hyes. destruct Hpn as [_ [v Hv]].
    rewrite allowed_hit, Hv by done. unfold access_of; simpl. rewrite Hv; simpl. split; [by intros ->|by intros [= ->]].
  - rewrite Hl, allowed_skip; [done|]. intros H%Hm. done.
Qed.

(** Whom the default list lets in. *)
Definition local_or_certified (cr : connection) : Prop :=
  ctrl_get_peer cr = Some (bytes "::1") \/ ctrl_get_peer cr = Some (bytes "127.0.0.1") \/
  exists cn, ctrl_get_peer_commonname cr = Some cn /\ cn <> [].

Lemma peer_is_eq v x : v <> star_key -> v <> [] -> peer_is (Some v) x <-> x = Some v.
Proof.
  intros Hs Hn. split.
  - intros H. destruct (H v eq_refl) as (y & -> & _ & [?| ->]); done.
  - intros -> ? [= <-]. exists v. auto.
Qed.

Lemma peer_is_star x : peer_is (Some star_key) x <-> exists y, x = Some y /\ y <> [].
Proof.
  split.
  - intros H. destruct (H _ eq_refl) as (y & -> & Hy & _). by exists y.
  - intros (y & -> & Hy) ? [= <-]. exists y. auto.
Qed.

Lemma peer_is_none x : peer_is None x.
Proof. done. Qed.

Lemma default_rule_matches cr url n : n ∈ n_subs default_tree ->
  rule_matches cr url n <-> (exists u, url = 47 :: u) /\ peer_is (attr n (bytes "remote_addr")) (ctrl_get_peer cr) /\
    peer_is (attr n (bytes "cert.cn")) (ctrl_get_peer_commonname cr).
Proof.
  intros Hn. assert (attr n (bytes "method") = Some star_key /\ attr n (bytes "path") = Some [47] /\
    attr n (bytes "issuer.cn") = None /\ attr n (bytes "action") = Some (bytes "allow")) as (Em & Ep & Ei & Ea).
  { unfold default_tree in Hn; cbn [n_subs] in Hn.
    repeat (apply elem_of_cons in Hn as [->|Hn]; [by vm_compute|]). by apply not_elem_of_nil in Hn. }
  split.
  - intros [_ (p & E & _ & Hp) ? ? _ _]. rewrite Ep in E. injection E as <-. split; [|done].
    destruct Hp as [<-|[_ [k ->] ] ]; [by exists []|by exists k].
  - intros ((u & ->) & ? & ?). split; try done.
    + exists star_key. auto.
    + exists [47]. split; [done|]. split; [done|]. right. split; [done|]. by exists u.
    + by rewrite Ei.
Qed.

Lemma rule_matches_dec cr url n : node_ok n -> rule_matches cr url n \/ ~ rule_matches cr url n.
Proof.
  intros Hn. destruct (acl_loop_step cr url n checks [] Hn (checks_fresh cr)) as (_ & _ & [[? _]|[? _]]); auto.
Qed.

(** When every rule allows, the order does not matter. *)
Lemma allowed_any cr url acl : Forall node_ok acl ->
  Forall (fun n => attr n (bytes "action") = Some (bytes "allow")) acl ->
  allowed cr url acl <-> exists n, n ∈ acl /\ rule_matches cr url n.
Proof.
  induction 1 as [|n acl Hn Hok IH]; intros Ha.
  { split; [by intros ([] & ? & ? & ? & _)|]. by intros (? & ?%not_elem_of_nil & _). }
  apply list.Forall_cons in Ha as [Han Ha]. destruct (rule_matches_dec cr url n Hn) as [Hm|Hm].
  - rewrite allowed_hit by done. split; [|done]. intros _. exists n. by split; [left|].
  - rewrite allowed_skip, IH by done. split.
    + intros (m & Hin & ?). exists m. by split; [right|].
    + intros (m & [->|Hin]%elem_of_cons & ?); [done|]. by exists m.
Qed.

Lemma default_allowed cr u : allowed cr (47 :: u) (n_subs default_tree) <-> local_or_certified cr.
Proof.
  rewrite allowed_any; [|apply ok_subs; by apply node_okb_ok|by repeat (constructor; [by vm_compute|]); constructor].
  transitivity (exists n, n ∈ n_subs default_tree /\ peer_is (attr n (bytes "remote_addr")) (ctrl_get_peer cr) /\
    peer_is (attr n (bytes "cert.cn")) (ctrl_get_peer_commonname cr)).
  { split; intros (n & Hn & H); exists n; (split; [done|]).
    - exact (proj2 (proj1 (default_rule_matches cr _ n Hn) H)).
    - apply default_rule_matches; eauto. }
  unfold default_tree; cbn [n_subs]. unfold local_or_certified.
  rewrite <- !(peer_is_eq _ (ctrl_get_peer cr)), <- peer_is_star by done. split.
  - intros (n & Hn & Ha & Hc).
    apply elem_of_cons in Hn as [->|Hn]; [by left|]. apply elem_of_cons in Hn as [->|Hn]; [by right; left|].
    apply elem_of_cons in Hn as [->|Hn]; [by right; right|]. by apply not_elem_of_nil in Hn.
  - intros [H|[H|H]]; eexists.
    + split; [left|]. by split; [exact H|vm_compute].
    + split; [right; left|]. by split; [exact H|vm_compute].
    + split; [right; right; left|]. by split; [vm_compute|exact H].
Qed.

(** C24: The controller's check returns an answer for every well formed list, and
    it is yes exactly when the first rule that matches the method, the path and the peer has
    the action "allow".  A rule's value for the address or a name of the certificate matches
    a peer of which the controller knows it and finds it not empty, so "*" does not match a
    valid certificate that has no common name.  Without a configured list, those who are let
    in are the local peers and the peers with a certificate that has a common name. *)
Theorem check_acl_first_match cr url acl : (forall n, acl = Some n -> node_ok n) ->
  exists b, check_acl cr url acl = Some b /\
    (b = true <-> allowed cr url (n_subs (acl_tree acl))) /\
    (acl = None -> (exists u, url = 47 :: u) -> b = true <-> local_or_certified cr).
Proof.
  intros Hok. destruct (check_acl_spec cr url acl Hok) as (b & E & Hb).
  exists b. split; [done|]. split; [done|]. intros -> (u & ->). by rewrite Hb, default_allowed.
Qed.

(** A path is decoded to nothing only if it is nothing, and to itself without a '%'. *)
Lemma unescape_nonempty url path : unescape_path url = Some path -> url <> [] -> path <> [].
Proof.
  destruct url as [|c s]; [done|]. simpl. destruct (c =? 37).
  - destruct s as [|a [|b s]]; try done. destruct (unhex a), (unhex b); simpl; try done. destruct (unescape_path s); simpl; by intros [= <-].
  - destruct (unescape_path s); simpl; by intros [= <-].
Qed.

Lemma unescape_plain url : (37 ∉ url) -> unescape_path url = Some url.
Proof.
  induction url as [|c url IH]; [done|]. intros [Hc Hu]%not_elem_of_cons. simpl. rewrite (proj2 (Z.eqb_neq c 37)), IH by (done || lia). done.
Qed.

(** C25: The Go daemons read the same list from a configuration in the C tree (CBconf), and
    their answer for a request is the controller's for the same peer and the path that
    net/url has decoded; so it is the controller's answer to the request if its path has no
    '%'.  The rules have an action and no address "*", and the address and the certificate's
    names of the peer, if known, are not empty: there the two differ.  Neither looks at a
    rule's keyid. *)
Theorem acl_go_agrees cr url keyid acl :
  (forall n, acl = Some n -> node_ok n /\ Forall plain (n_subs n)) -> named_peer cr -> url <> [] ->
  exists l, sapp_acl acl = Some l /\
    (forall path, unescape_path url = Some path -> CheckRequest l cr url keyid = check_acl cr path acl) /\
    ((37 ∉ url) -> CheckRequest l cr url keyid = check_acl cr url acl).
Proof.
  intros Hok Hp Hu.
  assert (exists l, sapp_acl acl = Some l /\ forall path, path <> [] ->
    (Acl_check l (go_values cr path keyid) = true <-> allowed cr path (n_subs (acl_tree acl)))) as (l & El & Hl).
  { assert (exists n, Forall node_ok (n_subs n) /\ Forall plain (n_subs n) /\ n = acl_tree acl /\ sapp_acl acl = initAclFromBconf (n_subs n))
      as (n & Hn & Hpl & En & Ei).
    { destruct acl as [n|]; [exists n; destruct (Hok n eq_refl); split; [by apply ok_subs|done]|]. exists default_tree.
      split; [by apply ok_subs, node_okb_ok|]. split; [by apply plainb_ok|]. split; [done|]. by vm_compute. }
    rewrite Ei, <- En. destruct (acl_agree cr [47] keyid (n_subs n)) as (l & E & _); [done..|]. exists l. split; [done|].
    intros path Hpath. destruct (acl_agree cr path keyid (n_subs n)) as (l' & E' & Hl'); [done..|]. congruence. }
  assert (forall path, unescape_path url = Some path -> CheckRequest l cr url keyid = check_acl cr path acl) as Hpath.
  { intros path Ep. unfold CheckRequest. rewrite Ep. cbn [mbind option_bind].
    destruct (check_acl_spec cr path acl) as (b & E & Hb); [by intros n [? _]%Hok|]. rewrite E. f_equal. apply eq_true_iff_eq.
    rewrite Hb. apply Hl. by eapply unescape_nonempty. }
  exists l. split; [done|]. split; [done|]. intros Hpc. by apply Hpath, unescape_plain.
Qed.

(** * Where the dialects and the documentation differ *)

Definition acl_of (l : list (list Z * list Z)) : option bconf_node := default None (add_all None l).

Definition stranger : connection := mk_conn (bytes "GET") (Some (bytes "192.0.2.1")) None.

(** The list that auth(7) gives as the default one. *)
Definition documented_rules : list (list Z * list Z) :=
  [(bytes "1.method", bytes "*"); (bytes "1.path", bytes "/");
   (bytes "1.remote_addr", bytes "::1"); (bytes "1.action", bytes "allow");
   (bytes "2.method", bytes "*"); (bytes "2.path", bytes "/");
   (bytes "2.remote_addr", bytes "127.0.0.1"); (bytes "2.action", bytes "allow");
   (bytes "3.method", bytes "*"); (bytes "3.path", bytes "/");
   (bytes "3.common_name", bytes "*"); (bytes "3.action", bytes "allow")].

(** The documented default list lets in a peer without a certificate, which the
    built in one does not: no key is named common_name. *)
Theorem documented_default_open :
  check_acl stranger (bytes "/x") None = Some false /\
  check_acl stranger (bytes "/x") (acl_of documented_rules) = Some true.
Proof. by vm_compute. Qed.

Definition keyid_rules : list (list Z * list Z) :=
  [(bytes "1.method", bytes "GET"); (bytes "1.path", bytes "/"); (bytes "1.keyid", bytes "00"); (bytes "1.action", bytes "allow")].

(** A rule pinned to a key in the configuration of a Go daemon matches every
    client: [initAclFromBconf] does not read keyid. *)
Theorem bconf_keyid_ignored keyid : exists l, sapp_acl (acl_of keyid_rules) = Some l /\
  CheckRequest l stranger (bytes "/x") keyid = Some true.
Proof. by eexists; vm_compute. Qed.

Definition star_rules : list (list Z * list Z) :=
  [(bytes "1.method", bytes "*"); (bytes "1.path", bytes "/"); (bytes "1.remote_addr", bytes "*"); (bytes "1.action", bytes "allow")].

Definition silent_rules : list (list Z * list Z) :=
  [(bytes "1.method", bytes "*"); (bytes "1.path", bytes "/");
   (bytes "2.method", bytes "*"); (bytes "2.path", bytes "/"); (bytes "2.action", bytes "allow")].

(** An address "*" is a wildcard only in C, and a rule without an action denies
    only in Go. *)
Theorem acl_dialects_differ : Forall (fun rules => exists l, sapp_acl (acl_of rules) = Some l /\
  check_acl stranger (bytes "/x") (acl_of rules) = Some true /\
  CheckRequest l stranger (bytes "/x") None = Some false) [star_rules; silent_rules].
Proof. repeat constructor; by eexists; vm_compute. Qed.

(** A peer with a valid certificate that has no common name. *)
Definition nameless : connection := mk_conn (bytes "GET") (Some (bytes "192.0.2.1")) (Some ([], bytes "ca")).

(** The default list, which has "*" for the common name, refuses that peer in the
    controller and lets it in in a Go daemon. *)
Theorem nameless_certificate_refused : exists l, sapp_acl None = Some l /\
  check_acl nameless (bytes "/x") None = Some false /\ CheckRequest l nameless (bytes "/x") None = Some true.
Proof. by eexists; vm_compute. Qed.

Definition one_path : list (list Z * list Z) := [(bytes "1.method", bytes "*"); (bytes "1.path", bytes "/x"); (bytes "1.action", bytes "allow")].

(** A path with an escape is another one for a Go daemon. *)
Theorem escaped_path_differs : exists l, sapp_acl (acl_of one_path) = Some l /\
  check_acl stranger (bytes "/%78") (acl_of one_path) = Some false /\
  CheckRequest l stranger (bytes "/%78") None = Some true.
Proof. by eexists; vm_compute. Qed.

(** * Witnesses *)

Definition sample_rules : list (list Z * list Z) :=
  [(bytes "1.method", bytes "GET"); (bytes "1.path", bytes "/a/"); (bytes "1.remote_addr", bytes "192.0.2.1");
   (bytes "1.action", bytes "deny");
   (bytes "2.method", bytes "*"); (bytes "2.path", bytes "/a/b"); (bytes "2.action", bytes "allow")].

Definition sample_acl : option bconf_node := Eval vm_compute in acl_of sample_rules.

Lemma sample_acl_ok n : sample_acl = Some n -> node_ok n /\ Forall plain (n_subs n).
Proof.
  intros [= <-]. split; [by apply node_okb_ok|by apply plainb_ok].
Qed.

Definition visitor : connection := mk_conn (bytes "POST") (Some (bytes "::ffff:192.0.2.1")) None.

Lemma check_acl_first_match_witness : exists b, check_acl visitor (bytes "/a/b") sample_acl = Some b /\
  (b = true <-> allowed visitor (bytes "/a/b") (n_subs (acl_tree sample_acl))).
Proof.
  destruct (check_acl_first_match visitor (bytes "/a/b") sample_acl) as (b & E & Hb & _).
  - intros n Hn. exact (proj1 (sample_acl_ok n Hn)).
  - exists b. split; [exact E|exact Hb].
Defined.

Lemma acl_go_agrees_witness : exists l, sapp_acl sample_acl = Some l /\
  CheckRequest l visitor (bytes "/a%2fb") None = check_acl visitor (bytes "/a/b") sample_acl /\
  CheckRequest l visitor (bytes "/a/b") None = check_acl visitor (bytes "/a/b") sample_acl.
Proof.
  destruct (acl_go_agrees visitor (bytes "/a%2fb") None sample_acl) as (l & El & H1 & _); [exact sample_acl_ok|by vm_compute|discriminate|].
  destruct (acl_go_agrees visitor (bytes "/a/b") None sample_acl) as (l' & El' & _ & H2); [exact sample_acl_ok|by vm_compute|discriminate|].
  rewrite El in El'. injection El' as <-. exists l. split; [exact El|]. split.
  - apply H1. by vm_compute.
  - apply H2. apply (bool_decide_unpack _). vm_compute. exact I.
Defined.
