(* ===== verification/Controller.v ===== *)
(** Controller: the requests of the HTTP controller, src/core/lib/controller.c.

    A request is the record [ctrl_req], driven by the callbacks of the HTTP
    parser: an event of [hp_event] for each callback, in whatever order the
    parser calls them.  A registered handler is code of the daemon; it is the
    list of the controller's own functions ([action]) that its callbacks call,
    which may depend on the request.  [world] adds the trace of the callbacks
    made, the results of the write system calls to come and the bytes written.
    [None] is the end of the process or undefined behaviour.  Statistics and log
    messages are left out. *)
From stdpp Require Import prelude list numbers.
From Stdlib Require Import ZArith Lia.
From S2P Require Import Prelude BufString Strings Bconf BconfPrint Vtree CachedRegex QueryString Avl Stringmap Acl.

Local Open Scope Z_scope.

(** * Requests *)

Inductive hstate := HS_NONE | HS_VALUE | HS_FIELD.

(** An element of [ctrl->handlers], or [error_handler]. *)
Inductive handler_ref := Registered (i : nat) | ErrorHandler.

#[export] Instance handler_ref_eq_dec : EqDecision handler_ref.
Proof. solve_decision. Defined.

Definition qs_map : Type := stringmap (T := tree stringpool_entry).

Record ctrl_req := mk_cr {
  cr_header_state : hstate;
  cr_header_name : list Z;
  cr_header_value : list Z;
  cr_upgrade : list Z;
  cr_handler : option handler_ref;
  cr_handler_data : option Z;
  cr_qs : option qs_map;
  cr_bconf : option bconf_node;
  cr_custom_headers : option bconf_node;
  cr_content_length : Z;
  cr_text : list Z;
  cr_message_completed : bool;
  cr_keepalive : bool;
  cr_close_conn : bool;
  cr_status : Z;
  cr_in_handler : Z;
  cr_content_type : option (list Z);
  cr_raw_response : option (list Z)
}.
Definition set_header_state (v : hstate) (r : ctrl_req) : ctrl_req :=
    mk_cr v (cr_header_name r) (cr_header_value r) (cr_upgrade r) (cr_handler r) (cr_handler_data r) (cr_qs
    r) (cr_bconf r) (cr_custom_headers r) (cr_content_length r) (cr_text r) (cr_message_completed r)
    (cr_keepalive r) (cr_close_conn r) (cr_status r) (cr_in_handler r) (cr_content_type r) (cr_raw_response
    r).
Definition set_header_name (v : list Z) (r : ctrl_req) : ctrl_req :=
    mk_cr (cr_header_state r) v (cr_header_value r) (cr_upgrade r) (cr_handler r) (cr_handler_data r) (cr_qs
    r) (cr_bconf r) (cr_custom_headers r) (cr_content_length r) (cr_text r) (cr_message_completed r)
    (cr_keepalive r) (cr_close_conn r) (cr_status r) (cr_in_handler r) (cr_content_type r) (cr_raw_response
    r).
Definition set_header_value (v : list Z) (r : ctrl_req) : ctrl_req :=
    mk_cr (cr_header_state r) (cr_header_name r) v (cr_upgrade r) (cr_handler r) (cr_handler_data r) (cr_qs
    r) (cr_bconf r) (cr_custom_headers r) (cr_content_length r) (cr_text r) (cr_message_completed r)
    (cr_keepalive r) (cr_close_conn r) (cr_status r) (cr_in_handler r) (cr_content_type r) (cr_raw_response
    r).
Definition set_upgrade (v : list Z) (r : ctrl_req) : ctrl_req :=
    mk_cr (cr_header_state r) (cr_header_name r) (cr_header_value r) v (cr_handler r) (cr_handler_data r)
    (cr_qs r) (cr_bconf r) (cr_custom_headers r) (cr_content_length r) (cr_text r) (cr_message_completed r)
    (cr_keepalive r) (cr_close_conn r) (cr_status r) (cr_in_handler r) (cr_content_type r) (cr_raw_response
    r).
Definition set_handler (v : option handler_ref) (r : ctrl_req) : ctrl_req :=
    mk_cr (cr_header_state r) (cr_header_name r) (cr_header_value r) (cr_upgrade r) v (cr_handler_data r)
    (cr_qs r) (cr_bconf r) (cr_custom_headers r) (cr_content_length r) (cr_text r) (cr_message_completed r)
    (cr_keepalive r) (cr_close_conn r) (cr_status r) (cr_in_handler r) (cr_content_type r) (cr_raw_response
    r).
Definition set_handler_data (v : option Z) (r : ctrl_req) : ctrl_req :=
    mk_cr (cr_header_state r) (cr_header_name r) (cr_header_value r) (cr_upgrade r) (cr_handler r) v (cr_qs
    r) (cr_bconf r) (cr_custom_headers r) (cr_content_length r) (cr_text r) (cr_message_completed r)
    (cr_keepalive r) (cr_close_conn r) (cr_status r) (cr_in_handler r) (cr_content_type r) (cr_raw_response
    r).
Definition set_qs (v : option qs_map) (r : ctrl_req) : ctrl_req :=
    mk_cr (cr_header_state r) (cr_header_name r) (cr_header_value r) (cr_upgrade r) (cr_handler r)
    (cr_handler_data r) v (cr_bconf r) (cr_custom_headers r) (cr_content_length r) (cr_text r)
    (cr_message_completed r) (cr_keepalive r) (cr_close_conn r) (cr_status r) (cr_in_handler r)
    (cr_content_type r) (cr_raw_response r).
Definition set_bconf (v : option bconf_node) (r : ctrl_req) : ctrl_req :=
    mk_cr (cr_header_state r) (cr_header_name r) (cr_header_value r) (cr_upgrade r) (cr_handler r)
    (cr_handler_data r) (cr_qs r) v (cr_custom_headers r) (cr_content_length r) (cr_text r)
    (cr_message_completed r) (cr_keepalive r) (cr_close_conn r) (cr_status r) (cr_in_handler r)
    (cr_content_type r) (cr_raw_response r).
Definition set_custom_headers (v : option bconf_node) (r : ctrl_req) : ctrl_req :=
    mk_cr (cr_header_state r) (cr_header_name r) (cr_header_value r) (cr_upgrade r) (cr_handler r)
    (cr_handler_data r) (cr_qs r) (cr_bconf r) v (cr_content_length r) (cr_text r) (cr_message_completed r)
    (cr_keepalive r) (cr_close_conn r) (cr_status r) (cr_in_handler r) (cr_content_type r) (cr_raw_response
    r).
Definition set_content_length (v : Z) (r : ctrl_req) : ctrl_req :=
    mk_cr (cr_header_state r) (cr_header_name r) (cr_header_value r) (cr_upgrade r) (cr_handler r)
    (cr_handler_data r) (cr_qs r) (cr_bconf r) (cr_custom_headers r) v (cr_text r) (cr_message_completed r)
    (cr_keepalive r) (cr_close_conn r) (cr_status r) (cr_in_handler r) (cr_content_type r) (cr_raw_response
    r).
Definition set_text (v : list Z) (r : ctrl_req) : ctrl_req :=
    mk_cr (cr_header_state r) (cr_header_name r) (cr_header_value r) (cr_upgrade r) (cr_handler r)
    (cr_handler_data r) (cr_qs r) (cr_bconf r) (cr_custom_headers r) (cr_content_length r) v
    (cr_message_completed r) (cr_keepalive r) (cr_close_conn r) (cr_status r) (cr_in_handler r)
    (cr_content_type r) (cr_raw_response r).
Definition set_message_completed (v : bool) (r : ctrl_req) : ctrl_req :=
    mk_cr (cr_header_state r) (cr_header_name r) (cr_header_value r) (cr_upgrade r) (cr_handler r)
    (cr_handler_data r) (cr_qs r) (cr_bconf r) (cr_custom_headers r) (cr_content_length r) (cr_text r) v
    (cr_keepalive r) (cr_close_conn r) (cr_status r) (cr_in_handler r) (cr_content_type r) (cr_raw_response
    r).
Definition set_keepalive (v : bool) (r : ctrl_req) : ctrl_req :=
    mk_cr (cr_header_state r) (cr_header_name r) (cr_header_value r) (cr_upgrade r) (cr_handler r)
    (cr_handler_data r) (cr_qs r) (cr_bconf r) (cr_custom_headers r) (cr_content_length r) (cr_text r)
    (cr_message_completed r) v (cr_close_conn r) (cr_status r) (cr_in_handler r) (cr_content_type r)
    (cr_raw_response r).
Definition set_close_conn (v : bool) (r : ctrl_req) : ctrl_req :=
    mk_cr (cr_header_state r) (cr_header_name r) (cr_header_value r) (cr_upgrade r) (cr_handler r)
    (cr_handler_data r) (cr_qs r) (cr_bconf r) (cr_custom_headers r) (cr_content_length r) (cr_text r)
    (cr_message_completed r) (cr_keepalive r) v (cr_status r) (cr_in_handler r) (cr_content_type r)
    (cr_raw_response r).
Definition set_status (v : Z) (r : ctrl_req) : ctrl_req :=
    mk_cr (cr_header_state r) (cr_header_name r) (cr_header_value r) (cr_upgrade r) (cr_handler r)
    (cr_handler_data r) (cr_qs r) (cr_bconf r) (cr_custom_headers r) (cr_content_length r) (cr_text r)
    (cr_message_completed r) (cr_keepalive r) (cr_close_conn r) v (cr_in_handler r) (cr_content_type r)
    (cr_raw_response r).
Definition set_in_handler (v : Z) (r : ctrl_req) : ctrl_req :=
    mk_cr (cr_header_state r) (cr_header_name r) (cr_header_value r) (cr_upgrade r) (cr_handler r)
    (cr_handler_data r) (cr_qs r) (cr_bconf r) (cr_custom_headers r) (cr_content_length r) (cr_text r)
    (cr_message_completed r) (cr_keepalive r) (cr_close_conn r) (cr_status r) v (cr_content_type r)
    (cr_raw_response r).
Definition set_content_type (v : option (list Z)) (r : ctrl_req) : ctrl_req :=
    mk_cr (cr_header_state r) (cr_header_name r) (cr_header_value r) (cr_upgrade r) (cr_handler r)
    (cr_handler_data r) (cr_qs r) (cr_bconf r) (cr_custom_headers r) (cr_content_length r) (cr_text r)
    (cr_message_completed r) (cr_keepalive r) (cr_close_conn r) (cr_status r) (cr_in_handler r) v
    (cr_raw_response r).
Definition set_raw_response (v : option (list Z)) (r : ctrl_req) : ctrl_req :=
    mk_cr (cr_header_state r) (cr_header_name r) (cr_header_value r) (cr_upgrade r) (cr_handler r)
    (cr_handler_data r) (cr_qs r) (cr_bconf r) (cr_custom_headers r) (cr_content_length r) (cr_text r)
    (cr_message_completed r) (cr_keepalive r) (cr_close_conn r) (cr_status r) (cr_in_handler r)
    (cr_content_type r) v.

(** [struct ctrl_req cr = { ... }] in [worker_thread]. *)
Definition cr_init : ctrl_req :=
  mk_cr HS_NONE [] [] [] None None None None None 0 [] false false false 0 0 None None.

(** * Handlers *)

(** The controller's functions that a callback can call. *)
Inductive action :=
  | ActError (error : Z) (msg : list Z)          (* ctrl_error, the formatted message *)
  | ActStatus (status : Z)                       (* ctrl_status *)
  | ActClose                                     (* ctrl_close *)
  | ActText (s : list Z)                         (* ctrl_output_text *)
  | ActJson (root : list Z)                      (* ctrl_output_json *)
  | ActContentType (ct : list Z)                 (* ctrl_set_content_type *)
  | ActRaw (d : list Z)                          (* ctrl_set_raw_response_data *)
  | ActHeader (key value : list Z)               (* ctrl_set_custom_headers *)
  | ActHandlerData (d : Z)                       (* ctrl_set_handler_data *)
  | ActBconf (key value : list Z).               (* bconf_add_data on ctrl_get_bconfp *)

Record ctrl_handler := mk_handler {
  h_url : list Z;
  h_start : option (ctrl_req -> list action);
  h_consume_post : option (ctrl_req -> list Z -> list action * Z);
  h_finish : ctrl_req -> list action;
  h_cleanup : option (ctrl_req -> list action);
  h_upgrade : option (ctrl_req -> list action)
}.

Inductive callback := Start | Consume (data : list Z) | Finish | Cleanup | Upgraded.

(** What is observed of a call: the callbacks of handlers and the urls that the parser
    reports, with the method of their message. *)
Inductive observed := Called (h : handler_ref) (k : callback) | Url (method at_ : list Z).

Record world := mk_world {
  w_cr : ctrl_req;
  w_trace : list observed;                       (* newest first *)
  w_io : list Z;                                 (* what the next calls of write return *)
  w_sent : list Z
}.

Definition upd (f : ctrl_req -> ctrl_req) (w : world) : world := mk_world (f (w_cr w)) (w_trace w) (w_io w) (w_sent w).

Definition note (h : handler_ref) (c : callback) (w : world) : world :=
  mk_world (w_cr w) (Called h c :: w_trace w) (w_io w) (w_sent w).

Definition saw (method at_ : list Z) (w : world) : world :=
  mk_world (w_cr w) (Url method at_ :: w_trace w) (w_io w) (w_sent w).

(** * Answering *)

Definition render_json_cb (root : list Z) (r : ctrl_req) : option ctrl_req :=
  n ← bconf_get (cr_bconf r) root;
  Some (set_text (cr_text r ++ bconf_json n 0 ++ [10]) r).

Definition ctrl_output_json (root : list Z) (r : ctrl_req) : option ctrl_req :=
  render_json_cb root (set_content_type (Some (bytes "application/json")) r).

Definition ctrl_output_text (s : list Z) (r : ctrl_req) : ctrl_req :=
  let r := set_content_type (Some (bytes "text/plain")) r in set_text (cr_text r ++ s) r.

Definition ctrl_set_custom_headers (key value : list Z) (r : ctrl_req) : option ctrl_req :=
  if negb (bool_decide (take 2 key = bytes "X-")) then None
  else
    n ← bconf_get (cr_custom_headers r) key;
    match n with
    | Some _ => None
    | None => h ← bconf_add_data (cr_custom_headers r) key value; Some (set_custom_headers (Some h) r)
    end.

Definition ctrl_close (r : ctrl_req) : ctrl_req := set_close_conn true r.
Definition ctrl_status (status : Z) (r : ctrl_req) : ctrl_req := set_status status r.

(** The finish callback of [error_handler]. *)
Definition error_finish (w : world) : option world :=
  r ← render_json_cb (bytes "error") (w_cr w);
  Some (note ErrorHandler Finish (upd (fun _ => r) w)).

Definition ctrl_error (error : Z) (msg : list Z) (w : world) : option world :=
  b ← bconf_add_data (cr_bconf (w_cr w)) (bytes "error.status") (print_dec error);
  b ← bconf_add_data (Some b) (bytes "error.message") msg;
  let w := upd (fun r => ctrl_close (set_status error (set_handler (Some ErrorHandler) (set_bconf (Some b) r)))) w in
  if cr_in_handler (w_cr w) =? 1 then error_finish (upd (set_in_handler 2) w) else Some w.

Definition run_action (a : action) (w : world) : option world :=
  match a with
  | ActError error msg => ctrl_error error msg w
  | ActStatus status => Some (upd (ctrl_status status) w)
  | ActClose => Some (upd ctrl_close w)
  | ActText s => Some (upd (ctrl_output_text s) w)
  | ActJson root => r ← ctrl_output_json root (w_cr w); Some (upd (fun _ => r) w)
  | ActContentType ct => Some (upd (set_content_type (Some ct)) w)
  | ActRaw d => Some (upd (set_raw_response (Some d)) w)
  | ActHeader key value => r ← ctrl_set_custom_headers key value (w_cr w); Some (upd (fun _ => r) w)
  | ActHandlerData d => Some (upd (set_handler_data (Some d)) w)
  | ActBconf key value => b ← bconf_add_data (cr_bconf (w_cr w)) key value; Some (upd (set_bconf (Some b)) w)
  end.

Fixpoint run_actions (l : list action) (w : world) : option world :=
  match l with
  | [] => Some w
  | a :: l => w ← run_action a w; run_actions l w
  end.

(** * Matching a handler *)

(** The check of the angle brackets: the number of parameters, or [None] for a
    malformed url. *)
Fixpoint count_vars (hp : list Z) (vars ends : Z) : option Z :=
  match hp with
  | [] => Some vars
  | c :: hp =>
    let vars := if c =? 60 then vars + 1 else vars in
    let ends := if c =? 62 then ends + 1 else ends in
    let diff := vars - ends in
    if negb (diff =? 0) && negb (diff =? 1) then None else count_vars hp vars ends
  end.

(** The key up to the closing bracket and what is after it; [None] runs off the
    end of the url. *)
Fixpoint span_key_end (hup : list Z) : option (list Z * list Z) :=
  match hup with
  | [] => None
  | c :: hup => if c =? 62 then Some ([], hup) else '(key, rest) ← span_key_end hup; Some (c :: key, rest)
  end.

Fixpoint span_value (rup : list Z) : list Z * list Z :=
  match rup with
  | [] => ([], [])
  | c :: rest => if c =? 47 then ([], rup) else let '(v, rest) := span_value rest in (c :: v, rest)
  end.

(** [struct path_param]: the key and the value. *)
Abbreviation path_param := (list Z * list Z)%type.

(** What is left of both urls, and the parameters.  Every turn takes at least
    one character of [hup]. *)
Fixpoint match_url_loop (fuel : nat) (hup rup : list Z) (params : list path_param) (paramidx : nat) :
    option (list Z * list Z * list path_param) :=
  match fuel with
  | O => None
  | S fuel =>
    match hup, rup with
    | h :: hup', r :: rup' =>
      if h =? r then match_url_loop fuel hup' rup' params paramidx
      else if h =? 60 then
        '(key, hup) ← span_key_end hup';
        let '(value, rup) := span_value rup in
        let params := <[paramidx := (key, value)]> params in
        match hup, rup with
        | _ :: hup', _ :: rup' => match_url_loop fuel hup' rup' params (S paramidx)
        | _, _ => Some (hup, rup, params)
        end
      else Some (hup, rup, params)
    | _, _ => Some (hup, rup, params)
    end
  end.

Definition match_handler (handler_url request_url : list Z) : option (option (list path_param)) :=
  match count_vars handler_url 0 0 with
  | None => Some None
  | Some num_vars =>
    '(hup, rup, params) ← match_url_loop (S (length handler_url)) handler_url request_url
                            (replicate (Z.to_nat num_vars) ([], [])) 0;
    Some (if bool_decide (hup = []) && bool_decide (rup = []) then Some params else None)
  end.

(** * The callbacks of the parser *)

(** What the build generates from the header names in [finalize_header]. *)
Inductive ctrl_header := Content_Length | Connection | Upgrade | GPERF_CASE_NONE.

Definition tolower (c : Z) : Z := if (65 <=? c) && (c <=? 90) then c + 32 else c.

(** http_parser_parse_url: an error, which is not zero, or the path and the query if
    there are any; and the generated lookup of a header name, which ignores case. *)
Class HttpParser := {
  http_parser_parse_url : list Z -> Z + (option (list Z) * option (list Z));
  parse_url_error at_ : http_parser_parse_url at_ <> inl 0;
  lookup_ctrl_header : list Z -> ctrl_header;
  lookup_content_length name :
    lookup_ctrl_header name = Content_Length <-> map tolower name = bytes "content-length"
}.

(** The configuration of the controller and the connection of the request, whose method
    each message sets. *)
Record ctrl := mk_ctrl {
  c_handlers : list ctrl_handler;
  c_conf : option bconf_node;
  c_acl_disabled : bool;
  c_conn : connection;
  c_date : list Z                                (* date_format_rfc1123 of the current time *)
}.

Section Controller.
Context `{!HttpParser} `{Pcre} {X : Type} `{!VtreeBackend X} (match_options : bool -> Z).
Context (c : ctrl).

Definition handler_of (h : handler_ref) : option ctrl_handler :=
  match h with Registered i => c_handlers c !! i | ErrorHandler => None end.

Definition on_message_begin (w : world) : option (Z * world) := Some (0, upd (set_status 200) w).

(** The loop over the handlers: the first that matches, and its parameters. *)
Fixpoint find_handler (l : list ctrl_handler) (i : nat) (path : list Z) : option (option (nat * list path_param)) :=
  match l with
  | [] => Some None
  | hi :: l =>
    m ← match_handler (h_url hi) path;
    match m with
    | Some params => Some (Some (i, params))
    | None => find_handler l (S i) path
    end
  end.

(** The calls of [parse_qs_cb]. *)
Definition sm_calls (sm : qs_map) (l : list call) : option qs_map :=
  sm_insert_all sm (map (fun k => (cb_key k, cb_value k)) l).

(** The start callback, if the handler has one. *)
Definition call_start (h : handler_ref) (w : world) : option world :=
  match handler_of h with
  | Some hand =>
    match h_start hand with
    | Some start => run_actions (start (w_cr w)) (note h Start w)
    | None => Some w
    end
  | None => Some w
  end.

Definition use_handler (found : option (nat * list path_param)) (w : world) : world :=
  match found with Some (i, _) => upd (set_handler (Some (Registered i))) w | None => w end.

(** The path parameters become a new map. *)
Definition use_params (found : option (nat * list path_param)) (w : world) : option world :=
  match found with
  | None | Some (_, []) => Some w
  | Some (_, params) => qs ← sm_insert_all (sm_new : qs_map) params; Some (upd (set_qs (Some qs)) w)
  end.

Definition use_query (query : option (list Z)) (w : world) : option world :=
  match query with
  | None => Some w
  | Some q =>
    '(calls, _) ← parse_query_string match_options (cstr q) (None : option (vtree_chain X)) false RUTF8_REQUIRE None;
    qs ← sm_calls (default (sm_new : qs_map) (cr_qs (w_cr w))) calls;
    Some (upd (set_qs (Some qs)) w)
  end.

Definition on_url (method at_ : list Z) (w : world) : option (Z * world) :=
  let w := saw method at_ w in
  match http_parser_parse_url at_ with
  | inl res => Some (res, w)
  | inr (None, _) => w ← ctrl_error 400 (bytes "on_url: no path") w; Some (0, w)
  | inr (Some path, query) =>
    found ← find_handler (c_handlers c) 0 path;
    let w := use_handler found w in
    acl ← bconf_get (c_conf c) (bytes "acl");
    ok ← check_acl (with_method method (c_conn c)) path acl;
    if negb ok && negb (c_acl_disabled c) then
      w ← ctrl_error 403 (bytes "Forbidden (" ++ path ++ bytes ")") w; Some (0, w)
    else
      match cr_handler (w_cr w) with
      | None => w ← ctrl_error 404 (bytes "unknown url (" ++ path ++ bytes ")") w; Some (0, w)
      | Some h =>
        w ← use_params found (upd (set_custom_headers None) w);
        w ← call_start h w;
        w ← use_query query w;
        Some (0, w)
      end
  end.

Definition MAX_BODY_SIZE : Z := 100 * 1024 * 1024 * 1024.

(** [strncmp(valueb, "close", valuep) == 0]. *)
Definition is_close (value : list Z) : bool := bool_decide (value = take (length value) (bytes "close")).

Definition reset_header (w : world) : world := upd (fun r => set_header_value [] (set_header_name [] r)) w.

Definition finalize_header (w : world) : option world :=
  let r := w_cr w in
  if negb (bool_decide (cr_header_name r = [])) then
    let value := cr_header_value r in
    if bool_decide (value = []) then w ← ctrl_error 400 (bytes "bad header value") w; Some (reset_header w)
    else
      match lookup_ctrl_header (cr_header_name r) with
      | Content_Length =>
        let '(v, endptr, erange) := strtol value in
        if erange || (v <? 0) || (MAX_BODY_SIZE <? v) || negb (bool_decide (endptr = [])) then
          w ← ctrl_error 400 (bytes "bad content-length") w; Some (reset_header w)
        else Some (reset_header (upd (set_content_length v) w))
      | Connection => Some (reset_header (if is_close value then upd ctrl_close w else w))
      | Upgrade => Some (reset_header (upd (set_upgrade (take 31 (cstr value))) w))
      | GPERF_CASE_NONE => Some (reset_header w)
      end
  else Some (reset_header w).

Definition on_header_field (at_ : list Z) (w : world) : option (Z * world) :=
  w ← (match cr_header_state (w_cr w) with
       | HS_VALUE => finalize_header w
       | HS_NONE | HS_FIELD => Some w
       end);
  Some (0, upd (fun r => set_header_name (cr_header_name r ++ at_) (set_header_state HS_FIELD r)) w).

Definition on_header_value (at_ : list Z) (w : world) : option (Z * world) :=
  match cr_header_state (w_cr w) with
  | HS_NONE => Some (1, w)
  | HS_VALUE | HS_FIELD =>
    Some (0, upd (fun r => set_header_value (cr_header_value r ++ at_) (set_header_state HS_VALUE r)) w)
  end.

Definition on_headers_complete (w : world) : option (Z * world) := w ← finalize_header w; Some (0, w).

Definition on_body (at_ : list Z) (w : world) : option (Z * world) :=
  match cr_handler (w_cr w) with
  | None => w ← ctrl_error 400 (bytes "POST data with no data handler.") w; Some (0, w)
  | Some ErrorHandler => Some (0, note ErrorHandler (Consume at_) w)     (* error_consume_post *)
  | Some (Registered i) =>
    match c_handlers c !! i ≫= h_consume_post with
    | None => w ← ctrl_error 400 (bytes "POST data with no data handler.") w; Some (0, w)
    | Some consume =>
      let '(acts, ret) := consume (w_cr w) at_ in
      w ← run_actions acts (note (Registered i) (Consume at_) w);
      Some (ret, w)
    end
  end.

(** ** The response *)

Definition crlf : list Z := [13; 10].

Definition statusmsg (status : Z) : list Z :=
  if (100 <=? status) && (status <? 300) then (if status <? 200 then bytes "Continue" else bytes "Success")
  else bytes "Error".

(** The custom headers; a node that has no value prints as (null). *)
Definition custom_headers (n : option bconf_node) : list Z :=
  concat (map (fun m => n_key m ++ bytes ": " ++ default (bytes "(null)") (n_value m) ++ crlf)
              (match n with Some n => n_subs n | None => [] end)).

Definition response_headers (r : ctrl_req) (data_sz : Z) : list Z :=
  bytes "HTTP/1.1 " ++ print_dec (cr_status r) ++ [32] ++ statusmsg (cr_status r) ++ crlf ++
  bytes "Date: " ++ c_date c ++ crlf ++
  (if cr_close_conn r then bytes "Connection: close" ++ crlf else []) ++
  bytes "Content-Length: " ++ print_dec data_sz ++ crlf ++
  match cr_content_type r with Some ct => bytes "Content-Type: " ++ ct ++ crlf | None => [] end ++
  (if cr_status r =? 101 then bytes "Upgrade: " ++ cr_upgrade r ++ crlf ++ bytes "Connection: Upgrade" ++ crlf else []) ++
  custom_headers (cr_custom_headers r) ++ crlf.

(** The loop of writes: what is left of the data.  [write] returns at most the
    size it was given; without a result left it fails. *)
Fixpoint send_loop (fuel : nat) (data : list Z) (w : world) : list Z * world :=
  match fuel with
  | O => (data, w)
  | S fuel =>
    match w_io w with
    | [] => (data, w)
    | r :: io =>
      if r <? 1 then (data, mk_world (w_cr w) (w_trace w) io (w_sent w))
      else
        let n := Z.to_nat r in
        let w := mk_world (w_cr w) (w_trace w) io (w_sent w ++ take n data) in
        match drop n data with
        | [] => ([], w)
        | data => send_loop fuel data w
        end
    end
  end.

Definition send_all (data : list Z) (w : world) : list Z * world := send_loop (length data) data w.

Definition send_response (w : world) : world :=
  let r := w_cr w in
  let data := match cr_raw_response r with Some d => d | None => cr_text r end in
  let '(hdr_left, w) := send_all (response_headers r (BufString.size data)) w in
  match hdr_left, data with
  | [], _ :: _ => snd (send_all data w)
  | _, _ => w
  end.

(** The finish callback.  [error_handler] takes [handler_data] as the name of the
    tree to print: if the request has some, it is not a string. *)
Definition call_finish (h : handler_ref) (w : world) : option world :=
  match h with
  | ErrorHandler => match cr_handler_data (w_cr w) with Some _ => None | None => error_finish w end
  | Registered i => hand ← c_handlers c !! i; run_actions (h_finish hand (w_cr w)) (note h Finish w)
  end.

Definition call_cleanup (w : world) : option world :=
  match cr_handler (w_cr w) with
  | Some h =>
    match handler_of h ≫= h_cleanup with
    | Some cleanup => run_actions (cleanup (w_cr w)) (note h Cleanup w)
    | None => Some w
    end
  | None => Some w
  end.

Definition on_message_complete (w : world) : option (Z * world) :=
  w ← (match cr_handler (w_cr w) with
       | None => Some w
       | Some h =>
         w ← call_finish h (upd (set_in_handler 1) w);
         call_cleanup (upd (set_text []) (send_response w))
       end);
  Some (0, upd (set_message_completed true) w).

Inductive hp_event :=
  | OnMessageBegin
  | OnUrl (method at_ : list Z)                  (* hp.method is set by then *)
  | OnHeaderField (at_ : list Z)
  | OnHeaderValue (at_ : list Z)
  | OnHeadersComplete
  | OnBody (at_ : list Z)
  | OnMessageComplete.

(** [hp_settings]. *)
Definition hp_callback (e : hp_event) (w : world) : option (Z * world) :=
  match e with
  | OnMessageBegin => on_message_begin w
  | OnUrl method at_ => on_url method at_ w
  | OnHeaderField at_ => on_header_field at_ w
  | OnHeaderValue at_ => on_header_value at_ w
  | OnHeadersComplete => on_headers_complete w
  | OnBody at_ => on_body at_ w
  | OnMessageComplete => on_message_complete w
  end.

(** http_parser_execute makes the callbacks in turn and stops when one does not
    return zero: whether it got to the end. *)
Fixpoint execute (evs : list hp_event) (w : world) : option (bool * world) :=
  match evs with
  | [] => Some (true, w)
  | e :: evs => '(ret, w) ← hp_callback e w; if ret =? 0 then execute evs w else Some (false, w)
  end.

(** ** A request *)

(** A turn of the loop of [handle_request]: the read fails, is empty, or gives
    bytes that the parser turns into events, all of them or up to an error. *)
Inductive read_result := ReadFailed | ReadEnd | ReadEvents (evs : list hp_event) (parsed : bool).

(** Whether the message completed. *)
Fixpoint read_loop (reads : list read_result) (w : world) : option (bool * world) :=
  match reads with
  | [] | ReadFailed :: _ | ReadEnd :: _ => Some (false, w)
  | ReadEvents evs parsed :: reads =>
    '(ok, w) ← execute evs w;
    if negb (ok && parsed) then Some (false, w)
    else if cr_message_completed (w_cr w) then Some (true, w) else read_loop reads w
  end.

(** What happens to the connection: the handler's upgrade callback takes it, it
    is closed, or it waits for the next request. *)
Inductive fate := FateUpgraded | FateClosed | FateKeepalive.

(** [hp_upgrade] and [should_keep_alive] are what the parser says at the end. *)
Definition handle_request (init : option (list hp_event)) (reads : list read_result) (hp_upgrade should_keep_alive : bool)
    (w : world) : option (fate * world) :=
  '(ok, w) ← (match init with Some evs => execute evs w | None => Some (true, w) end);
  if negb ok then Some (FateClosed, w)
  else
    '(completed, w) ← read_loop reads w;
    if negb completed then Some (FateClosed, w)
    else
      '(f, w) ←
        (if hp_upgrade then
           h ← cr_handler (w_cr w);
           match handler_of h ≫= h_upgrade with
           | Some up =>
             if cr_status (w_cr w) =? 101 then
               let w := upd (set_keepalive false) w in
               w ← run_actions (up (w_cr w)) (note h Upgraded w);
               Some (FateUpgraded, w)
             else if cr_close_conn (w_cr w) || negb should_keep_alive then Some (FateClosed, w)
             else Some (FateKeepalive, upd (set_keepalive true) w)
           | None =>
             if cr_close_conn (w_cr w) || negb should_keep_alive then Some (FateClosed, w)
             else Some (FateKeepalive, upd (set_keepalive true) w)
           end
         else if cr_close_conn (w_cr w) || negb should_keep_alive then Some (FateClosed, w)
         else Some (FateKeepalive, upd (set_keepalive true) w));
      Some (f, upd (fun r => set_content_type None (set_in_handler 0 (set_status 0 (set_content_length 0
                 (set_handler_data None (set_handler None (set_bconf None (set_custom_headers None (set_qs None r))))))))) w).
End Controller.

(** * No handler without access *)

(** Unfold the binds of a computation that returned. *)
Ltac step_in H :=
  repeat match type of H with
  | (_ ← ?e; _) = Some _ => let E := fresh "E" in destruct e eqn:E; cbn [mbind option_bind] in H; [|discriminate H]
  end.

Section Access.
Context `{!HttpParser} `{Pcre} {X : Type} `{!VtreeBackend X} (match_options : bool -> Z).
Context (c : ctrl).

Abbreviation callback_of := (hp_callback (X := X) match_options c).
Abbreviation exec := (execute (X := X) match_options c).

(** The urls that were reported, the last one first. *)
Definition urls (tr : list observed) : list (list Z * list Z) :=
  omap (fun o => match o with Url m at_ => Some (m, at_) | Called _ _ => None end) tr.

(** The access list allows the url for the method of its message, or is disabled. *)
Definition url_allowed (m at_ : list Z) : Prop :=
  exists path query acl, http_parser_parse_url at_ = inr (Some path, query) /\ bconf_get (c_conf c) (bytes "acl") = Some acl /\
    (c_acl_disabled c = true \/ check_acl (with_method m (c_conn c)) path acl = Some true).

(** The handler of a url: the first that matches. *)
Definition url_matches (at_ : list Z) (r : option nat) : Prop :=
  exists path query, http_parser_parse_url at_ = inr (Some path, query) /\
    match r with
    | Some i => exists hand params, c_handlers c !! i = Some hand /\ match_handler (h_url hand) path = Some (Some params) /\
        forall j other, (j < i)%nat -> c_handlers c !! j = Some other -> match_handler (h_url other) path = Some None
    | None => Forall (fun hand => match_handler (h_url hand) path = Some None) (c_handlers c)
    end.

(** The handler that serves: the last url is allowed and matches it, or matches none and
    the handler served the urls before. *)
Fixpoint serves (i : nat) (us : list (list Z * list Z)) : Prop :=
  match us with
  | [] => False
  | (m, at_) :: us => url_allowed m at_ /\ (url_matches at_ (Some i) \/ url_matches at_ None /\ serves i us)
  end.

(** Every callback of a handler was one of a handler that serves. *)
Fixpoint trace_ok (tr : list observed) : Prop :=
  match tr with
  | [] => True
  | Called (Registered i) _ :: tr => serves i (urls tr) /\ trace_ok tr
  | _ :: tr => trace_ok tr
  end.

Definition may_run (tr : list observed) (h : handler_ref) : Prop := forall i, h = Registered i -> serves i (urls tr).

Record guarded (w : world) : Prop := {
  g_handler h : cr_handler (w_cr w) = Some h -> may_run (w_trace w) h;
  g_trace : trace_ok (w_trace w)
}.

(** What the controller's own functions do to the handler and the trace. *)
Record quiet (w w' : world) : Prop := {
  q_handler : cr_handler (w_cr w') = cr_handler (w_cr w) \/ cr_handler (w_cr w') = Some ErrorHandler;
  q_trace : exists l, w_trace w' = l ++ w_trace w /\ Forall (fun o => exists k, o = Called ErrorHandler k) l
}.

#[export] Instance quiet_preorder : PreOrder quiet.
Proof.
  split.
  - intros w. split; [by left|]. by exists [].
  - intros w1 w2 w3 [H1 (l1 & E1 & F1)] [H2 (l2 & E2 & F2)]. split.
    + destruct H2 as [-> |]; [done|by right].
    + exists (l2 ++ l1). rewrite E2, E1, app_assoc. split; [done|by apply Forall_app].
Qed.

Lemma upd_quiet f w : (forall r, cr_handler (f r) = cr_handler r) -> quiet w (upd f w).
Proof. intros Hf. split; [left; apply Hf|]. by exists []. Qed.

Lemma quiet_urls l tr : Forall (fun o => exists k, o = Called ErrorHandler k) l -> urls (l ++ tr) = urls tr /\ (trace_ok tr -> trace_ok (l ++ tr)).
Proof. induction 1 as [|o l (k & ->) _ IH]; [done|exact IH]. Qed.

Lemma guarded_quiet w w' : quiet w w' -> guarded w -> guarded w'.
Proof.
  intros [Hh (l & E & Hl)] [Gh Gt]. destruct (quiet_urls l (w_trace w) Hl) as [Hu Ht]. split.
  - intros h Eh i ->. rewrite E, Hu. destruct Hh as [Hh|Hh]; rewrite Hh in Eh; [by apply (Gh _ Eh)|done].
  - rewrite E. auto.
Qed.

Lemma render_json_handler root r r' : render_json_cb root r = Some r' -> cr_handler r' = cr_handler r.
Proof. unfold render_json_cb. intros Hr. step_in Hr. by simplify_eq. Qed.

Lemma error_finish_quiet w w' : error_finish w = Some w' -> quiet w w'.
Proof.
  unfold error_finish. intros Hw. destruct (render_json_cb _ _) as [r|] eqn:E; [|done]. simpl in Hw. simplify_eq.
  split; [left; by apply (render_json_handler _ _ _ E)|]. exists [Called ErrorHandler Finish]. by repeat econstructor.
Qed.

Lemma ctrl_error_quiet error msg w w' :
  ctrl_error error msg w = Some w' -> quiet w w' /\ cr_handler (w_cr w') = Some ErrorHandler.
Proof.
  unfold ctrl_error. intros Hw.
  destruct (bconf_add_data _ _ _) as [b1|]; [|done]. cbn [mbind option_bind] in Hw.
  destruct (bconf_add_data _ _ _) as [b2|]; [|done]. cbn [mbind option_bind] in Hw.
  set (w1 := upd _ w) in Hw.
  assert (quiet w w1 /\ cr_handler (w_cr w1) = Some ErrorHandler) as [Hq He].
  { split; [|done]. split; [by right|]. by exists []. }
  destruct (_ =? 1) eqn:E in Hw; [|by simplify_eq].
  unfold error_finish in Hw. destruct (render_json_cb _ _) as [r|] eqn:Er in Hw; [|done]. simpl in Hw. simplify_eq.
  apply render_json_handler in Er. simpl in *. split; [|by rewrite Er].
  split; [right; by simpl; rewrite Er|]. exists [Called ErrorHandler Finish]. by repeat econstructor.
Qed.

Lemma run_action_quiet a w w' : run_action a w = Some w' -> quiet w w'.
Proof.
  destruct a; simpl; intros Hw; simplify_eq; try (by apply upd_quiet).
  - by apply ctrl_error_quiet in Hw as [? _].
  - unfold ctrl_output_json in Hw. destruct (render_json_cb _ _) as [r|] eqn:E; [|done]. simpl in Hw. simplify_eq.
    apply render_json_handler in E. split; [left; done|]. by exists [].
  - destruct (ctrl_set_custom_headers _ _ _) as [r|] eqn:E; [|done]. simpl in Hw. simplify_eq.
    split; [left|by exists []]. unfold ctrl_set_custom_headers in E. destruct (negb _); [done|].
    destruct (bconf_get _ _) as [[n|]|]; try done. simpl in E. destruct (bconf_add_data _ _ _); [|done]. by simplify_eq/=.
  - destruct (bconf_add_data _ _ _) as [b|]; [|done]. simpl in Hw. simplify_eq. by apply upd_quiet.
Qed.

Lemma run_actions_quiet l : forall w w', run_actions l w = Some w' -> quiet w w'.
Proof.
  induction l as [|a l IH]; simpl; intros w w' Hw; [by simplify_eq|].
  destruct (run_action a w) as [w1|] eqn:E; [|done]. simpl in Hw. etrans; [by apply (run_action_quiet a)|by apply IH].
Qed.

(** A callback of a handler that may run, and the actions it makes. *)
Lemma guarded_call h k l w w' : guarded w -> may_run (w_trace w) h ->
  run_actions l (note h k w) = Some w' -> guarded w'.
Proof.
  intros [Gh Gt] Hm Hw. eapply guarded_quiet; [exact (run_actions_quiet _ _ _ Hw)|]. split; [done|].
  destruct h as [i|]; [|done]. split; [by apply Hm|done].
Qed.

Lemma find_handler_spec l : forall i path found, find_handler l i path = Some found ->
  match found with
  | Some (j, params) => exists hand, (i <= j)%nat /\ l !! (j - i)%nat = Some hand /\ match_handler (h_url hand) path = Some (Some params) /\
      forall k other, (k < j - i)%nat -> l !! k = Some other -> match_handler (h_url other) path = Some None
  | None => Forall (fun hand => match_handler (h_url hand) path = Some None) l
  end.
Proof.
  induction l as [|hi l IH]; simpl; intros i path found E; [by simplify_eq|].
  destruct (match_handler (h_url hi) path) as [[ps|]|] eqn:Em; simpl in E; [|apply IH in E|done].
  - simplify_eq. exists hi. rewrite Nat.sub_diag. repeat (split; [done|]). lia.
  - destruct found as [[j params]|]; [|by constructor]. destruct E as (hand & Hle & Hl & Hm & Hb). exists hand. split; [lia|].
    replace (j - i)%nat with (S (j - S i)) by lia. repeat (split; [done|]). intros [|k] other Hk Ho; [by simplify_eq/=|]. apply (Hb k); [lia|done].
Qed.

Lemma found_matches at_ path query found : http_parser_parse_url at_ = inr (Some path, query) ->
  find_handler (c_handlers c) 0 path = Some found -> url_matches at_ (fst <$> found).
Proof.
  intros Eu Ef. apply find_handler_spec in Ef. exists path, query. split; [done|]. destruct found as [[j params]|]; [|done].
  destruct Ef as (hand & _ & Hl & Hm & Hb). rewrite Nat.sub_0_r in *. exists hand, params. by repeat (split; [done|]).
Qed.

Lemma guarded_error error msg w w' : ctrl_error error msg w = Some w' -> trace_ok (w_trace w) -> guarded w'.
Proof.
  intros [[_ (l & E & Hl)] Hh]%ctrl_error_quiet Ht. split.
  - rewrite Hh. by intros h [= <-].
  - rewrite E. by apply (quiet_urls l).
Qed.

(** The handler after a url that is allowed. *)
Lemma use_handler_guarded m at_ path query found acl ok w : guarded w ->
  http_parser_parse_url at_ = inr (Some path, query) -> find_handler (c_handlers c) 0 path = Some found ->
  bconf_get (c_conf c) (bytes "acl") = Some acl -> check_acl (with_method m (c_conn c)) path acl = Some ok ->
  negb ok && negb (c_acl_disabled c) = false -> guarded (use_handler found (saw m at_ w)).
Proof.
  intros [Gh Gt] Eu Ef Ea Ec Eok. pose proof (found_matches _ _ _ _ Eu Ef) as Hm.
  assert (url_allowed m at_) as Hal.
  { exists path, query, acl. repeat (split; [done|]). destruct ok; [by right|left]. by destruct (c_acl_disabled c). }
  destruct found as [[j params]|]; (split; [|exact Gt]); intros h Eh i ->; simpl in Eh.
  - injection Eh as ->. split; [done|by left].
  - split; [done|]. right. split; [done|]. by apply (Gh _ Eh).
Qed.

Lemma use_params_quiet found w w' : use_params found w = Some w' -> quiet w w'.
Proof.
  unfold use_params. destruct found as [[j [|p ps]]|]; intros Hw; simplify_eq; try done.
  destruct (sm_insert_all _ _); [|done]. simpl in Hw. simplify_eq. by apply upd_quiet.
Qed.

Lemma use_query_quiet query w w' : use_query (X := X) match_options query w = Some w' -> quiet w w'.
Proof.
  unfold use_query. destruct query as [q|]; intros Hw; [|by simplify_eq].
  destruct (parse_query_string _ _ _ _ _ _) as [[calls o]|]; [|done]. cbn [mbind option_bind] in Hw.
  destruct (sm_calls _ _) as [qs|]; [|done]. cbn [mbind option_bind] in Hw. simplify_eq. by apply upd_quiet.
Qed.

Lemma call_start_guarded h w w' : guarded w -> may_run (w_trace w) h -> call_start c h w = Some w' -> guarded w'.
Proof.
  unfold call_start. intros G Hm Hw. destruct (handler_of c h) as [hand|]; [|by simplify_eq].
  destruct (h_start hand) as [start|]; [|by simplify_eq]. by eapply guarded_call.
Qed.

Lemma on_url_guarded m at_ w ret w' : guarded w ->
  on_url (X := X) match_options c m at_ w = Some (ret, w') -> trace_ok (w_trace w') /\ (ret = 0 -> guarded w').
Proof.
  intros G Hw. unfold on_url in Hw. cbv zeta in Hw. assert (trace_ok (w_trace (saw m at_ w))) as Ht by apply G.
  destruct (http_parser_parse_url at_) as [res|[[path|] query]] eqn:Eu.
  { injection Hw as <- <-. split; [done|]. intros ->. by destruct (parse_url_error at_). }
  2:{ destruct (ctrl_error _ _ _) as [w1|] eqn:Ee; [|done]. simpl in Hw. simplify_eq.
      pose proof (guarded_error _ _ _ _ Ee Ht) as G1. split; [apply G1|done]. }
  destruct (find_handler _ _ _) as [found|] eqn:Ef; [|done]. cbn [mbind option_bind] in Hw.
  destruct (bconf_get _ _) as [acl|] eqn:Ea; [|done]. cbn [mbind option_bind] in Hw.
  destruct (check_acl _ _ _) as [ok|] eqn:Ec; [|done]. cbn [mbind option_bind] in Hw.
  destruct (negb ok && negb (c_acl_disabled c)) eqn:Eok.
  { destruct (ctrl_error _ _ _) as [w2|] eqn:Ee; [|done]. simpl in Hw. simplify_eq.
    enough (guarded w') as G1 by (split; [apply G1|done]). eapply guarded_error; [exact Ee|]. by destruct found as [[]|]. }
  pose proof (use_handler_guarded _ _ _ _ _ _ _ _ G Eu Ef Ea Ec Eok) as G1. set (w1 := use_handler found _) in *. clearbody w1.
  enough (guarded w') as G' by (split; [apply G'|done]).
  destruct (cr_handler (w_cr w1)) as [h|] eqn:Eh.
  2:{ destruct (ctrl_error _ _ _) as [w2|] eqn:Ee; [|done]. simpl in Hw. simplify_eq.
      eapply guarded_error; [exact Ee|apply G1]. }
  destruct (use_params _ _) as [w2|] eqn:E2; [|done]. cbn [mbind option_bind] in Hw.
  destruct (call_start c h w2) as [w3|] eqn:E3; [|done]. cbn [mbind option_bind] in Hw.
  destruct (use_query _ _ _) as [w4|] eqn:E4; [|done]. cbn [mbind option_bind] in Hw. simplify_eq.
  assert (quiet w1 w2 /\ w_trace w2 = w_trace w1) as [Q2 T2].
  { split; [etrans; [|exact (use_params_quiet _ _ _ E2)]; by apply upd_quiet|].
    unfold use_params in E2. destruct found as [[j [|p ps]]|]; simplify_eq; try done.
    destruct (sm_insert_all _ _); [|done]. simpl in E2. by simplify_eq. }
  eapply guarded_quiet; [exact (use_query_quiet _ _ _ E4)|]. eapply call_start_guarded; [by eapply guarded_quiet| |exact E3].
  rewrite T2. by apply (g_handler _ G1).
Qed.

Lemma finalize_header_quiet w w' : finalize_header w = Some w' -> quiet w w'.
Proof.
  unfold finalize_header. assert (forall w1, quiet w1 (reset_header w1)) as Hr by (intros; by apply upd_quiet).
  assert (forall error msg, (w ← ctrl_error error msg w; Some (reset_header w)) = Some w' -> quiet w w') as He.
  { intros error msg Hw. destruct (ctrl_error error msg w) as [w1|] eqn:Ee; [|done]. simpl in Hw. simplify_eq.
    etrans; [|apply Hr]. by apply ctrl_error_quiet in Ee as [? _]. }
  destruct (negb _); [|intros Hw; by simplify_eq].
  destruct (bool_decide (cr_header_value (w_cr w) = [])); [apply He|].
  destruct (lookup_ctrl_header _).
  - destruct (strtol _) as [[v e] er]. destruct (er || _ || _ || _); [apply He|]. intros Hw. simplify_eq.
    etrans; [|apply Hr]. by apply upd_quiet.
  - intros Hw. simplify_eq. etrans; [|apply Hr]. destruct (is_close _); [by apply upd_quiet|done].
  - intros Hw. simplify_eq. etrans; [|apply Hr]. by apply upd_quiet.
  - intros Hw. by simplify_eq.
Qed.

Lemma on_body_guarded at_ w ret w' : guarded w -> on_body c at_ w = Some (ret, w') -> guarded w'.
Proof.
  unfold on_body. intros G Hw.
  assert (forall error msg, (w ← ctrl_error error msg w; Some (0, w)) = Some (ret, w') -> guarded w') as He.
  { clear Hw. intros error msg Hw. destruct (ctrl_error error msg w) as [w1|] eqn:Ee; [|done]. simpl in Hw. simplify_eq.
    eapply guarded_error; [exact Ee|apply G]. }
  destruct (cr_handler (w_cr w)) as [[i|]|] eqn:Eh; [| |by apply He in Hw].
  - destruct (c_handlers c !! i ≫= h_consume_post) as [consume|]; [|by apply He in Hw].
    destruct (consume (w_cr w) at_) as [acts ret']. destruct (run_actions _ _) as [w1|] eqn:Er; [|done].
    simpl in Hw. simplify_eq. eapply guarded_call; [exact G| |exact Er]. by apply (g_handler _ G).
  - simplify_eq. split; [|apply G]. simpl. rewrite Eh. by intros h [= <-].
Qed.

Lemma send_loop_quiet fuel : forall data w, quiet w (snd (send_loop fuel data w)).
Proof.
  induction fuel as [|fuel IH]; intros data w; simpl; [done|].
  destruct (w_io w) as [|r io]; [done|]. destruct (r <? 1); [by split; [left|exists []]|].
  set (w1 := mk_world _ _ _ _). assert (quiet w w1) as Q by (by split; [left|exists []]).
  destruct (drop _ data); [done|]. etrans; [exact Q|apply IH].
Qed.

Lemma send_response_quiet w : quiet w (send_response c w).
Proof.
  unfold send_response, send_all. set (d := match cr_raw_response (w_cr w) with Some _ => _ | None => _ end).
  pose proof (send_loop_quiet (length (response_headers c (w_cr w) (BufString.size d)))
    (response_headers c (w_cr w) (BufString.size d)) w) as Q.
  destruct (send_loop _ _ w) as [left_ w1]. simpl in Q. destruct left_; [|done]. destruct d; [done|].
  etrans; [exact Q|apply send_loop_quiet].
Qed.

Lemma on_message_complete_guarded w ret w' : guarded w ->
  on_message_complete c w = Some (ret, w') -> guarded w'.
Proof.
  unfold on_message_complete. intros G Hw.
  destruct (cr_handler (w_cr w)) as [h|] eqn:Eh; cycle 1.
  { simpl in Hw. simplify_eq. eapply guarded_quiet; [|exact G]. by apply upd_quiet. }
  set (w0 := upd (set_in_handler 1) w) in Hw.
  assert (guarded w0) as G0 by (eapply guarded_quiet; [|exact G]; by apply upd_quiet).
  destruct (call_finish c h w0) as [w1|] eqn:E1; [|done]. cbn [mbind option_bind] in Hw.
  assert (guarded w1) as G1.
  { unfold call_finish in E1. destruct h as [i|].
    - destruct (c_handlers c !! i) as [hand|]; [|done]. cbn [mbind option_bind] in E1.
      eapply guarded_call; [exact G0| |exact E1]. by apply (g_handler _ G).
    - destruct (cr_handler_data _); [done|]. eapply guarded_quiet; [exact (error_finish_quiet _ _ E1)|exact G0]. }
  set (w2 := upd (set_text []) (send_response c w1)) in Hw.
  assert (guarded w2) as G2.
  { eapply guarded_quiet; [|exact G1]. etrans; [apply send_response_quiet|]. by apply upd_quiet. }
  destruct (call_cleanup c w2) as [w3|] eqn:E3; [|done]. cbn [mbind option_bind] in Hw. simplify_eq.
  eapply guarded_quiet; [by apply (upd_quiet (set_message_completed true))|].
  unfold call_cleanup in E3. destruct (cr_handler (w_cr w2)) as [h2|] eqn:Eh2; [|by simplify_eq].
  destruct (handler_of c h2 ≫= h_cleanup); [|by simplify_eq].
  eapply guarded_call; [exact G2| |exact E3]. by apply (g_handler _ G2).
Qed.

Lemma hp_callback_guarded e w ret w' : guarded w -> callback_of e w = Some (ret, w') -> trace_ok (w_trace w') /\ (ret = 0 -> guarded w').
Proof.
  intros G Hw. destruct e as [|m at_|at_|at_| |at_|]; simpl in Hw; [|by eapply on_url_guarded|..];
    enough (guarded w') as G' by (split; [apply G'|done]).
  - unfold on_message_begin in Hw. simplify_eq. eapply guarded_quiet; [|exact G]. by apply upd_quiet.
  - unfold on_header_field in Hw. destruct (match cr_header_state (w_cr w) with HS_VALUE => _ | _ => _ end) as [w1|] eqn:E; [|done].
    simpl in Hw. simplify_eq. eapply guarded_quiet; [by apply upd_quiet|]. eapply guarded_quiet; [|exact G].
    destruct (cr_header_state (w_cr w)); simplify_eq; [done|by apply finalize_header_quiet|done].
  - unfold on_header_value in Hw. destruct (cr_header_state (w_cr w)); simplify_eq; [done|..];
      (eapply guarded_quiet; [by apply upd_quiet|exact G]).
  - unfold on_headers_complete in Hw. destruct (finalize_header w) as [w1|] eqn:E; [|done].
    simpl in Hw. simplify_eq. eapply guarded_quiet; [exact (finalize_header_quiet _ _ E)|exact G].
  - by eapply on_body_guarded.
  - by eapply on_message_complete_guarded.
Qed.

Lemma execute_guarded evs : forall w b w', guarded w -> exec evs w = Some (b, w') -> trace_ok (w_trace w') /\ (b = true -> guarded w').
Proof.
  induction evs as [|e evs IH]; simpl; intros w b w' G Hw; [simplify_eq; split; [apply G|done]|].
  destruct (hp_callback _ _ e w) as [[ret w1]|] eqn:E; [|done]. cbn [mbind option_bind] in Hw.
  apply hp_callback_guarded in E as [T1 G1]; [|done]. destruct (Z.eqb_spec ret 0) as [->|]; [by eapply IH; [apply G1|]|]. by simplify_eq.
Qed.

Lemma read_loop_guarded reads : forall w b w', guarded w ->
  read_loop (X := X) match_options c reads w = Some (b, w') -> trace_ok (w_trace w') /\ (b = true -> guarded w').
Proof.
  induction reads as [|[| |evs parsed] reads IH]; simpl; intros w b w' G Hw; try (simplify_eq; split; [apply G|done]).
  destruct (execute _ _ evs w) as [[ok w1]|] eqn:E; [|done]. cbn [mbind option_bind] in Hw.
  apply execute_guarded in E as [T1 G1]; [|done]. destruct ok; simpl in Hw; [|by simplify_eq]. specialize (G1 eq_refl).
  destruct parsed; simpl in Hw; [|by simplify_eq]. destruct (cr_message_completed (w_cr w1)); [by simplify_eq|]. by eapply IH.
Qed.

Lemma handle_request_guarded init reads hp_upgrade keep w f w' : guarded w ->
  handle_request (X := X) match_options c init reads hp_upgrade keep w = Some (f, w') -> trace_ok (w_trace w').
Proof.
  intros G0 Hw. unfold handle_request in Hw.
  destruct (match init with Some evs => _ | None => _ end) as [[ok w1]|] eqn:E1; [|done]. cbn [mbind option_bind] in Hw.
  assert (trace_ok (w_trace w1) /\ (ok = true -> guarded w1)) as [T1 G1].
  { destruct init as [evs|]; [by eapply execute_guarded|]. simplify_eq. split; [apply G0|done]. }
  destruct ok; simpl in Hw; [specialize (G1 eq_refl)|by simplify_eq].
  destruct (read_loop _ _ _ _) as [[completed w2]|] eqn:E2; [|done]. cbn [mbind option_bind] in Hw.
  apply read_loop_guarded in E2 as [T2 G2]; [|done]. destruct completed; simpl in Hw; [specialize (G2 eq_refl)|by simplify_eq].
  assert (forall g w3, (if cr_close_conn (w_cr w2) || negb keep then Some (FateClosed, w2) else Some (FateKeepalive, upd (set_keepalive true) w2)) = Some (g, w3) ->
    trace_ok (w_trace w3)) as Hk.
  { intros g w3 E3. destruct (_ || _); by simplify_eq. }
  destruct (if hp_upgrade then _ else _) as [[f3 w3]|] eqn:E3; [|done]. cbn [mbind option_bind] in Hw. simplify_eq. simpl.
  destruct hp_upgrade; [|by eapply Hk]. destruct (cr_handler (w_cr w2)) as [h|] eqn:Eh; [|done]. cbn [mbind option_bind] in E3.
  destruct (handler_of c h ≫= h_upgrade) as [up|]; [|by eapply Hk]. destruct (cr_status (w_cr w2) =? 101); [|by eapply Hk].
  destruct (run_actions _ _) as [w4|] eqn:E4; [|done]. cbn [mbind option_bind] in E3. simplify_eq.
  eapply (guarded_call _ _ _ (upd (set_keepalive false) w2)); [|by apply (g_handler _ G2)|exact E4]. eapply guarded_quiet; [by apply upd_quiet|done].
Qed.

Lemma trace_ok_at later i k earlier : trace_ok (later ++ Called (Registered i) k :: earlier) -> serves i (urls earlier).
Proof. induction later as [|[[j|] k'|m at_] later IH]; simpl; [by intros []|intros [_ ?]; auto|auto|auto]. Qed.

(** C23: Whatever the parser reports in a call of handle_request, when a callback of a
    registered handler runs, the access list allows the url that the parser reported last
    before it, for the method of that url's own message, or the list is disabled; and that url
    has the handler as the first that matches.  Only if no handler matches the url, and it is
    not the first url of the call (a message that was sent together with the one before it),
    the handler is the one that served the url before, of which the same holds. *)
Theorem ctrl_access_checked init reads hp_upgrade keep io f w' later i k earlier :
  handle_request (X := X) match_options c init reads hp_upgrade keep (mk_world cr_init [] io []) = Some (f, w') ->
  w_trace w' = later ++ Called (Registered i) k :: earlier ->
  exists m at_ before, urls earlier = (m, at_) :: before /\ url_allowed m at_ /\
    (url_matches at_ (Some i) \/ before ≠ [] /\ url_matches at_ None /\ serves i before).
Proof.
  intros Hw Ht. apply handle_request_guarded in Hw; [|by split]. rewrite Ht in Hw. apply trace_ok_at in Hw.
  destruct (urls earlier) as [|[m at_] before]; [done|]. destruct Hw as [Ha [Hm|[Hm Hs]]]; exists m, at_, before; repeat (split; [done|]); [by left|].
  right. split; [by destruct before|done].
Qed.
End Access.
