(* ===== verification/ControllerProofs.v ===== *)
(** ControllerProofs: which urls a handler serves, how headers are put together
    and what is sent back; the rest of the theorems about src/core/lib/controller.c. *)
From stdpp Require Import prelude list numbers.
From Stdlib Require Import ZArith Lia.
From S2P Require Import Prelude BufString Strings Bconf BconfPrint Vtree BconfVtree CachedRegex QueryString Avl Stringmap Acl Controller.

Local Open Scope Z_scope.

(** * Handler urls *)

(** A handler url: characters, and parameters in angle brackets. *)
Inductive seg := Lit (c : Z) | Var (key : list Z).

Definition seg_url (s : seg) : list Z := match s with Lit c => [c] | Var k => 60 :: k ++ [62] end.
Definition url_of (segs : list seg) : list Z := concat (map seg_url segs).

Definition seg_keys (s : seg) : list (list Z) := match s with Lit _ => [] | Var k => [k] end.
Definition keys_of (segs : list seg) : list (list Z) := concat (map seg_keys segs).

Definition no_bracket (c : Z) : Prop := c <> 60 /\ c <> 62.

(** A parameter is a whole part of the path: what follows is a slash. *)
Fixpoint handler_pattern (segs : list seg) : Prop :=
  match segs with
  | [] => True
  | Lit c :: s => no_bracket c /\ handler_pattern s
  | Var k :: s => Forall no_bracket k /\ match s with [] => True | Lit c :: _ => c = 47 | Var _ :: _ => False end /\ handler_pattern s
  end.

(** The requests of a pattern; the value of the last parameter is not empty. *)
Inductive fills : list seg -> list (list Z) -> list Z -> Prop :=
  | fills_nil : fills [] [] []
  | fills_lit c s vals u : fills s vals u -> fills (Lit c :: s) vals (c :: u)
  | fills_var k s v vals u : 47 ∉ v -> (s = [] -> v <> []) -> fills s vals u -> fills (Var k :: s) (v :: vals) (v ++ u).

Lemma url_of_cons s segs : url_of (s :: segs) = seg_url s ++ url_of segs.
Proof. done. Qed.

Lemma count_key k rest n : Forall no_bracket k -> count_vars (k ++ 62 :: rest) (n + 1) n = count_vars rest (n + 1) (n + 1).
Proof.
  induction 1 as [|c k [H1 H2] Hk IH]; simpl.
  - by replace (n + 1 - (n + 1)) with 0 by lia.
  - rewrite (proj2 (Z.eqb_neq c 60)), (proj2 (Z.eqb_neq c 62)) by done.
    replace (n + 1 - n) with 1 by lia. apply IH.
Qed.

Lemma count_pattern segs n : handler_pattern segs -> count_vars (url_of segs) n n = Some (n + Z.of_nat (length (keys_of segs))).
Proof.
  revert n. induction segs as [|[c|k] segs IH]; intros n; cbn [handler_pattern].
  - intros _. simpl. f_equal. lia.
  - intros [[H1 H2] Hs]. rewrite url_of_cons. simpl. rewrite (proj2 (Z.eqb_neq c 60)), (proj2 (Z.eqb_neq c 62)) by done.
    rewrite Z.sub_diag. by apply IH.
  - intros (Hk & _ & Hs). rewrite url_of_cons. simpl seg_url. rewrite <- app_comm_cons, <- app_assoc. simpl.
    replace (n + 1 - n) with 1 by lia. simpl. rewrite count_key, IH by done. f_equal. unfold keys_of. simpl. lia.
Qed.

Lemma span_key_end_pattern k rest : Forall no_bracket k -> span_key_end (k ++ 62 :: rest) = Some (k, rest).
Proof. induction 1 as [|c k [H1 H2] Hk IH]; simpl; [done|]. by rewrite (proj2 (Z.eqb_neq c 62)), IH. Qed.

Lemma span_value_spec r v rest : span_value r = (v, rest) ->
  r = v ++ rest /\ (47 ∉ v) /\ match rest with [] => True | c :: _ => c = 47 end.
Proof.
  revert v rest. induction r as [|c r IH]; simpl; intros v rest E; [by simplify_eq; split; [|split; [apply not_elem_of_nil|]]|].
  destruct (Z.eqb_spec c 47) as [->|Hc]; [by simplify_eq; split; [|split; [apply not_elem_of_nil|]]|].
  destruct (span_value r) as [v' rest'] eqn:Er. simplify_eq. destruct (IH _ _ eq_refl) as (-> & Hv & Hr).
  split; [done|]. split; [|done]. apply not_elem_of_cons. auto.
Qed.

Lemma span_value_app v rest : 47 ∉ v -> match rest with [] => True | c :: _ => c = 47 end -> span_value (v ++ rest) = (v, rest).
Proof.
  intros Hv Hr. induction v as [|c v IH]; simpl.
  - destruct rest as [|c rest]; [done|]. by subst c.
  - apply not_elem_of_cons in Hv as [Hc Hv]. rewrite (proj2 (Z.eqb_neq c 47)), IH by auto. done.
Qed.

(** The result of the loop: it matched with the values [vals], or it did not. *)
Definition loop_ok (segs : list seg) (req : list Z) (params : list path_param) (idx : nat)
    (res : option (list Z * list Z * list path_param)) : Prop :=
  exists hup rup ps, res = Some (hup, rup, ps) /\
    ((hup = [] /\ rup = [] /\ exists vals, fills segs vals req /\ ps = take idx params ++ zip (keys_of segs) vals) \/
     (~ (hup = [] /\ rup = []) /\ forall vals, ~ fills segs vals req)).

Lemma fills_slash s vals c u : fills (Lit c :: s) vals u -> exists u', u = c :: u'.
Proof. inversion 1; eauto. Qed.

Lemma loop_var k segs req params idx res v rest : req <> [] ->
  span_value req = (v, rest) -> length params = (idx + S (length (keys_of segs)))%nat ->
  match segs with [] => res = Some ([], rest, <[idx := (k, v)]> params)
  | _ => match rest with
         | [] => res = Some (url_of segs, [], <[idx := (k, v)]> params)
         | _ => loop_ok segs rest (<[idx := (k, v)]> params) (S idx) res
         end
  end ->
  match segs with [] => True | Lit c :: _ => c = 47 | Var _ :: _ => False end ->
  loop_ok (Var k :: segs) req params idx res.
Proof.
  intros Hreq Hsv Hidx Hres Hseg. destruct (span_value_spec _ _ _ Hsv) as (Er & Hv & Hrest).
  assert (forall vals, fills (Var k :: segs) vals req -> exists vals', vals = v :: vals' /\ fills segs vals' rest) as Hinv.
  { clear Er Hrest Hv. intros vals Hf. inversion Hf as [| |k' s' v' vals' u' Hv' Hne Hf']; subst. exists vals'.
    assert (v' = v /\ u' = rest) as [-> ->]; [|done].
    rewrite span_value_app in Hsv; [by simplify_eq|done|].
    destruct segs as [|[c|] segs]; [inversion Hf'; subst; done|subst c|done]. by apply fills_slash in Hf' as (u'' & ->). }
  assert (take (S idx) (<[idx := (k, v)]> params) = take idx params ++ [(k, v)]) as Htake.
  { rewrite (take_S_r _ _ (k, v)) by (apply list_lookup_insert_eq; lia). by rewrite take_insert_ge by lia. }
  destruct segs as [|s segs].
  - subst res. eexists _, _, _. split; [done|]. destruct rest as [|c rest].
    + left. rewrite app_nil_r in Er. subst v. repeat split. exists [req]. split.
      * rewrite <- (app_nil_r req) at 2. constructor; [done|done|constructor].
      * change (zip (keys_of [Var k]) [req]) with [(k, req)]. rewrite <- Htake, take_ge; [done|].
        rewrite length_insert, Hidx. unfold keys_of. simpl. lia.
    + right. split; [by intros [_ ?]|]. intros vals (vals' & _ & Hf)%Hinv. inversion Hf.
  - destruct rest as [|c rest].
    + subst res. eexists _, _, _. split; [done|]. right. split.
      * destruct s as [c|]; [|done]. by intros [? _].
      * intros vals (vals' & _ & Hf)%Hinv. destruct s as [c|]; [|done]. by apply fills_slash in Hf as (? & ?).
    + destruct Hres as (hup & rup & ps & -> & Hps). exists hup, rup, ps. split; [done|].
      destruct Hps as [(-> & -> & vals & Hf & ->)|[Hno Hnf]].
      * left. repeat split. exists (v :: vals). split; [rewrite Er; by constructor|].
        rewrite Htake. by rewrite <- app_assoc.
      * right. split; [done|]. intros vals (vals' & _ & Hf)%Hinv. by apply (Hnf vals').
Qed.

Lemma match_url_loop_spec segs : handler_pattern segs -> forall fuel req params idx,
  (length (url_of segs) < fuel)%nat -> 60 ∉ req -> length params = (idx + length (keys_of segs))%nat ->
  loop_ok segs req params idx (match_url_loop fuel (url_of segs) req params idx).
Proof.
  induction segs as [|[c|k] segs IH]; cbn [handler_pattern]; intros Hp fuel req params idx Hf Hreq Hlen.
  - destruct fuel as [|fuel]; [simpl in Hf; lia|]. exists [], req, params. split; [done|].
    destruct req as [|r req]; [left|right; split; [by intros []|by inversion 1]].
    repeat split. exists []. split; [constructor|]. rewrite app_nil_r, take_ge; [done|]. unfold keys_of in Hlen. simpl in Hlen. lia.
  - destruct Hp as [[H60 H62] Hp]. rewrite url_of_cons in *. simpl in Hf. destruct fuel as [|fuel]; [lia|]. simpl.
    destruct req as [|r req].
    { eexists _, _, _. split; [done|]. right. split; [by intros [? _]|]. by inversion 1. }
    apply not_elem_of_cons in Hreq as [Hr Hreq]. destruct (Z.eqb_spec c r) as [->|Hne].
    + destruct (IH Hp fuel req params idx) as (hup & rup & ps & E & Hps); [lia|done|done|].
      exists hup, rup, ps. split; [done|]. destruct Hps as [(-> & -> & vals & Hv & ->)|[Hno Hnf]]; [left|right].
      * repeat split. exists vals. split; [by constructor|done].
      * split; [done|]. intros vals Hv. inversion Hv; subst. by apply (Hnf vals).
    + rewrite (proj2 (Z.eqb_neq c 60)) by done. eexists _, _, _. split; [done|]. right. split; [by intros [? _]|].
      inversion 1; congruence.
  - destruct Hp as (Hk & Hs & Hp). rewrite url_of_cons in *. simpl seg_url in *. rewrite <- app_comm_cons, <- app_assoc in *. simpl in Hf.
    rewrite !length_app in Hf. simpl in Hf. destruct fuel as [|fuel]; [lia|]. cbn [match_url_loop].
    change ([62] ++ url_of segs) with (62 :: url_of segs).
    destruct req as [|r req].
    { eexists _, _, _. split; [done|]. right. split; [by intros [? _]|]. intros vals Hv.
      inversion Hv as [| |k' s' v vals' u Hnv Hne Hfs Es Ev Eu]. apply app_eq_nil in Eu as [-> ->].
      destruct segs as [|[c|] segs]; [by apply Hne|by inversion Hfs|done]. }
    rewrite (proj2 (Z.eqb_neq 60 r)) by (intros <-; apply Hreq; left).
    rewrite span_key_end_pattern by done. cbn [mbind option_bind].
    destruct (span_value (r :: req)) as [v rest] eqn:Esv.
    eapply loop_var; [done|exact Esv|by unfold keys_of in *|  |done].
    destruct (span_value_spec _ _ _ Esv) as (Er & _ & Hrest).
    destruct segs as [|[c|] segs]; [by destruct rest| |done]. destruct rest as [|c' rest]; [done|]. subst c c'.
    enough (loop_ok (Lit 47 :: segs) (47 :: rest) (<[idx:=(k, v)]> params) (S idx)
      (match_url_loop (S fuel) (url_of (Lit 47 :: segs)) (47 :: rest) (<[idx:=(k, v)]> params) (S idx))) as Hl by exact Hl.
    apply IH; [done|rewrite url_of_cons in *; simpl in *; lia| |].
    + intros Hin. apply Hreq. rewrite Er. apply elem_of_app. by right.
    + rewrite length_insert. unfold keys_of in *. simpl in *. lia.
Qed.

(** A url gives the values. *)
Lemma fills_rest segs vals u : match segs with [] => True | Lit c :: _ => c = 47 | Var _ :: _ => False end ->
  fills segs vals u -> match u with [] => True | c :: _ => c = 47 end.
Proof. intros Hs Hf. destruct segs as [|[c|] segs]; [by inversion Hf| |done]. by apply fills_slash in Hf as (? & ->). Qed.

Lemma fills_inj segs : handler_pattern segs -> forall v1 v2 u, fills segs v1 u -> fills segs v2 u -> v1 = v2.
Proof.
  induction segs as [|[c|k] segs IH]; cbn [handler_pattern]; intros Hp v1 v2 u H1 H2; inversion H1 as [|? ? ? u1 F1|? ? a1 w1 u1 N1 _ F1]; subst.
  - by inversion H2.
  - inversion H2; subst. destruct Hp as [_ Hp]. by eapply IH.
  - destruct Hp as (_ & Hs & Hp). inversion H2 as [| |? ? a2 w2 u2 N2 _ F2 Ek Ev Eu].
    pose proof (span_value_app a1 u1 N1 (fills_rest _ _ _ Hs F1)) as E1.
    pose proof (span_value_app a2 u2 N2 (fills_rest _ _ _ Hs F2)) as E2. rewrite Eu, E1 in E2. simplify_eq.
    f_equal. by eapply IH.
Qed.

Lemma match_handler_fills segs req : handler_pattern segs -> 60 ∉ req ->
  exists r, match_handler (url_of segs) req = Some r /\
    forall params, r = Some params <-> exists vals, fills segs vals req /\ params = zip (keys_of segs) vals.
Proof.
  intros Hp Hreq. unfold match_handler. rewrite count_pattern by done. rewrite Z.add_0_l, Nat2Z.id.
  destruct (match_url_loop_spec segs Hp (S (length (url_of segs))) req (replicate (length (keys_of segs)) ([], [])) 0)
    as (hup & rup & ps & -> & Hps); [lia|done|by rewrite length_replicate|].
  cbn [mbind option_bind]. eexists. split; [done|]. intros params.
  destruct Hps as [(-> & -> & vals & Hv & ->)|[Hno Hnf]].
  - simpl. split; [intros [= <-]; by exists vals|]. intros (vals' & Hv' & ->). by rewrite (fills_inj segs Hp _ _ _ Hv Hv').
  - destruct (bool_decide (hup = []) && bool_decide (rup = [])) eqn:E; split; try done.
    + apply andb_prop in E as [E1%bool_decide_eq_true E2%bool_decide_eq_true]. by destruct Hno.
    + intros (vals & Hv & _). by apply Hnf in Hv.
    + intros (vals & Hv & _). by apply Hnf in Hv.
Qed.

(** C26: A handler whose parameters are whole parts of the path, in a url with balanced
    brackets, serves among the requests that have no '<' exactly the urls that its pattern with
    values for the parameters gives, and is called with these values; the values have no
    slash and the last is not empty.  (A request with a '<' can match the brackets of the
    handler's url literally.) *)
Theorem match_handler_correct segs req : handler_pattern segs -> 60 ∉ req ->
  exists r, match_handler (url_of segs) req = Some r /\
    forall params, r = Some params <-> exists vals, fills segs vals req /\ params = zip (keys_of segs) vals.
Proof. apply match_handler_fills. Qed.

Lemma match_handler_correct_witness :
  match_handler (bytes "/user/<id>/mail/<box>") (bytes "/user/7/mail/in") =
    Some (Some [(bytes "id", bytes "7"); (bytes "box", bytes "in")]).
Proof.
  destruct (match_handler_correct
    (map Lit (bytes "/user/") ++ [Var (bytes "id")] ++ map Lit (bytes "/mail/") ++ [Var (bytes "box")])
    (bytes "/user/7/mail/in")) as (r & E & Hr).
  - vm_compute. repeat (constructor || discriminate).
  - apply (bool_decide_unpack _). vm_compute. exact I.
  - refine (eq_trans E (f_equal Some _)). apply Hr. exists [bytes "7"; bytes "in"]. split; [|vm_compute; reflexivity].
    vm_compute. do 6 constructor. apply (fills_var _ _ [55]); [apply (bool_decide_unpack _); vm_compute; exact I|discriminate|].
    do 6 constructor. apply (fills_var _ _ [105; 110] _ []); [apply (bool_decide_unpack _); vm_compute; exact I|discriminate|].
    constructor.
Defined.

(** The character after a parameter is skipped in both urls without a look. *)
Theorem match_skips_character :
  match_handler (bytes "/a/<id>x/b") (bytes "/a/1//b") = Some (Some [(bytes "id", bytes "1")]) /\
  match_handler (bytes "/a/<id>") (bytes "/a/<id>") = Some (Some [([], [])]) /\
  match_handler (bytes "/a/<id") (bytes "/a/1") = None.
Proof. by vm_compute. Qed.

(** * Headers *)

Section Headers.
Context `{!HttpParser} `{Pcre} {X : Type} `{!VtreeBackend X} (match_options : bool -> Z) (c : ctrl).

Abbreviation exec := (execute (X := X) match_options c).

(** A header as the parser may report it: its name and value in pieces. *)
Definition chunks (h : list (list Z) * list (list Z)) : list hp_event :=
  map OnHeaderField (fst h) ++ map OnHeaderValue (snd h).

Definition whole (h : list (list Z) * list (list Z)) : list hp_event :=
  [OnHeaderField (concat (fst h)); OnHeaderValue (concat (snd h))].

Lemma exec_app evs1 evs2 w :
  exec (evs1 ++ evs2) w = '(ok, w) ← exec evs1 w; if (ok : bool) then exec evs2 w else Some (false, w).
Proof.
  revert w. induction evs1 as [|e evs1 IH]; intros w; simpl; [by destruct (exec evs2 w) as [[]|]|].
  destruct (hp_callback _ _ e w) as [[ret w1]|]; [|done]. cbn [mbind option_bind]. destruct (ret =? 0); [apply IH|done].
Qed.

Definition add_name (s : list Z) (r : ctrl_req) : ctrl_req := set_header_name (cr_header_name r ++ s) (set_header_state HS_FIELD r).
Definition add_value (s : list Z) (r : ctrl_req) : ctrl_req := set_header_value (cr_header_value r ++ s) (set_header_state HS_VALUE r).

Lemma add_name_twice a b w : upd (add_name b) (upd (add_name a) w) = upd (add_name (a ++ b)) w.
Proof. destruct w as [r ? ? ?], r. cbv -[app]. by rewrite app_assoc. Qed.

Lemma add_value_twice a b w : upd (add_value b) (upd (add_value a) w) = upd (add_value (a ++ b)) w.
Proof. destruct w as [r ? ? ?], r. cbv -[app]. by rewrite app_assoc. Qed.

Lemma exec_field f tl w :
  exec (OnHeaderField f :: tl) w =
  w ← (match cr_header_state (w_cr w) with HS_VALUE => finalize_header w | _ => Some w end); exec tl (upd (add_name f) w).
Proof. simpl. unfold on_header_field. by destruct (cr_header_state (w_cr w)); [| destruct (finalize_header w)|]. Qed.

Lemma exec_value v tl w : cr_header_state (w_cr w) <> HS_NONE ->
  exec (OnHeaderValue v :: tl) w = exec tl (upd (add_value v) w).
Proof. simpl. unfold on_header_value. by destruct (cr_header_state (w_cr w)). Qed.

Lemma exec_fields fs tl : forall a w,
  exec (map OnHeaderField fs ++ tl) (upd (add_name a) w) = exec tl (upd (add_name (a ++ concat fs)) w).
Proof.
  induction fs as [|f fs IH]; intros a w; cbn [map concat app]; [by rewrite app_nil_r|].
  rewrite exec_field. cbn [w_cr upd add_name cr_header_state set_header_name set_header_state mbind option_bind].
  by rewrite add_name_twice, IH, app_assoc.
Qed.

Lemma exec_values vs : forall a w,
  exec (map OnHeaderValue vs) (upd (add_value a) w) = Some (true, upd (add_value (a ++ concat vs)) w).
Proof.
  induction vs as [|v vs IH]; intros a w; cbn [map concat app]; [by rewrite app_nil_r|].
  by rewrite exec_value, add_value_twice, IH, app_assoc.
Qed.

Lemma exec_chunks h w : fst h <> [] -> snd h <> [] -> exec (chunks h) w = exec (whole h) w.
Proof.
  destruct h as [[|f fs] [|v vs]]; try done. intros _ _. unfold chunks, whole. cbn [fst snd map concat app].
  rewrite !exec_field. destruct (match cr_header_state (w_cr w) with HS_VALUE => _ | _ => _ end) as [w0|]; [|done].
  cbn [mbind option_bind]. rewrite exec_fields, !exec_value by done. by rewrite exec_values.
Qed.

(** The request does not depend on how the parser cuts the names and values
    of the headers into pieces. *)
Theorem header_pieces hs w : Forall (fun h => fst h <> [] /\ snd h <> []) hs ->
  exec (concat (map chunks hs)) w = exec (concat (map whole hs)) w.
Proof.
  intros Hall. revert w. induction Hall as [|h hs [H1 H2] Hall IH]; intros w; [done|].
  cbn [map concat]. rewrite !exec_app, exec_chunks by done.
  destruct (exec (whole h) w) as [[[] w1]|]; [apply IH|done|done].
Qed.

(** ** Content-Length *)

(** What [ctrl_error] leaves. *)
Definition failed (error : Z) (w : world) : Prop :=
  cr_handler (w_cr w) = Some ErrorHandler /\ cr_status (w_cr w) = error /\ cr_close_conn (w_cr w) = true.

Lemma render_json_keeps root r r' : render_json_cb root r = Some r' -> exists t, r' = set_text t r.
Proof. unfold render_json_cb. destruct (bconf_get _ _) as [n|]; [|done]. intros [= <-]. by eexists. Qed.

Lemma ctrl_error_failed error msg w w' : ctrl_error error msg w = Some w' -> failed error w'.
Proof.
  unfold ctrl_error. intros Hw. destruct (bconf_add_data _ _ _) as [b1|]; [|done]. cbn [mbind option_bind] in Hw.
  destruct (bconf_add_data _ _ _) as [b2|]; [|done]. cbn [mbind option_bind] in Hw.
  destruct (_ =? 1); [|by simplify_eq]. unfold error_finish in Hw.
  destruct (render_json_cb _ _) as [r|] eqn:E; [|done]. cbn [mbind option_bind] in Hw. simplify_eq.
  by apply render_json_keeps in E as (t & ->).
Qed.

Definition body_length (s : list Z) (v : Z) : Prop := numeral s v /\ 0 <= v <= MAX_BODY_SIZE.

Lemma strtol_range s v e er (max : Z) : max < 2 ^ 63 - 1 -> strtol s = (v, e, er) -> s <> [] ->
  if er || (v <? 0) || (max <? v) || negb (bool_decide (e = [])) then forall u, string_to 0 max s <> (0, Some u)
  else string_to 0 max s = (0, Some v).
Proof.
  intros Hmax E Hne. unfold string_to. rewrite E.
  destruct (bool_decide_reflect (e = [])) as [->|He]; simpl negb; rewrite ?orb_true_r, ?orb_false_r; simpl.
  - rewrite (bool_decide_false ([] = s)) by done.
    destruct (v <? 0) eqn:E1; [rewrite !orb_true_r; by intros u|]. destruct (max <? v) eqn:E2; [rewrite !orb_true_r; by intros u|].
    rewrite !orb_false_r. destruct er; simpl; [|done]. intros u. exfalso.
    assert (v = 2 ^ 63 - 1 \/ v = - 2 ^ 63) as Hv.
    { revert E. unfold strtol. clear. destruct (match skip_space s with [] => _ | _ :: _ => _ end) as [neg t].
      destruct (span_digits t) as [[|d ds] rest]; [congruence|].
      destruct (_ <? - 2 ^ 63); [intros [= <- _]; auto|]. destruct (2 ^ 63 - 1 <? _); [intros [= <- _]; auto|congruence]. }
    apply Z.ltb_ge in E1, E2. lia.
  - intros u. by destruct (_ || _).
Qed.

(** A Content-Length header, in any case, sets the length of the body exactly
    when its value is a number between 0 and 100GB; any other value fails the
    request with status 400. *)
Theorem content_length_checked name value w w' :
  map tolower name = bytes "content-length" -> value <> [] ->
  cr_header_name (w_cr w) = name -> cr_header_value (w_cr w) = value -> finalize_header w = Some w' ->
  (forall v, body_length value v -> cr_content_length (w_cr w') = v /\ cr_handler (w_cr w') = cr_handler (w_cr w)) /\
  ((forall v, ~ body_length value v) -> failed 400 w').
Proof.
  intros Hn Hv En Ev Hw. unfold finalize_header in Hw. rewrite En, Ev in Hw.
  rewrite bool_decide_false in Hw by (intros ->; done). simpl negb in Hw. cbv iota in Hw. rewrite bool_decide_false in Hw by done.
  rewrite (proj2 (lookup_content_length name) Hn) in Hw. destruct (strtol value) as [[v e] er] eqn:Es.
  assert (MAX_BODY_SIZE < 2 ^ 63 - 1) as Hmax by (unfold MAX_BODY_SIZE; lia).
  pose proof (strtol_range value v e er MAX_BODY_SIZE Hmax Es Hv) as Hr.
  destruct (string_to_spec 0 MAX_BODY_SIZE value) as [Hs _]; [lia|lia|].
  destruct (er || (v <? 0) || (MAX_BODY_SIZE <? v) || negb (bool_decide (e = []))).
  - destruct (ctrl_error _ _ w) as [w1|] eqn:Ee; [|done]. cbn [mbind option_bind] in Hw. injection Hw as <-. split.
    + intros u Hu. by destruct (Hr u (proj2 (Hs u) Hu)).
    + intros _. exact (ctrl_error_failed _ _ _ _ Ee).
  - injection Hw as <-. apply Hs in Hr. split; [|intros Hno; by destruct (Hno v)].
    intros u Hu. split; [|done]. apply Hs in Hu. apply Hs in Hr. rewrite Hr in Hu. by injection Hu.
Qed.
End Headers.

(** * Every request is answered *)

(** The tree of an error. *)
Definition err_tree (status msg : list Z) : bconf_node :=
  mk_node [] NODE_LIST None false
    [mk_node (bytes "error") NODE_LIST None false
       [mk_node (bytes "message") NODE_VAL (Some msg) false []; mk_node (bytes "status") NODE_VAL (Some status) false []]].

(** Callbacks that answer with text, raw data, a status or an error.  The others
    are left out: they end the process when they are used wrongly. *)
Definition plain_action (a : action) : Prop :=
  match a with
  | ActError _ _ | ActStatus _ | ActClose | ActText _ | ActContentType _ | ActRaw _ => True
  | ActJson _ | ActHeader _ _ | ActHandlerData _ | ActBconf _ _ => False
  end.

Definition plain_cb (f : option (ctrl_req -> list action)) : Prop :=
  forall cb r, f = Some cb -> Forall plain_action (cb r).

Record good_handler (h : ctrl_handler) : Prop := {
  gh_url : exists segs, handler_pattern segs /\ h_url h = url_of segs;
  gh_start : plain_cb (h_start h);
  gh_consume cb r data : h_consume_post h = Some cb -> Forall plain_action (fst (cb r data));
  gh_finish r : Forall plain_action (h_finish h r);
  gh_cleanup : plain_cb (h_cleanup h)
}.

Section Answer.
Context `{!HttpParser} `{Pcre} {X : Type} `{!VtreeBackend X} (match_options : bool -> Z) (c : ctrl).
Context (Hhandlers : Forall good_handler (c_handlers c)).
Context (Hconf : forall n, c_conf c = Some n -> node_ok n).

Abbreviation exec := (execute (X := X) match_options c).

(** Paths have no bracket, which a client has to escape. *)
Definition good_event (e : hp_event) : Prop :=
  match e with
  | OnUrl _ at_ => forall path query, http_parser_parse_url at_ = inr (Some path, query) -> 60 ∉ path
  | _ => True
  end.

Record sound (w : world) : Prop := {
  so_bconf : cr_bconf (w_cr w) = None \/ exists s m, cr_bconf (w_cr w) = Some (err_tree s m);
  so_data : cr_handler_data (w_cr w) = None;
  so_qs sm : cr_qs (w_cr w) = Some sm -> sm_wf sm;
  so_handler i : cr_handler (w_cr w) = Some (Registered i) -> (i < length (c_handlers c))%nat
}.

(** Nothing is sent, and a handler stays a handler. *)
Record keeps (w w' : world) : Prop := {
  k_io : w_io w' = w_io w;
  k_sent : w_sent w' = w_sent w;
  k_handler : cr_handler (w_cr w) <> None -> cr_handler (w_cr w') <> None
}.

#[local] Instance keeps_preorder : PreOrder keeps.
Proof. split; [by intros w; split|]. intros w1 w2 w3 [] []. split; [congruence|congruence|auto]. Qed.

(** The computation returns a sound state from which nothing was sent. *)
Definition returns (w : world) (m : option world) : Prop := exists w', m = Some w' /\ sound w' /\ keeps w w'.

Lemma returns_upd f w : (forall r, cr_bconf (f r) = cr_bconf r /\ cr_handler_data (f r) = cr_handler_data r /\
    cr_qs (f r) = cr_qs r /\ cr_handler (f r) = cr_handler r) ->
  sound w -> returns w (Some (upd f w)).
Proof.
  intros Hf [B D Q Hh]. destruct (Hf (w_cr w)) as (E1 & E2 & E3 & E4). eexists. split; [done|]. split.
  - split; simpl; rewrite ?E1, ?E2, ?E3, ?E4; auto.
  - split; [done|done|]. simpl. by rewrite E4.
Qed.

Lemma returns_bind w m f : returns w m -> (forall w1, sound w1 -> keeps w w1 -> returns w1 (f w1)) ->
  returns w (m ≫= f).
Proof.
  intros (w1 & -> & S1 & K1) Hf. destruct (Hf w1 S1 K1) as (w2 & E & S2 & K2). exists w2. split; [done|]. split; [done|].
  by etrans.
Qed.

Lemma returns_ret w : sound w -> returns w (Some w).
Proof. intros Hs. by exists w. Qed.

Lemma replace_value k old st subs v : exists ret, bconf_add_dataX (mk_node k NODE_VAL (Some old) st subs) (Some v) BCONF_DUP =
  Some (ret, mk_node k NODE_VAL (Some v) st subs) /\ ret <> -1.
Proof.
  unfold bconf_add_dataX. simpl. eexists. split; [by destruct (_ <=? _)%nat|]. by destruct (decide _).
Qed.

Lemma add_status s m v : bconf_add_data (Some (err_tree s m)) (bytes "error.status") v = Some (err_tree v m).
Proof.
  destruct (replace_value (bytes "status") s false [] v) as (ret & E & Hret).
  unfold bconf_add_data, bconf_add_datav, bconf_add_datav_canfail.
  assert (forall f : bconf_node -> option (Z * bconf_node), bconf_lookup_addv (err_tree s m) (split_dots (bytes "error.status")) f =
    '(r, n) ← f (mk_node (bytes "status") NODE_VAL (Some s) false []);
    Some (Added (r, mk_node [] NODE_LIST None false [mk_node (bytes "error") NODE_LIST None false
       [mk_node (bytes "message") NODE_VAL (Some m) false []; n]]))) as Hl.
  { intros f. vm_compute. by destruct (f _) as [[? ?]|]. }
  unfold root_or_new. rewrite Hl, E. simpl. by rewrite (proj2 (Z.eqb_neq ret (-1)) Hret).
Qed.

Lemma add_message s m v : bconf_add_data (Some (err_tree s m)) (bytes "error.message") v = Some (err_tree s v).
Proof.
  destruct (replace_value (bytes "message") m false [] v) as (ret & E & Hret).
  unfold bconf_add_data, bconf_add_datav, bconf_add_datav_canfail.
  assert (forall f : bconf_node -> option (Z * bconf_node), bconf_lookup_addv (err_tree s m) (split_dots (bytes "error.message")) f =
    '(r, n) ← f (mk_node (bytes "message") NODE_VAL (Some m) false []);
    Some (Added (r, mk_node [] NODE_LIST None false [mk_node (bytes "error") NODE_LIST None false
       [n; mk_node (bytes "status") NODE_VAL (Some s) false []]]))) as Hl.
  { intros f. vm_compute. by destruct (f _) as [[? ?]|]. }
  unfold root_or_new. rewrite Hl, E. simpl. by rewrite (proj2 (Z.eqb_neq ret (-1)) Hret).
Qed.

Lemma ctrl_error_bconf b error msg : b = None \/ (exists s m, b = Some (err_tree s m)) ->
  (b ← bconf_add_data b (bytes "error.status") (print_dec error); bconf_add_data (Some b) (bytes "error.message") msg) =
  Some (err_tree (print_dec error) msg).
Proof.
  generalize (print_dec error). intros s [->|(s' & m & ->)]; [by vm_compute|]. rewrite add_status. apply add_message.
Qed.

Lemma error_finish_returns w : sound w -> returns w (error_finish w).
Proof.
  intros Hs. unfold error_finish, render_json_cb.
  assert (exists n, bconf_get (cr_bconf (w_cr w)) (bytes "error") = Some n) as [n ->].
  { destruct (so_bconf _ Hs) as [->|(s & m & ->)]; eexists; vm_compute; reflexivity. }
  cbn [mbind option_bind]. eexists. split; [done|]. split; [|by split].
  destruct Hs as [B D Q Hh]. by split.
Qed.

Lemma ctrl_error_returns error msg w : sound w ->
  exists w', ctrl_error error msg w = Some w' /\ sound w' /\ keeps w w' /\ cr_handler (w_cr w') <> None.
Proof.
  intros Hs. unfold ctrl_error. pose proof (ctrl_error_bconf _ error msg (so_bconf _ Hs)) as Eb.
  destruct (bconf_add_data (cr_bconf (w_cr w)) _ _) as [b|]; [|done]. cbn [mbind option_bind] in *. rewrite Eb.
  cbn [mbind option_bind]. set (w1 := upd _ w).
  assert (sound w1) as S1. { destruct Hs as [B D Q Hh]. split; simpl; eauto. done. }
  assert (keeps w w1) as K1 by (by split).
  destruct (_ =? 1).
  - destruct (error_finish_returns (upd (set_in_handler 2) w1)) as (w2 & E & S2 & K2).
    { destruct S1 as [B D Q Hh]. by split. }
    exists w2. split; [done|]. split; [done|]. split; [etrans; [exact K1|]; destruct K2; by split|]. by apply (k_handler _ _ K2).
  - by exists w1.
Qed.

Lemma run_actions_returns l : Forall plain_action l -> forall w, sound w -> returns w (run_actions l w).
Proof.
  induction 1 as [|a l Ha Hl IH]; intros w Hs; [by apply returns_ret|]. cbn [run_actions].
  apply returns_bind; [|auto]. destruct a; try done; cbn [run_action]; try (by apply returns_upd).
  destruct (ctrl_error_returns error msg w Hs) as (w' & ? & ? & ? & _). by exists w'.
Qed.

Lemma call_returns l h k w : Forall plain_action l -> sound w -> returns w (run_actions l (note h k w)).
Proof.
  intros Hl Hs. destruct (run_actions_returns l Hl (note h k w)) as (w' & E & S' & []); [by destruct Hs; split|].
  exists w'. by split; [|split; [|split]].
Qed.

(** The same for a callback of the parser; [P] is what its result says. *)
Definition answers (w : world) (m : option (Z * world)) (P : Z -> world -> Prop) : Prop :=
  exists ret w', m = Some (ret, w') /\ sound w' /\ keeps w w' /\ P ret w'.

Lemma answers_error w w0 error msg : sound w -> keeps w0 w ->
  answers w0 (w ← ctrl_error error msg w; Some (0, w)) (fun _ w' => cr_handler (w_cr w') <> None).
Proof.
  intros Hs Hk. destruct (ctrl_error_returns error msg w Hs) as (w' & -> & S' & K' & Hh). exists 0, w'.
  split; [done|]. split; [done|]. split; [by etrans|done].
Qed.

Lemma answers_returns w0 w m : keeps w0 w -> returns w m -> answers w0 (w' ← m; Some (0, w')) (fun _ w' => keeps w w').
Proof. intros Hk (w' & -> & S' & K'). exists 0, w'. split; [done|]. split; [done|]. split; [by etrans|done]. Qed.

Lemma find_handler_total l path : Forall good_handler l -> 60 ∉ path -> forall i,
  exists r, find_handler l i path = Some r /\ forall j ps, r = Some (j, ps) -> (j < i + length l)%nat.
Proof.
  intros Hl Hp. induction Hl as [|h l Hh Hl IH]; intros i; [by exists None|]. simpl.
  destruct (gh_url _ Hh) as (segs & Hpat & ->). destruct (match_handler_fills segs path Hpat Hp) as ([ps|] & -> & _); simpl.
  - eexists. split; [done|]. intros j ps' [= <- <-]. lia.
  - destruct (IH (S i)) as (r & -> & Hr). exists r. split; [done|]. intros j ps E. specialize (Hr j ps E). lia.
Qed.

Lemma found_star_ok path : forall n m, node_ok n -> find_star n path = Some m -> node_ok m.
Proof.
  induction path as [|k path IH]; simpl; intros n m Hn E; [by simplify_eq|].
  destruct (child n k) as [c'|] eqn:Ec; [eapply IH; [by eapply child_ok|done]|].
  destruct (child n star_key) as [c'|] eqn:Es; [|done]. eapply IH; [by eapply child_ok|done].
Qed.

Lemma acl_answers m path : exists acl b, bconf_get (c_conf c) (bytes "acl") = Some acl /\ check_acl (with_method m (c_conn c)) path acl = Some b.
Proof.
  assert (exists acl, bconf_get (c_conf c) (bytes "acl") = Some acl /\ forall n, acl = Some n -> node_ok n) as (acl & E & Hacl).
  { unfold bconf_get. destruct (c_conf c) as [n|] eqn:Ec; [|by exists None].
    rewrite get_loop_spec by (auto || valid_lit). eexists. split; [done|]. intros n'. by apply found_star_ok, Hconf. }
  destruct (check_acl_spec (with_method m (c_conn c)) path acl Hacl) as (b & Eb & _). eauto.
Qed.

Lemma handler_in i h : c_handlers c !! i = Some h -> good_handler h.
Proof. intros Hi. by eapply list.Forall_lookup_1. Qed.

Lemma use_params_returns found w : sound w -> returns w (use_params found w).
Proof.
  intros Hs. destruct found as [[j [|p ps]]|]; try by apply returns_ret. cbn [use_params].
  destruct (sm_insert_all_wf (T := tree stringpool_entry) (p :: ps) sm_new sm_new_wf) as (sm & -> & Hsm).
  cbn [mbind option_bind]. eexists. split; [done|]. destruct Hs as [B D Q Hh]. split; [|by split].
  split; [done|done| |done]. by intros ? [= <-].
Qed.

Lemma use_query_returns query w : sound w -> returns w (use_query (X := X) match_options query w).
Proof.
  intros Hs. destruct query as [q|]; [|by apply returns_ret]. cbn [use_query].
  destruct (parse_query_string_total (X := X) match_options (cstr q) false RUTF8_REQUIRE None) as (calls & ->).
  cbn [mbind option_bind]. unfold sm_calls.
  match goal with |- context [sm_insert_all ?sm0 ?l] => destruct (sm_insert_all_wf l sm0) as (sm & -> & Hsm) end.
  { destruct (cr_qs (w_cr w)) eqn:E; [by apply (so_qs _ Hs)|apply sm_new_wf]. }
  cbn [mbind option_bind]. eexists. split; [done|]. destruct Hs as [B D Q Hh]. split; [|by split].
  split; [done|done| |done]. by intros ? [= <-].
Qed.

Lemma call_start_returns h w : sound w -> returns w (call_start c h w).
Proof.
  intros Hs. unfold call_start. destruct h as [i|]; [|by apply returns_ret]. simpl.
  destruct (c_handlers c !! i) as [hand|] eqn:Ei; [|by apply returns_ret].
  destruct (h_start hand) as [start|] eqn:Est; [|by apply returns_ret].
  apply call_returns; [|done]. by apply (gh_start _ (handler_in _ _ Ei)).
Qed.

Lemma on_url_answers m at_ w : sound w -> good_event (OnUrl m at_) ->
  answers w (on_url (X := X) match_options c m at_ w) (fun _ w' => forall u, http_parser_parse_url at_ = inr u -> cr_handler (w_cr w') <> None).
Proof.
  intros Hs Hg. unfold on_url. unfold good_event in Hg. destruct (http_parser_parse_url at_) as [res|[[path|] query]].
  { exists res, (saw m at_ w). split; [done|]. split; [destruct Hs; by split|]. by split; [split|]. }
  all: assert (sound (saw m at_ w) /\ keeps w (saw m at_ w)) as [S0 K0] by (split; [destruct Hs; by split|by split]).
  2:{ destruct (answers_error (saw m at_ w) w 400 (bytes "on_url: no path") S0 K0) as (ret & w' & ? & ? & ? & ?). by exists ret, w'. }
  destruct (find_handler_total (c_handlers c) path Hhandlers (Hg path query eq_refl) 0) as (found & -> & Hfound).
  cbn [mbind option_bind]. destruct (acl_answers m path) as (acl & ok & -> & Hok). cbn [mbind option_bind]. rewrite Hok. cbn [mbind option_bind].
  assert (sound (use_handler found (saw m at_ w)) /\ keeps w (use_handler found (saw m at_ w))) as [S1 K1].
  { destruct found as [[j ps]|]; [|done]. destruct Hs as [B D Q Hh]. split; split; try done.
    intros i [= <-]. by apply (Hfound j ps). }
  set (w1 := use_handler found _) in *. clearbody w1.
  destruct (negb ok && negb (c_acl_disabled c)).
  { destruct (answers_error w1 w 403 (bytes "Forbidden (" ++ path ++ bytes ")") S1 K1) as (ret & w' & ? & ? & ? & ?). by exists ret, w'. }
  destruct (cr_handler (w_cr w1)) as [h|] eqn:Eh.
  2:{ destruct (answers_error w1 w 404 (bytes "unknown url (" ++ path ++ bytes ")") S1 K1) as (ret & w' & ? & ? & ? & ?). by exists ret, w'. }
  destruct (use_params_returns found (upd (set_custom_headers None) w1)) as (w2 & -> & S2 & K2).
  { destruct S1 as [B D Q Hh]. by split. }
  cbn [mbind option_bind]. destruct (call_start_returns h w2 S2) as (w3 & -> & S3 & K3). cbn [mbind option_bind].
  destruct (use_query_returns query w3 S3) as (w4 & -> & S4 & K4). cbn [mbind option_bind].
  exists 0, w4. split; [done|]. split; [done|].
  assert (keeps w1 w4) as K by (do 2 (etrans; [|eassumption]); destruct K2; by split).
  split; [by etrans|]. intros _ _. apply (k_handler _ _ K). by rewrite Eh.
Qed.

Lemma finalize_header_returns w : sound w -> returns w (finalize_header w).
Proof.
  intros Hs. assert (forall w0, sound w0 -> returns w0 (Some (reset_header w0))) as Hr by (intros; by apply returns_upd).
  assert (forall error msg, returns w (w ← ctrl_error error msg w; Some (reset_header w))) as He.
  { intros error msg. apply returns_bind; [|auto]. destruct (ctrl_error_returns error msg w Hs) as (w' & ? & ? & ? & _). by exists w'. }
  assert (forall w1, returns w (Some w1) -> returns w (Some (reset_header w1))) as Hr2.
  { intros w1 Hw. exact (returns_bind w (Some w1) (fun w => Some (reset_header w)) Hw (fun w0 S0 _ => Hr w0 S0)). }
  unfold finalize_header. destruct (negb _); [|by apply Hr].
  destruct (bool_decide (cr_header_value (w_cr w) = [])); [apply He|].
  destruct (lookup_ctrl_header _); [|apply Hr2..].
  - destruct (strtol _) as [[v e] er]. destruct (er || _ || _ || _); [apply He|]. apply Hr2. by apply returns_upd.
  - destruct (is_close _); [by apply returns_upd|by apply returns_ret].
  - by apply returns_upd.
  - by apply returns_ret.
Qed.

(** ** What is sent *)

Definition response_data (r : ctrl_req) : list Z := match cr_raw_response r with Some d => d | None => cr_text r end.

Definition response (r : ctrl_req) : list Z :=
  response_headers c r (BufString.size (response_data r)) ++ response_data r.

(** Every write takes at least a byte, and there are enough of them. *)
Definition progress (io : list Z) (n : nat) : Prop := Forall (fun r => 1 <= r) io /\ (n <= length io)%nat.

Lemma send_loop_spec fuel : forall data w, data <> [] -> (length data <= fuel)%nat -> exists k n,
  send_loop fuel data w = (drop k data, mk_world (w_cr w) (w_trace w) (drop n (w_io w)) (w_sent w ++ take k data)) /\
  (progress (w_io w) (length data) -> (length data <= k)%nat /\ (n <= length data)%nat).
Proof.
  induction fuel as [|fuel IH]; intros data [r t io sent] Hne Hf; [destruct data; simpl in *; [done|lia]|]. simpl.
  destruct io as [|x io].
  { exists 0%nat, 0%nat. rewrite take_0, app_nil_r, !drop_0. split; [done|]. intros [_ Hl]. destruct data; simpl in *; [done|lia]. }
  destruct (Z.ltb_spec x 1).
  { exists 0%nat, 1%nat. rewrite take_0, app_nil_r, drop_0. split; [done|]. intros [Hp _]. apply list.Forall_cons in Hp as [? _]. lia. }
  assert (1 <= length data)%nat by (destruct data; simpl; [done|lia]).
  pose proof (length_drop data (Z.to_nat x)) as El. destruct (drop (Z.to_nat x) data) as [|b rest] eqn:Ed.
  { exists (Z.to_nat x), 1%nat. rewrite Ed. split; [done|]. intros _. simpl in El. lia. }
  destruct (IH (b :: rest) (mk_world r t io (sent ++ take (Z.to_nat x) data))) as (k & n & -> & Hk); [done|lia|].
  exists (Z.to_nat x + k)%nat, (S n). simpl. split.
  - rewrite <- Ed, drop_drop, <- app_assoc, <- take_take_drop. done.
  - intros [Hp Hl]. apply list.Forall_cons in Hp as [_ Hp]. simpl in Hl, Hk, El. destruct Hk; [split; [done|lia]|]. lia.
Qed.

Lemma response_headers_ne r n : response_headers c r n <> [].
Proof. done. Qed.

Lemma send_response_spec w : exists k n,
  send_response c w = mk_world (w_cr w) (w_trace w) (drop n (w_io w)) (w_sent w ++ take k (response (w_cr w))) /\
  (progress (w_io w) (length (response (w_cr w))) -> (length (response (w_cr w)) <= k)%nat).
Proof.
  unfold send_response, response. fold (response_data (w_cr w)). set (d := response_data (w_cr w)).
  set (h := response_headers c (w_cr w) (BufString.size d)).
  destruct (send_loop_spec (length h) h w (response_headers_ne _ _)) as (k & n & E & Hk); [done|]. unfold send_all. rewrite E.
  rewrite length_app. destruct (drop k h) as [|b rest] eqn:Ed; cycle 1.
  { assert (k < length h)%nat as Hlt.
    { destruct (decide (length h <= k)%nat) as [Hge|]; [|lia]. by rewrite drop_ge in Ed. }
    exists k, n. rewrite take_app_le by lia. split; [done|]. intros [Hp Hl]. destruct Hk; [split; [done|lia]|]. lia. }
  assert (length h <= k)%nat as Hge.
  { destruct (decide (length h <= k)%nat); [done|].
    assert (length (drop k h) = 0%nat) as El by (by rewrite Ed). rewrite length_drop in El. lia. }
  destruct d as [|b rest] eqn:Edd.
  { exists k, n. rewrite app_nil_r. split; [done|]. intros _. cbn [length]. lia. }
  destruct (send_loop_spec (length (b :: rest)) (b :: rest) (mk_world (w_cr w) (w_trace w) (drop n (w_io w)) (w_sent w ++ take k h)))
    as (k' & n' & E' & Hk'); [done|done|]. rewrite E'. simpl snd.
  exists (length h + k')%nat, (n + n')%nat. split.
  - cbn [w_io w_cr w_trace w_sent]. rewrite drop_drop. f_equal. rewrite (take_ge h k) by done.
    rewrite <- app_assoc. f_equal. by rewrite take_app_add.
  - intros [Hp Hl]. destruct Hk as [_ Hn]; [split; [done|lia]|]. cbn [w_io] in Hk'. destruct Hk' as [Hk'' _]; [|lia].
    split; [by apply Forall_drop|]. rewrite length_drop. lia.
Qed.

(** ** The events *)

Lemma on_body_answers at_ w : sound w -> answers w (on_body c at_ w) (fun _ _ => True).
Proof.
  intros Hs. unfold on_body.
  assert (answers w (w ← ctrl_error 400 (bytes "POST data with no data handler.") w; Some (0, w)) (fun _ _ => True)) as He.
  { destruct (answers_error w w 400 (bytes "POST data with no data handler.") Hs) as (ret & w' & ? & ? & ? & _); [done|]. by exists ret, w'. }
  destruct (cr_handler (w_cr w)) as [[i|]|]; [| |exact He].
  - destruct (c_handlers c !! i) as [hand|] eqn:Ei; [|exact He]. cbn [mbind option_bind].
    destruct (h_consume_post hand) as [consume|] eqn:Ec; [|exact He]. destruct (consume (w_cr w) at_) as [acts ret] eqn:Ea.
    destruct (call_returns acts (Registered i) (Consume at_) w) as (w' & -> & S' & K'); [|done|].
    { pose proof (gh_consume _ (handler_in _ _ Ei) consume (w_cr w) at_ Ec) as Hp. by rewrite Ea in Hp. }
    by exists ret, w'.
  - exists 0, (note ErrorHandler (Consume at_) w). split; [done|]. destruct Hs as [B D Q Hh]. split; [by split|]. split; [by split|done].
Qed.

Lemma call_finish_returns h w : sound w -> cr_handler (w_cr w) = Some h -> returns w (call_finish c h w).
Proof.
  intros Hs Eh. destruct h as [i|]; simpl.
  - destruct (lookup_lt_is_Some_2 (c_handlers c) i) as [hand Ei]; [by apply (so_handler _ Hs)|]. rewrite Ei. cbn [mbind option_bind].
    apply call_returns; [|done]. apply (gh_finish _ (handler_in _ _ Ei)).
  - rewrite (so_data _ Hs). by apply error_finish_returns.
Qed.

Lemma call_cleanup_returns w : sound w -> returns w (call_cleanup c w).
Proof.
  intros Hs. unfold call_cleanup. destruct (cr_handler (w_cr w)) as [[i|]|]; simpl; try by apply returns_ret.
  destruct (c_handlers c !! i) as [hand|] eqn:Ei; cbn [mbind option_bind]; [|by apply returns_ret].
  destruct (h_cleanup hand) as [cl|] eqn:Ec; [|by apply returns_ret]. apply call_returns; [|done].
  by apply (gh_cleanup _ (handler_in _ _ Ei)).
Qed.

(** The end of a request whose handler is known. *)
Lemma on_message_complete_sends h w : sound w -> cr_handler (w_cr w) = Some h -> exists w1 w' k,
  call_finish c h (upd (set_in_handler 1) w) = Some w1 /\ on_message_complete c w = Some (0, w') /\
  sound w' /\ cr_handler (w_cr w') <> None /\ w_sent w' = w_sent w ++ take k (response (w_cr w1)) /\
  (progress (w_io w) (length (response (w_cr w1))) -> (length (response (w_cr w1)) <= k)%nat).
Proof.
  intros Hs Eh. unfold on_message_complete. rewrite Eh.
  destruct (call_finish_returns h (upd (set_in_handler 1) w)) as (w1 & E1 & S1 & [I1 O1 H1]); [by destruct Hs; split|done|].
  rewrite E1. cbn [mbind option_bind]. destruct (send_response_spec w1) as (k & n & E2 & Hk). rewrite E2.
  set (w2 := upd (set_text []) _).
  assert (sound w2) as S2 by (destruct S1; by split).
  destruct (call_cleanup_returns w2 S2) as (w3 & E3 & S3 & [I3 O3 H3]). rewrite E3. cbn [mbind option_bind].
  exists w1, (upd (set_message_completed true) w3), k. split; [done|]. split; [done|]. split; [by destruct S3; split|].
  split; [apply H3, H1; simpl; by rewrite Eh|]. simpl in *. split; [by rewrite O3, O1|]. by rewrite <- I1.
Qed.

Lemma hp_callback_answers e w : sound w -> good_event e -> e <> OnMessageComplete ->
  answers w (hp_callback (X := X) match_options c e w)
    (fun ret w' => forall m at_ u, e = OnUrl m at_ -> http_parser_parse_url at_ = inr u -> cr_handler (w_cr w') <> None).
Proof.
  intros Hs Hg He.
  assert (forall m, (forall m at_, e <> OnUrl m at_) -> answers w m (fun _ _ => True) -> answers w m
    (fun ret w' => forall m at_ u, e = OnUrl m at_ -> http_parser_parse_url at_ = inr u -> cr_handler (w_cr w') <> None)) as Hno.
  { intros m Hn (ret & w' & ? & ? & ? & _). exists ret, w'. repeat (split; [done|]). intros m' at_ u E. by apply Hn in E. }
  destruct e as [|m at_|at_|at_| |at_|]; simpl; [apply Hno; [done|]| |apply Hno; [done|]..|done].
  - exists 0, (upd (set_status 200) w). split; [done|]. destruct (returns_upd (set_status 200) w) as (w' & [= <-] & ? & ?); done.
  - destruct (on_url_answers m at_ w Hs Hg) as (ret & w' & E & S' & K' & Hh). exists ret, w'. split; [done|]. split; [done|]. split; [done|].
    intros m' at' u [= <- <-] Eu. by apply (Hh u).
  - unfold on_header_field.
    assert (returns w (match cr_header_state (w_cr w) with HS_VALUE => finalize_header w | HS_NONE | HS_FIELD => Some w end))
      as (w1 & E & S1 & K1) by (destruct (cr_header_state (w_cr w)); [by apply returns_ret|by apply finalize_header_returns|by apply returns_ret]).
    rewrite E. cbn [mbind option_bind]. eexists 0, _. split; [done|]. split; [by destruct S1; split|].
    split; [etrans; [exact K1|by split]|done].
  - unfold on_header_value. destruct (cr_header_state (w_cr w)); [by exists 1, w|..]; eexists 0, _;
      (split; [done|]; split; [by destruct Hs; split|]; split; [by split|done]).
  - unfold on_headers_complete. destruct (finalize_header_returns w Hs) as (w1 & -> & S1 & K1). by exists 0, w1.
  - by apply on_body_answers.
Qed.

Lemma exec_answers evs : Forall good_event evs -> OnMessageComplete ∉ evs -> forall w, sound w ->
  exists b w', exec evs w = Some (b, w') /\ sound w' /\ keeps w w' /\
    (b = true -> forall m at_ u, OnUrl m at_ ∈ evs -> http_parser_parse_url at_ = inr u -> cr_handler (w_cr w') <> None).
Proof.
  induction 1 as [|e evs Hg Hevs IH]; intros Hn w Hs.
  { exists true, w. repeat (split; [done|]). intros _ m at_ u H1. by apply not_elem_of_nil in H1. }
  apply not_elem_of_cons in Hn as [Hne Hn]. cbn [execute].
  destruct (hp_callback_answers e w Hs Hg) as (ret & w1 & -> & S1 & K1 & Hu); [congruence|]. cbn [mbind option_bind].
  destruct (ret =? 0); [|by exists false, w1].
  destruct (IH Hn w1 S1) as (b & w' & -> & S' & K' & Hh). exists b, w'. split; [done|]. split; [done|]. split; [by etrans|].
  intros Hb m at_ u [<-|Hin]%elem_of_cons Eu; [|by apply (Hh Hb m at_ u)]. apply (k_handler _ _ K'). by apply (Hu m at_ u).
Qed.

(** C28: Every request gets an answer, from a controller whose handlers have urls as in
    [handler_pattern] and callbacks that answer with text, raw data, a status or an error,
    and do not use JSON, custom headers, handler data or the tree of the request: whatever
    events the parser reports before the end of the message, with paths that have no '<', no
    callback crashes or ends the process; when all events were accepted the end of the message
    sends the response of the handler that was found, or of the error, and sends all of it if
    the writes make progress. *)
Theorem request_answered evs m at_ u io :
  Forall good_event evs -> OnMessageComplete ∉ evs -> OnUrl m at_ ∈ evs -> http_parser_parse_url at_ = inr u ->
  exists b w, exec evs (mk_world cr_init [] io []) = Some (b, w) /\ w_sent w = [] /\
    (b = true -> exists h w1 w' k, cr_handler (w_cr w) = Some h /\
       call_finish c h (upd (set_in_handler 1) w) = Some w1 /\
       on_message_complete c w = Some (0, w') /\ w_sent w' = take k (response (w_cr w1)) /\
       (progress io (length (response (w_cr w1))) -> w_sent w' = response (w_cr w1))).
Proof.
  intros Hg Hn Hin Hu. destruct (exec_answers evs Hg Hn (mk_world cr_init [] io [])) as (b & w & E & S & [I O _] & Hh).
  { split; [by left|done|done|done]. }
  exists b, w. split; [done|]. simpl in *. split; [done|]. intros Hb. specialize (Hh Hb m at_ u Hin Hu).
  destruct (cr_handler (w_cr w)) as [h|] eqn:Eh; [|done].
  destruct (on_message_complete_sends h w S Eh) as (w1 & w' & k & E1 & E2 & _ & _ & Es & Hp).
  rewrite O in Es. rewrite I in Hp. exists h, w1, w', k. repeat (split; [done|]). intros Hpr. rewrite Es. apply take_ge. auto.
Qed.
End Answer.

(** * Witnesses: a controller with one handler *)

(** A parser of plain urls: the path ends at a question mark. *)
Fixpoint split_query (at_ : list Z) : list Z * option (list Z) :=
  match at_ with
  | [] => ([], None)
  | ch :: at_ => if ch =? 63 then ([], Some at_) else let '(p, q) := split_query at_ in (ch :: p, q)
  end.

Definition plain_url (at_ : list Z) : Z + (option (list Z) * option (list Z)) :=
  match split_query at_ with ([], q) => inr (None, q) | (p, q) => inr (Some p, q) end.

Definition nocase_header (name : list Z) : ctrl_header :=
  if decide (map tolower name = bytes "content-length") then Content_Length
  else if decide (map tolower name = bytes "connection") then Connection
  else if decide (map tolower name = bytes "upgrade") then Upgrade else GPERF_CASE_NONE.

Lemma nocase_content_length name : nocase_header name = Content_Length <-> map tolower name = bytes "content-length".
Proof. unfold nocase_header. destruct (decide _); [done|]. split; [|done]. by repeat destruct (decide _). Qed.

Lemma plain_url_error at_ : plain_url at_ <> inl 0.
Proof. unfold plain_url. by destruct (split_query at_) as [[|] ?]. Qed.

Definition plain_parser : HttpParser := Build_HttpParser plain_url plain_url_error nocase_header nocase_content_length.

Definition echo_handler : ctrl_handler :=
  mk_handler (bytes "/user/<id>") None (Some (fun _ data => ([ActText data], 0))) (fun _ => [ActText (bytes "done")]) None None.

Definition sample_ctrl : ctrl :=
  mk_ctrl [echo_handler] None false (mk_conn (bytes "POST") (Some (bytes "::1")) None) (bytes "now").

Definition sample_events : list hp_event :=
  [OnMessageBegin; OnUrl (bytes "POST") (bytes "/user/7?a=b"); OnHeaderField (bytes "content-"); OnHeaderField (bytes "Length");
   OnHeaderValue (bytes "2"); OnHeadersComplete; OnBody (bytes "hi"); OnMessageComplete].

Abbreviation sample_request := (@handle_request plain_parser literal_pcre bconf_chain bconf_api (fun _ => 0) sample_ctrl None
  [ReadEvents sample_events true] false true (mk_world cr_init [] [1000; 1000] [])).

Lemma ctrl_access_checked_witness : exists f w later earlier, sample_request = Some (f, w) /\
  w_trace w = later ++ Called (Registered 0) (Consume (bytes "hi")) :: earlier /\
  exists m at_ before, urls earlier = (m, at_) :: before /\ @url_allowed plain_parser sample_ctrl m at_ /\
    (@url_matches plain_parser sample_ctrl at_ (Some 0%nat) \/
     before ≠ [] /\ @url_matches plain_parser sample_ctrl at_ None /\ @serves plain_parser sample_ctrl 0 before).
Proof.
  destruct (sample_request) as [[f w]|] eqn:E; [|vm_compute in E; discriminate E].
  exists f, w, [Called (Registered 0) Finish], [Url (bytes "POST") (bytes "/user/7?a=b")]. split; [reflexivity|].
  assert (w_trace w = [Called (Registered 0) Finish] ++ Called (Registered 0) (Consume (bytes "hi")) :: [Url (bytes "POST") (bytes "/user/7?a=b")]) as Ht.
  { vm_compute in E. injection E as _ <-. vm_compute. reflexivity. }
  split; [exact Ht|].
  exact (@ctrl_access_checked plain_parser literal_pcre bconf_chain bconf_api (fun _ => 0) sample_ctrl None
    [ReadEvents sample_events true] false true [1000; 1000] f w _ 0 (Consume (bytes "hi")) _ E Ht).
Defined.

(** A header in the request, as [on_headers_complete] finds it. *)
Definition with_header (name value : list Z) : world :=
  mk_world (set_header_value value (set_header_name name cr_init)) [] [] [].

Lemma content_length_checked_witness :
  (exists w, @finalize_header plain_parser (with_header (bytes "CONTENT-length") (bytes "12")) = Some w /\
     cr_content_length (w_cr w) = 12).
Proof.
  eexists. split; [vm_compute; reflexivity|].
  eapply (@content_length_checked plain_parser (bytes "CONTENT-length") (bytes "12")
    (with_header (bytes "CONTENT-length") (bytes "12")));
    [vm_compute; reflexivity|discriminate|reflexivity|reflexivity|vm_compute; reflexivity|].
  split; [|unfold MAX_BODY_SIZE; lia].
  apply (numeral_plain [] (bytes "12")); [constructor|]. split; [discriminate|]. vm_compute. repeat constructor.
Defined.

Lemma header_pieces_witness : forall w, exists w',
  @execute plain_parser literal_pcre bconf_chain bconf_api (fun _ => 0) sample_ctrl
    (concat (map chunks [([bytes "Up"; bytes "grade"], [bytes "x"; bytes "y"])])) (upd (fun _ => cr_init) w) = Some (true, w') /\
  cr_header_name (w_cr w') = bytes "Upgrade".
Proof.
  intros w. rewrite (@header_pieces plain_parser literal_pcre bconf_chain bconf_api (fun _ => 0) sample_ctrl).
  - eexists. split; vm_compute; reflexivity.
  - repeat constructor; discriminate.
Defined.

Lemma echo_handler_good : good_handler echo_handler.
Proof.
  split.
  - exists (map Lit (bytes "/user/") ++ [Var (bytes "id")]). split; [|by vm_compute].
    vm_compute. repeat (constructor || discriminate).
  - discriminate.
  - intros cb r data [= <-]. by repeat constructor.
  - intros r. by repeat constructor.
  - discriminate.
Qed.

Lemma request_answered_witness : exists w w',
  @execute plain_parser literal_pcre bconf_chain bconf_api (fun _ => 0) sample_ctrl
    [OnMessageBegin; OnUrl (bytes "POST") (bytes "/user/7")] (mk_world cr_init [] [7; 1000] []) = Some (true, w) /\
  @on_message_complete sample_ctrl w = Some (0, w') /\
  exists k w1, w_sent w' = take k (response sample_ctrl (w_cr w1)).
Proof.
  destruct (@request_answered plain_parser literal_pcre bconf_chain bconf_api (fun _ => 0) sample_ctrl)
    with (evs := [OnMessageBegin; OnUrl (bytes "POST") (bytes "/user/7")]) (m := bytes "POST") (at_ := bytes "/user/7") (u := (Some (bytes "/user/7"), None : option (list Z))) (io := [7; 1000])
    as (b & w & E & _ & H).
  - constructor; [exact echo_handler_good|constructor].
  - discriminate.
  - repeat constructor. intros path query [= <- <-]. apply (bool_decide_unpack _). vm_compute. exact I.
  - intros [?|[?|?%not_elem_of_nil]%elem_of_cons]%elem_of_cons; [discriminate|discriminate|done].
  - right. left.
  - vm_compute. reflexivity.
  - destruct b; [|vm_compute in E; discriminate E].
    destruct (H eq_refl) as (h & w1 & w' & k & _ & _ & E' & Es & _). exists w, w'. split; [exact E|]. split; [exact E'|].
    exists k, w1. exact Es.
Defined.

(** * An error after the handler has set its data *)

Definition data_handler : ctrl_handler :=
  mk_handler (bytes "/sum") (Some (fun _ => [ActHandlerData 1])) None (fun _ => []) None None.

Definition data_ctrl : ctrl := mk_ctrl [data_handler] None true (mk_conn (bytes "GET") None None) [].

(** A bad header of a request whose handler keeps data makes the error handler
    print the tree named by that data. *)
Theorem error_uses_handler_data :
  @execute plain_parser literal_pcre bconf_chain bconf_api (fun _ => 0) data_ctrl
    [OnMessageBegin; OnUrl (bytes "GET") (bytes "/sum"); OnHeaderField (bytes "Content-Length"); OnHeaderValue (bytes "x");
     OnHeadersComplete; OnMessageComplete] (mk_world cr_init [] [] []) = None.
Proof. vm_compute. reflexivity. Qed.

Definition cleaned_handler : ctrl_handler :=
  mk_handler (bytes "/c") None None (fun _ => [ActError 500 []]) (Some (fun _ => [])) None.

Definition cleaned_ctrl : ctrl := mk_ctrl [cleaned_handler] None true (mk_conn (bytes "GET") None None) [].

(** An error in the finish callback skips the cleanup of the handler. *)
Theorem error_skips_cleanup : exists w,
  @execute plain_parser literal_pcre bconf_chain bconf_api (fun _ => 0) cleaned_ctrl
    [OnMessageBegin; OnUrl (bytes "GET") (bytes "/c"); OnHeadersComplete; OnMessageComplete] (mk_world cr_init [] [] []) = Some (true, w) /\
  w_trace w = [Called ErrorHandler Finish; Called (Registered 0) Finish; Url (bytes "GET") (bytes "/c")].
Proof. eexists. split; vm_compute; reflexivity. Qed.

(** A second url, of the next request in the same read or of the rest of a split
    one, that no handler matches is served by the handler of the first. *)
Theorem pipelined_unknown_url : exists w,
  @execute plain_parser literal_pcre bconf_chain bconf_api (fun _ => 0) cleaned_ctrl
    [OnMessageBegin; OnUrl (bytes "GET") (bytes "/c"); OnUrl (bytes "GET") (bytes "/unknown"); OnHeadersComplete] (mk_world cr_init [] [] []) = Some (true, w) /\
  cr_handler (w_cr w) = Some (Registered 0) /\ cr_status (w_cr w) = 200.
Proof. eexists. split; [vm_compute; reflexivity|]. by split. Qed.
