(* ===== verification/ControllerThreads.v ===== *)
(** ControllerThreads: the threads of the controller in src/core/lib/controller.c
    and what they do with connections: the listen thread turns events into jobs,
    the workers serve the jobs, and a connection kept alive becomes an event
    again.

    A step of [step] is what a thread does while it holds a lock, or one call
    that needs none; the workers check for jobs and go to sleep in one step,
    because the condition variable releases the lock they hold.  Descriptors are
    numbers; [t_open] are those the process has open and [t_bad] those that
    were closed when they were not open.  What a request does is modelled in Controller;
    here it is its outcome. *)
From stdpp Require Import prelude list numbers relations.
From Stdlib Require Import ZArith Lia.
From S2P Require Import Prelude.

Local Open Scope Z_scope.

(** * State *)

(** The callback of an event handler. *)
Inductive event_cb := AcceptEvent | CloseEvent | ReadEvent.

#[export] Instance event_cb_eq_dec : EqDecision event_cb.
Proof. solve_decision. Defined.

(** [WStart] has not looked for jobs yet, [WAwake] is about to, after it woke up
    or finished a request. *)
Inductive wstate := WStart | WWaiting | WAwake | WServing (fd : Z) | WExited.

#[export] Instance wstate_eq_dec : EqDecision wstate.
Proof. solve_decision. Defined.

Record threads := mk_threads {
  t_quit : bool;
  t_joined : bool;                       (* the listen thread has ended *)
  t_listen : option Z;                   (* listen_socket, None when it is -1 *)
  t_closefd1 : option Z;                 (* closefd[1], None when it is -1 *)
  t_events : list (event_cb * Z);        (* event_list *)
  t_jobs : list Z;                       (* job_list *)
  t_workers : list wstate;
  t_given : list Z;                      (* descriptors that an upgrade callback took *)
  t_open : list Z;
  t_bad : list Z
}.

(** * Operations *)

Fixpoint remove_one (fd : Z) (l : list Z) : option (list Z) :=
  match l with
  | [] => None
  | x :: l => if decide (x = fd) then Some l else cons x <$> remove_one fd l
  end.

(** close(2). *)
Definition close (fd : Z) (s : threads) : threads :=
  let '(o, bad) := match remove_one fd (t_open s) with Some o => (o, t_bad s) | None => (t_open s, fd :: t_bad s) end in
  mk_threads (t_quit s) (t_joined s) (t_listen s) (t_closefd1 s) (t_events s) (t_jobs s) (t_workers s) (t_given s) o bad.

Definition set_events (l : list (event_cb * Z)) (s : threads) : threads :=
  mk_threads (t_quit s) (t_joined s) (t_listen s) (t_closefd1 s) l (t_jobs s) (t_workers s) (t_given s) (t_open s) (t_bad s).

Definition set_jobs (l : list Z) (s : threads) : threads :=
  mk_threads (t_quit s) (t_joined s) (t_listen s) (t_closefd1 s) (t_events s) l (t_workers s) (t_given s) (t_open s) (t_bad s).

Definition set_workers (l : list wstate) (s : threads) : threads :=
  mk_threads (t_quit s) (t_joined s) (t_listen s) (t_closefd1 s) (t_events s) (t_jobs s) l (t_given s) (t_open s) (t_bad s).

Definition set_worker (i : nat) (w : wstate) (s : threads) : threads := set_workers (<[i := w]> (t_workers s)) s.

(** [pthread_cond_signal] wakes a worker that waits, if there is one. *)
Definition queue_job_and_signal (fd : Z) (woken : option nat) (s : threads) : threads :=
  let s := set_jobs (t_jobs s ++ [fd]) s in
  match woken with Some i => set_worker i WAwake s | None => s end.

Definition signals (s : threads) (woken : option nat) : Prop :=
  match woken with
  | Some i => t_workers s !! i = Some WWaiting
  | None => WWaiting ∉ t_workers s
  end.

Definition accept_event (fd : Z) (woken : option nat) (s : threads) : threads :=
  let s := mk_threads (t_quit s) (t_joined s) (t_listen s) (t_closefd1 s) (t_events s) (t_jobs s) (t_workers s) (t_given s)
             (fd :: t_open s) (t_bad s) in
  queue_job_and_signal fd woken s.

Definition read_event (n : nat) (fd : Z) (woken : option nat) (s : threads) : threads :=
  queue_job_and_signal fd woken (set_events (delete n (t_events s)) s).

Definition close_event (n : nat) (s : threads) : threads := set_events (delete n (t_events s)) s.

(** [ok] is whether the descriptor could be added to the event set. *)
Definition event_add (cb : event_cb) (fd : Z) (ok : bool) (s : threads) : threads :=
  if negb (t_quit s) && negb ok then close fd s
  else set_events (t_events s ++ [(cb, fd)]) s.

(** The loop of [worker_thread] with the job lock held: take the first job, or
    leave, or wait for the condition. *)
Definition worker_turn (i : nat) (first : bool) (s : threads) : threads :=
  if first && t_quit s then set_worker i WExited s
  else
    match t_jobs s with
    | fd :: jobs => set_worker i (WServing fd) (set_jobs jobs s)
    | [] => set_worker i (if t_quit s then WExited else WWaiting) s
    end.

(** How a request ended. *)
Inductive outcome := Keepalive (added : bool) | Close | Given.

Definition worker_done (i : nat) (fd : Z) (o : outcome) (s : threads) : threads :=
  let s := match o with
           | Keepalive ok => event_add ReadEvent fd ok s
           | Close => close fd s
           | Given =>
             mk_threads (t_quit s) (t_joined s) (t_listen s) (t_closefd1 s) (t_events s) (t_jobs s) (t_workers s)
               (fd :: t_given s) (t_open s) (t_bad s)
           end in
  set_worker i WAwake s.

Definition close_opt (fd : option Z) (s : threads) : threads := match fd with Some fd => close fd s | None => s end.

(** [quit_listen_thread_and_broadcast] up to the join. *)
Definition quit_listen (close_listen : bool) (s : threads) : threads :=
  let s := close_opt (t_closefd1 s) s in
  let s := if close_listen then close_opt (t_listen s) s else s in
  mk_threads true (t_joined s) (if close_listen then None else t_listen s) None (t_events s) (t_jobs s) (t_workers s)
    (t_given s) (t_open s) (t_bad s).

(** The join and the broadcast. *)
Definition join_and_broadcast (s : threads) : threads :=
  mk_threads (t_quit s) true (t_listen s) (t_closefd1 s) (t_events s) (t_jobs s)
    (map (fun w => match w with WWaiting => WAwake | w => w end) (t_workers s)) (t_given s) (t_open s) (t_bad s).

(** [ctrl_quit_stage_two]; [closefd0] is closefd[0]. *)
Definition ctrl_quit_stage_two (closefd0 : Z) (s : threads) : threads :=
  let s := close_opt (t_listen s) s in
  let s := fold_left (fun s e => close (snd e) s) (t_events s) s in
  close_opt (t_closefd1 s) (close closefd0 (set_events [] s)).

(** [ctrl_setup] and the start of [listen_thread]. *)
Definition ctrl_start (listen closefd0 closefd1 : Z) (nthr : nat) : threads :=
  mk_threads false false (Some listen) (Some closefd1) [(AcceptEvent, listen); (CloseEvent, closefd0)] []
    (replicate nthr WStart) [] [listen; closefd0; closefd1] [].

Inductive step : threads -> threads -> Prop :=
  | step_accept s fd woken : t_joined s = false -> is_Some (t_listen s) -> (fd ∉ t_open s) -> signals s woken ->
      step s (accept_event fd woken s)
  | step_read s n fd woken : t_joined s = false -> t_events s !! n = Some (ReadEvent, fd) -> signals s woken ->
      step s (read_event n fd woken s)
  | step_close s n fd : t_joined s = false -> t_events s !! n = Some (CloseEvent, fd) -> t_closefd1 s = None ->
      step s (close_event n s)
  | step_start s i : t_workers s !! i = Some WStart -> step s (worker_turn i true s)
  | step_awake s i : t_workers s !! i = Some WAwake -> step s (worker_turn i false s)
  | step_done s i fd o : t_workers s !! i = Some (WServing fd) -> step s (worker_done i fd o s)
  | step_quit s b : t_quit s = false -> step s (quit_listen b s)
  | step_join s : t_quit s = true -> t_joined s = false -> step s (join_and_broadcast s).

(** From the start to the end of [ctrl_quit_stage_two], which is called when
    [ctrl_quit_stage_one] has joined the listen thread and the workers; it joins the
    worker that called it, if one did. *)
Inductive life := Running (s : threads) | Ended (s : threads).

Inductive life_step (closefd0 : Z) : life -> life -> Prop :=
  | life_runs s s' : step s s' -> life_step closefd0 (Running s) (Running s')
  | life_ends s : t_joined s = true -> Forall (fun w => w = WExited) (t_workers s) ->
      life_step closefd0 (Running s) (Ended (ctrl_quit_stage_two closefd0 s)).

(** * Connections are conserved *)

Definition read_fd (e : event_cb * Z) : list Z := match e with (ReadEvent, fd) => [fd] | _ => [] end.
Definition serving_fd (w : wstate) : list Z := match w with WServing fd => [fd] | _ => [] end.

(** Where the connections are. *)
Definition connections (s : threads) : list Z :=
  concat (map read_fd (t_events s)) ++ t_jobs s ++ concat (map serving_fd (t_workers s)) ++ t_given s.

Definition option_list (o : option Z) : list Z := match o with Some x => [x] | None => [] end.

(** The descriptors of the controller itself. *)
Definition own_fds (closefd0 : Z) (s : threads) : list Z := closefd0 :: option_list (t_listen s) ++ option_list (t_closefd1 s).

Record fds_ok (closefd0 : Z) (s : threads) : Prop := {
  fo_open : t_open s ≡ₚ own_fds closefd0 s ++ connections s;
  fo_nodup : NoDup (t_open s);
  fo_bad : t_bad s = []
}.

Lemma remove_one_perm fd l : fd ∈ l -> exists l', remove_one fd l = Some l' /\ l ≡ₚ fd :: l'.
Proof.
  induction l as [|x l IH]; [by intros ?%not_elem_of_nil|]. intros Hin. simpl. destruct (decide (x = fd)) as [->|Hne]; [by exists l|].
  apply elem_of_cons in Hin as [->|Hin]; [done|]. destruct (IH Hin) as (l' & -> & Hp). exists (x :: l'). split; [done|].
  rewrite Hp. apply Permutation_swap.
Qed.

(** Closing a descriptor that is open takes it away. *)
Lemma close_open fd s rest : t_open s ≡ₚ fd :: rest -> NoDup (t_open s) -> t_bad s = [] ->
  exists o, close fd s = mk_threads (t_quit s) (t_joined s) (t_listen s) (t_closefd1 s) (t_events s) (t_jobs s) (t_workers s) (t_given s) o [] /\
    o ≡ₚ rest /\ NoDup o.
Proof.
  intros Hp Hn Hb. unfold close. destruct (remove_one_perm fd (t_open s)) as (o & -> & Ho).
  { rewrite Hp. left. }
  exists o. rewrite Hb. split; [done|]. assert (o ≡ₚ rest) as E by (apply (Permutation_cons_inv (a := fd)); by rewrite <- Ho).
  split; [done|]. rewrite Ho in Hn. by apply NoDup_cons in Hn as [_ ?].
Qed.

Lemma concat_map_insert {A} (f : A -> list Z) (l : list A) i x : l !! i = Some x -> exists rest,
  concat (map f l) ≡ₚ f x ++ rest /\ forall y, concat (map f (<[i := y]> l)) ≡ₚ f y ++ rest.
Proof.
  intros Hi. exists (concat (map f (take i l)) ++ concat (map f (drop (S i) l))).
  assert (forall y, concat (map f (take i l ++ y :: drop (S i) l)) ≡ₚ f y ++ concat (map f (take i l)) ++ concat (map f (drop (S i) l))) as Hy.
  { intros y. rewrite map_app, concat_app. simpl. rewrite Permutation_app_swap_app. done. }
  split.
  - rewrite <- (take_drop_middle l i x Hi) at 1. apply Hy.
  - intros y. rewrite insert_take_drop by (by eapply lookup_lt_Some). apply Hy.
Qed.

Lemma concat_map_delete {A} (f : A -> list Z) (l : list A) i x : l !! i = Some x ->
  concat (map f l) ≡ₚ f x ++ concat (map f (delete i l)).
Proof.
  intros Hi. rewrite <- (take_drop_middle l i x Hi) at 1. rewrite delete_take_drop, !map_app, !concat_app. simpl.
  by rewrite Permutation_app_swap_app.
Qed.

Section Conserved.
Context (closefd0 : Z).

Abbreviation ok := (fds_ok closefd0).

(** Moving connections between the lists changes nothing else. *)
Lemma ok_moved s s' : ok s -> t_open s' = t_open s -> t_bad s' = t_bad s -> t_listen s' = t_listen s ->
  t_closefd1 s' = t_closefd1 s -> connections s' ≡ₚ connections s -> ok s'.
Proof.
  intros [Ho Hn Hb] E1 E2 E3 E4 Hc. unfold own_fds in *. split; [|by rewrite E1|by rewrite E2].
  unfold own_fds. by rewrite E1, E3, E4, Hc.
Qed.

Lemma worker_swap s i w w' : t_workers s !! i = Some w -> exists rest,
  connections s ≡ₚ serving_fd w ++ rest /\ connections (set_worker i w' s) ≡ₚ serving_fd w' ++ rest.
Proof.
  intros Hi. destruct (concat_map_insert serving_fd (t_workers s) i w Hi) as (rest & H1 & H2). unfold connections. simpl.
  exists (concat (map read_fd (t_events s)) ++ t_jobs s ++ rest ++ t_given s). rewrite H1, H2.
  split; rewrite <- !app_assoc; by rewrite (Permutation_app_swap_app (t_jobs s)), Permutation_app_swap_app.
Qed.

Lemma queue_conserves fd woken s : signals s woken ->
  connections (queue_job_and_signal fd woken s) ≡ₚ fd :: connections s.
Proof.
  intros Hw. unfold queue_job_and_signal. set (s1 := set_jobs _ s).
  assert (connections s1 ≡ₚ fd :: connections s) as H1.
  { unfold connections; simpl. rewrite <- app_assoc. simpl. by rewrite <- !Permutation_middle. }
  destruct woken as [i|]; [|done]. destruct (worker_swap s1 i WWaiting WAwake Hw) as (rest & E1 & E2). simpl in *.
  by rewrite E2, <- E1.
Qed.

Lemma ok_accept fd woken s : ok s -> (fd ∉ t_open s) -> signals s woken -> ok (accept_event fd woken s).
Proof.
  intros [Ho Hn Hb] Hfd Hw. unfold accept_event. set (s1 := mk_threads _ _ _ _ _ _ _ _ _ _).
  assert (connections (queue_job_and_signal fd woken s1) ≡ₚ fd :: connections s1) as Hc by (by apply queue_conserves).
  assert (connections s1 = connections s) as E by done. unfold queue_job_and_signal in *.
  assert (fd :: t_open s ≡ₚ own_fds closefd0 s ++ fd :: connections s) as Hp by (by rewrite <- Permutation_middle, Ho).
  destruct woken; (split; [rewrite Hc, E; exact Hp|by apply NoDup_cons|done]).
Qed.

Lemma ok_close fd s rest : ok s -> connections s ≡ₚ fd :: rest -> forall s',
  connections s' ≡ₚ rest -> t_open s' = t_open (close fd s) -> t_bad s' = t_bad (close fd s) ->
  t_listen s' = t_listen s -> t_closefd1 s' = t_closefd1 s -> ok s'.
Proof.
  intros [Ho Hn Hb] Hc s' Hc' E1 E2 E3 E4.
  destruct (close_open fd s (own_fds closefd0 s ++ rest)) as (o & E & Hp & Ho'); [|done|done|].
  { rewrite Ho, Hc. by rewrite Permutation_middle. }
  rewrite E in E1, E2. simpl in *. split; [|by rewrite E1|by rewrite E2].
  rewrite E1, Hp, Hc'. unfold own_fds. by rewrite E3, E4.
Qed.

Lemma ok_worker_turn i first s w : ok s -> t_workers s !! i = Some w -> serving_fd w = [] -> ok (worker_turn i first s).
Proof.
  intros Hok Hi Hw. unfold worker_turn.
  assert (forall w', serving_fd w' = [] -> ok (set_worker i w' s)) as Hset.
  { intros w' Hw'. eapply ok_moved; [exact Hok|done|done|done|done|].
    destruct (worker_swap s i w w' Hi) as (rest & E1 & E2). by rewrite E1, E2, Hw, Hw'. }
  destruct (first && t_quit s); [by apply Hset|]. destruct (t_jobs s) as [|fd jobs] eqn:Ej.
  { destruct (t_quit s); by apply Hset. }
  eapply ok_moved; [exact Hok|done|done|done|done|].
  destruct (worker_swap (set_jobs jobs s) i w (WServing fd) Hi) as (rest & E1 & E2). rewrite E2.
  rewrite Hw in E1. simpl in E1 |- *. rewrite <- E1. unfold connections. simpl. rewrite Ej. simpl. by rewrite Permutation_middle.
Qed.

Lemma ok_worker_done i fd o s : ok s -> t_workers s !! i = Some (WServing fd) -> ok (worker_done i fd o s).
Proof.
  intros Hok Hi. unfold worker_done.
  destruct (worker_swap s i (WServing fd) WAwake Hi) as (rest & E1 & E2). simpl in E1, E2.
  assert (ok (set_worker i WAwake (close fd s))) as Hclose.
  { assert (connections (set_worker i WAwake (close fd s)) = connections (set_worker i WAwake s)) as Ec
      by (unfold close; by destruct (remove_one _ _)).
    eapply (ok_close fd s rest); [done|done|by rewrite Ec|done|done|..]; unfold close; destruct (remove_one _ _); reflexivity. }
  destruct o as [added| |]; [|exact Hclose|].
  - unfold event_add. destruct (negb (t_quit s) && negb added); [exact Hclose|].
    eapply ok_moved; [exact Hok|done|done|done|done|]. rewrite E1, <- E2. unfold connections; simpl.
    rewrite map_app, concat_app. simpl. rewrite <- app_assoc. simpl. symmetry. apply Permutation_middle.
  - eapply ok_moved; [exact Hok|done|done|done|done|]. rewrite E1, <- E2. unfold connections; simpl.
    by rewrite <- !Permutation_middle.
Qed.

Lemma ok_quit b s : ok s -> ok (quit_listen b s).
Proof.
  intros [Ho Hn Hb]. unfold own_fds in Ho. unfold quit_listen.
  assert (exists o1, close_opt (t_closefd1 s) s = mk_threads (t_quit s) (t_joined s) (t_listen s) (t_closefd1 s) (t_events s) (t_jobs s) (t_workers s) (t_given s) o1 [] /\
    o1 ≡ₚ closefd0 :: option_list (t_listen s) ++ connections s /\ NoDup o1) as (o1 & -> & H1 & N1).
  { destruct (t_closefd1 s) as [fd|] eqn:Ec; simpl in *.
    - destruct (close_open fd s (closefd0 :: option_list (t_listen s) ++ connections s)) as (o & -> & Hp & No); [|done|done|by exists o; rewrite Ec].
      rewrite Ho. simpl. rewrite <- app_assoc. simpl. rewrite <- Permutation_middle. apply Permutation_swap.
    - exists (t_open s). rewrite app_nil_r in Ho. destruct s; simpl in *. by subst. }
  destruct b; cbn [t_listen].
  - destruct (t_listen s) as [fd|] eqn:El; simpl.
    + match goal with |- context [close fd ?s1] =>
        destruct (close_open fd s1 (closefd0 :: connections s)) as (o & -> & Hp & No); [|done|done|] end.
      { simpl. rewrite H1. simpl. apply Permutation_swap. }
      by split.
    + by split.
  - split; [|done|done]. unfold own_fds. cbn [t_open t_listen t_closefd1 option_list]. rewrite app_nil_r. exact H1.
Qed.

Lemma ok_step s s' : ok s -> step s s' -> ok s'.
Proof.
  intros Hok. destruct 1 as [s fd woken Hj Hl Hfd Hw|s n fd woken Hj Hn Hw|s n fd Hj Hn Hc|s i Hi|s i Hi|s i fd o Hi|s b Hq|s Hq Hj].
  - by apply ok_accept.
  - eapply ok_moved; [exact Hok|..].
    1-4: by destruct woken. 
    unfold read_event. rewrite queue_conserves by (by destruct woken). unfold connections; simpl.
    by rewrite (concat_map_delete read_fd _ _ _ Hn).
  - eapply ok_moved; [exact Hok|done|done|done|done|]. unfold connections; simpl. by rewrite (concat_map_delete read_fd _ _ _ Hn).
  - by eapply ok_worker_turn.
  - by eapply ok_worker_turn.
  - by apply ok_worker_done.
  - by apply ok_quit.
  - eapply ok_moved; [exact Hok|done|done|done|done|]. unfold connections; simpl.
    rewrite map_map. erewrite (map_ext _ serving_fd); [done|]. by intros [].
Qed.
End Conserved.

Lemma fds_reachable listen closefd0 closefd1 nthr s :
  NoDup [listen; closefd0; closefd1] -> rtc step (ctrl_start listen closefd0 closefd1 nthr) s -> fds_ok closefd0 s.
Proof.
  intros Hn Hr. remember (ctrl_start listen closefd0 closefd1 nthr) as s0 eqn:E0.
  assert (fds_ok closefd0 s0) as H0.
  { subst s0. split; [|done|done]. unfold connections, own_fds. simpl. rewrite app_nil_r.
    assert (concat (map serving_fd (replicate nthr WStart)) = []) as -> by (clear; by induction nthr).
    apply Permutation_swap. }
  clear E0. induction Hr as [|s0 s1 s2 H1 _ IH]; [done|]. apply IH. by eapply ok_step.
Qed.

(** * Workers wake up *)

Definition is_awake (w : wstate) : bool := match w with WAwake | WStart => true | _ => false end.

(** How many elements of a list a test accepts. *)
Definition count_if {A} (P : A -> bool) (l : list A) : nat := length (List.filter P l).

(** While a worker sleeps, there is an awake worker for every queued job, until
    the controller quits; and nobody sleeps after the broadcast. *)
Record wakes (s : threads) : Prop := {
  wk_jobs : t_quit s = false -> WWaiting ∈ t_workers s -> (length (t_jobs s) <= count_if is_awake (t_workers s))%nat;
  wk_joined : t_joined s = true -> (WWaiting ∉ t_workers s) /\ t_quit s = true
}.

Lemma count_insert {A} (P : A -> bool) (l : list A) i x y : l !! i = Some x ->
  (count_if P (<[i := y]> l) + Nat.b2n (P x) = count_if P l + Nat.b2n (P y))%nat.
Proof.
  unfold count_if. intros Hi. rewrite <- (take_drop_middle l i x Hi) at 2. rewrite insert_take_drop by (by eapply lookup_lt_Some).
  rewrite !List.filter_app, !length_app. simpl. destruct (P x), (P y); simpl; lia.
Qed.

Lemma elem_of_insert_other {A} (l : list A) i (y z : A) : z ∈ <[i := y]> l -> z <> y -> z ∈ l.
Proof.
  intros Hz Hne. apply list_elem_of_lookup in Hz as [j Hj]. apply list_lookup_insert_Some in Hj as [(_ & -> & _)|[_ Hj]]; [done|].
  by eapply list_elem_of_lookup_2.
Qed.

Lemma wakes_queue fd woken s s1 : wakes s -> t_joined s = false -> signals s woken ->
  t_workers s1 = t_workers s -> t_jobs s1 = t_jobs s -> t_joined s1 = t_joined s -> t_quit s1 = t_quit s ->
  wakes (queue_job_and_signal fd woken s1).
Proof.
  intros [Hj _] Hn Hw Ew Ej En Eq. unfold queue_job_and_signal. destruct woken as [i|]; simpl in Hw.
  - split; [|simpl; congruence]. simpl. rewrite Ew, Ej, Eq, length_app. intros Hq _.
    pose proof (count_insert is_awake (t_workers s) i WWaiting WAwake Hw) as E.
    specialize (Hj Hq (list_elem_of_lookup_2 _ _ _ Hw)). simpl in *. lia.
  - split; simpl; [by rewrite Ew|congruence].
Qed.

(** A worker that goes on to something else than sleeping wakes nobody up and
    takes at most its own job. *)
Lemma wakes_worker i s s1 w w' : wakes s -> t_workers s !! i = Some w -> w' <> WWaiting ->
  t_workers s1 = <[i := w']> (t_workers s) -> t_quit s1 = t_quit s -> t_joined s1 = t_joined s ->
  (t_quit s = false -> length (t_jobs s1) + Nat.b2n (is_awake w) <= length (t_jobs s) + Nat.b2n (is_awake w'))%nat -> wakes s1.
Proof.
  intros [Hj Hq] Hi Hw' Ew Eq En Hl. pose proof (count_insert is_awake _ i w w' Hi) as Hc. split; rewrite Ew.
  - rewrite Eq. intros Hf Hin%elem_of_insert_other; [|done]. specialize (Hj Hf Hin). specialize (Hl Hf). lia.
  - rewrite En, Eq. intros H1. destruct (Hq H1) as [Hn ?]. split; [|done]. intros Hin%elem_of_insert_other; done.
Qed.

Lemma wakes_turn i first s w : wakes s -> t_workers s !! i = Some w -> is_awake w = true -> wakes (worker_turn i first s).
Proof.
  intros Hs Hi Hw. unfold worker_turn. destruct (first && t_quit s) eqn:Ef.
  - apply andb_prop in Ef as [_ Ef]. eapply wakes_worker; [exact Hs|exact Hi| |done|done|done|]; [done|congruence].
  - destruct (t_jobs s) as [|fd jobs] eqn:Ej.
    + destruct (t_quit s) eqn:Eq; [eapply wakes_worker; [exact Hs|exact Hi| |done|done|done|]; [done|congruence]|].
      destruct Hs as [_ Hq]. split; simpl; [rewrite Ej; simpl; lia|]. intros H1. destruct (Hq H1). congruence.
    + eapply wakes_worker; [exact Hs|exact Hi| |done|done|done|]; [done|]. rewrite Hw, Ej. simpl. lia.
Qed.

Lemma wakes_step s s' : wakes s -> step s s' -> wakes s'.
Proof.
  intros Hs. destruct 1 as [s fd woken Hj Hl Hfd Hw|s n fd woken Hj Hn Hw|s n fd Hj Hn Hc|s i Hi|s i Hi|s i fd o Hi|s b Hq|s Hq Hj].
  - by eapply wakes_queue.
  - by eapply wakes_queue.
  - destruct Hs. by split.
  - by eapply wakes_turn.
  - by eapply wakes_turn.
  - assert (exists s1, worker_done i fd o s = set_worker i WAwake s1 /\ t_workers s1 = t_workers s /\ t_jobs s1 = t_jobs s /\
      t_quit s1 = t_quit s /\ t_joined s1 = t_joined s) as (s1 & -> & E1 & E2 & E3 & E4).
    { eexists. split; [done|]. destruct o; [unfold event_add; case_match|..]; unfold close; try case_match; done. }
    eapply wakes_worker; [exact Hs|exact Hi| |simpl; by rewrite E1|done|done|]; [done|]. simpl. rewrite E2. lia.
  - destruct Hs as [_ Hs]. assert (t_joined (quit_listen b s) = t_joined s) as Ej.
    { unfold quit_listen, close_opt, close. destruct b, (t_closefd1 s), (t_listen s) eqn:El; repeat (simpl; case_match); done. }
    split; [done|]. rewrite Ej. intros H1. by destruct (Hs H1); congruence.
  - split; simpl; [congruence|]. intros _. split; [|done]. intros (w & E & _)%list_elem_of_fmap. by destruct w.
Qed.

Lemma wakes_reachable listen closefd0 closefd1 nthr s :
  rtc step (ctrl_start listen closefd0 closefd1 nthr) s -> wakes s.
Proof.
  intros Hr. remember (ctrl_start listen closefd0 closefd1 nthr) as s0 eqn:E0.
  assert (wakes s0) as H0 by (subst s0; split; simpl; [lia|done]).
  clear E0. induction Hr as [|s0 s1 s2 H1 _ IH]; [done|]. apply IH. by eapply wakes_step.
Qed.

(** C30: no wake-up is lost.  While a worker sleeps, every queued job has an awake
    worker of its own, which will take it or find it taken; a queued job stays
    behind only when all workers are busy.  After the shutdown's broadcast no
    worker sleeps. *)
Theorem workers_wake listen closefd0 closefd1 nthr s :
  rtc step (ctrl_start listen closefd0 closefd1 nthr) s ->
  (t_quit s = false -> WWaiting ∈ t_workers s -> (length (t_jobs s) <= count_if is_awake (t_workers s))%nat) /\
  (t_joined s = true -> WWaiting ∉ t_workers s).
Proof. intros [Hj Hq]%wakes_reachable. split; [done|]. intros H. by apply Hq. Qed.

(** * Shutdown *)

(** What is left to do: a job is taken and served, a served connection brings its
    worker back once more. *)
Definition worker_weight (w : wstate) : nat :=
  match w with WExited => 0 | WServing _ => 2 | _ => 1 end.

Definition work_left (s : threads) : nat := 3 * length (t_jobs s) + sum_list (map worker_weight (t_workers s)).

Lemma weight_insert l i w w' : l !! i = Some w ->
  (sum_list (map worker_weight (<[i := w']> l)) + worker_weight w = sum_list (map worker_weight l) + worker_weight w')%nat.
Proof.
  intros Hi. rewrite <- (take_drop_middle l i w Hi) at 2. rewrite insert_take_drop by (by eapply lookup_lt_Some).
  rewrite !map_app. simpl.
  induction (map worker_weight (take i l)); simpl in *; lia.
Qed.

Lemma turn_works i first s w : t_workers s !! i = Some w -> is_awake w = true -> t_quit s = true ->
  t_quit (worker_turn i first s) = true /\ t_joined (worker_turn i first s) = t_joined s /\
  (work_left (worker_turn i first s) < work_left s)%nat.
Proof.
  intros Hi Hw Hq. assert (worker_weight w = 1%nat) as E1 by (by destruct w). unfold worker_turn, work_left. rewrite Hq.
  pose proof (fun w' => weight_insert (t_workers s) i w w' Hi) as Hx. rewrite E1 in Hx.
  destruct (first && true); [|destruct (t_jobs s) as [|fd jobs] eqn:Ej]; simpl; (split; [done|split; [done|]]).
  - specialize (Hx WExited). simpl in Hx. lia.
  - specialize (Hx WExited). rewrite Ej. simpl in *. lia.
  - specialize (Hx (WServing fd)). simpl in *. lia.
Qed.

Lemma done_works i fd o s : t_workers s !! i = Some (WServing fd) ->
  t_quit (worker_done i fd o s) = t_quit s /\ t_joined (worker_done i fd o s) = t_joined s /\
  (work_left (worker_done i fd o s) < work_left s)%nat.
Proof.
  intros Hi. pose proof (weight_insert (t_workers s) i (WServing fd) WAwake Hi) as Hx. simpl in Hx.
  assert (exists s1, worker_done i fd o s = set_worker i WAwake s1 /\ t_workers s1 = t_workers s /\ t_jobs s1 = t_jobs s /\
      t_quit s1 = t_quit s /\ t_joined s1 = t_joined s) as (s1 & -> & E1 & E2 & E3 & E4).
  { eexists. split; [done|]. destruct o; [unfold event_add; case_match|..]; unfold close; try case_match; done. }
  unfold work_left. simpl. rewrite E1, E2. split; [done|]. split; [done|lia].
Qed.

(** After the broadcast, a step is a worker's, and there is less left to do. *)
Lemma joined_step s s' : wakes s -> t_joined s = true -> step s s' ->
  t_joined s' = true /\ (work_left s' < work_left s)%nat.
Proof.
  intros [_ Hs] Hj. destruct (Hs Hj) as [_ Hq]. destruct 1; try congruence.
  1,2: by edestruct turn_works as (_ & -> & ?); eauto.
  by edestruct done_works as (_ & -> & ?); eauto.
Qed.

(** C31: shutting down terminates: once the listen thread is joined and the workers
    are woken, every run takes at most [work_left] more steps, and a state from
    which no thread can go on has all workers gone; so the joins of [ctrl_quit_stage_one] return. *)
Theorem shutdown_terminates listen closefd0 closefd1 nthr s :
  rtc step (ctrl_start listen closefd0 closefd1 nthr) s -> t_joined s = true ->
  (forall n s', nsteps step n s s' -> (n <= work_left s)%nat) /\
  (forall s', rtc step s s' -> (exists s'', step s' s'') \/ Forall (fun w => w = WExited) (t_workers s')).
Proof.
  intros Hw%wakes_reachable Hj. split.
  - intros n s' Hn. induction Hn as [|n s s1 s' H1 _ IH]; [lia|].
    destruct (joined_step s s1 Hw Hj H1) as [Hj1 Hl]. specialize (IH (wakes_step _ _ Hw H1) Hj1). lia.
  - intros s' Hr. induction Hr as [s|s s1 s' H1 _ IH].
    + destruct (decide (Forall (fun w => w = WExited) (t_workers s))) as [?|Hn]; [by right|left].
      apply not_Forall_Exists, list.Exists_exists in Hn as (w & Hin & Hne); [|intros ?; exact _].
      destruct (wk_joined s Hw Hj) as [Hnw _]. apply list_elem_of_lookup in Hin as Hin'. destruct Hin' as [i Hi].
      destruct w as [| | |fd|]; [by eexists; apply (step_start s i)|destruct (Hnw Hin)|by eexists; apply (step_awake s i)| |by destruct Hne].
      exists (worker_done i fd Close s). by apply step_done.
    + destruct (joined_step s s1 Hw Hj H1). apply IH; [by eapply wakes_step|done].
Qed.

(** * The end *)

(** The events of the controller's own descriptors. *)
Definition is_own (e : event_cb * Z) : bool := match e with (ReadEvent, _) => false | _ => true end.

Definition own_events (s : threads) : list (event_cb * Z) := List.filter is_own (t_events s).

Record own_ok (listen closefd0 : Z) (s : threads) : Prop := {
  ow_events : own_events s = [(AcceptEvent, listen); (CloseEvent, closefd0)] \/ own_events s = [(AcceptEvent, listen)];
  ow_listen : t_listen s = Some listen \/ t_listen s = None;
  ow_conn : listen ∉ connections s;
  ow_close : t_quit s = true -> t_closefd1 s = None
}.

Lemma filter_delete {A} (P : A -> bool) (l : list A) n x : l !! n = Some x ->
  List.filter P (delete n l) = List.filter P (take n l) ++ List.filter P (drop (S n) l) /\
  List.filter P l = List.filter P (take n l) ++ (if P x then [x] else []) ++ List.filter P (drop (S n) l).
Proof.
  intros Hn. split; [by rewrite delete_take_drop, List.filter_app|]. rewrite <- (take_drop_middle l n x Hn) at 1.
  rewrite List.filter_app. simpl. by destruct (P x).
Qed.

Lemma close_fields fd s : exists o bad, close fd s = mk_threads (t_quit s) (t_joined s) (t_listen s) (t_closefd1 s) (t_events s)
    (t_jobs s) (t_workers s) (t_given s) o bad.
Proof. unfold close. destruct (remove_one fd (t_open s)); by eexists _, _. Qed.

Lemma close_opt_fields fd s : exists o bad, close_opt fd s = mk_threads (t_quit s) (t_joined s) (t_listen s) (t_closefd1 s) (t_events s)
    (t_jobs s) (t_workers s) (t_given s) o bad.
Proof. destruct fd; [apply close_fields|]. exists (t_open s), (t_bad s). by destruct s. Qed.

(** Only accepting brings a new connection. *)
Lemma turn_connections i first s w : t_workers s !! i = Some w -> serving_fd w = [] ->
  connections (worker_turn i first s) ≡ₚ connections s.
Proof.
  intros Hi Hw. assert (forall w', serving_fd w' = [] -> connections (set_worker i w' s) ≡ₚ connections s) as Hset.
  { intros w' Hw'. destruct (worker_swap s i w w' Hi) as (rest & E1 & E2). by rewrite E1, E2, Hw, Hw'. }
  unfold worker_turn. destruct (first && t_quit s); [by apply Hset|]. destruct (t_jobs s) as [|fd jobs] eqn:Ej.
  { destruct (t_quit s); by apply Hset. }
  destruct (worker_swap (set_jobs jobs s) i w (WServing fd) Hi) as (rest & E1 & E2). rewrite E2.
  rewrite Hw in E1. simpl in E1 |- *. rewrite <- E1. unfold connections. simpl. rewrite Ej. simpl. by rewrite Permutation_middle.
Qed.

Lemma done_connections i fd o s x : t_workers s !! i = Some (WServing fd) ->
  x ∈ connections (worker_done i fd o s) -> x ∈ connections s.
Proof.
  intros Hi. destruct (worker_swap s i (WServing fd) WAwake Hi) as (rest & E1 & E2). simpl in E1, E2. rewrite E1, elem_of_cons.
  assert (forall o bad, x ∈ connections (set_worker i WAwake (mk_threads (t_quit s) (t_joined s) (t_listen s) (t_closefd1 s) (t_events s)
    (t_jobs s) (t_workers s) (t_given s) o bad)) -> x ∈ rest) as Hrest.
  { intros op bad Hx. by rewrite <- E2. }
  unfold worker_done, event_add. destruct (close_fields fd s) as (op & bad & ->).
  destruct o as [added| |]; [destruct (_ && _)|..]; [intros H; right; by eapply Hrest| |intros H; right; by eapply Hrest|].
  - unfold connections. simpl. rewrite map_app, concat_app. simpl. rewrite <- app_assoc. simpl. rewrite <- Permutation_middle, elem_of_cons.
    intros [->|Hx]; [by left|]. right. rewrite <- E2. exact Hx.
  - unfold connections. simpl. rewrite <- !Permutation_middle, elem_of_cons. intros [->|Hx]; [by left|]. right. rewrite <- E2. exact Hx.
Qed.

Section Ends.
Context (listen closefd0 : Z).

Lemma own_moved s s' : own_ok listen closefd0 s -> own_events s' = own_events s -> t_listen s' = t_listen s ->
  t_closefd1 s' = t_closefd1 s -> t_quit s' = t_quit s -> (listen ∈ connections s' -> listen ∈ connections s) -> own_ok listen closefd0 s'.
Proof. intros [He Hl Hn Hc] E1 E2 E3 E4 Hx. split; [by rewrite E1|by rewrite E2|by intros ?%Hx|by rewrite E3, E4]. Qed.

Lemma own_step s s' : own_ok listen closefd0 s -> fds_ok closefd0 s -> step s s' -> own_ok listen closefd0 s'.
Proof.
  intros Hok Hf. pose proof Hok as [He Hl Hn Hc].
  destruct 1 as [s fd woken Hj Hs Hfd Hw|s n fd woken Hj En Hw|s n fd Hj En Hc1|s i Hi|s i Hi|s i fd o Hi|s b Hq|s Hq Hj].
  - eapply own_moved; [exact Hok|by destruct woken..|]. unfold accept_event. rewrite queue_conserves by (by destruct woken).
    intros [->|?]%elem_of_cons; [|done]. exfalso. apply Hfd. rewrite (fo_open _ _ Hf). unfold own_fds.
    destruct Hl as [El|El]; rewrite El in Hs |- *; [right; left|by destruct Hs].
  - destruct (filter_delete is_own _ _ _ En) as [E1 E2]. eapply own_moved; [exact Hok| |by destruct woken..|].
    + unfold own_events, read_event, queue_job_and_signal. rewrite E2. simpl. rewrite <- E1. by destruct woken.
    + unfold read_event. rewrite queue_conserves by (by destruct woken). unfold connections; simpl.
      rewrite (concat_map_delete read_fd _ _ _ En). done.
  - destruct (filter_delete is_own _ _ _ En) as [E1 E2]. split; [|done| |done].
    + right. unfold own_events in *. simpl. rewrite E1. rewrite E2 in He. simpl in He.
      destruct (List.filter is_own (take n (t_events s))) as [|x [|y l]]; simpl in *; destruct He as [He|He]; simplify_eq/=; try done.
      { congruence. } by destruct l.
    + intros Hx. apply Hn. revert Hx. unfold connections; simpl. by rewrite (concat_map_delete read_fd _ _ _ En).
  - eapply own_moved; [exact Hok|unfold worker_turn; by repeat case_match..|]. by rewrite (turn_connections i true s WStart).
  - eapply own_moved; [exact Hok|unfold worker_turn; by repeat case_match..|]. by rewrite (turn_connections i false s WAwake).
  - eapply own_moved; [exact Hok| | | | |by apply done_connections];
      unfold worker_done, event_add; destruct (close_fields fd s) as (op & bad & ->); destruct o as [added| |]; try destruct (_ && _); try done.
    unfold own_events. simpl. rewrite List.filter_app. simpl. by rewrite app_nil_r.
  - unfold quit_listen. destruct (close_opt_fields (t_closefd1 s) s) as (o1 & b1 & ->).
    destruct b; [|by split]. match goal with |- context [close_opt ?x ?s1] => destruct (close_opt_fields x s1) as (o2 & b2 & ->) end.
    split; try done. by right.
  - eapply own_moved; [exact Hok|done..|]. unfold connections; simpl.
    rewrite map_map. erewrite (map_ext _ serving_fd); [done|]. by intros [].
Qed.

Lemma own_reachable closefd1 nthr s : NoDup [listen; closefd0; closefd1] ->
  rtc step (ctrl_start listen closefd0 closefd1 nthr) s -> own_ok listen closefd0 s.
Proof.
  intros Hn Hr. remember (ctrl_start listen closefd0 closefd1 nthr) as s0 eqn:E0.
  assert (own_ok listen closefd0 s0 /\ fds_ok closefd0 s0) as [H0 F0].
  { split; [|subst; by eapply fds_reachable; [|apply rtc_refl]]. subst s0. split; [by left|by left| |done]. unfold connections. simpl. rewrite app_nil_r.
    assert (concat (map serving_fd (replicate nthr WStart)) = []) as -> by (clear; by induction nthr). apply not_elem_of_nil. }
  clear E0. induction Hr as [|s0 s1 s2 H1 _ IH]; [done|]. apply IH; [by eapply own_step|by eapply ok_step].
Qed.
End Ends.

(** Closing the descriptors of a list one after the other: with [l1] open and [l2] not
    among the others that are, the descriptors of [l2] are closed in vain. *)
Lemma close_list_spec l : forall s l1 l2 rest, NoDup (t_open s) -> l ≡ₚ l1 ++ l2 -> t_open s ≡ₚ l1 ++ rest -> (forall x, x ∈ l2 -> x ∉ rest) ->
  exists o bad, fold_left (fun s fd => close fd s) l s = mk_threads (t_quit s) (t_joined s) (t_listen s) (t_closefd1 s) (t_events s)
    (t_jobs s) (t_workers s) (t_given s) o bad /\ o ≡ₚ rest /\ bad ≡ₚ l2 ++ t_bad s.
Proof.
  induction l as [|fd l IH]; intros s l1 l2 rest Hn Hl Ho H2; simpl.
  { apply Permutation_nil_l, eq_sym, app_eq_nil in Hl as [-> ->]. exists (t_open s), (t_bad s). by destruct s. }
  assert (fd ∈ l1 ++ l2) as Hin by (rewrite <- Hl; left). unfold close at 2. destruct (decide (fd ∈ t_open s)) as [Hfd|Hfd].
  - destruct (remove_one_perm fd _ Hfd) as (o & -> & Eo).
    assert (exists l1', l1 ≡ₚ fd :: l1') as [l1' E1].
    { assert (fd ∈ l1) as [l1' E1]%elem_of_Permutation; [|by eexists]. apply elem_of_app in Hin as [?|Hin]; [done|].
      rewrite Ho in Hfd. apply elem_of_app in Hfd as [?|?]; [done|by destruct (H2 fd)]. }
    rewrite E1 in Hl, Ho. rewrite Eo in Hn, Ho. apply NoDup_cons in Hn as [_ Hn]. apply Permutation_cons_inv in Hl, Ho.
    exact (IH (mk_threads _ _ _ _ _ _ _ _ o (t_bad s)) l1' l2 rest Hn Hl Ho H2).
  - destruct (remove_one fd (t_open s)) eqn:Er; [destruct Hfd; clear -Er|].
    { revert l0 Er. induction (t_open s) as [|x op IHo]; [done|]. intros l0. simpl. case_decide as E; [subst; left|].
      destruct (remove_one fd op); [|done]. intros _. right. by eapply IHo. }
    assert (exists l2', l2 ≡ₚ fd :: l2') as [l2' E2].
    { apply elem_of_app in Hin as [Hin|[l2' E]%elem_of_Permutation]; [|by eexists]. destruct Hfd. rewrite Ho. set_solver. }
    assert (l ≡ₚ l1 ++ l2') as Hl'. { rewrite E2, <- Permutation_middle in Hl. by apply Permutation_cons_inv in Hl. }
    destruct (IH (mk_threads (t_quit s) (t_joined s) (t_listen s) (t_closefd1 s) (t_events s) (t_jobs s) (t_workers s) (t_given s)
      (t_open s) (fd :: t_bad s)) l1 l2' rest Hn Hl' Ho) as (o & bad & E & Eo & Eb).
    { intros x Hx. apply H2. rewrite E2. by right. }
    exists o, bad. split; [exact E|]. split; [exact Eo|]. rewrite Eb, E2. simpl. by rewrite Permutation_middle.
Qed.

(** The descriptors stage two closes, in its order. *)
Lemma stage_two_closes closefd0 s : t_closefd1 s = None -> NoDup (t_open s) -> forall l1 l2 rest,
  option_list (t_listen s) ++ map snd (t_events s) ++ [closefd0] ≡ₚ l1 ++ l2 -> t_open s ≡ₚ l1 ++ rest -> (forall x, x ∈ l2 -> x ∉ rest) ->
  t_open (ctrl_quit_stage_two closefd0 s) ≡ₚ rest /\ t_bad (ctrl_quit_stage_two closefd0 s) ≡ₚ l2 ++ t_bad s.
Proof.
  intros Hc Hn l1 l2 rest Hl Ho H2.
  assert (ctrl_quit_stage_two closefd0 s =
    set_events [] (fold_left (fun s fd => close fd s) (option_list (t_listen s) ++ map snd (t_events s) ++ [closefd0]) s)) as ->.
  { unfold ctrl_quit_stage_two. rewrite !fold_left_app. simpl.
    assert (close_opt (t_listen s) s = fold_left (fun s fd => close fd s) (option_list (t_listen s)) s) as <- by (by destruct (t_listen s)).
    destruct (close_opt_fields (t_listen s) s) as (o1 & b1 & ->). simpl.
    assert (forall l s1, fold_left (fun s (e : event_cb * Z) => close e.2 s) l s1 = fold_left (fun s fd => close fd s) (map snd l) s1) as ->.
    { induction l as [|e l IHl]; [done|]. intros s1. apply IHl. }
    set (s1 := mk_threads _ _ _ _ _ _ _ _ _ _).
    assert (forall l s1, t_closefd1 (fold_left (fun s fd => close fd s) l s1) = t_closefd1 s1) as Hf.
    { induction l as [|fd l IHl]; [done|]. intros s2. simpl. rewrite IHl. by destruct (close_fields fd s2) as (? & ? & ->). }
    set (s2 := fold_left _ _ _). assert (t_closefd1 s2 = None) as E2 by (subst s2; rewrite Hf; exact Hc).
    clearbody s2. unfold close, set_events. simpl. destruct (remove_one closefd0 (t_open s2)); simpl; by rewrite E2. }
  destruct (close_list_spec _ s l1 l2 rest Hn Hl Ho H2) as (o & bad & -> & Eo & Eb). done.
Qed.

(** Whether the handler of the closing pipe is still on the event list. *)
Definition close_listed (s : threads) : bool := existsb (fun e => match fst e with CloseEvent => true | _ => false end) (t_events s).

Lemma listed_own s : close_listed s = existsb (fun e => match fst e with CloseEvent => true | _ => false end) (own_events s).
Proof. unfold close_listed, own_events. induction (t_events s) as [|[[] fd] l IH]; simpl; by rewrite ?IH. Qed.

Lemma events_split l : map snd l ≡ₚ map snd (List.filter is_own l) ++ concat (map read_fd l).
Proof.
  induction l as [|[[] fd] l IH]; simpl; [done|by rewrite IH..|]. rewrite IH. by rewrite Permutation_middle.
Qed.

(** Stage two closes everything but the connections nobody took from the queue and those
    handed to somebody else, and it closes the listen socket in vain, and closefd[0] too
    when its handler is still listed. *)
Lemma stage_two_descriptors listen closefd0 s : fds_ok closefd0 s -> own_ok listen closefd0 s -> t_quit s = true ->
  Forall (fun w => w = WExited) (t_workers s) ->
  t_open (ctrl_quit_stage_two closefd0 s) ≡ₚ t_jobs s ++ t_given s /\
  t_bad (ctrl_quit_stage_two closefd0 s) ≡ₚ listen :: (if close_listed s then [closefd0] else []).
Proof.
  intros [Ho Hn Hb] [He Hl Hlc Hc] Hq Hw.
  assert (connections s = concat (map read_fd (t_events s)) ++ t_jobs s ++ t_given s) as Ec.
  { unfold connections. assert (concat (map serving_fd (t_workers s)) = []) as ->; [|done].
    induction Hw as [|w ws -> _ IH]; simpl; [done|exact IH]. }
  assert (map snd (own_events s) ++ [closefd0] ≡ₚ [closefd0] ++ listen :: (if close_listed s then [closefd0] else [])) as Eo.
  { rewrite listed_own. destruct He as [-> | ->]; simpl; [|apply Permutation_swap]. rewrite Permutation_swap. done. }
  rewrite Ho in Hn.
  destruct (stage_two_closes closefd0 s (Hc Hq) ltac:(by rewrite Ho) (option_list (t_listen s) ++ [closefd0] ++ concat (map read_fd (t_events s)))
    (listen :: (if close_listed s then [closefd0] else [])) (t_jobs s ++ t_given s)) as [E1 E2].
  - rewrite events_split. change (List.filter is_own (t_events s)) with (own_events s). rewrite <- !app_assoc. f_equiv.
    rewrite (Permutation_app_comm (concat _)), (app_assoc (map _ _)), Eo. rewrite <- !app_assoc. f_equiv. by rewrite Permutation_app_comm.
  - rewrite Ho, Ec. unfold own_fds. rewrite (Hc Hq), app_nil_r. rewrite <- !app_assoc. simpl. by rewrite Permutation_middle.
  - intros x Hx Hr. assert (x ∈ connections s) as Hxc by (rewrite Ec; set_solver). apply elem_of_cons in Hx as [->|Hx]; [done|].
    destruct (close_listed s); [|by apply not_elem_of_nil in Hx]. apply list_elem_of_singleton in Hx as ->.
    apply NoDup_app in Hn as (_ & Hd & _). apply (Hd closefd0); [|done]. unfold own_fds. set_solver.
  - rewrite Hb, app_nil_r in E2. done.
Qed.

Lemma life_splits closefd0 s0 x : rtc (life_step closefd0) (Running s0) x ->
  (exists s, x = Running s /\ rtc step s0 s) \/
  (exists s, x = Ended (ctrl_quit_stage_two closefd0 s) /\ rtc step s0 s /\ t_joined s = true /\ Forall (fun w => w = WExited) (t_workers s)).
Proof.
  intros Hr. remember (Running s0) as y eqn:Ey. revert s0 Ey.
  induction Hr as [y|y z x Hyz Hr IH]; intros s0 ->; [left; by exists s0|]. inversion Hyz as [? s1 H1|? Hj Hw]; subst.
  - destruct (IH s1 eq_refl) as [(s & -> & Hs)|(s & -> & Hs & H)]; [left|right]; exists s; (split; [done|]); [by eapply rtc_l|].
    split; [by eapply rtc_l|done].
  - right. exists s0. inversion Hr as [|? ? ? Hend]; subst; [by split_and!|inversion Hend].
Qed.

Lemma joined_quit listen closefd0 closefd1 nthr s : rtc step (ctrl_start listen closefd0 closefd1 nthr) s -> t_joined s = true -> t_quit s = true.
Proof. intros [_ Hq]%wakes_reachable H. by apply Hq. Qed.

(** C29: From the start of the controller to the end of [ctrl_quit_stage_two], whatever the
    listen thread, the workers and the caller of ctrl_quit do. Until stage two every
    connection is in exactly one place (waiting to be read, queued, being served or handed to
    somebody else), the open descriptors are exactly the controller's own and those of the
    connections, and no descriptor has been closed that was not open. Stage two then closes
    every descriptor but the connections still queued and those handed to somebody else, and
    it does close descriptors that are no longer open: the listen socket always, and
    closefd[0] when its handler is still on the event list, and nothing besides. *)
Theorem controller_descriptors listen closefd0 closefd1 nthr x : NoDup [listen; closefd0; closefd1] ->
  rtc (life_step closefd0) (Running (ctrl_start listen closefd0 closefd1 nthr)) x ->
  match x with
  | Running s => NoDup (connections s) /\ t_open s ≡ₚ own_fds closefd0 s ++ connections s /\ t_bad s = []
  | Ended s' => exists s, rtc step (ctrl_start listen closefd0 closefd1 nthr) s /\ s' = ctrl_quit_stage_two closefd0 s /\
      t_open s' ≡ₚ t_jobs s ++ t_given s /\ t_bad s' ≡ₚ listen :: (if close_listed s then [closefd0] else [])
  end.
Proof.
  intros Hn Hr. assert (forall s, rtc step (ctrl_start listen closefd0 closefd1 nthr) s -> fds_ok closefd0 s /\ own_ok listen closefd0 s) as Hok.
  { intros s Hs. split; [by eapply fds_reachable|by eapply own_reachable]. }
  destruct (life_splits _ _ _ Hr) as [(s & -> & Hs)|(s & -> & Hs & Hj & Hw)].
  - destruct (Hok s Hs) as [[Ho Hd Hb] _]. split; [|done]. rewrite Ho in Hd. by apply NoDup_app in Hd as (_ & _ & ?).
  - destruct (Hok s Hs). exists s. split; [done|]. split; [done|]. apply stage_two_descriptors; [done..| |done].
    by eapply joined_quit.
Qed.

(** * Examples *)

(** One worker goes to sleep, is woken by a connection and serves it. *)
Definition serving_run : threads :=
  worker_turn 0 false (accept_event 6 (Some 0%nat) (worker_turn 0 true (ctrl_start 3 4 5 1))).

Lemma serving_reachable : rtc step (ctrl_start 3 4 5 1) serving_run.
Proof.
  eapply rtc_l; [by apply (step_start _ 0)|]. eapply rtc_l.
  { apply (step_accept _ 6 (Some 0%nat)); [done|by eexists| |done]. apply (bool_decide_unpack _); vm_compute; exact I. }
  eapply rtc_l; [by apply (step_awake _ 0)|]. apply rtc_refl.
Qed.

(** The controller quits meanwhile. *)
Definition stopping_run : threads := join_and_broadcast (quit_listen true serving_run).

Lemma stopping_reachable : rtc step (ctrl_start 3 4 5 1) stopping_run.
Proof.
  etrans; [exact serving_reachable|].
  eapply rtc_l; [by apply (step_quit _ true)|]. eapply rtc_l; [by apply step_join|]. apply rtc_refl.
Qed.


Lemma workers_wake_witness : t_joined stopping_run = true /\ (WWaiting ∉ t_workers stopping_run).
Proof.
  split; [vm_compute; reflexivity|]. apply (workers_wake 3 4 5 1 stopping_run); [exact stopping_reachable|vm_compute; reflexivity].
Defined.

Lemma shutdown_terminates_witness : work_left stopping_run = 2%nat /\
  (forall n s', nsteps step n stopping_run s' -> (n <= work_left stopping_run)%nat).
Proof.
  split; [vm_compute; reflexivity|].
  apply (shutdown_terminates 3 4 5 1 stopping_run); [exact stopping_reachable|vm_compute; reflexivity].
Defined.

(** The handlers of the listen socket and of the closing pipe stay on the event
    list, so stage two closes both descriptors a second time: here the worker
    has finished and nothing else is open. *)
Definition stopped_run : threads := worker_turn 0 false (worker_done 0 6 Close stopping_run).

Lemma stopped_reachable : rtc step (ctrl_start 3 4 5 1) stopped_run.
Proof.
  etrans; [exact stopping_reachable|].
  eapply rtc_l; [by apply (step_done _ 0 6 Close)|]. eapply rtc_l; [by apply (step_awake _ 0)|]. apply rtc_refl.
Qed.

Lemma life_running closefd0 s s' : rtc step s s' -> rtc (life_step closefd0) (Running s) (Running s').
Proof. induction 1 as [|s1 s2 s3 H1 _ IH]; [apply rtc_refl|]. eapply rtc_l; [|exact IH]. by apply life_runs. Qed.

Theorem shutdown_closes_twice :
  rtc (life_step 4) (Running (ctrl_start 3 4 5 1)) (Ended (ctrl_quit_stage_two 4 stopped_run)) /\
  t_bad stopped_run = [] /\ t_bad (ctrl_quit_stage_two 4 stopped_run) = [4; 3].
Proof.
  split; [|vm_compute; done]. eapply rtc_r; [apply life_running, stopped_reachable|]. apply life_ends; [done|by repeat constructor].
Qed.

Lemma controller_descriptors_witness :
  (NoDup [6] /\ t_open serving_run ≡ₚ own_fds 4 serving_run ++ connections serving_run /\ t_bad serving_run = []) /\
  (exists s, rtc step (ctrl_start 3 4 5 1) s /\ ctrl_quit_stage_two 4 stopped_run = ctrl_quit_stage_two 4 s /\
    t_open (ctrl_quit_stage_two 4 stopped_run) ≡ₚ t_jobs s ++ t_given s /\
    t_bad (ctrl_quit_stage_two 4 stopped_run) ≡ₚ 3 :: (if close_listed s then [4] else [])).
Proof.
  split.
  - apply (controller_descriptors 3 4 5 1 (Running serving_run)); [apply (bool_decide_unpack _); vm_compute; exact I|].
    apply life_running, serving_reachable.
  - apply (controller_descriptors 3 4 5 1 (Ended (ctrl_quit_stage_two 4 stopped_run))); [apply (bool_decide_unpack _); vm_compute; exact I|].
    apply shutdown_closes_twice.
Defined.

(** A worker that has not started when the controller quits leaves without
    looking for jobs: a connection accepted just then stays queued and open. *)
Definition leaking_run : threads :=
  join_and_broadcast (accept_event 6 None (worker_turn 0 true (quit_listen false (ctrl_start 3 4 5 1)))).

Theorem shutdown_leaks_job :
  rtc step (ctrl_start 3 4 5 1) leaking_run /\ t_workers leaking_run = [WExited] /\ t_jobs leaking_run = [6] /\
  t_open (ctrl_quit_stage_two 4 leaking_run) = [6].
Proof.
  split; [|vm_compute; done]. eapply rtc_l; [by apply (step_quit _ false)|]. eapply rtc_l; [by apply (step_start _ 0)|].
  eapply rtc_l; [apply (step_accept _ 6 None); [done|by eexists|..]; apply (bool_decide_unpack _); vm_compute; exact I|].
  eapply rtc_l; [by apply step_join|apply rtc_refl].
Qed.
