(* ===== verification/Levenshtein.v ===== *)
(** Levenshtein: the edit distance of two strings (src/core/lib/levenshtein.c).

    The macro of ICU that reads a character, U8_NEXT_UNSAFE, is the parameter
    [next]: from a string and a position it gives the character and the position
    after it.  The two rows that share one allocation are two lists; [None] is an
    access outside of them.  The percentage that [similarity_by_distance] makes of
    the distance is floating point and not modelled. *)
From stdpp Require Import prelude list numbers.
From Stdlib Require Import ZArith Lia.
From S2P Require Import Prelude.

Local Open Scope Z_scope.

Section Levenshtein.
Context (next : list Z -> nat -> Z * nat).

(** The loop of [u8_strlen] from a position. *)
Fixpoint u8_strlen_loop (fuel : nat) (s : list Z) (l : Z) (p : nat) : option Z :=
  match s !! p, fuel with
  | None, _ => Some l
  | Some _, O => None
  | Some _, S fuel => u8_strlen_loop fuel s (i32 (l + 1)) (snd (next s p))
  end.

Definition u8_strlen (s : list Z) : option Z := u8_strlen_loop (length s) s 0 0.

Definition MIN3 (a b c : Z) : Z := if a <? b then (if a <? c then a else c) else (if b <? c then b else c).

(** The loop over [s2], [n] turns from [j]: the row [d] and the row before it. *)
Fixpoint row_loop (n : nat) (s2 : list Z) (c1 : Z) (d_1 d : list Z) (j : nat) (p2 : nat) : option (list Z) :=
  match n with
  | O => Some d
  | S n =>
    let '(c2, p2) := next s2 p2 in
    diag ← d_1 !! (j - 1)%nat;
    x ← (if c1 =? c2 then Some diag
         else up ← d_1 !! j; left ← d !! (j - 1)%nat; Some (i32 (1 + MIN3 up left diag)));
    if (j <? length d)%nat then row_loop n s2 c1 d_1 (<[j := x]> d) (S j) p2 else None
  end.

(** The loop over [s1], [n] turns from [i]. *)
Fixpoint rows_loop (n : nat) (s1 s2 : list Z) (s2_len : nat) (i : nat) (p1 : nat) (d d_1 : list Z) : option Z :=
  match n with
  | O => d_1 !! s2_len
  | S n =>
    let '(c1, p1) := next s1 p1 in
    d ← row_loop s2_len s2 c1 d_1 (<[0%nat := i32 (Z.of_nat i)]> d) 1 0;
    rows_loop n s1 s2 s2_len (S i) p1 d_1 d
  end.

(** [junk] is what the allocation holds. *)
Definition levenshtein (junk : Z) (s1 s2 : list Z) (s1_len s2_len : nat) : option Z :=
  let d := replicate (S s2_len) junk in
  let d_1 := map (fun j => i32 (Z.of_nat j)) (seq 0 (S s2_len)) in
  rows_loop s1_len s1 s2 s2_len 1 0 d d_1.

(** * The distance *)

(** [n] characters from a position on. *)
Fixpoint chars (n : nat) (s : list Z) (p : nat) : list Z :=
  match n with
  | O => []
  | S n => fst (next s p) :: chars n s (snd (next s p))
  end.
End Levenshtein.

(** What turns one string into another, and how many characters it changes. *)
Inductive edits : list Z -> list Z -> nat -> Prop :=
  | edits_nil : edits [] [] 0
  | edits_keep c s t n : edits s t n -> edits (c :: s) (c :: t) n
  | edits_replace c c' s t n : edits s t n -> edits (c :: s) (c' :: t) (S n)
  | edits_delete c s t n : edits s t n -> edits (c :: s) t (S n)
  | edits_insert c s t n : edits s t n -> edits s (c :: t) (S n).

Definition distance (s t : list Z) (n : nat) : Prop := edits s t n /\ forall m, edits s t m -> (n <= m)%nat.

(** The recurrence. *)
Fixpoint lev (s : list Z) : list Z -> nat :=
  fix lev_s t :=
    match s, t with
    | [], _ => length t
    | _, [] => length s
    | a :: s', b :: t' =>
      if decide (a = b) then lev s' t' else S (lev s' t `min` (lev_s t' `min` lev s' t'))
    end.

Lemma lev_nil_l t : lev [] t = length t.
Proof. by destruct t. Qed.

Lemma lev_nil_r s : lev s [] = length s.
Proof. by destruct s. Qed.

Lemma lev_cons a s b t : lev (a :: s) (b :: t) =
  if decide (a = b) then lev s t else S (lev s (b :: t) `min` (lev (a :: s) t `min` lev s t)).
Proof. done. Qed.

Lemma lev_sym s : forall t, lev s t = lev t s.
Proof.
  induction s as [|a s IH]; intros t; [by rewrite lev_nil_r; destruct t|].
  induction t as [|b t IHt]; [done|]. rewrite !lev_cons. destruct (decide (a = b)), (decide (b = a)); try congruence; try apply IH.
  rewrite !IH, IHt. simpl. lia.
Qed.

Lemma lev_shrink s : forall t b, (lev s t <= S (lev s (b :: t)))%nat.
Proof.
  induction s as [|a s IH]; intros t b; [rewrite !lev_nil_l; simpl; lia|].
  assert (forall t, lev (a :: s) t <= S (lev s t))%nat as Hup.
  { intros [|b' t']; [rewrite !lev_nil_r; simpl; lia|]. rewrite lev_cons. pose proof (IH t' b'). case_decide; lia. }
  rewrite lev_cons. pose proof (Hup t). pose proof (IH t b). case_decide; lia.
Qed.

Lemma lev_grow_l a s t : (lev (a :: s) t <= S (lev s t))%nat.
Proof. destruct t as [|b t]; [rewrite !lev_nil_r; simpl; lia|]. rewrite lev_cons. pose proof (lev_shrink s t b). case_decide; lia. Qed.

Lemma lev_lower s t n : edits s t n -> (lev s t <= n)%nat.
Proof.
  induction 1 as [|c s t n _ IH|c c' s t n _ IH|c s t n _ IH|c s t n _ IH].
  - done.
  - rewrite lev_cons, decide_True; done.
  - rewrite lev_cons. case_decide; lia.
  - pose proof (lev_grow_l c s t). lia.
  - rewrite lev_sym in *. pose proof (lev_grow_l c t s). lia.
Qed.

Lemma lev_edits s : forall t, edits s t (lev s t).
Proof.
  induction s as [|a s IH].
  - intros t. rewrite lev_nil_l. induction t as [|b t IHt]; simpl; [constructor|by constructor].
  - induction t as [|b t IHt]; [specialize (IH []); rewrite lev_nil_r in *; by constructor|]. rewrite lev_cons.
    case_decide as Hab; [subst; by constructor|].
    destruct (Nat.min_spec (lev (a :: s) t) (lev s t)) as [[_ ->]|[_ ->]];
      [destruct (Nat.min_spec (lev s (b :: t)) (lev (a :: s) t)) as [[_ ->]|[_ ->]]
      |destruct (Nat.min_spec (lev s (b :: t)) (lev s t)) as [[_ ->]|[_ ->]]]; by constructor.
Qed.

Lemma edits_app s t n : edits s t n -> forall s' t' n', edits s' t' n' -> edits (s ++ s') (t ++ t') (n + n').
Proof. induction 1; intros s' t' n' H'; simpl; [done|constructor; auto..]. Qed.

Lemma edits_rev s t n : edits s t n -> edits (rev s) (rev t) n.
Proof.
  induction 1 as [|c s t n _ IH|c c' s t n _ IH|c s t n _ IH|c s t n _ IH]; simpl.
  - constructor.
  - rewrite <- (Nat.add_0_r n). apply edits_app; [done|]. repeat constructor.
  - rewrite <- Nat.add_1_r. apply edits_app; [done|]. repeat constructor.
  - rewrite <- Nat.add_1_r, <- (app_nil_r (rev t)). apply edits_app; [done|]. repeat constructor.
  - rewrite <- Nat.add_1_r, <- (app_nil_r (rev s)). apply edits_app; [done|]. repeat constructor.
Qed.

Lemma lev_distance s t : distance s t (lev (rev s) (rev t)).
Proof.
  split.
  - rewrite <- (rev_involutive s), <- (rev_involutive t) at 1. apply edits_rev, lev_edits.
  - intros m Hm. apply lev_lower, edits_rev, Hm.
Qed.

Lemma lev_max s t : (lev s t <= length s `max` length t)%nat.
Proof.
  apply lev_lower. revert t. induction s as [|a s IH]; intros t; simpl.
  - induction t; simpl; [constructor|by constructor].
  - destruct t as [|b t]; simpl; [|constructor; apply IH]. specialize (IH []). rewrite Nat.max_0_r in IH. by constructor.
Qed.

(** * The rows *)

Section Rows.
Context (next : list Z -> nat -> Z * nat).

(** Row [i] of the table, for the first [i] characters [a]. *)
Definition row (a t : list Z) : list Z := map (fun j => Z.of_nat (lev (rev a) (rev (take j t)))) (seq 0 (S (length t))).

Lemma row_lookup a t j : (j <= length t)%nat -> row a t !! j = Some (Z.of_nat (lev (rev a) (rev (take j t)))).
Proof. intros Hj. unfold row. rewrite list_lookup_fmap, lookup_seq_lt by lia. done. Qed.

Lemma row_length a t : length (row a t) = S (length t).
Proof. unfold row. by rewrite length_map, length_seq. Qed.

Lemma rev_take_S {A} (t : list A) j b : t !! j = Some b -> rev (take (S j) t) = b :: rev (take j t).
Proof. intros Hb. by rewrite (take_S_r _ _ _ Hb), rev_app_distr. Qed.

Lemma MIN3_min a b c : MIN3 a b c = Z.min a (Z.min b c).
Proof. unfold MIN3. repeat case_match; lia. Qed.

Definition small (n : nat) : Prop := Z.of_nat n < 2 ^ 31.

Lemma lev_small a t : small (length a) -> small (length t) -> small (lev (rev a) (rev t)).
Proof. unfold small. intros. pose proof (lev_max (rev a) (rev t)). rewrite !length_rev in *. lia. Qed.

(** The cell that a turn computes. *)
Lemma cell_value a c1 t j b : t !! j = Some b -> small (S (length a)) -> small (length t) ->
  (if c1 =? b then Some (Z.of_nat (lev (rev a) (rev (take j t))))
   else Some (i32 (1 + MIN3 (Z.of_nat (lev (rev a) (rev (take (S j) t))))
                            (Z.of_nat (lev (rev (a ++ [c1])) (rev (take j t))))
                            (Z.of_nat (lev (rev a) (rev (take j t))))))) =
  Some (Z.of_nat (lev (rev (a ++ [c1])) (rev (take (S j) t)))).
Proof.
  intros Hb Ha Ht. pose proof (lev_small (a ++ [c1]) (take (S j) t)) as Hs. rewrite length_app, length_take in Hs.
  specialize (Hs ltac:(unfold small in *; simpl; lia) ltac:(unfold small in *; lia)).
  rewrite (rev_take_S t j b Hb) in *. rewrite rev_app_distr in *. simpl app in *. rewrite lev_cons in *.
  destruct (Z.eqb_spec c1 b) as [->|Hne]; [by rewrite decide_True|]. rewrite decide_False in * by done.
  rewrite MIN3_min. unfold small in Hs. rewrite swrap_small by lia. f_equal. lia.
Qed.

Lemma row_loop_spec n : forall s2 c1 a t j p2 d, chars next n s2 p2 = drop j t -> (j + n = length t)%nat ->
  length d = S (length t) -> small (S (length a)) -> small (length t) ->
  (forall k, (k <= j)%nat -> d !! k = Some (Z.of_nat (lev (rev (a ++ [c1])) (rev (take k t))))) ->
  row_loop next n s2 c1 (row a t) d (S j) p2 = Some (row (a ++ [c1]) t).
Proof.
  induction n as [|n IH]; intros s2 c1 a t j p2 d Hc Hj Hd Ha Ht Hk; cbn [row_loop].
  { f_equal. apply list_eq. intros k. destruct (decide (k <= j)%nat) as [Hle|Hgt].
    - rewrite (Hk k Hle), row_lookup by lia. done.
    - rewrite !(proj2 (lookup_ge_None _ _)); [done|rewrite row_length; lia|lia]. }
  cbn [chars] in Hc. destruct (next s2 p2) as [b p'] eqn:En. simpl in Hc.
  assert (t !! j = Some b) as Hb. { rewrite <- (Nat.add_0_r j), <- lookup_drop, <- Hc. done. }
  replace (S j - 1)%nat with j by lia. rewrite !row_lookup by lia. cbn [mbind option_bind]. rewrite Hk by lia. cbn [mbind option_bind].
  rewrite (cell_value a c1 t j b Hb Ha Ht). cbn [mbind option_bind]. rewrite (proj2 (Nat.ltb_lt _ _)) by lia.
  apply IH; [|lia|by rewrite length_insert|done|done|].
  - rewrite (drop_S t b j Hb) in Hc. by injection Hc.
  - intros k Hle. destruct (decide (k = S j)) as [->|Hne].
    + by rewrite list_lookup_insert_eq by lia.
    + rewrite list_lookup_insert_ne by done. apply Hk. lia.
Qed.

Lemma rows_loop_spec n : forall s1 s2 a t p1 d, chars next (length t) s2 0 = t -> length d = S (length t) ->
  small (length a + n) -> small (length t) ->
  rows_loop next n s1 s2 (length t) (S (length a)) p1 d (row a t) =
    Some (Z.of_nat (lev (rev (a ++ chars next n s1 p1)) (rev t))).
Proof.
  induction n as [|n IH]; intros s1 s2 a t p1 d Ht Hd Ha Hst; cbn [rows_loop chars].
  { rewrite row_lookup by lia. by rewrite app_nil_r, firstn_all. }
  destruct (next s1 p1) as [c1 p1'] eqn:En. simpl. unfold small in *.
  rewrite (row_loop_spec (length t) s2 c1 a t 0 0); [|by rewrite Ht|lia|by rewrite length_insert|unfold small; lia|done|].
  - cbn [mbind option_bind]. specialize (IH s1 s2 (a ++ [c1]) t p1' (row a t) Ht). rewrite length_app, Nat.add_1_r in IH.
    rewrite IH; [|apply row_length|lia|done]. by rewrite <- app_assoc.
  - intros k Hk. replace k with 0%nat by lia. rewrite list_lookup_insert_eq by lia. rewrite swrap_small by lia.
    rewrite lev_nil_r, length_rev, length_app. simpl. do 2 f_equal. lia.
Qed.

Lemma chars_length n : forall s p, length (chars next n s p) = n.
Proof. induction n as [|n IH]; intros s p; simpl; [done|]. by rewrite IH. Qed.

(** C38: The two-row computation returns the edit distance of the characters it
    reads: that many replacements, insertions and deletions turn one into the
    other, and no fewer do. *)
Theorem levenshtein_distance junk s1 s2 n1 n2 : small n1 -> small n2 ->
  exists d, levenshtein next junk s1 s2 n1 n2 = Some (Z.of_nat d) /\ distance (chars next n1 s1 0) (chars next n2 s2 0) d.
Proof.
  intros H1 H2. set (t := chars next n2 s2 0). assert (length t = n2) as Hl by apply chars_length.
  exists (lev (rev (chars next n1 s1 0)) (rev t)). split; [|apply lev_distance].
  unfold levenshtein. rewrite <- Hl in *.
  assert (map (fun j => i32 (Z.of_nat j)) (seq 0 (S (length t))) = row [] t) as ->.
  { unfold row. apply map_ext_in. intros j Hj%in_seq. unfold small in *. rewrite swrap_small by lia.
    cbn [rev]. rewrite lev_nil_l, length_rev, length_take. f_equal. lia. }
  apply (rows_loop_spec n1 s1 s2 [] t 0); [by rewrite Hl|by rewrite length_replicate|done|done].
Qed.

Lemma u8_strlen_loop_spec s : (forall p, (p < length s)%nat -> (p < snd (next s p) <= length s)%nat) ->
  forall fuel p l, (p <= length s)%nat -> (length s - p <= fuel)%nat -> 0 <= l -> l + Z.of_nat (length s - p) < 2 ^ 31 ->
  exists n, u8_strlen_loop next fuel s l p = Some (l + Z.of_nat n) /\ (n <= length s - p)%nat /\
    Nat.iter n (fun p => snd (next s p)) p = length s.
Proof.
  intros Hn. induction fuel as [|fuel IH]; intros p l Hp Hf H0 Hl; cbn [u8_strlen_loop];
    (destruct (s !! p) as [c|] eqn:E; [apply lookup_lt_Some in E; try lia|apply lookup_ge_None in E; exists 0%nat; split; [f_equal; lia|split; simpl; lia]]).
  pose proof (Hn p E) as Hnp. rewrite swrap_small by lia.
  destruct (IH (snd (next s p)) (l + 1)) as (n & -> & Hle & Hit); [lia..|]. exists (S n). split; [f_equal; lia|].
  split; [lia|]. by rewrite Nat.iter_succ_r.
Qed.

(** When the macro moves forward inside of a string, [u8_strlen] returns the
    number of characters that it reads up to the end. *)
Theorem u8_strlen_counts s : Z.of_nat (length s) < 2 ^ 31 ->
  (forall p, (p < length s)%nat -> (p < snd (next s p) <= length s)%nat) ->
  exists n, u8_strlen next s = Some (Z.of_nat n) /\ (n <= length s)%nat /\
    Nat.iter n (fun p => snd (next s p)) 0%nat = length s.
Proof.
  intros Hs Hn. destruct (u8_strlen_loop_spec s Hn (length s) 0 0) as (n & E & Hle & Hit); [lia..|].
  exists n. split; [exact E|]. split; [lia|done].
Qed.
End Rows.

(** * Examples *)

(** Strings whose characters are single bytes. *)
Definition next_ascii (s : list Z) (p : nat) : Z * nat := (nth p s 0, S p).

Lemma levenshtein_distance_witness :
  levenshtein next_ascii 0 (bytes "kitten") (bytes "sitting") 6 7 = Some 3 /\
  exists d, levenshtein next_ascii 0 (bytes "kitten") (bytes "sitting") 6 7 = Some (Z.of_nat d) /\
    distance (chars next_ascii 6 (bytes "kitten") 0) (chars next_ascii 7 (bytes "sitting") 0) d.
Proof. split; [vm_compute; reflexivity|]. apply (levenshtein_distance next_ascii 0 (bytes "kitten") (bytes "sitting") 6 7); vm_compute; reflexivity. Defined.

Lemma u8_strlen_counts_witness : exists n, u8_strlen next_ascii (bytes "abc") = Some (Z.of_nat n) /\ (n <= 3)%nat.
Proof.
  destruct (u8_strlen_counts next_ascii (bytes "abc")) as (n & E & Hn & _); [vm_compute; reflexivity| |by exists n].
  intros p Hp. simpl in *. lia.
Defined.
