(* ===== verification/SdQueue.v ===== *)
(** SdQueue: the queue that service discovery feeds and pools read
    (src/core/lib/sd_queue.c).

    A value is its key and what it says; strings are lists.  The threads are a step
    relation: a producer holds the lock from [sd_queue_begin] to [sd_queue_commit]
    and signals after it gave the lock back, if the queue was empty before; a
    reader of [sd_queue_wait] sleeps until it is signalled or its time is up. *)
From stdpp Require Import prelude list numbers relations.
From Stdlib Require Import ZArith Lia.
From S2P Require Import Prelude.

Record sd_value := mk_value { v_index : Z; v_keyv : list (list Z); v_value : list Z }.

(** * Operations *)

(** The comparison of the number of keys and of each key. *)
Fixpoint keys_match (a b : list (list Z)) : bool :=
  match a, b with
  | [], [] => true
  | x :: a, y :: b => bool_decide (x = y) && keys_match a b
  | _, _ => false
  end.

(** The walk of [sd_queue_insert]: what stays of the list, and what is freed. *)
Fixpoint insert_loop (queue : list sd_value) (value : sd_value) (matched : bool) : list sd_value * list sd_value :=
  match queue with
  | [] => ([], [])
  | v :: queue =>
    if negb matched && keys_match (v_keyv v) (v_keyv value) then
      let '(q, freed) := insert_loop queue value true in (q, v :: freed)
    else let '(q, freed) := insert_loop queue value matched in (v :: q, freed)
  end.

Definition sd_queue_insert (queue : list sd_value) (value : sd_value) : list sd_value :=
  fst (insert_loop queue value false) ++ [value].

Definition insert_all (queue values : list sd_value) : list sd_value := fold_left sd_queue_insert values queue.

(** The queue, the readers that sleep and that are awake, and the signals that are due. *)
Record state := mk_state { q_list : list sd_value; q_asleep : nat; q_awake : nat; q_signals : nat }.

Inductive step : state -> state -> Prop :=
  | step_produce s values :
      step s (mk_state (insert_all (q_list s) values) (q_asleep s) (q_awake s)
                (q_signals s + if decide (q_list s = []) then 1 else 0))
  | step_signal s n : q_signals s = S n -> step s (mk_state (q_list s) 0 (q_asleep s + q_awake s) n)
  | step_call s : step s (mk_state (q_list s) (q_asleep s) (S (q_awake s)) (q_signals s))
  | step_take s n : q_awake s = S n -> q_list s <> [] -> step s (mk_state [] (q_asleep s) n (q_signals s))
  | step_sleep s n : q_awake s = S n -> q_list s = [] -> step s (mk_state [] (S (q_asleep s)) n (q_signals s))
  | step_timeout s n : q_asleep s = S n -> step s (mk_state [] n (q_awake s) (q_signals s)).

(** * The queue *)

Lemma keys_match_eq a b : keys_match a b = true <-> a = b.
Proof.
  revert b. induction a as [|x a IH]; intros [|y b]; simpl; try done.
  rewrite andb_true_iff, bool_decide_eq_true, IH. split; [by intros [-> ->]|by intros [= -> ->]].
Qed.

Lemma insert_loop_matched queue value : insert_loop queue value true = (queue, []).
Proof. induction queue as [|v queue IH]; [done|]. simpl. by rewrite IH. Qed.

Definition keyed (value v : sd_value) : Prop := v_keyv v <> v_keyv value.

#[export] Instance keyed_dec value v : Decision (keyed value v).
Proof. unfold keyed. apply _. Defined.

(** On a queue with distinct keys the first match is the only one. *)
Lemma insert_loop_spec queue value : NoDup (map v_keyv queue) -> fst (insert_loop queue value false) = filter (keyed value) queue.
Proof.
  induction queue as [|v queue IH]; [done|]. cbn [map]. intros [Hn Hd]%NoDup_cons. cbn [insert_loop negb andb].
  destruct (keys_match (v_keyv v) (v_keyv value)) eqn:E.
  - apply keys_match_eq in E. rewrite insert_loop_matched. cbn [fst]. rewrite filter_cons_False by (unfold keyed; congruence).
    symmetry. apply filter_all. intros w Hw. unfold keyed. rewrite <- E. intros Ew. apply Hn. rewrite <- Ew. by apply list_elem_of_fmap_2.
  - assert (keyed value v) as Hk by (intros Ek; apply keys_match_eq in Ek; congruence). rewrite filter_cons_True by done.
    destruct (insert_loop queue value false) as [q freed]. cbn [fst] in *. by rewrite IH.
Qed.

Lemma insert_distinct queue value : NoDup (map v_keyv queue) -> NoDup (map v_keyv (sd_queue_insert queue value)).
Proof.
  intros Hd. unfold sd_queue_insert. rewrite insert_loop_spec, map_app by done. apply NoDup_app. split; [|split; [|apply NoDup_singleton]].
  - eapply sublist_NoDup; [exact Hd|]. apply (fmap_sublist v_keyv), sublist_filter.
  - intros k (w & -> & Hw)%list_elem_of_fmap. apply list_elem_of_filter in Hw as [Hk _]. cbn [map]. rewrite list_elem_of_singleton. exact Hk.
Qed.

Lemma insert_all_distinct values : forall queue, NoDup (map v_keyv queue) -> NoDup (map v_keyv (insert_all queue values)).
Proof. induction values as [|v values IH]; intros queue Hq; [done|]. apply IH. by apply insert_distinct. Qed.

Definition last_of (l : list sd_value) : list sd_value :=
  foldr (fun v rest => if decide (v_keyv v ∈ map v_keyv rest) then rest else v :: rest) [] l.

Lemma last_of_snoc l v : last_of (l ++ [v]) = filter (keyed v) (last_of l) ++ [v].
Proof.
  induction l as [|w l IH]; [done|]. cbn [app last_of foldr]. fold (last_of (l ++ [v])). fold (last_of l). rewrite IH.
  destruct (decide (v_keyv w ∈ map v_keyv (last_of l))) as [Hin|Hnin].
  - destruct (decide (v_keyv w ∈ map v_keyv (filter (keyed v) (last_of l) ++ [v]))) as [|Hn]; [done|]. exfalso. apply Hn.
    rewrite map_app, elem_of_app. cbn [map]. rewrite list_elem_of_singleton. destruct (decide (v_keyv w = v_keyv v)) as [|Hne]; [by right|]. left.
    apply list_elem_of_fmap in Hin as (x & E & Hx). rewrite E. apply list_elem_of_fmap_2, list_elem_of_filter. split; [|done].
    unfold keyed. congruence.
  - destruct (decide (v_keyv w ∈ map v_keyv (filter (keyed v) (last_of l) ++ [v]))) as [Hin|Hn].
    + rewrite filter_cons_False; [done|]. intros Hk. rewrite map_app, elem_of_app in Hin. cbn [map] in Hin. rewrite list_elem_of_singleton in Hin.
      destruct Hin as [(x & E & [_ Hx]%list_elem_of_filter)%list_elem_of_fmap|E]; [|by apply Hk].
      apply Hnin. rewrite E. by apply list_elem_of_fmap_2.
    + rewrite filter_cons_True; [done|]. intros E. apply Hn. rewrite map_app, elem_of_app. right. cbn [map]. by rewrite list_elem_of_singleton.
Qed.

(** Whatever is inserted, the queue holds for every key its last value, in the
    order of the last insertions: looking for one duplicate is enough because there
    is never more than one. *)
Theorem sd_queue_last_wins values : insert_all [] values = last_of values /\ NoDup (map v_keyv (insert_all [] values)).
Proof.
  assert (NoDup (map v_keyv (insert_all [] values))) as Hd by (apply insert_all_distinct; constructor). split; [|done]. clear Hd.
  induction values as [|v values IH] using rev_ind; [done|].
  unfold insert_all. rewrite fold_left_app. cbn [fold_left]. fold (insert_all [] values).
  unfold sd_queue_insert. rewrite insert_loop_spec by (apply insert_all_distinct; constructor). by rewrite IH, last_of_snoc.
Qed.

(** * The threads *)

Definition initial (readers : nat) : state := mk_state [] 0 readers 0.

Lemma step_keeps s s' : (NoDup (map v_keyv (q_list s)) /\ (q_list s <> [] -> q_asleep s <> 0%nat -> q_signals s <> 0%nat)) -> step s s' ->
  NoDup (map v_keyv (q_list s')) /\ (q_list s' <> [] -> q_asleep s' <> 0%nat -> q_signals s' <> 0%nat).
Proof.
  intros [Hd Hw]. destruct 1; simpl in *; try (split; [done || constructor|done]).
  split; [by apply insert_all_distinct|]. intros _ Ha. destruct (decide (q_list s = [])); [lia|]. specialize (Hw ltac:(done) Ha). lia.
Qed.

(** No reader sleeps on values: whenever the queue is not empty and a reader sleeps,
    a signal that will wake all of them is on its way. *)
Theorem sd_queue_wakes readers s : rtc step (initial readers) s ->
  q_list s <> [] -> q_asleep s <> 0%nat -> q_signals s <> 0%nat.
Proof.
  intros Hr. assert (NoDup (map v_keyv (q_list s)) /\ (q_list s <> [] -> q_asleep s <> 0%nat -> q_signals s <> 0%nat)) as [_ ?]; [|done].
  remember (initial readers) as s0 eqn:E0. assert (NoDup (map v_keyv (q_list s0)) /\ (q_list s0 <> [] -> q_asleep s0 <> 0%nat -> q_signals s0 <> 0%nat)) as H0
    by (subst; split; [constructor|done]).
  clear E0. induction Hr as [|s0 s1 s2 H1 _ IH]; [done|]. apply IH. by eapply step_keeps.
Qed.

(** A reader sleeps, and a value arrives. *)
Lemma sd_queue_wakes_witness : q_signals (mk_state [mk_value 1 [bytes "k"] (bytes "v")] 1 0 1) <> 0%nat.
Proof.
  apply (sd_queue_wakes 1); [|done|done].
  eapply rtc_l; [apply (step_sleep (initial 1) 0); reflexivity|].
  eapply rtc_l; [apply (step_produce _ [mk_value 1 [bytes "k"] (bytes "v")])|]. apply rtc_refl.
Defined.
