(* ===== verification/Fdgets.v ===== *)
(** Reading lines from a descriptor (util/lib/fdgets.c): a buffer of bytes and
    the state [S_OFF] (bytes in the buffer) and [S_NL] (bytes of it that were
    returned with the last line).  What the descriptor has to give is a list of
    chunks, one for each read that does not ask for less, and errors.  [None]
    is an access outside the buffer. *)
From stdpp Require Import prelude list numbers option.
From Stdlib Require Import Lia.
From S2P Require Import Prelude.

(** * The descriptor *)

Inductive chunk :=
| Data (s : list Z)
| Error.

(** [read fd buf n]: at most [n] bytes of the next chunk, what it leaves stays; no
    chunk is the end of the file. *)
Definition read (n : nat) (fd : list chunk) : option (list Z) * list chunk :=
  match fd with
  | [] => (Some [], [])
  | Error :: fd => (None, fd)
  | Data s :: fd => (Some (take n s), if bool_decide (length s ≤ n) then fd else Data (drop n s) :: fd)
  end.

(** * The functions *)

Record state := mk_state { S_OFF : nat; S_NL : nat }.

Definition is_nl (c : Z) : bool := (c =? 13)%Z || (c =? 10)%Z.

(** strpbrk (s, "\r\n") from a position of the buffer: the position of the first
    match before the terminator. *)
Fixpoint strpbrk (s : list Z) : option (option nat) :=
  match s with
  | [] => None
  | c :: s =>
    if (c =? 0)%Z then Some None
    else if is_nl c then Some (Some 0)
    else r ← strpbrk s; Some (option_map S r)
  end.

(** memmove (buf, buf + from, n). *)
Definition memmove (buf : list Z) (from n : nat) : option (list Z) :=
  if bool_decide (from + n ≤ length buf) then Some (take n (drop from buf) ++ drop n buf) else None.

(** Writing [s] into the buffer at [off]. *)
Definition put (buf : list Z) (off : nat) (s : list Z) : option (list Z) :=
  if bool_decide (off + length s ≤ length buf)
  then Some (take off buf ++ s ++ drop (off + length s) buf) else None.

(** The line returned last leaves the buffer. *)
Definition shift (buf : list Z) (st : state) : option (list Z * state) :=
  if bool_decide (S_NL st = 0) then Some (buf, st)
  else if bool_decide (S_NL st < S_OFF st) then
    buf ← memmove buf (S_NL st) (S_OFF st - S_NL st);
    Some (buf, mk_state (S_OFF st - S_NL st) 0)
  else Some (buf, mk_state 0 0).

(** The newline at [nl] is [c]; a line feed that follows a carriage return belongs
    to it. *)
Definition crlf_at (buf : list Z) (nl : nat) (c : Z) : option bool :=
  if (c =? 13)%Z then c ← buf !! S nl; Some (c =? 10)%Z else Some false.

(** The scan for the end of a line, in a buffer that has bytes. *)
Definition scan (buf : list Z) (st : state) (off : nat) : option (option nat) :=
  if bool_decide (S_OFF st = 0) then Some None else strpbrk (drop off buf).

Definition result : Type := option (list Z) * (list Z * state * list chunk).

(** The loop; a line is what the buffer holds up to its terminator. *)
Fixpoint fdgets_loop (fuel : nat) (buf : list Z) (st : state) (off : nat) (fd : list chunk) : option result :=
  match fuel with
  | 0 => None
  | S fuel =>
    found ← scan buf st off;
    match found with
    | Some i =>
      let nl := off + i in
      c ← buf !! nl;
      crlf ← crlf_at buf nl c;
      buf ← put buf nl [0%Z];
      Some (Some (cstr buf), (buf, mk_state (S_OFF st) (if (crlf : bool) then nl + 2 else nl + 1), fd))
    | None =>
      let off := S_OFF st in
      if bool_decide (length buf = 0) then None
      else if bool_decide (length buf - 1 ≤ off) then
        Some (Some (cstr buf), (buf, mk_state 0 (S_NL st), fd))
      else
        match read (length buf - off - 1) fd with
        | (None, fd) => Some (None, (buf, st, fd))
        | (Some [], fd) =>
          Some (if bool_decide (off = 0) then None else Some (cstr buf), (buf, mk_state 0 (S_NL st), fd))
        | (Some s, fd) =>
          buf ← put buf off s;
          let st := mk_state (S_OFF st + length s) (S_NL st) in
          buf ← put buf (S_OFF st) [0%Z];
          fdgets_loop fuel buf st off fd
        end
    end
  end.

Definition fdgets (buf : list Z) (st : state) (fd : list chunk) : option result :=
  '(buf, st) ← shift buf st;
  fdgets_loop (S (length buf)) buf st 0 fd.

(** memcpy (dst, src + from, n). *)
Definition memcpy (dst src : list Z) (from n : nat) : option (list Z) :=
  if bool_decide (from + n ≤ length src) then put dst 0 (take n (drop from src)) else None.

Definition bounded (dstsz n : nat) : nat := if bool_decide (dstsz ≤ n) then dstsz - 1 else n.

(** dst is a buffer of its own; the result is the number of bytes now in it. *)
Definition fdgets_copy (dst src : list Z) (st : state) : option (nat * list Z * state) :=
  if bool_decide (length dst = 0) then None
  else
    '(n, dst) ←
      (if bool_decide (S_NL st ≠ 0) then
         if bool_decide (S_NL st < S_OFF st) then
           let n := bounded (length dst) (S_OFF st - S_NL st) in
           dst ← memcpy dst src (S_NL st) n; Some (n, dst)
         else Some (0, dst)
       else if bool_decide (S_OFF st ≠ 0) then
         let n := bounded (length dst) (S_OFF st) in
         dst ← memcpy dst src 0 n; Some (n, dst)
       else Some (0, dst));
    dst ← put dst n [0%Z];
    Some (n, dst, mk_state n 0).

(** The bytes given to the caller, [None] for -1. *)
Definition fdgets_read (count : nat) (buf : list Z) (st : state) (fd : list chunk) :
    option (option (list Z) * (list Z * state * list chunk)) :=
  '(buf, st) ← shift buf st;
  if bool_decide (count ≤ S_OFF st) then
    let dst := take count buf in
    buf ← memmove buf count (S_OFF st - count);
    Some (Some dst, (buf, mk_state (S_OFF st - count) (S_NL st), fd))
  else
    if bool_decide (S_OFF st ≤ length buf) then
      let s := take (S_OFF st) buf in
      let st := mk_state 0 (S_NL st) in
      match read (count - length s) fd with
      | (None, fd) => Some (None, (buf, st, fd))
      | (Some r, fd) => Some (Some (s ++ r), (buf, st, fd))
      end
    else None.

(** The loop of a caller, until the end of the file or an error. *)
Fixpoint getlines (fuel : nat) (buf : list Z) (st : state) (fd : list chunk) : option (list (list Z)) :=
  match fuel with
  | 0 => None
  | S fuel =>
    '(l, (buf, st, fd)) ← fdgets buf st fd;
    match l with
    | None => Some []
    | Some l => ls ← getlines fuel buf st fd; Some (l :: ls)
    end
  end.

(** * Memory safety: every access is inside the buffer, for every input *)

Definition ok (buf : list Z) (st : state) : Prop :=
  S_NL st ≤ length buf /\ (S_OFF st = 0 \/ exists k, S_OFF st ≤ k /\ buf !! k = Some 0%Z).

Lemma strpbrk_in s k :
  s !! k = Some 0%Z ->
  strpbrk s = Some None \/
  exists i c, strpbrk s = Some (Some i) /\ i < k /\ s !! i = Some c /\ is_nl c = true.
Proof.
  revert k. induction s as [|c s IH]; intros k Hk; [done|]. simpl.
  destruct (Z.eqb_spec c 0) as [->|Hc]; [by left|].
  destruct k as [|k]; simpl in Hk; [congruence|].
  destruct (is_nl c) eqn:Hn; [right; exists 0, c; repeat split; [lia|done]|].
  destruct (IH _ Hk) as [->|(i & c' & -> & Hi & Hc' & Hn')]; [by left|right].
  exists (S i), c'. repeat split; [lia|done|done].
Qed.

Lemma put_length buf off s buf' : put buf off s = Some buf' -> length buf' = length buf.
Proof.
  unfold put. case_bool_decide; [|done]. intros [= <-].
  rewrite !length_app, length_take, length_drop. lia.
Qed.

Lemma put_in buf off s : off + length s ≤ length buf -> put buf off s = Some (take off buf ++ s ++ drop (off + length s) buf).
Proof. intros H. unfold put. by rewrite bool_decide_eq_true_2. Qed.

Lemma put_lookup buf off s buf' k :
  put buf off s = Some buf' -> (k < off \/ off + length s ≤ k) -> buf' !! k = buf !! k.
Proof.
  unfold put. case_bool_decide as Hb; [|done]. intros [= <-] [Hk|Hk].
  - rewrite lookup_app_l by (rewrite length_take; lia). by rewrite lookup_take_lt.
  - rewrite lookup_app_r by (rewrite length_take; lia).
    rewrite lookup_app_r by (rewrite length_take; lia).
    rewrite lookup_drop. f_equal. rewrite length_take. lia.
Qed.

Lemma put_at buf off c buf' : put buf off [c] = Some buf' -> buf' !! off = Some c.
Proof.
  unfold put. case_bool_decide as Hb; [|done]. simpl in Hb. intros [= <-].
  rewrite lookup_app_r by (rewrite length_take; lia).
  by rewrite length_take, Nat.min_l, Nat.sub_diag by lia.
Qed.

Lemma ok_init buf : ok buf (mk_state 0 0).
Proof. split; simpl; [lia|by left]. Qed.

Lemma ok_off buf st k : ok buf st -> S_OFF st ≠ 0 -> k ≤ S_OFF st -> exists j, k ≤ j /\ buf !! j = Some 0%Z.
Proof. intros [_ [?|(j & Hj & Hz)]] ??; [done|]. exists j. split; [lia|done]. Qed.

Lemma ok_room buf st : ok buf st -> 0 < length buf -> S_OFF st < length buf.
Proof. intros [_ [->|(j & Hj & Hz%lookup_lt_Some)]] ?; lia. Qed.

Lemma shift_ok buf st :
  0 < length buf -> ok buf st ->
  exists buf' st', shift buf st = Some (buf', st') /\ length buf' = length buf /\ ok buf' st' /\ S_NL st' = 0.
Proof.
  intros Hlen Hok. unfold shift. case_bool_decide; [by exists buf, st|].
  case_bool_decide as Hlt; [|exists buf, (mk_state 0 0); repeat split; simpl; [lia|by left]].
  pose proof (ok_room _ _ Hok Hlen). unfold memmove.
  rewrite bool_decide_eq_true_2 by lia. simpl.
  eexists _, _. repeat split; simpl.
  - rewrite length_app, length_take, !length_drop. lia.
  - lia.
  - right. destruct (ok_off _ _ (S_OFF st) Hok) as (j & Hj & Hz); [lia|done|].
    exists j. split; [lia|].
    rewrite lookup_app_r by (rewrite length_take, length_drop; lia).
    rewrite lookup_drop, length_take, length_drop, <- Hz. f_equal. lia.
Qed.

Lemma read_length n fd s fd' : read n fd = (Some s, fd') -> length s ≤ n.
Proof. destruct fd as [|[]]; simpl; intros [= <- <-]; simpl; rewrite ?length_take; lia. Qed.

Lemma scan_ok buf st off :
  ok buf st -> off ≤ S_OFF st ->
  scan buf st off = Some None \/
  exists i c j, scan buf st off = Some (Some i) /\ buf !! (off + i) = Some c /\ is_nl c = true /\
    off + i < j /\ S_OFF st ≤ j /\ buf !! j = Some 0%Z.
Proof.
  intros Hok Hoff. unfold scan. case_bool_decide; [by left|].
  destruct (ok_off _ _ (S_OFF st) Hok) as (j & Hj & Hz); [done|done|].
  destruct (strpbrk_in (drop off buf) (j - off)) as [?|(i & c & Hi & Hij & Hc & Hn)]; [|by left|right].
  - rewrite lookup_drop, <- Hz. f_equal. lia.
  - exists i, c, j. rewrite lookup_drop in Hc. repeat split; [done|done|done|lia|done|done].
Qed.

Lemma crlf_at_ok buf nl c j :
  buf !! nl = Some c -> nl < j -> buf !! j = Some 0%Z ->
  exists b, crlf_at buf nl c = Some b /\ (b = true -> nl + 1 < j).
Proof.
  intros Hc Hj Hz. unfold crlf_at. destruct (c =? 13)%Z; [|by exists false].
  destruct (buf !! S nl) as [c'|] eqn:Hc'; simpl.
  - exists (c' =? 10)%Z. split; [done|]. intros ->%Z.eqb_eq.
    destruct (decide (j = S nl)) as [->|]; [congruence|lia].
  - apply lookup_lt_Some in Hz. apply lookup_ge_None in Hc'. lia.
Qed.

Lemma fdgets_loop_ok fuel buf st off fd :
  0 < length buf -> ok buf st -> off ≤ S_OFF st -> length buf - S_OFF st < fuel ->
  exists r buf' st' fd', fdgets_loop fuel buf st off fd = Some (r, (buf', st', fd')) /\
    length buf' = length buf /\ ok buf' st'.
Proof.
  revert buf st off fd. induction fuel as [|fuel IH]; intros buf st off fd Hlen Hok Hoff Hf; [lia|].
  pose proof (ok_room _ _ Hok Hlen) as Hroom. cbn [fdgets_loop].
  destruct (scan_ok _ _ _ Hok Hoff) as [->|(i & c & j & -> & Hc & _ & Hij & Hj & Hz)]; simpl.
  - rewrite bool_decide_eq_false_2 by lia.
    case_bool_decide; [eexists _, _, _, _; split; [done|split; [done|split; [apply Hok|by left]]]|].
    destruct (read _ fd) as [[[|x s]|] fd'] eqn:Hr.
    + eexists _, _, _, _; split; [done|split; [done|split; [apply Hok|by left]]].
    + apply read_length in Hr. remember (x :: s) as s' eqn:Es.
      rewrite put_in by lia. simpl.
      set (b1 := take _ buf ++ _).
      assert (length b1 = length buf) as Hb1 by (subst b1; rewrite !length_app, length_take, length_drop; lia).
      destruct (put b1 (S_OFF st + length s') [0%Z]) as [b2|] eqn:Hb2;
        [|unfold put in Hb2; rewrite bool_decide_eq_true_2 in Hb2 by (simpl; lia); done].
      pose proof (put_length _ _ _ _ Hb2). rewrite <- Hb1, <- (put_length _ _ _ _ Hb2). simpl.
      apply IH; [lia| |simpl; lia|simpl; subst s'; simpl; lia].
      split; [rewrite (put_length _ _ _ _ Hb2), Hb1; apply Hok|right].
      exists (S_OFF st + length s'). split; [done|]. by apply put_at in Hb2.
    + by exists None, buf, st, fd'.
  - rewrite Hc. simpl. destruct (crlf_at_ok _ _ _ _ Hc Hij Hz) as (b & -> & Hb). simpl.
    pose proof (lookup_lt_Some _ _ _ Hc). pose proof (lookup_lt_Some _ _ _ Hz).
    destruct (put buf (off + i) [0%Z]) as [b2|] eqn:Hb2;
      [|unfold put in Hb2; rewrite bool_decide_eq_true_2 in Hb2 by (simpl; lia); done].
    pose proof (put_length _ _ _ _ Hb2) as Hl2. simpl. eexists _, _, _, _. split; [done|]. split; [done|].
    split; simpl; [destruct b; [specialize (Hb eq_refl)|]; lia|right]. exists j. split; [done|].
    rewrite (put_lookup _ _ _ _ _ Hb2) by (simpl; lia). done.
Qed.

Lemma fdgets_safe buf st fd :
  0 < length buf -> ok buf st ->
  exists r buf' st' fd', fdgets buf st fd = Some (r, (buf', st', fd')) /\ length buf' = length buf /\ ok buf' st'.
Proof.
  intros Hlen Hok. unfold fdgets.
  destruct (shift_ok _ _ Hlen Hok) as (b & s & -> & Hb & Hs & _). cbn [mbind option_bind]. rewrite <- Hb.
  apply fdgets_loop_ok; [lia|done|lia|lia].
Qed.

(** * The lines of a text *)

(** A line ends at a line feed, a carriage return or both; [cur] is what was read of
    the current one, and an unfinished line counts if it has bytes. *)
Fixpoint lines_from (cur s : list Z) : list (list Z) :=
  match s with
  | [] => if bool_decide (cur = []) then [] else [cur]
  | c :: s =>
    if (c =? 10)%Z then cur :: lines_from [] s
    else if (c =? 13)%Z then
      match s with
      | c' :: s' => if (c' =? 10)%Z then cur :: lines_from [] s' else cur :: lines_from [] s
      | [] => [cur]
      end
    else lines_from (cur ++ [c]) s
  end.

Definition lines (s : list Z) : list (list Z) := lines_from [] s.

(** Bytes of a line. *)
Definition plain (c : Z) : Prop := c ≠ 0%Z /\ is_nl c = false.

(** What ends a line that [rest] follows. *)
Definition ends (nl rest : list Z) : Prop :=
  nl = [10%Z] \/ nl = [13%Z; 10%Z] \/ (nl = [13%Z] /\ head rest ≠ Some 10%Z).

Lemma is_nl_false c : is_nl c = false <-> c ≠ 13%Z /\ c ≠ 10%Z.
Proof. unfold is_nl. rewrite orb_false_iff, !Z.eqb_neq. done. Qed.

Lemma lines_from_plain cur t s : Forall plain t -> lines_from cur (t ++ s) = lines_from (cur ++ t) s.
Proof.
  intros Ht. revert cur. induction Ht as [|c t [_ [H13 H10]%is_nl_false] _ IH]; intros cur; simpl.
  - by rewrite app_nil_r.
  - destruct (Z.eqb_spec c 10), (Z.eqb_spec c 13); try done. rewrite IH, <- app_assoc. done.
Qed.

Lemma lines_cons t nl s : Forall plain t -> ends nl s -> lines (t ++ nl ++ s) = t :: lines s.
Proof.
  intros Ht Hn. unfold lines. rewrite lines_from_plain by done. simpl.
  destruct Hn as [->|[->|[-> Hs]]]; simpl; [done|done|].
  destruct s as [|c s]; [done|]. simpl in Hs. destruct (Z.eqb_spec c 10); [congruence|done].
Qed.

Lemma lines_last t : Forall plain t -> t ≠ [] -> lines t = [t].
Proof.
  intros Ht Hne. unfold lines. rewrite <- (app_nil_r t) at 1. rewrite lines_from_plain by done.
  simpl. by rewrite bool_decide_eq_false_2.
Qed.

(** * Whole lines

    The buffer is right if no read ends inside a line of which it has the
    beginning but not the end after another line: a read that has the end of a
    line ends with one. *)

Definition tidy (s : list Z) : Prop :=
  s ≠ [] /\ (0%Z ∉ s) /\ (Forall plain s \/ last s = Some 10%Z).

(** The chunks fit in a buffer of size [m] that has [p] bytes of a line. *)
Fixpoint fits (m p : nat) (cs : list (list Z)) : Prop :=
  match cs with
  | [] => p < m
  | s :: cs => p + length s < m /\ fits m (if bool_decide (last s = Some 10%Z) then 0 else p + length s) cs
  end.

(** The bytes that were read and not returned: whole lines. *)
Record pending (buf : list Z) (st : state) (P : list Z) : Prop := {
  pd_off : S_OFF st < length buf;
  pd_is : drop (S_NL st) (take (S_OFF st) buf) = P;
  pd_nul : (0%Z ∉ P);
  pd_lf : P = [] \/ last P = Some 10%Z
}.

Lemma first_line s :
  (0%Z ∉ s) -> last s = Some 10%Z ->
  exists t nl r, s = t ++ nl ++ r /\ Forall plain t /\ (forall r', ends nl (r ++ r') ) /\
    (0%Z ∉ r) /\ (r = [] \/ last r = Some 10%Z).
Proof.
  induction s as [|c s IH]; intros H0 Hl; [done|].
  assert (s = [] \/ last s = Some 10%Z) as Hs.
  { destruct s; [by left|right]. done. }
  destruct (decide (c = 10%Z)) as [->|H10].
  { exists [], [10%Z], s. repeat split; [constructor|by left|set_solver|done]. }
  destruct Hs as [->|Hs]; [simpl in Hl; congruence|].
  destruct (decide (c = 13%Z)) as [->|H13].
  - destruct s as [|c' s]; [done|]. destruct (decide (c' = 10%Z)) as [->|Hc'].
    + exists [], [13%Z; 10%Z], s. repeat split; [constructor|by right; left|set_solver|].
      destruct s; [by left|by right].
    + exists [], [13%Z], (c' :: s). repeat split; [constructor| |set_solver|by right].
      intros r'. right; right. split; [done|]. simpl. congruence.
  - destruct IH as (t & nl & r & -> & Ht & Hn & Hr); [set_solver|done|].
    exists (c :: t), nl, r. repeat split; [|done|apply Hr|apply Hr].
    constructor; [|done]. split; [set_solver|]. by apply is_nl_false.
Qed.

Lemma strpbrk_plain t s : Forall plain t -> strpbrk (t ++ s) = option_map (option_map (plus (length t))) (strpbrk s).
Proof.
  induction 1 as [|c t [H0 Hn] _ IH]; simpl.
  - by destruct (strpbrk s) as [[]|].
  - destruct (Z.eqb_spec c 0); [done|]. rewrite Hn, IH. by destruct (strpbrk s) as [[]|].
Qed.

Lemma cstr_plain t s : Forall plain t -> cstr (t ++ 0%Z :: s) = t.
Proof.
  induction 1 as [|c t [H0 Hn] _ IH]; simpl; [done|]. destruct (Z.eqb_spec c 0); [done|]. by rewrite IH.
Qed.

Lemma put_mid a b s c : length b = length s -> put (a ++ b ++ c) (length a) s = Some (a ++ s ++ c).
Proof.
  intros E. rewrite put_in by (rewrite !length_app; lia).
  rewrite take_app_length, <- E, <- length_app, (app_assoc a b c), drop_app_length. done.
Qed.

(** A line that the buffer has. *)
Lemma loop_found fuel st p t nl r D fd :
  Forall plain (p ++ t) -> ends nl (r ++ D) -> D ≠ [] -> S_OFF st = length (p ++ t ++ nl ++ r) ->
  fdgets_loop (S fuel) (p ++ t ++ nl ++ r ++ D) st (length p) fd =
  Some (Some (p ++ t), ((p ++ t) ++ 0%Z :: tail nl ++ r ++ D, mk_state (S_OFF st) (length (p ++ t ++ nl)), fd)).
Proof.
  intros Hp Hn HD Hoff. cbn [fdgets_loop].
  assert (exists c u, nl = c :: u /\ is_nl c = true) as (c & u & -> & Hc).
  { destruct Hn as [->|[->|[-> _]]]; by eexists _, _. }
  assert (scan (p ++ t ++ (c :: u) ++ r ++ D) st (length p) = Some (Some (length t))) as ->.
  { unfold scan. rewrite bool_decide_eq_false_2 by (rewrite Hoff, !length_app; simpl; lia).
    rewrite drop_app_length, strpbrk_plain by (by apply Forall_app in Hp as [_ Hp]).
    simpl. rewrite Hc. destruct (Z.eqb_spec c 0) as [->|_]; [done|]. simpl. by rewrite Nat.add_0_r. }
  cbn [mbind option_bind].
  rewrite <- length_app, app_assoc, <- app_comm_cons, list_lookup_middle by done. simpl.
  assert (crlf_at ((p ++ t) ++ c :: u ++ r ++ D) (length (p ++ t)) c = Some (bool_decide (u ≠ []))) as ->.
  { unfold crlf_at. replace (S (length (p ++ t))) with (length (p ++ t) + 1) by lia.
    rewrite lookup_app_r, Nat.add_comm, Nat.add_sub by lia.
    destruct Hn as [[= -> ->]|[[= -> ->]|[[= -> ->] Hr]]]; simpl; [done|done|].
    destruct (r ++ D) as [|x s] eqn:E; [by destruct r|]. simpl in *. by destruct (Z.eqb_spec x 10); [congruence|]. }
  cbn [mbind option_bind].
  change (c :: u ++ r ++ D) with ([c] ++ u ++ r ++ D).
  rewrite (put_mid (p ++ t) [c] [0%Z] (u ++ r ++ D)) by done. simpl. rewrite cstr_plain by done.
  repeat f_equal. rewrite !length_app. simpl.
  destruct Hn as [[= -> ->]|[[= -> ->]|[[= -> ->] Hr]]]; simpl; lia.
Qed.

Lemma shift_pending buf st P :
  pending buf st P ->
  exists D, shift buf st = Some (P ++ D, mk_state (length P) 0) /\ length (P ++ D) = length buf /\ D ≠ [].
Proof.
  intros [Hoff HP _ _]. subst P. rewrite length_drop, length_take, Nat.min_l by lia. unfold shift.
  case_bool_decide as H0.
  - exists (drop (S_OFF st) buf). rewrite H0, drop_0, take_drop, Nat.sub_0_r, <- H0.
    split; [by destruct st|]. split; [done|]. intros E%(f_equal length). rewrite length_drop in E. simpl in E. lia.
  - case_bool_decide as Hlt.
    + unfold memmove. rewrite bool_decide_eq_true_2 by lia. simpl.
      exists (drop (S_OFF st - S_NL st) buf).
      rewrite skipn_firstn_comm. split; [done|].
      rewrite !length_app, length_take, !length_drop. split; [lia|].
      intros E%(f_equal length). rewrite length_drop in E. simpl in E. lia.
    + exists buf. rewrite drop_ge by (rewrite length_take; lia).
      replace (S_OFF st - S_NL st) with 0 by lia. split; [done|]. split; [done|].
      intros ->. simpl in Hoff. lia.
Qed.

(** What a call gives: the first line, and a state that has the others. *)
Definition gives (m : nat) (text : list Z) (r : option result) : Prop :=
  (text = [] /\ exists x, r = Some (None, x)) \/
  exists l buf st P cs, r = Some (Some l, (buf, st, map Data cs)) /\
    lines text = l :: lines (P ++ concat cs) /\ length buf = m /\ pending buf st P /\
    fits m 0 cs /\ Forall tidy cs.

Lemma pending_nil buf st : S_OFF st = 0 -> 0 < length buf -> pending buf st [].
Proof. intros H ?. split; [lia|by rewrite H, take_0, drop_nil|apply not_elem_of_nil|by left]. Qed.

Lemma gives_found m fuel p s D cs :
  Forall plain p -> (0%Z ∉ s) -> last s = Some 10%Z -> D ≠ [] -> length (p ++ s ++ D) = m ->
  fits m 0 cs -> Forall tidy cs ->
  gives m (p ++ s ++ concat cs)
    (fdgets_loop (S fuel) (p ++ s ++ D) (mk_state (length (p ++ s)) 0) (length p) (map Data cs)).
Proof.
  intros Hp H0 Hl HD Hm Hf Hcs. destruct (first_line s H0 Hl) as (t & nl & r & -> & Ht & Hn & Hr & Hrl).
  rewrite <- !app_assoc. rewrite loop_found; [|by apply Forall_app|done|done|done].
  right. eexists _, _, _, r, cs. split; [done|]. split.
  { rewrite app_assoc. apply lines_cons; [by apply Forall_app|done]. }
  assert (length nl = S (length (tail nl))) as Hnl by (by destruct (Hn []) as [->|[->|[-> _]]]).
  assert (0 < length D) by (destruct D; simpl; [done|lia]).
  split; [rewrite <- Hm; rewrite !length_app; simpl; rewrite !length_app; lia|].
  split; [|done]. split; simpl; [rewrite !length_app; simpl; rewrite !length_app; lia| |done|done].
  replace ((p ++ t) ++ 0%Z :: tail nl ++ r ++ D) with (((p ++ t ++ 0%Z :: tail nl) ++ r) ++ D)
    by (rewrite <- !app_assoc; done).
  replace (length (p ++ t ++ nl ++ r)) with (length ((p ++ t ++ 0%Z :: tail nl) ++ r))
    by (rewrite !length_app; simpl; lia).
  rewrite take_app_length.
  replace (length (p ++ t ++ nl)) with (length (p ++ t ++ 0%Z :: tail nl)) by (rewrite !length_app; simpl; lia).
  apply drop_app_length.
Qed.

Lemma scan_partial p D off :
  Forall plain p -> (p = [] \/ head D = Some 0%Z) -> off ≤ length p ->
  scan (p ++ D) (mk_state (length p) 0) off = Some None.
Proof.
  intros Hp Hz Hoff. unfold scan. simpl. case_bool_decide as Hp0; [done|].
  destruct Hz as [->|Hz]; [done|]. destruct D as [|z D]; [done|]. simplify_eq/=.
  rewrite drop_app_le by done. rewrite strpbrk_plain by (by apply Forall_drop). done.
Qed.

(** The last line has no end. *)
Lemma gives_last m p D fd :
  Forall plain p -> p ≠ [] -> head D = Some 0%Z -> length (p ++ D) = m -> 1 < m -> fd = [] ->
  gives m (p ++ []) (Some (Some (cstr (p ++ D)), (p ++ D, mk_state 0 0, fd))).
Proof.
  intros Hp Hne Hz Hm Hm1 ->. destruct D as [|z D]; [done|]. simplify_eq/=. right.
  eexists _, _, _, [], []. split; [done|]. rewrite cstr_plain, app_nil_r, lines_last by done.
  split; [done|]. split; [done|]. split; [by apply pending_nil; [|lia]|]. split; [simpl; lia|constructor].
Qed.

Lemma read_chunk n s fd : length s ≤ n -> read n (Data s :: fd) = (Some s, fd).
Proof. intros H. simpl. by rewrite bool_decide_eq_true_2, firstn_all2. Qed.

Lemma gives_loop m fuel p D off cs :
  1 < m -> length (p ++ D) = m -> Forall plain p -> (p = [] \/ head D = Some 0%Z) -> off ≤ length p ->
  fits m (length p) cs -> Forall tidy cs -> m - length p < fuel ->
  gives m (p ++ concat cs) (fdgets_loop fuel (p ++ D) (mk_state (length p) 0) off (map Data cs)).
Proof.
  intros Hm. revert fuel p D off.
  induction cs as [|s cs IH]; intros fuel p D off Hlen Hp Hz Hoff Hfit Hcs Hf;
    (destruct fuel as [|fuel]; [lia|]); cbn [fdgets_loop]; rewrite scan_partial by done;
    cbn [mbind option_bind S_OFF S_NL]; rewrite bool_decide_eq_false_2 by lia; simpl in Hfit.
  - destruct (decide (p = [])) as [->|Hne].
    + rewrite bool_decide_eq_false_2 by (simpl in *; lia). left. simpl. split; [done|by eexists].
    + destruct Hz as [|Hz]; [done|]. simpl. case_bool_decide; [by apply gives_last|].
      rewrite bool_decide_eq_false_2 by (by destruct p). by apply gives_last.
  - apply list.Forall_cons in Hcs as [(Hs & H0 & Hnl) Hcs]. destruct Hfit as [Hfs Hfit].
    assert (0 < length s) by (destruct s; simpl; [done|lia]).
    rewrite bool_decide_eq_false_2 by lia. cbn [map]. rewrite read_chunk by lia. rewrite length_app in Hlen.
    destruct s as [|x s0]; [done|]. remember (x :: s0) as s eqn:Es. clear Es x s0 Hs.
    assert (exists D1 z D2, D = D1 ++ z :: D2 /\ length D1 = length s) as (D1 & z & D2 & -> & HD1).
    { exists (take (length s) D). destruct (drop (length s) D) as [|z D2] eqn:E.
      - apply (f_equal length) in E. rewrite length_drop in E. simpl in E. lia.
      - exists z, D2. rewrite <- E, take_drop, length_take. split; [done|lia]. }
    rewrite length_app in Hlen. cbn [length] in Hlen.
    rewrite put_mid by done. cbn [mbind option_bind]. cbv zeta. cbn [S_OFF S_NL]. rewrite app_assoc, <- length_app.
    change (z :: D2) with ([z] ++ D2). rewrite (put_mid (p ++ s) [z] [0%Z]) by done.
    cbn [mbind option_bind]. case_bool_decide as Hlf.
    + destruct fuel as [|fuel]; [lia|]. rewrite <- app_assoc.
      apply gives_found; [done|done|done|done|rewrite !length_app; simpl; lia|done|done].
    + destruct Hnl as [Hpl|]; [|done]. simpl concat. rewrite app_assoc.
      rewrite <- length_app in Hfit.
      apply IH; [rewrite !length_app; simpl; lia|by apply Forall_app|by right| |done|done|]; rewrite length_app; lia.
Qed.

Lemma fdgets_gives m buf st P cs :
  1 < m -> length buf = m -> pending buf st P -> fits m 0 cs -> Forall tidy cs ->
  gives m (P ++ concat cs) (fdgets buf st (map Data cs)).
Proof.
  intros Hm Hlen Hpd Hfit Hcs. unfold fdgets.
  destruct (shift_pending _ _ _ Hpd) as (D & -> & HD & Hne). cbn [mbind option_bind].
  destruct Hpd as [_ _ H0 [->|Hl]].
  - apply (gives_loop _ _ []); [done|simpl in *; lia|constructor|by left|done|done|done|simpl in *; lia].
  - apply (gives_found _ _ [] P D); [constructor|done|done|done|simpl in *; lia|done|done].
Qed.

Lemma getlines_lines m cs fuel :
  1 < m -> fits m 0 cs -> Forall tidy cs -> length (lines (concat cs)) < fuel ->
  getlines fuel (replicate m 0%Z) (mk_state 0 0) (map Data cs) = Some (lines (concat cs)).
Proof.
  intros Hm Hfit Hcs. change (concat cs) with ([] ++ concat cs).
  assert (length (replicate m 0%Z) = m) as Hlen by apply length_replicate.
  assert (pending (replicate m 0%Z) (mk_state 0 0) []) as Hpd by (apply pending_nil; [done|lia]).
  revert Hlen Hpd. generalize (replicate m 0%Z) (mk_state 0 0) (@nil Z).
  revert cs Hfit Hcs. induction fuel as [|fuel IH]; intros cs Hfit Hcs buf st P Hlen Hpd Hf; [lia|].
  cbn [getlines]. destruct (fdgets_gives m buf st P cs) as [[E (x & ->)]|Hg]; try done.
  - destruct x as [[]]. simpl. by rewrite E.
  - destruct Hg as (l & buf' & st' & P' & cs' & -> & Hl & Hlen' & Hpd' & Hfit' & Hcs'). simpl.
    rewrite Hl in Hf |- *. simpl in Hf. rewrite (IH cs' Hfit' Hcs' buf' st' P'); [done|done|done|lia].
Qed.

(** ** The documented lines

    Lines end at a line feed; a carriage return right before it is not part of the line. *)

Definition chomp (l : list Z) : list Z := if bool_decide (last l = Some 13%Z) then take (length l - 1) l else l.

Fixpoint lf_lines (cur s : list Z) : list (list Z) :=
  match s with
  | [] => if bool_decide (cur = []) then [] else [cur]
  | c :: s => if (c =? 10)%Z then chomp cur :: lf_lines [] s else lf_lines (cur ++ [c]) s
  end.

(** Every carriage return is before a line feed. *)
Definition paired (s : list Z) : Prop := forall i, s !! i = Some 13%Z -> s !! S i = Some 10%Z.

Lemma paired_cons c s : paired (c :: s) -> (c = 13%Z -> head s = Some 10%Z) /\ paired s.
Proof.
  intros H. split; [intros ->; specialize (H 0 eq_refl); by destruct s|]. intros i Hi. exact (H (S i) Hi).
Qed.

Lemma chomp_plain l : 13%Z ∉ l -> chomp l = l.
Proof.
  intros H. unfold chomp. rewrite bool_decide_eq_false_2; [done|]. intros E. apply H.
  rewrite last_lookup in E. by eapply list_elem_of_lookup_2.
Qed.

Lemma lf_lines_lines n cur s : length s ≤ n -> paired s -> (13%Z ∉ cur) -> lines_from cur s = lf_lines cur s.
Proof.
  revert cur s. induction n as [|n IH]; intros cur [|c s] Hn Hp Hc; [done|simpl in Hn; lia|done|]. simpl in Hn.
  apply paired_cons in Hp as [H13 Hp]. cbn [lines_from lf_lines].
  destruct (Z.eqb_spec c 10) as [->|H10]; [rewrite chomp_plain by done; f_equal; apply IH; [lia|done|apply not_elem_of_nil]|].
  destruct (Z.eqb_spec c 13) as [->|Hn13].
  - specialize (H13 eq_refl). destruct s as [|c' s]; simplify_eq/=. apply paired_cons in Hp as [_ Hp]. f_equal.
    + unfold chomp. rewrite last_snoc, bool_decide_eq_true_2, length_app by done. simpl.
      rewrite Nat.add_sub. by rewrite take_app_length.
    + apply IH; [lia|done|apply not_elem_of_nil].
  - apply IH; [lia|done|]. set_solver.
Qed.

(** C21: a caller that reads until the end of the file gets the lines of the input, in
    order and each once, the last possibly unfinished, if the input has no zero byte, a
    line with what was read with it fits in the buffer, and every read that sees the end of
    a line ends with a line feed.  A line ends at a line feed, a carriage return or both; these
    are the documented lines, which only a line feed ends, if every carriage
    return is before a line feed.  However the input is cut, each call returns and stays inside
    the buffer. *)
Theorem fdgets_lines m :
  1 < m ->
  (forall cs fuel, fits m 0 cs -> Forall tidy cs -> length (lines (concat cs)) < fuel ->
     getlines fuel (replicate m 0%Z) (mk_state 0 0) (map Data cs) = Some (lines (concat cs)) /\
     (paired (concat cs) -> lines (concat cs) = lf_lines [] (concat cs))) /\
  (ok (replicate m 0%Z) (mk_state 0 0) /\
   forall buf st fd, length buf = m -> ok buf st ->
     exists r buf' st' fd', fdgets buf st fd = Some (r, (buf', st', fd')) /\ length buf' = m /\ ok buf' st').
Proof.
  intros Hm. split; [|split; [apply ok_init|]].
  - intros cs fuel Hf Ht Hl. split; [by apply getlines_lines|]. intros Hp.
    by apply (lf_lines_lines (length (concat cs))); [|done|apply not_elem_of_nil].
  - intros buf st fd <- Hok. apply fdgets_safe; [lia|done].
Qed.

#[export] Instance plain_dec c : Decision (plain c).
Proof. unfold plain. apply _. Defined.
#[export] Instance tidy_dec s : Decision (tidy s).
Proof. unfold tidy. apply _. Defined.

Lemma fdgets_lines_witness :
  getlines 4 (replicate 12 0%Z) (mk_state 0 0)
    (map Data [bytes "a" ++ [10%Z] ++ bytes "bb" ++ [13%Z; 10%Z]; bytes "cc"; bytes "dd" ++ [10%Z]])
  = Some [bytes "a"; bytes "bb"; bytes "ccdd"].
Proof.
  destruct (fdgets_lines 12) as [H _]; [lia|].
  apply (H [bytes "a" ++ [10%Z] ++ bytes "bb" ++ [13%Z; 10%Z]; bytes "cc"; bytes "dd" ++ [10%Z]] 4);
    [simpl; lia| |vm_compute; lia].
  by apply (bool_decide_unpack _); vm_compute.
Defined.

(** * The other operations *)

(** The bytes that were read and not returned, in the buffer and before it. *)
Definition unread (buf : list Z) (st : state) : list Z := drop (S_NL st) (take (S_OFF st) buf).

Definition text (fd : list chunk) : list Z := concat (map (fun c => match c with Data s => s | Error => [] end) fd).

Lemma shift_unread buf st :
  0 < length buf -> ok buf st ->
  exists buf' st', shift buf st = Some (buf', st') /\ length buf' = length buf /\ ok buf' st' /\ S_NL st' = 0 /\
    take (S_OFF st') buf' = unread buf st.
Proof.
  intros Hlen Hok. destruct (shift_ok _ _ Hlen Hok) as (buf' & st' & Hs & Hl & Hok' & Hnl).
  exists buf', st'. repeat (split; [done|]). pose proof (ok_room _ _ Hok Hlen). unfold shift in Hs. unfold unread.
  case_bool_decide as H0; [simplify_eq; by rewrite H0|]. case_bool_decide.
  - unfold memmove in Hs. rewrite bool_decide_eq_true_2 in Hs by lia. simplify_eq/=.
    rewrite skipn_firstn_comm. rewrite take_app_le by (rewrite length_take, length_drop; lia).
    apply take_ge. rewrite length_take. lia.
  - simplify_eq/=. by rewrite drop_ge by (rewrite length_take; lia).
Qed.

Lemma read_text n fd s fd' : read n fd = (Some s, fd') -> s ++ text fd' = text fd.
Proof.
  destruct fd as [|[x|] fd]; simpl; [by intros [= <- <-]| |done]. unfold text. case_bool_decide; intros [= <- <-]; simpl.
  - by rewrite firstn_all2.
  - by rewrite app_assoc, take_drop.
Qed.

(** Reading a number of bytes goes on where the lines ended: nothing is lost, added or
    reordered between the buffer, the descriptor and the caller. *)
Lemma fdgets_read_stream count buf st fd :
  0 < length buf -> ok buf st ->
  exists r buf' st' fd', fdgets_read count buf st fd = Some (r, (buf', st', fd')) /\
    length buf' = length buf /\ ok buf' st' /\
    match r with
    | Some d => d ++ unread buf' st' ++ text fd' = unread buf st ++ text fd /\ length d ≤ count
    | None => exists fd0, fd = Error :: fd0
    end.
Proof.
  intros Hlen Hok. unfold fdgets_read.
  destruct (shift_unread _ _ Hlen Hok) as (b & s & -> & Hb & Hs & Hnl & <-). simpl.
  rewrite <- Hb in Hlen. pose proof (ok_room _ _ Hs Hlen) as Hroom. case_bool_decide as Hc.
  - unfold memmove. rewrite bool_decide_eq_true_2 by lia. simpl. eexists _, _, _, _. split; [done|].
    split; [rewrite length_app, length_take, !length_drop; lia|]. split; [split; simpl|split].
    + lia.
    + destruct (decide (S_OFF s - count = 0)) as [|Hne]; [by left|right].
      destruct (ok_off _ _ (S_OFF s) Hs) as (j & Hj & Hz); [lia|done|]. exists j. split; [lia|].
      rewrite lookup_app_r by (rewrite length_take, length_drop; lia).
      rewrite lookup_drop, length_take, length_drop, <- Hz. f_equal. lia.
    + unfold unread. simpl. rewrite Hnl, drop_0, app_assoc. f_equal.
      rewrite take_app_le by (rewrite length_take, length_drop; lia).
      rewrite take_take, Nat.min_id, <- skipn_firstn_comm.
      rewrite <- (take_drop count (take (S_OFF s) b)) at 2. by rewrite take_take, Nat.min_l.
    + rewrite length_take. lia.
  - rewrite bool_decide_eq_true_2 by lia. rewrite length_take, Nat.min_l by lia.
    assert (ok b (mk_state 0 (S_NL s))) as Hok0 by (split; simpl; [rewrite Hnl; lia|by left]).
    destruct (read (count - S_OFF s) fd) as [[d|] fd'] eqn:Hr; eexists _, _, _, _; (split; [done|]);
      (split; [done|]); (split; [done|]).
    + unfold unread. simpl. rewrite take_0, drop_nil. simpl. rewrite <- app_assoc, (read_text _ _ _ _ Hr). split; [done|].
      apply read_length in Hr. rewrite length_app, length_take. lia.
    + destruct fd as [|[|] fd]; simpl in Hr; simplify_eq. by eexists.
Qed.

(** Moving to another buffer keeps the unread bytes that fit in it. *)
Lemma fdgets_copy_keeps dst src st :
  0 < length dst -> 0 < length src -> ok src st ->
  exists n dst' st', fdgets_copy dst src st = Some (n, dst', st') /\ length dst' = length dst /\ ok dst' st' /\
    unread dst' st' = take (length dst - 1) (unread src st) /\ n = length (unread dst' st').
Proof.
  intros Hd Hs Hok. unfold fdgets_copy. rewrite bool_decide_eq_false_2 by lia.
  pose proof (ok_room _ _ Hok Hs) as Hroom. pose proof (proj1 Hok) as Hnl0. unfold unread.
  set (n := Nat.min (length dst - 1) (S_OFF st - S_NL st)).
  assert (bounded (length dst) (S_OFF st - S_NL st) = n) as Hn by (subst n; unfold bounded; case_bool_decide; lia).
  assert (memcpy dst src (S_NL st) n = Some (take n (drop (S_NL st) src) ++ drop n dst)) as Hput.
  { unfold memcpy. rewrite bool_decide_eq_true_2 by lia. rewrite put_in by (rewrite length_take, length_drop; lia). simpl.
    by rewrite length_take, length_drop, Nat.min_l by lia. }
  match goal with |- context [ mbind (M:=option) _ ?e ] => assert (e = Some (n, take n (drop (S_NL st) src) ++ drop n dst)) as -> end.
  { cbv zeta. case_bool_decide as Hnl.
    - case_bool_decide; [by rewrite Hn, Hput|by replace n with 0 by lia].
    - assert (S_NL st = 0) as E by (by destruct (decide (S_NL st = 0))). rewrite E, Nat.sub_0_r in Hn.
      rewrite E in Hput |- *. case_bool_decide; [by rewrite Hn, Hput|by replace n with 0 by lia]. }
  assert (length (take n (drop (S_NL st) src) ++ drop n dst) = length dst) as Hl
    by (rewrite length_app, length_take, !length_drop; lia).
  assert (length (take n (drop (S_NL st) src)) = n) as Hl1 by (rewrite length_take, length_drop; lia).
  cbn [mbind option_bind]. rewrite put_in by (simpl; lia). eexists _, _, _. split; [done|]. simpl.
  rewrite drop_0, take_app_le, (take_ge (take _ _)) by lia.
  assert (take n (take n (drop (S_NL st) src) ++ 0%Z :: drop (n + 1) (take n (drop (S_NL st) src) ++ drop n dst)) =
          take n (drop (S_NL st) src)) as Ht by (by rewrite take_app_le, (take_ge (take _ _)) by lia).
  rewrite Ht, skipn_firstn_comm, take_take. repeat split; simpl.
  - rewrite length_app. simpl. rewrite length_drop, Hl. lia.
  - lia.
  - right. exists n. split; [done|]. by rewrite lookup_app_r, Hl1, Nat.sub_diag by lia.
  - by rewrite Hl1.
Qed.

(** * What goes wrong *)

(** The rest of a line that came after another one has no terminator when it is moved
    to the front: with three lines in a read, of which the last is not finished, the
    third call returns old bytes up to an old line feed. *)
Theorem fdgets_stale_line :
  getlines 9 (replicate 32 0%Z) (mk_state 0 0)
    [Data (bytes "aaa" ++ [10%Z] ++ bytes "b" ++ [10%Z] ++ bytes "cc"); Data (bytes "dd" ++ [10%Z])]
  = Some [bytes "aaa"; bytes "b"; bytes "ccccb"; bytes "dd"] /\
  lines (bytes "aaa" ++ [10%Z] ++ bytes "b" ++ [10%Z] ++ bytes "cc" ++ bytes "dd" ++ [10%Z])
  = [bytes "aaa"; bytes "b"; bytes "ccdd"].
Proof. by vm_compute. Qed.

(** The last line of a file, if it has no line feed, comes with old bytes. *)
Theorem fdgets_stale_end :
  getlines 9 (replicate 32 0%Z) (mk_state 0 0) [Data (bytes "a" ++ [10%Z] ++ bytes "bcdef")]
  = Some [bytes "a"; bytes "bcdefef"].
Proof. by vm_compute. Qed.

(** A carriage return alone ends a line, too. *)
Theorem fdgets_lone_cr :
  getlines 9 (replicate 32 0%Z) (mk_state 0 0) [Data (bytes "a" ++ [13%Z] ++ bytes "b" ++ [10%Z])]
  = Some [bytes "a"; bytes "b"] /\
  lf_lines [] (bytes "a" ++ [13%Z] ++ bytes "b" ++ [10%Z]) = [bytes "a" ++ [13%Z] ++ bytes "b"].
Proof. by vm_compute. Qed.
