(* ===== verification/Mempool.v ===== *)
(** Memory pools (util/lib/mempool.c): mappings that are handed out from the
    start, addresses as numbers and memory as a map from them to bytes.  What mmap
    answers is an argument; that it is a page of its own is what [answered] says.
    [None] is an allocation that never returns, or an access to memory that is
    not mapped. *)
From stdpp Require Import prelude list numbers option gmap.
From Stdlib Require Import ZArith Lia.
From S2P Require Import Prelude.

Local Open Scope Z_scope.

(** * The pool *)

Definition roundup (x y : Z) : Z := (x + (y - 1)) / y * y.

(** [at_] is where the record itself is. *)
Record mempool_entry := mk_entry { at_ : Z; base : Z; sz : Z; curr : Z }.
Record mempool := mk_pool { entries : list mempool_entry; totsz : Z }.

(** The sizes of struct mempool and struct mempool_entry, of pointers and a size_t. *)
Definition sizeof_mempool : Z := 24.
Definition sizeof_mempool_entry : Z := 40.

(** The size that is mapped, and the pool for the answer of mmap. *)
Definition mempool_firstsz (pagesize firstsz : Z) : Z := u64 (roundup firstsz pagesize).

Definition mempool_create (pagesize firstsz : Z) (mmap : option Z) : option mempool :=
  let firstsz := mempool_firstsz pagesize firstsz in
  newbase ← mmap;
  let entry := newbase + roundup sizeof_mempool 16 in
  Some (mk_pool [mk_entry entry newbase firstsz (entry + roundup sizeof_mempool_entry 16)] firstsz).

(** The loop that doubles the size of a new mapping; once the size has wrapped to zero
    it stays there, so more turns than bits in a size_t do not end it. *)
Fixpoint grow (fuel : nat) (newsz sz : Z) : option Z :=
  match fuel with
  | O => None
  | S fuel => if newsz <? u64 (sz + sizeof_mempool_entry) then grow fuel (u64 (newsz * 2)) sz else Some newsz
  end.

(** What is left in the first entry, a size_t. *)
Definition left_in (entry : mempool_entry) : Z := u64 (sz entry - (curr entry - base entry)).

(** [mmap] is the answer for the size that is asked for, if one is. *)
Definition mempool_alloc (pool : mempool) (size : Z) (mmap : Z -> option Z) : option (option Z * mempool) :=
  match entries pool with
  | [] => None
  | entry :: rest =>
    if size <=? left_in entry then
      let entry' := mk_entry (at_ entry) (base entry) (sz entry) (curr entry + u64 (roundup size 16)) in
      Some (Some (curr entry), mk_pool (entry' :: rest) (totsz pool))
    else
      newsz ← grow 65 (totsz pool) size;
      match mmap newsz with
      | None => Some (None, pool)
      | Some newbase =>
        let res := newbase + roundup sizeof_mempool_entry 16 in
        let entry' := mk_entry newbase newbase newsz (res + u64 (roundup size 16)) in
        Some (Some res, mk_pool (entry' :: entries pool) (totsz pool))
      end
  end.

(** A pointer to no pool is calloc's answer. *)
Definition mempool_alloc_or_calloc (pool : option mempool) (size : Z) (mmap : Z -> option Z) (calloc : option Z) :
    option (option Z * option mempool) :=
  match pool with
  | None => Some (calloc, None)
  | Some pool => '(r, pool) ← mempool_alloc pool size mmap; Some (r, Some pool)
  end.

(** Bytes written from an address on. *)
Fixpoint store (m : gmap Z Z) (p : Z) (s : list Z) : gmap Z Z :=
  match s with [] => m | c :: s => store (<[p := c]> m) (p + 1) s end.

Definition mempool_strdup (pool : mempool) (m : gmap Z Z) (str : list Z) (len : Z) (mmap : Z -> option Z) :
    option (option Z * mempool * gmap Z Z) :=
  let len := if len <? 0 then Z.of_nat (length (cstr str)) else len in
  '(res, pool) ← mempool_alloc pool (len + 1) mmap;
  match res with
  | None => Some (None, pool, m)
  | Some p => Some (Some p, pool, store m p (take (Z.to_nat len) str ++ [0]))
  end.

(** The calls of mprotect and munmap.  The loop of mempool_free reads the next entry
    before it unmaps one, so every record it reads has to be mapped. *)
Definition mempool_finalize (pool : mempool) : list (Z * Z) :=
  map (fun e => (base e, sz e)) (entries pool).

Definition mapped (gone : list (Z * Z)) (p : Z) : bool :=
  forallb (fun r => (p <? r.1) || (r.1 + r.2 <=? p)) gone.

Fixpoint free_loop (gone : list (Z * Z)) (l : list mempool_entry) : option (list (Z * Z)) :=
  match l with
  | [] => Some gone
  | e :: l => if mapped gone (at_ e) then free_loop (gone ++ [(base e, sz e)]) l else None
  end.

Definition mempool_free (pool : mempool) : option (list (Z * Z)) := free_loop [] (entries pool).

(** * Pools in use *)

(** What mmap promises of an answer: pages of its own, in the address space. *)
Definition answered (es : list mempool_entry) (size b : Z) : Prop :=
  0 < b /\ b mod 16 = 0 /\ b + size <= 2 ^ 64 /\
  forall e, e ∈ es -> b + size <= base e \/ base e + sz e <= b.

(** The sizes for which the loop counts too little for the header: up to 8 bytes more
    than what a doubling of the first mapping has room for. *)
Definition short (firstsz size : Z) : Prop :=
  exists j : nat, firstsz * 2 ^ Z.of_nat j - 48 < size <= firstsz * 2 ^ Z.of_nat j - 40.

(** Whether the block needs a new mapping. *)
Definition needs_mapping (pool : mempool) (size : Z) : Prop :=
  match entries pool with [] => True | e :: _ => left_in e < size end.

(** A request whose size is not one of these, unless there is room already. *)
Definition asked (pool : mempool) (size : Z) : Prop :=
  0 <= size <= 2 ^ 63 - 40 /\ (needs_mapping pool size -> ~ short (totsz pool) size).

(** A block that was handed out, and the string that was put in it. *)
Record block := mk_block { b_ptr : Z; b_size : Z; b_str : option (list Z) }.

Inductive run (pagesize : Z) : mempool -> gmap Z Z -> list block -> Prop :=
| run_create firstsz b pool m :
    mempool_create pagesize firstsz (Some b) = Some pool ->
    0 < firstsz -> roundup firstsz pagesize < 2 ^ 64 -> answered [] (mempool_firstsz pagesize firstsz) b ->
    run pagesize pool m []
| run_alloc pool m bl size mmap r pool' :
    run pagesize pool m bl -> asked pool size ->
    (forall n b, mmap n = Some b -> answered (entries pool) n b) ->
    mempool_alloc pool size mmap = Some (r, pool') ->
    run pagesize pool' m (match r with Some p => mk_block p size None :: bl | None => bl end)
| run_strdup pool m bl str mmap r pool' m' :
    run pagesize pool m bl -> asked pool (Z.of_nat (length str) + 1) ->
    (forall n b, mmap n = Some b -> answered (entries pool) n b) ->
    mempool_strdup pool m str (Z.of_nat (length str)) mmap = Some (r, pool', m') ->
    run pagesize pool' m' (match r with Some p => mk_block p (Z.of_nat (length str) + 1) (Some (str ++ [0])) :: bl | None => bl end)
| run_write pool m bl b o s :
    run pagesize pool m bl -> b ∈ bl -> b_str b = None -> 0 <= o -> o + Z.of_nat (length s) <= b_size b ->
    run pagesize pool (store m (b_ptr b + o) s) bl.

(** * The invariant *)

Definition entry_ok (e : mempool_entry) : Prop :=
  0 < base e /\ base e mod 16 = 0 /\ sz e mod 16 = 0 /\ curr e mod 16 = 0 /\
  base e <= at_ e /\ at_ e + 48 <= curr e <= base e + sz e /\ base e + sz e <= 2 ^ 64.

Definition apart (p s q t : Z) : Prop := p + s <= q \/ q + t <= p.

Definition block_ok (es : list mempool_entry) (b : block) : Prop :=
  0 <= b_size b /\ b_ptr b mod 16 = 0 /\
  exists e, e ∈ es /\ at_ e + 48 <= b_ptr b /\ b_ptr b + b_size b <= curr e.

Record pool_ok (pool : mempool) (bl : list block) : Prop := {
  po_entries : Forall entry_ok (entries pool);
  po_apart : ForallOrdPairs (fun e f => apart (base e) (sz e) (base f) (sz f)) (entries pool);
  po_some : entries pool ≠ [];
  po_totsz : 16 <= totsz pool < 2 ^ 64 /\ totsz pool mod 16 = 0;
  po_blocks : Forall (block_ok (entries pool)) bl;
  po_disjoint : ForallOrdPairs (fun b c => apart (b_ptr b) (b_size b) (b_ptr c) (b_size c)) bl
}.

(** Arithmetic with divisions. *)

Lemma roundup_16 x : x <= roundup x 16 < x + 16 /\ roundup x 16 mod 16 = 0.
Proof. unfold roundup. split; [zdiv|]. rewrite Z.mod_mul; lia. Qed.

Lemma roundup_le x y : x mod 16 = 0 -> y <= x -> roundup y 16 <= x.
Proof. unfold roundup. intros. zdiv. Qed.

Lemma grow_mod16 fuel n s r : n mod 16 = 0 -> 0 <= n < 2 ^ 64 -> grow fuel n s = Some r -> r mod 16 = 0 /\ 0 <= r < 2 ^ 64.
Proof.
  revert n. induction fuel as [|fuel IH]; intros n Hn Hr H; [done|]. cbn [grow] in H.
  destruct (n <? _); [|simplify_eq; done]. apply IH in H; [done| |apply uwrap_range; lia].
  unfold uwrap. change (2 ^ 64) with (1152921504606846976 * 16). zdiv.
Qed.

Lemma left_in_ok e : entry_ok e -> left_in e = base e + sz e - curr e /\ 0 <= left_in e /\ left_in e mod 16 = 0.
Proof.
  intros (H1 & H2 & H3 & H4 & H5 & H6 & H7). unfold left_in. rewrite uwrap_small by lia.
  split; [lia|]. split; [lia|]. zdiv.
Qed.

Lemma grow_S fuel n s :
  grow (S fuel) n s = if n <? u64 (s + sizeof_mempool_entry) then grow fuel (u64 (n * 2)) s else Some n.
Proof. done. Qed.

Lemma grow_returns fuel n size :
  0 < n < 2 ^ 64 -> 0 <= size <= 2 ^ 63 - 40 -> size + 40 <= n * 2 ^ Z.of_nat fuel ->
  exists r, grow (S fuel) n size = Some r.
Proof.
  intros Hn Hs. revert n Hn. induction fuel as [|fuel IH]; intros n Hn Hf; rewrite grow_S;
    unfold sizeof_mempool_entry; rewrite (uwrap_small 64 (size + 40)) by lia;
    destruct (Z.ltb_spec n (size + 40)); try by eexists.
  - simpl in Hf. lia.
  - rewrite (uwrap_small 64 (n * 2)) by lia. apply IH; [lia|].
    rewrite Nat2Z.inj_succ, Z.pow_succ_r in Hf by lia. lia.
Qed.

(** The loop stops at the first doubling that is not below the size it counts. *)
Lemma grow_doubles fuel n size r :
  0 < n < 2 ^ 64 -> 0 <= size <= 2 ^ 63 - 40 -> grow fuel n size = Some r ->
  exists j : nat, r = n * 2 ^ Z.of_nat j /\ size + 40 <= r /\ (r = n \/ r < 2 * (size + 40)).
Proof.
  intros Hn Hs. revert n Hn. induction fuel as [|fuel IH]; intros n Hn; [done|].
  rewrite grow_S. unfold sizeof_mempool_entry. rewrite (uwrap_small 64 (size + 40)) by lia.
  destruct (Z.ltb_spec n (size + 40)); [|intros [= <-]; exists 0%nat; simpl; lia].
  rewrite (uwrap_small 64 (n * 2)) by lia. intros (j & E & Hr & Hj)%IH; [|lia]. exists (S j).
  rewrite Nat2Z.inj_succ, Z.pow_succ_r by lia. lia.
Qed.

(** Outside of the short sizes there is room for the header, too; for them there is not. *)
Lemma grow_room n size r :
  16 <= n < 2 ^ 64 -> 0 <= size <= 2 ^ 63 - 40 -> grow 65 n size = Some r ->
  (~ short n size -> size + 48 <= r) /\ (short n size -> r < size + 48).
Proof.
  intros Hn Hs Hg. destruct (grow_doubles 65 n size r) as (j & Hr & Hle & Hj); [lia|lia|done|]. split.
  - intros Hno. apply Z.nlt_ge. intros Hlt. apply Hno. exists j. lia.
  - intros (k & Hk). assert (n <= n * 2 ^ Z.of_nat k) by (pose proof (Z.pow_pos_nonneg 2 (Z.of_nat k)); nia).
    destruct Hj as [Hj|Hj]; [lia|]. apply Z.nle_gt. intros Hge.
    assert (forall a b : nat, (a < b)%nat -> 2 * 2 ^ Z.of_nat a <= 2 ^ Z.of_nat b) as Hpow.
    { intros a b Hab. rewrite <- Z.pow_succ_r by lia. apply Z.pow_le_mono_r; lia. }
    destruct (Nat.lt_trichotomy j k) as [Hl|[->|Hl]]; [apply Hpow in Hl; nia|lia|apply Hpow in Hl; nia].
Qed.

(** * The operations keep it *)

Lemma entry_moved es b e e' :
  at_ e' = at_ e -> curr e <= curr e' -> block_ok (e :: es) b -> block_ok (e' :: es) b.
Proof.
  intros Ha Hc (H0 & Hm & x & [->|Hx]%elem_of_cons & Hp & Hs); split; [done|split; [done|]|done|split; [done|]].
  - exists e'. split; [left|lia].
  - exists x. split; [by right|done].
Qed.

(** A block inside a region that is apart from the regions of the others. *)
Lemma block_apart es b p s B S :
  Forall entry_ok es -> block_ok es b -> B <= p -> p + s <= B + S ->
  (forall e, e ∈ es -> apart B S (base e) (sz e)) ->
  apart p s (b_ptr b) (b_size b).
Proof.
  intros Hes (H0 & _ & e & He & Hp & Hs) Hb Ht Ha. rewrite list.Forall_forall in Hes.
  destruct (Hes _ He) as (_ & _ & _ & _ & ? & ? & _). specialize (Ha _ He). unfold apart in *. lia.
Qed.

Lemma pool_ok_head pool bl e es :
  pool_ok pool bl -> entries pool = e :: es ->
  entry_ok e /\ Forall entry_ok es /\ (forall f, f ∈ es -> apart (base e) (sz e) (base f) (sz f)).
Proof.
  intros [He Ha _ _ _ _] E. rewrite E in *. inversion Ha as [|x l Hx Hl]; subst.
  apply list.Forall_cons in He as [??]. rewrite list.Forall_forall in Hx. done.
Qed.

(** The block is in the first entry. *)
Lemma alloc_here_ok pool bl e es size str :
  pool_ok pool bl -> entries pool = e :: es -> 0 <= size <= left_in e ->
  pool_ok (mk_pool (mk_entry (at_ e) (base e) (sz e) (curr e + u64 (roundup size 16)) :: es) (totsz pool))
    (mk_block (curr e) size str :: bl).
Proof.
  intros Hok E Hs. destruct (pool_ok_head _ _ _ _ Hok E) as (He & Hes & Ha).
  destruct (left_in_ok _ He) as (Hl & Hl0 & Hlm). pose proof (roundup_16 size) as [Hr Hrm].
  pose proof (roundup_le _ _ Hlm (proj2 Hs)) as Hle.
  pose proof He as (H1 & H2 & H3 & H4 & H5 & H6 & H7).
  rewrite (uwrap_small 64) by lia. destruct Hok as [Hes0 Hap Hne Htot Hbl Hdis]. rewrite E in *. split; simpl.
  - constructor; [|done]. unfold entry_ok. simpl. repeat split; try done; try lia. rewrite Z.add_mod, H4, Hrm; done.
  - inversion Hap; subst. by constructor.
  - done.
  - done.
  - constructor.
    + split; [simpl; lia|]. split; [done|]. exists (mk_entry (at_ e) (base e) (sz e) (curr e + roundup size 16)).
      split; [left|simpl; lia].
    + eapply Forall_impl; [exact Hbl|]. intros b. apply entry_moved; simpl; [done|lia].
  - constructor; [|done]. apply list.Forall_forall. intros b Hb. rewrite list.Forall_forall in Hbl.
    destruct (Hbl _ Hb) as (Hb0 & Hbm & x & [->|Hx]%elem_of_cons & Hp & Hq); [right; simpl; lia|].
    apply (block_apart es b _ _ (base e) (sz e)); simpl; [done| |lia|lia|done].
    split; [done|]. split; [done|]. by exists x.
Qed.

(** The block is in a new entry. *)
Lemma alloc_new_ok pool bl size str n b :
  pool_ok pool bl -> 0 <= size -> grow 65 (totsz pool) size = Some n -> size + 48 <= n ->
  answered (entries pool) n b ->
  pool_ok (mk_pool (mk_entry b b n (b + 48 + u64 (roundup size 16)) :: entries pool) (totsz pool))
    (mk_block (b + 48) size str :: bl).
Proof.
  intros [Hes Hap Hne [Ht Htm] Hbl Hdis] Hs Hg Hn (Hb & Hbm & Hbn & Hfresh).
  apply grow_mod16 in Hg as [Hnm Hn64]; [|done|lia]. pose proof (roundup_16 size) as [Hr Hrm].
  assert (roundup size 16 <= n - 48) as Hle by (apply roundup_le; [zdiv|lia]).
  rewrite (uwrap_small 64) by lia. split; simpl.
  - constructor; [|done]. unfold entry_ok. simpl. repeat split; try done; try lia. zdiv.
  - constructor; [|done]. apply list.Forall_forall. intros e He. simpl. apply Hfresh in He. unfold apart. lia.
  - done.
  - done.
  - constructor.
    + split; [done|]. split; [simpl; zdiv|]. eexists. split; [left|simpl; lia].
    + eapply Forall_impl; [exact Hbl|]. intros c (H0 & Hm & x & Hx & Hp). split; [done|]. split; [done|].
      exists x. split; [by right|done].
  - constructor; [|done]. apply list.Forall_forall. intros c Hc. rewrite list.Forall_forall in Hbl.
    apply (block_apart (entries pool) c _ _ b n); simpl; [done|by apply Hbl|lia|lia|].
    intros e He. apply Hfresh in He. unfold apart. lia.
Qed.

Lemma alloc_ok pool bl size mmap r pool' str :
  pool_ok pool bl -> asked pool size ->
  (forall n b, mmap n = Some b -> answered (entries pool) n b) ->
  mempool_alloc pool size mmap = Some (r, pool') ->
  pool_ok pool' (match r with Some p => mk_block p size str :: bl | None => bl end).
Proof.
  intros Hok [Hs Hroom] Hm H. unfold mempool_alloc, needs_mapping in *.
  destruct (entries pool) as [|e es] eqn:E; [done|].
  destruct (Z.leb_spec size (left_in e)); [simplify_eq; apply alloc_here_ok; done || lia|].
  destruct (grow 65 (totsz pool) size) as [n|] eqn:Hg; [|done]. cbn [mbind option_bind] in H.
  destruct (mmap n) as [b|] eqn:Hb; simplify_eq; [|done].
  change (roundup sizeof_mempool_entry 16) with 48. rewrite <- E. apply (alloc_new_ok pool bl size str n b); try done; [lia| |].
  - destruct (grow_room (totsz pool) size n) as [Hfit _]; [exact (proj1 (po_totsz _ _ Hok))|done|done|]. apply Hfit, Hroom. done.
  - rewrite E. by apply Hm.
Qed.

Lemma create_ok pagesize firstsz b pool :
  pagesize mod 16 = 0 -> 80 <= pagesize -> 0 < firstsz -> roundup firstsz pagesize < 2 ^ 64 ->
  answered [] (mempool_firstsz pagesize firstsz) b ->
  mempool_create pagesize firstsz (Some b) = Some pool -> pool_ok pool [].
Proof.
  intros Hp Hp0 Hf H64 Ha [= <-]. destruct Ha as (Hb & Hbm & Hbn & _). unfold mempool_firstsz in *.
  assert (pagesize <= roundup firstsz pagesize) as Hle.
  { unfold roundup. pose proof (Z.div_le_lower_bound (firstsz + (pagesize - 1)) pagesize 1). nia. }
  assert (roundup firstsz pagesize mod 16 = 0) as Hm.
  { unfold roundup. rewrite Z.mul_mod, Hp, Z.mul_0_r by lia. done. }
  rewrite (uwrap_small 64) in * by lia. change (roundup sizeof_mempool 16) with 32.
  change (roundup sizeof_mempool_entry 16) with 48. split; simpl.
  - constructor; [|done]. unfold entry_ok. simpl. repeat split; try done; try lia; zdiv.
  - repeat constructor.
  - done.
  - split; [lia|done].
  - constructor.
  - constructor.
Qed.

(** * The memory *)

Lemma store_out m p s q : q < p \/ p + Z.of_nat (length s) <= q -> store m p s !! q = m !! q.
Proof.
  revert m p. induction s as [|c s IH]; intros m p Hq; simpl in *; [done|].
  rewrite IH by lia. rewrite lookup_insert_ne by lia. done.
Qed.

Lemma store_in m p s i c : s !! i = Some c -> store m p s !! (p + Z.of_nat i) = Some c.
Proof.
  revert m p i. induction s as [|d s IH]; intros m p [|i] Hi; simpl in *; try done.
  - simplify_eq. rewrite store_out by lia. rewrite Z.add_0_r. apply lookup_insert_eq.
  - replace (p + Z.of_nat (S i)) with (p + 1 + Z.of_nat i) by lia. by apply IH.
Qed.

(** The memory still has the string of a block. *)
Definition holds (m : gmap Z Z) (b : block) : Prop :=
  forall s, b_str b = Some s -> b_size b = Z.of_nat (length s) /\
    forall i c, s !! i = Some c -> m !! (b_ptr b + Z.of_nat i) = Some c.

Lemma store_holds m p s b :
  apart p (Z.of_nat (length s)) (b_ptr b) (b_size b) -> holds m b -> holds (store m p s) b.
Proof.
  intros Ha Hb str Hs. destruct (Hb _ Hs) as [Hl Hc]. split; [done|]. intros i c Hi.
  pose proof (lookup_lt_Some _ _ _ Hi). rewrite store_out by (unfold apart in Ha; lia). by apply Hc.
Qed.

Lemma apart_sym p s q t : apart p s q t -> apart q t p s.
Proof. unfold apart. lia. Qed.

Lemma apart_within p s q t p' s' : apart p s q t -> p <= p' -> p' + s' <= p + s -> apart p' s' q t.
Proof. unfold apart. lia. Qed.

Lemma strdup_inv pool m str mmap r pool' m' :
  mempool_strdup pool m str (Z.of_nat (length str)) mmap = Some (r, pool', m') ->
  mempool_alloc pool (Z.of_nat (length str) + 1) mmap = Some (r, pool') /\
  m' = match r with Some p => store m p (str ++ [0]) | None => m end.
Proof.
  unfold mempool_strdup. rewrite (proj2 (Z.ltb_ge _ _)) by lia.
  destruct (mempool_alloc _ _ _) as [[[p|] pool1]|]; simpl; intros H; simplify_eq; [|done].
  by rewrite Nat2Z.id, take_ge.
Qed.

(** An allocation returns; a block of a short size in a new mapping ends behind it. *)
Lemma alloc_short pool bl size mmap :
  pool_ok pool bl -> 0 <= size <= 2 ^ 63 - 40 ->
  exists r pool', mempool_alloc pool size mmap = Some (r, pool') /\
    (needs_mapping pool size -> short (totsz pool) size ->
     forall p, r = Some p -> exists e es, entries pool' = e :: es /\ base e + sz e < p + size).
Proof.
  intros Hok Hs. unfold mempool_alloc, needs_mapping. pose proof (po_some _ _ Hok).
  destruct (entries pool) as [|e es] eqn:E; [done|].
  destruct (Z.leb_spec size (left_in e)); [eexists _, _; split; [done|]; lia|].
  destruct (po_totsz _ _ Hok) as [Ht _].
  destruct (grow_returns 64 (totsz pool) size) as [n Hg]; [lia|done|change (2 ^ Z.of_nat 64) with (2 ^ 64); nia|].
  rewrite Hg. cbn [mbind option_bind]. destruct (mmap n) as [b|]; [|by eexists _, _].
  eexists _, _. split; [done|]. intros _ Hsh p [= <-]. eexists _, _. split; [done|].
  destruct (grow_room (totsz pool) size n Ht Hs Hg) as [_ Hr]. specialize (Hr Hsh). simpl.
  change (roundup sizeof_mempool_entry 16) with 48. lia.
Qed.

Section Runs.
Context (pagesize : Z) (Hpage : pagesize mod 16 = 0) (Hpage80 : 80 <= pagesize).

Lemma run_ok pool m bl : run pagesize pool m bl -> pool_ok pool bl /\ Forall (holds m) bl.
Proof.
  induction 1 as [firstsz b pool m Hc Hf H64 Ha|pool m bl size mmap r pool' _ [IH IHm] Hr Hm H
                 |pool m bl str mmap r pool' m' _ [IH IHm] Hr Hm H|pool m bl b o s _ [IH IHm] Hb Hstr Ho Hos].
  - split; [by eapply create_ok|constructor].
  - split; [by eapply alloc_ok|]. destruct r; [|done]. by constructor.
  - apply strdup_inv in H as [H ->].
    assert (pool_ok pool' (match r with Some p => mk_block p (Z.of_nat (length str) + 1) (Some (str ++ [0])) :: bl | None => bl end))
      as Hok by (by eapply alloc_ok).
    split; [done|]. destruct r as [p|]; [|done]. pose proof (po_disjoint _ _ Hok) as Hd.
    inversion Hd as [|? ? Hap _]; subst. constructor.
    + intros s [= <-]. rewrite length_app. simpl. split; [lia|]. intros i c. apply store_in.
    + rewrite !list.Forall_forall in *. intros c Hc. apply store_holds; [|by apply IHm].
      rewrite length_app. simpl. specialize (Hap _ Hc). simpl in Hap. by rewrite Nat2Z.inj_add.
  - split; [done|]. rewrite list.Forall_forall in *. intros c Hc. destruct (decide (b_str c = None)) as [Hn|Hn].
    { intros s' Hs'. congruence. }
    apply store_holds; [|by apply IHm]. apply (apart_within (b_ptr b) (b_size b)); [|lia|lia].
    pose proof (po_disjoint _ _ IH) as Hd.
    destruct (ForallOrdPairs_In Hd b c) as [->|[?|?]]; [by apply list_elem_of_In..|done|done|by apply apart_sym].
Qed.

(** C17: the blocks that a pool hands out are aligned to 16 bytes and lie in a mapping
    of the pool behind the header of that mapping; no two blocks overlap, and a
    duplicated string keeps its bytes whatever is allocated, duplicated or written
    into other blocks afterwards.  Each request is answered, with a block or with NULL
    if the system has no memory.  This is for requests of at most 2^63 - 40 bytes that do not
    need a new mapping of one of the short sizes, those in the 8 bytes above what a
    doubling of the first mapping has room for; a request of such a size that needs a mapping
    is given a block that ends behind it. *)
Theorem mempool_blocks pool m bl :
  run pagesize pool m bl ->
  Forall (fun b => b_ptr b mod 16 = 0 /\
    exists e, e ∈ entries pool /\ at_ e + sizeof_mempool_entry <= b_ptr b /\ b_ptr b + b_size b <= base e + sz e) bl /\
  ForallOrdPairs (fun b c => apart (b_ptr b) (b_size b) (b_ptr c) (b_size c)) bl /\
  Forall (holds m) bl /\
  forall size mmap, 0 <= size <= 2 ^ 63 - 40 ->
    exists r pool', mempool_alloc pool size mmap = Some (r, pool') /\
      (needs_mapping pool size -> short (totsz pool) size ->
       forall p, r = Some p -> exists e es, entries pool' = e :: es /\ base e + sz e < p + size).
Proof.
  intros R. pose proof (run_ok _ _ _ R) as [Hok Hm]. pose proof Hok as [Hes _ _ _ Hbl Hd]. split; [|split; [done|split; [done|]]].
  - eapply Forall_impl; [exact Hbl|]. intros b (_ & Ha & e & He & Hp & Hs). split; [done|]. exists e.
    rewrite list.Forall_forall in Hes. destruct (Hes _ He) as (_ & _ & _ & _ & _ & Hc & _).
    split; [done|]. unfold sizeof_mempool_entry. lia.
  - intros size mmap Hs. by apply (alloc_short _ bl).
Qed.

(** Freeing reads no record that it has unmapped, and unmaps every mapping once. *)
Lemma mempool_free_unmaps pool m bl :
  run pagesize pool m bl -> mempool_free pool = Some (map (fun e => (base e, sz e)) (entries pool)).
Proof.
  intros [[Hes Hap _ _ _ _] _]%run_ok. unfold mempool_free.
  assert (forall gone,
    (forall r e, r ∈ gone -> e ∈ entries pool -> apart r.1 r.2 (base e) (sz e)) ->
    free_loop gone (entries pool) = Some (gone ++ map (fun e => (base e, sz e)) (entries pool))) as H;
    [|apply H; intros r e Hr; by apply elem_of_nil in Hr].
  induction (entries pool) as [|e es IH]; intros gone Hg; simpl; [by rewrite app_nil_r|].
  inversion Hap as [|? ? He Hap']; subst. apply list.Forall_cons in Hes as [Hok Hes].
  assert (mapped gone (at_ e) = true) as ->.
  { apply forallb_forall. intros r Hr%list_elem_of_In. specialize (Hg r e Hr ltac:(left)).
    destruct Hok as (_ & _ & _ & _ & ? & ? & _). unfold apart in Hg.
    apply orb_true_iff. rewrite Z.ltb_lt, Z.leb_le. lia. }
  rewrite IH; [by rewrite <- app_assoc|done|done|].
  intros r f [Hr| ->%list_elem_of_singleton]%elem_of_app Hf; [apply Hg; [done|by right]|].
  rewrite list.Forall_forall in He. by apply He.
Qed.
End Runs.

(** * An example *)

(** The second mapping is asked for with 8192 bytes. *)
Definition second (n : Z) : option Z := if n =? 8192 then Some 1048576 else None.

Lemma run_alloc_at pagesize pool m bl size r pool' :
  run pagesize pool m bl -> 0 <= size <= 2 ^ 63 - 40 -> 64 <= totsz pool < 2 ^ 64 ->
  match grow 65 (totsz pool) size with Some n => size + 48 <=? n | None => false end = true ->
  forallb (fun e => base e + sz e <=? 1048576) (entries pool) = true ->
  mempool_alloc pool size second = Some (r, pool') ->
  run pagesize pool' m (match r with Some p => mk_block p size None :: bl | None => bl end).
Proof.
  intros R Hs Ht Hg He H. apply (run_alloc _ pool m bl size second r pool'); try done.
  - split; [done|]. intros _ Hsh. destruct (grow 65 (totsz pool) size) as [n|] eqn:E; [|done].
    destruct (grow_room (totsz pool) size n) as [_ Hr]; [lia|done|done|]. apply Z.leb_le in Hg. specialize (Hr Hsh). lia.
  - intros n b Hn. unfold second in Hn. destruct (Z.eqb_spec n 8192); simplify_eq.
    split; [lia|]. split; [done|]. split; [done|]. intros e Hin. right.
    rewrite forallb_forall in He. apply Z.leb_le, He. by apply list_elem_of_In.
Qed.

Definition first_pool : mempool := mk_pool [mk_entry 65568 65536 4096 65616] 4096.

Definition second_pool : mempool := mk_pool [mk_entry 65568 65536 4096 65728] 4096.

Definition third_pool : mempool := mk_pool [mk_entry 1048576 1048576 8192 1053632; mk_entry 65568 65536 4096 65728] 4096.

Lemma mempool_blocks_witness :
  run 4096 third_pool ∅ [mk_block 1048624 5000 None; mk_block 65616 100 None] /\
  ForallOrdPairs (fun b c => apart (b_ptr b) (b_size b) (b_ptr c) (b_size c))
    [mk_block 1048624 5000 None; mk_block 65616 100 None].
Proof.
  assert (run 4096 first_pool ∅ []) as R0.
  { apply (run_create 4096 100 65536); [by vm_compute|lia|by vm_compute|].
    split; [lia|]. split; [done|]. split; [by vm_compute|]. intros e H%elem_of_nil. done. }
  assert (run 4096 second_pool ∅ [mk_block 65616 100 None]) as R1.
  { apply (run_alloc_at _ _ _ _ 100 (Some 65616) second_pool R0); [lia|simpl; lia|by vm_compute..]. }
  assert (run 4096 third_pool ∅ [mk_block 1048624 5000 None; mk_block 65616 100 None]) as R2.
  { apply (run_alloc_at _ _ _ _ 5000 (Some 1048624) third_pool R1); [lia|simpl; lia|by vm_compute..]. }
  split; [exact R2|]. apply (mempool_blocks 4096 eq_refl ltac:(lia) _ _ _ R2).
Defined.

(** * What goes wrong *)

(** The size of a new mapping counts 40 bytes for its header, but 48 are used: a block
    can end after the mapping.  What is left then wraps, and every later request is
    met from behind the mapping. *)
Theorem mempool_header_short :
  mempool_create 4096 100 (Some 65536) = Some first_pool /\
  exists pool, mempool_alloc first_pool 4056 (fun n => Some 131072) = Some (Some 131120, pool) /\
    131120 + 4056 = 131072 + 4096 + 8 /\
    exists pool', mempool_alloc pool (2 ^ 40) (fun n => None) = Some (Some (131072 + 4096 + 16), pool').
Proof. split; [done|]. eexists. split; [by vm_compute|]. split; [done|]. eexists. by vm_compute. Qed.

Lemma grow_more fuel n s n' :
  (n <? u64 (s + sizeof_mempool_entry)) = true -> u64 (n * 2) = n' -> grow (S fuel) n s = grow fuel n' s.
Proof. intros H <-. by rewrite grow_S, H. Qed.

(** The doubling wraps to zero for a request of half of the address space, and never
    ends. *)
Theorem mempool_alloc_endless k : grow (65 + k) 4096 (2 ^ 63) = None.
Proof.
  cbn [Nat.add]. do 52 (erewrite grow_more; [|by vm_compute|vm_compute; reflexivity]).
  generalize (S (S (S (S (S (S (S (S (S (S (S (S (S k))))))))))))) as j. intros j.
  induction j as [|j IH]; [done|]. by rewrite (grow_more _ _ _ 0).
Qed.
