(* ===== verification/Bitfield.v ===== *)
(** Bit fields (util/lib/bitfield.h): arrays of 64-bit words that stand for sets
    of numbers.  [None] is a failed assertion, an access outside the array or a
    shift that C does not define. *)
From stdpp Require Import prelude list numbers option.
From Stdlib Require Import ZArith Lia.
From S2P Require Import Prelude.

Local Open Scope Z_scope.

(** * The operations *)

(** The array is [bf]; BITFIELD_SZ is the number of its bits. *)
Definition bfsz (bf : list Z) : Z := 64 * Z.of_nat (length bf).

(** The index and the bit in the word: sizeof makes the number unsigned. *)
Definition word_of (bit : Z) : nat := Z.to_nat (u64 bit / 64).
Definition pos_of (bit : Z) : Z := u64 bit mod 64.

(** 1 << n of int, which has a value up to the bit below the sign. *)
Definition int_bit (n : Z) : option Z := if n <? 31 then Some (1 << n) else None.

Definition _bitfield_set (bf : list Z) (bit : Z) : option (list Z) :=
  if negb (bit <? bfsz bf) then None
  else
    w ← bf !! word_of bit;
    m ← int_bit (pos_of bit);
    Some (<[word_of bit := w .| u64 m]> bf).

Definition _bitfield_clear (bf : list Z) (bit : Z) : option (list Z) :=
  if negb (bit <? bfsz bf) then None
  else
    w ← bf !! word_of bit;
    m ← int_bit (pos_of bit);
    Some (<[word_of bit := w .& u64 (Z.lnot m)]> bf).

Definition _bitfield_isset (bf : list Z) (bit : Z) : option Z :=
  if negb (bit <? bfsz bf) then None
  else
    w ← bf !! word_of bit;
    m ← int_bit (pos_of bit);
    Some (w .& u64 m).

Definition _bitfield_setall (bf : list Z) : list Z := map (fun _ => 2 ^ 64 - 1) bf.

Fixpoint _bitfield_iszero (bf : list Z) : bool :=
  match bf with
  | [] => true
  | w :: bf => if negb (w =? 0) then false else _bitfield_iszero bf
  end.

(** ffsll: the number of the lowest bit that is set, from one, or zero. *)
Fixpoint ffs_pos (p : positive) : Z :=
  match p with
  | xO p => 1 + ffs_pos p
  | _ => 1
  end.

Definition ffsll (w : Z) : Z := match w with Zpos p => ffs_pos p | _ => 0 end.

Fixpoint ffs_loop (i : Z) (bf : list Z) : Z :=
  match bf with
  | [] => 0
  | w :: bf => let v := ffsll w in if negb (v =? 0) then i + v else ffs_loop (i + 64) bf
  end.

Definition _bitfield_ffs (bf : list Z) : Z := ffs_loop 0 bf.

Definition _bitfield_union3_isset (bfa bfb bfc : list Z) (bit : Z) : option Z :=
  if negb (bit <? bfsz bfa) then None
  else
    a ← bfa !! word_of bit;
    b ← bfb !! word_of bit;
    c ← bfc !! word_of bit;
    Some ((a .| b .| c) .& u64 (1 << pos_of bit)).

(** The arrays have the same size, which the macros assert. *)
Fixpoint _bitfield_union2_check_complement_all_set (ubfa ubfb cbf : list Z) : option bool :=
  match ubfa, ubfb, cbf with
  | [], _, _ => Some true
  | a :: ubfa, b :: ubfb, c :: cbf =>
    if negb ((a .| b) .& u64 (Z.lnot c) =? u64 (Z.lnot c)) then Some false
    else _bitfield_union2_check_complement_all_set ubfa ubfb cbf
  | _, _, _ => None
  end.

Fixpoint _bitfield_union3_check_complement_all_set (ubfa ubfb ubfc cbf : list Z) : option bool :=
  match ubfa, ubfb, ubfc, cbf with
  | [], _, _, _ => Some true
  | a :: ubfa, b :: ubfb, c :: ubfc, d :: cbf =>
    if negb ((a .| b .| c) .& u64 (Z.lnot d) =? u64 (Z.lnot d)) then Some false
    else _bitfield_union3_check_complement_all_set ubfa ubfb ubfc cbf
  | _, _, _, _ => None
  end.

Definition _bitfield_compare_equal (a b : list Z) : bool := bool_decide (a = b).

(** * Sets of numbers *)

Definition wf (bf : list Z) : Prop := Forall (fun w => 0 <= w < 2 ^ 64) bf.

(** The number [n] is in the set. *)
Definition has (bf : list Z) (n : Z) : bool :=
  match bf !! Z.to_nat (n / 64) with Some w => Z.testbit w (n mod 64) | None => false end.

(** Numbers that the operations on one bit can name. *)
Definition nameable (bf : list Z) (bit : Z) : Prop := 0 <= bit < bfsz bf /\ bfsz bf < 2 ^ 31 /\ bit mod 64 < 31.

Lemma int_bit_some n : 0 <= n < 31 -> int_bit n = Some (2 ^ n).
Proof.
  intros Hn. unfold int_bit. rewrite (proj2 (Z.ltb_lt _ _)) by lia. by rewrite Z.shiftl_1_l.
Qed.

Lemma mod64 n : 0 <= n mod 64 < 64.
Proof. apply Z.mod_pos_bound. lia. Qed.

Lemma word_lookup bf bit :
  0 <= bit < bfsz bf -> bfsz bf < 2 ^ 31 ->
  word_of bit = Z.to_nat (bit / 64) /\ pos_of bit = bit mod 64 /\ exists w, bf !! Z.to_nat (bit / 64) = Some w.
Proof.
  intros Hb Hs. unfold word_of, pos_of. rewrite !uwrap_small by lia. split; [done|]. split; [done|].
  apply lookup_lt_is_Some_2. unfold bfsz in Hb.
  pose proof (Z.div_lt_upper_bound bit 64 (Z.of_nat (length bf))).
  pose proof (Z.div_pos bit 64). lia.
Qed.

Lemma has_same_word n bit : 0 <= n -> 0 <= bit -> Z.to_nat (n / 64) = Z.to_nat (bit / 64) -> n mod 64 = bit mod 64 -> n = bit.
Proof.
  intros Hn Hb E Em. pose proof (Z.div_pos n 64). pose proof (Z.div_pos bit 64).
  rewrite (Z.div_mod n 64), (Z.div_mod bit 64) by lia. rewrite Em. f_equal. f_equal. lia.
Qed.

(** Replacing the word of [bit] changes at most the numbers of that word. *)
Lemma has_insert bf bit w n :
  0 <= bit -> 0 <= n -> is_Some (bf !! Z.to_nat (bit / 64)) ->
  has (<[Z.to_nat (bit / 64) := w]> bf) n =
  if decide (Z.to_nat (n / 64) = Z.to_nat (bit / 64)) then Z.testbit w (n mod 64) else has bf n.
Proof.
  intros Hb Hn Hs. unfold has. destruct (decide _) as [->|Hne].
  - rewrite list_lookup_insert_eq by (by apply lookup_lt_is_Some_1). done.
  - by rewrite list_lookup_insert_ne.
Qed.

Lemma testbit_pow2 p k : 0 <= p -> Z.testbit (2 ^ p) k = (p =? k).
Proof. intros. by apply Z.pow2_bits_eqb. Qed.

Lemma testbit_u64 z k : 0 <= k < 64 -> Z.testbit (u64 z) k = Z.testbit z k.
Proof. intros. apply Z.mod_pow2_bits_low. lia. Qed.

Lemma lor_range a b : 0 <= a < 2 ^ 64 -> 0 <= b < 2 ^ 64 -> 0 <= a .| b < 2 ^ 64.
Proof.
  intros Ha Hb. assert (0 <= a .| b) by (apply Z.lor_nonneg; lia). split; [done|].
  apply lt_pow2_of_bits; [done|lia|]. intros i Hi. by rewrite Z.lor_spec, !(Zbits_above _ 64).
Qed.

Lemma wf_lookup bf i w : wf bf -> bf !! i = Some w -> 0 <= w < 2 ^ 64.
Proof. intros H E. by apply (proj1 (list.Forall_lookup _ _) H i). Qed.

Lemma eqb_bit n bit : 0 <= n -> 0 <= bit -> Z.to_nat (n / 64) = Z.to_nat (bit / 64) ->
  (bit mod 64 =? n mod 64) = (n =? bit).
Proof.
  intros Hn Hb E. destruct (Z.eqb_spec n bit) as [->|Hne]; [apply Z.eqb_refl|].
  apply Z.eqb_neq. intros Em. by apply Hne, has_same_word.
Qed.

Lemma has_word bf n w : bf !! Z.to_nat (n / 64) = Some w -> has bf n = Z.testbit w (n mod 64).
Proof. unfold has. by intros ->. Qed.

Lemma land_pow2_nonzero w p : 0 <= p -> (w .& 2 ^ p <> 0 <-> Z.testbit w p = true).
Proof.
  intros Hp. split.
  - intros Hne. destruct (Z.testbit w p) eqn:E; [done|]. exfalso. apply Hne, Z.bits_inj'. intros k Hk.
    rewrite Z.land_spec, Z.bits_0, testbit_pow2 by done. destruct (Z.eqb_spec p k) as [<-|]; [by rewrite E|apply andb_false_r].
  - intros Hb E. apply (f_equal (fun z => Z.testbit z p)) in E.
    rewrite Z.land_spec, Z.bits_0, testbit_pow2, Z.eqb_refl, Hb in E by done. done.
Qed.

Section OneBit.
Context (bf : list Z) (bit : Z) (Hwf : wf bf) (Hn : nameable bf bit).

Lemma nameable_word :
  exists w, bf !! Z.to_nat (bit / 64) = Some w /\ 0 <= w < 2 ^ 64 /\ int_bit (bit mod 64) = Some (2 ^ (bit mod 64)) /\
    word_of bit = Z.to_nat (bit / 64) /\ pos_of bit = bit mod 64 /\ (bit <? bfsz bf) = true.
Proof.
  destruct Hn as (Hb & Hs & Hm). destruct (word_lookup bf bit Hb Hs) as (Hw & Hp & w & E).
  exists w. repeat split; try done; try (eapply wf_lookup; done).
  - apply int_bit_some. pose proof (mod64 bit). lia.
  - apply Z.ltb_lt. lia.
Qed.

(** The common part of setting and clearing: a new word with the right bits. *)
Lemma new_word w w' (f : bool -> bool -> bool) :
  bf !! Z.to_nat (bit / 64) = Some w -> 0 <= w' < 2 ^ 64 ->
  (forall b, f b false = b) ->
  (forall k, 0 <= k < 64 -> Z.testbit w' k = f (Z.testbit w k) (bit mod 64 =? k)) ->
  wf (<[Z.to_nat (bit / 64) := w']> bf) /\ length (<[Z.to_nat (bit / 64) := w']> bf) = length bf /\
  forall n, 0 <= n -> has (<[Z.to_nat (bit / 64) := w']> bf) n = f (has bf n) (n =? bit).
Proof.
  intros E Hw' Hf Hbits. destruct Hn as (Hb & _ & _). split; [by apply Forall_insert|]. split; [apply length_insert|].
  intros n Hn0. rewrite has_insert; [|lia|lia|by rewrite E]. destruct (decide _) as [Ed|Hne].
  - rewrite Hbits by apply mod64. rewrite (has_word bf n w) by (by rewrite Ed). by rewrite eqb_bit by lia.
  - destruct (Z.eqb_spec n bit) as [->|]; [done|]. by rewrite Hf.
Qed.

Lemma set_spec :
  exists bf', _bitfield_set bf bit = Some bf' /\ wf bf' /\ length bf' = length bf /\
    forall n, 0 <= n -> has bf' n = has bf n || (n =? bit).
Proof.
  destruct nameable_word as (w & E & Hw & Hi & Ew & Ep & Eb). unfold _bitfield_set.
  rewrite Eb, Ew, Ep, Hi, E. simpl. eexists. split; [done|]. pose proof (mod64 bit).
  assert (0 <= 2 ^ (bit mod 64) < 2 ^ 64) by (split; [apply Z.pow_nonneg; lia|apply Z.pow_lt_mono_r; lia]).
  rewrite uwrap_small by done. apply (new_word w _ orb); [done|by apply lor_range|by intros []|].
  intros k Hk. by rewrite Z.lor_spec, testbit_pow2 by lia.
Qed.

Lemma clear_spec :
  exists bf', _bitfield_clear bf bit = Some bf' /\ wf bf' /\ length bf' = length bf /\
    forall n, 0 <= n -> has bf' n = has bf n && negb (n =? bit).
Proof.
  destruct nameable_word as (w & E & Hw & Hi & Ew & Ep & Eb). unfold _bitfield_clear.
  rewrite Eb, Ew, Ep, Hi, E. simpl. eexists. split; [done|]. pose proof (mod64 bit).
  apply (new_word w _ (fun x y => x && negb y)); [done| |by intros []|].
  - apply land_lt_pow2; [lia|]. apply uwrap_range. lia.
  - intros k Hk. rewrite Z.land_spec, testbit_u64, Z.lnot_spec, testbit_pow2 by lia. done.
Qed.

Lemma isset_spec : exists r, _bitfield_isset bf bit = Some r /\ (r <> 0 <-> has bf bit = true).
Proof.
  destruct nameable_word as (w & E & Hw & Hi & Ew & Ep & Eb). unfold _bitfield_isset.
  rewrite Eb, Ew, Ep, Hi, E. simpl. eexists. split; [done|]. pose proof (mod64 bit).
  rewrite uwrap_small by (split; [apply Z.pow_nonneg; lia|apply Z.pow_lt_mono_r; lia]).
  rewrite (has_word bf bit w) by done. apply land_pow2_nonzero. lia.
Qed.
End OneBit.

(** Setting, clearing and testing a bit are adding, removing and asking for a
    number of the set, for the numbers whose bit in its word is below the sign bit
    of an int. *)
Theorem bitfield_set_ops bf bit :
  wf bf -> nameable bf bit ->
  (exists bf', _bitfield_set bf bit = Some bf' /\ wf bf' /\ length bf' = length bf /\
     forall n, 0 <= n -> has bf' n = has bf n || (n =? bit)) /\
  (exists bf', _bitfield_clear bf bit = Some bf' /\ wf bf' /\ length bf' = length bf /\
     forall n, 0 <= n -> has bf' n = has bf n && negb (n =? bit)) /\
  (exists r, _bitfield_isset bf bit = Some r /\ (r <> 0 <-> has bf bit = true)).
Proof. intros Hwf Hn. split; [by apply set_spec|]. split; [by apply clear_spec|by apply isset_spec]. Qed.

(** * Operations on the whole set *)

Lemma has_cons w bf n : 0 <= n -> has (w :: bf) n = if n <? 64 then Z.testbit w n else has bf (n - 64).
Proof.
  intros Hn. unfold has. destruct (Z.ltb_spec n 64).
  - rewrite Z.div_small, Z.mod_small by lia. done.
  - assert (n / 64 = (n - 64) / 64 + 1 /\ n mod 64 = (n - 64) mod 64 /\ 0 <= (n - 64) / 64) as (-> & -> & Hd)
      by (Z.to_euclidean_division_equations; lia).
    replace (Z.to_nat ((n - 64) / 64 + 1)) with (S (Z.to_nat ((n - 64) / 64))) by lia. done.
Qed.

Lemma has_cons_low w bf n : 0 <= n < 64 -> has (w :: bf) n = Z.testbit w n.
Proof. intros. rewrite has_cons by lia. by rewrite (proj2 (Z.ltb_lt _ _)) by lia. Qed.

Lemma has_cons_high w bf n : 0 <= n -> has (w :: bf) (64 + n) = has bf n.
Proof.
  intros. rewrite has_cons by lia. rewrite (proj2 (Z.ltb_ge _ _)) by lia. f_equal. lia.
Qed.

(** A statement about every number of a set is one about the first word and one about
    the others. *)
Lemma all_cons (P : Z -> Prop) :
  (forall n, 0 <= n < 64 -> P n) /\ (forall n, 0 <= n -> P (64 + n)) <-> (forall n, 0 <= n -> P n).
Proof.
  split; [|intros H; split; intros; apply H; lia].
  intros [H1 H2] n Hn. destruct (decide (n < 64)); [apply H1; lia|].
  replace n with (64 + (n - 64)) by lia. apply H2. lia.
Qed.

Lemma word_ext a b : 0 <= a < 2 ^ 64 -> 0 <= b < 2 ^ 64 -> (forall n, 0 <= n < 64 -> Z.testbit a n = Z.testbit b n) -> a = b.
Proof.
  intros Ha Hb H. apply Z.bits_inj'. intros n Hn. destruct (decide (n < 64)); [apply H; lia|].
  by rewrite !(Zbits_above _ 64) by lia.
Qed.

Lemma has_nil n : has [] n = false.
Proof. done. Qed.

Lemma wf_cons w bf : wf (w :: bf) <-> 0 <= w < 2 ^ 64 /\ wf bf.
Proof. unfold wf. by rewrite list.Forall_cons. Qed.

(** The same for the words. *)
Definition low (P : Z -> Prop) : Prop := forall n, 0 <= n < 64 -> P n.

Lemma word_zero w : 0 <= w < 2 ^ 64 -> (w = 0 <-> low (fun n => Z.testbit w n = false)).
Proof.
  intros Hw. split; [intros -> n _; apply Z.bits_0|]. intros H. apply word_ext; [done|lia|].
  intros n Hn. by rewrite Z.bits_0, (H n Hn).
Qed.

Lemma word_complement u c : 0 <= u < 2 ^ 64 ->
  (u .& u64 (Z.lnot c) =? u64 (Z.lnot c)) = true <-> low (fun n => Z.testbit c n = false -> Z.testbit u n = true).
Proof.
  intros Hu. rewrite Z.eqb_eq. pose proof (uwrap_range 64 (Z.lnot c) ltac:(lia)) as Hc. split.
  - intros E n Hn H. apply (f_equal (fun z => Z.testbit z n)) in E.
    rewrite Z.land_spec, testbit_u64, Z.lnot_spec, H in E by lia. by destruct (Z.testbit u n).
  - intros H. apply word_ext; [apply land_lt_pow2; [lia|done]|done|]. intros n Hn.
    rewrite Z.land_spec, testbit_u64, Z.lnot_spec by lia. specialize (H n Hn). cbv beta in H.
    destruct (Z.testbit c n); simpl; [apply andb_false_r|by rewrite H].
Qed.

(** One step of a statement about a field and its words. *)
Lemma has_all_cons w bf (P : Z -> bool -> Prop) :
  (forall n, 0 <= n -> P n (has (w :: bf) n)) <->
  low (fun n => P n (Z.testbit w n)) /\ (forall n, 0 <= n -> P (64 + n) (has bf n)).
Proof.
  rewrite <- (all_cons (fun n => P n (has (w :: bf) n))). unfold low. split; intros [H1 H2]; split; intros n Hn.
  - rewrite <- (has_cons_low w bf) by done. apply H1. lia.
  - rewrite <- (has_cons_high w bf) by done. apply H2. lia.
  - rewrite has_cons_low by done. by apply H1.
  - rewrite has_cons_high by done. by apply H2.
Qed.

Lemma iszero_spec bf : wf bf -> (_bitfield_iszero bf = true <-> forall n, 0 <= n -> has bf n = false).
Proof.
  induction bf as [|w bf IH]; [done|]. intros [Hw Hwf]%wf_cons. simpl.
  rewrite (has_all_cons w bf (fun _ x => x = false)), <- word_zero, <- IH by done.
  destruct (Z.eqb_spec w 0); simpl; [tauto|]. split; [done|tauto].
Qed.

Lemma equal_spec a b :
  wf a -> wf b -> length a = length b -> (_bitfield_compare_equal a b = true <-> forall n, 0 <= n -> has a n = has b n).
Proof.
  unfold _bitfield_compare_equal. rewrite bool_decide_eq_true. intros Ha Hb Hl. split; [by intros ->|].
  revert b Hb Hl. induction a as [|x a IH]; intros [|y b] Hb Hl H; try done.
  apply wf_cons in Ha as [Hx Ha], Hb as [Hy Hb]. injection Hl as Hl. f_equal.
  - apply word_ext; [done|done|]. intros n Hn. by rewrite <- (has_cons_low x a), <- (has_cons_low y b), H by lia.
  - apply IH; [done..|]. intros n Hn. by rewrite <- (has_cons_high x a), <- (has_cons_high y b), H by lia.
Qed.

Lemma below_cons (P : Z -> Prop) k :
  (forall n, 0 <= n < 64 * Z.of_nat (S k) -> P n) <-> low P /\ (forall n, 0 <= n < 64 * Z.of_nat k -> P (64 + n)).
Proof.
  unfold low. split; [intros H; split; intros; apply H; lia|]. intros [H1 H2] n Hn.
  destruct (decide (n < 64)); [apply H1; lia|]. replace n with (64 + (n - 64)) by lia. apply H2. lia.
Qed.

(** What the complement checks ask of the words [u] and [c] at one place, given the
    answer for the rest. *)
Lemma complement_cons (chk : bool) (rest : option bool) (Lo Hi All : Prop) :
  (All <-> Lo /\ Hi) -> (chk = true <-> Lo) -> (exists r, rest = Some r /\ (r = true <-> Hi)) ->
  exists r, (if negb chk then Some false else rest) = Some r /\ (r = true <-> All).
Proof.
  intros HA Hc (r & -> & Hr). destruct chk; simpl; eexists; (split; [done|]); rewrite ?HA; intuition done.
Qed.

Lemma union2_spec a b c :
  wf a -> wf b -> length a = length b -> length a = length c ->
  exists r, _bitfield_union2_check_complement_all_set a b c = Some r /\
    (r = true <-> forall n, 0 <= n < bfsz a -> has c n = false -> has a n || has b n = true).
Proof.
  revert b c. induction a as [|x a IH]; intros [|y b] [|z c] Ha Hb Hl Hl'; try done.
  { exists true. split; [done|]. split; [|done]. unfold bfsz. simpl. lia. }
  apply wf_cons in Ha as [Hx Ha], Hb as [Hy Hb]. injection Hl as Hl. injection Hl' as Hl'. unfold bfsz.
  eapply complement_cons; [apply (below_cons (fun n => has (z :: c) n = false -> has (x :: a) n || has (y :: b) n = true) (length a))|..].
  - rewrite word_complement by (by apply lor_range). unfold low.
    setoid_rewrite Z.lor_spec. split; intros H n Hn; specialize (H n Hn); rewrite !has_cons_low in * by done; done.
  - destruct (IH b c Ha Hb Hl Hl') as (r & E & Hr). exists r. split; [exact E|]. rewrite Hr. unfold bfsz.
    split; intros H n Hn; specialize (H n Hn); rewrite !has_cons_high in * by lia; done.
Qed.

Lemma union3_spec a b c d :
  wf a -> wf b -> wf c -> length a = length b -> length a = length c -> length a = length d ->
  exists r, _bitfield_union3_check_complement_all_set a b c d = Some r /\
    (r = true <-> forall n, 0 <= n < bfsz a -> has d n = false -> has a n || has b n || has c n = true).
Proof.
  revert b c d. induction a as [|x a IH]; intros [|y b] [|z c] [|u d] Ha Hb Hc Hl Hl' Hl''; try done.
  { exists true. split; [done|]. split; [|done]. unfold bfsz. simpl. lia. }
  apply wf_cons in Ha as [Hx Ha], Hb as [Hy Hb], Hc as [Hz Hc].
  injection Hl as Hl. injection Hl' as Hl'. injection Hl'' as Hl''. unfold bfsz.
  eapply complement_cons; [apply (below_cons (fun n => has (u :: d) n = false -> has (x :: a) n || has (y :: b) n || has (z :: c) n = true) (length a))|..].
  - rewrite word_complement by (by repeat apply lor_range). unfold low.
    setoid_rewrite Z.lor_spec. setoid_rewrite Z.lor_spec.
    split; intros H n Hn; specialize (H n Hn); rewrite !has_cons_low in * by done; done.
  - destruct (IH b c d Ha Hb Hc Hl Hl' Hl'') as (r & E & Hr). exists r. split; [exact E|]. rewrite Hr. unfold bfsz.
    split; intros H n Hn; specialize (H n Hn); rewrite !has_cons_high in * by lia; done.
Qed.

(** A bit of one of three sets, with a mask of full width. *)
Lemma union3_isset_spec a b c bit :
  0 <= bit < bfsz a -> bfsz a < 2 ^ 31 -> length a = length b -> length a = length c ->
  exists r, _bitfield_union3_isset a b c bit = Some r /\ (r <> 0 <-> has a bit || has b bit || has c bit = true).
Proof.
  intros Hb Hs Hl Hl'. unfold _bitfield_union3_isset. rewrite (proj2 (Z.ltb_lt _ _)) by lia. simpl.
  assert (bfsz b = bfsz a /\ bfsz c = bfsz a) as [Eb Ec] by (unfold bfsz; lia).
  destruct (word_lookup a bit Hb Hs) as (-> & -> & x & Ex).
  destruct (word_lookup b bit) as (_ & _ & y & Ey); [lia|lia|].
  destruct (word_lookup c bit) as (_ & _ & z & Ez); [lia|lia|].
  rewrite Ex, Ey, Ez. simpl. eexists. split; [done|]. pose proof (mod64 bit).
  rewrite Z.shiftl_1_l, uwrap_small by (split; [apply Z.pow_nonneg; lia|apply Z.pow_lt_mono_r; lia]).
  rewrite land_pow2_nonzero by lia. rewrite !Z.lor_spec, (has_word a bit x), (has_word b bit y), (has_word c bit z); done.
Qed.

Lemma ffs_pos_spec p :
  0 < ffs_pos p /\ Z.testbit (Zpos p) (ffs_pos p - 1) = true /\
  forall n, 0 <= n < ffs_pos p - 1 -> Z.testbit (Zpos p) n = false.
Proof.
  induction p as [p IH|p (H0 & IH1 & IH2)|]; cbn [ffs_pos]; [split; [lia|split; [done|lia]]| |split; [lia|split; [done|lia]]].
  split; [lia|]. rewrite Pos2Z.inj_xO.
  replace (1 + ffs_pos p - 1) with (Z.succ (ffs_pos p - 1)) by lia. rewrite Z.double_bits_succ. split; [done|].
  intros n Hn. destruct (decide (n = 0)) as [->|]; [apply Z.testbit_even_0|].
  replace n with (Z.succ (n - 1)) by lia. rewrite Z.double_bits_succ. apply IH2. lia.
Qed.

(** The whole set: a field is zero if no number is in it, two fields of one size are
    equal if the same numbers are in them, and the complement checks say whether
    every number that is not in the last set is in one of the others. *)
Theorem bitfield_whole a b c :
  wf a -> wf b -> wf c -> length a = length b -> length a = length c ->
  (_bitfield_iszero a = true <-> forall n, 0 <= n -> has a n = false) /\
  (_bitfield_compare_equal a b = true <-> forall n, 0 <= n -> has a n = has b n) /\
  (exists r, _bitfield_union2_check_complement_all_set a b c = Some r /\
    (r = true <-> forall n, 0 <= n < bfsz a -> has c n = false -> has a n || has b n = true)).
Proof. intros Ha Hb Hc Hl Hl'. split; [by apply iszero_spec|]. split; [by apply equal_spec|by apply union2_spec]. Qed.

Lemma ffsll_spec w :
  0 <= w < 2 ^ 64 ->
  (ffsll w = 0 /\ w = 0) \/
  (0 < ffsll w <= 64 /\ Z.testbit w (ffsll w - 1) = true /\ forall n, 0 <= n < ffsll w - 1 -> Z.testbit w n = false).
Proof.
  intros Hw. destruct w as [|p|p]; [by left|right|lia]. simpl. destruct (ffs_pos_spec p) as (H0 & H1 & H2).
  split; [|done]. split; [done|]. destruct (decide (ffs_pos p <= 64)); [done|].
  rewrite (Zbits_above _ 64) in H1 by lia. done.
Qed.

Lemma ffs_loop_spec bf i :
  wf bf ->
  (ffs_loop i bf = 0 /\ forall n, 0 <= n -> has bf n = false) \/
  (i < ffs_loop i bf /\ has bf (ffs_loop i bf - i - 1) = true /\
   forall n, 0 <= n < ffs_loop i bf - i - 1 -> has bf n = false).
Proof.
  revert i. induction bf as [|w bf IH]; intros i Hwf; [by left|]. apply wf_cons in Hwf as [Hw Hwf]. cbn [ffs_loop].
  destruct (ffsll_spec w Hw) as [[E ->]|(H0 & H1 & H2)].
  - rewrite E. simpl. destruct (IH (i + 64) Hwf) as [[-> H]|(H0 & H1 & H2)]; [left|right].
    + split; [done|]. apply all_cons. split; intros n Hn; [by rewrite has_cons_low, Z.bits_0|].
      rewrite has_cons_high by done. by apply H.
    + set (r := ffs_loop (i + 64) bf) in *. split; [lia|].
      replace (r - i - 1) with (64 + (r - (i + 64) - 1)) by lia. rewrite has_cons_high by lia. split; [done|].
      intros n Hn. destruct (decide (n < 64)); [by rewrite has_cons_low, Z.bits_0 by lia|].
      replace n with (64 + (n - 64)) by lia. rewrite has_cons_high by lia. apply H2. lia.
  - rewrite (proj2 (Z.eqb_neq _ _)) by lia. simpl. right. split; [lia|].
    replace (i + ffsll w - i - 1) with (ffsll w - 1) by lia. rewrite has_cons_low by lia. split; [done|].
    intros n Hn. rewrite has_cons_low by lia. by apply H2.
Qed.

(** Ffs gives the least number of the set, counted from one, or zero if the set is
    empty. *)
Theorem bitfield_ffs_least bf :
  wf bf ->
  let r := _bitfield_ffs bf in
  (r = 0 <-> forall n, 0 <= n -> has bf n = false) /\
  (r <> 0 -> 0 < r /\ has bf (r - 1) = true /\ forall n, 0 <= n < r - 1 -> has bf n = false).
Proof.
  intros Hwf. unfold _bitfield_ffs. destruct (ffs_loop_spec bf 0 Hwf) as [[-> H]|(H0 & H1 & H2)]; simpl.
  - split; [done|]. done.
  - rewrite Z.sub_0_r in *. split; [|intros _; split; [lia|done]].
    split; [lia|]. intros H. rewrite H in H1 by lia. done.
Qed.

Lemma setall_spec bf n : 0 <= n < bfsz bf -> has (_bitfield_setall bf) n = true.
Proof.
  revert n. induction bf as [|w bf IH]; intros n Hn; [unfold bfsz in Hn; simpl in Hn; lia|].
  cbn [_bitfield_setall map]. destruct (decide (n < 64)).
  - rewrite has_cons_low by lia. by rewrite (Z.ones_spec_low 64) by lia.
  - replace n with (64 + (n - 64)) by lia. rewrite has_cons_high by lia. apply IH.
    unfold bfsz in *. simpl in Hn. lia.
Qed.

Lemma bitfield_set_ops_witness :
  exists bf', _bitfield_set [0; 5] 70 = Some bf' /\ has bf' 70 = true.
Proof.
  assert (wf [0; 5]) as Hwf by (repeat constructor; lia).
  assert (nameable [0; 5] 70) as Hn by (vm_compute; repeat split; congruence || done).
  destruct (bitfield_set_ops [0; 5] 70 Hwf Hn) as ((bf' & H & _ & _ & Hh) & _).
  exists bf'. split; [exact H|]. rewrite Hh by lia. reflexivity.
Defined.

Lemma bitfield_whole_witness :
  exists r, _bitfield_union2_check_complement_all_set [3; 0] [2 ^ 64 - 4; 2 ^ 63] [0; 2 ^ 63 - 1] = Some r /\
    (r = true <-> forall n, 0 <= n < 128 -> has [0; 2 ^ 63 - 1] n = false -> has [3; 0] n || has [2 ^ 64 - 4; 2 ^ 63] n = true).
Proof.
  apply (bitfield_whole [3; 0] [2 ^ 64 - 4; 2 ^ 63] [0; 2 ^ 63 - 1]); try reflexivity; repeat constructor; lia.
Defined.

Lemma bitfield_ffs_least_witness : has [0; 6] 65 = true.
Proof.
  destruct (bitfield_ffs_least [0; 6]) as [_ H]; [repeat constructor; lia|].
  destruct H as (_ & H & _); [vm_compute; congruence|]. exact H.
Defined.

(** * What goes wrong *)

(** The mask of the operations on one bit is an int: the upper half of each word, and
    the bit of the sign, have no defined behaviour, though the macros allow them. *)
Theorem bitfield_high_bits bf bit :
  0 <= bit < bfsz bf -> bfsz bf < 2 ^ 31 -> 31 <= bit mod 64 ->
  _bitfield_set bf bit = None /\ _bitfield_clear bf bit = None /\ _bitfield_isset bf bit = None.
Proof.
  intros Hb Hs Hm. unfold _bitfield_set, _bitfield_clear, _bitfield_isset, int_bit.
  destruct (word_lookup bf bit Hb Hs) as (-> & -> & w & ->).
  rewrite (proj2 (Z.ltb_lt _ _)) by lia. simpl. by rewrite (proj2 (Z.ltb_ge _ _)) by lia.
Qed.
