(* ===== verification/Dates.v ===== *)
(** Dates (util/lib/date_functions.c): the calendar by days, on the 32-bit [int]s
    of the source.  The specification is the proleptic Gregorian calendar: the lengths
    of the months as a table of its own, the leap years by divisibility, and the number of
    a day counted from the year 1.  [None] is an [int] that overflows, which C does not
    define. *)
From stdpp Require Import prelude list numbers option.
From Stdlib Require Import ZArith Lia.
From S2P Require Import Prelude.

Local Open Scope Z_scope.

(** * The functions *)

Record date_rec := mk_date { year : Z; month : Z; day : Z; day_of_year : Z }.

(** The fields of struct tm that are used. *)
Record tm := mk_tm { tm_year : Z; tm_mon : Z; tm_mday : Z; tm_yday : Z }.

Definition is_int (z : Z) : Prop := - 2 ^ 31 <= z < 2 ^ 31.

(** The result of [int] arithmetic. *)
Definition int (z : Z) : option Z := guard (is_int z);; Some z.

Definition date_set (t : tm) : option date_rec :=
  y ← int (tm_year t + 1900); m ← int (tm_mon t + 1); yd ← int (tm_yday t + 1);
  Some (mk_date y m (tm_mday t) yd).

Definition date_cmp (lhs rhs : date_rec) : option Z :=
  if negb (year lhs =? year rhs) then int (year rhs - year lhs)
  else if negb (month lhs =? month rhs) then int (month rhs - month lhs)
  else int (day rhs - day lhs).

(** The test for a year that is not a leap year; % is the remainder of C. *)
Definition common_year (y : Z) : bool :=
  negb (Z.rem y 4 =? 0) || ((Z.rem y 100 =? 0) && negb (Z.rem y 400 =? 0)).

(** The switch on the month. *)
Definition days_in_month (y m : Z) : Z :=
  if (m =? 1) || (m =? 3) || (m =? 5) || (m =? 7) || (m =? 8) || (m =? 10) || (m =? 12) then 31
  else if (m =? 4) || (m =? 6) || (m =? 9) || (m =? 11) then 30
  else if m =? 2 then (if common_year y then 28 else 29)
  else 0.

Definition date_days_in_month (d : date_rec) : Z := days_in_month (year d) (month d).

Definition date_set_prev_day (d : date_rec) : option date_rec :=
  yd ← int (day_of_year d - 1);
  if 1 <? day d then dd ← int (day d - 1); Some (mk_date (year d) (month d) dd yd)
  else if 1 <? month d then
    m ← int (month d - 1); Some (mk_date (year d) m (days_in_month (year d) m) yd)
  else
    y ← int (year d - 1); Some (mk_date y 12 31 (if common_year y then 365 else 366)).

Definition date_set_next_day (d : date_rec) : option date_rec :=
  yd ← int (day_of_year d + 1);
  if day d =? date_days_in_month d then
    if month d =? 12 then y ← int (year d + 1); Some (mk_date y 1 1 1)
    else m ← int (month d + 1); Some (mk_date (year d) m 1 yd)
  else dd ← int (day d + 1); Some (mk_date (year d) (month d) dd yd).

(** The loop of [date_set_day_offset]. *)
Fixpoint day_loop (step : date_rec -> option date_rec) (n : nat) (d : date_rec) : option date_rec :=
  match n with O => Some d | S n => d ← step d; day_loop step n d end.

(** The absolute value of the least [int] is not an [int]. *)
Definition date_set_day_offset (d : date_rec) (offset : Z) : option date_rec :=
  n ← int (Z.abs offset);
  day_loop (if 0 <? offset then date_set_next_day else date_set_prev_day) (Z.to_nat n) d.

(** * The calendar *)

(** Every fourth year is a leap year, except the centuries that 400 does not divide. *)
Definition leap (y : Z) : bool := (y mod 4 =? 0) && (negb (y mod 100 =? 0) || (y mod 400 =? 0)).

(** The lengths of the months, from January. *)
Definition months (y : Z) : list Z :=
  [31; if leap y then 29 else 28; 31; 30; 31; 30; 31; 31; 30; 31; 30; 31].

(** The number of days of a month, and of a year. *)
Definition month_days (y m : Z) : Z := default 0 (months y !! Z.to_nat (m - 1)).

Definition year_days (y : Z) : Z := if leap y then 366 else 365.

(** The days of a year before a month. *)
Definition days_before (y m : Z) : Z := foldr Z.add 0 (take (Z.to_nat (m - 1)) (months y)).

(** The days before a year: 365 for each year from the year 1, and a leap day for every
    fourth, less the centuries, and again for every fourth century. *)
Definition days_to (y : Z) : Z := 365 * (y - 1) + (y - 1) / 4 - (y - 1) / 100 + (y - 1) / 400.

(** A date of the calendar, in a year that is an [int]. *)
Definition valid (d : date_rec) : Prop :=
  is_int (year d) /\ 1 <= month d <= 12 /\ 1 <= day d <= month_days (year d) (month d) /\
  day_of_year d = days_before (year d) (month d) + day d.

Definition day_number (d : date_rec) : Z := days_to (year d) + day_of_year d.

(** The first day of the least year, and the last one of the greatest. *)
Definition first_day : Z := days_to (- 2 ^ 31) + 1.

Definition last_day : Z := days_to (2 ^ 31).

Lemma int_Some z : is_int z -> int z = Some z.
Proof. intros H. unfold int. by rewrite option_guard_True. Qed.

Lemma int_None z : ~ is_int z -> int z = None.
Proof. intros H. unfold int. by rewrite option_guard_False. Qed.

Lemma rem_mod y m : 0 < m -> (Z.rem y m =? 0) = (y mod m =? 0).
Proof.
  intros Hm. destruct (Z.eqb_spec (Z.rem y m) 0) as [E|E], (Z.eqb_spec (y mod m) 0) as [F|F]; try done; exfalso.
  - apply F, Z.rem_mod_eq_0; lia.
  - apply E, Z.rem_mod_eq_0; lia.
Qed.


Lemma div_steps y :
  y / 4 = (y - 1) / 4 + (if y mod 4 =? 0 then 1 else 0) /\
  y / 100 = (y - 1) / 100 + (if y mod 100 =? 0 then 1 else 0) /\
  y / 400 = (y - 1) / 400 + (if y mod 400 =? 0 then 1 else 0).
Proof.
  split; [|split].
  - destruct (Z.eqb_spec (y mod 4) 0); zdiv.
  - destruct (Z.eqb_spec (y mod 100) 0); zdiv.
  - destruct (Z.eqb_spec (y mod 400) 0); zdiv.
Qed.

(** The tests of the code are the calendar's. *)
Lemma common_leap y : common_year y = negb (leap y).
Proof.
  unfold common_year, leap. rewrite !rem_mod by lia.
  by destruct (y mod 4 =? 0), (y mod 100 =? 0), (y mod 400 =? 0).
Qed.

Lemma days_in_month_calendar y m : 1 <= m <= 12 -> days_in_month y m = month_days y m.
Proof.
  intros Hm. assert (m ∈ seqZ 1 12) as Hin by (apply elem_of_seqZ; lia). unfold days_in_month, month_days, months.
  rewrite common_leap. repeat (apply elem_of_cons in Hin as [->|Hin]; [simpl; by destruct (leap y)|]). by apply elem_of_nil in Hin.
Qed.

Lemma days_to_next y : days_to (y + 1) = days_to y + year_days y.
Proof.
  unfold days_to, year_days, leap. replace (y + 1 - 1) with y by lia.
  destruct (div_steps y) as (-> & -> & ->).
  assert (y mod 100 = 0 -> y mod 4 = 0) by zdiv. assert (y mod 400 = 0 -> y mod 100 = 0) by zdiv.
  destruct (Z.eqb_spec (y mod 4) 0), (Z.eqb_spec (y mod 100) 0), (Z.eqb_spec (y mod 400) 0); simpl; lia.
Qed.

Lemma days_before_next y m : 1 <= m <= 12 -> days_before y (m + 1) = days_before y m + month_days y m.
Proof.
  intros Hm. assert (m ∈ seqZ 1 12) as Hin by (apply elem_of_seqZ; lia). unfold days_before, month_days, months.
  repeat (apply elem_of_cons in Hin as [->|Hin]; [simpl; by destruct (leap y)|]). by apply elem_of_nil in Hin.
Qed.

Lemma days_before_year y : days_before y 13 = year_days y.
Proof. unfold days_before, year_days, months. simpl. by destruct (leap y). Qed.

Lemma month_days_range y m : 1 <= m <= 12 -> 28 <= month_days y m <= 31.
Proof.
  intros Hm. assert (m ∈ seqZ 1 12) as Hin by (apply elem_of_seqZ; lia). unfold month_days, months.
  repeat (apply elem_of_cons in Hin as [->|Hin]; [simpl; destruct (leap y); lia|]). by apply elem_of_nil in Hin.
Qed.

Lemma days_before_1 y : days_before y 1 = 0.
Proof. done. Qed.

Lemma days_before_le y m k : 1 <= m -> m + Z.of_nat (S k) <= 13 ->
  days_before y m + month_days y m <= days_before y (m + Z.of_nat (S k)).
Proof.
  intros Hm. induction k as [|k IH]; intros Hk.
  - change (Z.of_nat 1) with 1. rewrite days_before_next by lia. lia.
  - replace (m + Z.of_nat (S (S k))) with (m + Z.of_nat (S k) + 1) by lia. rewrite days_before_next by lia.
    pose proof (month_days_range y (m + Z.of_nat (S k))). lia.
Qed.

Lemma days_before_lt y m m' : 1 <= m < m' -> m' <= 13 -> days_before y m + month_days y m <= days_before y m'.
Proof.
  intros Hm Hm'. pose proof (days_before_le y m (Z.to_nat (m' - m - 1))) as H.
  replace (m + Z.of_nat (S (Z.to_nat (m' - m - 1)))) with m' in H by lia. apply H; lia.
Qed.

Lemma valid_doy d : valid d -> 1 <= day_of_year d <= year_days (year d).
Proof.
  intros (_ & Hm & Hd & E). rewrite E, <- days_before_year.
  pose proof (days_before_lt (year d) (month d) 13).
  assert (0 <= days_before (year d) (month d)); [|lia].
  destruct (decide (month d = 1)) as [->|]; [done|].
  pose proof (days_before_lt (year d) 1 (month d)). pose proof (month_days_range (year d) 1).
  rewrite days_before_1 in *. lia.
Qed.

Lemma year_days_range y : 365 <= year_days y <= 366.
Proof. unfold year_days. destruct (leap y); lia. Qed.

Lemma days_to_mono y y' : y < y' -> days_to y + year_days y <= days_to y'.
Proof.
  intros H. assert (forall k, days_to y + year_days y <= days_to (y + Z.of_nat (S k))) as Hk.
  { induction k as [|k IH]; [change (Z.of_nat 1) with 1; rewrite days_to_next; lia|].
    replace (y + Z.of_nat (S (S k))) with (y + Z.of_nat (S k) + 1) by lia. rewrite days_to_next.
    pose proof (year_days_range (y + Z.of_nat (S k))). lia. }
  specialize (Hk (Z.to_nat (y' - y - 1))). by replace (y + Z.of_nat (S (Z.to_nat (y' - y - 1)))) with y' in Hk by lia.
Qed.

Lemma valid_range d : valid d -> first_day <= day_number d <= last_day.
Proof.
  intros Hd. pose proof (valid_doy d Hd). destruct Hd as (Hy & _). unfold is_int, first_day, last_day, day_number in *.
  pose proof (days_to_mono (- 2 ^ 31) (year d)) as H1. pose proof (days_to_mono (year d) (2 ^ 31)) as H2.
  pose proof (year_days_range (- 2 ^ 31)) as H3. split; [|lia].
  destruct (decide (year d = - 2 ^ 31)) as [Ey|]; [rewrite Ey|]; lia.
Qed.

(** The days of the calendar whose year is an [int]. *)
Definition in_range (n : Z) : Prop := first_day <= n <= last_day.

(** A step by [k] days: the date that many days away, or an overflow if there is none. *)
Definition day_step (k : Z) (step : date_rec -> option date_rec) : Prop :=
  forall d, valid d ->
  (exists d', step d = Some d' /\ valid d' /\ day_number d' = day_number d + k) \/
  (step d = None /\ ~ in_range (day_number d + k)).

Local Ltac dates := split; [split; [done|lia]|lia].

Lemma next_day_ok : day_step 1 date_set_next_day.
Proof.
  intros d Hv. pose proof (valid_doy d Hv) as Hdoy. pose proof (year_days_range (year d)). destruct Hv as (Hy & Hm & Hd & E).
  pose proof (month_days_range (year d) (month d) Hm).
  unfold date_set_next_day, day_number, valid, date_days_in_month in *. rewrite days_in_month_calendar by done.
  pose proof (days_before_next (year d) (month d) Hm) as Hn. pose proof (days_to_next (year d)) as Hyn.
  rewrite (int_Some (day_of_year d + 1)) by (unfold is_int; lia). cbn [mbind option_bind].
  destruct (Z.eqb_spec (day d) (month_days (year d) (month d))) as [Ed|Hne].
  - destruct (Z.eqb_spec (month d) 12) as [E12|H12].
    + rewrite E12 in *. change (12 + 1) with 13 in Hn. rewrite days_before_year in Hn.
      destruct (decide (is_int (year d + 1))) as [Hi|Hi].
      * left. rewrite int_Some by done. eexists. split; [done|]. cbn [year month day day_of_year].
        pose proof (month_days_range (year d + 1) 1). rewrite days_before_1. dates.
      * right. rewrite int_None by done. split; [done|]. unfold in_range, last_day, is_int in *.
        replace (2 ^ 31) with (year d + 1) by lia. lia.
    + left. rewrite int_Some by (unfold is_int; lia). eexists. split; [done|]. cbn [year month day day_of_year].
      pose proof (month_days_range (year d) (month d + 1)). rewrite Hn. dates.
  - left. rewrite int_Some by (unfold is_int; lia). eexists. split; [done|]. cbn [year month day day_of_year]. dates.
Qed.

Lemma prev_day_ok : day_step (-1) date_set_prev_day.
Proof.
  intros d Hv. pose proof (valid_doy d Hv) as Hdoy. pose proof (year_days_range (year d)). destruct Hv as (Hy & Hm & Hd & E).
  pose proof (month_days_range (year d) (month d) Hm).
  unfold date_set_prev_day, day_number, valid in *.
  rewrite (int_Some (day_of_year d - 1)) by (unfold is_int; lia). cbn [mbind option_bind].
  destruct (Z.ltb_spec 1 (day d)).
  { left. rewrite int_Some by (unfold is_int; lia). eexists. split; [done|]. cbn [year month day day_of_year]. dates. }
  destruct (Z.ltb_spec 1 (month d)).
  - left. rewrite int_Some by (unfold is_int; lia). eexists. split; [done|]. cbn [year month day day_of_year].
    rewrite days_in_month_calendar by lia.
    pose proof (days_before_next (year d) (month d - 1)) as Hn. replace (month d - 1 + 1) with (month d) in Hn by lia.
    pose proof (month_days_range (year d) (month d - 1)). dates.
  - replace (month d) with 1 in * by lia. rewrite days_before_1 in E. destruct (decide (is_int (year d - 1))) as [Hi|Hi].
    + left. rewrite int_Some by done. eexists. split; [done|]. cbn [year month day day_of_year].
      pose proof (days_to_next (year d - 1)) as Hyn. replace (year d - 1 + 1) with (year d) in Hyn by lia.
      pose proof (days_before_next (year d - 1) 12) as Hn. change (12 + 1) with 13 in Hn. rewrite days_before_year in Hn.
      change (month_days (year d - 1) 12) with 31 in *. rewrite common_leap.
      unfold year_days in *. destruct (leap (year d - 1)); simpl; dates.
    + right. rewrite int_None by done. split; [done|]. unfold in_range, first_day, is_int in *.
      replace (- 2 ^ 31) with (year d) by lia. lia.
Qed.

Lemma day_loop_ok step k d n : day_step k step -> k = 1 \/ k = -1 -> valid d ->
  (in_range (day_number d + Z.of_nat n * k) ->
     exists d', day_loop step n d = Some d' /\ valid d' /\ day_number d' = day_number d + Z.of_nat n * k) /\
  (~ in_range (day_number d + Z.of_nat n * k) -> day_loop step n d = None).
Proof.
  intros Hstep Hk. revert d. induction n as [|n IH]; intros d Hv; cbn [day_loop]; pose proof (valid_range d Hv) as Hr.
  { replace (day_number d + Z.of_nat 0 * k) with (day_number d) by lia. split; [by exists d|]. unfold in_range. lia. }
  destruct (Hstep d Hv) as [(d1 & -> & Hv1 & H1)|[-> Hout]]; cbn [mbind option_bind].
  - replace (day_number d + Z.of_nat (S n) * k) with (day_number d1 + Z.of_nat n * k) by lia. by apply IH.
  - split; [|done]. unfold in_range in *. intros Hin. exfalso. apply Hout. destruct Hk as [-> | ->]; lia.
Qed.

Lemma cmp_order d e : valid d -> valid e ->
  (forall r, date_cmp d e = Some r ->
     Z.sgn r = Z.sgn (day_number e - day_number d) /\ (r = 0 <-> d = e)) /\
  (is_int (year e - year d) -> is_Some (date_cmp d e)).
Proof.
  intros Hd He. pose proof (valid_doy _ Hd). pose proof (valid_doy _ He). unfold date_cmp, day_number.
  destruct Hd as (_ & Hm & Hdd & Ed), He as (_ & Hm' & Hee & Ee).
  destruct (Z.eqb_spec (year d) (year e)) as [Ey|Hy]; simpl.
  - rewrite Ey in *. destruct (Z.eqb_spec (month d) (month e)) as [Em|Hne]; simpl.
    + rewrite Em in *. pose proof (month_days_range (year e) (month e) Hm'). rewrite int_Some by (unfold is_int; lia).
      split; [|done]. intros r [= <-]. split; [f_equal; lia|].
      split; [intros E; destruct d, e; simpl in *; f_equal; lia|intros ->; lia].
    + rewrite int_Some by (unfold is_int; lia). split; [|done]. intros r [= <-].
      pose proof (days_before_lt (year e) (month d) (month e)). pose proof (days_before_lt (year e) (month e) (month d)).
      split; [|split; [lia|intros ->; lia]].
      destruct (decide (month d < month e)); [rewrite !Z.sgn_pos by lia; done|rewrite !Z.sgn_neg by lia; done].
  - split; [|intros Hi; by rewrite int_Some]. unfold int. intros r. destruct (decide (is_int (year e - year d))) as [Hi|Hi];
      [rewrite option_guard_True by done|by rewrite option_guard_False]. intros [= <-].
    pose proof (days_to_mono (year d) (year e)). pose proof (days_to_mono (year e) (year d)).
    split; [|split; [lia|intros ->; lia]].
    destruct (decide (year d < year e)); [rewrite !Z.sgn_pos by lia; done|rewrite !Z.sgn_neg by lia; done].
Qed.

(** A day has one date. *)
Lemma day_number_inj d e : valid d -> valid e -> day_number d = day_number e -> d = e.
Proof.
  intros Hd He E. destruct (cmp_order d e Hd He) as [Hs Hdef]. pose proof (valid_doy _ Hd). pose proof (valid_doy _ He).
  assert (year d = year e) as Ey.
  { unfold day_number in E. pose proof (days_to_mono (year d) (year e)). pose proof (days_to_mono (year e) (year d)). lia. }
  destruct Hdef as [r Hr]; [rewrite Ey, Z.sub_diag; unfold is_int; lia|]. destruct (Hs r Hr) as [Hsg Hz].
  apply Hz. apply Z.sgn_null_iff. rewrite Hsg, E, Z.sub_diag. done.
Qed.

(** Comparing two dates whose years are less than 2^31 apart gives the order of their
    days: positive if the second one is later, zero for one date only. *)
Theorem date_cmp_order d e :
  valid d -> valid e -> is_int (year e - year d) ->
  exists r, date_cmp d e = Some r /\ Z.sgn r = Z.sgn (day_number e - day_number d) /\ (r = 0 <-> d = e).
Proof. intros Hd He Hi. destruct (cmp_order d e Hd He) as [Hs Hdef]. destruct (Hdef Hi) as [r Hr]. eauto. Qed.

(** C32: moving a date of the Gregorian calendar by any [int] of days, forwards or
    backwards, gives the one date that is that many days away, with its day of the year, if
    the year of that date is an [int].  Otherwise, and for the least [int], the code
    overflows. *)
Theorem date_offset_days d k :
  valid d -> is_int k ->
  (k <> - 2 ^ 31 -> in_range (day_number d + k) ->
   exists d', date_set_day_offset d k = Some d' /\ valid d' /\ day_number d' = day_number d + k /\
     forall e, valid e -> day_number e = day_number d + k -> e = d') /\
  (k = - 2 ^ 31 \/ ~ in_range (day_number d + k) -> date_set_day_offset d k = None).
Proof.
  intros Hd Hk. unfold date_set_day_offset. destruct (decide (k = - 2 ^ 31)) as [->|Hne]; [by split|].
  rewrite int_Some by (unfold is_int in *; lia). cbn [mbind option_bind].
  set (s := if 0 <? k then 1 else -1).
  assert (Z.of_nat (Z.to_nat (Z.abs k)) * s = k) as Es by (unfold s; destruct (Z.ltb_spec 0 k); lia).
  destruct (day_loop_ok (if 0 <? k then date_set_next_day else date_set_prev_day) s d (Z.to_nat (Z.abs k))) as [Hin Hout];
    [unfold s; destruct (0 <? k); [apply next_day_ok|apply prev_day_ok]|unfold s; destruct (0 <? k); auto|done|].
  rewrite Es in *. split; [|intros [?|?]; [done|auto]]. intros _ Hr. destruct (Hin Hr) as (d' & E & Hv & Hn).
  exists d'. split; [done|]. split; [done|]. split; [done|]. intros e He Ee. apply day_number_inj; [done|done|lia].
Qed.

(** What gmtime and localtime fill in is valid. *)
Lemma date_set_valid t :
  is_int (tm_year t + 1900) -> 0 <= tm_mon t <= 11 -> 1 <= tm_mday t <= month_days (tm_year t + 1900) (tm_mon t + 1) ->
  tm_yday t = days_before (tm_year t + 1900) (tm_mon t + 1) + tm_mday t - 1 ->
  exists d, date_set t = Some d /\ valid d.
Proof.
  intros Hi Hm Hd Hy. set (d := mk_date (tm_year t + 1900) (tm_mon t + 1) (tm_mday t) (tm_yday t + 1)).
  assert (valid d) as Hv by (split; [done|]; simpl; lia). exists d. split; [|done].
  pose proof (valid_doy d Hv) as Hdoy. pose proof (year_days_range (year d)). simpl in Hdoy.
  unfold date_set. rewrite !int_Some; [done|unfold is_int in *; simpl in *; lia..].
Qed.

Lemma date_cmp_order_witness : exists r, date_cmp (mk_date 2023 12 31 365) (mk_date 2024 1 1 1) = Some r /\ 0 < r.
Proof.
  assert (valid (mk_date 2023 12 31 365)) as H1 by (vm_compute; repeat split; congruence).
  assert (valid (mk_date 2024 1 1 1)) as H2 by (vm_compute; repeat split; congruence).
  destruct (date_cmp_order _ _ H1 H2) as (r & E & H & _); [by vm_compute|]. exists r. split; [done|]. by apply Z.sgn_pos_iff.
Defined.

Lemma date_offset_days_witness :
  date_set_day_offset (mk_date 2024 2 28 59) 2 = Some (mk_date 2024 3 1 61) /\ day_number (mk_date 2024 3 1 61) = 738946.
Proof.
  destruct (date_offset_days (mk_date 2024 2 28 59) 2) as [H _];
    [vm_compute; repeat split; congruence|by vm_compute|].
  destruct H as (d & H & _ & Hn & _); [done|by vm_compute|].
  rewrite H. vm_compute in H. injection H as <-. split; [reflexivity|exact Hn].
Defined.
