(* ===== verification/GoPool.v ===== *)
(** GoPool: the connection pool of the Go programs
    (src/core/pkg/fd_pool/gopool.go) over the balancer [SbalanceGo], without a
    registry of service discovery.

    Sets of stored connections, nodes, balancers and users' connections are
    numbered, and a pointer is a number.  A net.Conn is a number too: [next_fd] is
    the next one, and [closed_fds] are those that were closed.  What the resolver,
    the dial function and the check for dead connections answer are arguments, and
    the order in which Go ranges over a map is [range].  [None] is a panic.  The
    reference counts, int32 in Go, are integers without bound: they are the numbers
    of holders, as GoPoolSafe shows, so they are right for fewer than 2^31 of them. *)
From stdpp Require Import prelude list numbers option gmap.
From Stdlib Require Import ZArith Lia.
From S2P Require Import Prelude SbalanceGo.

Local Open Scope Z_scope.

(** * State *)

Record fdPort := mk_port { PortKey : list Z; Netw : list Z; Addr : list Z }.

#[export] Instance fdPort_eq : EqDecision fdPort.
Proof. solve_decision. Defined.
#[export] Instance fdPort_countable : Countable fdPort :=
  inj_countable' (fun p => (PortKey p, Netw p, Addr p)) (fun '(k, n, a) => mk_port k n a) ltac:(by intros []).

Record fdConnSet := mk_cset { cs_port : fdPort; cs_conns : list nat; cs_refs : Z }.

(** The map from port keys to sets is the list of its entries. *)
Record fdServiceNode := mk_fnode { fn_key : list Z; fn_connSet : list (list Z * nat); fn_refs : Z }.

Record fdService := mk_srv { srv_sb : nat; NetNetwork : list Z; UnixNetwork : list Z }.

Record GoPool := mk_gopool {
  csets : list fdConnSet;
  cmap : gmap fdPort nat;
  fnodes : list fdServiceNode;
  sbs : list (@Service nat);
  services : gmap (list Z) fdService;
  next_fd : nat;
  closed_fds : list nat
}.

Definition set_csets l p := mk_gopool l (cmap p) (fnodes p) (sbs p) (services p) (next_fd p) (closed_fds p).
Definition set_cmap m p := mk_gopool (csets p) m (fnodes p) (sbs p) (services p) (next_fd p) (closed_fds p).
Definition set_fnodes l p := mk_gopool (csets p) (cmap p) l (sbs p) (services p) (next_fd p) (closed_fds p).
Definition set_sbs l p := mk_gopool (csets p) (cmap p) (fnodes p) l (services p) (next_fd p) (closed_fds p).
Definition set_services m p := mk_gopool (csets p) (cmap p) (fnodes p) (sbs p) m (next_fd p) (closed_fds p).
Definition close_fds l p := mk_gopool (csets p) (cmap p) (fnodes p) (sbs p) (services p) (next_fd p) (closed_fds p ++ l).
Definition open_fd p := (next_fd p, mk_gopool (csets p) (cmap p) (fnodes p) (sbs p) (services p) (S (next_fd p)) (closed_fds p)).

Definition NewGoPool : GoPool := mk_gopool [] ∅ [] [] ∅ 0 [].

(** * Reference counts *)

Definition put_cset (id : nat) (cs : fdConnSet) (p : GoPool) : GoPool := set_csets (<[id := cs]> (csets p)) p.

Definition cs_Retain (id : nat) (p : GoPool) : option GoPool :=
  cs ← csets p !! id; Some (put_cset id (mk_cset (cs_port cs) (cs_conns cs) (cs_refs cs + 1)) p).

Definition cs_Release (id : nat) (p : GoPool) : option GoPool :=
  cs ← csets p !! id;
  let refs := cs_refs cs - 1 in
  if 0 <? refs then Some (put_cset id (mk_cset (cs_port cs) (cs_conns cs) refs) p)
  else if refs <? 0 then None
  else Some (close_fds (cs_conns cs) (put_cset id (mk_cset (cs_port cs) [] refs) p)).

Fixpoint release_all (ids : list nat) (p : GoPool) : option GoPool :=
  match ids with [] => Some p | id :: ids => p ← cs_Release id p; release_all ids p end.

(** A nil pointer releases nothing. *)
Definition cs_Release_opt (id : option nat) (p : GoPool) : option GoPool :=
  match id with Some id => cs_Release id p | None => Some p end.

Definition put_refs (n : nat) (nd : fdServiceNode) (refs : Z) (p : GoPool) : GoPool :=
  set_fnodes (<[n := mk_fnode (fn_key nd) (fn_connSet nd) refs]> (fnodes p)) p.

(** A node that nobody held is not retained, though its count is now one. *)
Definition node_Retain (n : nat) (p : GoPool) : option (option nat * GoPool) :=
  nd ← fnodes p !! n;
  let refs := fn_refs nd + 1 in
  Some (if refs =? 1 then None else Some n, put_refs n nd refs p).

Definition node_Release (n : nat) (p : GoPool) : option GoPool :=
  nd ← fnodes p !! n;
  let refs := fn_refs nd - 1 in
  let p := put_refs n nd refs p in
  if 0 <? refs then Some p
  else if refs <? 0 then None
  else release_all (map snd (fn_connSet nd)) p.

Definition node_Release_opt (n : option nat) (p : GoPool) : option GoPool :=
  match n with Some n => node_Release n p | None => Some p end.

(** * Configuration *)

Record HostConfig := mk_host { h_Name : list Z; h_Ports : list (list Z * list Z); h_Cost : Z; h_Disabled : bool }.

(** net.JoinHostPort. *)
Definition JoinHostPort (host port : list Z) : list Z :=
  if existsb (Z.eqb 58) host then bytes "[" ++ host ++ bytes "]:" ++ port else host ++ [58] ++ port.

(** strings.HasSuffix. *)
Definition HasSuffix (s suffix : list Z) : bool :=
  bool_decide (length suffix <= length s)%nat && bool_decide (drop (length s - length suffix) s = suffix).

(** ports[a] = append(ports[a], port). *)
Fixpoint add_port (ports : list (list Z * list fdPort)) (a : list Z) (port : fdPort) : list (list Z * list fdPort) :=
  match ports with
  | [] => [(a, [port])]
  | (b, l) :: ports => if bool_decide (a = b) then (b, l ++ [port]) :: ports else (b, l) :: add_port ports a port
  end.

(** connSets[key] = id. *)
Fixpoint map_set (m : list (list Z * nat)) (key : list Z) (id : nat) : list (list Z * nat) :=
  match m with
  | [] => [(key, id)]
  | (k, v) :: m => if bool_decide (k = key) then (k, id) :: m else (k, v) :: map_set m key id
  end.

Fixpoint map_get (m : list (list Z * nat)) (key : list Z) : option nat :=
  match m with [] => None | (k, v) :: m => if bool_decide (k = key) then Some v else map_get m key end.

(** The set of a port, retained, or a new one that has one reference. *)
Definition port_cset (port : fdPort) (p : GoPool) : option (nat * GoPool) :=
  match cmap p !! port with
  | Some id => p ← cs_Retain id p; Some (id, p)
  | None =>
    let id := length (csets p) in
    Some (id, set_cmap (<[port := id]> (cmap p)) (set_csets (csets p ++ [mk_cset port [] 1]) p))
  end.

Fixpoint port_csets (pkeys : list fdPort) (connSets : list (list Z * nat)) (p : GoPool) : option (list (list Z * nat) * GoPool) :=
  match pkeys with
  | [] => Some (connSets, p)
  | k :: pkeys => '(id, p) ← port_cset k p; port_csets pkeys (map_set connSets (PortKey k) id) p
  end.

Definition sb_AddNode (sb : nat) (node : nat) (cost : Z) (p : GoPool) : option GoPool :=
  s ← sbs p !! sb; Some (set_sbs (<[sb := AddNode s node cost]> (sbs p)) p).

Fixpoint addPorts (sb : nat) (key : list Z) (cost : Z) (ports : list (list Z * list fdPort)) (p : GoPool) : option GoPool :=
  match ports with
  | [] => Some p
  | (_, []) :: ports => addPorts sb key cost ports p
  | (_, pkeys) :: ports =>
    '(connSets, p) ← port_csets pkeys [] p;
    p ← sb_AddNode sb (length (fnodes p)) cost (set_fnodes (fnodes p ++ [mk_fnode key connSets 1]) p);
    addPorts sb key cost ports p
  end.

Section Config.
Context (range : forall A, list A -> list A) (LookupHost : list Z -> option (list (list Z))).

(** The loop over the ports of a host: an answer of the resolver serves all of them,
    and an error ends the loop. *)
Fixpoint host_ports (name ipnetw unixnetw : list Z) (hports : list (list Z * list Z))
    (ports : list (list Z * list fdPort)) (addrs : option (list (list Z))) : list (list Z * list fdPort) * bool :=
  match hports with
  | [] => (ports, true)
  | (pname, port) :: hports =>
    if HasSuffix pname (bytes "port") then
      if bool_decide (name = []) || bool_decide (port = []) then host_ports name ipnetw unixnetw hports ports addrs
      else
        match (match addrs with None => LookupHost name | _ => addrs end) with
        | None => (ports, false)
        | Some l =>
          let ports := foldl (fun ports a => add_port ports a (mk_port pname ipnetw (JoinHostPort a port))) ports l in
          host_ports name ipnetw unixnetw hports ports (Some l)
        end
    else if bool_decide (pname = bytes "path") then
      host_ports name ipnetw unixnetw hports (add_port ports port (mk_port (bytes "port") unixnetw port)) addrs
    else host_ports name ipnetw unixnetw hports ports addrs
  end.

(** The result says whether every lookup succeeded. *)
Fixpoint populateFromConf (sb : nat) (hosts : list (list Z * HostConfig)) (ipnetw unixnetw : list Z) (p : GoPool) :
    option (bool * GoPool) :=
  match hosts with
  | [] => Some (true, p)
  | (key, h) :: hosts =>
    if h_Disabled h then populateFromConf sb hosts ipnetw unixnetw p
    else
      let '(ports, ok) := host_ports (h_Name h) ipnetw unixnetw (range _ (h_Ports h)) [] None in
      p ← addPorts sb key (h_Cost h) (range _ ports) p;
      '(ok', p) ← populateFromConf sb hosts ipnetw unixnetw p;
      Some (ok && ok', p)
  end.

Definition getService (srvname : list Z) (retries : Z) (p : GoPool) : fdService * GoPool :=
  match services p !! srvname with
  | Some srv => (srv, p)
  | None =>
    let srv := mk_srv (length (sbs p)) (bytes "tcp") (bytes "unix") in
    (srv, set_services (<[srvname := srv]> (services p)) (set_sbs (sbs p ++ [mk_service retries 100 100 StratRandom []]) p))
  end.

Record ServiceConfig := mk_config {
  c_Service : list Z; c_Hosts : list (list Z * HostConfig); c_Retries : Z; c_Strat : BalanceStrat;
  c_FailCost : Z; c_SoftFailCost : Z; c_NetNetwork : list Z; c_UnixNetwork : list Z
}.

(** The getters of config.go: zero values stand for the defaults. *)
Definition GetRetries (c : ServiceConfig) : Z := if c_Retries c =? 0 then 1 else c_Retries c.
Definition GetFailCost (c : ServiceConfig) : Z := if c_FailCost c =? 0 then 100 else c_FailCost c.
Definition GetSoftFailCost (c : ServiceConfig) : Z := if c_SoftFailCost c =? 0 then 100 else c_SoftFailCost c.
Definition GetNetNetwork (c : ServiceConfig) : list Z := if bool_decide (c_NetNetwork c = []) then bytes "tcp" else c_NetNetwork c.
Definition GetUnixNetwork (c : ServiceConfig) : list Z := if bool_decide (c_UnixNetwork c = []) then bytes "unix" else c_UnixNetwork c.

(** A service with a name of its own.  The result is false for an error of the
    resolver, which is not reported if something was added. *)
Definition AddConfig (c : ServiceConfig) (p : GoPool) : option (bool * GoPool) :=
  let '(srv, p) := getService (c_Service c) (GetRetries c) p in
  sb ← sbs p !! srv_sb srv;
  if (0 <? Len sb)%nat then Some (true, p)
  else
    let sb := mk_service (Retries sb) (GetFailCost c) (GetSoftFailCost c) (c_Strat c) (nodes sb) in
    let srv := mk_srv (srv_sb srv) (GetNetNetwork c) (GetUnixNetwork c) in
    let p := set_services (<[c_Service c := srv]> (services p)) (set_sbs (<[srv_sb srv := sb]> (sbs p)) p) in
    '(ok, p) ← populateFromConf (srv_sb srv) (range _ (c_Hosts c)) (NetNetwork srv) (UnixNetwork srv) p;
    sb ← sbs p !! srv_sb srv;
    Some (ok || (0 <? Len sb)%nat, p).

Definition AddSingle (service netw addr : list Z) (retries : Z) (p : GoPool) : option GoPool :=
  let '(srv, p) := getService service retries p in
  addPorts (srv_sb srv) [] 1 [([], [mk_port (bytes "port") netw addr])] p.

(** ** Updating the hosts of a service, in the parts between which others can run *)

(** The new balancer has the values of the old one and the nodes of the new hosts. *)
Definition update_populate (srv : fdService) (hosts : list (list Z * HostConfig)) (p : GoPool) : option (nat * bool * GoPool) :=
  old ← sbs p !! srv_sb srv;
  let sb := length (sbs p) in
  let p := set_sbs (sbs p ++ [mk_service (Retries old) (FailCost old) (SoftFailCost old) (Strat old) []]) p in
  '(ok, p) ← populateFromConf sb (range _ hosts) (NetNetwork srv) (UnixNetwork srv) p;
  Some (sb, ok, p).

(** Under the lock, the new balancer takes the place of the old one, whose nodes are
    then released one by one. *)
Definition update_swap (service : list Z) (sb : nat) (p : GoPool) : option (list nat * GoPool) :=
  srv ← services p !! service;
  old ← sbs p !! srv_sb srv;
  Some (Nodes old, set_services (<[service := mk_srv sb (NetNetwork srv) (UnixNetwork srv)]> (services p)) p).

Fixpoint release_nodes (ns : list nat) (p : GoPool) : option GoPool :=
  match ns with [] => Some p | n :: ns => p ← node_Release n p; release_nodes ns p end.

Inductive update_result := NoSuchService | LookupError | Updated (n : nat).

Definition UpdateHostsConfig (service : list Z) (hosts : list (list Z * HostConfig)) (p : GoPool) : option (update_result * GoPool) :=
  match services p !! service with
  | None => Some (NoSuchService, p)
  | Some srv =>
    '(sb, ok, p) ← update_populate srv hosts p;
    if negb ok then Some (LookupError, p)
    else
      s ← sbs p !! sb;
      if (0 <? Len s)%nat then
        '(old, p) ← update_swap service sb p;
        p ← release_nodes old p;
        Some (Updated (Len s), p)
      else Some (Updated 0, p)
  end.
End Config.

(** * Connections *)

Section Conn.
Context {F G : Type} `{!Rng F G}.

(** [sb_len] is the number of nodes that a connection in sequence was made with: it has
    a slice of its own. *)
Record conn := mk_conn {
  portKey : list (list Z); portKeyIdx : Z; sbseed : option (list Z); service : list Z;
  sb : option nat; sbconn : option (@Connection G); sb_len : nat;
  srvnode : option nat; connset : option nat; newConnect : bool; closed : bool; Conn : option nat
}.

Definition set_port i s (c : conn) := mk_conn (portKey c) i (sbseed c) (service c) (sb c) (sbconn c) (sb_len c) (srvnode c) s (newConnect c) (closed c) (Conn c).
Definition set_connset s (c : conn) := set_port (portKeyIdx c) s c.
Definition set_srvnode n (c : conn) := mk_conn (portKey c) (portKeyIdx c) (sbseed c) (service c) (sb c) (sbconn c) (sb_len c) n (connset c) (newConnect c) (closed c) (Conn c).
Definition set_sb b k l (c : conn) := mk_conn (portKey c) (portKeyIdx c) (sbseed c) (service c) b k l (srvnode c) (connset c) (newConnect c) (closed c) (Conn c).
Definition set_new b (c : conn) := mk_conn (portKey c) (portKeyIdx c) (sbseed c) (service c) (sb c) (sbconn c) (sb_len c) (srvnode c) (connset c) b (closed c) (Conn c).
Definition set_conn x b (c : conn) := mk_conn (portKey c) (portKeyIdx c) (sbseed c) (service c) (sb c) (sbconn c) (sb_len c) (srvnode c) (connset c) (newConnect c) b x.

(** sbconn.Next: the node, and the balancer with its new costs. *)
Definition sb_Next (c : conn) (status : ConnStatus) (p : GoPool) : option (option nat * conn * GoPool) :=
  id ← sb c;
  k ← sbconn c;
  s ← sbs p !! id;
  match k with
  | seqConn _ _ =>
    '(r, k, _) ← Next (SbalanceGo.set_nodes (take (sb_len c) (nodes s)) s) k status;
    Some (r, set_sb (sb c) (Some k) (sb_len c) c, p)
  | rcycleConn _ _ _ _ _ =>
    '(r, k, s) ← Next s k status;
    Some (r, set_sb (sb c) (Some k) (sb_len c) c, set_sbs (<[id := s]> (sbs p)) p)
  end.

(** The keys from an index on, for a node that may be nil. *)
Fixpoint port_loop (keys : list (list Z)) (idx : Z) (c : conn) (p : GoPool) : option (conn * GoPool) :=
  match keys with
  | [] => Some (set_port idx None c, p)
  | pk :: keys =>
    n ← srvnode c;
    nd ← fnodes p !! n;
    match map_get (fn_connSet nd) pk with
    | Some id => p ← cs_Retain id p; Some (set_port idx (Some id) c, p)
    | None => port_loop keys (idx + 1) c p
    end
  end.

Definition movePort (c : conn) (p : GoPool) : option (conn * GoPool) :=
  p ← cs_Release_opt (connset c) p;
  let idx := portKeyIdx c + 1 in
  port_loop (drop (Z.to_nat idx) (portKey c)) idx (set_connset None c) p.

(** The loop of moveNode ends when the balancer has no node left. *)
Fixpoint node_loop (fuel : nat) (c : conn) (status : ConnStatus) (p : GoPool) : option (conn * GoPool) :=
  match fuel with
  | O => None
  | S fuel =>
    p ← node_Release_opt (srvnode c) p;
    '(next, c, p) ← sb_Next c status p;
    match next with
    | None => Some (set_srvnode None c, p)
    | Some n =>
      '(n, p) ← node_Retain n p;
      '(c, p) ← movePort (set_port (-1) None (set_srvnode n c)) p;
      match connset c with Some _ => Some (c, p) | None => node_loop fuel c status p end
    end
  end.

(** As many turns as the balancer has nodes to give, and one more. *)
Definition turns (c : conn) (p : GoPool) : nat :=
  match sb c ≫= (fun id => sbs p !! id), sbconn c with
  | Some s, Some (seqConn _ _ as k) => S (length (remaining (Nat.min (sb_len c) (length (nodes s))) k))
  | Some s, Some k => S (length (remaining (length (nodes s)) k))
  | _, _ => O
  end.

Definition moveNode (c : conn) (status : ConnStatus) (p : GoPool) : option (conn * GoPool) :=
  p ← cs_Release_opt (connset c) p;
  node_loop (turns c p) (set_connset None c) status p.

(** [random] are bytes for a new connection of the balancer. *)
Definition findConnset (c : conn) (status : ConnStatus) (random : list Z) (p : GoPool) : option (ConnStatus * conn * GoPool) :=
  srv ← services p !! service c;
  '(status, c, p) ←
    (if bool_decide (sb c = Some (srv_sb srv)) then Some (status, c, p)
     else
       s ← sbs p !! srv_sb srv;
       let c := set_new false (set_sb (Some (srv_sb srv)) (Some (NewConn s (sbseed c) random)) (length (nodes s)) c) in
       p ← cs_Release_opt (connset c) p;
       Some (Start, set_connset None c, p));
  match connset c with
  | None => '(c, p) ← moveNode c status p; Some (status, c, p)
  | Some _ =>
    if newConnect c then
      '(c, p) ← movePort c p;
      match connset c with
      | None => '(c, p) ← moveNode c status p; Some (status, c, p)
      | Some _ => Some (status, c, p)
      end
    else Some (status, c, p)
  end.

(** ** get, in the parts between which others can run *)

(** Where a connection is: with its user, or in the loop of get, about to look for a set
    (with the last status and whether a dial failed), to take a stored connection, or to
    dial. *)
Inductive place := User | Finding (status : ConnStatus) (failed : bool) | Taking (failed : bool) | Dialling (failed : bool).

Inductive answer := Closed | NoNodes | DialError | Connected.

Definition get_start (c : conn) (status : ConnStatus) (p : GoPool) : answer + (place * conn * GoPool) :=
  if closed c then inl Closed
  else inr (Finding status false, c, match Conn c with Some fd => close_fds [fd] p | None => p end).

Definition get_find (c : conn) (status : ConnStatus) (failed : bool) (random : list Z) (p : GoPool) :
    option (option answer * place * conn * GoPool) :=
  '(_, c, p) ← findConnset c status random p;
  match connset c with
  | None => Some (Some (if failed then DialError else NoNodes), User, set_conn None true c, p)
  | Some _ => Some (None, Taking failed, c, p)
  end.

(** The stored connections that are dead are closed up to the first that is not. *)
Fixpoint take_loop (dead : nat -> bool) (l : list nat) : list nat * option (nat * list nat) :=
  match l with
  | [] => ([], None)
  | fd :: l => if dead fd then let '(gone, r) := take_loop dead l in (fd :: gone, r) else ([], Some (fd, l))
  end.

Definition get_take (c : conn) (failed : bool) (dead : nat -> bool) (p : GoPool) : option (option answer * place * conn * GoPool) :=
  id ← connset c;
  cs ← csets p !! id;
  match take_loop dead (cs_conns cs) with
  | (gone, Some (fd, rest)) =>
    Some (Some Connected, User, set_new false (set_conn (Some fd) (closed c) c),
          close_fds gone (put_cset id (mk_cset (cs_port cs) rest (cs_refs cs)) p))
  | (gone, None) =>
    Some (None, Dialling failed, set_new true c,
          close_fds gone (put_cset id (mk_cset (cs_port cs) [] (cs_refs cs)) p))
  end.

(** The dial function connects or fails. *)
Definition get_dial (c : conn) (connects : bool) (p : GoPool) : option answer * place * conn * GoPool :=
  if connects then
    let '(fd, p) := open_fd p in (Some Connected, User, set_conn (Some fd) (closed c) c, p)
  else (None, Finding Fail_ true, set_conn None (closed c) c, p).

(** ** The other operations of a connection *)

Definition conn_Close (c : conn) (p : GoPool) : option (conn * GoPool) :=
  if closed c then Some (c, p)
  else
    p ← cs_Release_opt (connset c) p;
    p ← node_Release_opt (srvnode c) p;
    let c' := set_conn None true (set_srvnode None (set_connset None c)) in
    Some (c', match Conn c with Some fd => close_fds [fd] p | None => p end).

(** The connection keeps the pointer to its set. *)
Definition conn_Put (c : conn) (p : GoPool) : option (conn * GoPool) :=
  if closed c then Some (c, p)
  else
    id ← connset c;
    cs ← csets p !! id;
    fd ← Conn c;
    let p := put_cset id (mk_cset (cs_port cs) (cs_conns cs ++ [fd]) (cs_refs cs)) p in
    p ← cs_Release id p;
    p ← node_Release_opt (srvnode c) p;
    Some (set_conn None true (set_srvnode None c), p).

Definition conn_Reset_start (c : conn) (p : GoPool) : answer + (place * conn * GoPool) :=
  get_start (set_conn (Conn c) false c) Start p.

(** strings.Split (s, ","). *)
Fixpoint split_comma (cur s : list Z) : list (list Z) :=
  match s with
  | [] => [cur]
  | ch :: s => if ch =? 44 then cur :: split_comma [] s else split_comma (cur ++ [ch]) s
  end.

Definition PortMap (k : list Z) : list Z :=
  if bool_decide (k = bytes "80") || bool_decide (k = bytes "443") then bytes "http_port"
  else if bool_decide (k = bytes "8080") then bytes "port"
  else if bool_decide (k = bytes "8081") then bytes "controller_port"
  else if bool_decide (k = bytes "8082") then bytes "keepalive_port,port"
  else if bool_decide (k = bytes "8180") then bytes "plog_port"
  else [].

(** The connection that get starts with; nothing for a service that is not there. *)
Definition NewConn_start (srvname key remoteAddr : list Z) (p : GoPool) : option conn :=
  _ ← services p !! srvname;
  let mpk := PortMap key in
  let key := if bool_decide (mpk = []) then key else mpk in
  let seed := if bool_decide (remoteAddr = []) then None else Some remoteAddr in
  Some (mk_conn (split_comma [] key) 0 seed srvname None None 0 None None false false None).

(** get without interruption: [dials] are the answers of the dial function, and one
    that is missing is a failure. *)
Fixpoint get_loop (fuel : nat) (at_ : place) (c : conn) (random : list Z) (dead : nat -> bool) (dials : list bool) (p : GoPool) :
    option (answer * conn * GoPool) :=
  match fuel with
  | O => None
  | S fuel =>
    let continue (r : option answer * place * conn * GoPool) dials :=
      match r with
      | (Some a, _, c, p) => Some (a, c, p)
      | (None, at_, c, p) => get_loop fuel at_ c random dead dials p
      end in
    match at_ with
    | User => None
    | Finding status failed => r ← get_find c status failed random p; continue r dials
    | Taking failed => r ← get_take c failed dead p; continue r dials
    | Dialling failed => continue (get_dial c (default false (head dials)) p) (tail dials)
    end
  end.

Definition get (fuel : nat) (c : conn) (status : ConnStatus) (random : list Z) (dead : nat -> bool) (dials : list bool) (p : GoPool) :
    option (answer * conn * GoPool) :=
  match get_start c status p with
  | inl a => Some (a, c, p)
  | inr (at_, c, p) => get_loop fuel at_ c random dead dials p
  end.
End Conn.
