(* ===== verification/GoPoolRefs.v ===== *)
(** GoPoolRefs: the reference counts of [GoPool].  References are counted in bags:
    a set of connections has one reference for every entry of a node in use and one
    for every user of the set, a node one for every holder. *)
From stdpp Require Import prelude list numbers option gmap.
From Stdlib Require Import ZArith Lia.
From S2P Require Import Prelude SbalanceGo GoPool.

Local Open Scope Z_scope.

(** * Counting *)

Definition cntz (x : nat) (l : list nat) : Z := Z.of_nat (length (filter (eq x) l)).

Lemma cntz_nil x : cntz x [] = 0.
Proof. done. Qed.

Lemma cntz_cons x y l : cntz x (y :: l) = (if decide (x = y) then 1 else 0) + cntz x l.
Proof.
  unfold cntz. destruct (decide (x = y)).
  - rewrite filter_cons_True by done. simpl. lia.
  - rewrite filter_cons_False by done. lia.
Qed.

Lemma cntz_app x k l : cntz x (k ++ l) = cntz x k + cntz x l.
Proof. unfold cntz. rewrite filter_app, length_app. lia. Qed.

Lemma cntz_nonneg x l : 0 <= cntz x l.
Proof. unfold cntz. lia. Qed.

Lemma cntz_in x l : x ∈ l -> 1 <= cntz x l.
Proof.
  induction l as [|y l IH]; [by intros ?%elem_of_nil|]. rewrite cntz_cons. pose proof (cntz_nonneg x l).
  intros [->|Hx]%elem_of_cons; [rewrite decide_True by done; lia|]. specialize (IH Hx). case_decide; lia.
Qed.

Lemma cntz_not_in x l : (x ∉ l) -> cntz x l = 0.
Proof.
  induction l as [|y l IH]; intros H; [done|]. rewrite cntz_cons, IH by set_solver.
  rewrite decide_False by set_solver. done.
Qed.

#[export] Instance cntz_proper x : Proper ((≡ₚ) ==> eq) (cntz x).
Proof. intros k l H. unfold cntz. by rewrite H. Qed.

(** Replacing an element of a list that is flattened. *)
Lemma concat_swap {A} (f : A -> list nat) (l : list A) i x y :
  l !! i = Some x -> concat (map f (<[i := y]> l)) ++ f x ≡ₚ concat (map f l) ++ f y.
Proof.
  intros H. rewrite <- (take_drop_middle l i x H) at 2. rewrite insert_take_drop by (by eapply lookup_lt_Some).
  rewrite !map_app, !concat_app. simpl. set (a := concat _). set (b := concat _).
  rewrite <- !app_assoc. apply Permutation_app_head.
  rewrite (Permutation_app_comm b (f x)), app_assoc, (Permutation_app_comm (f y) (f x)), <- app_assoc.
  by rewrite (Permutation_app_comm (f y) b).
Qed.

Lemma concat_insert_same {A} (f : A -> list nat) (l : list A) i x y :
  l !! i = Some x -> f x = f y -> concat (map f (<[i := y]> l)) = concat (map f l).
Proof.
  intros H E. rewrite <- (take_drop_middle l i x H) at 2. rewrite insert_take_drop by (by eapply lookup_lt_Some).
  rewrite !map_app, !concat_app. simpl. by rewrite E.
Qed.

(** * The invariant *)

(** The references of the nodes in use. *)
Definition node_csets (nd : fdServiceNode) : list nat := if 0 <? fn_refs nd then map snd (fn_connSet nd) else [].

Definition node_bag (p : GoPool) : list nat := concat (map node_csets (fnodes p)).

(** The connections that are stored. *)
Definition stored (p : GoPool) : list nat := concat (map cs_conns (csets p)).

(** [C] are the references to sets, and [N] those to nodes, from outside. *)
Record inv (p : GoPool) (C N : list nat) : Prop := {
  iv_cs id cs : csets p !! id = Some cs -> cs_refs cs = cntz id (C ++ node_bag p) /\ (cs_refs cs = 0 -> cs_conns cs = []);
  iv_cids id : id ∈ C ++ node_bag p -> (id < length (csets p))%nat;
  iv_nd n nd : fnodes p !! n = Some nd -> fn_refs nd = cntz n N;
  iv_nids n : n ∈ N -> (n < length (fnodes p))%nat;
  iv_cmap port id : cmap p !! port = Some id -> exists cs, csets p !! id = Some cs /\ cs_port cs = port
}.

Lemma inv_perm p C C' N N' : C ≡ₚ C' -> N ≡ₚ N' -> inv p C N -> inv p C' N'.
Proof.
  intros HC HN [H1 H2 H3 H4 H5]. split; [|by setoid_rewrite <- HC| |by setoid_rewrite <- HN|done].
  - intros id cs H. destruct (H1 _ _ H) as [E ?]. split; [|done]. by rewrite E, HC.
  - intros n nd H. by rewrite (H3 _ _ H), HN.
Qed.

(** What the counts do not see: balancers, services and descriptors. *)
Lemma inv_same p p' C N :
  csets p' = csets p -> cmap p' = cmap p -> fnodes p' = fnodes p -> inv p C N -> inv p' C N.
Proof. intros E1 E2 E3 [H1 H2 H3 H4 H5]. split; unfold node_bag in *; rewrite ?E1, ?E2, ?E3; done. Qed.

(** What an operation does to the connections: the stored and the closed ones are the
    same, up to order. *)
Definition conserves (p p' : GoPool) : Prop :=
  stored p' ++ closed_fds p' ≡ₚ stored p ++ closed_fds p /\ next_fd p' = next_fd p.

#[export] Instance conserves_preorder : PreOrder conserves.
Proof. split; [done|]. intros p q r [H1 E1] [H2 E2]. split; [by rewrite H2|congruence]. Qed.

(** The parts that reference counting leaves alone. *)
Definition same_rest (p p' : GoPool) : Prop :=
  sbs p' = sbs p /\ services p' = services p /\ cmap p' = cmap p /\ length (csets p') = length (csets p) /\
  length (fnodes p') = length (fnodes p) /\
  (forall n nd', fnodes p' !! n = Some nd' -> exists nd, fnodes p !! n = Some nd /\ fn_connSet nd' = fn_connSet nd).

#[export] Instance same_rest_preorder : PreOrder same_rest.
Proof.
  split; [intros p; repeat split; eauto|].
  intros p q r (A1 & A2 & A3 & A4 & A5 & A6) (B1 & B2 & B3 & B4 & B5 & B6). repeat split; try congruence.
  intros n nd Hn. destruct (B6 _ _ Hn) as (nd' & Hn' & E). destruct (A6 _ _ Hn') as (nd'' & Hn'' & E').
  exists nd''. split; [done|congruence].
Qed.

Definition keeps (p p' : GoPool) : Prop := conserves p p' /\ same_rest p p'.

#[export] Instance keeps_preorder : PreOrder keeps.
Proof. split; [done|]. intros p q r [A B] [C D]. split; [by transitivity q|by transitivity q]. Qed.

(** ** Sets *)

Lemma inv_put_cset p C N id cs cs' :
  csets p !! id = Some cs -> cs_port cs' = cs_port cs -> inv p C N ->
  forall C', (forall x, cntz x (C' ++ node_bag p) = cntz x (C ++ node_bag p) + (if decide (x = id) then cs_refs cs' - cs_refs cs else 0)) ->
    (forall x, x ∈ C' -> x ∈ C \/ x = id) -> (cs_refs cs' = 0 -> cs_conns cs' = []) ->
  inv (put_cset id cs' p) C' N.
Proof.
  intros H Ep [H1 H2 H3 H4 H5] C' Hc Hin H0. pose proof (lookup_lt_Some _ _ _ H) as Hlt.
  split; simpl; [| |done|done|].
  - intros x cs1 Hx. change (node_bag (put_cset id cs' p)) with (node_bag p). rewrite Hc.
    destruct (decide (x = id)) as [->|Hne].
    + rewrite list_lookup_insert_eq in Hx by done. simplify_eq. destruct (H1 _ _ H) as [E _]. split; [lia|done].
    + rewrite list_lookup_insert_ne in Hx by done. destruct (H1 _ _ Hx) as [E ?]. split; [lia|done].
  - intros x. rewrite length_insert. intros [Hx|Hx]%elem_of_app.
    + destruct (Hin _ Hx) as [?| ->]; [|done]. apply H2, elem_of_app. by left.
    + apply H2, elem_of_app. by right.
  - intros port x Hx. destruct (H5 _ _ Hx) as (cs1 & Hcs & E). destruct (decide (x = id)) as [->|Hne].
    + exists cs'. rewrite list_lookup_insert_eq by done. split; [done|]. congruence.
    + exists cs1. by rewrite list_lookup_insert_ne.
Qed.

Lemma stored_put_cset p id cs cs' :
  csets p !! id = Some cs -> stored (put_cset id cs' p) ++ cs_conns cs ≡ₚ stored p ++ cs_conns cs'.
Proof. intros H. apply (concat_swap cs_conns _ _ _ _ H). Qed.

Lemma same_rest_put_cset p id cs' : same_rest p (put_cset id cs' p).
Proof. repeat split; simpl; [by rewrite length_insert|eauto]. Qed.

Lemma retain_ok p C N id :
  inv p C N -> (id < length (csets p))%nat ->
  exists p', cs_Retain id p = Some p' /\ inv p' (id :: C) N /\ keeps p p'.
Proof.
  intros Hi Hid. destruct (lookup_lt_is_Some_2 _ _ Hid) as [cs Hcs]. unfold cs_Retain. rewrite Hcs. simpl.
  eexists. split; [done|]. split; [|split; [split; [|done]|apply same_rest_put_cset]].
  - apply (inv_put_cset _ C _ _ cs); [done|done|done| |set_solver|].
    + intros x. simpl. rewrite cntz_cons. case_decide; lia.
    + destruct (iv_cs _ _ _ Hi _ _ Hcs) as [E _]. pose proof (cntz_nonneg id (C ++ node_bag p)). simpl. lia.
  - simpl. apply Permutation_app_tail. unfold stored. simpl. by rewrite (concat_insert_same _ _ _ cs).
Qed.

Lemma release_ok p C N id :
  inv p (id :: C) N -> exists p', cs_Release id p = Some p' /\ inv p' C N /\ keeps p p'.
Proof.
  intros Hi. destruct (lookup_lt_is_Some_2 (csets p) id) as [cs Hcs].
  { apply (iv_cids _ _ _ Hi). set_solver. }
  destruct (iv_cs _ _ _ Hi _ _ Hcs) as [Er H0]. simpl in Er. rewrite cntz_cons, decide_True in Er by done.
  pose proof (cntz_nonneg id (C ++ node_bag p)) as Hnn. unfold cs_Release. rewrite Hcs. simpl.
  assert (forall conns, (cs_refs cs - 1 = 0 -> conns = []) ->
    inv (put_cset id (mk_cset (cs_port cs) conns (cs_refs cs - 1)) p) C N) as Hput.
  { intros conns Hc. apply (inv_put_cset _ (id :: C) _ _ cs); [done|done|done| |set_solver|done].
    intros x. simpl. rewrite cntz_cons. case_decide; lia. }
  destruct (Z.ltb_spec 0 (cs_refs cs - 1)).
  - eexists. split; [done|]. split; [apply Hput; lia|]. split; [split; [|done]|apply same_rest_put_cset].
    simpl. apply Permutation_app_tail. unfold stored. simpl. by rewrite (concat_insert_same _ _ _ cs).
  - rewrite (proj2 (Z.ltb_ge _ _)) by lia. eexists. split; [done|]. split; [|split; [split; [|done]|]].
    + eapply inv_same; [..|apply (Hput []); done]; done.
    + simpl. rewrite (Permutation_app_comm (closed_fds p)), app_assoc. apply Permutation_app_tail.
      etransitivity; [apply (stored_put_cset p id cs _ Hcs)|]. simpl. by rewrite app_nil_r.
    + etransitivity; [apply (same_rest_put_cset p id)|]. repeat split; simpl; eauto.
Qed.

Lemma release_opt_ok p C N o :
  inv p (option_list o ++ C) N -> exists p', cs_Release_opt o p = Some p' /\ inv p' C N /\ keeps p p'.
Proof. destruct o as [id|]; [apply release_ok|]. intros H. by exists p. Qed.

Lemma release_all_ok ids p C N :
  inv p (ids ++ C) N -> exists p', release_all ids p = Some p' /\ inv p' C N /\ keeps p p'.
Proof.
  revert p. induction ids as [|id ids IH]; intros p Hi; [by exists p|]. simpl.
  destruct (release_ok _ _ _ _ Hi) as (p1 & -> & Hi1 & Hk). simpl.
  destruct (IH _ Hi1) as (p2 & -> & Hi2 & Hk2). exists p2. split; [done|]. split; [done|]. by transitivity p1.
Qed.

(** ** Nodes *)

Lemma node_bag_put p n nd refs :
  fnodes p !! n = Some nd ->
  node_bag (put_refs n nd refs p) ++ node_csets nd ≡ₚ node_bag p ++ node_csets (mk_fnode (fn_key nd) (fn_connSet nd) refs).
Proof. intros H. apply (concat_swap node_csets _ _ _ _ H). Qed.

Lemma same_rest_put_refs p n nd refs : fnodes p !! n = Some nd -> same_rest p (put_refs n nd refs p).
Proof.
  intros H. repeat split; simpl; [by rewrite length_insert|]. intros m nd' Hm. destruct (decide (m = n)) as [->|Hne].
  - rewrite list_lookup_insert_eq in Hm by (by eapply lookup_lt_Some). simplify_eq. by exists nd.
  - rewrite list_lookup_insert_ne in Hm by done. by exists nd'.
Qed.

(** A change of the references of a node; [D] are the sets it gains or loses. *)
Lemma inv_put_refs p C N C' N' n nd refs :
  fnodes p !! n = Some nd -> inv p C N ->
  (forall m, cntz m N' = cntz m N + (if decide (m = n) then refs - fn_refs nd else 0)) ->
  (forall m, m ∈ N' -> m ∈ N \/ m = n) ->
  C' ++ node_bag (put_refs n nd refs p) ≡ₚ C ++ node_bag p ->
  inv (put_refs n nd refs p) C' N'.
Proof.
  intros H [H1 H2 H3 H4 H5] Hc Hin Hbag. pose proof (lookup_lt_Some _ _ _ H) as Hlt. split; simpl; [| | | |done].
  - intros id cs Hcs. rewrite Hbag. by apply H1.
  - intros id Hid. rewrite Hbag in Hid. by apply H2.
  - intros m nd' Hm. rewrite Hc. destruct (decide (m = n)) as [->|Hne].
    + rewrite list_lookup_insert_eq in Hm by done. simplify_eq/=. rewrite (H3 _ _ H). lia.
    + rewrite list_lookup_insert_ne in Hm by done. rewrite (H3 _ _ Hm). lia.
  - intros m Hm. rewrite length_insert. destruct (Hin _ Hm) as [?| ->]; [by apply H4|done].
Qed.

Lemma node_csets_pos k m r : 0 < r -> node_csets (mk_fnode k m r) = map snd m.
Proof. intros H. unfold node_csets. simpl. by rewrite (proj2 (Z.ltb_lt _ _)). Qed.

(** Retaining a node that is held gives it. *)
Lemma node_retain_ok p C N n :
  inv p C N -> n ∈ N ->
  exists p', node_Retain n p = Some (Some n, p') /\ inv p' C (n :: N) /\ keeps p p'.
Proof.
  intros Hi Hn. destruct (lookup_lt_is_Some_2 (fnodes p) n (iv_nids _ _ _ Hi _ Hn)) as [nd Hnd].
  pose proof (iv_nd _ _ _ Hi _ _ Hnd) as Er. pose proof (cntz_in _ _ Hn). unfold node_Retain. rewrite Hnd. simpl.
  rewrite (proj2 (Z.eqb_neq _ _)) by lia. eexists. split; [done|].
  split; [|split; [done|by apply same_rest_put_refs]].
  apply (inv_put_refs _ C N); [done|done| |set_solver|].
  - intros m. rewrite cntz_cons. case_decide; lia.
  - apply Permutation_app_head. unfold node_bag. simpl. rewrite (concat_insert_same _ _ _ nd); [done|done|].
    destruct nd as [k m r]. simpl in *. by rewrite !node_csets_pos by lia.
Qed.

Lemma node_release_ok p C N n :
  inv p C (n :: N) -> exists p', node_Release n p = Some p' /\ inv p' C N /\ keeps p p'.
Proof.
  intros Hi. destruct (lookup_lt_is_Some_2 (fnodes p) n) as [nd Hnd].
  { apply (iv_nids _ _ _ Hi). set_solver. }
  pose proof (iv_nd _ _ _ Hi _ _ Hnd) as Er. rewrite cntz_cons, decide_True in Er by done.
  pose proof (cntz_nonneg n N) as Hnn. unfold node_Release. rewrite Hnd. simpl.
  assert (forall m, cntz m N = cntz m (n :: N) + (if decide (m = n) then fn_refs nd - 1 - fn_refs nd else 0)) as Hc.
  { intros m. rewrite cntz_cons. case_decide; lia. }
  assert (keeps p (put_refs n nd (fn_refs nd - 1) p)) as Hk by (split; [done|by apply same_rest_put_refs]).
  pose proof (node_bag_put p n nd (fn_refs nd - 1) Hnd) as Hb.
  assert (node_csets nd = map snd (fn_connSet nd)) as Ec by (destruct nd as [k m r]; apply node_csets_pos; simpl in *; lia).
  destruct (Z.ltb_spec 0 (fn_refs nd - 1)).
  - eexists. split; [done|]. split; [|done]. apply (inv_put_refs _ C (n :: N)); [done|done|done|set_solver|].
    rewrite node_csets_pos, Ec in Hb by done. apply Permutation_app_inv_r in Hb. by rewrite Hb.
  - rewrite (proj2 (Z.ltb_ge _ _)) by lia.
    destruct (release_all_ok (map snd (fn_connSet nd)) (put_refs n nd (fn_refs nd - 1) p) C N) as (p' & -> & Hi' & Hk').
    + apply (inv_put_refs _ C (n :: N)); [done|done|done|set_solver|].
      rewrite Ec in Hb. assert (node_csets (mk_fnode (fn_key nd) (fn_connSet nd) (fn_refs nd - 1)) = []) as En.
      { unfold node_csets. simpl. by rewrite (proj2 (Z.ltb_ge _ _)) by lia. }
      rewrite En, app_nil_r in Hb. rewrite <- Hb, (Permutation_app_comm (map snd _) C), <- app_assoc.
      apply Permutation_app_head. apply Permutation_app_comm.
    + exists p'. split; [done|]. split; [done|]. by transitivity (put_refs n nd (fn_refs nd - 1) p).
Qed.

Lemma node_release_opt_ok p C N o :
  inv p C (option_list o ++ N) -> exists p', node_Release_opt o p = Some p' /\ inv p' C N /\ keeps p p'.
Proof. destruct o as [n|]; [apply node_release_ok|]. intros H. by exists p. Qed.

(** * New nodes *)

(** What adding nodes [ns] to the balancer [b] does to the rest. *)
Record extends (b : nat) (ns : list nat) (p p' : GoPool) : Prop := {
  ex_conserves : conserves p p';
  ex_services : services p' = services p;
  ex_nodes : exists l, fnodes p' = fnodes p ++ l;
  ex_sb s : sbs p !! b = Some s -> exists s', sbs p' = <[b := s']> (sbs p) /\ Nodes s' = Nodes s ++ ns /\
    Retries s' = Retries s /\ Strat s' = Strat s
}.

Lemma extends_refl b p : extends b [] p p.
Proof.
  split; [done|done|by exists []; rewrite app_nil_r|]. intros s Hs. exists s. rewrite list_insert_id by done.
  by rewrite app_nil_r.
Qed.

Lemma extends_trans b ns1 ns2 p1 p2 p3 :
  is_Some (sbs p1 !! b) -> extends b ns1 p1 p2 -> extends b ns2 p2 p3 -> extends b (ns1 ++ ns2) p1 p3.
Proof.
  intros [s Hs] [A1 A2 [l1 A3] A4] [B1 B2 [l2 B3] B4]. split; [by transitivity p2|congruence| |].
  - exists (l1 ++ l2). by rewrite B3, A3, app_assoc.
  - intros s0 Hs0. simplify_eq. destruct (A4 _ Hs) as (s1 & E1 & N1 & R1 & S1).
    destruct (B4 s1) as (s2 & E2 & N2 & R2 & S2).
    { rewrite E1. apply list_lookup_insert_eq. by eapply lookup_lt_Some. }
    exists s2. rewrite E2, E1, list_insert_insert_eq. rewrite N2, N1, app_assoc. repeat split; congruence.
Qed.

Lemma port_cset_ok p C N port :
  inv p C N ->
  exists id p', port_cset port p = Some (id, p') /\ inv p' (id :: C) N /\ conserves p p' /\
    services p' = services p /\ fnodes p' = fnodes p /\ sbs p' = sbs p.
Proof.
  intros Hi. unfold port_cset. destruct (cmap p !! port) as [id|] eqn:E.
  - destruct (iv_cmap _ _ _ Hi _ _ E) as (cs & Hcs & _).
    destruct (retain_ok p C N id Hi) as (p' & Hr & Hi' & Hc & Hs); [by eapply lookup_lt_Some|].
    exists id, p'. rewrite Hr. split; [done|]. split; [done|]. split; [done|].
    destruct Hs as (S1 & S2 & S3 & S4 & S5 & S6). split; [done|]. split; [|done].
    unfold cs_Retain in Hr. rewrite Hcs in Hr. simpl in Hr. by simplify_eq.
  - eexists _, _. split; [done|]. set (n := length (csets p)).
    assert (cntz n (C ++ node_bag p) = 0) as H0.
    { apply cntz_not_in. intros Hin%(iv_cids _ _ _ Hi). subst n. lia. }
    split; [|split; [split; [|done]|done]].
    + destruct Hi as [H1 H2 H3 H4 H5]. split; simpl; [| |done|done|].
      * intros id cs Hcs. change (node_bag (set_cmap _ _)) with (node_bag p). rewrite cntz_cons.
        apply lookup_app_Some in Hcs as [Hcs|[Hge Hcs]].
        -- pose proof (lookup_lt_Some _ _ _ Hcs). rewrite decide_False by (subst n; lia). by apply H1.
        -- apply list_lookup_singleton_Some in Hcs as [Hz <-]. assert (id = n) as -> by (subst n; lia). simpl.
           rewrite decide_True by done. split; [lia|done].
      * intros id. rewrite length_app. simpl. intros [->|Hin]%elem_of_cons; [subst n; lia|]. specialize (H2 _ Hin). lia.
      * intros q id. rewrite lookup_insert_Some. intros [[<- <-]|[Hne Hq]].
        -- exists (mk_cset port [] 1). split; [|done]. subst n. by apply list_lookup_middle.
        -- destruct (H5 _ _ Hq) as (cs & Hcs & Hp). exists cs. split; [|done]. by apply lookup_app_l_Some.
    + simpl. unfold stored. simpl. rewrite map_app, concat_app. simpl. by rewrite app_nil_r.
Qed.

Lemma map_set_fresh m k id : (k ∉ map fst m) -> map_set m k id = m ++ [(k, id)].
Proof.
  induction m as [|[k' v] m IH]; intros H; [done|]. simpl in *.
  rewrite bool_decide_eq_false_2 by set_solver. rewrite IH by set_solver. done.
Qed.

(** Replacing the set of a key loses the reference to it. *)
Lemma map_set_perm m k id : exists lost, id :: map snd m ≡ₚ lost ++ map snd (map_set m k id) /\ ((k ∉ map fst m) -> lost = []).
Proof.
  induction m as [|[k' v] m IH]; [by exists []|]. simpl. case_bool_decide as E.
  - exists [v]. simpl. split; [apply Permutation_swap|]. subst. intros H. set_solver.
  - destruct IH as (lost & Hp & Hl). exists lost. simpl. split; [|intros H; apply Hl; set_solver].
    rewrite Permutation_swap, Hp. by rewrite Permutation_middle.
Qed.

(** The sets of the ports of an address; [lost] are the references that nothing has any
    longer, which there are only if two ports have the same key. *)
Lemma port_csets_ok pkeys : forall m p C N,
  inv p (map snd m ++ C) N ->
  exists m' lost p', port_csets pkeys m p = Some (m', p') /\ inv p' (map snd m' ++ lost ++ C) N /\ conserves p p' /\
    services p' = services p /\ fnodes p' = fnodes p /\ sbs p' = sbs p /\ (NoDup (map fst m ++ map PortKey pkeys) -> lost = []).
Proof.
  induction pkeys as [|k pkeys IH]; intros m p C N Hi; cbn [port_csets].
  - by exists m, [], p.
  - destruct (port_cset_ok p _ N k Hi) as (id & p1 & -> & Hi1 & Hc1 & S1 & F1 & B1). cbn [mbind option_bind].
    destruct (map_set_perm m (PortKey k) id) as (lost1 & Hp & Hl1).
    destruct (IH (map_set m (PortKey k) id) p1 (lost1 ++ C) N) as (m' & lost2 & p2 & -> & Hi2 & Hc2 & S2 & F2 & B2 & Hl2).
    { eapply inv_perm; [|done|exact Hi1]. rewrite app_comm_cons, Hp, app_assoc. by rewrite (Permutation_app_comm lost1). }
    exists m', (lost2 ++ lost1), p2. split; [done|]. split; [by rewrite <- app_assoc|]. split; [by transitivity p1|].
    split; [congruence|]. split; [congruence|]. split; [congruence|]. intros Hnd. simpl in Hnd.
    assert (PortKey k ∉ map fst m) as Hk by (apply NoDup_app in Hnd; set_solver).
    rewrite Hl1 by done. rewrite Hl2; [done|]. rewrite map_set_fresh, map_app by done. by rewrite <- app_assoc.
Qed.

(** A new node holds the references of its sets, and has one itself. *)
Lemma inv_new_node p C N key m :
  inv p (map snd m ++ C) N ->
  inv (set_fnodes (fnodes p ++ [mk_fnode key m 1]) p) C (length (fnodes p) :: N).
Proof.
  intros [H1 H2 H3 H4 H5].
  assert (map snd m ++ C ++ node_bag p ≡ₚ C ++ node_bag (set_fnodes (fnodes p ++ [mk_fnode key m 1]) p)) as Hb.
  { unfold node_bag at 2. simpl. rewrite map_app, concat_app. simpl. rewrite node_csets_pos, app_nil_r by lia.
    fold (node_bag p). by rewrite (Permutation_app_comm (map snd m)), <- app_assoc. }
  split; simpl; [| | | |done].
  - intros id cs Hcs. rewrite <- Hb, app_assoc. by apply H1.
  - intros id Hid. rewrite <- Hb, app_assoc in Hid. by apply H2.
  - intros n nd Hn. rewrite cntz_cons. apply lookup_app_Some in Hn as [Hn|[Hge Hn]].
    + pose proof (lookup_lt_Some _ _ _ Hn). rewrite decide_False by lia. rewrite (H3 _ _ Hn). lia.
    + apply list_lookup_singleton_Some in Hn as [Hz <-]. assert (n = length (fnodes p)) as -> by lia.
      rewrite decide_True by done. simpl. rewrite cntz_not_in; [lia|]. intros Hin%H4. lia.
  - intros n. rewrite length_app. simpl. intros [->|Hin]%elem_of_cons; [lia|]. specialize (H4 _ Hin). lia.
Qed.

(** The assumption of the source: the ports of an address have different keys. *)
Definition unique_ports (ports : list (list Z * list fdPort)) : Prop :=
  Forall (fun a => NoDup (map PortKey a.2)) ports.

Lemma addPorts_ok b key cost ports : forall p C N,
  inv p C N -> is_Some (sbs p !! b) ->
  exists ns lost p', addPorts b key cost ports p = Some p' /\ inv p' (lost ++ C) (ns ++ N) /\ extends b ns p p' /\
    (unique_ports ports -> lost = []).
Proof.
  induction ports as [|[a pkeys] ports IH]; intros p C N Hi Hb; cbn [addPorts].
  { exists [], [], p. split; [done|]. split; [done|]. split; [apply extends_refl|done]. }
  destruct pkeys as [|k pkeys].
  { destruct (IH p C N Hi Hb) as (ns & lost & p' & E & H1 & H2 & H3). exists ns, lost, p'. do 3 (split; [done|]).
    intros Hu. apply list.Forall_cons in Hu as [_ Hu]. auto. }
  destruct (port_csets_ok (k :: pkeys) [] p C N Hi) as (ids & lost1 & p1 & -> & Hi1 & Hc1 & S1 & F1 & B1 & Hl1).
  cbn [mbind option_bind app]. destruct Hb as [s Hs].
  set (n := length (fnodes p1)). set (p2 := set_fnodes _ p1).
  pose proof (inv_new_node p1 (lost1 ++ C) N key ids Hi1) as Hi2.
  unfold sb_AddNode. change (sbs p2) with (sbs p1). rewrite B1, Hs. cbn [mbind option_bind].
  set (p3 := set_sbs _ p2).
  assert (inv p3 (lost1 ++ C) (n :: N)) as Hi3 by (eapply inv_same; [..|exact Hi2]; done).
  assert (extends b [n] p p3) as He.
  { split; [done|done|simpl; rewrite F1; by eexists|]. intros s0 Hs0. simplify_eq.
    eexists. split; [done|]. unfold Nodes. simpl. rewrite map_app. done. }
  destruct (IH p3 (lost1 ++ C) (n :: N) Hi3) as (ns & lost2 & p' & -> & Hi' & He' & Hl2).
  { simpl. rewrite list_lookup_insert_eq by (by eapply lookup_lt_Some). done. }
  exists (n :: ns), (lost2 ++ lost1), p'. split; [done|]. split; [|split; [by apply (extends_trans b [n] ns p p3 p')|]].
  - eapply inv_perm; [| |exact Hi']; [by rewrite app_assoc|]. simpl. by rewrite Permutation_middle.
  - intros Hu. apply list.Forall_cons in Hu as [Hu1 Hu]. by rewrite Hl1, Hl2.
Qed.

Section Populate.
Context (range : forall A, list A -> list A) (Hrange : forall A (l : list A), range A l ≡ₚ l).
Context (LookupHost : list Z -> option (list (list Z))).

Definition host_unique (ipnetw unixnetw : list Z) (h : HostConfig) : Prop :=
  unique_ports (host_ports LookupHost (h_Name h) ipnetw unixnetw (range _ (h_Ports h)) [] None).1.

Lemma populate_ok b ipnetw unixnetw hosts : forall p C N,
  inv p C N -> is_Some (sbs p !! b) ->
  exists ok ns lost p', populateFromConf range LookupHost b hosts ipnetw unixnetw p = Some (ok, p') /\
    inv p' (lost ++ C) (ns ++ N) /\ extends b ns p p' /\ (Forall (fun h => host_unique ipnetw unixnetw h.2) hosts -> lost = []).
Proof.
  induction hosts as [|[key h] hosts IH]; intros p C N Hi Hb; cbn [populateFromConf].
  { exists true, [], [], p. split; [done|]. split; [done|]. split; [apply extends_refl|done]. }
  destruct (h_Disabled h).
  { destruct (IH p C N Hi Hb) as (ok & ns & lost & p' & E & H1 & H2 & H3). exists ok, ns, lost, p'. do 3 (split; [done|]).
    intros Hu. apply list.Forall_cons in Hu as [_ Hu]. auto. }
  destruct (host_ports _ _ _ _ _ _ _) as [ports ok] eqn:Ep.
  destruct (addPorts_ok b key (h_Cost h) (range _ ports) p C N Hi Hb) as (ns1 & lost1 & p1 & -> & Hi1 & He1 & Hl1).
  cbn [mbind option_bind]. destruct Hb as [s Hs].
  destruct (ex_sb _ _ _ _ He1 _ Hs) as (s1 & E1 & _).
  destruct (IH p1 (lost1 ++ C) (ns1 ++ N) Hi1) as (ok2 & ns2 & lost2 & p2 & -> & Hi2 & He2 & Hl2).
  { rewrite E1, list_lookup_insert_eq by (by eapply lookup_lt_Some). done. }
  cbn [mbind option_bind]. eexists _, (ns1 ++ ns2), (lost2 ++ lost1), p2. split; [done|]. split; [|split; [by eapply extends_trans|]].
  - eapply inv_perm; [| |exact Hi2]; [by rewrite app_assoc|]. rewrite app_assoc, (Permutation_app_comm ns2 ns1). done.
  - intros Hu. apply list.Forall_cons in Hu as [Hu1 Hu]. rewrite Hl2 by done. rewrite Hl1; [done|].
    unfold host_unique in Hu1. cbn [snd] in Hu1. rewrite Ep in Hu1. unfold unique_ports. by rewrite Hrange.
Qed.
End Populate.
