(* ===== verification/GoPoolConn.v ===== *)
(** GoPoolConn: what the operations of a connection of [GoPool] do to the reference
    counts, with the references of everybody else as a frame. *)
From stdpp Require Import prelude list numbers option gmap.
From Stdlib Require Import ZArith Lia.
From S2P Require Import Prelude SbalanceGo GoPool GoPoolRefs.

Local Open Scope Z_scope.

Section Conn.
Context {F G : Type} `{!Rng F G}.
Implicit Types (c : @conn G) (p : GoPool).

(** ** What stays *)

(** The pool, up to counts of references and costs. *)
Record moves p p' : Prop := {
  mv_conserves : conserves p p';
  mv_services : services p' = services p;
  mv_csets : length (csets p') = length (csets p);
  mv_nodes n nd' : fnodes p' !! n = Some nd' -> exists nd, fnodes p !! n = Some nd /\ fn_connSet nd' = fn_connSet nd;
  mv_sbs i s : sbs p !! i = Some s -> exists s', sbs p' !! i = Some s' /\ same_nodes s s'
}.

Lemma same_nodes_refl (s : @Service nat) : same_nodes s s.
Proof. done. Qed.

Lemma same_nodes_trans (s1 s2 s3 : @Service nat) : same_nodes s1 s2 -> same_nodes s2 s3 -> same_nodes s1 s3.
Proof. intros (A & B & C) (A' & B' & C'). repeat split; congruence. Qed.

#[local] Instance moves_preorder : PreOrder moves.
Proof.
  split.
  - intros p. split; [done|done|done|eauto|eauto using same_nodes_refl].
  - intros p q r [A1 A2 A3 A4 A5] [B1 B2 B3 B4 B5]. split; [by transitivity q|congruence|congruence| |].
    + intros n nd Hn. destruct (B4 _ _ Hn) as (nd1 & Hn1 & E1). destruct (A4 _ _ Hn1) as (nd2 & Hn2 & E2).
      exists nd2. split; [done|congruence].
    + intros i s Hs. destruct (A5 _ _ Hs) as (s1 & Hs1 & E1). destruct (B5 _ _ Hs1) as (s2 & Hs2 & E2).
      exists s2. split; [done|by eapply same_nodes_trans].
Qed.

Lemma keeps_moves p p' : keeps p p' -> moves p p'.
Proof.
  intros [Hc (S1 & S2 & S3 & S4 & S5 & S6)]. split; [done|done|done|done|]. rewrite S1. eauto using same_nodes_refl.
Qed.

(** The parts of a connection that moving to another node leaves. *)
Definition same_user c c' : Prop :=
  portKey c' = portKey c /\ sbseed c' = sbseed c /\ service c' = service c /\ sb c' = sb c /\ sb_len c' = sb_len c /\
  newConnect c' = newConnect c /\ closed c' = closed c /\ Conn c' = Conn c.

#[local] Instance same_user_preorder : PreOrder same_user.
Proof. split; [by repeat split|]. intros ??? (?&?&?&?&?&?&?&?) (?&?&?&?&?&?&?&?). repeat split; congruence. Qed.

(** ** The balancer of a connection *)

Definition width (s : @Service nat) (c : @conn G) (k : @Connection G) : nat :=
  match k with seqConn _ _ => Nat.min (sb_len c) (length (nodes s)) | _ => length (nodes s) end.

(** No more rounds are left than the balancer has retries, and no shuffle is longer than
    its nodes. *)
Definition within (s : @Service nat) (k : @Connection G) : Prop :=
  match k with
  | seqConn _ retries => retries <= Retries s
  | rcycleConn _ rc retries _ _ => (length rc <= length (nodes s))%nat /\ retries <= Retries s
  end.

Definition sb_ok p c (b : nat) : Prop :=
  sb c = Some b /\ exists s k, sbs p !! b = Some s /\ sbconn c = Some k /\ conn_ok (width s c k) k /\ within s k.

(** The nodes that are still to come. *)
Definition left_ p c : nat := pred (turns c p).

Lemma turns_eq p c b s k :
  sb c = Some b -> sbs p !! b = Some s -> sbconn c = Some k -> turns c p = S (length (remaining (width s c k) k)).
Proof. intros Hb Hs Hk. unfold turns. rewrite Hb, Hk. simpl. rewrite Hs. by destruct k. Qed.

Lemma length_same s s' : same_nodes (D := nat) s s' -> length (nodes s') = length (nodes s).
Proof. apply same_len. Qed.

Lemma width_same s s' c c' k : same_nodes s s' -> sb_len c' = sb_len c -> width s' c' k = width s c k.
Proof. intros H E. unfold width. rewrite (length_same _ _ H), E. done. Qed.

Lemma within_same s s' k : same_nodes s s' -> within s k -> within s' k.
Proof. intros Hs. destruct k; simpl; rewrite ?(length_same _ _ Hs); destruct Hs as (_ & _ & ->); done. Qed.

Lemma sb_ok_moves p p' c c' b :
  moves p p' -> same_user c c' -> sbconn c' = sbconn c -> sb_ok p c b -> sb_ok p' c' b /\ turns c' p' = turns c p.
Proof.
  intros Hm Hu Ek (Hb & s & k & Hs & Hk & Hok & Hw). destruct (mv_sbs _ _ Hm _ _ Hs) as (s' & Hs' & Hsame).
  assert (sb_len c' = sb_len c) as El by apply Hu. assert (sb c' = Some b) as Eb by (rewrite <- Hb; apply Hu).
  split; [split; [done|]; exists s', k; rewrite (width_same s s' c c' k) by done; split; [done|split; [congruence|split; [done|by apply (within_same s)]]]|].
  rewrite (turns_eq p' c' b s' k), (turns_eq p c b s k) by congruence. by rewrite (width_same s s' c c' k).
Qed.

(** The nodes of a balancer, once and once for every retry, and the node picked first. *)
Definition rounds_of (s : @Service nat) : nat := S (S (Z.to_nat (Retries s)) * length (nodes s)).

Lemma replicated_length {A} (l : list A) k : length (concat (replicate k l)) = (k * length l)%nat.
Proof. induction k as [|k IH]; [done|]. simpl. by rewrite length_app, IH. Qed.

Lemma rounds_length n : forall k (rng : G), length (concat (rounds k n rng)) = (k * n)%nat.
Proof.
  induction k as [|k IH]; intros rng; [done|]. cbn [rounds concat]. rewrite length_app, IH, (Perm_law n rng), length_seq. done.
Qed.

Lemma within_turns p c b s : sb_ok p c b -> sbs p !! b = Some s -> (turns c p <= S (rounds_of s))%nat.
Proof.
  intros (Hb & s0 & k & Hs0 & Hk & _ & Hw) Hs. rewrite Hs in Hs0. injection Hs0 as <-. rewrite (turns_eq p c b s k Hb Hs Hk).
  apply le_n_S. unfold rounds_of. destruct k as [idx retries|rng rc retries last first]; cbn [remaining within width] in *.
  - rewrite length_app, length_drop, length_seq, replicated_length, length_seq.
    assert (Z.to_nat retries <= Z.to_nat (Retries s))%nat by lia. nia.
  - destruct Hw as [Hrc Hr]. rewrite !length_app, rounds_length.
    assert (forall b : bool, (length (if b then [Z.to_nat first] else []) <= 1)%nat) as Hb1 by (intros []; simpl; lia).
    specialize (Hb1 (negb (first =? -1) && (first <? Z.of_nat (length (nodes s))))).
    assert (Z.to_nat retries <= Z.to_nat (Retries s))%nat by lia. nia.
Qed.

Definition is_seq (k : @Connection G) : bool := match k with seqConn _ _ => true | _ => false end.

Lemma seq_loop_kind fuel (s : @Service nat) idx retries r (k : @Connection G) :
  seq_loop fuel s idx retries = Some (r, k) -> is_seq k = true.
Proof.
  revert idx retries. induction fuel as [|fuel IH]; intros idx retries; cbn [seq_loop];
    repeat case_match; intros Heq; simplify_eq; try done; try by eapply IH.
  all: destruct (nodes s !! _); simpl in Heq; by simplify_eq.
Qed.

Lemma rc_loop_kind fuel (s : @Service nat) (rng : G) rc retries r k :
  rc_loop fuel s rng rc retries = Some (r, k) -> is_seq k = false.
Proof.
  revert rng rc retries. induction fuel as [|fuel IH]; intros rng rc retries; cbn [rc_loop];
    repeat case_match; intros Heq; simplify_eq; try done; try by eapply IH.
  all: destruct (nodes s !! _); simpl in Heq; by simplify_eq.
Qed.

Lemma Next_kind (s : @Service nat) (k : @Connection G) st r k' s' :
  Next s k st = Some (r, k', s') -> is_seq k' = is_seq k.
Proof.
  destruct k as [idx retries|rng rc retries last first]; cbn [Next is_seq].
  - destruct (seq_loop _ _ _ _) as [[r1 k1]|] eqn:E; simpl; intros H; simplify_eq. by eapply seq_loop_kind.
  - destruct (match st with Start => _ | _ => _ end) as [s1|]; [|done]. cbn [mbind option_bind].
    case_match; [destruct (nodes s1 !! _); simpl; intros; by simplify_eq|].
    destruct (rc_loop _ _ _ _ _) as [[r1 k1]|] eqn:E; simpl; intros ?; simplify_eq. by eapply rc_loop_kind.
Qed.

Lemma seq_loop_within fuel (t s : @Service nat) idx retries r (k : @Connection G) :
  seq_loop fuel t idx retries = Some (r, k) -> retries <= Retries s -> within s k.
Proof.
  revert idx retries. induction fuel as [|fuel IH]; intros idx retries; cbn [seq_loop];
    repeat case_match; intros Heq Hr; simplify_eq; try done; try (by eapply IH; [exact Heq|lia]).
  all: destruct (nodes t !! _); simpl in Heq; by simplify_eq.
Qed.

Lemma rc_loop_within fuel (t s : @Service nat) (rng : G) rc retries r k : length (nodes t) = length (nodes s) ->
  rc_loop fuel t rng rc retries = Some (r, k) -> (length rc <= length (nodes s))%nat -> retries <= Retries s -> within s k.
Proof.
  intros El. revert rng rc retries. induction fuel as [|fuel IH]; intros rng rc retries; cbn [rc_loop].
  - destruct rc as [|i rc]; [by case_match; intros ???; simplify_eq; simpl; split; [lia|]|].
    destruct (nodes t !! _); simpl; intros Heq ??; simplify_eq. simpl in *. lia.
  - destruct rc as [|i rc]; [|destruct (nodes t !! _); simpl; intros Heq ??; simplify_eq; simpl in *; lia].
    case_match; [intros ???; simplify_eq; simpl; split; [lia|done]|]. pose proof (Perm_law (length (nodes t)) rng) as Hp.
    apply Permutation_length in Hp. rewrite length_seq in Hp. destruct (Perm _ _) as [rc rng'] eqn:Ep. intros Heq _ Hr.
    eapply IH; [exact Heq| |lia]. simpl in Hp. lia.
Qed.

Lemma Next_within (t s : @Service nat) (k : @Connection G) st r k' t' : (is_seq k = false -> length (nodes t) = length (nodes s)) ->
  Next t k st = Some (r, k', t') -> within s k -> within s k'.
Proof.
  intros El. destruct k as [idx retries|rng rc retries last first]; cbn [Next within].
  - destruct (seq_loop _ _ _ _) as [[r1 k1]|] eqn:E; simpl; intros H; simplify_eq. by eapply seq_loop_within.
  - specialize (El eq_refl). assert (forall h t1, set_effcost last h t = Some t1 -> length (nodes t1) = length (nodes t)) as Hset.
    { intros h t1. unfold set_effcost. case_match; [by intros; simplify_eq|]. destruct (nodes t !! _); simpl; intros; simplify_eq.
      simpl. apply length_insert. }
    destruct (match st with Start => _ | _ => _ end) as [s1|] eqn:E1; [|done]. cbn [mbind option_bind].
    assert (length (nodes s1) = length (nodes t)) as El1 by (destruct st; [by simplify_eq|by eapply Hset..]).
    clear E1. case_match; [destruct (nodes s1 !! _); simpl; intros ? [? ?]; by simplify_eq|].
    destruct (rc_loop _ _ _ _ _) as [[r1 k1]|] eqn:E; simpl; intros ? [? ?]; simplify_eq. eapply rc_loop_within; [|exact E|done|done]. lia.
Qed.

Lemma inv_sbs p C N l : inv p C N -> inv (set_sbs l p) C N.
Proof. by apply inv_same. Qed.

Lemma moves_sbs p b s s' :
  sbs p !! b = Some s -> same_nodes s s' -> moves p (set_sbs (<[b := s']> (sbs p)) p).
Proof.
  intros Hs Hsame. split; [done|done|done|eauto|]. intros i t Ht. simpl. destruct (decide (i = b)) as [->|Hne].
  - exists s'. rewrite list_lookup_insert_eq by (by eapply lookup_lt_Some). split; [done|congruence].
  - exists t. by rewrite list_lookup_insert_ne.
Qed.

(** The next node, of the balancer's nodes. *)
Lemma sb_Next_ok p c b status s C N :
  sb_ok p c b -> sbs p !! b = Some s -> inv p C N ->
  exists r c' p', sb_Next c status p = Some (r, c', p') /\ inv p' C N /\ moves p p' /\ sb_ok p' c' b /\
    same_user c c' /\ srvnode c' = srvnode c /\ connset c' = connset c /\ portKeyIdx c' = portKeyIdx c /\
    match r with
    | Some n => n ∈ Nodes s /\ turns c p = S (turns c' p')
    | None => (turns c' p' <= turns c p)%nat
    end.
Proof.
  intros (Hb & s0 & k & Hs0 & Hk & Hok & Hw) Hs Hi. rewrite Hs in Hs0. injection Hs0 as <-.
  unfold sb_Next. rewrite Hb, Hk. cbn [mbind option_bind]. rewrite Hs. cbn [mbind option_bind]. rewrite (turns_eq p c b s k Hb Hs Hk).
  set (t := if is_seq k then SbalanceGo.set_nodes (take (sb_len c) (nodes s)) s else s).
  assert (length (nodes t) = width s c k) as El by (subst t; destruct k; simpl; [apply length_take|done]).
  destruct (Next_spec t k status) as (r & k' & s1 & HN & Hsame & Hr & Hrem & Hok'); [by rewrite El|].
  pose proof (Next_kind _ _ _ _ _ _ HN) as Hkind.
  set (c' := set_sb (Some b) (Some k') (sb_len c) c).
  set (p' := if is_seq k then p else set_sbs (<[b := s1]> (sbs p)) p).
  assert (moves p p') as Hm.
  { subst p' t. destruct (is_seq k); [done|by apply moves_sbs with s]. }
  assert (exists s2, sbs p' !! b = Some s2 /\ length (nodes s2) = length (nodes s) /\ within s2 k') as (s2 & Hs2 & Hl2 & Hw2).
  { destruct (mv_sbs _ _ Hm _ _ Hs) as (s2 & Hs2 & E). exists s2. split; [done|]. split; [by apply length_same|].
    apply (within_same s); [done|]. eapply Next_within; [|exact HN|exact Hw]. intros E0. subst t. by rewrite E0. }
  assert (width s2 c' k' = width s c k) as Ew.
  { unfold width. rewrite Hl2. unfold c'. simpl. destruct k, k'; done. }
  exists r, c', p'. split; [|split; [|split; [done|split; [|split; [|split; [done|split; [done|split; [done|]]]]]]]].
  - subst t p'. destruct k; simpl in *; rewrite HN; simpl; by rewrite ?Hb.
  - subst p'. destruct (is_seq k); [done|by apply inv_sbs].
  - split; [done|]. exists s2, k'. rewrite Ew, <- El. split; [done|]. split; [done|]. by split.
  - repeat split. by rewrite Hb.
  - rewrite (turns_eq p' c' b s2 k'), Ew by done. rewrite El in Hr, Hrem.
    rewrite Hrem. destruct r as [n|]; [|destruct (remaining _ _); simpl; lia]. destruct (remaining (width s c k) k) as [|i l]; [done|]. simpl in *. split; [|lia].
    assert (n ∈ Nodes t) as Hn by (by eapply list_elem_of_lookup_2).
    subst t. destruct (is_seq k); [|done]. unfold Nodes in *. simpl in Hn. rewrite <- firstn_map in Hn.
    by apply subseteq_take in Hn.
Qed.
(** ** Ports and nodes *)

Lemma map_get_in m k id : map_get m k = Some id -> id ∈ map snd m.
Proof.
  induction m as [|[k' v] m IH]; [done|]. simpl. case_bool_decide; intros ?; [simplify_eq; left|right; by apply IH].
Qed.

Lemma node_cset_id p C N n nd id :
  inv p C N -> n ∈ N -> fnodes p !! n = Some nd -> id ∈ map snd (fn_connSet nd) -> (id < length (csets p))%nat.
Proof.
  intros Hi Hn Hnd Hid. apply (iv_cids _ _ _ Hi), elem_of_app. right.
  pose proof (iv_nd _ _ _ Hi _ _ Hnd) as Er. pose proof (cntz_in _ _ Hn).
  apply list_elem_of_In, in_concat. exists (map snd (fn_connSet nd)). split; [|by apply list_elem_of_In].
  apply in_map_iff. exists nd. split; [destruct nd; by apply node_csets_pos; simpl in *; lia|].
  apply list_elem_of_In. by eapply list_elem_of_lookup_2.
Qed.

Lemma port_loop_ok keys : forall idx c p C N n,
  inv p C N -> srvnode c = Some n -> n ∈ N ->
  exists c' p', port_loop keys idx c p = Some (c', p') /\ inv p' (option_list (connset c') ++ C) N /\ keeps p p' /\
    same_user c c' /\ sbconn c' = sbconn c /\ srvnode c' = srvnode c /\ idx <= portKeyIdx c' /\
    (is_Some (connset c') -> portKeyIdx c' < idx + Z.of_nat (length keys)).
Proof.
  induction keys as [|pk keys IH]; intros idx c p C N n Hi Hn Hin; cbn [port_loop].
  { eexists _, p. split; [done|]. split; [done|]. split; [done|]. do 3 (split; [done|]). split; [simpl; lia|by intros []]. }
  rewrite Hn. cbn [mbind option_bind].
  destruct (lookup_lt_is_Some_2 (fnodes p) n (iv_nids _ _ _ Hi _ Hin)) as [nd Hnd]. rewrite Hnd. cbn [mbind option_bind].
  destruct (map_get (fn_connSet nd) pk) as [id|] eqn:Eg.
  2: { rewrite <- Hn. destruct (IH (idx + 1) c p C N n Hi Hn Hin) as (c' & p' & E & H1 & H2 & H3 & H4 & H5 & H6 & H7).
       exists c', p'. do 6 (split; [done|]). split; [lia|]. intros Hc. specialize (H7 Hc). simpl. lia. }
  destruct (retain_ok p C N id Hi) as (p' & -> & Hi' & Hk).
  { eapply node_cset_id; [done|exact Hin|done|]. by eapply map_get_in. }
  cbn [mbind option_bind]. eexists _, p'. split; [done|]. split; [done|]. split; [done|]. do 3 (split; [done|]). simpl. lia.
Qed.

Lemma movePort_ok c p C N n :
  inv p (option_list (connset c) ++ C) N -> srvnode c = Some n -> n ∈ N -> -1 <= portKeyIdx c ->
  exists c' p', movePort c p = Some (c', p') /\ inv p' (option_list (connset c') ++ C) N /\ keeps p p' /\
    same_user c c' /\ sbconn c' = sbconn c /\ srvnode c' = srvnode c /\ portKeyIdx c < portKeyIdx c' /\
    (is_Some (connset c') -> portKeyIdx c' < Z.of_nat (length (portKey c))).
Proof.
  intros Hi Hn Hin Hidx. unfold movePort. destruct (release_opt_ok p C N (connset c) Hi) as (p1 & -> & Hi1 & Hk1).
  cbn [mbind option_bind].
  destruct (port_loop_ok (drop (Z.to_nat (portKeyIdx c + 1)) (portKey c)) (portKeyIdx c + 1) (set_connset None c) p1 C N n)
    as (c' & p' & -> & Hi' & Hk' & Hu & Es & En & Hlo & Hb); [done|done|done|].
  exists c', p'. split; [done|]. split; [done|]. split; [by transitivity p1|]. do 3 (split; [done|]). split; [lia|].
  intros Hc. specialize (Hb Hc). rewrite length_drop in Hb. lia.
Qed.

(** The result of looking for another node: a set with its node, or neither. *)
Definition moved (c c' : @conn G) p p' C N : Prop :=
  inv p' (option_list (connset c') ++ C) (option_list (srvnode c') ++ N) /\ moves p p' /\ same_user c c' /\
  (is_Some (connset c') <-> is_Some (srvnode c')) /\
  (-1 <= portKeyIdx c -> -1 <= portKeyIdx c') /\
  (is_Some (connset c') -> 0 <= portKeyIdx c' < Z.of_nat (length (portKey c))).

Lemma node_loop_ok fuel : forall c status p C N b s,
  inv p C (option_list (srvnode c) ++ N) -> connset c = None -> sb_ok p c b -> sbs p !! b = Some s ->
  (forall n, n ∈ Nodes s -> n ∈ N) -> (turns c p <= fuel)%nat ->
  exists c' p', node_loop fuel c status p = Some (c', p') /\ moved c c' p p' C N /\ sb_ok p' c' b /\
    (is_Some (connset c') -> (turns c' p' < turns c p)%nat) /\ (turns c' p' <= turns c p)%nat.
Proof.
  induction fuel as [|fuel IH]; intros c status p C N b s Hi Hcs Hsb Hs Hheld Hf.
  { destruct Hsb as (Hb & s0 & k & Hs0 & Hk & _). rewrite (turns_eq _ _ _ _ _ Hb Hs0 Hk) in Hf. lia. }
  cbn [node_loop]. destruct (node_release_opt_ok p C N (srvnode c) Hi) as (p1 & -> & Hi1 & Hk1).
  cbn [mbind option_bind]. pose proof (keeps_moves _ _ Hk1) as Hm1.
  destruct (sb_ok_moves p p1 c c b Hm1) as [Hsb1 Ht1]; [done|done|done|].
  destruct (mv_sbs _ _ Hm1 _ _ Hs) as (s1 & Hs1 & Es1).
  destruct (sb_Next_ok p1 c b status s1 C N Hsb1 Hs1 Hi1) as (r & c2 & p2 & -> & Hi2 & Hm2 & Hsb2 & Hu2 & En2 & Ec2 & Ep2 & Hr).
  cbn [mbind option_bind]. assert (moves p p2) as Hm12 by (by transitivity p1).
  destruct r as [n|].
  - destruct Hr as [Hn Ht2].
    assert (n ∈ N) as HnN by (apply Hheld; destruct Es1 as (<- & _); done).
    destruct (node_retain_ok p2 C N n Hi2 HnN) as (p3 & -> & Hi3 & Hk3). cbn [mbind option_bind].
    destruct (movePort_ok (set_port (-1) None (set_srvnode (Some n) c2)) p3 C (n :: N) n) as (c4 & p4 & -> & Hi4 & Hk4 & Hu4 & Es4 & En4 & Hlo4 & Hx4);
      [done|done|left|done|]. cbn [mbind option_bind].
    assert (moves p2 p4) as Hm24 by (transitivity p3; by apply keeps_moves).
    assert (same_user c2 c4) as Hu24 by exact Hu4.
    destruct (sb_ok_moves p2 p4 c2 c4 b Hm24 Hu24) as [Hsb4 Ht4]; [done|done|].
    assert (moves p p4) as Hm by (by transitivity p2). assert (same_user c c4) as Hu by (by transitivity c2).
    destruct (connset c4) as [id|] eqn:Ec4.
    + exists c4, p4. split; [done|]. split; [|split; [done|split; [intros _; lia|lia]]]. unfold moved. rewrite Ec4, En4. simpl.
      split; [done|]. split; [done|]. split; [done|]. split; [split; intros _; by eexists|].
      simpl in Hlo4. split; [lia|]. intros _. specialize (Hx4 ltac:(by eexists)). destruct Hu24 as (Ek & _), Hu2 as (Ek2 & _). simpl in Hx4.
      rewrite Ek2 in Hx4. lia.
    + destruct (mv_sbs _ _ Hm _ _ Hs) as (s4 & Hs4 & Es).
      destruct (IH c4 status p4 C N b s4) as (c' & p' & -> & (Hi' & Hm' & Hu' & Hiff & Hlo' & Hx') & Hsb' & Hlt' & Ht').
      * by rewrite En4.
      * done.
      * done.
      * done.
      * destruct Es as (-> & _). done.
      * lia.
      * exists c', p'. split; [done|]. split; [|split; [done|split; [intros Hc; specialize (Hlt' Hc); lia|lia]]].
        split; [done|]. split; [by transitivity p4|]. split; [by transitivity c4|]. split; [done|].
        simpl in Hlo4. split; [intros _; apply Hlo'; lia|]. destruct Hu as (<- & _). done.
  - exists (set_srvnode None c2), p2. split; [done|]. split; [|split].
    + split; [simpl; by rewrite Ec2, Hcs|]. split; [done|]. split; [done|]. simpl. rewrite Ec2, Hcs. split; [split; by intros []|]. split; [lia|by intros []].
    + done.
    + simpl. rewrite Ec2, Hcs. split; [by intros []|]. change (turns (set_srvnode None c2) p2) with (turns c2 p2). lia.
Qed.

Lemma moveNode_ok c status p C N b s :
  inv p (option_list (connset c) ++ C) (option_list (srvnode c) ++ N) -> sb_ok p c b -> sbs p !! b = Some s ->
  (forall n, n ∈ Nodes s -> n ∈ N) ->
  exists c' p', moveNode c status p = Some (c', p') /\ moved c c' p p' C N /\ sb_ok p' c' b /\
    (is_Some (connset c') -> (turns c' p' < turns c p)%nat).
Proof.
  intros Hi Hsb Hs Hheld. unfold moveNode.
  destruct (release_opt_ok p C _ (connset c) Hi) as (p1 & -> & Hi1 & Hk1). cbn [mbind option_bind].
  pose proof (keeps_moves _ _ Hk1) as Hm1.
  destruct (sb_ok_moves p p1 c (set_connset None c) b Hm1) as [Hsb1 Ht1]; [done|done|done|].
  destruct (mv_sbs _ _ Hm1 _ _ Hs) as (s1 & Hs1 & Es1).
  destruct (node_loop_ok (turns c p1) (set_connset None c) status p1 C N b s1) as (c' & p' & -> & Hmv & Hsb' & Hlt & _).
  - done.
  - done.
  - done.
  - done.
  - destruct Es1 as (-> & _). done.
  - done.
  - exists c', p'. split; [done|]. split; [|split; [done|by rewrite <- Ht1]].
    destruct Hmv as (H1 & H2 & H3 & H4). split; [done|]. split; [by transitivity p1|]. done.
Qed.

Lemma NewConn_ok (s : @Service nat) seed random : conn_ok (length (nodes s)) (NewConn s seed random) /\ within s (NewConn s seed random).
Proof.
  assert (forall bs, within s (rcycleInit s bs)) as Hw.
  { intros bs. unfold rcycleInit. destruct (first_loop _ _ _ _ _). simpl. split; [lia|done]. }
  assert (forall bs, conn_ok (length (nodes s)) (rcycleInit s bs)) as H.
  { intros bs. unfold rcycleInit.
    pose proof (first_loop_range (F := F) (nodes s) 0 f0 (NewSource (swrap 64 (fnv64a bs))) 0 ltac:(lia) ltac:(lia)) as [Hf _].
    destruct (first_loop _ _ _ _ _) as [first rng]. cbn [fst] in Hf. split; [constructor|]. lia. }
  unfold NewConn. destruct (Strat s); [simpl; lia|by split|destruct seed; by split].
Qed.

(** What is kept of a connection while it looks for a set. *)
Definition same_owner c c' : Prop :=
  portKey c' = portKey c /\ service c' = service c /\ closed c' = closed c /\ Conn c' = Conn c.

Lemma same_user_owner c c' : same_user c c' -> same_owner c c'.
Proof. intros (?&?&?&?&?&?&?&?). by repeat split. Qed.

(** A connection with its references, in a pool with the references of the others. *)
Record conn_inv p c C N : Prop := {
  ci_inv : inv p (option_list (connset c) ++ C) (option_list (srvnode c) ++ N);
  ci_node : is_Some (connset c) <-> is_Some (srvnode c);
  ci_idx : -1 <= portKeyIdx c;
  ci_pos : is_Some (connset c) -> 0 <= portKeyIdx c < Z.of_nat (length (portKey c));
  ci_sb b : sb c = Some b -> sb_ok p c b
}.

(** The sets that a connection has before it with its current balancer: for the keys
    that are left on its node and for all keys on the nodes to come. *)
Definition measure p c : nat :=
  left_ p c * length (portKey c) + (length (portKey c) - S (Z.to_nat (portKeyIdx c))).

Lemma measure_lt p p' c c' i j k : (0 < turns c' p' < turns c p)%nat -> (S i <= k)%nat ->
  (left_ p' c' * k + (k - S i) < left_ p c * k + j)%nat.
Proof. intros Ht Hi. unfold left_. assert (S (pred (turns c' p')) <= pred (turns c p))%nat as Hl by lia. nia. Qed.

(** No more sets than the rounds of the balancer have nodes, and one, for every key. *)
Lemma measure_bound p c C N b s : conn_inv p c C N -> is_Some (connset c) -> sb c = Some b -> sbs p !! b = Some s ->
  (S (measure p c) <= S (rounds_of s) * length (portKey c))%nat.
Proof.
  intros Hci Hc Hb Hs. pose proof (ci_pos _ _ _ _ Hci Hc) as Hx. pose proof (within_turns p c b s (ci_sb _ _ _ _ Hci b Hb) Hs) as Ht.
  unfold measure, left_. assert (pred (turns c p) <= rounds_of s)%nat as Hl by lia. nia.
Qed.

Lemma findConnset_ok p c C N status random srv s :
  conn_inv p c C N -> services p !! service c = Some srv -> sbs p !! srv_sb srv = Some s ->
  (forall n, n ∈ Nodes s -> n ∈ N) ->
  exists st' c' p', findConnset c status random p = Some (st', c', p') /\ conn_inv p' c' C N /\ moves p p' /\
    same_owner c c' /\ sb c' = Some (srv_sb srv) /\
    (sb c = Some (srv_sb srv) -> newConnect c = true -> is_Some (connset c') -> (measure p' c' < measure p c)%nat /\ newConnect c' = true).
Proof.
  intros [Hi Hn Hx Hx0 Hsb] Hsrv Hs Hheld. unfold findConnset. rewrite Hsrv. cbn [mbind option_bind].
  set (b := srv_sb srv) in *.
  assert (forall c1 p1 status,
    inv p1 (option_list (connset c1) ++ C) (option_list (srvnode c1) ++ N) -> sb_ok p1 c1 b -> moves p p1 -> -1 <= portKeyIdx c1 ->
    exists c' p', moveNode c1 status p1 = Some (c', p') /\ conn_inv p' c' C N /\ moves p p' /\ same_user c1 c' /\
      (is_Some (connset c') -> (0 < turns c' p' < turns c1 p1)%nat /\ 0 <= portKeyIdx c' < Z.of_nat (length (portKey c1)))) as Hmove.
  { intros c1 p1 st Hi1 Hsb1 Hm1 Hx1. destruct (mv_sbs _ _ Hm1 _ _ Hs) as (s1 & Hs1 & Es1).
    destruct (moveNode_ok c1 st p1 C N b s1) as (c' & p' & E & (H1 & H2 & H3 & H4 & H5 & H6) & Hsb' & Hlt); [done|done|done| |].
    { destruct Es1 as (-> & _). done. }
    exists c', p'. split; [done|]. assert (0 < turns c' p')%nat by (destruct Hsb' as (Eb' & s' & k' & Es' & Ek' & _); rewrite (turns_eq p' c' b s' k') by done; lia).
    split; [|split; [by transitivity p1|split; [done|auto]]].
    split; [done|done|auto|intros Hc; specialize (H6 Hc); destruct H3 as [-> _]; lia|]. intros b' Hb'. destruct Hsb' as [Eb ?]. assert (b' = b) as -> by congruence. done. }
  case_bool_decide as Eb; cbn [mbind option_bind].
  - destruct (connset c) as [id|] eqn:Ec.
    + destruct (newConnect c) eqn:Enew.
      * destruct (proj1 Hn) as [n En]; [by eexists|].
        destruct (movePort_ok c p C (option_list (srvnode c) ++ N) n) as (c1 & p1 & -> & Hi1 & Hk1 & Hu1 & Es1 & En1 & Hlo & Hx1);
          [by rewrite Ec|done|rewrite En; left|done|]. cbn [mbind option_bind]. pose proof (keeps_moves _ _ Hk1) as Hm1.
        destruct (sb_ok_moves p p1 c c1 b Hm1 Hu1 Es1 (Hsb _ Eb)) as [Hsb1 Ht1]. rewrite <- En1 in Hi1.
        assert (portKey c1 = portKey c /\ newConnect c1 = newConnect c) as [Ek1 Ew1] by (split; apply Hu1).
        destruct (connset c1) as [id1|] eqn:Ec1.
        -- eexists _, c1, p1. split; [done|]. split; [|split; [done|split; [by apply same_user_owner|split; [by rewrite <- Eb; apply Hu1|]]]].
           ++ split; [by rewrite Ec1|rewrite En1, En, Ec1; split; intros _; by eexists|lia|specialize (Hx1 ltac:(by eexists)); rewrite Ek1; lia|].
              intros b' Hb'. destruct Hsb1 as [Eb1 ?]. assert (b' = b) as -> by congruence. done.
           ++ intros _ _ _. split; [|congruence]. unfold measure, left_. rewrite Ek1, Ht1.
              specialize (Hx1 ltac:(by eexists)). specialize (Hx0 ltac:(by eexists)). lia.
        -- rewrite <- Ec1 in Hi1. destruct (Hmove c1 p1 status) as (c' & p' & -> & Hci & Hm' & Hu' & Hlt); [done|done|done|lia|].
           cbn [mbind option_bind]. eexists _, c', p'. split; [done|]. split; [done|]. split; [done|].
           split; [apply same_user_owner; by transitivity c1|]. split; [rewrite <- Eb; transitivity (sb c1); [apply Hu'|apply Hu1]|].
           intros _ _ Hs'. destruct (Hlt Hs') as [Hlt1 Hlt2]. split; [|rewrite <- Enew, <- Ew1; apply Hu'].
           unfold measure. assert (portKey c' = portKey c1) as -> by apply Hu'. rewrite Ek1 in *. rewrite Ht1 in Hlt1. apply measure_lt; lia.
      * eexists _, c, p. split; [done|]. split; [split; [by rewrite Ec|by rewrite Ec|done|by rewrite Ec|done]|]. split; [done|].
        split; [by repeat split|]. done.
    + destruct (Hmove c p status) as (c' & p' & -> & Hci & Hm' & Hu' & Hlt); [by rewrite Ec|by apply Hsb|done|done|].
      cbn [mbind option_bind]. eexists _, c', p'. split; [done|]. split; [done|]. split; [done|].
      split; [by apply same_user_owner|]. split; [rewrite <- Eb; apply Hu'|].
      intros _ Enew Hs'. destruct (Hlt Hs') as [Hlt1 Hlt2]. split; [|rewrite <- Enew; apply Hu'].
      unfold measure. assert (portKey c' = portKey c) as -> by apply Hu'. apply measure_lt; lia.
  - rewrite Hs. cbn [mbind option_bind].
    set (c0 := set_new false (set_sb (Some b) (Some (NewConn s (sbseed c) random)) (length (nodes s)) c)).
    change (connset c0) with (connset c).
    destruct (release_opt_ok p C _ (connset c) Hi) as (p1 & -> & Hi1 & Hk1). cbn [mbind option_bind].
    pose proof (keeps_moves _ _ Hk1) as Hm1. destruct (mv_sbs _ _ Hm1 _ _ Hs) as (s1 & Hs1 & Es1).
    assert (sb_ok p1 (set_connset None c0) b) as Hsb1.
    { split; [done|]. exists s1, (NewConn s (sbseed c) random). split; [done|]. split; [done|].
      unfold width. simpl. rewrite (length_same _ _ Es1), Nat.min_id. destruct (NewConn_ok s (sbseed c) random) as [Hok Hw].
      split; [by destruct (NewConn s (sbseed c) random)|by apply (within_same s)]. }
    destruct (Hmove (set_connset None c0) p1 Start) as (c' & p' & -> & Hci & Hm' & Hu' & Hlt); [done|done|done|done|].
    cbn [mbind option_bind]. eexists _, c', p'. split; [done|]. split; [done|]. split; [done|].
    split; [destruct Hu' as (?&?&?&?&?&?&?&?); by repeat split|]. split; [apply Hu'|]. done.
Qed.

(** ** Stored connections *)

(** The connections of a set with a user may change. *)
Lemma inv_conns p id cs l C N :
  inv p C N -> id ∈ C -> csets p !! id = Some cs -> inv (put_cset id (mk_cset (cs_port cs) l (cs_refs cs)) p) C N.
Proof.
  intros Hi Hid Hcs. apply (inv_put_cset _ C _ _ cs); [done|done|done| |auto|].
  - intros x. simpl. case_decide; lia.
  - simpl. destruct (iv_cs _ _ _ Hi _ _ Hcs) as [E _]. rewrite cntz_app in E. pose proof (cntz_in _ _ Hid).
    pose proof (cntz_nonneg id (node_bag p)). lia.
Qed.

Lemma inv_close p C N l : inv p C N -> inv (close_fds l p) C N.
Proof. by apply inv_same. Qed.

(** The pool up to connections: for the other users nothing else changes. *)
Definition same_pool p p' : Prop :=
  services p' = services p /\ sbs p' = sbs p /\ length (csets p') = length (csets p) /\ fnodes p' = fnodes p.

Lemma take_loop_split dead l :
  match take_loop dead l with
  | (gone, Some (fd, rest)) => l = gone ++ fd :: rest /\ dead fd = false
  | (gone, None) => l = gone
  end.
Proof.
  induction l as [|fd l IH]; [done|]. simpl. destruct (dead fd) eqn:E; [|done].
  destruct (take_loop dead l) as [gone [[fd' rest]|]]; [destruct IH as [-> ?]; done|by subst].
Qed.

Lemma take_stored (q l gone : list nat) fd rest cl :
  q ++ gone ++ fd :: rest ≡ₚ l ++ rest -> fd :: q ++ cl ++ gone ≡ₚ l ++ cl.
Proof.
  intros H. assert (q ++ gone ++ [fd] ≡ₚ l) as <-.
  { apply (Permutation_app_inv_r rest). by rewrite <- H, <- !app_assoc. }
  rewrite <- !app_assoc. simpl. rewrite <- !Permutation_middle. apply Permutation_skip, Permutation_app_head, Permutation_app_comm.
Qed.

Lemma get_take_ok p c C N failed dead :
  conn_inv p c C N -> is_Some (connset c) ->
  exists r pl c' p', get_take c failed dead p = Some (r, pl, c', p') /\ conn_inv p' c' C N /\ same_pool p p' /\
    same_user (set_conn (Conn c') (closed c) (set_new (newConnect c') c)) c' /\ portKeyIdx c' = portKeyIdx c /\
    sbconn c' = sbconn c /\ connset c' = connset c /\ next_fd p' = next_fd p /\
    match r with
    | Some a => a = Connected /\ pl = User /\ exists fd, Conn c' = Some fd /\
        fd :: stored p' ++ closed_fds p' ≡ₚ stored p ++ closed_fds p
    | None => pl = Dialling failed /\ newConnect c' = true /\ Conn c' = Conn c /\ stored p' ++ closed_fds p' ≡ₚ stored p ++ closed_fds p
    end.
Proof.
  intros Hci [id Hid]. pose proof (ci_inv _ _ _ _ Hci) as Hi. unfold get_take. rewrite Hid in *. cbn [mbind option_bind option_list app] in *.
  destruct (lookup_lt_is_Some_2 (csets p) id) as [cs Hcs].
  { apply (iv_cids _ _ _ Hi). left. }
  rewrite Hcs. cbn [mbind option_bind]. pose proof (take_loop_split dead (cs_conns cs)) as Ht.
  assert (forall l gone, conn_inv (close_fds gone (put_cset id (mk_cset (cs_port cs) l (cs_refs cs)) p)) c C N) as Hci'.
  { intros l gone. destruct Hci as [_ H1 H2 H3 H4]. split; [rewrite Hid|done|done|done|done].
    apply inv_close, inv_conns; [done|left|done]. }
  assert (forall l gone, same_pool p (close_fds gone (put_cset id (mk_cset (cs_port cs) l (cs_refs cs)) p))) as Hsp.
  { intros l gone. repeat split. simpl. by rewrite length_insert. }
  pose proof (fun l => stored_put_cset p id cs (mk_cset (cs_port cs) l (cs_refs cs)) Hcs) as Hst. simpl in Hst.
  destruct (take_loop dead (cs_conns cs)) as [gone [[fd rest]|]].
  - destruct Ht as [E _]. eexists _, _, _, _. split; [done|].
    split; [destruct (Hci' rest gone) as [H0 H1 H2 H3 H4]; by split|]. split; [apply Hsp|].
    do 5 (split; [done|]). split; [done|]. split; [done|]. exists fd. split; [done|]. simpl.
    specialize (Hst rest). rewrite E in Hst.
    apply (take_stored _ _ gone fd rest _ Hst).
  - subst gone. eexists _, _, _, _. split; [done|].
    split; [destruct (Hci' [] (cs_conns cs)) as [H0 H1 H2 H3 H4]; by split|]. split; [apply Hsp|].
    do 5 (split; [done|]). do 3 (split; [done|]). simpl. specialize (Hst []). rewrite app_nil_r in Hst.
    rewrite <- Hst, <- app_assoc. apply Permutation_app_head, Permutation_app_comm.
Qed.

(** ** Giving a connection back *)

(** A connection that was given back has no references. *)
Definition given_back c c' : Prop :=
  closed c' = true /\ srvnode c' = None /\ Conn c' = None /\ service c' = service c /\ portKey c' = portKey c /\
  sb c' = sb c /\ sbconn c' = sbconn c /\ sb_len c' = sb_len c /\ portKeyIdx c' = portKeyIdx c.

Lemma conn_Close_ok p c C N :
  conn_inv p c C N -> closed c = false ->
  exists c' p1, conn_Close c p = Some (c', close_fds (option_list (Conn c)) p1) /\ inv p1 C N /\ moves p p1 /\
    given_back c c' /\ connset c' = None.
Proof.
  intros Hci Hcl. unfold conn_Close. rewrite Hcl. pose proof (ci_inv _ _ _ _ Hci) as Hi.
  destruct (release_opt_ok _ _ _ _ Hi) as (p1 & -> & Hi1 & Hk1). cbn [mbind option_bind].
  destruct (node_release_opt_ok _ _ _ _ Hi1) as (p2 & -> & Hi2 & Hk2). cbn [mbind option_bind].
  eexists _, p2. split; [destruct (Conn c); [done|]; f_equal; f_equal; destruct p2; unfold close_fds; simpl; by rewrite app_nil_r|].
  split; [done|]. split; [transitivity p1; by apply keeps_moves|]. by repeat split.
Qed.

Lemma conn_Put_ok p c C N fd :
  conn_inv p c C N -> closed c = false -> is_Some (connset c) -> Conn c = Some fd ->
  exists p0 c' p', conn_Put c p = Some (c', p') /\ same_pool p p0 /\ stored p0 ≡ₚ fd :: stored p /\
    closed_fds p0 = closed_fds p /\ next_fd p0 = next_fd p /\ moves p0 p' /\ inv p' C N /\ given_back c c'.
Proof.
  intros Hci Hcl [id Hid] Hfd. unfold conn_Put. rewrite Hcl. pose proof (ci_inv _ _ _ _ Hci) as Hi. rewrite Hid in *.
  cbn [mbind option_bind option_list app] in *. destruct (lookup_lt_is_Some_2 (csets p) id) as [cs Hcs].
  { apply (iv_cids _ _ _ Hi). left. }
  rewrite Hcs. cbn [mbind option_bind]. rewrite Hfd. cbn [mbind option_bind].
  set (p0 := put_cset id _ p). assert (inv p0 (id :: C) (option_list (srvnode c) ++ N)) as Hi0 by (apply inv_conns; [done|left|done]).
  destruct (release_ok _ _ _ _ Hi0) as (p1 & -> & Hi1 & Hk1). cbn [mbind option_bind].
  destruct (node_release_opt_ok _ _ _ _ Hi1) as (p2 & -> & Hi2 & Hk2). cbn [mbind option_bind].
  exists p0. eexists _, p2. split; [done|]. split; [repeat split; simpl; by rewrite length_insert|]. split.
  { pose proof (stored_put_cset p id cs (mk_cset (cs_port cs) (cs_conns cs ++ [fd]) (cs_refs cs)) Hcs) as Hst. simpl in Hst.
    apply (Permutation_app_inv_r (cs_conns cs)). etransitivity; [exact Hst|].
    rewrite (Permutation_app_comm (cs_conns cs) [fd]). simpl. by rewrite Permutation_middle. }
  do 2 (split; [done|]). split; [transitivity p1; by apply keeps_moves|]. split; [done|]. by repeat split.
Qed.
End Conn.
