(* ===== verification/GoPoolSafe.v ===== *)
(** GoPoolSafe: users of a [GoPool] and updates of its services, interleaved.  An
    event is a step of one of them between two points where it takes a lock; the
    invariant of every state that can be reached is that the counts are right and
    that every connection is in one place only.  Adding the nodes of a configuration
    or of an update is one event, though the source takes the lock of the sets once for
    every host; the balancer the nodes go to is new or locked all that time. *)
From stdpp Require Import prelude list numbers option gmap.
From Stdlib Require Import ZArith Lia.
From S2P Require Import Prelude SbalanceGo GoPool GoPoolRefs GoPoolConn.

Local Open Scope Z_scope.

Section System.
Context {F G : Type} `{!Rng F G}.
Context (range : forall A, list A -> list A) (Hrange : forall A (l : list A), range A l ≡ₚ l).
Context (LookupHost : list Z -> option (list (list Z))).

(** * The system *)

(** An update that has its new balancer, one that releases the nodes of the old one, and
    one that ended with an error. *)
Inductive update := Prepared (name : list Z) (b : nat) | Releasing (ns : list nat) | Failed (b : nat).

Record system := mk_system { sys_pool : GoPool; users : list (@conn G * place); updates : list update }.

Inductive event :=
| EConfig (c : ServiceConfig)
| ESingle (name netw addr : list Z) (retries : Z)
| ENew (name key remoteAddr : list Z)
| ENext (i : nat) (status : ConnStatus)
| EReset (i : nat)
| EFind (i : nat) (random : list Z)
| ETake (i : nat) (dead : nat -> bool)
| EDial (i : nat) (connects : bool)
| EClose (i : nat)
| EPut (i : nat)
| EUpdate (name : list Z) (hosts : list (list Z * HostConfig))
| ESwap (j : nat)
| ERelease (j : nat).

Definition set_user (i : nat) (c : conn) (pl : place) (p : GoPool) (st : system) : system :=
  mk_system p (<[i := (c, pl)]> (users st)) (updates st).

Definition started (i : nat) (r : answer + (place * conn * GoPool)) (st : system) : system :=
  match r with inl _ => st | inr (pl, c, p) => set_user i c pl p st end.

(** The user [i] in the given place does [f]. *)
Definition exec_user (st : system) (i : nat) (f : conn -> place -> option system) : option system :=
  match users st !! i with Some (c, pl) => f c pl | None => Some st end.

Definition exec (ev : event) (st : system) : option system :=
  let p := sys_pool st in
  match ev with
  | EConfig c => '(_, p) ← AddConfig range LookupHost c p; Some (mk_system p (users st) (updates st))
  | ESingle name netw addr retries =>
    p ← AddSingle name netw addr retries p; Some (mk_system p (users st) (updates st))
  | ENew name key remoteAddr =>
    match NewConn_start name key remoteAddr p with
    | None => Some st
    | Some c => Some (mk_system p (users st ++ [(c, Finding Start false)]) (updates st))
    end
  | ENext i status =>
    exec_user st i (fun c pl => match pl with User => Some (started i (get_start c status p) st) | _ => Some st end)
  | EReset i =>
    exec_user st i (fun c pl => match pl with User => Some (started i (conn_Reset_start c p) st) | _ => Some st end)
  | EFind i random =>
    exec_user st i (fun c pl =>
      match pl with
      | Finding status failed => '(_, pl, c, p) ← get_find c status failed random p; Some (set_user i c pl p st)
      | _ => Some st
      end)
  | ETake i dead =>
    exec_user st i (fun c pl =>
      match pl with
      | Taking failed => '(_, pl, c, p) ← get_take c failed dead p; Some (set_user i c pl p st)
      | _ => Some st
      end)
  | EDial i connects =>
    exec_user st i (fun c pl =>
      match pl with
      | Dialling failed => let '(_, pl, c, p) := get_dial c connects p in Some (set_user i c pl p st)
      | _ => Some st
      end)
  | EClose i =>
    exec_user st i (fun c pl => match pl with User => '(c, p) ← conn_Close c p; Some (set_user i c User p st) | _ => Some st end)
  | EPut i =>
    exec_user st i (fun c pl => match pl with User => '(c, p) ← conn_Put c p; Some (set_user i c User p st) | _ => Some st end)
  | EUpdate name hosts =>
    match services p !! name with
    | None => Some st
    | Some srv =>
      '(b, ok, p) ← update_populate range LookupHost srv hosts p;
      s ← sbs p !! b;
      Some (mk_system p (users st)
        (updates st ++ [if negb ok then Failed b else if (0 <? Len s)%nat then Prepared name b else Releasing []]))
    end
  | ESwap j =>
    match updates st !! j with
    | Some (Prepared name b) => '(ns, p) ← update_swap name b p; Some (mk_system p (users st) (<[j := Releasing ns]> (updates st)))
    | _ => Some st
    end
  | ERelease j =>
    match updates st !! j with
    | Some (Releasing (n :: ns)) => p ← node_Release n p; Some (mk_system p (users st) (<[j := Releasing ns]> (updates st)))
    | _ => Some st
    end
  end.

Definition init : system := mk_system NewGoPool [] [].

(** * The invariant *)

Definition user_csets (u : @conn G * place) : list nat := if closed u.1 then [] else option_list (connset u.1).
Definition user_nodes (u : @conn G * place) : list nat := option_list (srvnode u.1).
Definition user_fds (u : @conn G * place) : list nat :=
  match u.2 with User => if closed u.1 then [] else option_list (Conn u.1) | _ => [] end.

Definition update_nodes (u : update) : list nat := match u with Releasing ns => ns | _ => [] end.
Definition update_sbs (u : update) : list nat := match u with Prepared _ b | Failed b => [b] | Releasing _ => [] end.

(** The balancers in use, and the nodes they hold. *)
Definition current (p : GoPool) : list nat := map (fun e => srv_sb e.2) (map_to_list (services p)).
Definition live (st : system) : list nat := current (sys_pool st) ++ concat (map update_sbs (updates st)).

Definition sb_nodes (p : GoPool) (b : nat) : list nat := match sbs p !! b with Some s => Nodes s | None => [] end.
Definition sb_bag (p : GoPool) (l : list nat) : list nat := concat (map (sb_nodes p) l).

Definition cset_refs (st : system) : list nat := concat (map user_csets (users st)).
Definition node_refs (st : system) : list nat :=
  sb_bag (sys_pool st) (live st) ++ concat (map user_nodes (users st)) ++ concat (map update_nodes (updates st)).

(** The connections that users hold. *)
Definition held (st : system) : list nat := concat (map user_fds (users st)).

Definition user_ok (p : GoPool) (u : @conn G * place) : Prop :=
  let '(c, pl) := u in
  is_Some (services p !! service c) /\ -1 <= portKeyIdx c /\ (forall b, sb c = Some b -> sb_ok p c b) /\
  if closed c then pl = User /\ srvnode c = None /\ Conn c = None
  else (is_Some (connset c) <-> is_Some (srvnode c)) /\ (is_Some (connset c) -> 0 <= portKeyIdx c < Z.of_nat (length (portKey c))) /\
    match pl with
    | User => is_Some (connset c) /\ is_Some (Conn c)
    | Finding _ _ => True
    | Taking _ | Dialling _ => is_Some (connset c)
    end.

(** [L] are the references to sets that nothing has: those of the ports of an address
    whose key another of its ports had. *)
Record sys_inv (L : list nat) (st : system) : Prop := {
  si_inv : inv (sys_pool st) (L ++ cset_refs st) (node_refs st);
  si_live : NoDup (live st) /\ Forall (fun b => (b < length (sbs (sys_pool st)))%nat) (live st);
  si_users : Forall (user_ok (sys_pool st)) (users st);
  si_updates : Forall (fun u => match u with Prepared name _ => is_Some (services (sys_pool st) !! name) | _ => True end) (updates st);
  si_fds : NoDup (held st ++ stored (sys_pool st) ++ closed_fds (sys_pool st)) /\
    Forall (fun fd => (fd < next_fd (sys_pool st))%nat) (held st ++ stored (sys_pool st) ++ closed_fds (sys_pool st))
}.

#[local] Arguments si_inv {_} _ _.
#[local] Arguments si_live {_} _ _.
#[local] Arguments si_users {_} _ _.
#[local] Arguments si_updates {_} _ _.
#[local] Arguments si_fds {_} _ _.

(** ** Growing balancers *)

Definition grow p p' : Prop :=
  (forall k, is_Some (services p !! k) -> is_Some (services p' !! k)) /\
  (forall b s, sbs p !! b = Some s -> exists s', sbs p' !! b = Some s' /\ (length (nodes s) <= length (nodes s'))%nat /\ Retries s' = Retries s).

Lemma conn_ok_mono n m (k : @Connection G) : (n <= m)%nat -> conn_ok n k -> conn_ok m k.
Proof.
  intros Hle. destruct k as [idx retries|rng rc retries last first]; [done|]. simpl. intros (H1 & H2 & H3).
  split; [|lia]. eapply Forall_impl; [exact H1|]. simpl. lia.
Qed.

Lemma user_ok_grow p p' u : grow p p' -> user_ok p u -> user_ok p' u.
Proof.
  intros [Hs Hb]. destruct u as [c pl]. intros (H1 & H2 & H3 & H4). split; [by apply Hs|]. split; [done|]. split; [|done].
  intros b Hcb. destruct (H3 b Hcb) as (_ & s & k & Es & Ek & Hok & Hw). destruct (Hb _ _ Es) as (s' & Es' & Hle & Er).
  split; [done|]. exists s', k. split; [done|]. split; [done|]. split; [eapply conn_ok_mono; [|exact Hok]; unfold width; destruct k; lia|].
  destruct k; simpl in *; lia.
Qed.

Lemma moves_grow p p' : moves p p' -> grow p p'.
Proof.
  intros Hm. split; [by rewrite (mv_services _ _ Hm)|]. intros b s Hs. destruct (mv_sbs _ _ Hm _ _ Hs) as (s' & Hs' & E).
  exists s'. split; [done|]. rewrite (length_same _ _ E). split; [done|apply E].
Qed.

Lemma sb_bag_same p p' l :
  (forall b, b ∈ l -> sb_nodes p' b = sb_nodes p b) -> sb_bag p' l = sb_bag p l.
Proof.
  intros H. unfold sb_bag. f_equal. apply map_ext_in. intros b Hb%list_elem_of_In. by apply H.
Qed.

Lemma moves_sb_nodes p p' b : moves p p' -> (b < length (sbs p))%nat -> sb_nodes p' b = sb_nodes p b.
Proof.
  intros Hm Hb. destruct (lookup_lt_is_Some_2 _ _ Hb) as [s Hs]. destruct (mv_sbs _ _ Hm _ _ Hs) as (s' & Hs' & E & _).
  unfold sb_nodes. by rewrite Hs, Hs'.
Qed.

(** ** A step of one user *)

#[local] Instance concat_map_proper {A} (f : A -> list nat) : Proper ((≡ₚ) ==> (≡ₚ)) (fun l => concat (map f l)).
Proof.
  intros k l H. induction H as [|x k l H IH|x y l|k l m H1 IH1 H2 IH2]; simpl; [done|by rewrite IH| |by rewrite IH1].
  by rewrite !app_assoc, (Permutation_app_comm (f y)).
Qed.

#[local] Instance sb_bag_proper p : Proper ((≡ₚ) ==> (≡ₚ)) (sb_bag p).
Proof. apply (concat_map_proper (sb_nodes p)). Qed.

Section Lost.
Context {L : list nat}.

Lemma delete_insert {A} (l : list A) i x : delete i (<[i := x]> l) = delete i l.
Proof. revert i. induction l as [|y l IH]; intros [|i]; simpl; [done..|]. f_equal. apply IH. Qed.

Lemma perm_mid (a b c d : list nat) : b ++ a ++ c ++ d ≡ₚ a ++ (b ++ c) ++ d.
Proof. by rewrite app_assoc, (Permutation_app_comm b a), <- !app_assoc. Qed.

(** The connections of a step: the same, or one more. *)
Definition fds_step (l l' : list nat) (n n' : nat) : Prop :=
  (l' ≡ₚ l /\ n' = n) \/ (l' ≡ₚ n :: l /\ n' = S n).

Lemma fds_step_ok l l' n n' :
  fds_step l l' n n' -> NoDup l /\ Forall (fun fd => (fd < n)%nat) l -> NoDup l' /\ Forall (fun fd => (fd < n')%nat) l'.
Proof.
  intros [[E ->]|[E ->]] [Hd Hf]; [by rewrite E|]. rewrite E. split.
  - constructor; [|done]. intros Hin. rewrite list.Forall_forall in Hf. specialize (Hf _ Hin). lia.
  - constructor; [lia|]. eapply Forall_impl; [exact Hf|]. simpl. lia.
Qed.

Lemma fds_step_app l l' n n' k : fds_step l l' n n' -> fds_step (k ++ l) (k ++ l') n n'.
Proof.
  intros [[E ->]|[E ->]]; [left; by rewrite E|right]. split; [|done]. rewrite E. by rewrite Permutation_middle.
Qed.

(** The references of everybody but the user [i]. *)
Definition other_csets (st : system) (i : nat) : list nat := L ++ concat (map user_csets (delete i (users st))).
Definition other_nodes (st : system) (i : nat) : list nat :=
  sb_bag (sys_pool st) (live st) ++ concat (map user_nodes (delete i (users st))) ++ concat (map update_nodes (updates st)).

Definition all_fds (p : GoPool) (u : @conn G * place) : list nat := user_fds u ++ stored p ++ closed_fds p.

Lemma inv_split st i c pl :
  sys_inv L st -> users st !! i = Some (c, pl) ->
  inv (sys_pool st) (user_csets (c, pl) ++ other_csets st i) (user_nodes (c, pl) ++ other_nodes st i).
Proof.
  intros [Hi _ _ _ _] Hu. eapply inv_perm; [| |exact Hi].
  - unfold cset_refs, other_csets. rewrite (concat_delete user_csets _ _ _ Hu). by rewrite Permutation_app_swap_app.
  - unfold node_refs, other_nodes. rewrite (concat_delete user_nodes _ _ _ Hu). by rewrite perm_mid.
Qed.

Lemma user_step st i c pl c' pl' p' :
  sys_inv L st -> users st !! i = Some (c, pl) ->
  inv p' (user_csets (c', pl') ++ other_csets st i) (user_nodes (c', pl') ++ other_nodes st i) ->
  services p' = services (sys_pool st) -> grow (sys_pool st) p' ->
  (forall b, b ∈ live st -> sb_nodes p' b = sb_nodes (sys_pool st) b) -> (length (sbs (sys_pool st)) <= length (sbs p'))%nat ->
  user_ok p' (c', pl') ->
  fds_step (all_fds (sys_pool st) (c, pl)) (all_fds p' (c', pl')) (next_fd (sys_pool st)) (next_fd p') ->
  sys_inv L (set_user i c' pl' p' st).
Proof.
  intros Hst Hu Hi Hsrv Hg Hb Hl Hok Hfds. pose proof Hst as [_ [Hnd Hlt] Hus Hup Hfd].
  pose proof (lookup_lt_Some _ _ _ Hu) as Hil.
  assert (<[i := (c', pl')]> (users st) !! i = Some (c', pl')) as Hu' by (by apply list_lookup_insert_eq).
  assert (live (set_user i c' pl' p' st) = live st) as El by (unfold live, current; simpl; by rewrite Hsrv).
  split; simpl.
  - eapply inv_perm; [| |exact Hi].
    + unfold cset_refs, other_csets. simpl. rewrite (concat_delete user_csets _ _ _ Hu'), delete_insert. by rewrite Permutation_app_swap_app.
    + unfold node_refs. simpl. rewrite El, (concat_delete user_nodes _ _ _ Hu'), delete_insert, (sb_bag_same _ _ _ Hb).
      apply perm_mid.
  - rewrite El. split; [done|]. eapply Forall_impl; [exact Hlt|]. simpl. lia.
  - apply Forall_insert; [|done]. eapply Forall_impl; [exact Hus|]. intros u. by apply user_ok_grow.
  - rewrite Hsrv. done.
  - set (rest := concat (map user_fds (delete i (users st)))).
    assert (forall p u, concat (map user_fds (<[i := u]> (users st))) ++ stored p ++ closed_fds p ≡ₚ rest ++ all_fds p u) as Ha.
    { intros p u. assert (<[i := u]> (users st) !! i = Some u) as Hx by (by apply list_lookup_insert_eq).
      rewrite (concat_delete user_fds _ _ _ Hx), delete_insert. fold rest. unfold all_fds.
      by rewrite (Permutation_app_comm (user_fds u)), <- app_assoc. }
    unfold held at 1 2. simpl. eapply fds_step_ok.
    + destruct (fds_step_app _ _ _ _ rest Hfds) as [[E En]|[E En]].
      * left. split; [|exact En]. rewrite Ha, E. reflexivity.
      * right. split; [|exact En]. rewrite Ha, E. reflexivity.
    + rewrite <- Ha. rewrite list_insert_id by done. exact Hfd.
Qed.

Lemma user_conn_inv st i c pl :
  sys_inv L st -> users st !! i = Some (c, pl) -> closed c = false ->
  conn_inv (sys_pool st) c (other_csets st i) (other_nodes st i).
Proof.
  intros Hst Hu Hc. pose proof (inv_split _ _ _ _ Hst Hu) as Hi. unfold user_csets in Hi. simpl in Hi. rewrite Hc in Hi.
  pose proof (proj1 (list.Forall_lookup _ _) (si_users _ Hst) _ _ Hu) as (_ & Hx & Hsb & Hok). rewrite Hc in Hok.
  destruct Hok as (Hn & Hp & _). by split.
Qed.

Lemma current_in p k srv : services p !! k = Some srv -> srv_sb srv ∈ current p.
Proof.
  intros H. unfold current. apply list_elem_of_In, in_map_iff. exists (k, srv). split; [done|].
  by apply list_elem_of_In, elem_of_map_to_list.
Qed.

Lemma sb_bag_in p l b n : b ∈ l -> n ∈ sb_nodes p b -> n ∈ sb_bag p l.
Proof.
  intros Hb Hn. apply list_elem_of_In, in_concat. exists (sb_nodes p b). split; [|by apply list_elem_of_In].
  apply in_map. by apply list_elem_of_In.
Qed.

(** The balancer of a service, and its nodes, which are held. *)
Lemma service_sb st k srv :
  sys_inv L st -> services (sys_pool st) !! k = Some srv ->
  exists s, sbs (sys_pool st) !! srv_sb srv = Some s /\ forall n i, n ∈ Nodes s -> n ∈ other_nodes st i.
Proof.
  intros Hst Hk. pose proof (current_in _ _ _ Hk) as Hc.
  assert (srv_sb srv ∈ live st) as Hl by (apply elem_of_app; by left).
  destruct (si_live _ Hst) as [_ Hlt]. rewrite list.Forall_forall in Hlt. specialize (Hlt _ Hl).
  destruct (lookup_lt_is_Some_2 _ _ Hlt) as [s Hs]. exists s. split; [done|]. intros n i Hn.
  apply elem_of_app. left. eapply sb_bag_in; [exact Hl|]. unfold sb_nodes. by rewrite Hs.
Qed.

(** A user's step that leaves services and balancers, up to costs. *)
Lemma moves_user st p' :
  sys_inv L st -> moves (sys_pool st) p' ->
  services p' = services (sys_pool st) /\ grow (sys_pool st) p' /\
  (forall b, b ∈ live st -> sb_nodes p' b = sb_nodes (sys_pool st) b) /\ (length (sbs (sys_pool st)) <= length (sbs p'))%nat.
Proof.
  intros Hst Hm. split; [apply (mv_services _ _ Hm)|]. split; [by apply moves_grow|]. split.
  - intros b Hb. apply moves_sb_nodes; [done|]. destruct (si_live _ Hst) as [_ Hlt]. rewrite list.Forall_forall in Hlt. by apply Hlt.
  - destruct (decide (length (sbs (sys_pool st)) = 0%nat)) as [->|Hne]; [lia|].
    destruct (lookup_lt_is_Some_2 (sbs (sys_pool st)) (length (sbs (sys_pool st)) - 1)) as [s Hs]; [lia|].
    destruct (mv_sbs _ _ Hm _ _ Hs) as (s' & Hs' & _). apply lookup_lt_Some in Hs'. lia.
Qed.

Lemma exec_find_ok st i c status failed random :
  sys_inv L st -> users st !! i = Some (c, Finding status failed) ->
  exists r pl c' p', get_find c status failed random (sys_pool st) = Some (r, pl, c', p') /\ sys_inv L (set_user i c' pl p' st).
Proof.
  intros Hst Hu. pose proof (proj1 (list.Forall_lookup _ _) (si_users _ Hst) _ _ Hu) as ([srv Hsrv] & Hx & Hsb & Hok).
  destruct (closed c) eqn:Hc; [by destruct Hok|]. pose proof (user_conn_inv _ _ _ _ Hst Hu Hc) as Hci.
  destruct (service_sb _ _ _ Hst Hsrv) as (s & Hs & Hheld). unfold get_find.
  destruct (findConnset_ok _ _ _ _ status random _ _ Hci Hsrv Hs (fun n => Hheld n i))
    as (st' & c' & p' & -> & Hci' & Hm & (Ek & Es & Ecl & Ec) & Esb & _).
  cbn [mbind option_bind]. destruct (moves_user _ _ Hst Hm) as (H1 & H2 & H3 & H4).
  pose proof Hci' as [Hi' Hn' Hx' Hp' Hsb'].
  assert (forall u, user_fds u = [] -> fds_step (all_fds (sys_pool st) (c, Finding status failed)) (all_fds p' u)
    (next_fd (sys_pool st)) (next_fd p')) as Hfds.
  { intros u E. left. unfold all_fds. rewrite E. destruct (mv_conserves _ _ Hm) as [Hp En]. by split. }
  destruct (connset c') as [id|] eqn:Ecs; eexists _, _, _, p'; (split; [done|]);
    apply (user_step st i c (Finding status failed)); try done; try by apply Hfds.
  - unfold user_csets. simpl. rewrite Ecl, Hc, Ecs. done.
  - split; [by rewrite H1, Es|]. split; [done|]. split; [done|]. rewrite Ecl, Hc, Ecs. split; [done|]. split; [done|by eexists].
  - split; [by simpl; rewrite H1, Es|]. split; [done|]. split; [done|]. simpl. split; [done|]. split; [|done].
    destruct (srvnode c'); [|done]. destruct Hn' as [_ Hn']. destruct (Hn' ltac:(by eexists)). done.
Qed.

(** A user's step that leaves services, balancers and nodes. *)
Lemma same_pool_user st p' :
  same_pool (sys_pool st) p' ->
  services p' = services (sys_pool st) /\ grow (sys_pool st) p' /\
  (forall b, b ∈ live st -> sb_nodes p' b = sb_nodes (sys_pool st) b) /\ (length (sbs (sys_pool st)) <= length (sbs p'))%nat.
Proof.
  intros (Hs & Hb & _). split; [done|]. split; [split; [by rewrite Hs|rewrite Hb; eauto]|].
  split; [|by rewrite Hb]. intros b _. unfold sb_nodes. by rewrite Hb.
Qed.

Lemma user_ok_at st i c pl : sys_inv L st -> users st !! i = Some (c, pl) -> user_ok (sys_pool st) (c, pl).
Proof. intros Hst Hu. exact (proj1 (list.Forall_lookup _ _) (si_users _ Hst) _ _ Hu). Qed.

Lemma exec_take_ok st i c failed dead :
  sys_inv L st -> users st !! i = Some (c, Taking failed) ->
  exists r pl c' p', get_take c failed dead (sys_pool st) = Some (r, pl, c', p') /\ sys_inv L (set_user i c' pl p' st).
Proof.
  intros Hst Hu. destruct (user_ok_at _ _ _ _ Hst Hu) as (Hsrv & Hx & Hsb & Hok).
  destruct (closed c) eqn:Hc; [by destruct Hok|]. destruct Hok as (Hn & Hp & Hcs).
  pose proof (user_conn_inv _ _ _ _ Hst Hu Hc) as Hci.
  destruct (get_take_ok _ _ _ _ failed dead Hci Hcs)
    as (r & pl & c' & p' & -> & Hci' & Hsp & Hus & Ex & Ek & Ecs & En & Hr).
  exists r, pl, c', p'. split; [done|]. destruct (same_pool_user _ _ Hsp) as (H1 & H2 & H3 & H4).
  destruct Hci' as [Hi' Hn' Hx' Hp' Hsb']. assert (closed c' = false) as Hc' by (rewrite <- Hc; apply Hus).
  assert (service c' = service c) as Es by apply Hus.
  apply (user_step st i c (Taking failed)); try done.
  - unfold user_csets. simpl. by rewrite Hc'.
  - split; [by rewrite H1, Es|]. split; [done|]. split; [done|]. rewrite Hc'. split; [done|]. split; [done|].
    destruct r as [a|]; [destruct Hr as (-> & -> & fd & -> & _)|destruct Hr as (-> & _)]; rewrite Ecs; [split; [done|by eexists]|done].
  - left. split; [|done]. unfold all_fds, user_fds. simpl. destruct r as [a|].
    + destruct Hr as (-> & -> & fd & -> & Hf). simpl. rewrite Hc'. done.
    + destruct Hr as (-> & _ & _ & Hf). done.
Qed.

Lemma exec_dial_ok st i c failed connects :
  sys_inv L st -> users st !! i = Some (c, Dialling failed) ->
  let '(r, pl, c', p') := get_dial c connects (sys_pool st) in sys_inv L (set_user i c' pl p' st).
Proof.
  intros Hst Hu. destruct (user_ok_at _ _ _ _ Hst Hu) as (Hsrv & Hx & Hsb & Hok).
  destruct (closed c) eqn:Hc; [by destruct Hok|]. destruct Hok as (Hn & Hp & Hcs).
  pose proof (inv_split _ _ _ _ Hst Hu) as Hi. unfold user_csets in Hi. simpl in Hi. rewrite Hc in Hi.
  destruct connects; simpl; rewrite Hc; apply (user_step st i c (Dialling failed)); try done; try (by split; [|eauto]).
  - eapply inv_same; [..|exact Hi]; done.
  - by right.
  - by left.
Qed.

(** get starts: the connection that the user had is closed. *)
Lemma exec_start_ok st i c status :
  sys_inv L st -> users st !! i = Some (c, User) -> sys_inv L (started i (get_start c status (sys_pool st)) st).
Proof.
  intros Hst Hu. destruct (user_ok_at _ _ _ _ Hst Hu) as (Hsrv & Hx & Hsb & Hok). unfold get_start.
  destruct (closed c) eqn:Hc; [done|]. destruct Hok as (Hn & Hp & Hcs & [fd Hfd]). rewrite Hfd. simpl.
  pose proof (inv_split _ _ _ _ Hst Hu) as Hi. unfold user_csets in Hi. simpl in Hi. rewrite Hc in Hi.
  apply (user_step st i c User); try done; try (by split; [|eauto]).
  - unfold user_csets. simpl. rewrite Hc. eapply inv_same; [..|exact Hi]; done.
  - split; [done|]. split; [done|]. split; [done|]. rewrite Hc. done.
  - left. split; [|done]. unfold all_fds, user_fds. simpl. rewrite Hc, Hfd. simpl.
    rewrite (Permutation_app_comm (closed_fds _)), app_assoc. change (stored (close_fds [fd] (sys_pool st))) with (stored (sys_pool st)).
    by rewrite (Permutation_app_comm (stored _) [fd]).
Qed.

(** A reset of a connection that was not put back. *)
Lemma exec_reset_ok st i c :
  sys_inv L st -> users st !! i = Some (c, User) -> (closed c = true -> connset c = None) ->
  sys_inv L (started i (conn_Reset_start c (sys_pool st)) st).
Proof.
  intros Hst Hu Hr. unfold conn_Reset_start. destruct (closed c) eqn:Hc.
  - destruct (user_ok_at _ _ _ _ Hst Hu) as (Hsrv & Hx & Hsb & Hok). rewrite Hc in Hok. destruct Hok as (_ & Hn & Hfd).
    specialize (Hr eq_refl). unfold get_start. simpl. rewrite Hfd.
    pose proof (inv_split _ _ _ _ Hst Hu) as Hi. unfold user_csets in Hi. simpl in Hi. rewrite Hc in Hi.
    apply (user_step st i c User); try done; try (by split; [|eauto]).
    + unfold user_csets. simpl. by rewrite Hr.
    + split; [done|]. split; [done|]. split; [done|]. simpl. rewrite Hr, Hn. split; [split; by intros []|]. split; [by intros []|done].
    + left. unfold all_fds, user_fds. simpl. by rewrite Hc.
  - assert (set_conn (Conn c) false c = c) as -> by (destruct c; simpl in *; by subst). by apply exec_start_ok.
Qed.

Lemma set_user_same st i c pl : users st !! i = Some (c, pl) -> set_user i c pl (sys_pool st) st = st.
Proof. intros H. unfold set_user. rewrite list_insert_id by done. by destruct st. Qed.

Lemma given_back_ok st i c c' p' :
  sys_inv L st -> users st !! i = Some (c, User) -> closed c = false -> given_back c c' ->
  inv p' (other_csets st i) (other_nodes st i) -> services p' = services (sys_pool st) -> grow (sys_pool st) p' ->
  (forall b, b ∈ live st -> sb_nodes p' b = sb_nodes (sys_pool st) b) -> (length (sbs (sys_pool st)) <= length (sbs p'))%nat ->
  stored p' ++ closed_fds p' ≡ₚ option_list (Conn c) ++ stored (sys_pool st) ++ closed_fds (sys_pool st) ->
  next_fd p' = next_fd (sys_pool st) -> sys_inv L (set_user i c' User p' st).
Proof.
  intros Hst Hu Hc (G1 & G2 & G3 & G4 & G5 & G6 & G7 & G8 & G9) Hi H1 H2 H3 H4 Hf En.
  destruct (user_ok_at _ _ _ _ Hst Hu) as (Hsrv & Hx & Hsb & Hok).
  apply (user_step st i c User); try done.
  - unfold user_csets, user_nodes. simpl. by rewrite G1, G2.
  - split; [by rewrite H1, G4|]. split; [by rewrite G9|]. split; [|by rewrite G1].
    intros b Hb. rewrite G6 in Hb. destruct (user_ok_grow _ _ (c, User) H2 (user_ok_at _ _ _ _ Hst Hu)) as (_ & _ & Hsb' & _).
    destruct (Hsb' b Hb) as (_ & s & k & Es & Ek & Hk). split; [by rewrite G6|]. exists s, k. rewrite G7. split; [done|]. split; [done|].
    unfold width in *. by rewrite G8.
  - left. split; [|done]. unfold all_fds, user_fds. simpl. by rewrite G1, Hc.
Qed.

Lemma exec_close_ok st i c :
  sys_inv L st -> users st !! i = Some (c, User) ->
  exists c' p', conn_Close c (sys_pool st) = Some (c', p') /\ sys_inv L (set_user i c' User p' st).
Proof.
  intros Hst Hu. destruct (closed c) eqn:Hc.
  { exists c, (sys_pool st). unfold conn_Close. rewrite Hc, set_user_same by done. done. }
  destruct (conn_Close_ok _ _ _ _ (user_conn_inv _ _ _ _ Hst Hu Hc) Hc) as (c' & p1 & -> & Hi & Hm & Hg & _).
  eexists _, _. split; [done|]. destruct (moves_user _ _ Hst Hm) as (H1 & H2 & H3 & H4).
  apply (given_back_ok st i c); try done.
  - by apply inv_close.
  - simpl. rewrite (Permutation_app_comm (closed_fds p1)), app_assoc.
    change (stored (close_fds _ p1)) with (stored p1). rewrite (Permutation_app_comm (stored p1) (option_list _)), <- app_assoc.
    destruct (mv_conserves _ _ Hm) as [-> _]. done.
  - apply (mv_conserves _ _ Hm).
Qed.

Lemma exec_put_ok st i c :
  sys_inv L st -> users st !! i = Some (c, User) ->
  exists c' p', conn_Put c (sys_pool st) = Some (c', p') /\ sys_inv L (set_user i c' User p' st).
Proof.
  intros Hst Hu. destruct (closed c) eqn:Hc.
  { exists c, (sys_pool st). unfold conn_Put. rewrite Hc, set_user_same by done. done. }
  destruct (user_ok_at _ _ _ _ Hst Hu) as (_ & _ & _ & Hok). rewrite Hc in Hok. destruct Hok as (_ & _ & Hcs & [fd Hfd]).
  destruct (conn_Put_ok _ _ _ _ fd (user_conn_inv _ _ _ _ Hst Hu Hc) Hc Hcs Hfd) as (p0 & c' & p' & -> & Hsp & Hs0 & Hc0 & Hn0 & Hm & Hi & Hg).
  eexists _, _. split; [done|].
  destruct (same_pool_user _ _ Hsp) as (A1 & A2 & A3 & A4). destruct Hsp as (B1 & B2 & B3 & B4).
  pose proof (moves_grow _ _ Hm) as [C1 C2].
  apply (given_back_ok st i c); try done.
  - by rewrite (mv_services _ _ Hm).
  - split; [intros k; rewrite <- B1; apply C1|]. intros b s Hs. rewrite <- B2 in Hs. by apply C2.
  - intros b Hb. rewrite (moves_sb_nodes p0 p' b Hm).
    + by apply A3.
    + rewrite B2. destruct (si_live _ Hst) as [_ Hlt]. rewrite list.Forall_forall in Hlt. by apply Hlt.
  - rewrite <- B2. destruct (decide (length (sbs p0) = 0%nat)) as [->|Hne]; [lia|].
    destruct (lookup_lt_is_Some_2 (sbs p0) (length (sbs p0) - 1)) as [s Hs]; [lia|].
    destruct (mv_sbs _ _ Hm _ _ Hs) as (s' & Hs' & _). apply lookup_lt_Some in Hs'. lia.
  - destruct (mv_conserves _ _ Hm) as [-> _]. rewrite Hs0, Hc0, Hfd. done.
  - destruct (mv_conserves _ _ Hm) as [_ ->]. done.
Qed.

(** ** Services and updates *)

Lemma pool_step L' st p' ups :
  sys_inv L st -> let st' := mk_system p' (users st) ups in
  inv p' (L' ++ cset_refs st) (node_refs st') -> NoDup (live st') -> Forall (fun b => (b < length (sbs p'))%nat) (live st') ->
  grow (sys_pool st) p' -> Forall (fun u => match u with Prepared name _ => is_Some (services p' !! name) | _ => True end) ups ->
  conserves (sys_pool st) p' -> sys_inv L' st'.
Proof.
  intros [Hi Hl Hu Hup Hf] st' Hi' Hnd Hlt Hg Hups [Hc En]. split; simpl; [done|done| |done|].
  - eapply Forall_impl; [exact Hu|]. intros u. by apply user_ok_grow.
  - change (held st') with (held st). rewrite Hc, En. done.
Qed.

(** A new service with an empty balancer. *)
Lemma getService_ok st name retries :
  sys_inv L st ->
  exists srv p', getService name retries (sys_pool st) = (srv, p') /\ services p' !! name = Some srv /\
    sys_inv L (mk_system p' (users st) (updates st)).
Proof.
  intros Hst. unfold getService. destruct (services (sys_pool st) !! name) as [srv|] eqn:E.
  { exists srv, (sys_pool st). split; [done|]. split; [done|]. by destruct st. }
  set (p := sys_pool st) in *. set (b := length (sbs p)).
  set (srv := mk_srv b (bytes "tcp") (bytes "unix")). eexists srv, _. split; [done|].
  split; [simpl; apply lookup_insert_eq|]. set (p' := set_services _ _).
  assert (current p' ≡ₚ b :: current p) as Hcur.
  { unfold current. simpl. rewrite map_to_list_insert by done. done. }
  destruct (si_live _ Hst) as [Hnd Hlt].
  assert (live (mk_system p' (users st) (updates st)) ≡ₚ b :: live st) as Hlive by (unfold live; simpl; by rewrite Hcur).
  assert (forall x, x ∈ live st -> sb_nodes p' x = sb_nodes p x) as Hsame.
  { intros x Hx. rewrite list.Forall_forall in Hlt. specialize (Hlt _ Hx). unfold sb_nodes. simpl.
    by rewrite lookup_app_l. }
  assert (sb_nodes p' b = []) as Hb.
  { unfold sb_nodes. simpl. unfold b. by rewrite list_lookup_middle. }
  apply (pool_step L st p' (updates st)); try done.
  - eapply inv_perm; [done| |eapply inv_same; [..|apply (si_inv _ Hst)]; done].
    unfold node_refs. apply Permutation_app_tail. rewrite Hlive. unfold sb_bag at 2. simpl. rewrite Hb. simpl.
    fold (sb_bag p' (live st)). by rewrite (sb_bag_same _ _ _ Hsame).
  - rewrite Hlive. constructor; [|done]. intros Hin. rewrite list.Forall_forall in Hlt. specialize (Hlt _ Hin). simpl in Hlt. fold p in Hlt. unfold b in Hlt. lia.
  - rewrite Hlive. simpl. rewrite length_app. simpl. constructor; [unfold b; lia|].
    eapply Forall_impl; [exact Hlt|]. simpl. fold p. lia.
  - split.
    + intros k [x Hk]. simpl. destruct (decide (k = name)) as [->|Hne]; [by rewrite lookup_insert_eq|].
      rewrite lookup_insert_ne by done. by eexists.
    + intros x s Hs. exists s. simpl. split; [by apply lookup_app_l_Some|]. split; [lia|done].
  - eapply Forall_impl; [apply (si_updates _ Hst)|]. intros [k x| |]; try done. simpl. intros [y Hy].
    destruct (decide (k = name)) as [->|Hne]; [by rewrite lookup_insert_eq|]. rewrite lookup_insert_ne by done. by eexists.
Qed.

Lemma sb_bag_extend p p' b ns l s s' :
  b ∈ l -> NoDup l -> sbs p !! b = Some s -> sbs p' = <[b := s']> (sbs p) -> Nodes s' = Nodes s ++ ns ->
  sb_bag p' l ≡ₚ ns ++ sb_bag p l.
Proof.
  intros Hin Hnd Hs E En. apply elem_of_Permutation in Hin as [k Hk]. rewrite Hk in Hnd |- *.
  apply NoDup_cons in Hnd as [Hb _]. unfold sb_bag. simpl.
  assert (sb_nodes p' b = Nodes s ++ ns) as ->.
  { unfold sb_nodes. rewrite E, list_lookup_insert_eq by (by eapply lookup_lt_Some). done. }
  assert (sb_nodes p b = Nodes s) as -> by (unfold sb_nodes; by rewrite Hs).
  fold (sb_bag p' k) (sb_bag p k). rewrite (sb_bag_same p p' k).
  - by rewrite (Permutation_app_comm (Nodes s) ns), <- app_assoc.
  - intros x Hx. unfold sb_nodes. rewrite E, list_lookup_insert_ne; [done|]. intros ->. done.
Qed.

Lemma current_at p k srv :
  services p !! k = Some srv ->
  forall srv', current (set_services (<[k := srv']> (services p)) p) ≡ₚ
    srv_sb srv' :: map (fun e => srv_sb e.2) (map_to_list (delete k (services p))).
Proof.
  intros H srv'. unfold current. simpl. rewrite <- insert_delete_eq. rewrite map_to_list_insert by apply lookup_delete_eq. done.
Qed.

Lemma current_at_same p k srv :
  services p !! k = Some srv -> current p ≡ₚ srv_sb srv :: map (fun e => srv_sb e.2) (map_to_list (delete k (services p))).
Proof.
  intros H. rewrite <- (current_at p k srv H srv). unfold current. simpl. by rewrite insert_id.
Qed.

(** The values of a service change, its nodes do not. *)
Lemma settings_ok st name srv s srv' s' :
  sys_inv L st -> services (sys_pool st) !! name = Some srv -> sbs (sys_pool st) !! srv_sb srv = Some s ->
  srv_sb srv' = srv_sb srv -> nodes s' = nodes s -> Retries s' = Retries s ->
  sys_inv L (mk_system (set_services (<[name := srv']> (services (sys_pool st)))
    (set_sbs (<[srv_sb srv := s']> (sbs (sys_pool st))) (sys_pool st))) (users st) (updates st)).
Proof.
  intros Hst Hk Hs Eb En Er. set (p := sys_pool st) in *. set (p' := set_services _ _).
  destruct (si_live _ Hst) as [Hnd Hlt].
  assert (live (mk_system p' (users st) (updates st)) ≡ₚ live st) as El.
  { unfold live. simpl. apply Permutation_app_tail. fold p. rewrite (current_at_same p name srv Hk), <- Eb.
    exact (current_at p name srv Hk srv'). }
  assert (forall b, sb_nodes p' b = sb_nodes p b) as Hb.
  { intros b. unfold sb_nodes. simpl. destruct (decide (b = srv_sb srv)) as [->|Hne].
    - rewrite list_lookup_insert_eq by (by eapply lookup_lt_Some). rewrite Hs. unfold Nodes. by rewrite En.
    - by rewrite list_lookup_insert_ne. }
  assert (forall k, is_Some (services p !! k) -> is_Some (services p' !! k)) as Hsv.
  { intros k [x Hx]. simpl. destruct (decide (k = name)) as [->|Hne]; [by rewrite lookup_insert_eq|].
    rewrite lookup_insert_ne by done. by eexists. }
  apply (pool_step L st p' (updates st)); try done.
  - eapply inv_perm; [done| |eapply inv_same; [..|apply (si_inv _ Hst)]; done].
    unfold node_refs. rewrite El. simpl. by rewrite (sb_bag_same p p').
  - by rewrite El.
  - rewrite El. simpl. by rewrite length_insert.
  - split; [done|]. intros b t Ht. simpl. destruct (decide (b = srv_sb srv)) as [->|Hne].
    + exists s'. rewrite list_lookup_insert_eq by (by eapply lookup_lt_Some). split; [done|].
      fold p in Ht. assert (t = s) as -> by congruence. rewrite En. split; [lia|done].
    + exists t. by rewrite list_lookup_insert_ne.
  - eapply Forall_impl; [apply (si_updates _ Hst)|]. intros [k x| |]; try done. apply Hsv.
Qed.

Lemma live_current st name srv : services (sys_pool st) !! name = Some srv -> srv_sb srv ∈ live st.
Proof. intros H. apply elem_of_app. left. by eapply current_in. Qed.

(** The updates but one: their balancers and nodes. *)
Lemma updates_split st j u :
  updates st !! j = Some u ->
  live st ≡ₚ update_sbs u ++ current (sys_pool st) ++ concat (map update_sbs (delete j (updates st))) /\
  concat (map update_nodes (updates st)) ≡ₚ update_nodes u ++ concat (map update_nodes (delete j (updates st))).
Proof.
  intros H. split; [|by apply concat_delete]. unfold live. rewrite (concat_delete update_sbs _ _ _ H).
  by rewrite app_assoc, (Permutation_app_comm (current _)), <- app_assoc.
Qed.

(** A step of the update [j] that changes the pool at most in its services. *)
Lemma update_step st j u u' p' :
  sys_inv L st -> updates st !! j = Some u -> let st' := mk_system p' (users st) (<[j := u']> (updates st)) in
  inv p' (L ++ cset_refs st) (node_refs st') -> (exists l, live st ≡ₚ live st' ++ l) -> (length (sbs (sys_pool st)) <= length (sbs p'))%nat ->
  grow (sys_pool st) p' -> (match u' with Prepared name _ => is_Some (services p' !! name) | _ => True end) ->
  conserves (sys_pool st) p' -> sys_inv L st'.
Proof.
  intros Hst Hj st' Hi [l Hl] Hlen Hg Hu' Hc. destruct (si_live _ Hst) as [Hnd Hlt]. rewrite Hl in Hnd, Hlt.
  apply NoDup_app in Hnd as [Hnd _]. apply Forall_app in Hlt as [Hlt _].
  apply (pool_step L st p'); try done.
  - eapply Forall_impl; [exact Hlt|]. simpl. lia.
  - apply Forall_insert; [|done]. eapply Forall_impl; [apply (si_updates _ Hst)|]. intros [k x| |]; try done. apply Hg.
Qed.

Lemma exec_release_ok st j n ns :
  sys_inv L st -> updates st !! j = Some (Releasing (n :: ns)) ->
  exists p', node_Release n (sys_pool st) = Some p' /\
    sys_inv L (mk_system p' (users st) (<[j := Releasing ns]> (updates st))).
Proof.
  intros Hst Hj. destruct (updates_split _ _ _ Hj) as [Hl Hn]. simpl in Hl, Hn.
  set (ups := <[j := Releasing ns]> (updates st)).
  assert (ups !! j = Some (Releasing ns)) as Hj' by (apply list_lookup_insert_eq; by eapply lookup_lt_Some).
  set (N0 := sb_bag (sys_pool st) (live st) ++ concat (map user_nodes (users st)) ++ concat (map update_nodes ups)).
  destruct (node_release_ok (sys_pool st) (L ++ cset_refs st) N0 n) as (p' & E & Hi & Hk).
  { eapply inv_perm; [done| |apply (si_inv _ Hst)]. unfold node_refs. rewrite Hn. subst N0.
    rewrite (concat_delete update_nodes _ _ _ Hj'). unfold ups. rewrite delete_insert. simpl.
    by rewrite <- !Permutation_middle. }
  exists p'. split; [done|]. pose proof (keeps_moves _ _ Hk) as Hm. destruct (moves_user _ _ Hst Hm) as (H1 & H2 & H3 & H4).
  assert (live (mk_system p' (users st) ups) ≡ₚ live st) as El.
  { unfold live at 1, current. simpl. rewrite H1, Hl. fold (current (sys_pool st)).
    rewrite (concat_delete update_sbs _ _ _ Hj'). unfold ups. by rewrite delete_insert. }
  apply (update_step st j _ (Releasing ns) p' Hst Hj); fold ups; try done; [|by exists []; rewrite app_nil_r|apply (mv_conserves _ _ Hm)].
  eapply inv_perm; [done| |exact Hi]. unfold node_refs, N0. rewrite El. simpl. by rewrite (sb_bag_same _ _ _ H3).
Qed.

Lemma exec_swap_ok st j name b :
  sys_inv L st -> updates st !! j = Some (Prepared name b) ->
  exists ns p', update_swap name b (sys_pool st) = Some (ns, p') /\
    sys_inv L (mk_system p' (users st) (<[j := Releasing ns]> (updates st))).
Proof.
  intros Hst Hj. destruct (updates_split _ _ _ Hj) as [Hl Hn]. simpl in Hl, Hn.
  pose proof (proj1 (list.Forall_lookup _ _) (si_updates _ Hst) _ _ Hj) as [srv Hk]. simpl in Hk.
  destruct (service_sb _ _ _ Hst Hk) as (s & Hs & _). unfold update_swap. rewrite Hk. cbn [mbind option_bind]. rewrite Hs.
  cbn [mbind option_bind]. eexists _, _. split; [done|].
  set (srv' := mk_srv b _ _). set (p' := set_services _ _). set (ups := <[j := Releasing (Nodes s)]> (updates st)).
  assert (ups !! j = Some (Releasing (Nodes s))) as Hj' by (apply list_lookup_insert_eq; by eapply lookup_lt_Some).
  assert (live st ≡ₚ live (mk_system p' (users st) ups) ++ [srv_sb srv]) as El.
  { rewrite Hl, (current_at_same _ _ _ Hk). unfold live. simpl.
    pose proof (current_at _ _ _ Hk srv') as Hcur. fold p' in Hcur. rewrite Hcur.
    rewrite (concat_delete update_sbs _ _ _ Hj'). unfold ups. rewrite delete_insert. simpl.
    rewrite <- app_assoc, (Permutation_app_comm (concat _) [srv_sb srv]). simpl. by rewrite <- Permutation_middle. }
  apply (update_step st j _ (Releasing (Nodes s)) p' Hst Hj); fold ups; try done.
  - eapply inv_perm; [done| |eapply inv_same; [..|apply (si_inv _ Hst)]; done].
    unfold node_refs. rewrite El, Hn. simpl. rewrite (concat_delete update_nodes _ _ _ Hj').
    assert (delete j ups = delete j (updates st)) as -> by apply delete_insert.
    unfold sb_bag at 1. rewrite map_app, concat_app. simpl. rewrite app_nil_r.
    assert (sb_nodes (sys_pool st) (srv_sb srv) = Nodes s) as -> by (unfold sb_nodes; by rewrite Hs).
    rewrite <- app_assoc. apply Permutation_app_head. rewrite app_assoc, (Permutation_app_comm (Nodes s)), <- app_assoc. done.
  - by eexists.
  - split; [|eauto]. intros k [x Hx]. simpl. destruct (decide (k = name)) as [->|Hne]; [by rewrite lookup_insert_eq|].
    rewrite lookup_insert_ne by done. by eexists.
Qed.

(** The end of an update's preparation, by what became of it. *)
Lemma finish_update st ups u u' :
  sys_inv L st -> updates st = ups ++ [u] ->
  (update_sbs u' = update_sbs u \/ (update_sbs u' = [] /\ sb_bag (sys_pool st) (update_sbs u) = [])) ->
  update_nodes u' = update_nodes u -> (match u' with Prepared name _ => is_Some (services (sys_pool st) !! name) | _ => True end) ->
  sys_inv L (mk_system (sys_pool st) (users st) (ups ++ [u'])).
Proof.
  intros Hst E Hb Hn Hp. assert (updates st !! length ups = Some u) as Hj by (rewrite E; by apply list_lookup_middle).
  assert (ups ++ [u'] = <[length ups := u']> (updates st)) as ->.
  { rewrite E. by rewrite insert_app_r_alt, Nat.sub_diag by lia. }
  set (ups' := <[_ := _]> _). assert (ups' !! length ups = Some u') as Hj' by (apply list_lookup_insert_eq; by eapply lookup_lt_Some).
  destruct (updates_split _ _ _ Hj) as [Hl Hno].
  assert (live (mk_system (sys_pool st) (users st) ups') ≡ₚ update_sbs u' ++ current (sys_pool st) ++ concat (map update_sbs (delete (length ups) (updates st)))) as Hl'.
  { destruct (updates_split (mk_system (sys_pool st) (users st) ups') _ _ Hj') as [-> _]. simpl. unfold ups'. by rewrite delete_insert. }
  apply (update_step st _ u u' (sys_pool st) Hst Hj); fold ups'; try done.
  - eapply inv_perm; [done| |apply (si_inv _ Hst)]. unfold node_refs. simpl. rewrite Hl, Hl', Hno.
    destruct (updates_split (mk_system (sys_pool st) (users st) ups') _ _ Hj') as [_ Hno']. simpl in Hno'. rewrite Hno'.
    assert (delete (length ups) ups' = delete (length ups) (updates st)) as -> by apply delete_insert. rewrite Hn.
    apply Permutation_app_tail. unfold sb_bag. rewrite !map_app, !concat_app. apply Permutation_app_tail.
    destruct Hb as [->|[-> Hb]]; [done|]. unfold sb_bag in Hb. by rewrite Hb.
  - destruct Hb as [Eb|[Eb _]]; [exists []; by rewrite Hl, Hl', Eb, app_nil_r|].
    exists (update_sbs u). rewrite Hl, Hl', Eb. apply Permutation_app_comm.
  - split; [done|eauto].
Qed.

End Lost.

Section Added.
Context {L : list nat}.

(** New nodes for a balancer in use. *)
Lemma extend_ok lost st p' b ns :
  sys_inv L st -> b ∈ live st -> inv p' (lost ++ L ++ cset_refs st) (ns ++ node_refs st) -> extends b ns (sys_pool st) p' ->
  sys_inv (lost ++ L) (mk_system p' (users st) (updates st)).
Proof.
  intros Hst Hb Hi [Hc Hsrv _ Hsb]. destruct (si_live _ Hst) as [Hnd Hlt].
  assert (is_Some (sbs (sys_pool st) !! b)) as [s Hs].
  { apply lookup_lt_is_Some_2. rewrite list.Forall_forall in Hlt. by apply Hlt. }
  destruct (Hsb _ Hs) as (s' & E & En & Er & _).
  assert (live (mk_system p' (users st) (updates st)) = live st) as El by (unfold live, current; simpl; by rewrite Hsrv).
  apply (pool_step (lost ++ L) st p' (updates st) Hst); try done; rewrite ?El; try done.
  - eapply inv_perm; [by rewrite <- app_assoc| |exact Hi]. unfold node_refs. simpl. rewrite El.
    rewrite (sb_bag_extend _ _ _ _ _ _ _ Hb Hnd Hs E En). by rewrite <- app_assoc.
  - by rewrite E, length_insert.
  - split; [by rewrite Hsrv|]. intros x t Ht. rewrite E. destruct (decide (x = b)) as [->|Hne].
    + exists s'. rewrite list_lookup_insert_eq by (by eapply lookup_lt_Some). split; [done|].
      rewrite Hs in Ht. injection Ht as <-. apply (f_equal length) in En. unfold Nodes in En. rewrite length_app, !length_map in En. split; [lia|done].
    + exists t. rewrite list_lookup_insert_ne by done. by split; [|split].
  - rewrite Hsrv. apply (si_updates _ Hst).
Qed.

Lemma AddConfig_ok st c :
  sys_inv L st ->
  exists ok lost p', AddConfig range LookupHost c (sys_pool st) = Some (ok, p') /\ sys_inv (lost ++ L) (mk_system p' (users st) (updates st)) /\
    (Forall (fun h => host_unique range LookupHost (GetNetNetwork c) (GetUnixNetwork c) h.2) (c_Hosts c) -> lost = []).
Proof.
  intros Hst. unfold AddConfig. destruct (getService_ok st (c_Service c) (GetRetries c) Hst) as (srv & p1 & -> & Hk & H1).
  destruct (service_sb _ _ _ H1 Hk) as (s & Hs & _). simpl in Hk, Hs. rewrite Hs. cbn [mbind option_bind].
  case_match; [by eexists _, [], _|]. set (s' := mk_service _ _ _ _ _). set (srv' := mk_srv _ _ _).
  pose proof (settings_ok _ (c_Service c) srv s srv' s' H1 Hk Hs eq_refl eq_refl eq_refl) as H2. simpl in H2.
  change (NetNetwork srv') with (GetNetNetwork c). change (UnixNetwork srv') with (GetUnixNetwork c).
  change (srv_sb srv') with (srv_sb srv).
  match type of H2 with sys_inv L (mk_system ?q _ _) => set (p2 := q) in * end.
  assert (sbs p2 !! srv_sb srv = Some s') as Hs2 by (simpl; apply list_lookup_insert_eq; by eapply lookup_lt_Some).
  destruct (populate_ok range Hrange LookupHost (srv_sb srv) (GetNetNetwork c) (GetUnixNetwork c) (range _ (c_Hosts c)) p2 _ _ (si_inv _ H2))
    as (ok & ns & lost & p3 & -> & Hi3 & He & Hl); [by eexists|]. cbn [mbind option_bind].
  destruct (ex_sb _ _ _ _ He _ Hs2) as (s3 & E3 & _).
  assert (sbs p3 !! srv_sb srv = Some s3) as -> by (rewrite E3; apply list_lookup_insert_eq; by eapply lookup_lt_Some).
  cbn [mbind option_bind]. eexists _, lost, p3. split; [done|]. split; [|rewrite Hrange in Hl; exact Hl].
  apply (extend_ok lost _ p3 (srv_sb srv) ns H2); [|done|done]. apply (live_current _ (c_Service c) srv'). simpl. apply lookup_insert_eq.
Qed.

Lemma AddSingle_ok st name netw addr retries :
  sys_inv L st ->
  exists p', AddSingle name netw addr retries (sys_pool st) = Some p' /\ sys_inv L (mk_system p' (users st) (updates st)).
Proof.
  intros Hst. unfold AddSingle. destruct (getService_ok st name retries Hst) as (srv & p1 & -> & Hk & H1).
  destruct (service_sb _ _ _ H1 Hk) as (s & Hs & _).
  destruct (addPorts_ok (srv_sb srv) [] 1 [([], [mk_port (bytes "port") netw addr])] p1 _ _ (si_inv _ H1))
    as (ns & lost & p2 & -> & Hi2 & He & Hl); [by eexists|].
  rewrite Hl in Hi2.
  2: { constructor; [|constructor]. simpl. apply NoDup_singleton. }
  exists p2. split; [done|]. apply (extend_ok [] _ p2 (srv_sb srv) ns H1); [|done|done]. by eapply live_current.
Qed.

Lemma exec_update_ok st name srv hosts :
  sys_inv L st -> services (sys_pool st) !! name = Some srv ->
  exists b ok lost p' s, update_populate range LookupHost srv hosts (sys_pool st) = Some (b, ok, p') /\ sbs p' !! b = Some s /\
    sys_inv (lost ++ L) (mk_system p' (users st)
      (updates st ++ [if negb ok then Failed b else if (0 <? Len s)%nat then Prepared name b else Releasing []])) /\
    (Forall (fun h => host_unique range LookupHost (NetNetwork srv) (UnixNetwork srv) h.2) hosts -> lost = []).
Proof.
  intros Hst Hk. destruct (service_sb _ _ _ Hst Hk) as (s0 & Hs0 & _). unfold update_populate. rewrite Hs0.
  cbn [mbind option_bind]. set (b := length (sbs (sys_pool st))). set (s1 := mk_service _ _ _ _ []).
  set (p1 := set_sbs _ (sys_pool st)). set (st1 := mk_system p1 (users st) (updates st ++ [Prepared name b])).
  assert (sbs p1 !! b = Some s1) as Hs1 by (simpl; by apply list_lookup_middle).
  destruct (si_live _ Hst) as [Hnd Hlt].
  assert (live st1 ≡ₚ b :: live st) as Hl1.
  { unfold live. simpl. rewrite map_app, concat_app. simpl.
    rewrite (app_assoc (current _)), (Permutation_app_comm _ [b]). done. }
  assert (sb_nodes p1 b = []) as Hb0 by (unfold sb_nodes; by rewrite Hs1).
  assert (sys_inv L st1) as H1.
  { apply (pool_step L st p1 _ Hst); fold st1; try done.
    - eapply inv_perm; [done| |eapply inv_same; [..|apply (si_inv _ Hst)]; done].
      unfold node_refs. rewrite Hl1. simpl. rewrite map_app, concat_app. simpl. rewrite app_nil_r.
      unfold sb_bag at 2. simpl. rewrite Hb0. simpl. fold (sb_bag p1 (live st)). rewrite (sb_bag_same (sys_pool st) p1); [done|].
      intros x Hx. unfold sb_nodes. simpl. rewrite lookup_app_l; [done|]. rewrite list.Forall_forall in Hlt. by apply Hlt.
    - rewrite Hl1. constructor; [|done]. intros Hin. rewrite list.Forall_forall in Hlt. specialize (Hlt _ Hin). simpl in Hlt. unfold b in Hlt. lia.
    - rewrite Hl1. simpl. rewrite length_app. simpl. constructor; [unfold b; lia|]. eapply Forall_impl; [exact Hlt|]. simpl. lia.
    - split; [done|]. intros x t Ht. exists t. split; [simpl; by apply lookup_app_l_Some|]. by split; [lia|].
    - apply Forall_app. split; [apply (si_updates _ Hst)|]. constructor; [by eexists|done]. }
  destruct (populate_ok range Hrange LookupHost b (NetNetwork srv) (UnixNetwork srv) (range _ hosts) p1 _ _ (si_inv _ H1))
    as (ok & ns & lost & p2 & -> & Hi2 & He & Hl); [by eexists|]. cbn [mbind option_bind].
  destruct (ex_sb _ _ _ _ He _ Hs1) as (s2 & E2 & En & _).
  assert (sbs p2 !! b = Some s2) as Hs2 by (rewrite E2; apply list_lookup_insert_eq; by eapply lookup_lt_Some).
  exists b, ok, lost, p2, s2. split; [done|]. split; [done|]. split; [|rewrite Hrange in Hl; exact Hl].
  assert (sys_inv (lost ++ L) (mk_system p2 (users st) (updates st ++ [Prepared name b]))) as H2.
  { apply (extend_ok lost st1 p2 b ns H1); [|done|done]. rewrite Hl1. left. }
  apply (finish_update _ (updates st) (Prepared name b) _ H2 eq_refl); destruct ok; simpl; try (by left); try done.
  - destruct (Nat.ltb_spec 0 (Len s2)) as [Hlt2|Hle]; [by left|right]. split; [done|]. unfold sb_bag. simpl.
    unfold sb_nodes. rewrite Hs2, app_nil_r. unfold Len in Hle. unfold Nodes. by destruct (nodes s2); [|simpl in Hle; lia].
  - by destruct (0 <? Len s2)%nat.
  - destruct (0 <? Len s2)%nat; [|done]. rewrite (ex_services _ _ _ _ He). by eexists.
Qed.

End Added.

(** * Safety *)

(** What the callers of the pool keep to: a connection that was put back is not reset,
    which PutReset does. *)
Definition allowed (st : system) (ev : event) : Prop :=
  match ev with
  | EReset i => forall c, users st !! i = Some (c, User) -> closed c = true -> connset c = None
  | _ => True
  end.

(** The assumption of the source on configurations: the ports of an address have
    different keys. *)
Definition unique (st : system) (ev : event) : Prop :=
  match ev with
  | EConfig c => Forall (fun h => host_unique range LookupHost (GetNetNetwork c) (GetUnixNetwork c) h.2) (c_Hosts c)
  | EUpdate name hosts => forall srv, services (sys_pool st) !! name = Some srv ->
      Forall (fun h => host_unique range LookupHost (NetNetwork srv) (UnixNetwork srv) h.2) hosts
  | _ => True
  end.

(** The states that can be reached; with [u] by configurations whose ports are unique. *)
Inductive reach : bool -> system -> Prop :=
| reach_init : reach true init
| reach_step u u' st ev st' : reach u st -> allowed st ev -> exec ev st = Some st' -> (u' = true -> u = true /\ unique st ev) -> reach u' st'.

Lemma init_ok : sys_inv [] init.
Proof.
  assert (node_refs init = []) as En by done.
  split; simpl; [|split; constructor|constructor|constructor|split; constructor].
  rewrite En. split; simpl; [done| |done| |done]; intros x Hx; by apply elem_of_nil in Hx.
Qed.

Lemma exec_new_ok L st name key remote :
  sys_inv L st ->
  match NewConn_start name key remote (sys_pool st) with
  | None => True
  | Some c => sys_inv L (mk_system (sys_pool st) (users st ++ [(c, Finding Start false)]) (updates st))
  end.
Proof.
  intros [Hi Hl Hu Hup Hf]. unfold NewConn_start. destruct (services (sys_pool st) !! name) as [srv|] eqn:E; [|done].
  cbn [mbind option_bind]. set (c := mk_conn _ _ _ _ _ _ _ _ _ _ _ _). split; simpl; [|done| |done|].
  - eapply inv_perm; [| |exact Hi].
    + unfold cset_refs. simpl. rewrite map_app, concat_app. by rewrite app_nil_r.
    + unfold node_refs. simpl. rewrite map_app, concat_app. simpl. by rewrite app_nil_r.
  - apply Forall_app. split; [done|]. constructor; [|done]. split; [simpl; by rewrite E|]. split; [simpl; lia|].
    split; [done|]. simpl. split; [split; by intros []|]. split; [by intros []|done].
  - unfold held. simpl. rewrite map_app, concat_app. simpl. by rewrite app_nil_r.
Qed.

Lemma exec_ok L st ev : sys_inv L st -> allowed st ev ->
  exists lost st', exec ev st = Some st' /\ sys_inv (lost ++ L) st' /\ (unique st ev -> lost = []).
Proof.
  intros Hst Ha. destruct ev; simpl in *; unfold exec_user;
    try (destruct (users st !! i) as [[c pl]|] eqn:Hu; [|by exists [], st]; destruct pl as [|status' failed|failed|failed];
         try (by exists [], st)).
  - destruct (AddConfig_ok st c Hst) as (ok & lost & p' & -> & H). simpl. by exists lost; eexists.
  - destruct (AddSingle_ok st name netw addr retries Hst) as (p' & -> & H). simpl. by exists []; eexists.
  - pose proof (exec_new_ok L st name key remoteAddr Hst) as H. destruct (NewConn_start _ _ _ _); by exists []; eexists.
  - exists []. eexists. split; [done|]. split; [by apply exec_start_ok|done].
  - exists []. eexists. split; [done|]. split; [|done]. apply exec_reset_ok; [done|done|]. by apply Ha.
  - destruct (exec_find_ok st i c status' failed random Hst Hu) as (r & pl & c' & p' & -> & H). simpl. by exists []; eexists.
  - destruct (exec_take_ok st i c failed dead Hst Hu) as (r & pl & c' & p' & -> & H). simpl. by exists []; eexists.
  - pose proof (exec_dial_ok st i c failed connects Hst Hu) as H. destruct (get_dial _ _ _) as [[[r pl] c'] p']. by exists []; eexists.
  - destruct (exec_close_ok st i c Hst Hu) as (c' & p' & -> & H). simpl. by exists []; eexists.
  - destruct (exec_put_ok st i c Hst Hu) as (c' & p' & -> & H). simpl. by exists []; eexists.
  - destruct (services (sys_pool st) !! name) as [srv|] eqn:E; [|by exists [], st].
    destruct (exec_update_ok st name srv hosts Hst E) as (b & ok & lost & p' & s & -> & Hs & H & Hl). cbn [mbind option_bind].
    rewrite Hs. simpl. exists lost. eexists. split; [done|]. split; [done|]. intros Hu. apply Hl, Hu. done.
  - destruct (updates st !! j) as [[name b| |]|] eqn:Hj; try by exists [], st.
    destruct (exec_swap_ok st j name b Hst Hj) as (ns & p' & -> & H). simpl. by exists []; eexists.
  - destruct (updates st !! j) as [[| [|n ns]|]|] eqn:Hj; try by exists [], st.
    destruct (exec_release_ok st j n ns Hst Hj) as (p' & -> & H). simpl. by exists []; eexists.
Qed.

Lemma reach_ok u st : reach u st -> exists L, sys_inv L st /\ (u = true -> L = []).
Proof.
  induction 1 as [|u u' st ev st' _ IH Ha E Hu]; [exists []; split; [apply init_ok|done]|]. destruct IH as (L & HL & H0).
  destruct (exec_ok L st ev HL Ha) as (lost & st1 & E1 & H & Hl). exists (lost ++ L). split; [congruence|].
  intros [-> Hq]%Hu. by rewrite Hl, H0.
Qed.

(** The nodes of the balancers of updates that ended with an error, which nothing releases. *)
Definition failed_sbs (u : update) : list nat := match u with Failed b => [b] | _ => [] end.
Definition leaked (st : system) : list nat := sb_bag (sys_pool st) (concat (map failed_sbs (updates st))).

(** The holders of nodes: the balancers of the services and of updates under way, the
    users' connections and the updates that release the nodes they replaced. *)
Definition prepared_sbs (u : update) : list nat := match u with Prepared _ b => [b] | _ => [] end.
Definition node_holders (st : system) : list nat :=
  sb_bag (sys_pool st) (current (sys_pool st) ++ concat (map prepared_sbs (updates st))) ++
  concat (map user_nodes (users st)) ++ concat (map update_nodes (updates st)).

Lemma node_refs_split st : node_refs st ≡ₚ leaked st ++ node_holders st.
Proof.
  assert (concat (map update_sbs (updates st)) ≡ₚ concat (map failed_sbs (updates st)) ++ concat (map prepared_sbs (updates st))) as E.
  { induction (updates st) as [|[] l IH]; simpl; [done|rewrite IH; by rewrite Permutation_middle|done|by rewrite IH]. }
  unfold node_refs, leaked, node_holders, live. rewrite (app_assoc (sb_bag _ (concat _))). apply Permutation_app_tail. rewrite E.
  unfold sb_bag. rewrite !map_app, !concat_app. by rewrite Permutation_app_swap_app.
Qed.


(** * get returns *)

(** A connection that looks for a set of a service, which holds its nodes. *)
Definition ready p (c : @conn G) C N : Prop :=
  conn_inv p c C N /\ exists srv s, services p !! service c = Some srv /\ sbs p !! srv_sb srv = Some s /\ (forall n, n ∈ Nodes s -> n ∈ N).

Lemma ready_moves p p' (c c' : @conn G) C N :
  ready p c C N -> moves p p' -> conn_inv p' c' C N -> service c' = service c -> ready p' c' C N.
Proof.
  intros [_ (srv & s & Hk & Hs & Hn)] Hm Hci Es. split; [done|]. destruct (mv_sbs _ _ Hm _ _ Hs) as (s' & Hs' & E & _).
  exists srv, s'. rewrite (mv_services _ _ Hm), Es, E. done.
Qed.

Lemma measure_same p p' (c c' : @conn G) :
  sbs p' = sbs p -> sb c' = sb c -> sbconn c' = sbconn c -> sb_len c' = sb_len c -> portKey c' = portKey c -> portKeyIdx c' = portKeyIdx c ->
  measure p' c' = measure p c.
Proof. intros E1 E2 E3 E4 E5 E6. unfold measure, left_, turns. by rewrite E1, E2, E3, E4, E5, E6. Qed.

Definition uses_current p (c : @conn G) : Prop := forall srv, services p !! service c = Some srv -> sb c = Some (srv_sb srv).

(** After a set was found: it has a connection, or dialling succeeds, or the loop goes on
    with a new status; one dial is made at most. *)
Lemma after_find p c C N failed random dead dials fuel :
  ready p c C N -> is_Some (connset c) -> uses_current p c ->
  (exists r, forall dials', take 1 dials' = take 1 dials -> get_loop (S (S fuel)) (Taking failed) c random dead dials' p = Some r) \/
  exists c' p', (forall dials', take 1 dials' = take 1 dials -> get_loop (S (S fuel)) (Taking failed) c random dead dials' p =
      get_loop fuel (Finding Fail_ true) c' random dead (tail dials') p') /\
    ready p' c' C N /\ uses_current p' c' /\ newConnect c' = true /\ measure p' c' = measure p c.
Proof.
  intros [Hci (srv & s & Hk & Hs & Hn)] Hcs Hcur. cbn [get_loop].
  destruct (get_take_ok p c C N failed dead Hci Hcs) as (r & pl & c1 & p1 & -> & Hci1 & (Sp1 & Sp2 & Sp3 & Sp4) & Hu & Ex & Ek & Ecs & _ & Hr).
  cbn [mbind option_bind]. destruct r as [a|]; [left; by eexists|]. destruct Hr as (-> & Enew & _ & _).
  assert (forall dials' : list bool, take 1 dials' = take 1 dials -> head dials' = head dials) as Hd.
  { intros [|x l]; destruct dials; simpl; intros; by simplify_eq. }
  unfold get_dial. destruct (default false (head dials)) eqn:Ed; [left; eexists; intros dials' ->%Hd; by rewrite Ed|]. right.
  set (c2 := set_conn None (closed c1) c1). exists c2, p1. split; [intros dials' ->%Hd; by rewrite Ed|].
  destruct Hu as (U1 & U2 & U3 & U4 & U5 & U6 & U7 & U8). simpl in U1, U2, U3, U4, U5.
  split; [|split; [|split; [done|by apply measure_same]]].
  - split; [by destruct Hci1; split|]. exists srv, s. simpl. by rewrite Sp1, Sp2, U3.
  - intros srv' Hs'. simpl in *. rewrite U4. apply Hcur. by rewrite <- U3, <- Sp1.
Qed.

Lemma find_step p c C N status failed random :
  ready p c C N ->
  (exists a pl c' p', get_find c status failed random p = Some (Some a, pl, c', p')) \/
  exists c' p', get_find c status failed random p = Some (None, Taking failed, c', p') /\
    ready p' c' C N /\ is_Some (connset c') /\ uses_current p' c' /\ moves p p' /\ same_owner c c' /\
    (uses_current p c -> newConnect c = true -> (measure p' c' < measure p c)%nat /\ newConnect c' = true).
Proof.
  intros Hr. pose proof Hr as [Hci (srv & s & Hk & Hs & Hn)]. unfold get_find.
  destruct (findConnset_ok p c C N status random srv s Hci Hk Hs Hn) as (st' & c' & p' & -> & Hci' & Hm & (U1 & U2 & U3 & U4) & Esb & Hmeas).
  cbn [mbind option_bind]. destruct (connset c') as [id|] eqn:Ecs; [right|left; by eexists _, _, _, _].
  exists c', p'. split; [done|]. split; [by eapply ready_moves|]. split; [by eexists|]. split; [|split; [done|split; [done|]]].
  - intros srv' Hs'. rewrite (mv_services _ _ Hm), U2 in Hs'. congruence.
  - intros Hcur Hnew. apply Hmeas; [by apply Hcur|done|by eexists].
Qed.

Lemma get_loop_find fuel status failed (c : @conn G) random dead dials p :
  get_loop (S fuel) (Finding status failed) c random dead dials p =
  match get_find c status failed random p with
  | None => None
  | Some (Some a, _, c, p) => Some (a, c, p)
  | Some (None, pl, c, p) => get_loop fuel pl c random dead dials p
  end.
Proof. cbn [get_loop]. by destruct (get_find _ _ _ _ _) as [[[[[|] ?] ?] ?]|]. Qed.

Lemma get_loop_mono fuel : forall fuel' pl (c : @conn G) random dead dials p r, (fuel <= fuel')%nat ->
  get_loop fuel pl c random dead dials p = Some r -> get_loop fuel' pl c random dead dials p = Some r.
Proof.
  induction fuel as [|fuel IH]; intros [|fuel'] pl c random dead dials p r Hle; [done|done|lia|]. cbn [get_loop].
  destruct pl as [|status failed|failed|failed]; [done|..].
  - destruct (get_find _ _ _ _ _) as [[[[[a|] pl] c1] p1]|]; cbn [mbind option_bind]; [done| |done]. apply IH. lia.
  - destruct (get_take _ _ _ _) as [[[[[a|] pl] c1] p1]|]; cbn [mbind option_bind]; [done| |done]. apply IH. lia.
  - destruct (get_dial _ _ _) as [[[[a|] pl] c1] p1]; [done|]. apply IH. lia.
Qed.

Lemma take_dials (l l' : list bool) m : take (S m) l' = take (S m) l -> take 1 l' = take 1 l /\ take m (tail l') = take m (tail l).
Proof. destruct l, l'; simpl; intros; by simplify_eq. Qed.

Lemma get_loop_returns m : forall p c C N failed random dead dials fuel,
  ready p c C N -> uses_current p c -> newConnect c = true -> (measure p c <= m)%nat -> (3 * m + 3 <= fuel)%nat ->
  exists r, forall dials', take m dials' = take m dials -> get_loop fuel (Finding Fail_ failed) c random dead dials' p = Some r.
Proof.
  induction m as [|m IH]; intros p c C N failed random dead dials fuel Hr Hcur Hnew Hm Hf;
    do 3 (destruct fuel as [|fuel]; [lia|]); setoid_rewrite get_loop_find;
    (destruct (find_step p c C N Fail_ failed random Hr) as [(a & pl & c1 & p1 & E)|(c1 & p1 & E & Hr1 & Hcs & Hcur1 & _ & _ & Hd)];
      rewrite E; [by eexists|]); destruct (Hd Hcur Hnew) as [Hlt Hnew1]; [lia|].
  destruct (after_find p1 c1 C N failed random dead dials fuel Hr1 Hcs Hcur1) as [[r H]|(c2 & p2 & H & Hr2 & Hcur2 & Hnew2 & Em)].
  { exists r. intros dials' [Hd1 _]%take_dials. by apply H. }
  destruct (IH p2 c2 C N true random dead (tail dials) fuel) as [r Hret]; [done|done|done|lia|lia|].
  exists r. intros dials' [Hd1 Hd2]%take_dials. rewrite (H _ Hd1). by apply Hret.
Qed.

(** C11: get returns.  Whatever the stored connections and the dial function answer, a user
    that looks for a connection gets one, or is told that there is none, if nothing else
    happens meanwhile.  With the nodes and the retries that the balancer of the service now
    has, every node is tried once and once for every retry, and besides the node picked first
    and the one the connection had, for every port key: so many dials are made at most,
    for the answer does not depend on what later ones would give, and three steps for
    each suffice. *)
Theorem gopool_get_returns u st i c status failed random dead dials :
  reach u st -> users st !! i = Some (c, Finding status failed) ->
  exists srv s, services (sys_pool st) !! service c = Some srv /\ sbs (sys_pool st) !! srv_sb srv = Some s /\
    let d := ((2 + S (Z.to_nat (Retries s)) * Len s) * length (portKey c))%nat in
    exists r, forall fuel dials', (3 * d + 3 <= fuel)%nat -> take d dials' = take d dials ->
      get_loop fuel (Finding status failed) c random dead dials' (sys_pool st) = Some r.
Proof.
  intros (L & Hst & _)%reach_ok Hu. destruct (user_ok_at _ _ _ _ Hst Hu) as ([srv Hsrv] & _ & _ & Hok).
  destruct (closed c) eqn:Hc; [by destruct Hok|]. destruct (service_sb _ _ _ Hst Hsrv) as (s & Hs & Hheld).
  exists srv, s. split; [done|]. split; [done|]. intros d.
  assert (ready (sys_pool st) c (other_csets (L := L) st i) (other_nodes st i)) as Hr.
  { split; [by eapply user_conn_inv|]. exists srv, s. split; [done|]. split; [done|]. intros n. apply Hheld. }
  assert (exists r, forall dials', take d dials' = take d dials ->
    get_loop (3 * d + 3) (Finding status failed) c random dead dials' (sys_pool st) = Some r) as [r Hret].
  2: { exists r. intros fuel dials' Hf Hd. eapply get_loop_mono; [exact Hf|by apply Hret]. }
  assert (3 * d + 3 = S (3 * d + 2))%nat as -> by lia. setoid_rewrite get_loop_find.
  destruct (find_step _ _ _ _ status failed random Hr) as [(a & pl & c1 & p1 & ->)|(c1 & p1 & -> & Hr1 & Hcs & Hcur1 & Hm & (Ek & Es & _) & _)];
    [by eexists|].
  destruct (mv_sbs _ _ Hm _ _ Hs) as (s1 & Hs1 & Hsame).
  assert (S (measure p1 c1) <= d)%nat as Hd.
  { assert (d = S (rounds_of s1) * length (portKey c1))%nat as ->.
    { subst d. unfold rounds_of, Len. rewrite Ek, (length_same _ _ Hsame). destruct Hsame as (_ & _ & ->). done. }
    apply (measure_bound p1 c1 (other_csets (L := L) st i) (other_nodes st i) (srv_sb srv)); [apply Hr1|done| |done].
    apply Hcur1. by rewrite (mv_services _ _ Hm), Es. }
  destruct d as [|d]; [lia|]. assert (3 * S d + 2 = S (S (3 * d + 3)))%nat as -> by lia.
  destruct (after_find _ _ _ _ failed random dead dials (3 * d + 3) Hr1 Hcs Hcur1) as [[r H]|(c2 & p2 & H & Hr2 & Hcur2 & Hnew2 & Em)].
  { exists r. intros dials' [Hd1 _]%take_dials. by apply H. }
  destruct (get_loop_returns d p2 c2 _ _ true random dead (tail dials) (3 * d + 3) Hr2 Hcur2 Hnew2) as [r Hret]; [lia|lia|].
  exists r. intros dials' [Hd1 Hd2]%take_dials. rewrite (H _ Hd1). by apply Hret.
Qed.
End System.
