(* ===== verification/GoPoolExamples.v ===== *)
(** GoPoolExamples: runs of [GoPool], the witnesses of its theorems and what goes
    wrong in it. *)
From stdpp Require Import prelude list numbers option gmap.
From Stdlib Require Import ZArith Lia QArith.
From S2P Require Import Prelude SbalanceGo GoPool GoPoolRefs GoPoolConn GoPoolSafe.

Local Open Scope Z_scope.

Definition in_order (A : Type) (l : list A) : list A := l.

(** One name is not found. *)
Definition resolve (name : list Z) : option (list (list Z)) :=
  if bool_decide (name = bytes "bad") then None else Some [bytes "10." ++ name].

Abbreviation ex := (exec (F := Q) (G := nat) in_order resolve).
Abbreviation sys := (@system nat).

Fixpoint run (evs : list event) (st : sys) : option sys :=
  match evs with [] => Some st | ev :: evs => st ← ex ev st; run evs st end.

(** A connection to the service "s", up to its first dial. *)
Definition connect (i : nat) : list event := [EFind i []; ETake i (fun _ => false); EDial i true].

Definition single : list event := [ESingle (bytes "s") (bytes "tcp") (bytes "a:1") 1].

Definition one_user : list event := single ++ ENew (bytes "s") (bytes "port") [] :: connect 0.

Definition host (name port : String.string) : list Z * HostConfig :=
  (bytes name, mk_host (bytes name) [(bytes "port", bytes port)] 1 false).

Definition update_to (name : String.string) : list event := [EUpdate (bytes "s") [host name "80"]; ESwap 0; ERelease 0].

(** * Witnesses *)

Definition allowedb (st : sys) (ev : event) : bool :=
  match ev with
  | EReset i =>
    match users st !! i with
    | Some (c, User) => negb (closed c) || match connset c with None => true | _ => false end
    | _ => true
    end
  | _ => true
  end.

Lemma allowedb_ok (st : sys) ev : allowedb st ev = true -> allowed st ev.
Proof.
  destruct ev; simpl; try done. intros H c Hu Hc. rewrite Hu in H. simpl in H. rewrite Hc in H.
  by destruct (connset c).
Qed.

(** The events that bring no hosts. *)
Definition plain (ev : @event) : bool := match ev with EConfig _ | EUpdate _ _ => false | _ => true end.

Lemma run_reach evs : forall u (st st' : sys),
  reach in_order resolve u st -> run evs st = Some st' ->
  (fix chk evs (st : sys) := match evs with [] => true | ev :: evs =>
     allowedb st ev && match ex ev st with Some st => chk evs st | None => false end end) evs st = true ->
  reach in_order resolve (u && forallb plain evs) st'.
Proof.
  induction evs as [|ev evs IH]; intros u st st' Hr Hrun Hc; [simpl in *; simplify_eq; by rewrite andb_true_r|].
  apply andb_true_iff in Hc as [Ha Hc]. cbn [run] in Hrun. destruct (ex ev st) as [st1|] eqn:E; [|done].
  cbn [forallb]. rewrite andb_assoc. apply (IH _ st1); [|done|done].
  eapply reach_step; [exact Hr|by apply allowedb_ok|exact E|]. intros [-> Hp]%andb_true_iff. split; [done|]. by destruct ev.
Qed.

(** A user holds the connection to a node that an update replaces. *)
Definition replaced : list event := one_user ++ update_to "x".


Definition looking : sys := default init (run (single ++ [ENew (bytes "s") (bytes "port") []]) init).

(** One node and one retry: four dials at most. *)
Lemma gopool_get_returns_witness :
  exists c, users looking !! 0%nat = Some (c, Finding Start false) /\
    exists r, forall fuel dials', (15 <= fuel)%nat -> take 4 dials' = [false; true] ->
      get_loop fuel (Finding Start false) c [] (fun _ => false) dials' (sys_pool looking) = Some r.
Proof.
  assert (reach in_order resolve true looking) as Hr.
  { eapply (run_reach (single ++ [ENew (bytes "s") (bytes "port") []]) true); [apply reach_init|by vm_compute|by vm_compute]. }
  exists (mk_conn [bytes "port"] 0 None (bytes "s") None None 0 None None false false None). split; [by vm_compute|].
  destruct (gopool_get_returns in_order (fun A l => Permutation_refl l) resolve true looking 0
    (mk_conn [bytes "port"] 0 None (bytes "s") None None 0 None None false false None) Start false [] (fun _ => false) [false; true] Hr)
    as (srv & s & H1 & H2 & H3); [by vm_compute|].
  vm_compute in H1. injection H1 as <-. vm_compute in H2. injection H2 as <-. exact H3.
Defined.

(** * What goes wrong *)

(** PutReset: Put keeps the pointer to the set that it releases, so getting the next
    connection releases the set again.  The connection that was just put back is
    closed, and later, when the nodes of the service are replaced, the count is
    negative and the program panics. *)
Theorem gopool_put_reset :
  (exists st, run (one_user ++ [EPut 0; EReset 0; EFind 0 []]) init = Some st /\ closed_fds (sys_pool st) = [0%nat] /\ stored (sys_pool st) = []) /\
  run (one_user ++ [EPut 0; EReset 0] ++ connect 0 ++ [EClose 0] ++ update_to "x") init = None /\
  is_Some (run (one_user ++ [EPut 0] ++ update_to "x") init).
Proof. split; [eexists; by vm_compute|]. split; [by vm_compute|]. by eexists; vm_compute. Qed.

(** With another port key to try, PutReset reads a node that is nil. *)
Theorem gopool_put_reset_nil :
  run (single ++ ENew (bytes "s") (bytes "port,other_port") [] :: connect 0 ++ [EPut 0; EReset 0; EFind 0 []]) init = None.
Proof. by vm_compute. Qed.

(** An update for which one host is not found leaves the nodes of the others: the set of
    the first host has a reference, and no user and no service does. *)
Theorem gopool_update_leak :
  exists st, run (single ++ [EUpdate (bytes "s") [host "x" "80"; host "bad" "80"]]) init = Some st /\
    (exists b, updates st = [Failed b]) /\ cs_refs <$> csets (sys_pool st) !! 1%nat = Some 1 /\
    fn_refs <$> fnodes (sys_pool st) !! 1%nat = Some 1 /\ sb_bag (sys_pool st) (current (sys_pool st)) = [0%nat].
Proof. eexists. split; [by vm_compute|]. split; [by eexists|]. by vm_compute. Qed.

(** The cost of a node that failed stays, whatever succeeds later: nothing closes the
    connection of the balancer. *)
Theorem gopool_cost_stays :
  exists st s, run (single ++ [ENew (bytes "s") (bytes "port") []; EFind 0 []; ETake 0 (fun _ => false); EDial 0 false] ++ connect 0 ++
      [EPut 0; ENew (bytes "s") (bytes "port") []; EFind 1 []; ETake 1 (fun _ => false); EPut 1]) init = Some st /\
    sbs (sys_pool st) !! 0%nat = Some s /\ GetCosts s 0 = Some (1, 100).
Proof. eexists _, _. split; [by vm_compute|]. split; by vm_compute. Qed.

(** Reset goes on where the balancer was, so it fails when every node had its turns,
    though the connections before it succeeded. *)
Theorem gopool_reset_exhausts :
  exists st c, run (one_user ++ EReset 0 :: connect 0 ++ [EReset 0; EFind 0 []]) init = Some st /\
    users st !! 0%nat = Some (c, User) /\ closed c = true /\ Conn c = None.
Proof. eexists _, _. split; [by vm_compute|]. by vm_compute. Qed.
