(* ===== verification/SdEtcd.v ===== *)
(** SdEtcd: service discovery in Go, from etcd to messages.  The responses of etcd
    (core/internal/pkg/etcdlight), the watcher that turns them into messages for the
    connections of services (core/pkg/sd/etcd/watcher.go), the names of services
    (core/pkg/sd/sdr/service.go), and how a daemon keeps its own entry
    (core/pkg/sapp/sd.go).  What etcd answers and the decoding of JSON are arguments.
    A channel is the list of what was sent to it: a send that waits for its reader is
    not told apart. *)
From stdpp Require Import prelude list numbers option gmap.
From Stdlib Require Import ZArith Lia.
From S2P Require Import Prelude.

Local Open Scope Z_scope.

#[local] Set Warnings "-register-all".

(** * Strings *)

Fixpoint HasPrefix (s prefix : list Z) {struct prefix} : bool :=
  match prefix, s with
  | [], _ => true
  | c :: prefix, d :: s => (c =? d) && HasPrefix s prefix
  | _ :: _, [] => false
  end.

Definition TrimPrefix (s prefix : list Z) : list Z := if HasPrefix s prefix then drop (length prefix) s else s.

(** strings.Split at one byte. *)
Fixpoint Split (sep : Z) (s : list Z) : list (list Z) :=
  match s with
  | [] => [[]]
  | c :: s =>
    if c =? sep then [] :: Split sep s
    else match Split sep s with w :: ws => (c :: w) :: ws | [] => [[c]] end
  end.

Fixpoint Join (ws : list (list Z)) (sep : Z) : list Z :=
  match ws with
  | [] => []
  | [w] => w
  | w :: ws => w ++ sep :: Join ws sep
  end.

(** strings.LastIndexByte. *)
Fixpoint LastIndexByte (s : list Z) (c : Z) : option nat :=
  match s with
  | [] => None
  | d :: s =>
    match LastIndexByte s c with
    | Some i => Some (S i)
    | None => if d =? c then Some O else None
    end
  end.

(** path.Clean: empty and dot elements go, two dots take away the element before them. *)
Definition clean_step (rooted : bool) (st : list (list Z)) (w : list Z) : list (list Z) :=
  if bool_decide (w = []) || bool_decide (w = bytes ".") then st
  else if bool_decide (w = bytes "..") then
    match st with
    | [] => if rooted then [] else [w]
    | t :: r => if bool_decide (t = bytes "..") then w :: st else r
    end
  else w :: st.

Definition Clean (path : list Z) : list Z :=
  let rooted := bool_decide (head path = Some 47) in
  let out := (if rooted then [47] else []) ++ Join (reverse (foldl (clean_step rooted) [] (Split 47 path))) 47 in
  if bool_decide (out = []) then bytes "." else out.

(** path.Join. *)
Definition path_Join (a b : list Z) : list Z :=
  match filter (fun w => w ≠ []) [a; b] with [] => [] | ws => Clean (Join ws 47) end.

(** * Responses *)

Record KV := mk_kv { kv_Key : list Z; kv_Value : list Z; kv_ModifiedIndex : Z }.

Inductive responseNode :=
| rnode (Key : list Z) (Dir : bool) (Value : list Z) (Nodes : list responseNode) (ModifiedIndex : Z).

(** The loop over the bytes that both keys have. *)
Fixpoint agree (a b : list Z) : bool :=
  match a, b with c :: a, d :: b => (c =? d) && agree a b | _, _ => true end.

Fixpoint parseResponseNode (node : responseNode) (key : list Z) : Z * list KV :=
  let '(rnode k dir value nodes modified) := node in
  if negb dir then (modified, if HasPrefix k key then [mk_kv k value modified] else [])
  else if negb (agree k key) then (modified, [])
  else
    foldl (fun r n =>
      let '(maxI, kvs) := parseResponseNode n key in
      (if r.1 <? maxI then maxI else r.1, r.2 ++ kvs)) (modified, []) nodes.

Record Response := mk_response { Action : list Z; MaxIndex : Z; Values : list KV; PrevValues : list KV }.

Record jsonResponse := mk_json { j_Action : list Z; j_Node : responseNode; j_PrevNode : option responseNode }.

Record ErrorResponse := mk_error { StatusCode : Z; ErrorCode : Z; e_Message : list Z; e_Index : Z }.

Inductive error := EtcdError (e : ErrorResponse) | OtherError.

(** strconv.ParseUint of 64 bits, its error ignored. *)
Definition ParseUint (s : list Z) : Z :=
  if bool_decide (s = []) || negb (forallb isdigit s) then 0 else Z.min (digits 0 s) (2 ^ 64 - 1).

(** What the HTTP client gives: the status, the header X-Etcd-Index, and the body if it
    could be read. *)
Record http_response := mk_http { r_StatusCode : Z; X_Etcd_Index : list Z; r_Body : option (list Z) }.

Section Json.
Context (Unmarshal : list Z -> option jsonResponse) (UnmarshalError : list Z -> option (Z * list Z * Z)).

(** Both a response and an error when the body is not JSON. *)
Definition ReadResponse (resp : http_response) (key : list Z) : option Response * option error :=
  let index := ParseUint (X_Etcd_Index resp) in
  match r_Body resp with
  | None => (None, Some OtherError)
  | Some data =>
    if negb (r_StatusCode resp =? 200) && negb (r_StatusCode resp =? 201) then
      (None, Some (EtcdError
        (match UnmarshalError data with
         | Some (code, message, index) => mk_error (r_StatusCode resp) code message index
         | None => mk_error (r_StatusCode resp) 0 data 0
         end)))
    else
      match Unmarshal data with
      | None => (Some (mk_response [] index [] []), Some OtherError)
      | Some body =>
        if bool_decide (key = []) then (Some (mk_response [] index [] []), None)
        else
          let '(maxI, values) := parseResponseNode (j_Node body) key in
          let prev := match j_PrevNode body with Some n => (parseResponseNode n key).2 | None => [] end in
          (Some (mk_response (j_Action body) (if index <? maxI then maxI else index) values prev), None)
      end
  end.

(** ** A watcher of etcdlight *)

(** Next asks for [waitIndex]; [do] is the client. *)
Definition Next (do : Z -> option http_response) (key : list Z) (afterIndex : Z) : (option Response * option error) * Z :=
  match do (u64 (afterIndex + 1)) with
  | None => ((None, Some OtherError), afterIndex)
  | Some resp =>
    let '(r, err) := ReadResponse resp key in
    ((r, err), match r with Some r => if afterIndex <? MaxIndex r then MaxIndex r else afterIndex | None => afterIndex end)
  end.
End Json.

Definition IsErrorCode (err : option error) (codes : list Z) : bool :=
  match err with Some (EtcdError er) => existsb (Z.eqb (ErrorCode er)) codes | _ => false end.

(** * The watcher of services *)

Inductive MessageType := EndOfBatch | Update | Delete | Flush.

Record Message := mk_message { m_Type : MessageType; m_Index : Z; m_HostKey : list Z; m_Key : list Z; m_Value : list Z }.

(** [wc_id] is the connection's identity. *)
Record watcherConn := mk_wconn { wc_id : nat; srvpath : list Z; channel : list Message; lastIndex : Z; wc_closed : bool }.

Record Watcher := mk_watcher { Prefix : list Z; index : Z; conns : list watcherConn; gone : list watcherConn }.

Definition set_conns l (w : Watcher) := mk_watcher (Prefix w) (index w) l (gone w).
Definition set_index i (w : Watcher) := mk_watcher (Prefix w) i (conns w) (gone w).

Definition send (m : Message) (c : watcherConn) : watcherConn := mk_wconn (wc_id c) (srvpath c) (channel c ++ [m]) (lastIndex c) (wc_closed c).
Definition set_last (i : Z) (c : watcherConn) : watcherConn := mk_wconn (wc_id c) (srvpath c) (channel c) i (wc_closed c).

(** The message for a key below the path of a connection. *)
Definition message_for (path : list Z) (idx : Z) (mtype : MessageType) (key value : list Z) : Message :=
  let ukey := TrimPrefix (drop (length path) key) [47] in
  match LastIndexByte ukey 47 with
  | Some slash => mk_message mtype idx (take slash ukey) (drop (S slash) ukey) value
  | None => mk_message mtype idx ukey [] value
  end.

Definition conn_value (idx : Z) (mtype : MessageType) (key value : list Z) (c : watcherConn) : watcherConn :=
  if HasPrefix key (srvpath c) then send (message_for (srvpath c) idx mtype key value) (set_last idx c) else c.

Definition handleValue (mtype : MessageType) (key value : list Z) (w : Watcher) : Watcher :=
  set_conns (map (conn_value (index w) mtype key value) (conns w)) w.

Fixpoint handleUpdate (kvs : list KV) (w : Watcher) : Watcher :=
  match kvs with
  | [] => w
  | node :: kvs => handleUpdate kvs (if HasPrefix (kv_Key node) (Prefix w) then handleValue Update (kv_Key node) (kv_Value node) w else w)
  end.

Fixpoint handleDelete (kvs : list KV) (w : Watcher) : Watcher :=
  match kvs with
  | [] => w
  | node :: kvs => handleDelete kvs (if HasPrefix (kv_Key node) (Prefix w) then handleValue Delete (kv_Key node) [] w else w)
  end.

Definition note (m : MessageType) (idx : Z) : Message := mk_message m idx [] [] [].

Definition handleResponse (rsp : Response) (flush : bool) (w : Watcher) : Watcher :=
  let w := if index w =? 0 then set_index (MaxIndex rsp) w else w in
  let w := if flush then set_conns (map (fun c => send (note Flush (index w)) (set_last (index w) c)) (conns w)) w else w in
  let w :=
    if existsb (fun a => bool_decide (Action rsp = a)) [bytes "get"; bytes "update"; bytes "create"; bytes "set"] then handleUpdate (Values rsp) w
    else if existsb (fun a => bool_decide (Action rsp = a)) [bytes "expire"; bytes "delete"] then handleDelete (Values rsp) w
    else w in
  set_conns (map (fun c => if lastIndex c =? index w then send (note EndOfBatch (index w)) c else c) (conns w)) w.

(** ** Commands *)

(** The answer to a GET: a response, an error of etcd, an error of the network that is
    temporary or of TLS, the end of the time for the request, or another error. *)
Inductive get_answer :=
| GotResponse (rsp : Response)
| GotError (e : ErrorResponse)
| GotNetwork (tls : bool)
| GotDeadline
| GotUnknown.

(** Each turn has an answer, and whether the caller's context is done before the next. *)
Fixpoint get_retry (answers : list (get_answer * bool)) (w : Watcher) : option (bool * option Response * Watcher) :=
  match answers with
  | [] => None
  | (a, done) :: answers =>
    let retry w := if done : bool then Some (false, None, w) else get_retry answers w in
    match a with
    | GotResponse rsp => Some (true, Some rsp, w)
    | GotError e =>
      let w' := if index w =? 0 then set_index (e_Index e) w else w in
      if ErrorCode e =? 100 then Some (true, None, w')
      else if ErrorCode e =? 110 then Some (false, None, w')
      else retry w'
    | GotNetwork tls => if tls then Some (false, None, w) else retry w
    | GotDeadline => retry w
    | GotUnknown => Some (false, None, w)
    end
  end.

(** [id] is the identity of the new connection; the result says whether there is one. *)
Definition doAddService (service : list Z) (id : nat) (answers : list (get_answer * bool)) (w : Watcher) : option (bool * Watcher) :=
  let srvpath := path_Join (Prefix w) service in
  '(ok, rsp, w) ← get_retry answers w;
  let w := if ok : bool then set_conns (conns w ++ [mk_wconn id srvpath [] 0 false]) w else w in
  Some (ok, match rsp with Some rsp => handleResponse rsp false w | None => w end).

(** The first connection with the identity goes, with its channel closed. *)
Fixpoint remove_conn (id : nat) (l : list watcherConn) : option (watcherConn * list watcherConn) :=
  match l with
  | [] => None
  | c :: l =>
    if (wc_id c =? id)%nat then Some (c, l)
    else '(x, l) ← remove_conn id l; Some (x, c :: l)
  end.

Definition doRemoveService (id : nat) (w : Watcher) : Watcher :=
  match remove_conn id (conns w) with
  | None => w
  | Some (c, l) => mk_watcher (Prefix w) (index w) l (mk_wconn (wc_id c) (srvpath c) (channel c) (lastIndex c) true :: gone w)
  end.

(** ** The loop *)

(** [watches] are the indexes after which the running watches wait.  A watch that was
    cancelled runs until it has answered or failed: its answer is read like any other. *)
Record loop_state := mk_loop { l_watcher : Watcher; watches : list Z; ended : bool }.

(** The head of the loop starts a watch when there are connections. *)
Definition loop_head (w : Watcher) (ws : list Z) : loop_state :=
  mk_loop w (if (0 <? length (conns w))%nat then ws ++ [index w] else ws) false.

Inductive loop_event :=
| Add (service : list Z) (id : nat) (answers : list (get_answer * bool))
| Remove (id : nat)
| CloseWatcher
| Watched (i : nat) (rsp : Response)
| WatchFailed (i : nat).

(** Only a command or an answer starts the loop anew. *)
Definition loop_step (s : loop_state) (ev : loop_event) : option loop_state :=
  if ended s then None
  else
    match ev with
    | Add service id answers => '(_, w) ← doAddService service id answers (l_watcher s); Some (loop_head w (watches s))
    | Remove id => Some (loop_head (doRemoveService id (l_watcher s)) (watches s))
    | CloseWatcher => Some (mk_loop (l_watcher s) (watches s) true)
    | Watched i rsp => _ ← watches s !! i; Some (loop_head (handleResponse rsp false (l_watcher s)) (delete i (watches s)))
    | WatchFailed i => _ ← watches s !! i; Some (mk_loop (l_watcher s) (delete i (watches s)) false)
    end.

(** * The names of services *)

Definition ServiceToHost (service domain : list Z) : list Z :=
  let domain := match domain with c :: _ => if c =? 46 then domain else 46 :: domain | [] => [] end in
  Join (reverse (Split 47 service)) 46 ++ domain.

Definition HasSuffix (s suffix : list Z) : bool := HasPrefix (reverse s) (reverse suffix).

Definition TrimSuffix (s suffix : list Z) : list Z := if HasSuffix s suffix then take (length s - length suffix) s else s.

Definition HostToService (host domain : list Z) : list Z :=
  if negb (HasSuffix host domain) then host
  else Join (reverse (Split 46 (TrimSuffix (take (length host - length domain) host) [46]))) 47.

(** * The entry of a daemon *)

Inductive request :=
| RefreshDir (dir : list Z)
| MkDir (dir : list Z)
| SetKey (key value : list Z) (exclusive : bool)
| GetKey (key : list Z)
| RmDir (dir : list Z).

(** What the documentation of etcd says of its values: [value] is the value of a key. *)
Class Etcd (St : Type) := {
  ask : St -> request -> St * (option Response * option error);
  value : St -> list Z -> option (list Z);
  ask_set st k v ex st' r err : ask st (SetKey k v ex) = (st', (r, err)) ->
    (forall k', k' ≠ k -> value st' k' = value st k') /\
    match err with
    | None => value st' k = Some v
    | Some _ => value st' k = value st k /\ (IsErrorCode err [105] = true -> is_Some (value st k))
    end;
  ask_other st q st' a : (forall k v ex, q ≠ SetKey k v ex) -> (forall d, q ≠ RmDir d) -> ask st q = (st', a) ->
    forall k, value st' k = value st k;
  ask_rmdir st d st' r : ask st (RmDir d) = (st', (r, None)) ->
    forall k, value st' k = if HasPrefix k (d ++ [47]) then None else value st k;
}.

Section Register.
Context {St : Type} `{!Etcd St}.

(** Whether the health has to be written, from the answer to a GET of it.  [None] is an
    index out of range. *)
Definition health_differs (resp : option Response) (health : list Z) : option bool :=
  match resp with
  | None => Some true
  | Some r =>
    if (length (Values r) =? 1)%nat then Some true
    else kv ← Values r !! O; Some (negb (bool_decide (kv_Value kv = health)))
  end.

Definition registerService (service hostkey health prevHealth config prevConfig : list Z) (st : St) : option St :=
  let dir := service ++ [47] ++ hostkey in
  let '(st, (_, err)) := ask st (RefreshDir dir) in
  let '(st, (err, newdir)) :=
    if IsErrorCode err [100] then let '(st, (_, err)) := ask st (MkDir dir) in (st, (err, true)) else (st, (err, false)) in
  let newdir := match err with Some _ => true | None => newdir end in
  let exclusive := negb newdir && bool_decide (config = prevConfig) in
  let '(st, _) := ask st (SetKey (dir ++ bytes "/config") config exclusive) in
  if bool_decide (health = []) then Some st
  else
    let newval := newdir || negb (bool_decide (health = prevHealth)) in
    '(st, newval) ←
      (if newval then Some (st, true)
       else
         let '(st, (resp, _)) := ask st (GetKey (dir ++ bytes "/health")) in
         b ← health_differs resp health; Some (st, b));
    Some (if newval : bool then (ask st (SetKey (dir ++ bytes "/health") health false)).1 else st).

Definition unregisterService (service hostkey : list Z) (st : St) : St :=
  (ask st (RmDir (service ++ [47] ++ hostkey))).1.
End Register.

(** * Strings *)

Lemma HasPrefix_app p r : HasPrefix (p ++ r) p = true.
Proof. induction p as [|c p IH]; simpl; [done|]. by rewrite Z.eqb_refl, IH. Qed.

Lemma HasPrefix_inv s p : HasPrefix s p = true -> exists r, s = p ++ r.
Proof.
  revert s. induction p as [|c p IH]; intros s H; [by exists s|]. destruct s as [|d s]; [done|].
  simpl in H. apply andb_true_iff in H as [->%Z.eqb_eq H]. apply IH in H as [r ->]. by exists r.
Qed.

Lemma HasPrefix_trans a b c : HasPrefix a b = true -> HasPrefix b c = true -> HasPrefix a c = true.
Proof. intros [r ->]%HasPrefix_inv [q ->]%HasPrefix_inv. rewrite <- app_assoc. apply HasPrefix_app. Qed.

Lemma TrimPrefix_slash r : TrimPrefix (47 :: r) [47] = r.
Proof. unfold TrimPrefix. by simpl. Qed.

Lemma LastIndexByte_none s c : (c ∉ s) -> LastIndexByte s c = None.
Proof.
  induction s as [|d s IH]; intros H; [done|]. simpl. apply not_elem_of_cons in H as [H1 H2].
  rewrite IH by done. destruct (Z.eqb_spec d c); congruence.
Qed.

Lemma LastIndexByte_last a c b : (c ∉ b) -> LastIndexByte (a ++ c :: b) c = Some (length a).
Proof.
  intros H. induction a as [|d a IH]; simpl; [by rewrite LastIndexByte_none, Z.eqb_refl|]. by rewrite IH.
Qed.

Lemma Split_nonempty sep s : Split sep s ≠ [].
Proof. destruct s as [|c s]; simpl; [done|]. destruct (c =? sep); [done|]. by destruct (Split sep s). Qed.

Lemma Split_none sep w : (sep ∉ w) -> Split sep w = [w].
Proof.
  induction w as [|c w IH]; intros H; [done|]. apply not_elem_of_cons in H as [H1 H2]. simpl.
  rewrite IH by done. destruct (Z.eqb_spec c sep); congruence.
Qed.

Lemma Split_cons sep w s : (sep ∉ w) -> Split sep (w ++ sep :: s) = w :: Split sep s.
Proof.
  induction w as [|c w IH]; intros H; simpl; [by rewrite Z.eqb_refl|]. apply not_elem_of_cons in H as [H1 H2].
  rewrite IH by done. destruct (Z.eqb_spec c sep); congruence.
Qed.

Lemma Split_Join sep ws : ws ≠ [] -> Forall (fun w => sep ∉ w) ws -> Split sep (Join ws sep) = ws.
Proof.
  induction ws as [|w ws IH]; intros Hne H; [done|]. apply list.Forall_cons in H as [Hw H].
  destruct ws as [|v ws]; simpl; [by apply Split_none|]. rewrite Split_cons by done. f_equal. by apply IH.
Qed.

Lemma Join_Split sep s : Join (Split sep s) sep = s.
Proof.
  induction s as [|c s IH]; [done|]. simpl. destruct (Z.eqb_spec c sep) as [->|Hc].
  - pose proof (Split_nonempty sep s). destruct (Split sep s); [done|]. simpl. by rewrite <- IH.
  - destruct (Split sep s) as [|w ws] eqn:E; [by apply Split_nonempty in E|]. rewrite <- IH. by destruct ws.
Qed.

Lemma Split_parts sep s : Forall (fun w => (sep ∉ w) /\ forall c, c ∈ w -> c ∈ s) (Split sep s).
Proof.
  induction s as [|c s IH]; simpl; [constructor; [set_solver|constructor]|].
  assert (Forall (fun w => (sep ∉ w) /\ forall d, d ∈ w -> d ∈ c :: s) (Split sep s)) as IH'
    by (eapply Forall_impl; [exact IH|]; intros w [? ?]; split; set_solver).
  destruct (Z.eqb_spec c sep) as [->|Hc]; [constructor; [set_solver|done]|].
  destruct (Split sep s) as [|w ws]; [constructor; [set_solver|constructor]|].
  apply list.Forall_cons in IH' as [[? ?] ?]. constructor; [set_solver|done].
Qed.

(** * The tree of a response *)

Definition node_key (n : responseNode) : list Z := let '(rnode k _ _ _ _) := n in k.

(** The leaves of a tree, and the greatest index in it. *)
Fixpoint leaves (n : responseNode) : list KV :=
  let '(rnode k dir v nodes i) := n in if dir then concat (map leaves nodes) else [mk_kv k v i].

Fixpoint greatest (n : responseNode) : Z :=
  let '(rnode _ dir _ nodes i) := n in if dir then foldl (fun m n => Z.max m (greatest n)) i nodes else i.

(** The key of a directory is the start of the keys in it. *)
Fixpoint nested (n : responseNode) : Prop :=
  let '(rnode k _ _ nodes _) := n in foldr (fun n P => (HasPrefix (node_key n) k = true /\ nested n) /\ P) True nodes.

Lemma responseNode_rect' (P : responseNode -> Prop) :
  (forall k dir v nodes i, Forall P nodes -> P (rnode k dir v nodes i)) -> forall n, P n.
Proof.
  intros H. fix IH 1. intros [k dir v nodes i]. apply H. clear -IH. induction nodes as [|n nodes IHl]; constructor; [apply IH|exact IHl].
Qed.

Lemma nested_leaves n : nested n -> Forall (fun kv => HasPrefix (kv_Key kv) (node_key n) = true) (leaves n).
Proof.
  induction n as [k dir v nodes i IH] using responseNode_rect'. intros Hn. simpl in *. destruct dir.
  - induction IH as [|n nodes IHn _ IHl]; [constructor|]. destruct Hn as [[Hk Hn] Hl]. simpl. apply Forall_app. split.
    + eapply Forall_impl; [exact (IHn Hn)|]. intros kv Hkv. exact (HasPrefix_trans _ _ _ Hkv Hk).
    + by apply IHl.
  - constructor; [|constructor]. simpl. pose proof (HasPrefix_app k []) as E. by rewrite app_nil_r in E.
Qed.

Lemma agree_extend a b r q : a ++ r = b ++ q -> agree a b = true.
Proof.
  revert b. induction a as [|c a IH]; intros [|d b] E; simpl; try done. injection E as -> E. by rewrite Z.eqb_refl, (IH b E).
Qed.

(** The values of a response are the leaves of the tree below the key, in order. *)
Lemma parse_leaves n key :
  nested n -> (parseResponseNode n key).2 = filter (fun kv => HasPrefix (kv_Key kv) key = true) (leaves n).
Proof.
  induction n as [k dir v nodes i IH] using responseNode_rect'. intros Hn. destruct dir; simpl.
  2: { rewrite filter_cons. simpl. by destruct (HasPrefix k key). }
  destruct (agree k key) eqn:Hag; simpl.
  - simpl in Hn. rewrite <- (app_nil_l (filter _ _)). change (@nil KV) with (i, @nil KV).2 at 2. generalize (i, @nil KV).
    induction IH as [|n nodes IHn _ IHl]; intros r; simpl; [by rewrite app_nil_r|]. destruct Hn as [[Hk Hn] Hl].
    rewrite (IHl Hl), filter_app, <- (IHn Hn). destruct (parseResponseNode n key). simpl. by rewrite app_assoc.
  - symmetry. pose proof (nested_leaves (rnode k true v nodes i) Hn) as Hl. simpl in Hl. apply filter_none, list.Forall_forall.
    eapply Forall_impl; [exact Hl|]. simpl. intros kv [r E]%HasPrefix_inv [q E']%HasPrefix_inv.
    rewrite E in E'. apply agree_extend in E'. congruence.
Qed.

(** In a tree below the key, the index is the greatest. *)
Lemma parse_greatest n key : nested n -> HasPrefix (node_key n) key = true -> (parseResponseNode n key).1 = greatest n.
Proof.
  induction n as [k dir v nodes i IH] using responseNode_rect'. intros Hn Hk. simpl in Hn, Hk. destruct dir; simpl; [|done].
  assert (agree k key = true) as -> by (apply HasPrefix_inv in Hk as [r ->]; apply (agree_extend _ _ [] r), app_nil_r).
  simpl. change i with (i, @nil KV).1 at 2. generalize (i, @nil KV).
  induction IH as [|n nodes IHn _ IHl]; intros r; simpl; [done|]. destruct Hn as [[Hkn Hn] Hl].
  rewrite (IHl Hl), <- (IHn Hn) by (by eapply HasPrefix_trans). destruct (parseResponseNode n key) as [m kvs]. simpl.
  f_equal. destruct (Z.ltb_spec r.1 m); lia.
Qed.

(** * Messages *)

(** A key of a host is the message of that host and that key. *)
Lemma message_for_key path idx mtype host key value :
  (47 ∉ key) -> message_for path idx mtype (path ++ [47] ++ host ++ [47] ++ key) value = mk_message mtype idx host key value.
Proof.
  intros H. unfold message_for. rewrite drop_app_length. simpl. rewrite TrimPrefix_slash, LastIndexByte_last by done.
  rewrite take_app_length. by rewrite (drop_app_ge _ _ _ (Nat.le_succ_diag_r _)), Nat.sub_succ_l, Nat.sub_diag.
Qed.

(** The directory of a host is the message of the host with no key. *)
Lemma message_for_host path idx mtype host value :
  (47 ∉ host) -> message_for path idx mtype (path ++ [47] ++ host) value = mk_message mtype idx host [] value.
Proof. intros H. unfold message_for. rewrite drop_app_length. simpl. by rewrite TrimPrefix_slash, LastIndexByte_none. Qed.

(** The messages of one connection for a list of values. *)
Definition batch (prefix path : list Z) (idx : Z) (mtype : MessageType) (kvs : list KV) : list Message :=
  map (fun kv => message_for path idx mtype (kv_Key kv) (match mtype with Update => kv_Value kv | _ => [] end))
    (filter (fun kv => HasPrefix (kv_Key kv) prefix && HasPrefix (kv_Key kv) path) kvs).

Definition received (idx : Z) (ms : list Message) (c : watcherConn) : watcherConn :=
  mk_wconn (wc_id c) (srvpath c) (channel c ++ ms) (match ms with [] => lastIndex c | _ => idx end) (wc_closed c).

Lemma received_nil idx c : received idx [] c = c.
Proof. destruct c. unfold received. simpl. by rewrite app_nil_r. Qed.

Lemma received_app idx ms ms' c : received idx ms' (received idx ms c) = received idx (ms ++ ms') c.
Proof. destruct c. unfold received. simpl. rewrite app_assoc. by destruct ms, ms'. Qed.

Lemma conn_value_received w mtype kv (c : watcherConn) :
  (if HasPrefix (kv_Key kv) (Prefix w)
   then conn_value (index w) mtype (kv_Key kv) (match mtype with Update => kv_Value kv | _ => [] end) c else c)
  = received (index w) (batch (Prefix w) (srvpath c) (index w) mtype [kv]) c.
Proof.
  unfold batch. rewrite filter_cons. unfold conn_value.
  destruct (HasPrefix (kv_Key kv) (Prefix w)), (HasPrefix (kv_Key kv) (srvpath c)); simpl; try by rewrite received_nil. by destruct c.
Qed.

Definition receive_all (mtype : MessageType) (kvs : list KV) (w : Watcher) : Watcher :=
  set_conns (map (fun c => received (index w) (batch (Prefix w) (srvpath c) (index w) mtype kvs) c) (conns w)) w.

Lemma receive_all_nil mtype w : receive_all mtype [] w = w.
Proof.
  destruct w. unfold receive_all, set_conns. simpl. f_equal. rewrite <- (map_id conns0) at 2. apply map_ext.
  intros c. apply received_nil.
Qed.

Lemma receive_all_cons mtype kv kvs w :
  receive_all mtype kvs (receive_all mtype [kv] w) = receive_all mtype (kv :: kvs) w.
Proof.
  destruct w. unfold receive_all, set_conns. simpl. f_equal. rewrite map_map. apply map_ext. intros c. simpl.
  rewrite received_app. f_equal. unfold batch. rewrite <- map_app, <- filter_app. done.
Qed.

Lemma handle_one mtype kv w :
  (if HasPrefix (kv_Key kv) (Prefix w)
   then handleValue mtype (kv_Key kv) (match mtype with Update => kv_Value kv | _ => [] end) w else w)
  = receive_all mtype [kv] w.
Proof.
  transitivity (set_conns (map (fun c => if HasPrefix (kv_Key kv) (Prefix w)
      then conn_value (index w) mtype (kv_Key kv) (match mtype with Update => kv_Value kv | _ => [] end) c else c) (conns w)) w).
  - destruct (HasPrefix _ _); [done|]. rewrite map_id. by destruct w.
  - unfold receive_all. f_equal. apply map_ext. intros c. apply conn_value_received.
Qed.

Lemma handleUpdate_all kvs w : handleUpdate kvs w = receive_all Update kvs w.
Proof.
  revert w. induction kvs as [|kv kvs IH]; intros w; simpl; [by rewrite receive_all_nil|].
  by rewrite (handle_one Update), IH, receive_all_cons.
Qed.

Lemma handleDelete_all kvs w : handleDelete kvs w = receive_all Delete kvs w.
Proof.
  revert w. induction kvs as [|kv kvs IH]; intros w; simpl; [by rewrite receive_all_nil|].
  by rewrite (handle_one Delete), IH, receive_all_cons.
Qed.

(** What a response says happened. *)
Definition happened (rsp : Response) : option MessageType :=
  if existsb (fun a => bool_decide (Action rsp = a)) [bytes "get"; bytes "update"; bytes "create"; bytes "set"] then Some Update
  else if existsb (fun a => bool_decide (Action rsp = a)) [bytes "expire"; bytes "delete"] then Some Delete
  else None.

Definition index_after (rsp : Response) (w : Watcher) : Z := if index w =? 0 then MaxIndex rsp else index w.

Definition response_for (rsp : Response) (w : Watcher) (c : watcherConn) : watcherConn :=
  let idx := index_after rsp w in
  let ms := match happened rsp with Some mtype => batch (Prefix w) (srvpath c) idx mtype (Values rsp) | None => [] end in
  let c := received idx ms c in
  if lastIndex c =? idx then send (note EndOfBatch idx) c else c.

(** A response is sent to every connection whose path its keys are below: a message for
    each of these, in order, and the end of the batch. *)
Lemma handle_response_sends rsp w :
  handleResponse rsp false w = mk_watcher (Prefix w) (index_after rsp w) (map (response_for rsp w) (conns w)) (gone w).
Proof.
  unfold handleResponse, response_for, happened, index_after. destruct w as [pre idx cs g]. simpl.
  set (w := if idx =? 0 then _ else _). assert (w = mk_watcher pre (if idx =? 0 then MaxIndex rsp else idx) cs g) as ->
    by (unfold w; by destruct (idx =? 0)).
  set (i := if idx =? 0 then _ else _).
  case_match; [rewrite handleUpdate_all|case_match; [rewrite handleDelete_all|]]; unfold receive_all, set_conns; simpl;
    rewrite ?map_map; f_equal; apply map_ext; intros c; rewrite ?received_nil; done.
Qed.

(** ** The index of the watcher *)

Lemma get_retry_index answers w ok rsp w' :
  get_retry answers w = Some (ok, rsp, w') -> index w ≠ 0 -> index w' = index w.
Proof.
  revert w. induction answers as [|[a d] answers IH]; intros w H Hi; [done|]. simpl in H.
  assert ((index w =? 0) = false) as E by lia.
  destruct a as [r|e|[]| |]; rewrite ?E in H; repeat case_match; simplify_eq; try done; by eapply IH.
Qed.

Lemma doAddService_index service id answers w ok w' :
  doAddService service id answers w = Some (ok, w') -> index w ≠ 0 -> index w' = index w.
Proof.
  unfold doAddService. intros H Hi. destruct (get_retry answers w) as [[[ok' rsp] w1]|] eqn:E; [|done]. simpl in H.
  apply get_retry_index in E; [|done]. simplify_eq. set (w2 := if ok then _ else _).
  assert (index w2 = index w) as E2 by (unfold w2; by destruct ok). destruct rsp as [r|]; [|done].
  rewrite handle_response_sends. simpl. unfold index_after. rewrite E2. by destruct (Z.eqb_spec (index w) 0).
Qed.

Fixpoint loop_run (s : loop_state) (evs : list loop_event) : option loop_state :=
  match evs with [] => Some s | ev :: evs => s ← loop_step s ev; loop_run s evs end.

(** Once the watcher has an index it keeps it: every watch that is started waits after
    the same index, whatever was answered in between. *)
Lemma watch_index_stays s evs s' :
  loop_run s evs = Some s' -> index (l_watcher s) ≠ 0 ->
  Forall (eq (index (l_watcher s))) (watches s) -> Forall (eq (index (l_watcher s))) (watches s').
Proof.
  revert s. induction evs as [|ev evs IH]; intros s H Hi Hw; [by simplify_eq/=|]. simpl in H.
  destruct (loop_step s ev) as [s1|] eqn:E; [|done]. simpl in H.
  assert (index (l_watcher s1) = index (l_watcher s) /\ Forall (eq (index (l_watcher s))) (watches s1)) as [Ei Hw1].
  2: { rewrite <- Ei in *. by eapply IH. }
  assert (forall w l, index w = index (l_watcher s) -> Forall (eq (index (l_watcher s))) l ->
    index (l_watcher (loop_head w l)) = index (l_watcher s) /\ Forall (eq (index (l_watcher s))) (watches (loop_head w l))) as Hh.
  { intros w l Ew Hl. split; [done|]. unfold loop_head. simpl. case_match; [|done]. apply Forall_app. rewrite Ew. auto. }
  unfold loop_step in E. destruct (ended s); [done|]. destruct ev as [service id answers|id| |i rsp|i].
  - destruct (doAddService service id answers (l_watcher s)) as [[ok w]|] eqn:Ea; [|done]; injection E as <-.
    apply Hh; [|done]. by eapply doAddService_index.
  - injection E as <-. apply Hh; [|done]. unfold doRemoveService. by destruct (remove_conn _ _) as [[]|].
  - by injection E as <-.
  - destruct (watches s !! i); [|done]; injection E as <-. apply Hh; [|by apply Forall_delete].
    rewrite handle_response_sends. simpl. unfold index_after. by destruct (Z.eqb_spec (index (l_watcher s)) 0).
  - destruct (watches s !! i); [|done]; injection E as <-. split; [done|]. by apply Forall_delete.
Qed.

(** * The names of services *)

Lemma Join_snoc ws w sep : Join (ws ++ [w]) sep = match ws with [] => w | _ => Join ws sep ++ sep :: w end.
Proof.
  induction ws as [|v ws IH]; [done|]. destruct ws as [|u ws]; [done|]. simpl in *. rewrite IH. by rewrite <- app_assoc.
Qed.

Lemma HasSuffix_app s t : HasSuffix (s ++ t) t = true.
Proof. unfold HasSuffix. rewrite reverse_app. apply HasPrefix_app. Qed.

Lemma TrimSuffix_app s t : TrimSuffix (s ++ t) t = s.
Proof. unfold TrimSuffix. rewrite HasSuffix_app, length_app, Nat.add_sub. apply take_app_length. Qed.

Lemma TrimSuffix_no s c : last s ≠ Some c -> TrimSuffix s [c] = s.
Proof.
  intros H. unfold TrimSuffix, HasSuffix. destruct (HasPrefix (reverse s) (reverse [c])) eqn:E; [|done].
  exfalso. apply H. apply HasPrefix_inv in E as [r E]. apply (f_equal reverse) in E. rewrite reverse_involutive in E.
  rewrite E, reverse_app, reverse_involutive. by rewrite last_snoc.
Qed.

Lemma host_part_last service :
  (46 ∉ service) -> head service ≠ Some 47 -> last (Join (reverse (Split 47 service)) 46) ≠ Some 46.
Proof.
  intros Hd Hh. pose proof (Split_parts 47 service) as Hp. pose proof (Join_Split 47 service) as Hj.
  destruct (Split 47 service) as [|w ws]; [done|]. rewrite reverse_cons, Join_snoc. apply list.Forall_cons in Hp as [[_ Hw] _].
  assert (w = [] -> service = []) as Hw0.
  { intros ->. destruct ws; simpl in Hj; [done|]. by rewrite <- Hj in Hh. }
  assert (last w ≠ Some 46) as Hl by (intros E; apply Hd, Hw; apply last_Some in E as [l ->]; set_solver).
  destruct (reverse ws) as [|u us] eqn:E; [done|]. destruct (decide (w = [])) as [->|Hne].
  - rewrite (Hw0 eq_refl) in Hj. assert (ws = []) as ->; [|done]. by destruct ws.
  - destruct (exists_last Hne) as (l & c & ->). rewrite last_snoc in Hl. rewrite app_comm_cons, app_assoc, last_snoc. done.
Qed.

(** A service without dots is what its host name in any domain gives back. *)
Lemma service_host_roundtrip service domain :
  (46 ∉ service) -> head service ≠ Some 47 -> HostToService (ServiceToHost service domain) domain = service.
Proof.
  intros Hd Hh. pose proof (host_part_last service Hd Hh) as Hl. unfold ServiceToHost. set (J := Join _ _) in *.
  assert (Join (reverse (Split 46 J)) 47 = service) as HJ.
  { unfold J. rewrite Split_Join, reverse_involutive, Join_Split; [done| |].
    - intros E%(f_equal reverse). rewrite reverse_involutive in E. by apply Split_nonempty in E.
    - apply Forall_reverse. eapply Forall_impl; [apply Split_parts|]. simpl. intros w [_ H]. auto. }
  unfold HostToService. destruct domain as [|c d].
  - rewrite app_nil_r. simpl. rewrite Nat.sub_0_r, firstn_all, TrimSuffix_no by done.
    unfold HasSuffix. simpl. done.
  - destruct (Z.eqb_spec c 46) as [->|Hc].
    + rewrite HasSuffix_app. simpl negb. cbv iota. rewrite length_app, Nat.add_sub, take_app_length, TrimSuffix_no by done. done.
    + change (46 :: c :: d) with ([46] ++ (c :: d)). rewrite (app_assoc J), HasSuffix_app. simpl negb. cbv iota.
      rewrite (length_app (J ++ [46])), Nat.add_sub, take_app_length, TrimSuffix_app. done.
Qed.

(** * The entry of a daemon *)

Section RegisterProofs.
Context {St : Type} `{!Etcd St}.
Context (Hset : forall st k v st' r err, ask st (SetKey k v false) = (st', (r, err)) -> err = None).
Context (Hexcl : forall st k v st' r err, ask st (SetKey k v true) = (st', (r, err)) -> err = None \/ IsErrorCode err [105] = true).
Context (Hget : forall st k st' r err, ask st (GetKey k) = (st', (Some r, err)) -> length (Values r) = 1%nat).

Lemma ask_keeps st q k : (forall k v ex, q ≠ SetKey k v ex) -> (forall d, q ≠ RmDir d) -> value (ask st q).1 k = value st k.
Proof. intros H1 H2. destruct (ask st q) as [st' a] eqn:E. by eapply ask_other in E. Qed.

Lemma ask_set_value st k v ex :
  (ex = true -> value st k = None \/ value st k = Some v) -> value (ask st (SetKey k v ex)).1 k = Some v.
Proof.
  intros Hv. destruct (ask st (SetKey k v ex)) as [st' [r err]] eqn:E. simpl. pose proof (ask_set _ _ _ _ _ _ _ E) as [_ H].
  destruct err as [e|]; [|done]. destruct ex.
  - destruct (Hexcl _ _ _ _ _ _ E) as [?|H105]; [done|]. destruct H as [-> [w Hw]%(fun f => f H105)]. destruct (Hv eq_refl); congruence.
  - by apply Hset in E.
Qed.

Lemma ask_set_other st k v ex k' : k' ≠ k -> value (ask st (SetKey k v ex)).1 k' = value st k'.
Proof. intros Hk. destruct (ask st (SetKey k v ex)) as [st' [r err]] eqn:E. by eapply ask_set in E as [H _]; apply H. Qed.

(** Registering a daemon returns, and etcd then has its configuration and its health, if
    nobody else changed the configuration since it was last written. *)
Lemma register_writes service hostkey health prevHealth config prevConfig st :
  (config = prevConfig -> value st ((service ++ [47] ++ hostkey) ++ bytes "/config") ∈ [None; Some config]) ->
  exists st', registerService service hostkey health prevHealth config prevConfig st = Some st' /\
    value st' ((service ++ [47] ++ hostkey) ++ bytes "/config") = Some config /\
    (health ≠ [] -> value st' ((service ++ [47] ++ hostkey) ++ bytes "/health") = Some health).
Proof.
  intros Hc. unfold registerService. set (dir := service ++ [47] ++ hostkey) in *.
  assert (dir ++ bytes "/config" ≠ dir ++ bytes "/health") as Hne by (intros E%app_inv_head; done).
  destruct (ask st (RefreshDir dir)) as [st1 [r1 err1]] eqn:E1.
  pose proof (ask_keeps st (RefreshDir dir) (dir ++ bytes "/config") ltac:(done) ltac:(done)) as K1. rewrite E1 in K1. simpl in K1.
  set (p := if IsErrorCode err1 [100] then _ else _).
  assert (value p.1 (dir ++ bytes "/config") = value st (dir ++ bytes "/config")) as K2.
  { unfold p. destruct (IsErrorCode err1 [100]); [|done]. rewrite <- K1. rewrite <- (ask_keeps st1 (MkDir dir)) by done.
    by destruct (ask st1 (MkDir dir)) as [? [? ?]]. }
  destruct p as [st2 [err2 newdir]]. simpl in K2. set (nd := match err2 with Some _ => true | None => newdir end).
  set (ex := negb nd && bool_decide (config = prevConfig)).
  assert (value (ask st2 (SetKey (dir ++ bytes "/config") config ex)).1 (dir ++ bytes "/config") = Some config) as K3.
  { apply ask_set_value. unfold ex. intros [_ ->%bool_decide_eq_true]%andb_true_iff. rewrite K2. specialize (Hc eq_refl). set_solver. }
  destruct (ask st2 _) as [st3 a3]. simpl in K3. clear K1 K2 E1. case_bool_decide as Hh; [by exists st3|].
  assert (forall st4, value st4 (dir ++ bytes "/config") = Some config ->
    value (ask st4 (SetKey (dir ++ bytes "/health") health false)).1 (dir ++ bytes "/config") = Some config /\
    value (ask st4 (SetKey (dir ++ bytes "/health") health false)).1 (dir ++ bytes "/health") = Some health) as Hw.
  { intros st4 K. split; [by rewrite ask_set_other|by apply ask_set_value]. }
  destruct (nd || _); simpl; [eexists; split; [done|]; destruct (Hw st3 K3); auto|].
  pose proof (ask_keeps st3 (GetKey (dir ++ bytes "/health")) (dir ++ bytes "/config") ltac:(done) ltac:(done)) as K4.
  destruct (ask st3 (GetKey _)) as [st4 [resp err4]] eqn:E4. simpl in K4. rewrite K3 in K4.
  assert (health_differs resp health = Some true) as ->.
  { destruct resp as [r|]; [|done]. simpl. by rewrite (Hget _ _ _ _ _ E4). }
  simpl. eexists; split; [done|]. destruct (Hw st4 K4); auto.
Qed.
End RegisterProofs.

(** ** An etcd that never fails *)

Definition map_ask (m : gmap (list Z) (list Z)) (q : request) : gmap (list Z) (list Z) * (option Response * option error) :=
  let failed code := (m, (None, Some (EtcdError (mk_error 404 code [] 0)))) in
  match q with
  | RefreshDir _ | MkDir _ => (m, (Some (mk_response [] 0 [] []), None))
  | SetKey k v ex => if ex && bool_decide (is_Some (m !! k)) then failed 105 else (<[k := v]> m, (Some (mk_response [] 0 [] []), None))
  | GetKey k => match m !! k with Some v => (m, (Some (mk_response (bytes "get") 0 [mk_kv k v 0] []), None)) | None => failed 100 end
  | RmDir d => (filter (fun e => HasPrefix e.1 (d ++ [47]) = false) m, (Some (mk_response [] 0 [] []), None))
  end.

#[refine] Instance map_etcd : Etcd (gmap (list Z) (list Z)) := {| ask := map_ask; value m k := m !! k |}.
Proof.
  - intros st k v ex st' r err H. simpl in H. split; [intros k' Hk|]; repeat case_match; simplify_eq; simpl; try done.
    + by rewrite lookup_insert_ne.
    + split; [done|]. intros _. apply andb_true_iff in H0 as [_ H0]. by apply bool_decide_eq_true in H0.
    + by rewrite lookup_insert_eq.
  - intros st [d|d|k v ex|k|d] st' a H1 H2 H; simpl in H; try (by destruct (H1 k v ex)); try (by destruct (H2 d)); repeat case_match; by simplify_eq.
  - intros st d st' r H k. simplify_eq/=. destruct (HasPrefix k (d ++ [47])) eqn:E.
    + apply map_lookup_filter_None. right. intros v _. simpl. congruence.
    + destruct (st !! k) as [v|] eqn:Ek; [by apply map_lookup_filter_Some|]. apply map_lookup_filter_None. by left.
Defined.

(** A first and a second turn of a daemon, and its end. *)
Lemma register_example :
  exists st st', registerService (bytes "/service/s") (bytes "h") (bytes "down") [] (bytes "{}") [] ∅ = Some st /\
    registerService (bytes "/service/s") (bytes "h") (bytes "up") (bytes "down") (bytes "{}") (bytes "{}") st = Some st' /\
    value st' (bytes "/service/s/h/health") = Some (bytes "up") /\ unregisterService (bytes "/service/s") (bytes "h") st' = ∅.
Proof. eexists _, _. split; [done|]. split; [done|]. split; by vm_compute. Qed.

(** * What goes wrong *)

(** A health that is the same is written again, and a response without values is read out
    of range: the test of the number of values is the wrong way around. *)
Theorem health_test_inverted key health action i j :
  health_differs (Some (mk_response action i [mk_kv key health j] [])) health = Some true /\
  health_differs (Some (mk_response action i [] [])) health = None.
Proof. done. Qed.

(** The service "search" gets the hosts of "search2". *)
Theorem sibling_service_hosts idx value c :
  srvpath c = bytes "/service/search" ->
  channel (conn_value idx Update (bytes "/service/search2/h/config") value c)
  = channel c ++ [mk_message Update idx (bytes "2/h") (bytes "config") value].
Proof. destruct c. simpl. by intros ->. Qed.

(** A watcher whose service has one event after the index it knows, and another one. *)
Definition first_event : Response := mk_response (bytes "set") 11 [mk_kv (bytes "/service/s/h/health") (bytes "up") 11] [].
Definition second_event : Response := mk_response (bytes "set") 12 [mk_kv (bytes "/service/s/h/health") (bytes "down") 12] [].

(** etcd answers a watch with the first event after its index. *)
Definition next_event (after : Z) : Response := if after <? 11 then first_event else second_event.

Definition follower (seen : list Message) : loop_state :=
  loop_head (mk_watcher (bytes "/service/") 10 [mk_wconn 0 (bytes "/service/s") seen 10 false] []) [].

Definition first_messages : list Message := [mk_message Update 10 (bytes "h") (bytes "health") (bytes "up"); note EndOfBatch 10].

(** However long the watcher follows, it gets the first event again and never the second. *)
Theorem watch_replays n seen :
  loop_run (follower seen) (repeat (Watched 0 (next_event 10)) n) = Some (follower (seen ++ concat (repeat first_messages n))) /\
  watches (follower (seen ++ concat (repeat first_messages n))) = [10].
Proof.
  split; [|done]. revert seen. induction n as [|n IH]; intros seen; [by rewrite app_nil_r|].
  change (concat (repeat first_messages (S n))) with (first_messages ++ concat (repeat first_messages n)).
  rewrite app_assoc, <- IH. change (repeat ?x (S n)) with (x :: repeat x n). cbn [loop_run].
  assert (loop_step (follower seen) (Watched 0 (next_event 10)) = Some (follower (seen ++ first_messages))) as ->; [|done].
  unfold loop_step. cbn [ended follower loop_head mbind option_bind]. unfold follower, loop_head. cbn [length conns Nat.ltb Nat.leb watches app lookup list_lookup mbind option_bind].
  rewrite handle_response_sends. unfold response_for, received, send. simpl. by rewrite <- app_assoc.
Qed.

(** After a watch that failed nothing is asked until a command comes. *)
Theorem watch_failure_stops seen :
  loop_step (follower seen) (WatchFailed 0) = Some (mk_loop (l_watcher (follower seen)) [] false) /\
  forall i rsp, loop_step (mk_loop (l_watcher (follower seen)) [] false) (Watched i rsp) = None.
Proof. done. Qed.
