(* ===== verification/GoPoolSd.v ===== *)
(** GoPoolSd: the hosts that service discovery tells a Go pool
    (core/pkg/fd_pool/sd.go), from the messages of a watcher, and the wait for the first
    of them.  JSON is decoded by a parameter; the map of hosts is seen by its reader only. *)
From stdpp Require Import prelude list numbers option gmap.
From Stdlib Require Import ZArith Lia.
From S2P Require Import Prelude GoPool SdEtcd.

Local Open Scope Z_scope.

(** * The reader *)

Record sd_host := mk_sd { sd_Name : list Z; sd_Ports : gmap (list Z) (list Z); sd_Cost : Z; sd_Disabled : bool }.

Abbreviation hosts_map := (gmap (list Z) sd_host).
Abbreviation sections := (gmap (list Z) (gmap (list Z) (gmap (list Z) (list Z)))).

(** strconv.Atoi where the error is ignored: an optional sign and digits, else zero; the
    values out of range are the limits. *)
Definition Atoi (s : list Z) : Z :=
  let number neg s :=
    if bool_decide (s = []) || negb (forallb isdigit s) then 0
    else
      let n := digits 0 s in
      Z.max (- 2 ^ 63) (Z.min (2 ^ 63 - 1) (if neg : bool then - n else n)) in
  match s with
  | 45 :: r => number true r
  | 43 :: r => number false r
  | _ => number false s
  end.

Definition apply_entry (node : sd_host) (kv : list Z * list Z) : sd_host :=
  let '(k, v) := kv in
  if bool_decide (k = bytes "name") then mk_sd v (sd_Ports node) (sd_Cost node) (sd_Disabled node)
  else if bool_decide (k = bytes "cost") then mk_sd (sd_Name node) (sd_Ports node) (Atoi v) (sd_Disabled node)
  else mk_sd (sd_Name node) (<[k := v]> (sd_Ports node)) (sd_Cost node) (sd_Disabled node).

Section Reader.
Context (range : forall A, list A -> list A) (Hrange : forall A (l : list A), range A l ≡ₚ l).
Context (Unmarshal : list Z -> option sections) (host appl : list Z).

(** data[a][b]; a section that is not there is nil. *)
Definition section_of (data : sections) (a b : list Z) : gmap (list Z) (list Z) := default ∅ (data !! a ≫= fun m => m !! b).

Definition apply_section (data : sections) (node : sd_host) (kk : list Z * list Z) : sd_host :=
  foldl apply_entry node (range _ (map_to_list (section_of data kk.1 kk.2))).

Definition prefixes : list (list Z * list Z) := [(bytes "*", bytes "*"); (bytes "*", appl); (host, bytes "*"); (host, appl)].

Definition parseConfig (hosts : hosts_map) (hostkey src : list Z) : hosts_map :=
  match Unmarshal src with
  | None => hosts
  | Some data =>
    let disabled := match hosts !! hostkey with None => true | Some node => sd_Disabled node end in
    <[hostkey := foldl (apply_section data) (mk_sd [] ∅ 0 disabled) prefixes]> hosts
  end.

(** strings.TrimSpace, for ASCII. *)
Definition TrimSpace (s : list Z) : list Z := reverse (skip_space (reverse (skip_space s))).

Definition parseHealth (hosts : hosts_map) (hostkey src : list Z) : hosts_map :=
  let v := negb (bool_decide (TrimSpace src = bytes "up")) in
  let node := default (mk_sd [] ∅ 0 false) (hosts !! hostkey) in
  <[hostkey := mk_sd (sd_Name node) (sd_Ports node) (sd_Cost node) v]> hosts.

(** What a message that is not the end of a batch does to the hosts. *)
Definition read_message (hosts : hosts_map) (msg : Message) : hosts_map :=
  match m_Type msg with
  | EndOfBatch => hosts
  | Update =>
    if bool_decide (m_Key msg = bytes "config") then parseConfig hosts (m_HostKey msg) (m_Value msg)
    else if bool_decide (m_Key msg = bytes "health") then parseHealth hosts (m_HostKey msg) (m_Value msg)
    else hosts
  | Delete =>
    match hosts !! m_HostKey msg with
    | None => hosts
    | Some h =>
      if bool_decide (m_Key msg = []) then delete (m_HostKey msg) hosts
      else
        <[m_HostKey msg :=
          if bool_decide (m_Key msg = bytes "name") then mk_sd [] (sd_Ports h) (sd_Cost h) (sd_Disabled h)
          else if bool_decide (m_Key msg = bytes "cost") then mk_sd (sd_Name h) (sd_Ports h) 0 (sd_Disabled h)
          else if bool_decide (m_Key msg = bytes "health") then mk_sd (sd_Name h) (sd_Ports h) (sd_Cost h) true
          else mk_sd (sd_Name h) (delete (m_Key msg) (sd_Ports h)) (sd_Cost h) (sd_Disabled h)]> hosts
    end
  | Flush => ∅
  end.

(** The hosts of each update, in order. *)
Fixpoint readSd (hosts : hosts_map) (msgs : list Message) : list hosts_map :=
  match msgs with
  | [] => []
  | msg :: msgs =>
    match m_Type msg with
    | EndOfBatch => hosts :: readSd hosts msgs
    | _ => readSd (read_message hosts msg) msgs
    end
  end.

(** The argument of UpdateHostsConfig. *)
Definition hosts_config (hosts : hosts_map) : list (list Z * HostConfig) :=
  map (fun e => (e.1, mk_host (sd_Name e.2) (map_to_list (sd_Ports e.2)) (sd_Cost e.2) (sd_Disabled e.2))) (map_to_list hosts).

(** * Which value counts *)

(** The entry of the most specific section that has one. *)
Definition most_specific (data : sections) (k : list Z) : option (list Z) :=
  foldr (fun kk (r : option (list Z)) => match section_of data kk.1 kk.2 !! k with Some v => Some v | None => r end) None
    [(host, appl); (host, bytes "*"); (bytes "*", appl); (bytes "*", bytes "*")].

(** A value of a node by its key. *)
Definition field (k : list Z) (node : sd_host) : option (list Z) + Z :=
  if bool_decide (k = bytes "name") then inl (Some (sd_Name node))
  else if bool_decide (k = bytes "cost") then inr (sd_Cost node)
  else inl (sd_Ports node !! k).

Definition as_field (k v : list Z) : option (list Z) + Z :=
  if bool_decide (k = bytes "cost") then inr (Atoi v) else inl (Some v).

Lemma field_apply k node k' v :
  field k (apply_entry node (k', v)) = if decide (k = k') then as_field k v else field k node.
Proof.
  unfold field, apply_entry, as_field. destruct (decide (k = k')) as [->|Hne].
  - repeat case_bool_decide; simplify_eq/=; try done. by rewrite lookup_insert_eq.
  - repeat case_bool_decide; simplify_eq/=; try done. by rewrite lookup_insert_ne.
Qed.

Lemma field_apply_all k l : NoDup (map fst l) -> forall node,
  field k (foldl apply_entry node l) = match (list_to_map l : gmap (list Z) (list Z)) !! k with Some v => as_field k v | None => field k node end.
Proof.
  induction l as [|[k' v] l IH]; intros Hnd node; [by rewrite list_to_map_nil, lookup_empty|].
  apply NoDup_cons in Hnd as [Hk Hnd]. cbn [foldl]. rewrite list_to_map_cons, IH by done. destruct (decide (k = k')) as [->|Hne].
  - rewrite lookup_insert_eq, not_elem_of_list_to_map_1 by done. by rewrite field_apply, decide_True.
  - rewrite lookup_insert_ne by done. destruct (list_to_map l !! k); [done|]. by rewrite field_apply, decide_False.
Qed.

Lemma field_section k data node kk :
  field k (apply_section data node kk) = match section_of data kk.1 kk.2 !! k with Some v => as_field k v | None => field k node end.
Proof.
  unfold apply_section. set (m := section_of _ _ _). pose proof (Hrange _ (map_to_list m)) as Hp.
  assert (NoDup (map fst (range _ (map_to_list m)))) as Hnd.
  { rewrite (Permutation_map fst Hp). apply NoDup_fst_map_to_list. }
  rewrite field_apply_all by done. rewrite <- (list_to_map_proper (map_to_list m) _ (NoDup_fst_map_to_list m) (symmetry Hp)).
  by rewrite list_to_map_to_list.
Qed.
Definition set_disabled (b : bool) (node : sd_host) : sd_host := mk_sd (sd_Name node) (sd_Ports node) (sd_Cost node) b.

Lemma apply_entry_disabled b node kv : apply_entry (set_disabled b node) kv = set_disabled b (apply_entry node kv).
Proof. destruct kv as [k v]. unfold apply_entry. by repeat case_bool_decide. Qed.

Lemma apply_section_disabled b data node kk : apply_section data (set_disabled b node) kk = set_disabled b (apply_section data node kk).
Proof.
  unfold apply_section. generalize (range _ (map_to_list (section_of data kk.1 kk.2))). intros l. revert node.
  induction l as [|kv l IH]; intros node; [done|]. cbn [foldl]. by rewrite apply_entry_disabled, IH.
Qed.

(** The node of a configuration, which is not the place that says whether it is disabled. *)
Definition configured (data : sections) (disabled : bool) : sd_host := foldl (apply_section data) (mk_sd [] ∅ 0 disabled) prefixes.

Lemma configured_disabled data b : configured data b = set_disabled b (configured data true).
Proof.
  unfold configured, prefixes. cbn [foldl]. rewrite <- !apply_section_disabled. done.
Qed.

(** What a key has in a configuration: the entry of the most specific section, or nothing,
    which is no name, no cost and no port. *)
Definition expected (data : sections) (k : list Z) : option (list Z) + Z :=
  match most_specific data k with Some v => as_field k v | None => field k (mk_sd [] ∅ 0 true) end.

Lemma configured_fields data b k : field k (configured data b) = expected data k.
Proof.
  unfold configured, expected, most_specific, prefixes. cbn [foldl foldr]. rewrite !field_section. cbn [fst snd].
  by repeat case_match.
Qed.

(** The configuration and the health of hosts can come in any order. *)
Lemma config_health_commute hosts h1 src h2 health :
  parseHealth (parseConfig hosts h1 src) h2 health = parseConfig (parseHealth hosts h2 health) h1 src.
Proof.
  unfold parseConfig. destruct (Unmarshal src) as [data|]; [|done]. fold (configured data).
  change (foldl (apply_section data) (mk_sd [] ∅ 0 ?b) prefixes) with (configured data b). unfold parseHealth.
  destruct (decide (h1 = h2)) as [->|Hne].
  - rewrite !lookup_insert_eq, !insert_insert_eq. simpl. f_equal. rewrite configured_disabled. symmetry. apply configured_disabled.
  - rewrite !lookup_insert_ne by done. by rewrite insert_insert_ne.
Qed.

(** * From the tree of a service to its hosts *)

(** What daemons wrote for a service, and the tree that etcd answers for it. *)
Record entry := mk_ent { en_host : list Z; en_config : list Z; en_health : list Z }.

Definition host_tree (path : list Z) (i : Z) (e : entry) : responseNode :=
  let dir := path ++ [47] ++ en_host e in
  rnode dir true []
    [rnode (dir ++ [47] ++ bytes "config") false (en_config e) [] i; rnode (dir ++ [47] ++ bytes "health") false (en_health e) [] i] i.

Definition service_tree (path : list Z) (i : Z) (l : list entry) : responseNode := rnode path true [] (map (host_tree path i) l) i.

Definition told (e : entry) : sd_host :=
  let disabled := negb (bool_decide (TrimSpace (en_health e) = bytes "up")) in
  match Unmarshal (en_config e) with Some data => configured data disabled | None => mk_sd [] ∅ 0 disabled end.

Lemma read_entry (hosts : hosts_map) idx e :
  hosts !! en_host e = None ->
  read_message (read_message hosts (mk_message Update idx (en_host e) (bytes "config") (en_config e)))
    (mk_message Update idx (en_host e) (bytes "health") (en_health e)) = <[en_host e := told e]> hosts.
Proof.
  intros Hh. unfold read_message, told. simpl. unfold parseConfig. destruct (Unmarshal (en_config e)) as [data|].
  - change (foldl (apply_section data) (mk_sd [] ∅ 0 ?b) prefixes) with (configured data b). rewrite Hh. unfold parseHealth.
    rewrite lookup_insert_eq, insert_insert_eq. f_equal. simpl. symmetry. apply configured_disabled.
  - unfold parseHealth. by rewrite Hh.
Qed.

Definition entry_messages (idx : Z) (e : entry) : list Message :=
  [mk_message Update idx (en_host e) (bytes "config") (en_config e); mk_message Update idx (en_host e) (bytes "health") (en_health e)].

Lemma read_entries idx l : NoDup (map en_host l) -> forall hosts : hosts_map, Forall (fun e => hosts !! en_host e = None) l ->
  readSd hosts (concat (map (entry_messages idx) l) ++ [note EndOfBatch idx])
  = [list_to_map (map (fun e => (en_host e, told e)) l) ∪ hosts].
Proof.
  induction l as [|e l IH]; intros Hnd hosts Hh; [simpl; by rewrite (left_id_L ∅ (∪))|]. apply NoDup_cons in Hnd as [He Hnd].
  apply list.Forall_cons in Hh as [Hhe Hh]. simpl map. simpl concat. cbn [app readSd m_Type].
  rewrite read_entry, IH by (done || (apply list.Forall_forall; intros e' He'; rewrite lookup_insert_ne;
    [by eapply list.Forall_forall in Hh|]; intros E; apply He; rewrite E; by apply list_elem_of_fmap_2)).
  f_equal. rewrite list_to_map_cons, <- insert_union_l. apply map_eq. intros k. rewrite lookup_union.
  destruct (decide (k = en_host e)) as [->|Hk].
  - rewrite !lookup_insert_eq. rewrite not_elem_of_list_to_map_1; [done|]. rewrite <- list_fmap_compose. done.
  - by rewrite !lookup_insert_ne, lookup_union.
Qed.

Lemma service_tree_nested path i l : nested (service_tree path i l).
Proof.
  unfold service_tree. simpl. induction l as [|e l IH]; simpl; [done|]. split; [|exact IH].
  split; [apply HasPrefix_app|]. by rewrite !HasPrefix_app.
Qed.

Definition entry_values (path : list Z) (i : Z) (e : entry) : list KV :=
  [mk_kv (path ++ [47] ++ en_host e ++ [47] ++ bytes "config") (en_config e) i;
   mk_kv (path ++ [47] ++ en_host e ++ [47] ++ bytes "health") (en_health e) i].

Lemma service_tree_values path i l : (parseResponseNode (service_tree path i l) path).2 = concat (map (entry_values path i) l).
Proof.
  rewrite parse_leaves by apply service_tree_nested. unfold service_tree. cbn [leaves]. rewrite map_map.
  induction l as [|e l IH]; [done|]. cbn [map concat]. rewrite filter_app, IH. f_equal. unfold host_tree. cbn [leaves map concat app].
  rewrite !filter_cons_True by (simpl; rewrite <- !app_assoc; apply HasPrefix_app). unfold entry_values. simpl. by rewrite <- !app_assoc.
Qed.

Lemma batch_entries prefix path idx i l :
  HasPrefix (path ++ [47]) prefix = true ->
  batch prefix path idx Update (concat (map (entry_values path i) l)) = concat (map (entry_messages idx) l).
Proof.
  intros Hp. induction l as [|e l IH]; [done|]. cbn [map concat]. unfold batch in *. rewrite filter_app, map_app, IH. f_equal.
  assert (forall r, HasPrefix (path ++ [47] ++ r) prefix && HasPrefix (path ++ [47] ++ r) path) as H.
  { intros r. rewrite HasPrefix_app, app_assoc. apply andb_True. split; [|done]. apply Is_true_true.
    eapply HasPrefix_trans; [apply HasPrefix_app|exact Hp]. }
  unfold entry_values. rewrite !filter_cons_True by apply H. cbn [map filter kv_Key kv_Value].
  rewrite !message_for_key by (apply (bool_decide_unpack _); by vm_compute). done.
Qed.

(** C15: a service that is added to the watcher gives the pool, in one update, exactly the
    hosts that etcd has for it: each with the most specific values of its configuration
    and enabled when its health is up. *)
Theorem sd_service_read JU JE w service id path i l http data :
  path_Join (Prefix w) service = path -> path ≠ [] -> HasPrefix (path ++ [47]) (Prefix w) = true ->
  l ≠ [] -> NoDup (map en_host l) ->
  r_StatusCode http = 200 -> r_Body http = Some data -> JU data = Some (mk_json (bytes "get") (service_tree path i l) None) ->
  exists rsp w' c, ReadResponse JU JE http path = (Some rsp, None) /\
    doAddService service id [(GotResponse rsp, false)] w = Some (true, w') /\
    last (conns w') = Some c /\ wc_id c = id /\
    readSd ∅ (channel c) = [list_to_map (map (fun e => (en_host e, told e)) l)] /\
    forall e, e ∈ l ->
      sd_Disabled (told e) = negb (bool_decide (TrimSpace (en_health e) = bytes "up")) /\
      forall d k, Unmarshal (en_config e) = Some d -> field k (told e) = expected d k.
Proof.
  intros Hpath Hne Hpre Hl Hnd Hst Hb Hj. unfold ReadResponse. rewrite Hst, Hb, Hj. cbn [j_Node j_PrevNode j_Action].
  rewrite bool_decide_false by done. change (negb (200 =? 200) && negb (200 =? 201)) with false. cbv iota.
  pose proof (service_tree_values path i l) as Hv. destruct (parseResponseNode (service_tree path i l) path) as [maxI kvs].
  simpl in Hv. subst kvs. set (rsp := mk_response (bytes "get") (if ParseUint (X_Etcd_Index http) <? maxI then maxI else ParseUint (X_Etcd_Index http))
    (concat (map (entry_values path i) l)) []). eexists rsp, _, _. split; [done|]. unfold doAddService.
  cbn [get_retry mbind option_bind]. rewrite Hpath, handle_response_sends. set (w1 := set_conns _ w). split; [done|].
  set (idx := index_after rsp w1). cbn [conns].
  assert (response_for rsp w1 (mk_wconn id path [] 0 false)
    = mk_wconn id path (concat (map (entry_messages idx) l) ++ [note EndOfBatch idx]) idx false) as Hc.
  { unfold response_for. fold idx. cbn [srvpath]. change (happened rsp) with (Some Update). cbv iota. change (Prefix w1) with (Prefix w).
    cbn [Values rsp]. rewrite batch_entries by done. destruct l as [|e l']; [done|]. unfold received, send. simpl. by rewrite Z.eqb_refl. }
  fold w1. change (conns w1) with (conns w ++ [mk_wconn id path [] 0 false]). rewrite map_app. cbn [map]. rewrite last_snoc, Hc.
  split; [done|]. split; [done|]. cbn [channel]. split.
  - rewrite read_entries; [|done|by apply list.Forall_forall; intros; apply lookup_empty]. by rewrite (right_id_L ∅ (∪)).
  - intros e _. unfold told. split.
    + destruct (Unmarshal (en_config e)); [|done]. by rewrite configured_disabled.
    + intros d k ->. apply configured_fields.
Qed.

(** ** What a daemon publishes *)

(** The values of SDRegister: everything is under the stars. *)
Definition published (starstar : gmap (list Z) (list Z)) : sections := {[ bytes "*" := {[ bytes "*" := starstar ]} ]}.

(** A daemon's name, cost and ports are what every pool reads, whatever its host and
    application. *)
Lemma published_read starstar b k :
  field k (configured (published starstar) b) = match starstar !! k with Some v => as_field k v | None => field k (mk_sd [] ∅ 0 true) end.
Proof.
  rewrite configured_fields. unfold expected. assert (most_specific (published starstar) k = starstar !! k) as ->; [|done].
  assert (forall x y, section_of (published starstar) x y !! k =
    if decide (x = bytes "*" /\ y = bytes "*") then starstar !! k else None) as H.
  { intros x y. unfold section_of, published. destruct (decide (x = bytes "*")) as [->|Hx].
    - rewrite lookup_singleton_eq. simpl. destruct (decide (y = bytes "*")) as [->|Hy].
      + by rewrite lookup_singleton_eq, decide_True.
      + rewrite lookup_singleton_ne by done. simpl. rewrite lookup_empty. by rewrite decide_False by tauto.
    - rewrite lookup_singleton_ne by done. simpl. rewrite lookup_empty. by rewrite decide_False by tauto. }
  unfold most_specific. cbn [foldr fst snd]. rewrite !H. repeat case_match; naive_solver.
Qed.
End Reader.

(** * Waiting for the first hosts *)

(** AddConfig and AddSingle hold the lock of the balancer from before the reader starts
    until they return, and wait in between; NewConn gives the lock back before it waits.
    The reader needs the lock for the update after which it says that there are hosts. *)
Inductive caller_pc := Starting | Waits | Returned.
Inductive reader_pc := NotStarted | Reading | Swapping | Swapped | Announced.

Record wait_state := mk_wait { w_caller : caller_pc; w_reader : reader_pc; w_locked : bool; w_initial : bool }.

Inductive wait_step (unlocks : bool) : wait_state -> wait_state -> Prop :=
| ws_start : wait_step unlocks (mk_wait Starting NotStarted true false) (mk_wait Waits Reading (negb unlocks) false)
| ws_told r lk : wait_step unlocks (mk_wait Waits r lk true) (mk_wait Returned r (lk && unlocks) true)
| ws_timeout r lk i : wait_step unlocks (mk_wait Waits r lk i) (mk_wait Returned r (lk && unlocks) i)
| ws_lock c i : wait_step unlocks (mk_wait c Reading false i) (mk_wait c Swapping true i)
| ws_unlock c i : wait_step unlocks (mk_wait c Swapping true i) (mk_wait c Swapped false i)
| ws_announce c lk i : wait_step unlocks (mk_wait c Swapped lk i) (mk_wait c Announced lk true).

Definition wait_start : wait_state := mk_wait Starting NotStarted true false.

(** While AddConfig waits the reader has not got past the lock, so the wait never ends
    before its time is over. *)
Theorem initial_wait_in_vain s : rtc (wait_step false) wait_start s -> w_caller s = Waits -> w_initial s = false.
Proof.
  intros H. enough (match w_caller s with
    | Starting => s = wait_start
    | Waits => s = mk_wait Waits Reading true false
    | Returned => True end) as E by (intros Hc; rewrite Hc in E; by subst).
  revert H. apply (rtc_ind_r (fun s => match w_caller s with
    | Starting => s = wait_start | Waits => s = mk_wait Waits Reading true false | Returned => True end)); [done|].
  intros x y _ Hs IH. destruct Hs; simpl in *; try done; destruct c; simplify_eq; try done.
Qed.

(** NewConn can be told. *)
Lemma initial_wait_told : rtc (wait_step true) wait_start (mk_wait Returned Announced false true).
Proof.
  eapply rtc_l; [apply ws_start|]. eapply rtc_l; [apply ws_lock|]. eapply rtc_l; [apply ws_unlock|].
  eapply rtc_l; [apply ws_announce|]. eapply rtc_l; [apply (ws_told true Announced false)|]. apply rtc_refl.
Qed.

(** * Examples *)

Definition as_is : forall A, list A -> list A := fun _ l => l.
Definition one_section : sections := published (<[bytes "name" := bytes "n"]> {[ bytes "port" := bytes "80" ]}).
Definition decode (s : list Z) : option sections := if bool_decide (s = bytes "{}") then Some one_section else None.
Definition one_entry : list entry := [mk_ent (bytes "h") (bytes "{}") (bytes "up ")].
Definition one_watcher : Watcher := mk_watcher (bytes "/service/") 0 [] [].
Definition one_tree (s : list Z) : option jsonResponse := Some (mk_json (bytes "get") (service_tree (bytes "/service/s") 7 one_entry) None).

Lemma sd_service_read_witness :
  exists rsp w' c, ReadResponse one_tree (fun _ => None) (mk_http 200 (bytes "7") (Some [])) (bytes "/service/s") = (Some rsp, None) /\
    doAddService (bytes "s") 5 [(GotResponse rsp, false)] one_watcher = Some (true, w') /\
    last (conns w') = Some c /\ wc_id c = 5%nat /\
    readSd as_is decode (bytes "x") (bytes "a") ∅ (channel c)
      = [list_to_map (map (fun e => (en_host e, told as_is decode (bytes "x") (bytes "a") e)) one_entry)] /\
    forall e, e ∈ one_entry ->
      sd_Disabled (told as_is decode (bytes "x") (bytes "a") e) = negb (bool_decide (TrimSpace (en_health e) = bytes "up")) /\
      forall d k, decode (en_config e) = Some d -> field k (told as_is decode (bytes "x") (bytes "a") e) = expected (bytes "x") (bytes "a") d k.
Proof.
  apply (sd_service_read as_is (fun A l => reflexivity l) decode (bytes "x") (bytes "a") one_tree (fun _ => None) one_watcher
    (bytes "s") 5 (bytes "/service/s") 7 one_entry (mk_http 200 (bytes "7") (Some [])) []);
    [reflexivity|discriminate|reflexivity|discriminate|apply NoDup_singleton|reflexivity|reflexivity|reflexivity].
Defined.

(** A host without a cost has the cost zero. *)
Theorem sd_cost_zero : sd_Cost (configured as_is (bytes "x") (bytes "a") one_section false) = 0.
Proof. by vm_compute. Qed.

(** Deleting the configuration of a host leaves everything that was read from it. *)
Theorem sd_delete_config_kept hosts idx host h :
  hosts !! host = Some h -> sd_Ports h !! bytes "config" = None ->
  read_message as_is decode (bytes "x") (bytes "a") hosts (mk_message Delete idx host (bytes "config") []) = hosts.
Proof.
  intros Hh Hp. unfold read_message. simpl. rewrite Hh, delete_id by done. apply insert_id. by destruct h.
Qed.
