(* ===== verification/EtcdClient.v ===== *)
(** EtcdClient: the thread that watches etcd for the C daemons
    (core/lib/etcdclient.c).  A response is the tree that its JSON gives; what
    libcurl and the clock do are events.  A listener has the queue of sd_queue.c with
    its mutex: [None] is a thread that waits for a mutex it holds itself, a read of an
    array element that was never set, or a pointer that is not there. *)
From stdpp Require Import prelude list numbers option.
From Stdlib Require Import ZArith Lia.
From S2P Require Import Prelude Bconf SdQueue.

Local Open Scope Z_scope.

#[local] Set Warnings "-register-all".

(** * The watcher *)

(** [l_locked] is the mutex of the queue, [l_signals] counts the broadcasts. *)
Record listen := mk_listen {
  l_id : nat; l_path : list Z; l_tpvec : list nat; l_queue : list sd_value; l_locked : bool; l_signals : nat;
  l_sending : Z; l_send_state : bool
}.

Record etcdwatcher := mk_ec { ec_prefix : list Z; wait_idx : Z; listeners : list listen; new_listeners : list listen }.

Definition set_listeners ls (ec : etcdwatcher) := mk_ec (ec_prefix ec) (wait_idx ec) ls (new_listeners ec).
Definition set_wait_idx i (ec : etcdwatcher) := mk_ec (ec_prefix ec) i (listeners ec) (new_listeners ec).

Definition set_sending i (l : listen) := mk_listen (l_id l) (l_path l) (l_tpvec l) (l_queue l) (l_locked l) (l_signals l) i (l_send_state l).

(** ** The queue of a listener *)

Definition sd_queue_begin (l : listen) : option listen :=
  if l_locked l then None
  else Some (mk_listen (l_id l) (l_path l) (l_tpvec l) (l_queue l) true (l_signals l) (l_sending l) (bool_decide (l_queue l = []))).

Definition queue_insert (v : sd_value) (l : listen) : listen :=
  mk_listen (l_id l) (l_path l) (l_tpvec l) (sd_queue_insert (l_queue l) v) (l_locked l) (l_signals l) (l_sending l) (l_send_state l).

Definition sd_queue_commit (l : listen) : listen :=
  mk_listen (l_id l) (l_path l) (l_tpvec l) (l_queue l) false (if l_send_state l then S (l_signals l) else l_signals l) (l_sending l) (l_send_state l).

(** ** Numbers *)

(** The value of a character as a digit, and the run of digits in a base. *)
Definition digit_val (c : Z) : Z :=
  if isdigit c then c - 48 else if (97 <=? c) && (c <=? 122) then c - 87 else if (65 <=? c) && (c <=? 90) then c - 55 else 36.

Fixpoint based_digits (base acc : Z) (s : list Z) : Z :=
  match s with
  | c :: s => if digit_val c <? base then based_digits base (acc * base + digit_val c) s else acc
  | [] => acc
  end.

(** strtoull with base 0. *)
Definition strtoull (s : list Z) : Z :=
  let number s :=
    match s with
    | 48 :: x :: c :: r => if ((x =? 120) || (x =? 88)) && (digit_val c <? 16) then based_digits 16 0 (c :: r) else based_digits 8 0 (x :: c :: r)
    | 48 :: r => based_digits 8 0 r
    | r => based_digits 10 0 r
    end in
  match skip_space s with
  | 45 :: r => let n := number r in if n <? 2 ^ 64 then u64 (- n) else 2 ^ 64 - 1
  | 43 :: r => Z.min (number r) (2 ^ 64 - 1)
  | r => Z.min (number r) (2 ^ 64 - 1)
  end.

(** The header with the index of etcd; a line ends it. *)
Definition index_header : list Z := bytes "X-Etcd-Index: ".

Definition etcd_headers (line : list Z) (idx : Z) : Z :=
  if negb (idx =? 0) then idx
  else if (length line <? S (length index_header))%nat then idx
  else if bool_decide (take (length index_header) line = index_header) then u64 (strtoull (drop (length index_header) line) + 1)
  else idx.

(** ** Sending *)

(** The parts of a key between slashes, which are not empty. *)
Fixpoint key_parts (cur : list Z) (key : list Z) : list (list Z) :=
  match key with
  | [] => match cur with [] => [] | _ => [cur] end
  | c :: key =>
    if c =? 47 then match cur with [] => key_parts [] key | _ => cur :: key_parts [] key end
    else key_parts (cur ++ [c]) key
  end.

(** Where the part with an index goes. *)
Definition transposed (tpvec : list nat) (k : nat) : nat :=
  match tpvec !! k with Some j => if (j <? 16)%nat then j else k | None => k end.

(** The array of keys: sixteen that are not set at first. *)
Fixpoint place_parts (tpvec : list nat) (k : nat) (parts : list (list Z)) (keyv : list (option (list Z))) : list (option (list Z)) :=
  match parts with
  | [] => keyv
  | p :: parts => place_parts tpvec (S k) parts (<[transposed tpvec k := Some p]> keyv)
  end.

Definition key_array (tpvec : list nat) (key : list Z) (extrakey : option (list Z)) : nat * list (option (list Z)) :=
  let parts := take 16 (key_parts [] key) in
  let keyc := length parts in
  let keyv := place_parts tpvec 0 parts (replicate 16 None) in
  match extrakey with
  | Some e => if (keyc <? 16)%nat then (S keyc, <[(if (0 <? keyc)%nat then transposed tpvec keyc else keyc) := Some e]> keyv) else (keyc, keyv)
  | None => (keyc, keyv)
  end.

(** A value that is NULL is measured by sd_create_value. *)
Definition etcd_enqueue_for_listener (idx : Z) (key : list Z) (extrakey : option (list Z)) (value : option (list Z)) (l : listen) : option listen :=
  l ← (if l_sending l =? idx then Some l else sd_queue_begin (set_sending idx l));
  let '(keyc, keyv) := key_array (l_tpvec l) key extrakey in
  if (keyc =? 0)%nat then Some l
  else keys ← mapM id (take keyc keyv); v ← value; Some (queue_insert (mk_value idx keys v) l).

(** Whether a key is the path of a listener or below it. *)
Definition for_listener (key path : list Z) : bool :=
  bool_decide (take (length path) key = path) &&
  (bool_decide (path = []) || match key !! length path with None => true | Some c => c =? 47 end).

Definition enqueue_if (idx : Z) (key : list Z) (extrakey : option (list Z)) (value : option (list Z)) (l : listen) : option listen :=
  if for_listener key (l_path l) then etcd_enqueue_for_listener idx (drop (length (l_path l)) key) extrakey value l else Some l.

Definition etcd_enqueue_value (key : list Z) (extrakey : option (list Z)) (value : option (list Z)) (ec : etcdwatcher) : option etcdwatcher :=
  ls ← mapM (enqueue_if (wait_idx ec) key extrakey value) (listeners ec); Some (set_listeners ls ec).

(** ** Responses *)

Definition etcd_update_index (src : option bconf_node) (ec : etcdwatcher) : option etcdwatcher :=
  s ← bconf_get_string src (bytes "modifiedIndex");
  let mi := strtoull (default (bytes "0") s) in
  Some (if wait_idx ec <=? mi then set_wait_idx (u64 (mi + 1)) ec else ec).

Definition is_inside (key : option (list Z)) (prefix : list Z) : bool :=
  match key with Some k => bool_decide (take (length prefix) k = prefix) | None => false end.

Fixpoint etcd_parse_node (fuel : nat) (prefix : list Z) (src : option bconf_node) (ec : etcdwatcher) : option etcdwatcher :=
  match fuel with
  | O => None
  | S fuel =>
    key ← bconf_get_string src (bytes "key");
    let inside := is_inside key prefix in
    ec ← etcd_update_index src ec;
    dir ← bconf_get_string src (bytes "dir");
    if bool_decide (dir ≠ Some (bytes "true")) && negb inside then Some ec
    else
      ec ← (if bool_decide (dir ≠ Some (bytes "true")) then
              k ← key;
              v ← bconf_get_string src (bytes "value");
              etcd_enqueue_value (drop (length prefix) k) None v ec
            else Some ec);
      let k := match key with
               | Some k => if bool_decide (dir ≠ Some (bytes "true")) then drop (length prefix) k else k
               | None => [] end in
      if inside || bool_decide (key = None) || bool_decide (take (length k) prefix = k) then
        nodes ← bconf_get src (bytes "nodes");
        foldl (fun r n => ec ← r; etcd_parse_node fuel prefix (Some n) ec) (Some ec) (match nodes with Some n => n_subs n | None => [] end)
      else Some ec
  end.

Definition etcd_parse_delete (prefix : list Z) (src : option bconf_node) (ec : etcdwatcher) : option etcdwatcher :=
  key ← bconf_get_string src (bytes "key");
  ec ← etcd_update_index src ec;
  match key with
  | Some k => if is_inside key prefix then etcd_enqueue_value (drop (length prefix) k) (Some (bytes "delete")) (Some []) ec else Some ec
  | None => Some ec
  end.

(** [result] is the tree of the body, or what is not JSON. *)
Definition etcd_parse_response (fuel : nat) (result : option bconf_node) (flush : bool) (ec : etcdwatcher) : option (Z * etcdwatcher) :=
  match result with
  | None => Some (-1, ec)
  | Some _ =>
    ec ← etcd_update_index result ec;
    let ec := set_listeners (map (set_sending 0) (listeners ec)) ec in
    ec ← (if flush then ls ← mapM (etcd_enqueue_for_listener (wait_idx ec) [] (Some (bytes "flush")) (Some [])) (listeners ec); Some (set_listeners ls ec)
          else Some ec);
    action ← bconf_get_string result (bytes "action");
    node ← bconf_get result (bytes "node");
    ec ← (if bool_decide (action = Some (bytes "expire")) || bool_decide (action = Some (bytes "delete"))
          then etcd_parse_delete (ec_prefix ec) node ec else etcd_parse_node fuel (ec_prefix ec) node ec);
    Some (0, set_listeners (map (fun l => if l_sending l =? wait_idx ec then sd_queue_commit l else l) (listeners ec)) ec)
  end.

(** ** Listeners *)

(** The first new listener is one now, and its path is asked for. *)
Definition new_listener_event (ec : etcdwatcher) : option (list Z) * etcdwatcher :=
  match new_listeners ec with
  | [] => (None, ec)
  | l :: ls => (Some (ec_prefix ec ++ l_path l), mk_ec (ec_prefix ec) (wait_idx ec) (listeners ec ++ [l]) ls)
  end.

Definition new_listen (id : nat) (path : list Z) (tpvec : list nat) : listen := mk_listen id path tpvec [] false 0 0 false.

Definition etcdwatcher_add_listen (running : bool) (id : nat) (path : list Z) (tpvec : list nat) (ec : etcdwatcher) : etcdwatcher :=
  if running then mk_ec (ec_prefix ec) (wait_idx ec) (listeners ec) (new_listeners ec ++ [new_listen id path tpvec])
  else set_listeners (listeners ec ++ [new_listen id path tpvec]) ec.

Fixpoint remove_listen (id : nat) (ls : list listen) : option (list listen) :=
  match ls with
  | [] => None
  | l :: ls => if (l_id l =? id)%nat then Some ls else ls ← remove_listen id ls; Some (l :: ls)
  end.

Definition etcdwatcher_remove_listen (id : nat) (ec : etcdwatcher) : etcdwatcher :=
  match remove_listen id (new_listeners ec) with
  | Some ls => mk_ec (ec_prefix ec) (wait_idx ec) (listeners ec) ls
  | None => match remove_listen id (listeners ec) with Some ls => set_listeners ls ec | None => ec end
  end.

(** Both loops take the first of the listeners.  While there are new ones the first loop
    does not end: it takes out all listeners, which are not the new ones, and then
    follows a NULL pointer. *)
Fixpoint free_new (new ls : list listen) {struct ls} : option (list listen) :=
  match new with
  | [] => Some ls
  | _ => match ls with [] => None | _ :: ls => free_new new ls end
  end.

Definition etcdwatcher_free (ec : etcdwatcher) : option unit := _ ← free_new (new_listeners ec) (listeners ec); Some tt.

(** * The thread *)

(** What is asked: everything, the path of a new listener, or to wait for changes. *)
Inductive ask := AskAll | AskPath (path : list Z) | AskWait (idx : Z).

Record thread_state := mk_thread {
  t_ec : etcdwatcher; t_asks : ask; processing_event : bool; t_flush : bool; preproc_wait_idx : Z; backoff : Z
}.

Definition INITIAL_BACKOFF_US : Z := 500000.
Definition MAX_BACKOFF_US : Z := 8000000.

Definition etcd_thread_start (ec : etcdwatcher) : thread_state := mk_thread ec AskAll true false 0 INITIAL_BACKOFF_US.

(** The time for a flush has come. *)
Definition flush_due (t : thread_state) : thread_state :=
  if processing_event t || t_flush t then t
  else mk_thread (t_ec t) AskAll (processing_event t) true (preproc_wait_idx t) (backoff t).

(** There is an event in the pipe. *)
Definition event_due (t : thread_state) : thread_state :=
  if processing_event t || t_flush t then t
  else
    match new_listener_event (t_ec t) with
    | (Some path, ec) => mk_thread ec (AskPath path) true (t_flush t) (wait_idx ec) (backoff t)
    | (None, ec) => mk_thread ec (t_asks t) false (t_flush t) (preproc_wait_idx t) (backoff t)
    end.

(** The transfer is done: [header] is the header with the index if one came, and [None] for
    [result] a body that is not JSON or a transfer that failed. *)
Definition transfer_done (fuel : nat) (header : list Z) (result : option bconf_node) (t : thread_state) : option thread_state :=
  let ec := set_wait_idx (etcd_headers header (wait_idx (t_ec t))) (t_ec t) in
  '(r, ec) ← etcd_parse_response fuel result (t_flush t) ec;
  if r =? 0 then
    let ec := if processing_event t && negb (preproc_wait_idx t =? 0) then set_wait_idx (preproc_wait_idx t) ec else ec in
    Some (mk_thread ec (AskWait (wait_idx ec)) false false (preproc_wait_idx t) INITIAL_BACKOFF_US)
  else
    Some (mk_thread ec (t_asks t) (processing_event t) (t_flush t) (preproc_wait_idx t) (Z.min (backoff t * 2) MAX_BACKOFF_US)).

(** * Sending to one listener *)

(** The keys of a value, if all of them were set. *)
Definition keys_of (tpvec : list nat) (key : list Z) (extrakey : option (list Z)) : option (list (list Z)) :=
  let '(keyc, keyv) := key_array tpvec key extrakey in mapM id (take keyc keyv).

(** A listener whose queue is open for the batch, and one that is not in a batch. *)
Definition in_batch (idx : Z) (l : listen) : Prop := l_sending l = idx /\ l_locked l = true.
Definition at_rest (idx : Z) (l : listen) : Prop := l_sending l ≠ idx /\ l_locked l = false.

(** The listener after values of one batch were put in its queue. *)
Definition with_values (idx : Z) (vs : list sd_value) (l : listen) : listen :=
  match vs with
  | [] => l
  | _ => mk_listen (l_id l) (l_path l) (l_tpvec l) (insert_all (l_queue l) vs) true (l_signals l) idx
           (if l_sending l =? idx then l_send_state l else bool_decide (l_queue l = []))
  end.

Lemma with_values_app idx vs vs' l : with_values idx vs' (with_values idx vs l) = with_values idx (vs ++ vs') l.
Proof.
  destruct l, vs as [|v vs], vs' as [|v' vs']; try done; unfold with_values; simpl; rewrite ?app_nil_r; [done|].
  rewrite Z.eqb_refl. f_equal. unfold insert_all. by rewrite fold_left_app.
Qed.

Lemma take_nil_length {A} (l : list A) n : take n l = [] -> (n <= length l)%nat -> n = 0%nat.
Proof. intros E H. apply (f_equal length) in E. rewrite length_take in E. simpl in E. lia. Qed.

Lemma place_parts_length tpvec k parts keyv : length (place_parts tpvec k parts keyv) = length keyv.
Proof. revert k keyv. induction parts as [|p parts IH]; intros k keyv; [done|]. simpl. by rewrite IH, length_insert. Qed.

Lemma key_array_length tpvec key extrakey : let '(keyc, keyv) := key_array tpvec key extrakey in (keyc <= length keyv)%nat.
Proof.
  unfold key_array. assert (length (take 16 (key_parts [] key)) <= 16)%nat as H by (rewrite length_take; lia).
  set (keyc := length _) in *. set (keyv := place_parts _ _ _ _).
  assert (length keyv = 16%nat) as Hv by (unfold keyv; by rewrite place_parts_length, length_replicate).
  destruct extrakey as [e|]; [|lia]. destruct (Nat.ltb_spec keyc 16); [rewrite length_insert|]; lia.
Qed.

Lemma enqueue_one idx key extrakey v l keys :
  keys_of (l_tpvec l) key extrakey = Some keys -> keys ≠ [] -> in_batch idx l \/ at_rest idx l ->
  etcd_enqueue_for_listener idx key extrakey (Some v) l = Some (with_values idx [mk_value idx keys v] l).
Proof.
  intros Hk Hne Hl. unfold etcd_enqueue_for_listener.
  assert ((if l_sending l =? idx then Some l else sd_queue_begin (set_sending idx l)) = Some (mk_listen (l_id l) (l_path l) (l_tpvec l)
    (l_queue l) true (l_signals l) idx (if l_sending l =? idx then l_send_state l else bool_decide (l_queue l = [])))) as ->.
  { destruct l as [i p tp q lk sg sd ss]. destruct Hl as [[E1 E2]|[E1 E2]]; simpl in *; subst.
    - by rewrite Z.eqb_refl.
    - unfold sd_queue_begin. simpl. by destruct (Z.eqb_spec sd idx). }
  simpl. unfold keys_of in Hk. pose proof (key_array_length (l_tpvec l) key extrakey) as Hlen.
  destruct (key_array (l_tpvec l) key extrakey) as [keyc keyv]. destruct (Nat.eqb_spec keyc 0) as [->|Hc]; [injection Hk as <-; done|].
  rewrite Hk. done.
Qed.

Lemma with_values_in_batch idx vs l : vs ≠ [] -> in_batch idx (with_values idx vs l).
Proof. by destruct vs. Qed.

(** What a response tells: a key, a word that is added to it and a value. *)
Record leaf := mk_leaf { lf_key : list Z; lf_extra : option (list Z); lf_value : list Z }.

(** The keys that a listener gets for a key below its path: its parts and the added word,
    of which a listener of service discovery has the first two change places. *)
Definition arranged (tpvec : list nat) (parts : list (list Z)) : list (list Z) :=
  match tpvec, parts with
  | [], _ => parts
  | _, k1 :: k2 :: rest => k2 :: k1 :: rest
  | _, _ => parts
  end.

Definition extra_list (extra : option (list Z)) : list (list Z) := match extra with Some e => [e] | None => [] end.

Definition listener_keys (l : listen) (lf : leaf) : list (list Z) :=
  arranged (l_tpvec l) (key_parts [] (drop (length (l_path l)) (lf_key lf)) ++ extra_list (lf_extra lf)).

Definition values_for (idx : Z) (l : listen) (lfs : list leaf) : list sd_value :=
  omap (fun lf => if for_listener (lf_key lf) (l_path l) then Some (mk_value idx (listener_keys l lf) (lf_value lf)) else None) lfs.

(** The keys that a listener gets are complete. *)
Definition complete (l : listen) (lfs : list leaf) : Prop :=
  forall lf, lf ∈ lfs -> for_listener (lf_key lf) (l_path l) = true ->
    keys_of (l_tpvec l) (drop (length (l_path l)) (lf_key lf)) (lf_extra lf) = Some (listener_keys l lf) /\ listener_keys l lf ≠ [].

Lemma enqueue_leaves idx lfs l : complete l lfs -> in_batch idx l \/ at_rest idx l ->
  foldl (fun r lf => l ← r; enqueue_if idx (lf_key lf) (lf_extra lf) (Some (lf_value lf)) l) (Some l) lfs = Some (with_values idx (values_for idx l lfs) l).
Proof.
  revert l. induction lfs as [|lf lfs IH]; intros l Hc Hl; [done|]. cbn [foldl]. unfold enqueue_if at 2. simpl mbind.
  unfold values_for. cbn [omap list_omap]. destruct (for_listener (lf_key lf) (l_path l)) eqn:E.
  - destruct (Hc lf) as (Hk & Hne); [by left|done|]. rewrite (enqueue_one _ _ _ _ _ (listener_keys l lf)) by done.
    rewrite IH; [|intros lf' Hlf'; apply Hc; by right|left; by apply with_values_in_batch].
    by rewrite with_values_app.
  - rewrite IH; [done| |done]. intros lf' Hlf'. apply Hc. by right.
Qed.

(** All listeners get the leaves, each as if it were alone. *)
Lemma enqueue_all kvs ec ls' :
  Forall2 (fun l l' => foldl (fun r kv => l ← r; enqueue_if (wait_idx ec) (lf_key kv) (lf_extra kv) (Some (lf_value kv)) l) (Some l) kvs = Some l') (listeners ec) ls' ->
  foldl (fun r kv => ec ← r; etcd_enqueue_value (lf_key kv) (lf_extra kv) (Some (lf_value kv)) ec) (Some ec) kvs = Some (set_listeners ls' ec).
Proof.
  revert ec. induction kvs as [|kv kvs IH]; intros ec H.
  - destruct ec as [p i ls n]. simpl in *. unfold set_listeners. simpl. do 2 f_equal. induction H as [|l l' ls ls' E H IHl]; [done|]. by simplify_eq.
  - cbn [foldl]. simpl mbind. unfold etcd_enqueue_value at 2.
    assert (exists ls1, mapM (enqueue_if (wait_idx ec) (lf_key kv) (lf_extra kv) (Some (lf_value kv))) (listeners ec) = Some ls1 /\
      Forall2 (fun l l' => foldl (fun r kv => l ← r; enqueue_if (wait_idx ec) (lf_key kv) (lf_extra kv) (Some (lf_value kv)) l) (Some l) kvs = Some l') ls1 ls') as (ls1 & E1 & H1).
    { clear IH. induction H as [|l l' ls ls' E H IHl]; [by exists []|]. destruct IHl as (ls1 & E1 & H1). cbn [foldl] in E. simpl mbind in E.
      destruct (enqueue_if (wait_idx ec) (lf_key kv) (lf_extra kv) (Some (lf_value kv)) l) as [l1|] eqn:El.
      - exists (l1 :: ls1). simpl. rewrite El, E1. simpl. auto.
      - exfalso. clear -E. induction kvs as [|kv' kvs IH]; simpl in E; [done|auto]. }
    rewrite E1. simpl. rewrite (IH (set_listeners ls1 ec)) by done. done.
Qed.

(** * The tree of a response *)

(** A node of etcd: a value, or a directory. *)
Inductive enode := ENode (key : list Z) (modified : Z) (value : option (list Z)) (nodes : list enode).

Definition e_key (e : enode) : list Z := let '(ENode k _ _ _) := e in k.

(** The bconf node that its JSON gives. *)
Fixpoint shows (e : enode) (n : bconf_node) : Prop :=
  let '(ENode key modified value nodes) := e in
  bconf_get_string (Some n) (bytes "key") = Some (Some key) /\
  (exists s, bconf_get_string (Some n) (bytes "modifiedIndex") = Some s /\ strtoull (default (bytes "0") s) = modified) /\
  match value with
  | Some v =>
    (exists d, bconf_get_string (Some n) (bytes "dir") = Some d /\ d ≠ Some (bytes "true")) /\
    bconf_get_string (Some n) (bytes "value") = Some (Some v) /\ bconf_get (Some n) (bytes "nodes") = Some None
  | None =>
    bconf_get_string (Some n) (bytes "dir") = Some (Some (bytes "true")) /\
    exists ns, bconf_get (Some n) (bytes "nodes") = Some ns /\
      (fix all (es : list enode) (ns : list bconf_node) : Prop :=
         match es, ns with [], [] => True | e :: es, n :: ns => shows e n /\ all es ns | _, _ => False end)
        nodes (match ns with Some n => n_subs n | None => [] end)
  end.

Fixpoint e_leaves (e : enode) : list leaf :=
  let '(ENode k _ value nodes) := e in match value with Some v => [mk_leaf k None v] | None => concat (map e_leaves nodes) end.

(** The keys in a directory start with its key. *)
Fixpoint e_nested (e : enode) : Prop :=
  let '(ENode k _ _ nodes) := e in foldr (fun e P => (take (length k) (e_key e) = k /\ e_nested e) /\ P) True nodes.

(** The index that the watcher waits for after it saw [i]. *)
Definition raise (idx i : Z) : Z := if idx <=? i then u64 (i + 1) else idx.

(** The index while the tree is walked, with whether a value was sent: nothing if the index
    changes after that.  A directory that is neither inside the prefix nor above it is
    not entered. *)
Fixpoint walk (prefix : list Z) (e : enode) (st : Z * bool) : option (Z * bool) :=
  let '(ENode k i v nodes) := e in
  let inside := bool_decide (take (length prefix) k = prefix) in
  if snd st && negb (raise (fst st) i =? fst st) then None
  else
    match v with
    | Some _ => Some (raise (fst st) i, snd st || inside)
    | None =>
      if inside || bool_decide (take (length k) prefix = k)
      then foldl (fun r e => st ← r; walk prefix e st) (Some (raise (fst st) i, snd st)) nodes
      else Some (raise (fst st) i, snd st)
    end.

Fixpoint e_height (e : enode) : nat := let '(ENode _ _ _ nodes) := e in S (foldr (fun e h => Nat.max (e_height e) h) 0%nat nodes).

Lemma enode_rect' (P : enode -> Prop) : (forall k i v nodes, Forall P nodes -> P (ENode k i v nodes)) -> forall e, P e.
Proof.
  intros H. fix IH 1. intros [k i v nodes]. apply H. clear -IH. induction nodes as [|e nodes IHl]; constructor; [apply IH|exact IHl].
Qed.

Lemma take_prefix_trans (a b c : list Z) : take (length a) b = a -> take (length b) c = b -> take (length a) c = a.
Proof.
  intros H1 H2. assert (length a <= length b)%nat by (rewrite <- H1, length_take; lia).
  pose proof H1 as E. rewrite <- H2, take_take, Nat.min_l in E by done. exact E.
Qed.

Lemma e_nested_leaves e : e_nested e -> Forall (fun lf => take (length (e_key e)) (lf_key lf) = e_key e) (e_leaves e).
Proof.
  induction e as [k i v nodes IH] using enode_rect'. intros Hn. simpl in *. destruct v as [v|].
  - constructor; [|constructor]. simpl. apply firstn_all.
  - induction IH as [|e nodes IHe _ IHl]; [constructor|]. destruct Hn as [[Hk Hn] Hl]. simpl. apply Forall_app. split; [|by apply IHl].
    eapply Forall_impl; [exact (IHe Hn)|]. intros kv Hkv. by eapply take_prefix_trans.
Qed.

Definition below_prefix (prefix : list Z) (kvs : list leaf) : list leaf :=
  map (fun lf => mk_leaf (drop (length prefix) (lf_key lf)) (lf_extra lf) (lf_value lf)) (filter (fun lf => take (length prefix) (lf_key lf) = prefix) kvs).

Lemma below_prefix_app prefix k l : below_prefix prefix (k ++ l) = below_prefix prefix k ++ below_prefix prefix l.
Proof. unfold below_prefix. by rewrite filter_app, map_app. Qed.

(** Two strings that both start a third are the start of one another. *)
Lemma prefixes_comparable (a b c : list Z) :
  take (length a) c = a -> take (length b) c = b -> take (length a) b = a \/ take (length b) a = b.
Proof.
  intros Ha Hb. destruct (decide (length a <= length b)%nat) as [H|H].
  - left. rewrite <- Hb, take_take, Nat.min_l by lia. done.
  - right. rewrite <- Ha, take_take, Nat.min_l by lia. done.
Qed.

Lemma below_prefix_none prefix k kvs :
  take (length prefix) k ≠ prefix -> take (length k) prefix ≠ k -> Forall (fun kv => take (length k) (lf_key kv) = k) kvs -> below_prefix prefix kvs = [].
Proof.
  intros H1 H2 H. unfold below_prefix. induction H as [|kv kvs Hkv H IH]; [done|].
  rewrite filter_cons_False; [done|]. intros E. destruct (prefixes_comparable _ _ _ E Hkv); done.
Qed.

Definition send_leaves (kvs : list leaf) (r : option etcdwatcher) : option etcdwatcher :=
  foldl (fun r lf => ec ← r; etcd_enqueue_value (lf_key lf) (lf_extra lf) (Some (lf_value lf)) ec) r kvs.

Lemma send_leaves_none kvs : send_leaves kvs None = None.
Proof. induction kvs as [|kv kvs IH]; [done|exact IH]. Qed.

Lemma send_leaves_idx kvs ec ec' : send_leaves kvs (Some ec) = Some ec' -> wait_idx ec' = wait_idx ec.
Proof.
  revert ec. induction kvs as [|kv kvs IH]; intros ec H; [by simplify_eq/=|]. unfold send_leaves in *. cbn [foldl] in H. simpl mbind in H.
  unfold etcd_enqueue_value at 2 in H. destruct (mapM _ _) as [ls|]; simpl in H; [by apply IH in H|].
  exfalso. pose proof (send_leaves_none kvs) as E. unfold send_leaves in E. congruence.
Qed.

Lemma walk_none prefix nodes : foldl (fun r e => st ← r; walk prefix e st) None nodes = None.
Proof. induction nodes as [|e nodes IH]; [done|exact IH]. Qed.

(** After a value was sent the index stays. *)
Lemma walk_sent prefix e idx st : walk prefix e (idx, true) = Some st -> st = (idx, true).
Proof.
  revert idx st. induction e as [k i v nodes IH] using enode_rect'. intros idx st. cbn [walk fst snd andb orb].
  destruct (Z.eqb_spec (raise idx i) idx) as [E|E]; [|done]. cbn [negb]. rewrite E. destruct v; [by intros; simplify_eq|].
  destruct (_ || _); [|by intros; simplify_eq]. revert idx st E. induction IH as [|e nodes He _ IHl]; intros idx st E; [by intros [= <-]|].
  cbn [foldl mbind option_bind]. destruct (walk prefix e (idx, true)) as [st1|] eqn:E1; [|by rewrite walk_none].
  apply He in E1 as ->. by apply IHl.
Qed.

Lemma walks_sent prefix nodes idx st : foldl (fun r e => st ← r; walk prefix e st) (Some (idx, true)) nodes = Some st -> st = (idx, true).
Proof.
  induction nodes as [|e nodes IH]; [by intros [= <-]|]. cbn [foldl mbind option_bind].
  destruct (walk prefix e (idx, true)) as [st1|] eqn:E; [|by rewrite walk_none]. apply walk_sent in E as ->. exact IH.
Qed.

(** With nothing sent there is no value inside the prefix. *)
Lemma walk_unsent prefix e idx idx' : e_nested e -> walk prefix e (idx, false) = Some (idx', false) -> below_prefix prefix (e_leaves e) = [].
Proof.
  revert idx idx'. induction e as [k i v nodes IH] using enode_rect'. intros idx idx' Hn. cbn [walk fst snd andb orb].
  pose proof (e_nested_leaves _ Hn) as Hl. destruct v as [v|]; cbn [e_leaves e_key] in *.
  - intros H. simplify_eq. unfold below_prefix. rewrite filter_cons_False; [done|]. by eapply bool_decide_eq_false_1.
  - destruct (bool_decide (take (length prefix) k = prefix) || bool_decide (take (length k) prefix = k)) eqn:Hin.
    2: { apply orb_false_iff in Hin as [H1%bool_decide_eq_false H2%bool_decide_eq_false]. intros _. by apply (below_prefix_none prefix k). }
    clear Hl Hin. generalize (raise idx i). simpl in Hn. induction IH as [|e nodes He _ IHl]; intros w; [done|]. destruct Hn as [[_ Hen] Hn].
    cbn [foldl mbind option_bind map concat]. destruct (walk prefix e (w, false)) as [[w1 []]|] eqn:E1; [| |by rewrite walk_none].
    + by intros H%walks_sent.
    + intros H. rewrite below_prefix_app, (He _ _ Hen E1). simpl. by apply (IHl Hn w1).
Qed.

Lemma set_wait_same ec : set_wait_idx (wait_idx ec) ec = ec.
Proof. by destruct ec. Qed.

Lemma parse_none fuel prefix l : foldl (fun r n => ec ← r; etcd_parse_node fuel prefix (Some n) ec) None l = None.
Proof. induction l as [|m l IH]; [done|exact IH]. Qed.

(** The nodes of a directory, each of which is known. *)
Lemma parse_nodes fuel prefix nodes :
  Forall (fun e => forall fuel n ec sent idx sent', shows e n -> e_nested e -> walk prefix e (wait_idx ec, sent) = Some (idx, sent') -> (e_height e <= fuel)%nat ->
    etcd_parse_node fuel prefix (Some n) ec = send_leaves (below_prefix prefix (e_leaves e)) (Some (set_wait_idx idx ec))) nodes ->
  forall ec w sent idx sent' l,
  Forall e_nested nodes ->
  (fix all (es : list enode) (ns : list bconf_node) : Prop :=
     match es, ns with [], [] => True | e :: es, n :: ns => shows e n /\ all es ns | _, _ => False end) nodes l ->
  foldl (fun r e => st ← r; walk prefix e st) (Some (w, sent)) nodes = Some (idx, sent') ->
  (foldr (fun e h => Nat.max (e_height e) h) 0 nodes <= fuel)%nat ->
  foldl (fun r n => ec ← r; etcd_parse_node fuel prefix (Some n) ec) (Some (set_wait_idx w ec)) l =
    send_leaves (below_prefix prefix (concat (map e_leaves nodes))) (Some (set_wait_idx idx ec)).
Proof.
  induction 1 as [|e nodes He _ IH]; intros ec w sent idx sent' l Hn Hall Hw Hf; (destruct l as [|m l]; try done); [by simplify_eq/=|].
  destruct Hall as [Hs Hall]. apply list.Forall_cons in Hn as [Hen Hn]. cbn [foldl map concat mbind option_bind] in *. simpl in Hf.
  destruct (walk prefix e (w, sent)) as [[w1 sent1]|] eqn:E1; [|by rewrite walk_none in Hw].
  rewrite (He fuel m (set_wait_idx w ec) sent w1 sent1) by (done || lia). rewrite below_prefix_app. unfold send_leaves at 2. rewrite foldl_app.
  change (set_wait_idx w1 (set_wait_idx w ec)) with (set_wait_idx w1 ec).
  destruct sent1.
  - pose proof (walks_sent _ _ _ _ Hw) as [= -> ->]. fold (send_leaves (below_prefix prefix (e_leaves e)) (Some (set_wait_idx w1 ec))).
    destruct (send_leaves (below_prefix prefix (e_leaves e)) (Some (set_wait_idx w1 ec))) as [ec1|] eqn:E2.
    + apply send_leaves_idx in E2. cbn [wait_idx set_wait_idx] in E2.
      assert (set_wait_idx w1 ec1 = ec1) as Ew by (rewrite <- E2; apply set_wait_same).
      pose proof (IH ec1 w1 true w1 true l Hn Hall Hw ltac:(lia)) as H. by rewrite Ew in H.
    + fold (send_leaves (below_prefix prefix (concat (map e_leaves nodes))) None). by rewrite send_leaves_none, parse_none.
  - assert (sent = false) as -> by (destruct sent; [by apply walk_sent in E1|done]).
    rewrite (walk_unsent _ _ _ _ Hen E1). apply (IH ec w1 false idx sent'); [done|done|done|lia].
Qed.

(** A tree whose index changes only before the first value is walked from its first leaf to
    its last: each one that is below the prefix is sent with the last index. *)
Lemma parse_tree fuel prefix e n : forall ec sent idx sent',
  shows e n -> e_nested e -> walk prefix e (wait_idx ec, sent) = Some (idx, sent') -> (e_height e <= fuel)%nat ->
  etcd_parse_node fuel prefix (Some n) ec = send_leaves (below_prefix prefix (e_leaves e)) (Some (set_wait_idx idx ec)).
Proof.
  revert fuel n. induction e as [k i v nodes IH] using enode_rect'. intros fuel n ec sent idx sent' (Hk & (s & Hs & Hi) & Hv) Hn Hw Hf.
  destruct fuel as [|fuel]; [simpl in Hf; lia|]. cbn [etcd_parse_node]. rewrite Hk. cbn [mbind option_bind]. unfold etcd_update_index.
  rewrite Hs. cbn [mbind option_bind]. rewrite Hi. cbn [walk fst snd] in Hw.
  assert ((if wait_idx ec <=? i then set_wait_idx (u64 (i + 1)) ec else ec) = set_wait_idx (raise (wait_idx ec) i) ec) as ->.
  { unfold raise. destruct (wait_idx ec <=? i); [done|by rewrite set_wait_same]. }
  destruct (sent && negb (raise (wait_idx ec) i =? wait_idx ec)); [done|].
  cbn [is_inside]. destruct v as [v|].
  - injection Hw as <- _. destruct Hv as ((d & Hd & Hnt) & Hval & Hno). rewrite Hd. cbn [mbind option_bind]. rewrite (bool_decide_true (d ≠ _)) by done.
    cbn [e_leaves andb]. unfold below_prefix. destruct (decide (take (length prefix) k = prefix)) as [Hin|Hin].
    + rewrite (bool_decide_true (take (length prefix) k = prefix)), Hval by done. cbn [mbind option_bind negb orb]. rewrite filter_cons_True by done.
      cbn [map filter lf_key lf_extra lf_value]. unfold send_leaves. cbn [foldl mbind option_bind lf_key lf_extra lf_value].
      destruct (etcd_enqueue_value (drop (length prefix) k) None (Some v) _); [|done]. cbn [mbind option_bind]. by rewrite Hno.
    + rewrite (bool_decide_false (take (length prefix) k = prefix)) by done. by rewrite filter_cons_False.
  - destruct Hv as (Hd & ns & Hns & Hall). rewrite Hd. cbn [mbind option_bind].
    rewrite (bool_decide_false (Some (bytes "true") ≠ _)) by (intros H; by apply H). cbn [andb mbind option_bind].
    rewrite (bool_decide_false (Some k = None)), orb_false_r by done.
    pose proof (e_nested_leaves (ENode k i None nodes) Hn) as Hl. cbn [e_leaves e_key] in Hl |- *.
    destruct (bool_decide (take (length prefix) k = prefix) || bool_decide (take (length k) prefix = k)) eqn:Hin.
    2: { apply orb_false_iff in Hin as [H1%bool_decide_eq_false H2%bool_decide_eq_false]. rewrite (below_prefix_none prefix k) by done.
         by injection Hw as <- _. }
    rewrite Hns. cbn [mbind option_bind]. apply (parse_nodes fuel prefix nodes IH ec (raise (wait_idx ec) i) sent idx sent'); [|done|done|simpl in Hf; lia].
    clear -Hn. simpl in Hn. induction nodes as [|e nodes IH]; constructor; [apply Hn|apply IH, Hn].
Qed.

(** * A whole response *)

(** With the transposition of service discovery, the first two parts of a key of two to
    sixteen parts change places. *)
Lemma place_rest k rest keyv tpvec :
  (length tpvec <= k)%nat -> (k + length rest <= length keyv)%nat ->
  place_parts tpvec k rest keyv = take k keyv ++ map Some rest ++ drop (k + length rest) keyv.
Proof.
  revert k keyv. induction rest as [|p rest IH]; intros k keyv Ht Hl.
  - simpl. by rewrite Nat.add_0_r, take_drop.
  - simpl in *. rewrite IH by (rewrite ?length_insert; lia). unfold transposed. rewrite (lookup_ge_None_2 tpvec) by lia.
    rewrite (take_S_r _ _ (Some p)) by (apply list_lookup_insert_eq; lia). rewrite take_insert_ge by lia.
    rewrite drop_insert_lt by lia. rewrite <- app_assoc. by replace (S k + length rest)%nat with (k + S (length rest))%nat by lia.
Qed.

Lemma mapM_id_Some {A} (l : list A) : mapM id (map Some l) = Some l.
Proof. induction l as [|x l IH]; [done|]. cbn [map]. simpl. by rewrite IH. Qed.

Lemma take_insert_last {A} (l : list A) n x : (n < length l)%nat -> take (S n) (<[n := x]> l) = take n l ++ [x].
Proof. intros H. rewrite (take_S_r _ _ x) by (by apply list_lookup_insert_eq). by rewrite take_insert_ge. Qed.

(** The array has the parts in their order, or the first two the other way round. *)
Lemma placed tpvec parts : (tpvec = [] \/ tpvec = [1%nat; 0%nat] /\ (2 <= length parts)%nat) -> (length parts <= 16)%nat ->
  exists rest, place_parts tpvec 0 parts (replicate 16 None) = map Some (arranged tpvec parts) ++ rest /\
    length (place_parts tpvec 0 parts (replicate 16 None)) = 16%nat /\ length (arranged tpvec parts) = length parts.
Proof.
  intros Ht Hl. exists (drop (length parts) (replicate 16 None)). split; [|by rewrite place_parts_length; destruct Ht as [->|[-> ?]]; [|destruct parts as [|? [|? ?]]]].
  destruct Ht as [->|[-> H2]].
  - rewrite place_rest by (rewrite ?length_replicate; simpl; lia). by rewrite take_0.
  - destruct parts as [|k1 [|k2 rest]]; [simpl in H2; lia..|]. cbn [place_parts arranged map app]. cbv iota.
    rewrite place_rest by (rewrite ?length_insert, ?length_replicate; simpl in *; lia). done.
Qed.

(** The keys are complete for up to sixteen parts and added words, if a transposition has
    something to exchange. *)
Lemma keys_of_fits tpvec key extra : let parts := key_parts [] key in
  tpvec = [] \/ tpvec = [1%nat; 0%nat] -> (length (parts ++ extra_list extra) <= 16)%nat ->
  (extra = None -> tpvec = [1%nat; 0%nat] -> (2 <= length parts)%nat) ->
  keys_of tpvec key extra = Some (arranged tpvec (parts ++ extra_list extra)).
Proof.
  intros parts Ht Hl H2. rewrite length_app in Hl. unfold keys_of, key_array. fold parts. rewrite (take_ge parts 16) by lia.
  destruct extra as [e|]; cbn [extra_list] in *.
  2: { rewrite app_nil_r. destruct (placed tpvec parts) as (rest & -> & _ & El); [|lia|].
       - destruct Ht as [->|Ht]; [by left|right; auto].
       - rewrite <- El, take_app_length' by (by rewrite length_map). apply mapM_id_Some. }
  simpl in Hl. assert ((length parts <? 16)%nat = true) as -> by (apply Nat.ltb_lt; lia).
  destruct (decide (tpvec = [] \/ tpvec = [1%nat; 0%nat] /\ (2 <= length parts)%nat)) as [Hp|Hp].
  - destruct (placed tpvec parts) as (rest & Ep & El16 & El); [done|lia|].
    assert ((if (0 <? length parts)%nat then transposed tpvec (length parts) else length parts) = length parts) as ->.
    { destruct (0 <? length parts)%nat; [|done]. unfold transposed. rewrite lookup_ge_None_2; [done|]. destruct Hp as [->|[-> ?]]; simpl; lia. }
    rewrite take_insert_last by lia. rewrite Ep. rewrite <- El at 1. rewrite take_app_length' by (by rewrite length_map).
    assert (arranged tpvec (parts ++ [e]) = arranged tpvec parts ++ [e]) as ->.
    { destruct Hp as [->|[-> ?]]; [done|]. by destruct parts as [|? [|? ?]]; [simpl in *; lia..|]. }
    change [Some e] with (map Some [e]). rewrite <- map_app. apply mapM_id_Some.
  - destruct Ht as [-> | ->]; [destruct Hp; by left|]. destruct parts as [|k1 [|k2 rest]]; [done|done|]. destruct Hp. right. simpl. split; [done|lia].
Qed.

(** The values of one batch. *)
Definition batch_for (idx : Z) (flush : bool) (kvs : list leaf) (l : listen) : list sd_value :=
  (if flush then [mk_value idx [bytes "flush"] []] else []) ++ values_for idx l kvs.

(** The listener after a response: its values in its queue, the queue unlocked, and its
    reader told if the queue was empty. *)
Definition delivered (idx : Z) (vs : list sd_value) (l : listen) : listen :=
  match vs with
  | [] => set_sending 0 l
  | _ => mk_listen (l_id l) (l_path l) (l_tpvec l) (insert_all (l_queue l) vs) false
           (if bool_decide (l_queue l = []) then S (l_signals l) else l_signals l) idx (bool_decide (l_queue l = []))
  end.

Lemma with_values_committed idx vs l : idx ≠ 0 -> l_locked l = false ->
  (let l' := with_values idx vs (set_sending 0 l) in if l_sending l' =? idx then sd_queue_commit l' else l') = delivered idx vs l.
Proof.
  intros Hi Hl. assert ((0 =? idx) = false) as E by lia. cbv zeta.
  destruct vs as [|v vs]; unfold with_values, delivered; cbn [l_sending set_sending]; rewrite ?E; [done|].
  by rewrite Z.eqb_refl.
Qed.

(** What a response with an action and a node says, when the index is [start] and a flush
    may have been sent: the index after it and what changed.  Either a tree in which no
    index is new after the first value, or a key that was deleted or expired. *)
Inductive says (fuel : nat) (prefix : list Z) (n : bconf_node) (start : Z) (flush : bool) : option (list Z) -> Z -> list leaf -> Prop :=
  | says_tree action e idx sent :
      action ≠ Some (bytes "expire") -> action ≠ Some (bytes "delete") -> shows e n -> e_nested e -> (e_height e <= fuel)%nat ->
      walk prefix e (start, flush) = Some (idx, sent) -> says fuel prefix n start flush action idx (e_leaves e)
  | says_gone action k s :
      action = Some (bytes "expire") \/ action = Some (bytes "delete") -> bconf_get_string (Some n) (bytes "key") = Some (Some k) ->
      bconf_get_string (Some n) (bytes "modifiedIndex") = Some s -> let idx := raise start (strtoull (default (bytes "0") s)) in
      (flush = true -> idx = start) -> says fuel prefix n start flush action idx [mk_leaf k (Some (bytes "delete")) []].

(** What a listener can be told: with the transposition of service discovery a key has two
    parts or an added word, and no key has more than sixteen parts. *)
Definition fits (l : listen) (lf : leaf) : Prop :=
  for_listener (lf_key lf) (l_path l) = true ->
  let parts := key_parts [] (drop (length (l_path l)) (lf_key lf)) in
  (1 <= length (parts ++ extra_list (lf_extra lf)) <= 16)%nat /\ (lf_extra lf = None -> l_tpvec l = [1%nat; 0%nat] -> (2 <= length parts)%nat).

Lemma fits_complete l lfs : l_tpvec l = [] \/ l_tpvec l = [1%nat; 0%nat] -> Forall (fits l) lfs -> complete l lfs.
Proof.
  intros Ht Hf lf Hlf Hfor. rewrite list.Forall_forall in Hf. destruct (Hf lf Hlf Hfor) as [Hl H2]. cbv zeta in *.
  split; [by apply keys_of_fits; [|lia|]|]. unfold listener_keys. intros E. apply (f_equal length) in E.
  set (parts := _ ++ _) in *. assert (length (arranged (l_tpvec l) parts) = length parts) as El.
  { unfold arranged. destruct (l_tpvec l); [done|]. by destruct parts as [|? [|? ?]]. }
  simpl in E. lia.
Qed.

(** The node of a response is sent, each change with the last index. *)
Lemma says_sent fuel n start flush action idx lfs ec : says fuel (ec_prefix ec) n start flush action idx lfs -> wait_idx ec = start ->
  (if bool_decide (action = Some (bytes "expire")) || bool_decide (action = Some (bytes "delete"))
   then etcd_parse_delete (ec_prefix ec) (Some n) ec else etcd_parse_node fuel (ec_prefix ec) (Some n) ec) =
  send_leaves (below_prefix (ec_prefix ec) lfs) (Some (set_wait_idx idx ec)).
Proof.
  intros Hsays Hst. destruct Hsays as [action e idx sent A1 A2 Hs Hn Hh Hw|action k s A Hk Hs idx Hfl].
  - rewrite (bool_decide_false (action = _)), (bool_decide_false (action = _)) by done. cbn [orb].
    rewrite <- Hst in Hw. by apply (parse_tree fuel _ e n ec flush idx sent).
  - assert (bool_decide (action = Some (bytes "expire")) || bool_decide (action = Some (bytes "delete")) = true) as ->.
    { destruct A as [-> | ->]; by vm_compute. }
    unfold etcd_parse_delete, etcd_update_index. rewrite Hk. cbn [mbind option_bind]. rewrite Hs. cbn [mbind option_bind].
    assert ((if wait_idx ec <=? strtoull (default (bytes "0") s) then set_wait_idx (u64 (strtoull (default (bytes "0") s) + 1)) ec else ec)
      = set_wait_idx idx ec) as ->.
    { unfold idx, raise. rewrite <- Hst. destruct (_ <=? _); [done|by rewrite set_wait_same]. }
    cbn [is_inside]. unfold below_prefix. destruct (decide (take (length (ec_prefix ec)) k = ec_prefix ec)) as [Hin|Hin].
    + rewrite (bool_decide_true (_ = ec_prefix ec)) by done. rewrite filter_cons_True by done. cbn [map filter lf_key lf_extra lf_value]. unfold send_leaves.
      cbn [foldl mbind option_bind lf_key lf_extra lf_value]. done.
    + rewrite (bool_decide_false (_ = ec_prefix ec)) by done. by rewrite filter_cons_False.
Qed.

Lemma says_flush fuel prefix n start action idx lfs : says fuel prefix n start true action idx lfs -> idx = start.
Proof. destruct 1 as [action e idx sent _ _ _ _ _ Hw|]; [|auto]. apply walk_sent in Hw. congruence. Qed.

(** C13: A response goes to every listener.  It has a tree of keys and values in which no
    index is newer than the watcher's after the first value that was sent (which a flush
    is), or the key of what was deleted or expired.  The queue of each listener, which is not
    locked, gets with the last index exactly what is below its path, after a flush if this was
    one, in the order of the tree: the parts of the key, a word for a deletion, and the
    value, the first two parts exchanged for service discovery.  Then it is unlocked and
    signalled.  Keys have at most sixteen parts, and two at least for a value of service
    discovery. *)
Theorem etcd_response_delivered fuel result s0 action n ec flush idx lfs :
  bconf_get_string (Some result) (bytes "modifiedIndex") = Some s0 ->
  bconf_get_string (Some result) (bytes "action") = Some action ->
  bconf_get (Some result) (bytes "node") = Some (Some n) ->
  says fuel (ec_prefix ec) n (raise (wait_idx ec) (strtoull (default (bytes "0") s0))) flush action idx lfs -> idx ≠ 0 ->
  Forall (fun l => l_locked l = false /\ (l_tpvec l = [] \/ l_tpvec l = [1%nat; 0%nat]) /\ Forall (fits l) (below_prefix (ec_prefix ec) lfs)) (listeners ec) ->
  etcd_parse_response fuel (Some result) flush ec =
    Some (0, set_listeners (map (fun l => delivered idx (batch_for idx flush (below_prefix (ec_prefix ec) lfs) l) l) (listeners ec)) (set_wait_idx idx ec)).
Proof.
  intros Hmi Ha Hn Hsays Hi Hls. set (kvs := below_prefix (ec_prefix ec) lfs) in *. set (start := raise _ _) in *.
  unfold etcd_parse_response. unfold etcd_update_index at 1. rewrite Hmi. cbn [mbind option_bind].
  assert ((if wait_idx ec <=? strtoull (default (bytes "0") s0) then set_wait_idx (u64 (strtoull (default (bytes "0") s0) + 1)) ec else ec)
    = set_wait_idx start ec) as ->.
  { unfold start, raise. destruct (_ <=? _); [done|by rewrite set_wait_same]. }
  set (ls1 := map (fun l => with_values idx (if flush then [mk_value idx [bytes "flush"] []] else []) (set_sending 0 l)) (listeners ec)).
  match goal with |- (ec0 ← ?x; _) = _ => assert (x = Some (set_listeners ls1 (set_wait_idx start ec))) as -> end.
  { cbn [listeners wait_idx set_listeners set_wait_idx]. unfold ls1. destruct flush; [|done]. apply says_flush in Hsays as <-.
    assert (mapM (etcd_enqueue_for_listener idx [] (Some (bytes "flush")) (Some [])) (map (set_sending 0) (listeners ec))
      = Some (map (fun l => with_values idx [mk_value idx [bytes "flush"] []] (set_sending 0 l)) (listeners ec))) as ->; [|done].
    apply mapM_Some, Forall2_fmap. clear -Hls Hi. induction Hls as [|l ls (Hl & _) _ IH]; constructor; [|exact IH].
    apply (enqueue_one idx [] (Some (bytes "flush")) [] (set_sending 0 l) [bytes "flush"]); [done|done|right; split; [simpl; lia|done]]. }
  cbn [mbind option_bind]. rewrite Ha. cbn [mbind option_bind]. rewrite Hn. cbn [mbind option_bind].
  rewrite (says_sent fuel n start flush action idx lfs) by done. cbn [ec_prefix set_listeners set_wait_idx]. fold kvs.
  set (ls2 := map (fun l => with_values idx (batch_for idx flush kvs l) (set_sending 0 l)) (listeners ec)).
  unfold send_leaves. rewrite (enqueue_all kvs _ ls2).
  - cbn [mbind option_bind]. unfold set_listeners, set_wait_idx. cbn [listeners wait_idx ec_prefix new_listeners]. do 3 f_equal. unfold ls2. rewrite map_map.
    apply map_ext_in. intros l Hl%list_elem_of_In. rewrite list.Forall_forall in Hls. destruct (Hls l Hl) as (Hlk & _).
    by apply with_values_committed.
  - cbn [listeners set_listeners set_wait_idx wait_idx]. unfold ls1, ls2. apply Forall2_fmap.
    clear -Hls Hi. induction Hls as [|l ls (Hlk & Htp & Hc) _ IH]; constructor; [|exact IH].
    pose proof (fits_complete l kvs Htp Hc) as Hcomp.
    rewrite enqueue_leaves; [|by destruct flush|destruct flush; [left; by split|right; split; [simpl; lia|done]]].
    assert (values_for idx (with_values idx (if flush then [mk_value idx [bytes "flush"] []] else []) (set_sending 0 l)) kvs
      = values_for idx l kvs) as -> by (by destruct flush). by rewrite with_values_app.
Qed.

(** * The thread *)

Definition backoff_ok (t : thread_state) : Prop := INITIAL_BACKOFF_US <= backoff t <= MAX_BACKOFF_US.

Lemma parse_response_zero fuel n flush ec r ec' : etcd_parse_response fuel (Some n) flush ec = Some (r, ec') -> r = 0.
Proof.
  unfold etcd_parse_response. intros E. cbv zeta in E.
  repeat apply bind_Some in E as (? & _ & E). by injection E as <- _.
Qed.

(** After a good answer the thread waits for changes from the index it has, and after a
    bad one it asks the same again, after a time that stays between its limits. *)
Lemma transfer_next fuel header result t t' :
  transfer_done fuel header result t = Some t' -> backoff_ok t ->
  backoff_ok t' /\
  match result with
  | Some _ => t_asks t' = AskWait (wait_idx (t_ec t')) /\ processing_event t' = false /\ t_flush t' = false
  | None => t_asks t' = t_asks t /\ processing_event t' = processing_event t /\ t_flush t' = t_flush t
  end.
Proof.
  unfold transfer_done, backoff_ok, INITIAL_BACKOFF_US, MAX_BACKOFF_US. intros H Hb. destruct result as [n|].
  - destruct (etcd_parse_response fuel (Some n) _ _) as [[r ec]|] eqn:E; [|done]. cbn [mbind option_bind] in H.
    apply parse_response_zero in E as ->. injection H as <-. simpl. split; [lia|done].
  - injection H as <-. simpl. split; [lia|done].
Qed.

(** A change between the last answer and the answer for a new listener is not lost: the
    thread waits from where it was. *)
Lemma event_keeps_index fuel header result t t' :
  wait_idx (t_ec t) ≠ 0 -> processing_event t = false -> t_flush t = false -> new_listeners (t_ec t) ≠ [] ->
  transfer_done fuel header (Some result) (event_due t) = Some t' -> t_asks t' = AskWait (wait_idx (t_ec t)).
Proof.
  intros Hi Hp Hf Hn H. unfold event_due in H. rewrite Hp, Hf in H. unfold new_listener_event in H.
  destruct (new_listeners (t_ec t)) as [|l ls]; [done|]. cbn [orb] in H. unfold transfer_done in H.
  cbn [t_ec t_flush processing_event preproc_wait_idx wait_idx] in H.
  destruct (etcd_parse_response fuel (Some result) false _) as [[r ec]|] eqn:E; [|done]. cbn [mbind option_bind] in H.
  apply parse_response_zero in E as ->. assert ((wait_idx (t_ec t) =? 0) = false) as E by lia. rewrite E in H. simpl in H. by simplify_eq.
Qed.

(** * What goes wrong *)

(** A value right below the path of a service has one key, of which the first is not set. *)
Theorem one_part_key_unset v idx l : l_tpvec l = [1%nat; 0%nat] -> l_locked l = false ->
  etcd_enqueue_for_listener idx (bytes "/x") None (Some v) l = None.
Proof.
  intros Htp Hl. unfold etcd_enqueue_for_listener. destruct (l_sending l =? idx); [by cbn; rewrite Htp|].
  unfold sd_queue_begin. cbn [set_sending l_locked]. rewrite Hl. cbn. by rewrite Htp.
Qed.

(** A watcher that has a listener the thread did not see yet cannot be freed. *)
Theorem free_new_listener ec : new_listeners ec ≠ [] -> etcdwatcher_free ec = None.
Proof.
  intros H. unfold etcdwatcher_free. destruct (new_listeners ec) as [|l new]; [done|]. clear H.
  induction (listeners ec) as [|l' ls IH]; [done|exact IH].
Qed.
