(* ===== verification/EtcdExamples.v ===== *)
(** EtcdExamples: responses of etcd, the witness of the theorem of EtcdClient, and what
    happens with a response that has something newer than the watcher knows. *)
From stdpp Require Import prelude list numbers option.
From Stdlib Require Import ZArith Lia.
From S2P Require Import Prelude Strings Bconf BconfPrint SdQueue JsonVtree EtcdClient.

Local Open Scope Z_scope.

Definition jleaf (key value : string) (i : Z) : json :=
  JObj [(bytes "key", JStr (bytes key)); (bytes "value", JStr (bytes value)); (bytes "modifiedIndex", JNum (print_dec i))].
Definition jdir (key : string) (nodes : list json) (i : Z) : json :=
  JObj [(bytes "key", JStr (bytes key)); (bytes "dir", JBool true); (bytes "nodes", JArr nodes); (bytes "modifiedIndex", JNum (print_dec i))].
Definition jget (node : json) : json := JObj [(bytes "action", JStr (bytes "get")); (bytes "node", node)].

Definition tree_of (j : json) : bconf_node := match json_bconf None (events j) None with Some (_, Some n) => n | _ => root_node end.
Definition node_in (n : bconf_node) : bconf_node := match bconf_get (Some n) (bytes "node") with Some (Some n) => n | _ => root_node end.

Definition one_host : bconf_node :=
  Eval vm_compute in tree_of (jget (jdir "/service/s" [jdir "/service/s/h" [jleaf "/service/s/h/config" "c" 5; jleaf "/service/s/h/health" "up" 7] 5] 5)).
Definition one_host_tree : enode :=
  ENode (bytes "/service/s") 5 None [ENode (bytes "/service/s/h") 5 None
    [ENode (bytes "/service/s/h/config") 5 (Some (bytes "c")) []; ENode (bytes "/service/s/h/health") 7 (Some (bytes "up")) []]].

(** Two services, with the index that the watcher waits for. *)
Definition two_listeners (idx : Z) : etcdwatcher :=
  mk_ec (bytes "/service/") idx [new_listen 0 (bytes "s") [1%nat; 0%nat]; new_listen 1 (bytes "t") [1%nat; 0%nat]] [].

(** What a node shows: its key and index, and a value or that it is a directory. *)
Ltac shown_index := split; [by vm_compute|]; split; [eexists; split; [vm_compute; reflexivity|by vm_compute]|].
Ltac shown_value := shown_index; split; [eexists; split; [vm_compute; reflexivity|discriminate]|]; split; by vm_compute.
Ltac shown_dir := shown_index; split; [by vm_compute|]; eexists; split; [vm_compute; reflexivity|].

Lemma one_host_shown : shows one_host_tree (node_in one_host).
Proof. shown_dir. split; [|done]. shown_dir. split; [shown_value|]. split; [shown_value|done]. Qed.

(** A value that was set and a host that was deleted, newer than the watcher knows. *)
Definition health_set : bconf_node :=
  Eval vm_compute in tree_of (JObj [(bytes "action", JStr (bytes "set")); (bytes "node", jleaf "/service/s/h/health" "down" 12)]).
Definition host_deleted : bconf_node :=
  Eval vm_compute in tree_of (JObj [(bytes "action", JStr (bytes "delete")); (bytes "node", jdir "/service/s/h" [] 13)]).

Ltac each_fits := repeat constructor; vm_compute; intros; try discriminate; lia.

Lemma etcd_response_delivered_witness :
  etcd_parse_response 9 (Some one_host) true (two_listeners 10) =
    Some (0, set_listeners (map (fun l => delivered 10
      (batch_for 10 true (below_prefix (bytes "/service/") (e_leaves one_host_tree)) l) l) (listeners (two_listeners 10))) (two_listeners 10)) /\
  etcd_parse_response 9 (Some health_set) false (two_listeners 10) =
    Some (0, set_listeners (map (fun l => delivered 13
      (batch_for 13 false [mk_leaf (bytes "s/h/health") None (bytes "down")] l) l) (listeners (two_listeners 10))) (two_listeners 13)) /\
  etcd_parse_response 9 (Some host_deleted) false (two_listeners 10) =
    Some (0, set_listeners (map (fun l => delivered 14
      (batch_for 14 false [mk_leaf (bytes "s/h") (Some (bytes "delete")) []] l) l) (listeners (two_listeners 10))) (two_listeners 14)).
Proof.
  split; [|split].
  - apply (etcd_response_delivered 9 one_host None (Some (bytes "get")) (node_in one_host) (two_listeners 10) true 10 (e_leaves one_host_tree));
      [by vm_compute|by vm_compute|by vm_compute| |lia|].
    + apply (says_tree _ _ _ _ _ _ one_host_tree _ true); [discriminate|discriminate|exact one_host_shown|by vm_compute|simpl; lia|by vm_compute].
    + each_fits.
  - apply (etcd_response_delivered 9 health_set None (Some (bytes "set")) (node_in health_set) (two_listeners 10) false 13
      [mk_leaf (bytes "/service/s/h/health") None (bytes "down")]); [by vm_compute|by vm_compute|by vm_compute| |lia|].
    + apply (says_tree _ _ _ _ _ _ (ENode (bytes "/service/s/h/health") 12 (Some (bytes "down")) []) _ true);
        [discriminate|discriminate|shown_value|by vm_compute|simpl; lia|by vm_compute].
    + each_fits.
  - apply (etcd_response_delivered 9 host_deleted None (Some (bytes "delete")) (node_in host_deleted) (two_listeners 10) false 14
      [mk_leaf (bytes "/service/s/h") (Some (bytes "delete")) []]); [by vm_compute|by vm_compute|by vm_compute| |lia|].
    + apply (says_gone 9 (bytes "/service/") (node_in host_deleted) 10 false (Some (bytes "delete")) (bytes "/service/s/h") (Some (bytes "13")));
        [by right|by vm_compute|by vm_compute|done].
    + each_fits.
Defined.

(** * What goes wrong *)

(** A host whose health is newer than the index: the thread locks the queue a second time. *)
Definition newer_health : bconf_node :=
  Eval vm_compute in tree_of (jget (jdir "/service/s" [jdir "/service/s/h" [jleaf "/service/s/h/config" "c" 5; jleaf "/service/s/h/health" "up" 12] 5] 5)).

Theorem etcd_locks_twice : etcd_parse_response 9 (Some newer_health) false (two_listeners 10) = None.
Proof. by vm_compute. Qed.

(** A service that comes before something newer: its queue stays locked. *)
Definition newer_service : bconf_node :=
  Eval vm_compute in tree_of (jget (jdir "/service" [jdir "/service/s" [jdir "/service/s/h" [jleaf "/service/s/h/health" "up" 7] 5] 5;
    jdir "/service/t" [jdir "/service/t/h" [jleaf "/service/t/h/health" "up" 12] 12] 12] 5)).

Theorem etcd_keeps_lock :
  exists ec, etcd_parse_response 9 (Some newer_service) false (two_listeners 10) = Some (0, ec) /\ map l_locked (listeners ec) = [true; false].
Proof. eexists. split; [by vm_compute|]. by vm_compute. Qed.
