(* ===== verification/FdPoolSd.v ===== *)
(** FdPoolSd: the hosts of a service from service discovery, in C
    (core/lib/fd_pool_sd.c): the values of the queue of SdQueue change a bconf tree,
    which is what the pool is updated with.  The JSON parser is a parameter.  [None] is
    an exit of the process or a read of a key that a value does not have. *)
From stdpp Require Import prelude list numbers option gmap.
From Stdlib Require Import ZArith Lia.
From S2P Require Import Prelude SdEtcd GoPoolSd Bconf BconfVtree BconfReach Strings Vtree Config JsonVtree SdQueue.

Local Open Scope Z_scope.

(** * The code *)

Section Code.
(** What the parser delivers for a text, and its message if it fails. *)
Context (yajl : list Z -> list event * option (list Z)).

(** The lines of a text; the end of the last one may be missing. *)
Fixpoint text_lines (cur : list Z) (s : list Z) : list (list Z) :=
  match s with
  | [] => match cur with [] => [] | _ => [cur] end
  | c :: s => if c =? 10 then cur :: text_lines [] s else text_lines (cur ++ [c]) s
  end.

(** What is before and after the first equals sign. *)
Fixpoint at_equals (key : list Z) (s : list Z) : option (list Z * list Z) :=
  match s with
  | [] => None
  | c :: s => if c =? 61 then Some (key, s) else at_equals (key ++ [c]) s
  end.

Fixpoint old_loop (lines : list (list Z)) (confdata : option bconf_node) : option (bool * option bconf_node) :=
  match lines with
  | [] => Some (true, confdata)
  | line :: lines =>
    match at_equals [] line with
    | None => Some (false, None)
    | Some (key, val) =>
      '(r, confdata) ← bconf_add_data_canfail confdata key val;
      if r =? -1 then Some (false, None) else old_loop lines (Some confdata)
    end
  end.

Definition parse_old_bconf_config (value : list Z) : option (bool * option bconf_node) := old_loop (text_lines [] value) None.

(** The tree of a configuration value; [None] for one that cannot be read. *)
Definition config_tree (value : list Z) : option (option (option bconf_node)) :=
  '(_, confdata) ← (if hd0 value =? 42 then parse_old_bconf_config value else Some (false, None));
  match confdata with
  | Some _ => Some (Some confdata)
  | None => let '(evs, err) := yajl value in '(r, n) ← json_bconf None evs err; Some (if r =? 0 then Some n else None)
  end.

Definition parse_config_value (value : list Z) (host appl : option (list Z)) (hknode : bconf_node) : option (bool * bconf_node) :=
  confdata ← config_tree value;
  match confdata with
  | None => Some (false, hknode)
  | Some confdata =>
    merged ← config_merge_bconf None confdata host appl;
    '(changed, hknode) ← bconf_merge (Some hknode) merged;
    merged ← bconf_add_data merged (bytes "disabled") [];
    '(gone, hknode') ← bconf_filter_to_keys (Some hknode) (Some merged);
    Some (changed || negb (gone =? 0), default hknode hknode')
  end.

Definition parse_health_value (value : list Z) (hknode : bconf_node) : option (bool * bconf_node) :=
  let newval := bool_decide (value = bytes "up") in
  dn ← bconf_get (Some hknode) (bytes "disabled");
  let same := match dn with Some dn => eqb (atoi (default [] (n_value dn)) =? 0) newval | None => false end in
  if same then Some (false, hknode)
  else hknode ← bconf_add_data (Some hknode) (bytes "disabled") (if newval then bytes "0" else bytes "1"); Some (true, hknode).

(** Whether a host has a name and is known to be up or down. *)
Definition host_complete (hknode : bconf_node) : option bool :=
  n ← bconf_get (Some hknode) (bytes "name");
  d ← bconf_get (Some hknode) (bytes "disabled");
  Some (bool_decide (is_Some n) && bool_decide (is_Some d)).

(** What is done at the node of a host; a conflict leaves a node that is in no tree. *)
Definition at_host (f : bconf_node -> option (bool * bconf_node)) (hostkey : list Z) (dst : bconf_node) : option (bool * bconf_node) :=
  let g hk := '(upd, hk) ← f hk; full ← host_complete hk; Some (upd && full, hk) in
  a ← bconf_lookup_addv dst [bytes "host"; hostkey] g;
  match a with
  | Added r => Some r
  | Conflict => '(upd, _) ← g root_node; Some (upd, dst)
  end.

(** The commands; the result says whether the pool has to be updated. *)
Definition update_value (static : option bconf_node) (host appl : option (list Z)) (v : sd_value) (dst : option bconf_node) (res : bool) :
    option (option bconf_node * bool) :=
  command ← v_keyv v !! 0%nat;
  if bool_decide (command = bytes "flush") then '(_, dst) ← bconf_merge None static; Some (Some dst, true)
  else if bool_decide (command = bytes "delete") then
    match v_keyv v !! 1%nat with
    | None => Some (dst, res)
    | Some hostkey => '(res, dst) ← bconf_deletev dst [bytes "host"] hostkey; Some (Some dst, res)
    end
  else if bool_decide (command = bytes "config") || bool_decide (command = bytes "health") then
    match v_keyv v !! 1%nat with
    | None => Some (dst, res)
    | Some hostkey =>
      '(upd, dst) ← at_host (if bool_decide (command = bytes "config") then parse_config_value (v_value v) host appl
                             else parse_health_value (v_value v)) hostkey (root_or_new dst);
      Some (Some dst, res || upd)
    end
  else Some (dst, res).

Fixpoint update_config (static : option bconf_node) (host appl : option (list Z)) (vs : list sd_value) (dst : option bconf_node)
    (res : bool) (max_index : Z) : option (option bconf_node * bool * Z) :=
  match vs with
  | [] => Some (dst, res, max_index)
  | v :: vs =>
    '(dst, res) ← update_value static host appl v dst res;
    update_config static host appl vs dst res (if max_index <? v_index v then v_index v else max_index)
  end.

(** The state of the thread, and one turn of it: [update_hosts] is what the pool answers,
    the number of its new nodes or an error. *)
Record fd_pool_sd := mk_fps { fps_conf : option bconf_node; fps_max_index : Z; fps_max_index_valid : bool }.

Definition fd_pool_sd_turn (static : option bconf_node) (host appl : option (list Z)) (update_hosts : option bconf_node -> Z)
    (vs : list sd_value) (fps : fd_pool_sd) : option fd_pool_sd :=
  match vs with
  | [] => Some fps
  | _ =>
    '(conf, updated, idx) ← update_config static host appl vs (fps_conf fps) false (fps_max_index fps);
    Some (mk_fps conf idx (fps_max_index_valid fps || (updated && (0 <? update_hosts conf))))
  end.

(** The thread starts from the static hosts. *)
Definition fd_pool_sd_init (static : option bconf_node) : option fd_pool_sd :=
  conf ← match static with Some _ => '(_, conf) ← bconf_merge None static; Some (Some conf) | None => Some None end;
  Some (mk_fps conf 0 false).

(** What fd_pool_sd_wait_index waits for. *)
Definition index_reached (fps : fd_pool_sd) (index : Z) : bool := fps_max_index_valid fps && (index <=? fps_max_index fps).

(** ** The hosts that are configured *)

Context {X : Type} `{!VtreeBackend X}.

Fixpoint copy_values (hk : list Z) (l : list (vtree_keyvals_elem (vtree_chain X))) (static_conf : option bconf_node) : option (option bconf_node) :=
  match l with
  | [] => Some static_conf
  | e :: l =>
    match kv_val e with
    | vkvValue v =>
      k ← kv_key e;
      '(_, static_conf) ← bconf_add_datav static_conf [bytes "host"; hk; k] v BCONF_DUP;
      copy_values hk l (Some static_conf)
    | _ => copy_values hk l static_conf
    end
  end.

(** The hosts of a list get their numbers as names. *)
Fixpoint copy_hosts (numbered : bool) (i : nat) (l : list (vtree_keyvals_elem (vtree_chain X))) (static_conf : option bconf_node) :
    option (option bconf_node) :=
  match l with
  | [] => Some static_conf
  | e :: l =>
    static_conf ← match kv_val e with
      | vkvNode node =>
        hk ← (if numbered then Some (print_dec (Z.of_nat i)) else kv_key e);
        '(kvs, _) ← vtree_fetch_keys_and_values_cache (Some node) no_keyvals None (va_args [VTREE_LOOP]);
        if bool_decide (kv_list kvs <> []) && negb (bool_decide (kv_type kvs = vktList))
        then copy_values hk (kv_list kvs) static_conf else Some static_conf
      | _ => Some static_conf
      end;
    copy_hosts numbered (S i) l static_conf
  end.

Definition fd_pool_sd_copy_static_config (config : option (vtree_chain X)) (static_conf : option bconf_node) : option (option bconf_node) :=
  '(hosts, _) ← vtree_fetch_keys_and_values_cache config no_keyvals None (va_args [Key (bytes "host"); VTREE_LOOP]);
  copy_hosts (bool_decide (kv_type hosts = vktList)) 0 (kv_list hosts) static_conf.

End Code.

(** * Trees of one level *)

Abbreviation values := (gmap (list Z) (list Z)).

(** A node whose sub nodes are the values of a map. *)
Record flat (n : bconf_node) (m : values) : Prop := {
  flat_ok : node_ok n;
  flat_list : is_list n = true;
  flat_child k : match m !! k with
    | Some v => exists c, child n k = Some c /\ n_subs c = [] /\ data c = Some (NODE_VAL, v)
    | None => child n k = None
    end
}.

Lemma flat_new k : flat (new_node k) ∅.
Proof. split; [apply new_node_ok|done|]. intros k'. by rewrite lookup_empty. Qed.

Lemma flat_Some n m k v : flat n m -> m !! k = Some v -> exists c, child n k = Some c /\ n_subs c = [] /\ data c = Some (NODE_VAL, v).
Proof. intros H E. pose proof (flat_child _ _ H k) as Hk. by rewrite E in Hk. Qed.

Lemma flat_None n m k : flat n m -> m !! k = None -> child n k = None.
Proof. intros H E. pose proof (flat_child _ _ H k) as Hk. by rewrite E in Hk. Qed.

Lemma flat_can_add n m k : flat n m -> can_add n [k] BCONF_DUP.
Proof.
  intros H. apply can_add_cons; [apply H|]. destruct (m !! k) as [v|] eqn:E.
  - destruct (flat_Some _ _ _ _ H E) as (c & -> & _ & Hd). simpl. split; [done|]. unfold target, data in *. simpl.
    destruct (n_type c); (split; [done|]); intros _ ?; simplify_option_eq.
  - rewrite (flat_None _ _ _ H E). simpl. done.
Qed.

Lemma flat_value n m k : flat n m -> value_at n [k] = (fun v => (NODE_VAL, v)) <$> m !! k.
Proof.
  intros H. rewrite value_at_cons. destruct (m !! k) as [v|] eqn:E.
  - by destruct (flat_Some _ _ _ _ H E) as (c & -> & _ & Hd).
  - by rewrite (flat_None _ _ _ H E).
Qed.

(** Adding a value answers whether it is a new one. *)
Lemma flat_add n m k v : flat n m -> valid_key k ->
  exists n', bconf_add_datav (Some n) [k] v BCONF_DUP = Some ((if decide (m !! k = Some v) then 1 else 0), n') /\
    flat n' (<[k := v]> m) /\ n_key n' = n_key n.
Proof.
  intros H Hk. destruct (add_datav_one n k v BCONF_DUP (flat_ok _ _ H) Hk (flat_can_add _ _ _ H)) as (r & n' & c & E & Hok & Hkey & Hl & Hs & Hd & Hch).
  exists n'. split.
  - rewrite E. do 2 f_equal. destruct (bconf_add_datav_canfail_spec (Some n) [k] v BCONF_DUP) as (r' & n'' & E' & _ & Hr & _);
      [apply H|by repeat constructor|by eapply flat_can_add|].
    unfold bconf_add_datav in E. rewrite E' in E. simpl in E. destruct (r' =? -1); [done|]. injection E as -> _.
    unfold add_ret in Hr. rewrite (flat_value n m) in Hr by done.
    destruct (decide (m !! k = Some v)) as [Em|Em], Hr as [[-> Hr]|[-> Hr]]; try done.
    + exfalso. apply Hr. by rewrite Em.
    + exfalso. apply Em. destruct Hr as [Hr _]. by destruct (m !! k); simplify_eq/=.
  - split; [|done]. split; [done|done|]. intros k'. rewrite Hch. destruct (decide (k' = k)) as [->|Hne].
    + rewrite lookup_insert_eq. by exists c.
    + rewrite lookup_insert_ne by done. apply H.
Qed.

(** The map of a list of sub nodes. *)
Definition sub_values (subs : list bconf_node) : values := list_to_map (map (fun c => (n_key c, default [] (n_value c))) subs).

Lemma sub_values_keys subs k : k ∉ keys subs -> sub_values subs !! k = None.
Proof.
  intros H. apply not_elem_of_list_to_map_1. intros Hin. apply H. unfold keys. rewrite <- list_fmap_compose in Hin.
  apply list_elem_of_fmap in Hin as (c & -> & Hc). by apply list_elem_of_fmap_2.
Qed.

Lemma flat_values n m : flat n m -> sub_values (n_subs n) = m.
Proof.
  intros H. apply map_eq. intros k. destruct (m !! k) as [v|] eqn:E.
  - destruct (flat_Some _ _ _ _ H E) as (c & Hc & _ & Hd). apply child_Some in Hc as (i & Hi & <-).
    apply elem_of_list_to_map_1.
    + rewrite <- list_fmap_compose. apply (keys_NoDup (n_subs n)), H.
    + apply list_elem_of_fmap. exists c. split; [|by eapply list_elem_of_lookup_2]. f_equal.
      unfold data in Hd. destruct (n_type c); simplify_option_eq; done.
  - apply sub_values_keys. by apply child_None, (flat_None _ m).
Qed.

Lemma flat_sub n m c : flat n m -> c ∈ n_subs n -> valid_key (n_key c) /\ n_type c = NODE_VAL /\ is_Some (n_value c).
Proof.
  intros H Hc. split; [by apply (sub_valid n); [apply H|]|]. pose proof (child_of_sub n c (flat_ok _ _ H) Hc) as Hch.
  pose proof (flat_child _ _ H (n_key c)) as Hk. rewrite Hch in Hk. destruct (m !! n_key c); [|done].
  destruct Hk as (c' & [= <-] & _ & Hd). unfold data in Hd. destruct (n_type c); simplify_option_eq; eauto.
Qed.

(** Merging values answers whether that changed any. *)
Lemma merge_flat_subs subs : Forall (fun c => valid_key (n_key c) /\ n_type c = NODE_VAL /\ is_Some (n_value c)) subs -> NoDup (keys subs) ->
  forall dst m ret, flat dst m ->
  exists n, merge_subs merge_node dst ret subs = Some (ret || bool_decide (sub_values subs ∪ m ≠ m), n) /\
    flat n (sub_values subs ∪ m) /\ n_key n = n_key dst.
Proof.
  induction 1 as [|c subs (Hk & Ht & [v Hv]) _ IH]; intros Hnd dst m ret Hd.
  - exists dst. unfold sub_values. simpl. rewrite (left_id_L ∅ (∪)). rewrite bool_decide_false by (by intros []). by rewrite orb_false_r.
  - apply NoDup_cons in Hnd as [Hnin Hnd]. cbn [merge_subs]. rewrite Ht, Hv. cbn [mbind option_bind].
    destruct (flat_add dst m (n_key c) v Hd Hk) as (d1 & -> & H1 & K1). cbn [mbind option_bind].
    destruct (IH Hnd d1 _ (ret || ((if decide (m !! n_key c = Some v) then 1 else 0) =? 0)) H1) as (n & -> & H2 & K2).
    pose proof (sub_values_keys subs (n_key c) Hnin) as Hnone.
    assert (sub_values (c :: subs) ∪ m = sub_values subs ∪ <[n_key c := v]> m) as ->.
    { unfold sub_values at 1. cbn [map]. rewrite list_to_map_cons, Hv. simpl. fold (sub_values subs).
      rewrite <- insert_union_l. by apply insert_union_r. }
    exists n. split; [|split; [done|congruence]]. do 2 f_equal. rewrite <- orb_assoc. f_equal.
    destruct (decide (m !! n_key c = Some v)) as [Em|Em]; simpl.
    + by rewrite insert_id.
    + symmetry. apply bool_decide_eq_true. intros E. apply Em. rewrite <- E, lookup_union_r by done. by rewrite lookup_insert_eq.
Qed.

Lemma flat_merge dst md src ms : flat dst md -> flat src ms ->
  exists n, merge_node dst src = Some (bool_decide (ms ∪ md ≠ md), n) /\ flat n (ms ∪ md) /\ n_key n = n_key dst.
Proof.
  intros Hd Hs. rewrite merge_node_eq. destruct (merge_flat_subs (n_subs src)) with (dst := dst) (m := md) (ret := false) as (n & -> & H & K).
  - apply list.Forall_forall. intros c Hc. by eapply flat_sub.
  - apply keys_NoDup, Hs.
  - done.
  - exists n. rewrite (flat_values src ms Hs) in *. done.
Qed.

Lemma flat_get n m k : flat n m -> valid_key k -> (46 ∉ k) -> m !! star_key = None -> bconf_get (Some n) k = Some (child n k).
Proof.
  intros H Hk Hd Hs. unfold bconf_get. rewrite get_loop_spec by (apply H || by apply valid_split). f_equal.
  rewrite split_dotless by done. simpl. destruct (child n k); [done|]. by rewrite (flat_None _ _ _ H Hs).
Qed.

Lemma filter_loop_key fuel n flt i ret r n' : filter_loop fuel n flt i ret = Some (r, n') -> n_key n' = n_key n /\ n_type n' = n_type n.
Proof.
  revert n i ret. induction fuel as [|fuel IH]; intros n i ret; simpl; destruct (n_subs n !! i) as [c|]; try (by intros [= <- <-]).
  destruct (bconf_get flt (n_key c)) as [[g|]|]; simpl; [apply IH|intros E; by apply IH in E|done].
Qed.

(** Keys that are found under their own name. *)
Definition plain_keys (m : values) : Prop := forall k, is_Some (m !! k) -> (46 ∉ k) /\ k ≠ star_key.

Lemma filter_all_length {A} (P : A -> Prop) `{!forall x, Decision (P x)} (l : list A) : length (filter P l) = length l <-> Forall P l.
Proof.
  induction l as [|x l IH]; [done|]. rewrite filter_cons, Forall_cons. destruct (decide (P x)); simpl.
  - rewrite <- IH. split; [intros [= ->]|intros [_ ->]]; done.
  - split; [|by intros []]. pose proof (length_filter P l). lia.
Qed.

(** Filtering keeps the values whose keys are in the other map, and answers how many it dropped. *)
Lemma flat_filter n m f mf : flat n m -> flat f mf -> plain_keys m -> mf !! star_key = None ->
  exists r n', bconf_filter_to_keys (Some n) (Some f) = Some (r, Some n') /\
    flat n' (filter (fun kv => is_Some (mf !! kv.1)) m) /\ n_key n' = n_key n /\ (r = 0 <-> filter (fun kv => is_Some (mf !! kv.1)) m = m).
Proof.
  intros Hn Hf Hp Hs. unfold bconf_filter_to_keys. destruct (decide (n_type n = NODE_LIST)) as [Ht|Ht].
  - destruct (filter_loop_spec (length (n_subs n)) n (Some f) 0 0) as (n' & E & Hok & Hsub); [apply Hn|lia|intros ? [= <-]; apply Hf|].
    pose proof (filter_loop_key _ _ _ _ _ _ _ E) as [Hkey Hty]. rewrite E. cbn [mbind option_bind]. rewrite !drop_0 in *. simpl in Hsub.
    assert (Hsome : forall c, c ∈ n_subs n -> child n (n_key c) = Some c /\ exists v, m !! n_key c = Some v).
    { intros c Hc. pose proof (child_of_sub n c (flat_ok _ _ Hn) Hc) as Hch. split; [done|].
      destruct (m !! n_key c) eqn:Em; [eauto|]. by rewrite (flat_None _ _ _ Hn Em) in Hch. }
    assert (Hkept : forall c, c ∈ n_subs n -> kept (Some f) c = true <-> is_Some (mf !! n_key c)).
    { intros c Hc. destruct (flat_sub _ _ _ Hn Hc) as (Hv & _). destruct (Hsome c Hc) as (_ & v & Hm).
      destruct (Hp (n_key c)) as [Hdot _]; [by rewrite Hm|]. unfold kept. rewrite (flat_get f mf) by done.
      destruct (mf !! n_key c) as [v'|] eqn:Ef.
      - destruct (flat_Some _ _ _ _ Hf Ef) as (c' & -> & _). split; [done|done].
      - rewrite (flat_None _ _ _ Hf Ef). split; [done|by intros []]. }
    assert (Hin : forall c, c ∈ n_subs n' <-> kept (Some f) c = true /\ c ∈ n_subs n) by (intros c; by rewrite Hsub, list_elem_of_filter).
    eexists _, n'. split; [done|]. split; [split; [done|unfold is_list; by rewrite Hty, Ht|]|split; [done|]].
    + intros k. destruct (filter _ m !! k) as [v|] eqn:E2.
      * apply map_lookup_filter_Some in E2 as [Em Hm]. simpl in Hm. destruct (flat_Some _ _ _ _ Hn Em) as (c & Hc & H1 & H2).
        exists c. split; [|done]. apply child_Some in Hc as (i & Hi & <-). apply list_elem_of_lookup_2 in Hi.
        apply child_of_sub; [done|]. apply Hin. split; [by apply Hkept|done].
      * destruct (child n' k) as [c|] eqn:Hc; [|done]. exfalso. apply child_Some in Hc as (i & Hi & <-). apply list_elem_of_lookup_2, Hin in Hi as [Hk Hi].
        apply Hkept in Hk; [|done]. destruct (Hsome c Hi) as (_ & v & Em).
        assert (filter (fun kv => is_Some (mf !! kv.1)) m !! n_key c = Some v) by (by apply map_lookup_filter_Some). congruence.
    + pose proof (length_filter (fun c => kept (Some f) c = true) (n_subs n)) as Hle.
      transitivity (length (filter (fun c => kept (Some f) c = true) (n_subs n)) = length (n_subs n)); [lia|]. rewrite filter_all_length, list.Forall_forall. split.
      * intros Hall. apply map_filter_id. intros k v Hm. simpl. destruct (flat_Some _ _ _ _ Hn Hm) as (c & Hc & _).
        apply child_Some in Hc as (i & Hi & <-). apply list_elem_of_lookup_2 in Hi. by apply Hkept, Hall.
      * intros Hid c Hc. apply Hkept; [done|]. destruct (Hsome c Hc) as (_ & v & Hm). rewrite <- Hid in Hm. by apply map_lookup_filter_Some in Hm as [_ Hm].
  - assert (m = ∅) as ->.
    { apply map_empty. intros k. destruct (m !! k) as [v|] eqn:E; [|done]. destruct (flat_Some _ _ _ _ Hn E) as (c & Hc & _).
      apply child_Some in Hc as (i & Hi & _). exfalso. apply Ht, (ok_list _ (flat_ok _ _ Hn)). intros E0. by rewrite E0 in Hi. }
    exists 0, n. by rewrite map_filter_empty.
Qed.

(** * The configuration of a host *)

(** The tree of a configuration: sections by host and application. *)
Record config_rep (n : bconf_node) (d : sections) : Prop := {
  cr_ok : node_ok n;
  cr_host a : match d !! a with
    | None => child n a = None
    | Some bs => exists c, child n a = Some c /\
        forall b, match bs !! b with None => child c b = None | Some m => exists s, child c b = Some s /\ flat s m end
    end
}.

(** Whether there is a section, and where it is looked up. *)
Definition has_section (d : sections) (a b : list Z) : bool := bool_decide (is_Some (d !! a ≫= fun m => m !! b)).

Definition section_loc (d : sections) (a b : list Z) : option (list (list Z)) :=
  if has_section d a b then Some [a; b]
  else if bool_decide (is_Some (d !! a)) then (if has_section d a star_key then Some [a; star_key] else None)
  else if has_section d star_key b then Some [star_key; b]
  else if has_section d star_key star_key then Some [star_key; star_key]
  else None.

Lemma section_node n d a b : config_rep n d -> has_section d a b = true -> exists s, find_path n [a; b] = Some s /\ flat s (section_of d a b).
Proof.
  intros H Hs. unfold has_section in Hs. apply bool_decide_eq_true in Hs as [m Hm]. pose proof (cr_host _ _ H a) as Ha. unfold section_of.
  destruct (d !! a) as [bs|]; [|done]. destruct Ha as (c & Hc & Hb). specialize (Hb b). simpl in *. rewrite Hm in Hb. destruct Hb as (s & Hs & Hf).
  exists s. rewrite Hc. simpl. rewrite Hs. simpl. by rewrite Hm.
Qed.

Lemma find_loc_section n d a b : config_rep n d -> find_loc n [a; b] = section_loc d a b.
Proof.
  intros H. unfold section_loc, has_section. simpl. pose proof (cr_host _ _ H a) as Ha. pose proof (cr_host _ _ H star_key) as Hs.
  destruct (d !! a) as [bs|]; simpl.
  - destruct Ha as (c & -> & Hb). pose proof (Hb b) as Hbb. pose proof (Hb star_key) as Hbs. simpl.
    destruct (bs !! b) as [m|]; [destruct Hbb as (s & -> & _); done|]. rewrite Hbb.
    destruct (bs !! star_key) as [m|]; [destruct Hbs as (s & -> & _); done|]. by rewrite Hbs.
  - rewrite Ha. destruct (d !! star_key) as [bs|]; simpl; [|by rewrite Hs].
    destruct Hs as (c & -> & Hb). pose proof (Hb b) as Hbb. pose proof (Hb star_key) as Hbs. simpl.
    destruct (bs !! b) as [m|]; [destruct Hbb as (s & -> & _); done|]. rewrite Hbb.
    destruct (bs !! star_key) as [m|]; [destruct Hbs as (s & -> & _); done|]. by rewrite Hbs.
Qed.

(** Merging the section at a location that was not merged before. *)
Lemma merge_new_flat n d root m loc before a b :
  config_rep n d -> flat (root_or_new root) m -> loc = Some [a; b] -> has_section d a b = true -> (loc ∉ before) ->
  exists root', merge_new (Some n) root loc before = Some root' /\ flat (root_or_new root') (section_of d a b ∪ m).
Proof.
  intros H Hr -> Hs Hb. destruct (section_node _ _ _ _ H Hs) as (s & Hp & Hf). unfold merge_new. rewrite bool_decide_false by done.
  cbn [mbind option_bind]. rewrite Hp. cbn [mbind option_bind]. destruct (flat_merge _ _ _ _ Hr Hf) as (d' & E & H' & _).
  change (bconf_merge root (Some s)) with (merge_node (root_or_new root) s). rewrite E. simpl. by eexists.
Qed.

(** One of the four merges: the section if there is one, and else nothing new. *)
Lemma merge_stage n d root m before a b :
  config_rep n d -> flat (root_or_new root) m ->
  (has_section d a b = true -> Some [a; b] ∉ before) ->
  (has_section d a b = false -> section_loc d a b = None \/ section_loc d a b ∈ before) ->
  exists root', merge_new (Some n) root (section_loc d a b) before = Some root' /\ flat (root_or_new root') (section_of d a b ∪ m).
Proof.
  intros H Hr Hnew Hold. destruct (has_section d a b) eqn:E.
  - apply merge_new_flat; try done; unfold section_loc; rewrite E; auto.
  - assert (section_of d a b = ∅) as ->.
    { unfold has_section in E. apply bool_decide_eq_false in E. unfold section_of.
      destruct (d !! a ≫= fun m => m !! b) eqn:E'; [by destruct E|done]. }
    exists root. rewrite (left_id_L ∅ (∪)). split; [|done]. unfold merge_new. destruct (section_loc d a b) as [p|] eqn:Ep; [|done].
    rewrite bool_decide_true; [done|]. by destruct (Hold eq_refl).
Qed.

(** All sections for a host and an application, the most specific first. *)
Definition merged_values (host appl : list Z) (d : sections) : values :=
  section_of d host appl ∪ (section_of d host star_key ∪ (section_of d star_key appl ∪ (section_of d star_key star_key ∪ ∅))).

Lemma has_section_host d a b : has_section d a b = true -> is_Some (d !! a).
Proof. unfold has_section. intros [m Hm]%bool_decide_eq_true. by destruct (d !! a). Qed.

(** Split every test of the goal. *)
Ltac split_ifs := repeat match goal with |- context [if ?b then _ else _] => destruct b eqn:? end.

Lemma config_merged n d host appl :
  config_rep n d -> (46 ∉ host) -> (46 ∉ appl) -> host ≠ star_key -> appl ≠ star_key ->
  exists root, config_merge_bconf None (Some n) (Some host) (Some appl) = Some root /\ flat (root_or_new root) (merged_values host appl d).
Proof.
  intros H Hdh Hda Hh Ha. unfold config_merge_bconf, vget2. cbn [mbind option_bind].
  rewrite !split_dotless by (done || by apply (bool_decide_unpack _)). cbn [app]. rewrite !(find_loc_section n d) by done.
  pose proof (has_section_host d host appl) as P1. pose proof (has_section_host d host star_key) as P2.
  assert (Hl : forall a b, section_loc d a b = if has_section d a b then Some [a; b]
    else if bool_decide (is_Some (d !! a)) then (if has_section d a star_key then Some [a; star_key] else None)
    else if has_section d star_key b then Some [star_key; b] else if has_section d star_key star_key then Some [star_key; star_key] else None) by done.
  destruct (merge_stage n d None ∅ [] star_key star_key) as (r1 & -> & H1); [done|apply flat_new|set_solver| |].
  { intros E. left. rewrite Hl, E. by destruct (bool_decide _). }
  cbn [mbind option_bind]. destruct (merge_stage n d r1 _ [section_loc d star_key star_key] star_key appl H H1) as (r2 & -> & H2).
  { intros E. rewrite (Hl star_key star_key). split_ifs; rewrite ?elem_of_cons, ?elem_of_nil; naive_solver. }
  { intros E. rewrite !Hl, E. split_ifs; rewrite ?elem_of_cons, ?elem_of_nil; naive_solver. }
  cbn [mbind option_bind]. destruct (merge_stage n d r2 _ [section_loc d star_key star_key; section_loc d star_key appl] host star_key H H2) as (r3 & -> & H3).
  { intros E. rewrite !Hl. split_ifs; rewrite ?elem_of_cons, ?elem_of_nil; naive_solver. }
  { intros E. rewrite !Hl, E. split_ifs; rewrite ?elem_of_cons, ?elem_of_nil; naive_solver. }
  cbn [mbind option_bind].
  destruct (merge_stage n d r3 _ [section_loc d star_key star_key; section_loc d star_key appl; section_loc d host star_key] host appl H H3) as (r4 & -> & H4).
  { intros E. rewrite !Hl. split_ifs; rewrite ?elem_of_cons, ?elem_of_nil; naive_solver. }
  { intros E. rewrite !Hl, E. split_ifs; rewrite ?elem_of_cons, ?elem_of_nil; naive_solver. }
  by exists r4.
Qed.

(** * One host *)

Definition disabled_key : list Z := bytes "disabled".

(** What a configuration makes of the values of a host, and a health value. *)
Definition configure (M old : values) : values := M ∪ filter (fun kv => kv.1 = disabled_key) old.

Definition health_known (m : values) (up : bool) : bool :=
  match m !! disabled_key with Some v => eqb (atoi v =? 0) up | None => false end.

Definition set_health (up : bool) (old : values) : values :=
  if health_known old up then old else <[disabled_key := if up then bytes "0" else bytes "1"]> old.

Definition complete (m : values) : bool := bool_decide (is_Some (m !! bytes "name")) && bool_decide (is_Some (m !! disabled_key)).

Lemma plain_union m1 m2 : plain_keys m1 -> plain_keys m2 -> plain_keys (m1 ∪ m2).
Proof. intros H1 H2 k [v [Hv|[_ Hv]]%lookup_union_Some_raw]; [apply H1|apply H2]; eauto. Qed.

Lemma plain_empty : plain_keys ∅.
Proof. intros k [v E]. by rewrite lookup_empty in E. Qed.

Lemma plain_star m : plain_keys m -> m !! star_key = None.
Proof. intros H. destruct (m !! star_key) eqn:E; [|done]. destruct (H star_key); [by rewrite E|done]. Qed.

Lemma plain_disabled : plain_keys {[disabled_key := []]}.
Proof. intros k [v [<- _]%lookup_singleton_Some]. split; [by apply (bool_decide_unpack _)|done]. Qed.

Lemma plain_insert k v m : plain_keys m -> (46 ∉ k) -> k ≠ star_key -> plain_keys (<[k := v]> m).
Proof. intros H H1 H2 k'. destruct (decide (k' = k)) as [->|Hn]; [done|]. rewrite lookup_insert_ne by done. apply H. Qed.

Lemma plain_configure M old : plain_keys M -> plain_keys old -> plain_keys (configure M old).
Proof. intros HM Ho. apply plain_union; [done|]. intros k [v [Hv _]%map_lookup_filter_Some]. apply Ho; eauto. Qed.

Lemma configure_filter M old : filter (fun kv => is_Some (<[disabled_key := []]> M !! kv.1)) (M ∪ old) = configure M old.
Proof.
  apply map_eq. intros k. apply option_eq. intros v. unfold configure. rewrite map_lookup_filter_Some, !lookup_union_Some_raw, map_lookup_filter_Some. simpl.
  destruct (decide (k = disabled_key)) as [->|Hk].
  - rewrite lookup_insert_eq. naive_solver.
  - rewrite lookup_insert_ne by done. destruct (M !! k) eqn:E; naive_solver.
Qed.

Lemma configure_changed M old r : (r = 0 <-> configure M old = M ∪ old) ->
  bool_decide (M ∪ old ≠ old) || negb (r =? 0) = bool_decide (configure M old ≠ old).
Proof.
  intros Hr. assert (configure M old = old -> M ∪ old = old) as Hid.
  { intros E. apply map_eq. intros k. rewrite lookup_union. destruct (M !! k) eqn:Em; [|by destruct (old !! k)].
    rewrite <- E. unfold configure. rewrite lookup_union, Em. by destruct (filter _ old !! k). }
  destruct (decide (M ∪ old = old)) as [E|E].
  - rewrite bool_decide_false by (by intros []). simpl. rewrite E in Hr. destruct (decide (configure M old = old)) as [E'|E'].
    + rewrite (bool_decide_false (_ ≠ _)) by (by intros []). by rewrite (proj2 Hr).
    + rewrite (bool_decide_true (_ ≠ _)) by done. destruct (Z.eqb_spec r 0); [tauto|done].
  - rewrite !bool_decide_true; [done| |done]. auto.
Qed.

Lemma flat_add_data root m k v : flat (root_or_new root) m -> valid_key k -> (46 ∉ k) ->
  exists n, bconf_add_data root k v = Some n /\ flat n (<[k := v]> m) /\ n_key n = n_key (root_or_new root).
Proof.
  intros H Hk Hd. destruct (flat_add _ _ k v H Hk) as (n & E & H1 & H2). exists n. split; [|done]. unfold bconf_add_data.
  rewrite split_dotless by done. change (bconf_add_datav root [k] v BCONF_DUP) with (bconf_add_datav (Some (root_or_new root)) [k] v BCONF_DUP).
  by rewrite E.
Qed.

Lemma disabled_valid : valid_key disabled_key.
Proof. unfold valid_key, char. by repeat constructor. Qed.

Lemma disabled_dotless : 46 ∉ disabled_key.
Proof. by apply (bool_decide_unpack _). Qed.

Lemma parse_health_flat value hk old : flat hk old -> plain_keys old ->
  let up := bool_decide (value = bytes "up") in
  exists hk', parse_health_value value hk = Some (negb (health_known old up), hk') /\ flat hk' (set_health up old) /\ n_key hk' = n_key hk.
Proof.
  intros Hf Ho up. unfold parse_health_value, set_health, health_known. change (bytes "disabled") with disabled_key.
  rewrite (flat_get hk old) by (done || apply disabled_valid || apply disabled_dotless || by apply plain_star). cbn [mbind option_bind]. fold up.
  destruct (flat_add_data (Some hk) old disabled_key (if up then bytes "0" else bytes "1") Hf disabled_valid disabled_dotless) as (f & E & Hff & K).
  destruct (old !! disabled_key) as [v|] eqn:Ev.
  - destruct (flat_Some _ _ _ _ Hf Ev) as (c & -> & _ & Hd).
    assert (default [] (n_value c) = v) as -> by (unfold data in Hd; destruct (n_type c); simplify_option_eq; done).
    destruct (eqb _ _); [by exists hk|]. rewrite E. by exists f.
  - rewrite (flat_None _ _ _ Hf Ev), E. by exists f.
Qed.

Lemma host_complete_flat hk m : flat hk m -> plain_keys m -> host_complete hk = Some (complete m).
Proof.
  intros Hf Hp. unfold host_complete, complete. change (bytes "disabled") with disabled_key.
  assert (valid_key (bytes "name")) as Hv by (unfold valid_key, char; by repeat constructor).
  assert (forall k, bool_decide (is_Some (child hk k)) = bool_decide (is_Some (m !! k))) as Hc.
  { intros k. apply bool_decide_ext. destruct (m !! k) as [v|] eqn:E.
    - destruct (flat_Some _ _ _ _ Hf E) as (c & -> & _). split; eauto.
    - by rewrite (flat_None _ _ _ Hf E). }
  rewrite !(flat_get hk m) by (done || apply disabled_valid || apply disabled_dotless || (by apply plain_star) || by apply (bool_decide_unpack _)).
  cbn [mbind option_bind]. by rewrite !Hc.
Qed.
Section Host.
Context (yajl : list Z -> list event * option (list Z)) (host appl : list Z).
Context (Hhost : 46 ∉ host) (Happl : 46 ∉ appl) (Hhs : host ≠ star_key) (Has : appl ≠ star_key).

(** A configuration gives the values of its sections and keeps only whether the host is
    disabled; the answer is whether the values changed. *)
Lemma parse_config_flat value n d hk old :
  config_tree yajl value = Some (Some (Some n)) -> config_rep n d -> plain_keys (merged_values host appl d) ->
  flat hk old -> plain_keys old ->
  exists hk', parse_config_value yajl value (Some host) (Some appl) hk =
      Some (bool_decide (configure (merged_values host appl d) old ≠ old), hk') /\
    flat hk' (configure (merged_values host appl d) old) /\ n_key hk' = n_key hk.
Proof.
  intros Hc Hr Hp Hf Ho. unfold parse_config_value. change (bytes "disabled") with disabled_key. rewrite Hc. cbn [mbind option_bind].
  destruct (config_merged n d host appl) as (root & -> & Hm); [done..|]. set (M := merged_values host appl d) in *. cbn [mbind option_bind].
  assert (exists n, bconf_merge (Some hk) root = Some (bool_decide (M ∪ old ≠ old), n) /\ flat n (M ∪ old) /\ n_key n = n_key hk) as (n1 & -> & H1 & K1).
  { destruct root as [root|]; [by apply flat_merge|]. exists hk.
    assert (M = ∅) as -> by (rewrite <- (flat_values _ _ Hm); done). rewrite (left_id_L ∅ (∪)), bool_decide_false by (by intros []). done. }
  cbn [mbind option_bind]. destruct (flat_add_data root M disabled_key [] Hm disabled_valid disabled_dotless) as (f & -> & Hff & _).
  cbn [mbind option_bind]. destruct (flat_filter n1 (M ∪ old) f (<[disabled_key := []]> M)) as (r & n2 & -> & H2 & K2 & Hg); [done|done|by apply plain_union|..].
  { rewrite lookup_insert_ne by done. by apply plain_star. }
  rewrite configure_filter in H2, Hg. cbn [mbind option_bind]. exists n2. split; [|split; [done|simpl; congruence]].
  by rewrite configure_changed.
Qed.

Lemma config_unread value hk : config_tree yajl value = Some None -> parse_config_value yajl value (Some host) (Some appl) hk = Some (false, hk).
Proof. intros H. unfold parse_config_value. by rewrite H. Qed.

End Host.

(** * The hosts of a service *)

Abbreviation hosts := (gmap (list Z) values).

Record host_nodes (h : bconf_node) (H : hosts) : Prop := {
  hn_ok : node_ok h;
  hn_list : is_list h = true;
  hn_child k : match H !! k with
    | Some m => plain_keys m /\ exists s, child h k = Some s /\ flat s m
    | None => child h k = None
    end
}.

(** A tree that has nothing but hosts. *)
Record hosts_rep (n : bconf_node) (H : hosts) : Prop := {
  hr_ok : node_ok n;
  hr_list : is_list n = true;
  hr_only k : k ≠ bytes "host" -> child n k = None;
  hr_hosts : host_nodes (default (new_node (bytes "host")) (child n (bytes "host"))) H
}.

Lemma host_nodes_new k : host_nodes (new_node k) ∅.
Proof. split; [apply new_node_ok|done|]. intros k'. by rewrite lookup_empty. Qed.

Lemma hosts_rep_new : hosts_rep (root_or_new None) ∅.
Proof. split; [apply new_node_ok|done|done|apply host_nodes_new]. Qed.

(** One step down a path, and what is stored there. *)
Lemma lookup_addv_down {R} (f : bconf_node -> option (R * bconf_node)) n k path r c' :
  node_ok n -> is_list n = true -> valid_key k ->
  bconf_lookup_addv (default (new_node k) (child n k)) path f = Some (Added (r, c')) -> n_key c' = k -> node_ok c' ->
  exists n', bconf_lookup_addv n (k :: path) f = Some (Added (r, n')) /\ node_ok n' /\ is_list n' = true /\ n_key n' = n_key n /\
    forall k', child n' k' = if decide (k' = k) then Some c' else child n k'.
Proof.
  intros Hok Hl Hk Hc Hkc Hokc. destruct (bconf_get_node_spec n k Hok Hl Hk) as (i & n1 & c & Hget & Hi & -> & _ & _ & Ht & Hn1 & Hset).
  cbn [bconf_lookup_addv]. rewrite Hget. cbn [mbind option_bind]. rewrite Hi. cbn [mbind option_bind]. rewrite Hc. cbn [mbind option_bind].
  destruct (Hset c' Hkc Hokc) as [Hok' Hch]. eexists. split; [done|]. split; [done|]. split; [unfold is_list; simpl; by rewrite Ht|]. done.
Qed.

Lemma child_key n k : n_key (default (new_node k) (child n k)) = k.
Proof. destruct (child n k) as [c|] eqn:E; [|done]. by apply child_Some in E as (i & _ & <-). Qed.

Lemma host_valid : valid_key (bytes "host").
Proof. unfold valid_key, char. by repeat constructor. Qed.

(** What is done at the node of all hosts. *)
Lemma at_hosts {R} (f : bconf_node -> option (R * bconf_node)) n H path r c' H' :
  hosts_rep n H -> bconf_lookup_addv (default (new_node (bytes "host")) (child n (bytes "host"))) path f = Some (Added (r, c')) ->
  n_key c' = bytes "host" -> host_nodes c' H' ->
  exists n', bconf_lookup_addv n (bytes "host" :: path) f = Some (Added (r, n')) /\ hosts_rep n' H'.
Proof.
  intros Hn Hc Hk Hc'. destruct (lookup_addv_down f n (bytes "host") path r c') as (n' & E & Hok & Hl & _ & Hch); [apply Hn|apply Hn|apply host_valid|done|done|apply Hc'|].
  exists n'. split; [done|]. split; [done|done| |].
  - intros k Hne. rewrite Hch, decide_False by done. by apply Hn.
  - by rewrite Hch, decide_True.
Qed.

(** What is done at or below the node of one host. *)
Lemma at_one_host {R} (f : bconf_node -> option (R * bconf_node)) h H k path r m' :
  host_nodes h H -> valid_key k ->
  (forall s, flat s (default ∅ (H !! k)) -> plain_keys (default ∅ (H !! k)) ->
     exists s', bconf_lookup_addv s path f = Some (Added (r, s')) /\ flat s' m' /\ n_key s' = n_key s) ->
  plain_keys m' ->
  exists h', bconf_lookup_addv h (k :: path) f = Some (Added (r, h')) /\ host_nodes h' (<[k := m']> H) /\ n_key h' = n_key h.
Proof.
  intros Hh Hk Hf Hp. pose proof (hn_child _ _ Hh k) as Hc.
  assert (flat (default (new_node k) (child h k)) (default ∅ (H !! k)) /\ plain_keys (default ∅ (H !! k))) as [Hs Hsp].
  { destruct (H !! k) as [m|]; [destruct Hc as (? & s & -> & ?); done|]. rewrite Hc. split; [apply flat_new|exact plain_empty]. }
  destruct (Hf _ Hs Hsp) as (s' & E & Hs' & Ks'). destruct (lookup_addv_down f h k path r s') as (h' & E' & Hok & Hl & Kh & Hch);
    [apply Hh|apply Hh|done|done|by rewrite Ks', child_key|apply Hs'|].
  exists h'. split; [done|]. split; [|done]. split; [done|done|]. intros k'. rewrite Hch. destruct (decide (k' = k)) as [->|Hne].
  - rewrite lookup_insert_eq. split; [done|]. by exists s'.
  - rewrite lookup_insert_ne by done. apply Hh.
Qed.

Lemma at_host_rep f n H k upd m' :
  hosts_rep n H -> valid_key k ->
  (forall s, flat s (default ∅ (H !! k)) -> plain_keys (default ∅ (H !! k)) -> exists s', f s = Some (upd, s') /\ flat s' m' /\ n_key s' = n_key s) ->
  plain_keys m' ->
  exists n', at_host f k n = Some (upd && complete m', n') /\ hosts_rep n' (<[k := m']> H).
Proof.
  intros Hn Hk Hf Hp. unfold at_host. set (g := fun hk => '(upd, hk) ← f hk; full ← host_complete hk; Some (upd && full, hk)).
  destruct (at_one_host g (default (new_node (bytes "host")) (child n (bytes "host"))) H k [] (upd && complete m') m') as (h' & E & Hh & Kh); [apply Hn|done| |done|].
  - intros s Hs Hps. destruct (Hf s Hs Hps) as (s' & E & Hs' & Ks). exists s'. split; [|done]. cbn [bconf_lookup_addv]. unfold g. rewrite E. cbn [mbind option_bind].
    by rewrite (host_complete_flat s' m').
  - destruct (at_hosts g n H [k] _ h' (<[k := m']> H) Hn E) as (n' & -> & Hr); [by rewrite Kh, child_key|done|]. by exists n'.
Qed.

(** Deleting a host answers whether there was one. *)
Lemma delete_host dst H k : hosts_rep (root_or_new dst) H ->
  exists n', bconf_deletev dst [bytes "host"] k = Some (bool_decide (is_Some (H !! k)), n') /\ hosts_rep n' (delete k H).
Proof.
  intros Hn. set (h := default (new_node (bytes "host")) (child (root_or_new dst) (bytes "host"))). pose proof (hr_hosts _ _ Hn) as Hh. fold h in Hh.
  destruct (delete_key_spec k h (hn_ok _ _ Hh)) as (h' & E & Hok & Kh & Ht & _ & Hch).
  destruct (at_hosts (delete_key k) (root_or_new dst) H [] (bool_decide (is_Some (H !! k))) h' (delete k H) Hn) as (n' & E' & Hr).
  - cbn [bconf_lookup_addv]. fold h. rewrite E. cbn [mbind option_bind]. repeat f_equal. pose proof (hn_child _ _ Hh k) as Hc.
    destruct (H !! k); [by destruct Hc as (_ & s & -> & _)|by rewrite Hc].
  - rewrite Kh. apply child_key.
  - split; [done|unfold is_list; rewrite Ht; apply Hh|]. intros k'. rewrite Hch. destruct (decide (k' = k)) as [->|Hne].
    + by rewrite lookup_delete_eq.
    + rewrite lookup_delete_ne by done. apply Hh.
  - exists n'. unfold bconf_deletev. by rewrite E'.
Qed.

(** ** The static hosts *)

Lemma merge_subs_down merge dst ret sn subs : n_type sn = NODE_LIST ->
  merge_subs merge dst ret (sn :: subs) =
    (a ← bconf_lookup_addv dst [n_key sn] (fun dn => merge dn sn);
     match a with Conflict => merge_subs merge dst ret subs | Added (r, dst) => merge_subs merge dst (ret || r) subs end).
Proof.
  intros Ht. cbn [merge_subs bconf_lookup_addv]. rewrite Ht. destruct (bconf_get_node dst (n_key sn)) as [[|[i d]]|]; [done| |done].
  cbn [mbind option_bind]. destruct (n_subs d !! i) as [dn|]; [|done]. cbn [mbind option_bind]. by destruct (merge dn sn) as [[r dn']|].
Qed.

Lemma merge_host_subs subs : Forall (fun c => valid_key (n_key c) /\ n_type c = NODE_LIST /\ exists m, flat c m /\ plain_keys m) subs -> NoDup (keys subs) ->
  forall dst H ret, host_nodes dst H -> (forall c, c ∈ subs -> H !! n_key c = None) ->
  exists r n H', merge_subs merge_node dst ret subs = Some (r, n) /\ host_nodes n H' /\ n_key n = n_key dst /\
    (forall k, (k ∉ keys subs) -> H' !! k = H !! k) /\ (forall c m, c ∈ subs -> flat c m -> H' !! n_key c = Some m).
Proof.
  induction 1 as [|c subs (Hk & Ht & m & Hm & Hp) _ IH]; intros Hnd dst H ret Hd Hnew; [by exists ret, dst, H; set_solver|].
  apply NoDup_cons in Hnd as [Hnin Hnd]. rewrite merge_subs_down by done.
  assert (H !! n_key c = None) as Hc by (apply Hnew; left).
  destruct (at_one_host (fun dn => merge_node dn c) dst H (n_key c) [] (bool_decide (m ∪ ∅ ≠ ∅)) m Hd Hk) as (d1 & -> & H1 & K1).
  { rewrite Hc. intros s Hs _. destruct (flat_merge s ∅ c m Hs Hm) as (n & E & Hn & Kn). cbn [bconf_lookup_addv]. rewrite E. replace (m ∪ ∅) with m in Hn by (symmetry; exact (map_union_empty m)). by exists n. }
  { done. }
  cbn [mbind option_bind]. destruct (IH Hnd d1 _ (ret || bool_decide (m ∪ ∅ ≠ ∅)) H1) as (r & n & H' & -> & Hn & Kn & Hold & Hsub).
  { intros x Hx. rewrite lookup_insert_ne; [apply Hnew; by right|]. intros E. apply Hnin. rewrite E. by apply list_elem_of_fmap_2. }
  exists r, n, H'. split; [done|]. split; [done|]. split; [congruence|]. split.
  - intros k [Hne Hk']%not_elem_of_cons. rewrite Hold by done. by apply lookup_insert_ne.
  - intros x mx [->|Hx]%elem_of_cons Hmx; [|by apply Hsub]. rewrite Hold by done. rewrite lookup_insert_eq. f_equal.
    by rewrite <- (flat_values c m), <- (flat_values c mx).
Qed.

(** A static configuration: every host has some value. *)
Definition static_rep (static : option bconf_node) (H : hosts) : Prop :=
  hosts_rep (root_or_new static) H /\ forall k m, H !! k = Some m -> m ≠ ∅.

Lemma host_nodes_empty h H : host_nodes h H -> n_subs h = [] -> H = ∅.
Proof.
  intros Hh E. apply map_empty. intros k. pose proof (hn_child _ _ Hh k) as Hk. destruct (H !! k); [|done].
  destruct Hk as (_ & s & Hs & _). apply child_Some in Hs as (i & Hi & _). by rewrite E in Hi.
Qed.

Lemma host_nodes_sub h H c : host_nodes h H -> c ∈ n_subs h ->
  valid_key (n_key c) /\ exists m, H !! n_key c = Some m /\ flat c m /\ plain_keys m.
Proof.
  intros Hh Hc. split; [by apply (sub_valid h); [apply Hh|]|]. pose proof (child_of_sub h c (hn_ok _ _ Hh) Hc) as Hch.
  pose proof (hn_child _ _ Hh (n_key c)) as Hk. destruct (H !! n_key c) as [m|]; [|congruence].
  destruct Hk as (Hp & s & Hs & Hf). exists m. by replace c with s by congruence.
Qed.

(** Copying the node of the hosts. *)
Lemma merge_host_node h H : host_nodes h H -> n_key h = bytes "host" -> (forall k m, H !! k = Some m -> m ≠ ∅) ->
  exists r n, merge_node (new_node (bytes "host")) h = Some (r, n) /\ host_nodes n H /\ n_key n = bytes "host".
Proof.
  intros Hh Kh Hne. rewrite merge_node_eq.
  destruct (merge_host_subs (n_subs h)) with (dst := new_node (bytes "host")) (H := ∅ : hosts) (ret := false) as (r & n & H' & -> & Hn & Kn & Hold & Hsub).
  - apply list.Forall_forall. intros c Hc. destruct (host_nodes_sub _ _ _ Hh Hc) as (Hk & m & Em & Hf & Hp). split; [done|]. split; [|eauto].
    apply (ok_list _ (flat_ok _ _ Hf)). intros E. apply (Hne _ _ Em). rewrite <- (flat_values c m Hf), E. done.
  - apply keys_NoDup, Hh.
  - apply host_nodes_new.
  - done.
  - exists r, n. split; [done|]. split; [|done]. assert (H' = H) as ->; [|done]. apply map_eq. intros k. pose proof (hn_child _ _ Hh k) as Hk.
    destruct (H !! k) as [m|].
    + destruct Hk as (_ & s & Hs & Hf). apply child_Some in Hs as (i & Hi & <-). apply Hsub; [by eapply list_elem_of_lookup_2|done].
    + rewrite Hold; [done|]. by apply child_None.
Qed.

(** Starting over from the static configuration. *)
Lemma merge_static static H : static_rep static H -> exists r n, bconf_merge None static = Some (r, n) /\ hosts_rep n H.
Proof.
  intros [Hr Hne]. destruct static as [s|]; [|by exists false, (root_or_new None)]. simpl in Hr. pose proof (hr_hosts _ _ Hr) as Hh.
  cbn [bconf_merge]. rewrite merge_node_eq. destruct (child s (bytes "host")) as [h|] eqn:Eh; simpl in Hh.
  - assert (n_subs s = [h]) as ->.
    { pose proof Eh as (i & Hi & Kh)%child_Some. pose proof (keys_NoDup (n_subs s) (ok_sorted _ (hr_ok _ _ Hr))) as Hnd.
      assert (forall c, c ∈ n_subs s -> c = h) as Hall.
      { intros c Hc. pose proof (child_of_sub s c (hr_ok _ _ Hr) Hc) as Hch. destruct (decide (n_key c = bytes "host")) as [E|E]; [congruence|].
        by rewrite (hr_only _ _ Hr) in Hch. }
      destruct (n_subs s) as [|c [|c2 l]]; [done|f_equal; apply Hall; left|].
      exfalso. apply NoDup_cons in Hnd as [Hnd _]. apply Hnd. simpl. rewrite (Hall c), (Hall c2) by set_solver. left. }
    assert (n_key h = bytes "host") as Kh by (by apply child_Some in Eh as (i & _ & ?)).
    pose proof (hn_list _ _ Hh) as Hl. unfold is_list in Hl. destruct (n_type h) eqn:Et; try done.
    + exists false, (root_or_new None). cbn [merge_subs]. rewrite Et. split; [done|]. rewrite (host_nodes_empty _ _ Hh); [apply hosts_rep_new|].
      apply leaf_subs; [apply Hh|congruence].
    + rewrite merge_subs_down by done. destruct (merge_host_node h H Hh Kh Hne) as (r & n & E & Hn & Kn).
      destruct (at_hosts (fun dn => merge_node dn h) (root_or_new None) ∅ [] r n H hosts_rep_new) as (n' & E' & Hr'); [simpl; by rewrite E|done|done|].
      rewrite Kh, E'. simpl. by exists r, n'.
  - assert (n_subs s = []) as ->.
    { destruct (n_subs s) as [|c l] eqn:E; [done|]. exfalso. assert (c ∈ n_subs s) as Hc by (rewrite E; left).
      pose proof (child_of_sub s c (hr_ok _ _ Hr) Hc) as Hch. destruct (decide (n_key c = bytes "host")) as [Ek|Ek]; [congruence|].
      by rewrite (hr_only _ _ Hr) in Hch. }
    exists false, (root_or_new None). split; [done|]. rewrite (host_nodes_empty _ _ Hh); [apply hosts_rep_new|done].
Qed.

(** Adding a value of a host. *)
Lemma add_host_value static H hk k v : hosts_rep (root_or_new static) H -> valid_key hk -> valid_key k -> (46 ∉ k) -> k ≠ star_key ->
  exists r n, bconf_add_datav static [bytes "host"; hk; k] v BCONF_DUP = Some (r, n) /\
    hosts_rep n (<[hk := <[k := v]> (default ∅ (H !! hk))]> H).
Proof.
  intros Hr Hhk Hk Hd Hs. set (f := fun n => bconf_add_dataX n (Some v) BCONF_DUP). pose proof (hr_hosts _ _ Hr) as Hh.
  destruct (at_one_host f _ H hk [k] (if decide (default ∅ (H !! hk) !! k = Some v) then 1 else 0) (<[k := v]> (default ∅ (H !! hk))) Hh Hhk) as (h' & E & Hh' & Kh).
  - intros s Hfs _. destruct (flat_add s _ k v Hfs Hk) as (s' & E & Hf' & Ks). exists s'. split; [|done].
    unfold bconf_add_datav, bconf_add_datav_canfail in E. simpl root_or_new in E. fold f in E.
    destruct (bconf_lookup_addv s [k] f) as [[|[r n]]|]; [done| |done]. simpl in E. by destruct (r =? -1); simplify_eq.
  - apply plain_insert; [|done..]. pose proof (hn_child _ _ Hh hk) as Hc. destruct (H !! hk); [apply Hc|exact plain_empty].
  - destruct (at_hosts f (root_or_new static) H [hk; k] _ h' (<[hk := <[k := v]> (default ∅ (H !! hk))]> H) Hr E) as (n & E' & Hn); [by rewrite Kh, child_key|done|].
    unfold bconf_add_datav, bconf_add_datav_canfail. fold f. rewrite E'. simpl. destruct (decide _); by eexists _, _.
Qed.

Section StaticHosts.
Context {X : Type} `{!VtreeBackend X}.

(** Keys of values as they are in a configuration. *)
Definition value_keys (l : list (vtree_keyvals_elem (vtree_chain X))) : Prop :=
  forall e v, e ∈ l -> kv_val e = vkvValue v -> exists k, kv_key e = Some k /\ valid_key k /\ (46 ∉ k) /\ k ≠ star_key.

Lemma static_insert static H hk k v : static_rep static H -> valid_key hk -> valid_key k -> (46 ∉ k) -> k ≠ star_key ->
  exists r n, bconf_add_datav static [bytes "host"; hk; k] v BCONF_DUP = Some (r, n) /\
    static_rep (Some n) (<[hk := <[k := v]> (default ∅ (H !! hk))]> H).
Proof.
  intros [Hr Hne] Hhk Hk Hd Hs. destruct (add_host_value static H hk k v) as (r & n & E & Hn); [done..|]. exists r, n. split; [done|]. split; [done|].
  intros k' m. destruct (decide (k' = hk)) as [->|Hn']; [rewrite lookup_insert_eq|rewrite lookup_insert_ne by done; apply Hne].
  intros [= <-]. apply insert_non_empty.
Qed.

Lemma copy_values_static hk l : value_keys l -> valid_key hk -> forall static H, static_rep static H ->
  exists static' H', copy_values hk l static = Some static' /\ static_rep static' H'.
Proof.
  intros Hl Hhk. induction l as [|e l IH]; intros static H Hs; [by exists static, H|].
  assert (value_keys l) as Hl' by (intros x v Hx; apply Hl; by right). specialize (IH Hl'). cbn [copy_values].
  destruct (kv_val e) as [|v|nd] eqn:Ev; [by eapply IH| |by eapply IH].
  destruct (Hl e v) as (k & -> & Hk & Hd & Hst); [left|done|]. cbn [mbind option_bind].
  destruct (static_insert static H hk k v) as (r & n & -> & Hn); [done..|]. cbn [mbind option_bind]. by eapply IH.
Qed.

Lemma print_dec_valid i : valid_key (print_dec (Z.of_nat i)).
Proof.
  unfold print_dec. rewrite Z.abs_eq by lia. rewrite (proj2 (Z.ltb_ge (Z.of_nat i) 0)) by lia. unfold valid_key. apply Forall_rev.
  generalize (Z.to_nat (Z.of_nat i + 1)). generalize (Z.of_nat i). intros z fuel. revert z.
  induction fuel as [|fuel IH]; intros z; [done|]. cbn [dec_rev]. constructor.
  - unfold char. pose proof (Z.mod_pos_bound z 10 ltac:(done)). lia.
  - destruct (z <? 10); [done|apply IH].
Qed.

(** The hosts that are configured: every one of them has a value, whatever the tree is. *)
Theorem copy_static_config config static H :
  static_rep static H ->
  (exists hs cc, vtree_fetch_keys_and_values_cache config no_keyvals None (va_args [Key (bytes "host"); VTREE_LOOP]) = Some (hs, cc) /\
     forall e node, e ∈ kv_list hs -> kv_val e = vkvNode node ->
       (kv_type hs ≠ vktList -> exists hk, kv_key e = Some hk /\ valid_key hk) /\
       exists kvs cc', vtree_fetch_keys_and_values_cache (Some node) no_keyvals None (va_args [VTREE_LOOP]) = Some (kvs, cc') /\ value_keys (kv_list kvs)) ->
  exists static' H', fd_pool_sd_copy_static_config config static = Some static' /\ static_rep static' H'.
Proof.
  intros Hs (hs & cc & E & Hl). unfold fd_pool_sd_copy_static_config. rewrite E. cbn [mbind option_bind]. clear E. generalize 0%nat as i.
  assert (forall e, e ∈ kv_list hs -> e ∈ kv_list hs) as Hsub by done. revert Hsub. generalize (kv_list hs) at 1 3 as l. intros l.
  revert static H Hs. induction l as [|e l IH]; intros static H Hs Hsub i; [by exists static, H|]. cbn [copy_hosts].
  assert (forall e, e ∈ l -> e ∈ kv_list hs) as Hsub' by (intros; apply Hsub; by right).
  destruct (kv_val e) as [|v|node] eqn:Ev; [by eapply IH|by eapply IH|].
  destruct (Hl e node) as [Hhk (kvs & cc' & -> & Hk)]; [apply Hsub; left|done|].
  assert (exists hk, (if bool_decide (kv_type hs = vktList) then Some (print_dec (Z.of_nat i)) else kv_key e) = Some hk /\ valid_key hk) as (hk & -> & Hvk).
  { destruct (decide (kv_type hs = vktList)) as [Et|Et]; [rewrite bool_decide_true by done|rewrite bool_decide_false by done; auto].
    eexists. split; [done|]. apply print_dec_valid. }
  cbn [mbind option_bind]. destruct (_ && _); [|by eapply IH].
  destruct (copy_values_static hk (kv_list kvs) Hk Hvk static H Hs) as (static' & H' & -> & Hs'). by eapply IH.
Qed.
End StaticHosts.

(** * The values of the queue *)

(** A key of the merged sections has the value of the most specific one that has it,
    which is the one the Go pool reads. *)
Lemma merged_most_specific host appl d k : merged_values host appl d !! k = most_specific host appl d k.
Proof.
  unfold merged_values, most_specific. cbn [foldr fst snd]. rewrite !lookup_union, lookup_empty.
  change (bytes "*") with star_key.
  by destruct (section_of d host appl !! k), (section_of d host star_key !! k), (section_of d star_key appl !! k), (section_of d star_key star_key !! k).
Qed.

(** What a value asks for; [None] is a configuration that cannot be read. *)
Inductive command :=
  | Flush
  | Remove (k : list Z)
  | Configure (k : list Z) (d : option sections)
  | Health (k : list Z) (up : bool)
  | Ignored.

Section Queue.
Context (yajl : list Z -> list event * option (list Z)) (host appl : list Z).
Context (Hhost : 46 ∉ host) (Happl : 46 ∉ appl) (Hhs : host ≠ star_key) (Has : appl ≠ star_key).

Definition decodes (v : sd_value) (c : command) : Prop :=
  match c with
  | Flush => exists rest, v_keyv v = bytes "flush" :: rest
  | Remove k => exists rest, v_keyv v = bytes "delete" :: k :: rest
  | Configure k d => (exists rest, v_keyv v = bytes "config" :: k :: rest) /\ valid_key k /\
      match d with
      | Some d => exists n, config_tree yajl (v_value v) = Some (Some (Some n)) /\ config_rep n d /\ plain_keys (merged_values host appl d)
      | None => config_tree yajl (v_value v) = Some None
      end
  | Health k up => (exists rest, v_keyv v = bytes "health" :: k :: rest) /\ valid_key k /\ up = bool_decide (v_value v = bytes "up")
  | Ignored => exists c rest, v_keyv v = c :: rest /\ c ≠ bytes "flush" /\
      (rest = [] \/ c ∉ [bytes "delete"; bytes "config"; bytes "health"])
  end.

(** What the hosts become. *)
Definition perform (static : hosts) (H : hosts) (c : command) : hosts :=
  let old k := default ∅ (H !! k) in
  match c with
  | Flush => static
  | Remove k => delete k H
  | Configure k (Some d) => <[k := configure (merged_values host appl d) (old k)]> H
  | Configure k None => <[k := old k]> H
  | Health k up => <[k := set_health up (old k)]> H
  | Ignored => H
  end.

(** What the pool should be told of: the hosts were reset, a known host is gone, or the
    values of a host that is complete are different. *)
Definition changes (H : hosts) (c : command) : bool :=
  let old k := default ∅ (H !! k) in
  match c with
  | Flush => true
  | Remove k => bool_decide (is_Some (H !! k))
  | Configure k (Some d) =>
    let m := configure (merged_values host appl d) (old k) in bool_decide (m ≠ old k) && complete m
  | Health k up => negb (health_known (old k) up) && complete (set_health up (old k))
  | Configure _ None | Ignored => false
  end.

Fixpoint any_change (static H : hosts) (cs : list command) : bool :=
  match cs with
  | [] => false
  | c :: cs => changes H c || any_change static (perform static H c) cs
  end.

(** A host that is not known is deleted after a change. *)
Fixpoint deletes_unknown (static H : hosts) (changed : bool) (cs : list command) : bool :=
  match cs with
  | [] => false
  | c :: cs =>
    (changed && match c with Remove k => negb (bool_decide (is_Some (H !! k))) | _ => false end)
    || deletes_unknown static (perform static H c) (changed || changes H c) cs
  end.

(** What the code answers for one value: a deletion forgets the values before it. *)
Definition answer (H : hosts) (res : bool) (c : command) : bool :=
  match c with Remove _ => changes H c | _ => res || changes H c end.

Lemma plain_health up m : plain_keys m -> plain_keys (set_health up m).
Proof. intros H. unfold set_health. destruct (health_known m up); [done|]. apply plain_insert; [done|apply disabled_dotless|done]. Qed.

Lemma hosts_plain n H k : hosts_rep n H -> plain_keys (default ∅ (H !! k)).
Proof. intros Hn. pose proof (hn_child _ _ (hr_hosts _ _ Hn) k) as Hc. destruct (H !! k); [apply Hc|exact plain_empty]. Qed.

Lemma value_performed static Hs v c dst H res :
  static_rep static Hs -> hosts_rep (root_or_new dst) H -> decodes v c ->
  exists dst', update_value yajl static (Some host) (Some appl) v dst res = Some (dst', answer H res c) /\
    hosts_rep (root_or_new dst') (perform Hs H c).
Proof.
  intros Hst Hr Hd. unfold update_value. destruct c as [|k|k d|k up|]; cbn [decodes] in Hd.
  - destruct Hd as [rest ->]. cbn [lookup list_lookup mbind option_bind]. rewrite bool_decide_true by done.
    destruct (merge_static static Hs Hst) as (r & n & -> & Hn). exists (Some n). cbn [answer changes]. by rewrite orb_true_r.
  - destruct Hd as [rest ->]. cbn [lookup list_lookup mbind option_bind]. rewrite bool_decide_false, bool_decide_true by done.
    destruct (delete_host dst H k Hr) as (n & -> & Hn). by exists (Some n).
  - destruct Hd as ([rest ->] & Hk & Hd). cbn [lookup list_lookup mbind option_bind]. do 2 rewrite bool_decide_false by done.
    rewrite (bool_decide_true (bytes "config" = bytes "config")) by done. cbn [orb]. destruct d as [d|].
    + destruct Hd as (n & Hc & Hrep & Hp). set (m := configure (merged_values host appl d) (default ∅ (H !! k))).
      destruct (at_host_rep (parse_config_value yajl (v_value v) (Some host) (Some appl)) (root_or_new dst) H k
        (bool_decide (m ≠ default ∅ (H !! k))) m Hr Hk) as (n' & -> & Hn'); [|by apply plain_configure, (hosts_plain _ _ _ Hr)|by exists (Some n')].
      intros s Hf Hps. by apply (parse_config_flat yajl host appl Hhost Happl Hhs Has (v_value v) n).
    + destruct (at_host_rep (parse_config_value yajl (v_value v) (Some host) (Some appl)) (root_or_new dst) H k false (default ∅ (H !! k)) Hr Hk) as (n' & -> & Hn').
      * intros s Hf _. exists s. by rewrite config_unread.
      * by apply (hosts_plain _ _ _ Hr).
      * exists (Some n'). cbn [mbind option_bind perform andb answer changes]. by rewrite !orb_false_r.
  - destruct Hd as ([rest ->] & Hk & ->). cbn [lookup list_lookup mbind option_bind]. do 3 rewrite bool_decide_false by done.
    rewrite (bool_decide_true (bytes "health" = bytes "health")) by done. cbn [orb]. set (up := bool_decide (v_value v = bytes "up")).
    destruct (at_host_rep (parse_health_value (v_value v)) (root_or_new dst) H k
      (negb (health_known (default ∅ (H !! k)) up)) (set_health up (default ∅ (H !! k))) Hr Hk) as (n' & -> & Hn');
      [|by apply plain_health, (hosts_plain _ _ _ Hr)|by exists (Some n')].
    intros s Hf Hps. by apply parse_health_flat.
  - destruct Hd as (c & rest & -> & Hf & Hc). cbn [lookup list_lookup mbind option_bind]. rewrite bool_decide_false by done. exists dst.
    cbn [answer changes]. rewrite orb_false_r.
    destruct Hc as [->|Hc]; [by repeat case_bool_decide|]. do 3 rewrite bool_decide_false by set_solver. done.
Qed.

Definition follow (Hs : hosts) (s : hosts * bool) (c : command) : hosts * bool := (perform Hs s.1 c, answer s.1 s.2 c).

Lemma values_performed static Hs vs cs dst H res idx :
  static_rep static Hs -> hosts_rep (root_or_new dst) H -> Forall2 decodes vs cs ->
  exists dst', update_config yajl static (Some host) (Some appl) vs dst res idx =
      Some (dst', (foldl (follow Hs) (H, res) cs).2, foldl Z.max idx (v_index <$> vs)) /\
    hosts_rep (root_or_new dst') (foldl (perform Hs) H cs).
Proof.
  intros Hst Hr Hd. revert dst H res idx Hr. induction Hd as [|v c vs cs Hv _ IH]; intros dst H res idx Hr; [by exists dst|].
  cbn [update_config]. destruct (value_performed static Hs v c dst H res Hst Hr Hv) as (dst1 & -> & H1). cbn [mbind option_bind].
  destruct (IH dst1 _ (answer H res c) (if idx <? v_index v then v_index v else idx) H1) as (dst' & -> & H').
  exists dst'. cbn [foldl fmap list_fmap]. split; [|done]. repeat f_equal.
  destruct (Z.ltb_spec idx (v_index v)); lia.
Qed.

(** The answer is only true when there was a change. *)
Lemma told_changed Hs cs H res : (foldl (follow Hs) (H, res) cs).2 = true -> res || any_change Hs H cs = true.
Proof.
  revert H res. induction cs as [|c cs IH]; intros H res; cbn [foldl any_change].
  - by rewrite orb_false_r.
  - intros E. apply IH in E. rewrite orb_assoc. cbn [fst snd] in E.
    destruct c; cbn [answer] in E; destruct res; naive_solver.
Qed.

Lemma changed_told Hs cs H res : deletes_unknown Hs H res cs = false ->
  (foldl (follow Hs) (H, res) cs).2 = res || any_change Hs H cs.
Proof.
  revert H res. induction cs as [|c cs IH]; intros H res; cbn [foldl any_change deletes_unknown].
  - by rewrite orb_false_r.
  - intros [Hc Hd]%orb_false_iff. rewrite orb_assoc. unfold follow at 2. cbn [fst snd].
    assert (answer H res c = res || changes H c) as ->; [|by apply IH].
    destruct c; try done. cbn [answer changes]. destruct res; [|done]. simpl in *. by apply negb_false_iff in Hc.
Qed.

(** C9: the tree of the hosts follows the values of the queue: every value is handled, and
    the hosts are what the values ask for, in their order.  A flush leaves the static hosts,
    a deletion removes a host, a configuration leaves the merged sections for this host and
    application and whether the host is disabled, and a health value sets that.  The index
    is the greatest of the values.  The pool is only told when a value of the batch changed
    the hosts, and it is told of every such batch, except of one in which a host that is not
    known is deleted after the change. *)
Theorem update_config_follows static Hs vs cs dst H idx :
  static_rep static Hs -> hosts_rep (root_or_new dst) H -> Forall2 decodes vs cs ->
  exists dst' told,
    update_config yajl static (Some host) (Some appl) vs dst false idx = Some (dst', told, foldl Z.max idx (v_index <$> vs)) /\
    hosts_rep (root_or_new dst') (foldl (perform Hs) H cs) /\
    (told = true -> any_change Hs H cs = true) /\
    (deletes_unknown Hs H false cs = false -> told = any_change Hs H cs).
Proof.
  intros Hst Hr Hd. destruct (values_performed static Hs vs cs dst H false idx Hst Hr Hd) as (dst' & E & Hr').
  exists dst', (foldl (follow Hs) (H, false) cs).2. split; [done|]. split; [done|].
  split; [apply told_changed|apply changed_told].
Qed.
End Queue.

(** * Examples *)

Definition no_json (s : list Z) : list event * option (list Z) := ([], Some []).

(** A text with one section for every host and application. *)
Definition named_text : list Z := bytes "*.*.name=n" ++ [10].

Definition named : sections := {[ star_key := {[ star_key := {[ bytes "name" := bytes "n" ]} ]} ]}.

Definition named_tree : bconf_node :=
  default root_node (config_tree no_json named_text ≫= fun o => o ≫= fun o => o).

Lemma one_child n k c : node_ok n -> n_subs n = [c] -> n_key c = k -> forall k', child n k' = if decide (k' = k) then Some c else None.
Proof.
  intros Hok Hs Hk k'. destruct (decide (k' = k)) as [->|Hne].
  - rewrite <- Hk. apply child_of_sub; [done|]. rewrite Hs. left.
  - apply child_None. unfold keys. rewrite Hs. simpl. set_solver.
Qed.

Lemma one_level {A} (d : gmap (list Z) A) k v k' : d = {[ k := v ]} -> d !! k' = if decide (k' = k) then Some v else None.
Proof. intros ->. destruct (decide (k' = k)) as [->|Hne]; [apply lookup_singleton_eq|by apply lookup_singleton_ne]. Qed.

Lemma named_rep : config_rep named_tree named.
Proof.
  assert (forall n, node_okb n = true -> node_ok n) as Hok by apply node_okb_ok.
  split; [by apply Hok; vm_compute|]. intros a. rewrite (one_level named star_key {[ star_key := {[ bytes "name" := bytes "n" ]} ]} a) by done.
  erewrite (one_child named_tree star_key) by (try apply Hok; vm_compute; reflexivity). destruct (decide (a = star_key)); [|done].
  eexists. split; [done|]. intros b. rewrite (one_level _ star_key {[ bytes "name" := bytes "n" ]} b) by done.
  erewrite (one_child _ star_key) by (try apply Hok; vm_compute; reflexivity). destruct (decide (b = star_key)); [|done].
  eexists. split; [done|]. split; [by apply Hok; vm_compute|done|]. intros k. rewrite (one_level _ (bytes "name") (bytes "n") k) by done.
  erewrite (one_child _ (bytes "name")) by (try apply Hok; vm_compute; reflexivity). destruct (decide (k = bytes "name")); [|done].
  eexists. split; [done|]. done.
Qed.

Definition one_host : list sd_value :=
  [mk_value 5 [bytes "flush"] []; mk_value 7 [bytes "config"; bytes "k"] named_text; mk_value 6 [bytes "health"; bytes "k"] (bytes "up")].

Lemma update_config_follows_witness :
  exists dst, update_config no_json None (Some (bytes "h")) (Some (bytes "a")) one_host None false 0 = Some (dst, true, 7) /\
    hosts_rep (root_or_new dst) {[ bytes "k" := <[bytes "disabled" := bytes "0"]> {[ bytes "name" := bytes "n" ]} ]}.
Proof.
  destruct (update_config_follows no_json (bytes "h") (bytes "a")) with (static := None : option bconf_node) (Hs := ∅ : hosts) (vs := one_host)
    (cs := [Flush; Configure (bytes "k") (Some named); Health (bytes "k") true]) (dst := None : option bconf_node) (H := ∅ : hosts) (idx := 0)
    as (dst & told & E & Hr & _ & Ht); try (by apply (bool_decide_unpack _)); try apply hosts_rep_new.
  - split; [apply hosts_rep_new|done].
  - assert (valid_key (bytes "k")) as Hk by (unfold valid_key, char; by repeat constructor).
    apply Forall2_cons; split; [|apply Forall2_cons; split; [|apply Forall2_cons; split; [|done]]]; cbn [decodes].
    + by eexists.
    + split; [by eexists|]. split; [done|]. exists named_tree. split; [by vm_compute|]. split; [apply named_rep|].
      replace (merged_values _ _ named) with ({[ bytes "name" := bytes "n" ]} : values) by (by vm_compute).
      intros k [v [<- _]%lookup_singleton_Some]. split; [by apply (bool_decide_unpack _)|done].
    + split; [by eexists|]. split; [done|]. by vm_compute.
  - exists dst. rewrite E, Ht by (by vm_compute). split; [by vm_compute|].
    replace (foldl _ _ _) with ({[ bytes "k" := <[bytes "disabled" := bytes "0"]> {[ bytes "name" := bytes "n" ]} ]} : hosts) in Hr by (by vm_compute).
    done.
Defined.

(** Deleting a host that is not known hides that another host changed before: the pool is
    not told of the change. *)
Theorem delete_hides_change :
  exists dst h, update_config no_json None (Some (bytes "h")) (Some (bytes "a")) (one_host ++ [mk_value 8 [bytes "delete"; bytes "x"] []]) None false 0 =
      Some (Some dst, false, 8) /\
    find_path dst [bytes "host"; bytes "k"] = Some h /\ host_complete h = Some true.
Proof. eexists _, _. split; [vm_compute; reflexivity|]. split; [vm_compute; reflexivity|]. by vm_compute. Qed.
